(* ===== verification/_CoqProject ===== *)
-Q . S2P
Prelude.v
Cadence.v
Todos.v
GoalState.v
Contract.v
Signals.v
GoalFrontier.v
Decision.v
CadenceProps.v
Json.v
GoalProps.v
SignalsProps.v
FrontierProps.v
DecisionProps.v
Ledger.v
LedgerProps.v
TaskLease.v
TaskLeaseProps.v
TaskGraph.v
TaskGraphProps.v
WorkspaceGuard.v
LedgerStore.v
LedgerStoreProps.v
TodoChangeProps.v
RunQueue.v
CanonicalJson.v
RunQueueProps.v
RunQueueSpec.v
RunQueueSystem.v
RunQueueClaims.v
TaskTypes.v
TaskScheduleProps.v
TaskStore.v
TaskTick.v
TaskService.v
TaskRemote.v
TaskLedgerProps.v
TaskSystem.v
TaskSystemClaims.v
TaskFormProps.v
SandboxPaths.v
SandboxRules.v
GlobScan.v
SandboxPlan.v
SandboxShell.v
GlobProps.v
AbsPaths.v
GlobScanProps.v
SandboxRulesProps.v
SandboxPlanProps.v
SandboxShellProps.v
SandboxClaims.v
SessionEntry.v
RunJournal.v
RunJournalProps.v
SessionRepair.v
SessionRepairProps.v
SessionHealProps.v
Checkpoint.v
Compaction.v
CompactionPlan.v
Evidence.v
SessionFork.v
CompactionProps.v
RestartProps.v
CompactionSafety.v
EvidenceProps.v
ForkProps.v
SessionClaims.v
RunControl.v
SessionRuntime.v
RunControlProps.v
SseDecoder.v
SseProps.v
ContentRange.v
Coalesce.v
CoalesceProps.v
CoalesceClaims.v
