(* ===== verification/Prelude.v ===== *)
(** * Verification of the control planes of FutureOS

    FutureOS runs software agents.  Six of its parts decide when an agent
    works, on what, what it may touch, what it remembers and what a remote reader
    sees of it; this library models them and proves what makes them correct:
    - the goal orchestrator (the crate src/orchestration/goal), the
      deterministic control plane that decides, on every turn of every agent,
      whether to work, on what, whether to ask the user, to wait, to replan or
      to stop for good; its state is a ledger of events, everything else a pure
      function of that ledger and the clock;
    - the run queue of the agent runtime (src/agent/src/runtime), which admits,
      orders, folds, parks and supersedes the prompts of a session under a
      process-wide budget, and the control of the one run a session has at a
      time: its phases, its cancellation and the threads that end it;
    - scheduled tasks (src/orchestration/tasks and src/host/src/tasks.rs), which
      run a user's tasks on their schedule and keep a ledger of the runs;
    - the agent's sandbox (src/agent/src/sandbox), which decides every file
      access by layered rules and compiles the rules into the mounts a shell
      command runs under, as a Linux build has it;
    - the agent's session journal (src/agent/src/session and
      src/agent/src/compaction), which records runs and messages, repairs what a
      crash left behind, replaces old history by checkpoints, and is copied when
      a session is forked;
    - the event lane of the remote server (src/packages/remote-server/src/events
      and src/packages/rpc/src/content_range.rs), which carries a run's events to
      a phone, merged where they are fragments of one text.

    ** The program's parts and how they interact

    - A goal holds todos (advancement work, user gates and actions, monitors,
      blockers, coordination), acceptance gaps, agents, deliveries and
      histories (state.rs).  Queries over it give the frontier of an agent:
      the advancement todos it may work on now.
    - The decision kernel ([decide_for], decision/mod.rs) compiles a goal, a
      clock and an agent into one packet with an interaction contract; the
      arbitration pass checks the contract before the packet leaves.
    - The frontier read models (decision/goal_frontier) judge when a goal is
      terminal, which work must be replanned, and which rule governs it.
    - The ledger (store.rs) is an append-only file of events: [apply] folds
      them into a goal, [replay] rebuilds it; reading collapses repeated lines
      by a content-derived id; appends and claims run under a file lock.
    - Concurrent worker processes claim todos under leases (task_lease.rs, and
      the claim transaction of store.rs), guarded by declared workspaces
      (agents/workspace_guard.rs); dependency edits are checked against the
      task graph (work_items/task_graph.rs) under the same lock.
    - A session's run queue accepts a request by its busy policy, hands out one
      run at a time, folds coalescing prompts, and parks prompts that waited too
      long; every waiting row reserves bytes in one budget shared by all queues.
    - The session's runtime starts the run: a control holds its phase under a
      mutex, a monitor task watches its task and settles the control when it
      ends, timers mark a cancellation that takes too long as stuck, and a run
      whose journal could not be written stays until it is recovered.  While it
      runs, a decoder cuts the provider's bytes into the frames of its stream.
    - The events of all sessions travel to a remote reader on one ordered lane;
      consecutive fragments of a text are merged inside a short window, and a
      consumer of canonical content trims the ranges it has already applied.
    - A task's kernel computes its next due instant; the store keeps tasks, runs
      and prompt revisions in three tables; the host's tick settles the runs of
      dead hosts, claims the due tasks and starts an executor for each; the
      desktop and the phone edit tasks through the same store.
    - The sandbox resolves a rule set for a workspace: built-in denials, grants
      of the command at hand, guards on secrets, session rules behind a shared
      handle, and two rule files, in that order.  File tools ask it directly;
      for a shell command it is frozen into a snapshot, whose globs a bounded
      scan expands, and compiled into an ordered list of mounts that travels to
      a helper process in a validated request.
    - A session is a list of entries.  Markers among them say which run started,
      stopped and ended; a restart reads them to learn what it interrupted.
      Loading heals the list so that a provider accepts it.  When the prompt
      outgrows the window, a compaction cuts it, keeps the user's words and the
      recent turns, and puts deterministic evidence of the tool results (and a
      model's summary, when there is one) in the place of the rest; the
      checkpoint it records is what a restart and a fork read.

    ** The files

    Data and operations, one file per component, each requiring the ones it
    calls:
    - Prelude: record update, machine integers, UTF-8 strings as byte strings
      with the standard library's operations, iterator idioms, sorted sets,
      automation.
    - Cadence: recurrence rules and poll intervals (scheduler/state.rs:47-138,
      scheduler/monitor_poll.rs:28-71).
    - Todos: [Todo] with every field, constructors, due-ness, claim, completion
      (state.rs:14-498).
    - GoalState: [Goal], its queries and mutators (state.rs:500-1601).
    - Contract: turn modes, channels, the packet, reason codes, slot accounting,
      arbitration (contract.rs, quota/, decision/arbitration.rs).
    - Signals: stall, oscillation, monitor outcome, the sorted frontier
      (decision/stall.rs, oscillation.rs, monitor.rs, frontier.rs).
    - GoalFrontier: outcome segments, semantic history, replan obligations and
      rules, the terminal judgement (decision/goal_frontier,
      work_items/replan_obligation.rs).
    - Decision: every packet and [decide_for] (decision/mod.rs).
    - Ledger: [Event] with its 44 variants, every arm of [apply], [replay], and
      the read models over raw events (store.rs:168-2388, agents/control.rs,
      quota/decision_summary.rs).
    - TaskLease and TaskGraph (work_items/task_lease.rs, task_graph.rs).
    - WorkspaceGuard: paths, write sets and live conflicts
      (agents/workspace_guard.rs).
    - LedgerStore: stored lines, digests, the parser, the locked append, the
      checked todo edit and the claim transaction (store.rs:65-161, 842-1140,
      1432-1622).

    - RunQueue: the queue's data and every operation (scheduler_queue.rs,
      run_request.rs, rpc/src/payloads_ext.rs); RunQueueSpec: the abstract queue
      and the invariant; RunQueueSystem: several queues on one budget.
    - RunControl: the critical sections of a run's state machine
      (runtime/run_state.rs); SessionRuntime: the operations of the runtime and
      their interleavings with the monitor, the timers and the recovery, as a
      step relation (runtime/session_runtime.rs); SseDecoder: the provider's
      event stream (llm/sse.rs).
    - ContentRange: the cursors of a consumer (rpc/src/content_range.rs);
      Coalesce: the coalescer and the publisher of the event lane
      (remote-server/src/events.rs, events/coalesce.rs).
    - TaskTypes: records, schedules, next due instants, settle reasons,
      truncation, revisions, the run envelope (types.rs, timezone.rs,
      kernel.rs); TaskStore: the tables, their constraints and every statement
      (store.rs); TaskTick: tick, claim, open, settle, interrupt
      (src/host/src/tasks.rs); TaskService: the desktop's form
      (tasks/service.rs); TaskRemote: the phone's commands
      (remote_host/business/tasks.rs); TaskSystem: host, executors and clients
      as a step relation with its invariant.
    - SandboxPaths: home directories, canonical paths, containment
      (sandbox/paths.rs, utils/mod.rs, rpc/src/home.rs); SandboxRules: rules,
      globs, rule files, built-in layers, the rule set and its grants
      (sandbox/rules.rs); GlobScan: the bounded scan (sandbox/linux/glob_scan.rs);
      SandboxPlan: the mount plan (sandbox/linux/plan.rs); SandboxShell: tiers,
      the helper request, shell preparation and single-command permissions
      (sandbox/mod.rs, file_request.rs, linux/request.rs, linux/runner.rs).
    - Json: JSON values; SessionEntry: messages, content blocks and journal
      entries (types/mod.rs, session/entry.rs); RunJournal: the markers, their
      readers and the transactions that write them (session/run_journal.rs,
      session/manager/mod.rs, session/sqlite_store/transcript.rs);
      SessionRepair: healing on load (session/repair.rs,
      session/manager/loading.rs); Checkpoint (session/checkpoint.rs);
      Compaction: token estimates, budgets and the prompt projection
      (compaction/mod.rs, compaction/budget.rs); CompactionPlan: the cut, the
      plan and its commit (compaction/semantic.rs); Evidence: the evidence rows,
      staging, and both ways to compact (compaction/semantic/evidence.rs);
      SessionFork (session/fork.rs).

    A definition has the name of the function it models; a [match] arm, a loop
    body or a branch that the proofs speak about is a definition of its own.
    Methods that mutate [&mut self] return the new record; fallible functions
    return the error message or the result ([string + A], or [result]);
    [Option] is [option].

    ** What the theorems show

    - DecisionProps: [decide_for] refines an ordered decision table of fourteen
      steps (the specification, in [Step]); every packet's contract is
      consistent; automation may stop only on a cancelled or a closed goal; a
      delivery names work the agent is authorised to do; what reaches the
      closing step unclosed.
    - GoalProps: the frontier is sound and complete against a declarative
      reading of blocking, leases and ownership; [is_terminal] is closure;
      claims grant and exclude.
    - FrontierProps: the terminal judgement agrees with [is_terminal]; replan
      rule selection is total; outcome segments partition the history; the
      semantic history keeps the newest fifty events.
    - SignalsProps: the alternation detector measures the longest alternating
      suffix, and depends neither on silent runs nor on ledger order.
    - CadenceProps: written rules and interval strings are read back exactly.
    - LedgerProps: every replayed goal is well formed; replay does not depend on
      the clock; which events reopen a closed or superseded todo; streaks,
      heartbeats, quota, steering and controls are what the ledger says.
    - TaskLeaseProps: the lease operations refine the abstract lease [lease_spec]
      and exclude other agents under any interleaving.
    - TaskGraphProps: a dependency edit is accepted exactly when it closes no
      cycle; Kahn's order is total on acyclic goals and withheld on cyclic ones.
    - LedgerStoreProps: for every sequence of concurrent transactions, whatever
      the order in which they read the clock, the write sets of live agents stay
      disjoint in the folded ledger from the latest instant read on, as long as
      no process id is reused (a step relation and its invariant, proved against
      the interface [GuardSound] that WorkspaceGuard discharges), and a leased
      todo is granted to nobody else; a repeated claim is lost, so two agents can
      be told that they hold one todo ([repeated_claim_is_lost]).
    - TodoChangeProps: a ledger grown by checked edits never folds to a cyclic
      goal.

    - RunQueueClaims and CanonicalJson: the queue refines the abstract line of
      runs, with its limits, its newest verdicts and a reason for every refusal;
      its state stays well formed and within its limits under any interleaving of
      sessions; the shared budget never exceeds its bounds, and equals the
      reservations of the waiting rows as long as no session supersedes over
      parked prompts, whose bytes then escape it; resubmitting is idempotent,
      folding maximal and bounded, released prompts startable; the request digest
      ignores the order of keys.
    - RunControlProps: under every interleaving a session has at most one run and
      an active run has a thread that ends it or is stuck or degraded; a user's
      stop stands and reaches its run whatever comes first; once a run's threads
      have ended the session admits the next one, at once or after the recovery
      of a degraded run; a late timer undoes the fence around a degraded run.
    - SseProps: the frames of a stream do not depend on how it is cut into
      pieces, as long as no piece meets the length limit (a cutting of a stream
      without errors is refused exactly where [cuts_fit] fails);
      frames sent are frames read.
    - CoalesceProps: what the lane publishes stands for the events that arrived,
      each for a run of consecutive fragments ([stands_for]); CoalesceClaims: the
      reader that appends texts and the consumer of ranges; no event is lost and no reader can see the merging, for any rounds of the
      publisher, where what is printed as JSON is read back and the events are
      [made] as the agent makes them.

    - TaskScheduleProps: due instants lie in the future, intervals keep their
      grid, and in a zone without clock changes a calendar schedule names the
      first instant it fires at; what clock changes lose.
    - TaskLedgerProps: rows are read back as written, a settled run says how it
      ended, truncation is bounded.
    - TaskSystemClaims: one run in flight per task and one per slot, whatever the
      interleaving; the tick is a sequence of steps and starts what is due unless
      a stop is observed; a first run that opens its task's conversation makes its slot due again.
    - TaskFormProps: prompt histories are complete; an edit refused for its name
      freezes the prompt; the phone's edit is the desktop's, except on a deleted
      task.

    - GlobProps: the rule engine's expression, the plan's memoised matcher and
      the scan's expression agree with one specification of globs, for any
      engine that respects the laws [RegexLaws] of the syntax they emit.
    - SandboxRulesProps: whatever is added or granted, the application's own
      files stay denied and a secret needs a grant; a rule file loses nothing in
      silence.
    - GlobScanProps: a scan that succeeds returns, for each pattern, exactly the
      matching paths of a full listing of its root: sharing walks, pruning and the
      depth filter lose nothing, for any file system with the laws [WalkLaws]
      (AbsPaths has the absolute paths they speak about).
    - SandboxPlanProps: where the rules can be mounted ([mountable]), what the
      mounts of a compiled plan let a command read or write, the rules allow;
      SandboxClaims shows what a denial above the workspace and an allow by a
      glob lose; a rule file with a bad entry stops the shell.
    - SandboxShellProps: a prepared permission grants exactly what was asked.
      SandboxClaims has the sandbox at work on one machine.

    - RunJournalProps: whatever the manager does, at most one run of a journal
      is open, and the three rows a bounded read selects decide which run is
      unterminated and which may be resumed as the whole journal does.
    - SessionRepairProps: the repair loops compute a recursive specification
      ([repair_spec]: [attach], then [fill]); a recorded result reaches the
      window of its call, and every call is answered.  SessionHealProps: a
      journal as the agent writes it loads as a conversation a provider accepts,
      and loading loses nothing; of an id used twice the first real result is
      kept and the later call is answered by a placeholder.
    - Checkpoint: a checkpoint is read back as it was stored.
    - CompactionProps and CompactionSafety: what a plan keeps; a compaction keeps
      the user's words and parts no result from its call.  EvidenceProps: the
      evidence always fits.  RestartProps: what is projected after a restart is
      the compacted prompt.  ForkProps: a checkpoint of the parent has its copy in
      the fork exactly when its evidence can be renamed, and the copy is in force
      there.  SessionClaims instantiates these theorems on concrete sessions.

    ** Conventions, bounds and fuel

    - [u32], [u64] and [SystemTime] are [Z]; wrapping and saturating additions
      are written out ([u32_add], [u64_sat_add]).  [SystemTime] is nanoseconds
      since the epoch.  Floating-point money amounts are carried, never
      computed with.
    - Strings are their UTF-8 bytes.  [to_uppercase] is exact up to characters
      no ASCII word can come from, which is all its callers compare with.
    - [matches_from] has the lengths of pattern and path as fuel; GlobProps proves
      that it decides [glob_spec], so it does not run out.
    - Fuel appears in [search] (twice the number of edges), [kahn] (the number of
      nodes), [cycle_walk] (the number of leftover nodes plus one), [strip_ws]
      and [split_ws_bytes] (the length of the string).  TaskGraphProps proves
      that the first three never run out; the last two consume a byte a round.
      [local_slot] has the source's own bound, [MAX_GAP_DAYS] plus one rounds.
    - [i64] arithmetic on instants wraps ([i64_add]); a date is the number of its
      day, a time of day its milliseconds.  A panic inside chrono on an interval
      beyond its range is outside the model.
    - The loops of the repair over a vector are folds and recursions over a list
      with indices in [nat]; [missing_results] has the length of the journal as
      fuel, and each round moves its index on; the loop over the newlines of a
      stream has one round per byte ([line_loop_spec]).  Token sums are [u64_sum], at the
      width of the code.
    - A table is the list of its rows; a write checks the schema's constraints.
      A step of the task system is one write under SQLite's own lock, or the
      writes of one run's row.
    - Parameters stand for the environment: the home directory, [canonicalize],
      process liveness, the process id, fresh uuids, chrono's local-time
      rendering, its calendar and zones, SHA-256, serde_json's text.  No property
      assumes more of them than it states: the concurrency theorem of the goal
      ledger assumes that no recorded holder's process id comes back to life;
      the schedule theorems state the
      laws of the calendar they use.  The sandbox's parameters are the file
      system ([canonicalize], metadata, directory walks), the environment, the
      clock, regular expressions, JSON text and hashing, with the laws of regular
      expressions and directory walks named ([RegexLaws], [WalkLaws]); the
      refinement of the mount plan is stated for paths with no symbolic link left
      in them whose ancestors the walks list ([mountable]).  The session's are
      fresh ids, the clock, the text of a JSON value, the serde of a usage
      record, the summary a model returns and the loads of the interrupt flag.
    - A transaction is one step because the source holds the file's exclusive
      lock from the read to the write; the lock itself is the operating
      system's.

    ** What is not modelled

    Process execution, gRPC clients, the command line, the web interface and
    rendering (I/O around the core); serde and the migration of old schemas
    (deserialised lines and current rows are the model's input); backup and
    restore; SQLite itself, and the agent's side of a task run. The persisted
    scheduler state, turn envelopes, run history indices, supervision and the
    operator's inbox of the goal orchestrator are pure code outside this
    library's core, as are tokio's tasks and timers (they appear as the steps of
    the runtime's relation), the body of a run and the other programs of the
    repository (the agent's loop and its provider adapters, the remote server, the
    terminal interface); of the remote server, paging, the lean feed, the secure
    channel and the supervision of connections. Of the session, the statements and schemas of its
    database, the staged content of queued receipts, the display projections and
    the request to the summarising model are not modelled. Of the sandbox, the
    helper process and its system calls, the probe of bubblewrap, and the macOS
    and Windows back ends are not modelled, nor are Windows path rules. *)
From stdpp Require Export base tactics option list strings pretty gmap numbers sorting.
From Stdlib Require Export ZArith Lia Ascii String.
From Stdlib Require OrdersEx.

(** * Record update

    [r <| f := v |>] is [r] with field [f] set to [v], and [r <| f ::= g |>]
    is [r] with [g] applied to field [f]: Rust's [r.f = v].  A record opts in
    by giving its eta expansion as an instance of [Eta]; the setter of a
    projection is computed by abstracting that projection out of the
    expansion. *)
Class Eta (T : Type) := eta : T -> T.
Class Setter {T A : Type} (p : T -> A) := set_field : (A -> A) -> T -> T.
Arguments set_field {T A} p {_} _ _ /.

Ltac derive_setter p :=
  match type of p with
  | ?T -> ?A =>
      let inst := constr:(_ : Eta T) in
      let g := fresh "g" in
      let r := fresh "r" in
      intros g r;
      let body := eval cbv [eta] in (@eta T inst r) in
      let body := eval hnf in body in
      let body := eval pattern (p r) in body in
      match body with
      | ?ctx _ => let t := eval cbv beta in (ctx (g (p r))) in exact t
      end
  end.

#[export] Hint Extern 1 (@Setter _ _ ?p) =>
  (unfold Setter; derive_setter p) : typeclass_instances.

Declare Scope goal_scope.
Delimit Scope goal_scope with goal.
Notation "r <| f ::= g |>" := (set_field f g r)
  (at level 1, f at level 10, left associativity) : goal_scope.
Notation "r <| f := v |>" := (set_field f (fun _ => v) r)
  (at level 1, f at level 10, left associativity) : goal_scope.
Open Scope goal_scope.
Open Scope string_scope.
Open Scope list_scope.
Open Scope Z_scope.

(** * Machine integers

    [u32], [u64] and [usize] are [Z]; a release build of the crate wraps on
    overflow of [+], and [saturating_*] clamps. *)
Abbreviation u32 := Z (only parsing).
Abbreviation u64 := Z (only parsing).
Abbreviation i32 := Z (only parsing).
Abbreviation usize := Z (only parsing).
(** IEEE-754 bits of an [f64] the model stores and never computes with. *)
Abbreviation f64 := Z (only parsing).
(** [std::time::SystemTime]: nanoseconds since the Unix epoch. *)
Abbreviation SystemTime := Z (only parsing).

Definition u32_max : Z := 4294967295.
Definition u64_max : Z := 18446744073709551615.
Definition u32_add (a b : Z) : Z := (a + b) mod 4294967296.
Definition u64_add (a b : Z) : Z := (a + b) mod 18446744073709551616.
Definition u32_sat_add (a b : Z) : Z := Z.min u32_max (a + b).
Definition u64_sat_add (a b : Z) : Z := Z.min u64_max (a + b).
Definition u64_sat_mul (a b : Z) : Z := Z.min u64_max (a * b).
Definition u64_mul (a b : Z) : Z := (a * b) mod 18446744073709551616.
Definition u64_sat_sub (a b : Z) : Z := Z.max 0 (a - b).
Definition u64_checked_mul (a b : Z) : option Z :=
  if a * b <=? u64_max then Some (a * b) else None.

Definition nanos_per_sec : Z := 1000000000.
Definition nanos_per_milli : Z := 1000000.
(** [t.duration_since(UNIX_EPOCH).unwrap_or_default().as_secs()] *)
Definition as_epoch_secs (t : SystemTime) : u64 := Z.max 0 t / nanos_per_sec.
(** [UNIX_EPOCH + Duration::from_secs(s)] *)
Definition epoch_secs_as_time (s : u64) : SystemTime := s * nanos_per_sec.

Definition fits_u32 (z : Z) : Prop := 0 <= z <= u32_max.
Definition fits_u64 (z : Z) : Prop := 0 <= z <= u64_max.

Lemma u32_add_small a b : 0 <= a -> 0 <= b -> a + b <= u32_max -> u32_add a b = a + b.
Proof. unfold u32_add, u32_max. intros. apply Z.mod_small. lia. Qed.

Lemma u64_add_small a b : 0 <= a -> 0 <= b -> a + b <= u64_max -> u64_add a b = a + b.
Proof. unfold u64_add, u64_max. intros. apply Z.mod_small. lia. Qed.

Lemma u32_sat_add_fits a b : fits_u32 a -> fits_u32 b -> fits_u32 (u32_sat_add a b).
Proof. unfold fits_u32, u32_sat_add, u32_max. lia. Qed.

(** * JSON values ([serde_json::Value]) *)
#[warnings="-register-all"]
Inductive json :=
| JNull
| JBool (b : bool)
| JNum (n : Z)
| JStr (s : string)
| JArr (l : list json)
| JObj (fields : list (string * json)).

(** * Strings: Rust's [str] as UTF-8 bytes *)
Infix "=?s" := String.eqb (at level 70).

Definition byte_code (c : ascii) : N := N_of_ascii c.
Definition is_ascii_digit (c : ascii) : bool :=
  (48 <=? byte_code c)%N && (byte_code c <=? 57)%N.
Definition is_continuation (c : ascii) : bool :=
  (128 <=? byte_code c)%N && (byte_code c <=? 191)%N.
Definition ascii_lower (c : ascii) : ascii :=
  if (65 <=? byte_code c)%N && (byte_code c <=? 90)%N
  then ascii_of_N (byte_code c + 32) else c.
Definition ascii_upper (c : ascii) : ascii :=
  if (97 <=? byte_code c)%N && (byte_code c <=? 122)%N
  then ascii_of_N (byte_code c - 32) else c.

Fixpoint string_map (f : ascii -> ascii) (s : string) : string :=
  match s with
  | EmptyString => EmptyString
  | String c r => String (f c) (string_map f r)
  end.
Definition to_ascii_lowercase : string -> string := string_map ascii_lower.
Definition to_ascii_uppercase : string -> string := string_map ascii_upper.

Definition starts_with (p s : string) : bool := String.prefix p s.

Fixpoint drop_bytes (n : nat) (s : string) : string :=
  match n, s with
  | S n, String _ r => drop_bytes n r
  | _, _ => s
  end.
Definition strip_prefix (p s : string) : option string :=
  if starts_with p s then Some (drop_bytes (String.length p) s) else None.

Fixpoint str_contains (sub s : string) : bool :=
  String.prefix sub s ||
  match s with
  | EmptyString => false
  | String _ r => str_contains sub r
  end.

(** [s.split(c)]: always at least one piece. *)
Fixpoint split_on (c : ascii) (s : string) : list string :=
  match s with
  | EmptyString => [""]
  | String a r =>
      if Ascii.eqb a c then "" :: split_on c r
      else match split_on c r with
           | [] => [String a ""]
           | p :: ps => String a p :: ps
           end
  end.

Definition join (sep : string) (l : list string) : string := String.concat sep l.

(** [char::is_whitespace] (the Unicode [White_Space] property) on UTF-8:
    the width in bytes of the whitespace character a byte list starts with,
    or 0. *)
Definition ws1 (a : N) : bool := ((9 <=? a)%N && (a <=? 13)%N) || (a =? 32)%N.
Definition ws2 (a b : N) : bool := (a =? 194)%N && ((b =? 133)%N || (b =? 160)%N).
Definition ws3 (a b c : N) : bool :=
  ((a =? 225)%N && (b =? 154)%N && (c =? 128)%N)
  || ((a =? 226)%N && (b =? 128)%N &&
      (((128 <=? c)%N && (c <=? 138)%N) || (c =? 168)%N || (c =? 169)%N || (c =? 175)%N))
  || ((a =? 226)%N && (b =? 129)%N && (c =? 159)%N)
  || ((a =? 227)%N && (b =? 128)%N && (c =? 128)%N).

Definition ws_width (l : list N) : nat :=
  match l with
  | a :: rest =>
      if ws1 a then 1%nat else
      match rest with
      | b :: rest' =>
          if ws2 a b then 2%nat else
          match rest' with
          | c :: _ => if ws3 a b c then 3%nat else 0%nat
          | [] => 0%nat
          end
      | [] => 0%nat
      end
  | [] => 0%nat
  end.
(** The same for a reversed byte list, i.e. the last character of a string. *)
Definition ws_width_rev (l : list N) : nat :=
  match l with
  | c :: rest =>
      if ws1 c then 1%nat else
      match rest with
      | b :: rest' =>
          if ws2 b c then 2%nat else
          match rest' with
          | a :: _ => if ws3 a b c then 3%nat else 0%nat
          | [] => 0%nat
          end
      | [] => 0%nat
      end
  | [] => 0%nat
  end.

Fixpoint strip_ws (width : list N -> nat) (fuel : nat) (l : list N) : list N :=
  match fuel with
  | O => l
  | S fuel => match width l with
              | O => l
              | n => strip_ws width fuel (drop n l)
              end
  end.

Definition string_bytes (s : string) : list N := List.map N_of_ascii (list_ascii_of_string s).
Definition bytes_string (l : list N) : string := string_of_list_ascii (List.map ascii_of_N l).

(** [s.trim()].  Every round removes at least one byte, so the length is fuel
    enough. *)
Definition trim (s : string) : string :=
  let l := string_bytes s in
  let l := strip_ws ws_width (List.length l) l in
  let l := strip_ws ws_width_rev (List.length l) (List.rev l) in
  bytes_string (List.rev l).

Definition is_blank (s : string) : bool := trim s =?s "".

(** [str::chars] on UTF-8: a character is its bytes. *)
Fixpoint chars (s : string) : list string :=
  match s with
  | EmptyString => []
  | String c r =>
      match r with
      | String d _ =>
          if is_continuation d
          then match chars r with x :: xs => String c x :: xs | [] => [String c ""] end
          else String c "" :: chars r
      | EmptyString => [String c ""]
      end
  end.
Definition of_chars (cs : list string) : string := String.concat "" cs.
Lemma append_assoc (a b c : string) : (a +:+ b) +:+ c = a +:+ (b +:+ c).
Proof.
  induction a as [|x a IH]; [done|].
  change (String x ((a +:+ b) +:+ c) = String x (a +:+ (b +:+ c))). by rewrite IH.
Qed.
Lemma append_nil_r (a : string) : a +:+ "" = a.
Proof. induction a as [|x a IH]; [done|]. change (String x (a +:+ "") = String x a). by rewrite IH. Qed.
(** A text that starts with a character keeps its characters when appended. *)
Definition starts_char (t : string) : Prop :=
  match t with EmptyString => True | String b _ => is_continuation b = false end.
Lemma chars_cons c r : chars (String c r)
  = match r with
    | String d _ => if is_continuation d
                    then match chars r with x :: xs => String c x :: xs | [] => [String c ""] end
                    else String c "" :: chars r
    | EmptyString => [String c ""]
    end.
Proof. by destruct r. Qed.
Lemma chars_nonempty c r : exists x xs, chars (String c r) = String c x :: xs.
Proof.
  rewrite chars_cons. destruct r as [|d r]; [eauto|]. destruct (is_continuation d); [|eauto].
  destruct (chars (String d r)); eauto.
Qed.
Lemma chars_app s t : starts_char t -> chars (s +:+ t) = chars s ++ chars t.
Proof.
  intros Ht. induction s as [|c s IH]; [done|]. change (String c s +:+ t) with (String c (s +:+ t)).
  rewrite !chars_cons. destruct s as [|d s].
  - change ("" +:+ t) with t. destruct t as [|b t]; [done|]. cbn in Ht. by rewrite Ht.
  - change (String d s +:+ t) with (String d (s +:+ t)). change (String d s +:+ t) with (String d (s +:+ t)) in IH.
    cbv iota. destruct (is_continuation d); [|by rewrite IH].
    rewrite IH. by destruct (chars_nonempty d s) as (x & xs & ->).
Qed.

(** [s.chars().count()] and [s.chars().take(n).collect::<String>()] *)
Fixpoint char_count (s : string) : nat :=
  match s with
  | EmptyString => O
  | String c r => if is_continuation c then char_count r else S (char_count r)
  end.
Fixpoint char_take (n : nat) (s : string) : string :=
  match s with
  | EmptyString => ""
  | String c r =>
      if is_continuation c then String c (char_take n r)
      else match n with
           | O => ""
           | S n => String c (char_take n r)
           end
  end.

Lemma length_append s t : String.length (s +:+ t) = (String.length s + String.length t)%nat.
Proof. induction s as [|c s IH]; [done|].
  change (S (String.length (s +:+ t)) = S (String.length s + String.length t)). by rewrite IH.
Qed.

(** [s.parse::<u64>()]: an optional [+], then digits, and no overflow. *)
Fixpoint digits_value (acc : Z) (s : string) : option Z :=
  match s with
  | EmptyString => Some acc
  | String c r =>
      if is_ascii_digit c
      then let acc := 10 * acc + Z.of_N (byte_code c - 48) in
           if acc <=? u64_max then digits_value acc r else None
      else None
  end.
Definition parse_u64 (s : string) : option u64 :=
  let s := match s with
           | String "+" (String _ _ as r) => r
           | _ => s
           end in
  match s with
  | EmptyString => None
  | _ => digits_value 0 s
  end.

(** [s.parse::<i64>()]: an optional sign, then digits, within the range. *)
Definition i64_max : Z := 9223372036854775807.
Definition parse_i64 (s : string) : option Z :=
  match s with
  | EmptyString => None
  | String "-" EmptyString | String "+" EmptyString => None
  | String "-" r =>
      match digits_value 0 r with
      | Some n => if n <=? i64_max + 1 then Some (- n) else None
      | None => None
      end
  | String "+" r | r =>
      match digits_value 0 r with
      | Some n => if n <=? i64_max then Some n else None
      | None => None
      end
  end.

(** [s.split_once(c)] *)
Fixpoint split_once (c : ascii) (s : string) : option (string * string) :=
  match s with
  | EmptyString => None
  | String a r =>
      if Ascii.eqb a c then Some (EmptyString, r)
      else match split_once c r with
           | Some (k, v) => Some (String a k, v)
           | None => None
           end
  end.

(** [s.split_whitespace()]: the non-empty runs between whitespace. *)
Fixpoint split_ws_bytes (fuel : nat) (acc l : list N) : list (list N) :=
  let emit rest := match acc with [] => rest | _ => List.rev acc :: rest end in
  match fuel, l with
  | S fuel, b :: r =>
      match ws_width l with
      | O => split_ws_bytes fuel (b :: acc) r
      | n => emit (split_ws_bytes fuel [] (drop n l))
      end
  | _, _ => emit []
  end.
Definition split_whitespace (s : string) : list string :=
  let l := string_bytes s in List.map bytes_string (split_ws_bytes (List.length l) [] l).

(** [s.to_uppercase()], up to the characters no ASCII word can come from: the
    ASCII letters, the dotless i (U+0131) and the long s (U+017F), the sharp s
    and the Latin ligatures are mapped, and any other character is kept, which
    is outside ASCII before and after.  The source only compares the result
    with ASCII words. *)
Fixpoint to_uppercase (s : string) : string :=
  match s with
  | EmptyString => EmptyString
  | String c r =>
      let keep := String (ascii_upper c) (to_uppercase r) in
      match byte_code c, r with
      | 196%N, String d r' => if (byte_code d =? 177)%N then String "I" (to_uppercase r') else keep
      | 197%N, String d r' => if (byte_code d =? 191)%N then String "S" (to_uppercase r') else keep
      | 195%N, String d r' =>
          if (byte_code d =? 159)%N then String "S" (String "S" (to_uppercase r')) else keep
      | 239%N, String d (String e r') =>
          if (byte_code d =? 172)%N
          then match byte_code e with
               | 128%N => String.append "FF" (to_uppercase r')
               | 129%N => String.append "FI" (to_uppercase r')
               | 130%N => String.append "FL" (to_uppercase r')
               | 131%N => String.append "FFI" (to_uppercase r')
               | 132%N => String.append "FFL" (to_uppercase r')
               | 133%N | 134%N => String.append "ST" (to_uppercase r')
               | _ => keep
               end
          else keep
      | _, _ => keep
      end
  end.

(** Decimal rendering of an integer ([format!("{n}")]). *)
Definition show (n : Z) : string := pretty n.

(** * Lists: the iterator idioms of the source *)
Section Lists.
Context {A : Type}.
Implicit Types (p : A -> bool) (l : list A).

(** [if let Some(x) = l.iter_mut().find(p) { f(x) }] *)
Fixpoint update_first p (f : A -> A) l : list A :=
  match l with
  | [] => []
  | x :: r => if p x then f x :: r else x :: update_first p f r
  end.

(** [v.len()] as a [usize] or a [u32]/[u64] cast of it. *)
Definition len l : Z := Z.of_nat (List.length l).
(** [l.iter().filter(p).count()] *)
Definition count p l : Z := len (List.filter p l).

Definition is_empty l : bool := match l with [] => true | _ => false end.

Lemma is_empty_true l : is_empty l = true <-> l = [].
Proof. destruct l; naive_solver. Qed.
Lemma is_empty_false l : is_empty l = false <-> l <> [].
Proof. destruct l; naive_solver. Qed.

Lemma len_nonneg l : 0 <= len l.
Proof. unfold len. lia. Qed.
Lemma len_zero l : len l = 0 <-> l = [].
Proof. unfold len. destruct l; simpl; naive_solver lia. Qed.
Lemma len_pos l : 0 < len l <-> l <> [].
Proof. unfold len. destruct l; simpl; naive_solver lia. Qed.
Lemma len_app l1 l2 : len (l1 ++ l2) = len l1 + len l2.
Proof. unfold len. rewrite length_app. lia. Qed.

Lemma forall_in_cons (P : A -> Prop) a l :
  (forall x, In x (a :: l) -> P x) <-> P a /\ forall x, In x l -> P x.
Proof.
  split; [intros H; split; intros; apply H; simpl; auto|].
  intros [Ha Hl] x [<-|Hx]; auto.
Qed.

Lemma existsb_false p l : existsb p l = false <-> forall x, In x l -> p x = false.
Proof.
  induction l as [|a l IH]; [by split|].
  rewrite forall_in_cons. simpl. by rewrite orb_false_iff, IH.
Qed.

Lemma filter_nil_iff p l : List.filter p l = [] <-> forall x, In x l -> p x = false.
Proof.
  induction l as [|a l IH]; [by split|].
  rewrite forall_in_cons. simpl. destruct (p a) eqn:E; naive_solver.
Qed.

Lemma filter_nonempty p l : List.filter p l <> [] <-> exists x, In x l /\ p x = true.
Proof.
  split.
  - destruct (List.filter p l) as [|x r] eqn:E; [done|intros _].
    exists x. apply List.filter_In. rewrite E. by left.
  - intros (x & Hx & Hp) E.
    assert (In x []) as []. rewrite <- E. by apply List.filter_In.
Qed.

Lemma filter_ext_In p q l :
  (forall x, In x l -> p x = q x) -> List.filter p l = List.filter q l.
Proof. apply List.filter_ext_in. Qed.

Lemma find_none_iff p l : List.find p l = None <-> forall x, In x l -> p x = false.
Proof.
  induction l as [|a l IH]; [by split|].
  rewrite forall_in_cons. simpl. destruct (p a) eqn:E; naive_solver.
Qed.

Lemma update_first_none p f l : List.find p l = None -> update_first p f l = l.
Proof.
  induction l as [|a l IH]; simpl; [done|].
  destruct (p a); [done|]. intros H. by rewrite IH.
Qed.

Lemma update_first_length p f l :
  List.length (update_first p f l) = List.length l.
Proof. induction l as [|a l IH]; simpl; [done|]. destruct (p a); simpl; lia. Qed.

Lemma update_first_map {B} p f (g : A -> B) l :
  (forall x, p x = true -> g (f x) = g x) ->
  List.map g (update_first p f l) = List.map g l.
Proof.
  intros H. induction l as [|a l IH]; simpl; [done|].
  destruct (p a) eqn:E; simpl; [by rewrite H|by rewrite IH].
Qed.

Lemma update_first_In p f l x :
  In x (update_first p f l) ->
  In x l \/ exists y, In y l /\ p y = true /\ x = f y.
Proof.
  induction l as [|a l IH]; simpl; [done|].
  destruct (p a) eqn:E; simpl.
  - intros [<-|Hx]; [right; exists a; auto|auto].
  - intros [<-|Hx]; [auto|]. destruct (IH Hx) as [?|(y & ? & ? & ?)]; eauto 6.
Qed.

Lemma update_first_find p f l x :
  (forall y, p y = true -> p (f y) = true) ->
  List.find p l = Some x -> List.find p (update_first p f l) = Some (f x).
Proof.
  intros Hf. induction l as [|a l IH]; simpl; [done|].
  destruct (p a) eqn:E; simpl.
  - intros [= ->]. by rewrite Hf.
  - rewrite E. apply IH.
Qed.

(** The last [n] elements, i.e. [v.drain(..v.len() - n)] of what is longer. *)
Definition keep_last (n : nat) l : list A := drop (List.length l - n) l.

Lemma keep_last_length n l : (List.length (keep_last n l) <= n)%nat.
Proof. unfold keep_last. rewrite length_drop. lia. Qed.

Lemma keep_last_snoc n l x :
  keep_last n (keep_last n l ++ [x]) = keep_last n (l ++ [x]).
Proof.
  unfold keep_last. rewrite length_app, length_drop, length_app. simpl.
  destruct (decide (List.length l <= n)%nat) as [Hle|Hgt].
  - replace (List.length l - n)%nat with 0%nat by lia. rewrite drop_0.
    f_equal. lia.
  - rewrite <- (drop_app_le l [x] (List.length l - n)) by lia.
    rewrite drop_drop. f_equal. lia.
Qed.

Lemma keep_last_app_short n l1 l2 :
  (List.length l2 <= n)%nat ->
  keep_last n (l1 ++ l2) = keep_last (n - List.length l2) l1 ++ l2.
Proof.
  intros H. unfold keep_last. rewrite length_app, drop_app_le by lia.
  f_equal. f_equal. lia.
Qed.

(** ** Counting *)
Lemma count_app p l1 l2 : count p (l1 ++ l2) = count p l1 + count p l2.
Proof. unfold count. by rewrite List.filter_app, len_app. Qed.
Lemma count_cons_if p x l : count p (x :: l) = (if p x then 1 else 0) + count p l.
Proof. unfold count. cbn. destruct (p x); [|done]. unfold len. cbn. lia. Qed.
Lemma count_ge_0 p l : 0 <= count p l.
Proof. apply len_nonneg. Qed.
Lemma count_map_le p (f : A -> A) l : (forall x, In x l -> p (f x) = true -> p x = true) ->
  count p (List.map f l) <= count p l.
Proof.
  induction l as [|x l IH]; [done|]. rewrite forall_in_cons. cbn [List.map]. rewrite !count_cons_if.
  intros [Hx Hl]. specialize (IH Hl). destruct (p (f x)); [rewrite Hx by done; lia|]. destruct (p x); lia.
Qed.
Lemma count_update_first p q (f : A -> A) l x : List.find q l = Some x ->
  count p (update_first q f l) = count p l - (if p x then 1 else 0) + (if p (f x) then 1 else 0).
Proof.
  induction l as [|y l IH]; [done|]. cbn. destruct (q y); rewrite !count_cons_if.
  - intros [= ->]. destruct (p x), (p (f x)); lia.
  - intros Hx. rewrite (IH Hx). lia.
Qed.
Lemma count_eq_0 p l : count p l = 0 <-> forall x, In x l -> p x = false.
Proof. unfold count. rewrite len_zero. apply filter_nil_iff. Qed.
End Lists.

(** [l.iter().filter_map(f).collect()] is stdpp's [omap]. *)
Lemma in_omap {A B} (f : A -> option B) l y :
  In y (omap f l) <-> exists x, In x l /\ f x = Some y.
Proof.
  rewrite <- list_elem_of_In, list_elem_of_omap. setoid_rewrite list_elem_of_In. done.
Qed.

(** * [slice::sort_by_key]: the stable sort *)
Section Sorting.
Context {A : Type} (key : A -> Z).

Fixpoint insert_by_key (x : A) (l : list A) : list A :=
  match l with
  | [] => [x]
  | y :: r => if key x <=? key y then x :: l else y :: insert_by_key x r
  end.
Definition sort_by_key (l : list A) : list A := List.fold_right insert_by_key [] l.

Lemma insert_by_key_perm x l : insert_by_key x l ≡ₚ x :: l.
Proof.
  induction l as [|y r IH]; simpl; [done|].
  destruct (key x <=? key y); [done|]. rewrite IH. constructor.
Qed.

Lemma sort_by_key_perm l : sort_by_key l ≡ₚ l.
Proof.
  unfold sort_by_key.
  induction l as [|x r IH]; simpl; [done|]. by rewrite insert_by_key_perm, IH.
Qed.

Definition key_le (x y : A) : Prop := key x <= key y.

Lemma insert_by_key_sorted x l :
  StronglySorted key_le l -> StronglySorted key_le (insert_by_key x l).
Proof.
  induction 1 as [|y r Hs IH Hall]; simpl; [repeat constructor|].
  destruct (Z.leb_spec (key x) (key y)) as [Hle|Hgt].
  - constructor; [by constructor|]. constructor; [done|].
    eapply Forall_impl; [exact Hall|]. unfold key_le. intros; lia.
  - constructor; [done|]. rewrite insert_by_key_perm. constructor; [unfold key_le; lia|done].
Qed.

Lemma sort_by_key_sorted l : StronglySorted key_le (sort_by_key l).
Proof.
  unfold sort_by_key. induction l; simpl; [constructor|by apply insert_by_key_sorted].
Qed.

(** Stability: the elements of one key keep their order. *)
Lemma insert_by_key_filter k x l :
  List.filter (fun y => key y =? k) (insert_by_key x l)
  = List.filter (fun y => key y =? k) (x :: l).
Proof.
  induction l as [|y r IH]; [done|]. cbn [insert_by_key].
  destruct (Z.leb_spec (key x) (key y)); [done|].
  cbn [List.filter] in *. rewrite IH.
  destruct (Z.eqb_spec (key x) k), (Z.eqb_spec (key y) k); try done. lia.
Qed.

Lemma sort_by_key_stable k l :
  List.filter (fun y => key y =? k) (sort_by_key l) = List.filter (fun y => key y =? k) l.
Proof.
  unfold sort_by_key. induction l as [|x r IH]; [done|].
  cbn [List.fold_right]. rewrite insert_by_key_filter. simpl. by rewrite IH.
Qed.

Lemma sort_by_key_nil l : sort_by_key l = [] <-> l = [].
Proof.
  split; [|by intros ->]. intros H. pose proof (sort_by_key_perm l) as P.
  rewrite H in P. by apply Permutation_nil in P.
Qed.

(** The head of the sorted list is the first element of the least key. *)
Lemma sort_by_key_head l x r :
  sort_by_key l = x :: r ->
  In x l /\ (forall y, In y l -> key x <= key y)
  /\ exists s, List.filter (fun y => key y =? key x) l = x :: s.
Proof.
  intros H. pose proof (sort_by_key_perm l) as P. pose proof (sort_by_key_sorted l) as S.
  rewrite H in *. split; [|split].
  - apply list_elem_of_In. rewrite <- P. by left.
  - intros y Hy. apply list_elem_of_In in Hy. rewrite <- P in Hy.
    apply StronglySorted_inv in S as [_ S].
    apply elem_of_cons in Hy as [->|Hy]; [lia|].
    rewrite Forall_forall in S. by apply S.
  - rewrite <- sort_by_key_stable, H. simpl. rewrite Z.eqb_refl. eauto.
Qed.
End Sorting.

Lemma filter_perm {A} (p : A -> bool) l l' : l ≡ₚ l' -> List.filter p l ≡ₚ List.filter p l'.
Proof.
  induction 1 as [|x l l' _ IH|x y l|l l' l'' _ IH1 _ IH2]; cbn; [done| | |by rewrite IH1].
  - destruct (p x); [by rewrite IH|done].
  - destruct (p x), (p y); try done. constructor.
Qed.
Lemma in_sort_by_key {A} (key : A -> Z) l x : In x (sort_by_key key l) <-> In x l.
Proof. split; apply Permutation_in; [|symmetry]; apply sort_by_key_perm. Qed.

(** * [BTreeSet<String>] and [Vec<String>::sort]: byte order *)
Definition str_lt (a b : string) : Prop := String.compare a b = Lt.
Lemma compare_OT a : forall b, String.compare a b = OrdersEx.String_as_OT.compare a b.
Proof. induction a as [|c a IH]; intros [|d b]; simpl; [done..|]. by rewrite IH. Qed.
Lemma str_lt_trans a b c : str_lt a b -> str_lt b c -> str_lt a c.
Proof.
  unfold str_lt. rewrite !compare_OT. intros H1 H2.
  pose proof (StrictOrder_Transitive a b c) as H. by apply H.
Qed.
Lemma str_lt_irrefl a : ~ str_lt a a.
Proof.
  unfold str_lt. intros H. pose proof (String.compare_antisym a a) as H2. by rewrite H in H2.
Qed.
Lemma str_compare_gt a b : String.compare a b = Gt -> str_lt b a.
Proof. unfold str_lt. intros H. by rewrite String.compare_antisym, H. Qed.

(** A set is its sorted list without repeats. *)
Fixpoint btree_insert (x : string) (l : list string) : list string :=
  match l with
  | [] => [x]
  | y :: r => match String.compare x y with
              | Lt => x :: l
              | Eq => l
              | Gt => y :: btree_insert x r
              end
  end.
Definition btree_set (l : list string) : list string :=
  List.fold_left (fun s x => btree_insert x s) l [].

Lemma in_btree_insert x y l : In y (btree_insert x l) <-> y = x \/ In y l.
Proof.
  induction l as [|a l IH]; simpl; [naive_solver|].
  destruct (String.compare x a) eqn:E; simpl; [|naive_solver|rewrite IH; tauto].
  apply String.compare_eq_iff in E as ->. split; [auto|]. intros [->|H]; auto.
Qed.
Lemma btree_insert_sorted x l : StronglySorted str_lt l -> StronglySorted str_lt (btree_insert x l).
Proof.
  induction 1 as [|a l Hs IH Hall]; simpl; [repeat constructor|].
  destruct (String.compare x a) eqn:E.
  - by constructor.
  - constructor; [by constructor|]. constructor; [done|].
    eapply Forall_impl; [exact Hall|]. intros y Hy. by eapply str_lt_trans.
  - constructor; [done|]. apply List.Forall_forall. intros y Hy.
    apply in_btree_insert in Hy as [->|Hy]; [by apply str_compare_gt|].
    rewrite List.Forall_forall in Hall. by apply Hall.
Qed.
Lemma btree_set_acc l : forall s, StronglySorted str_lt s ->
  StronglySorted str_lt (List.fold_left (fun s x => btree_insert x s) l s)
  /\ forall y, In y (List.fold_left (fun s x => btree_insert x s) l s) <-> In y l \/ In y s.
Proof.
  induction l as [|x l IH]; intros s Hs; simpl; [by split; [|tauto]|].
  destruct (IH (btree_insert x s)) as [H1 H2]; [by apply btree_insert_sorted|].
  split; [done|]. intros y. rewrite H2, in_btree_insert. split; [intros [?|[->|?]]|intros [[->|?]|?]]; auto.
Qed.
Lemma in_btree_set y l : In y (btree_set l) <-> In y l.
Proof.
  unfold btree_set. destruct (btree_set_acc l []) as [_ H]; [constructor|].
  rewrite H. simpl. tauto.
Qed.
Lemma sorted_lt_NoDup l : StronglySorted str_lt l -> base.NoDup l.
Proof.
  induction 1 as [|a l Hs IH Hall]; constructor; [|done].
  rewrite list_elem_of_In. intros Hin. rewrite List.Forall_forall in Hall.
  by apply (str_lt_irrefl a), Hall.
Qed.
Lemma btree_set_NoDup l : base.NoDup (btree_set l).
Proof. apply sorted_lt_NoDup. by apply (btree_set_acc l []); constructor. Qed.

(** [v.sort()] on strings. *)
Fixpoint insert_string (x : string) (l : list string) : list string :=
  match l with
  | [] => [x]
  | y :: r => match String.compare x y with Gt => y :: insert_string x r | _ => x :: l end
  end.
Definition sort_strings (l : list string) : list string := List.fold_right insert_string [] l.
Lemma insert_string_perm x l : insert_string x l ≡ₚ x :: l.
Proof.
  induction l as [|y l IH]; simpl; [done|]. destruct (String.compare x y); [done|done|].
  rewrite IH. constructor.
Qed.
Lemma sort_strings_perm l : sort_strings l ≡ₚ l.
Proof. induction l as [|x l IH]; simpl; [done|]. by rewrite insert_string_perm, IH. Qed.

(** The pairs of [imap pair]: the elements with their indices. *)
Lemma in_imap_pair {A} (l : list A) i x : In (i, x) (imap pair l) <-> l !! i = Some x.
Proof.
  rewrite <- list_elem_of_In, elem_of_lookup_imap. split.
  - intros (j & y & [= -> ->] & Hy). done.
  - intros Hx. by exists i, x.
Qed.

(** * Automation *)

(** The equations of boolean tests, turned into propositions. *)
Ltac bool_prop :=
  repeat match goal with
  | H : andb _ _ = true |- _ => apply andb_true_iff in H; destruct H
  | H : orb _ _ = false |- _ => apply orb_false_iff in H; destruct H
  | H : negb _ = true |- _ => apply negb_true_iff in H
  | H : negb _ = false |- _ => apply negb_false_iff in H
  | H : String.eqb _ _ = true |- _ => apply String.eqb_eq in H
  | H : String.eqb _ _ = false |- _ => apply String.eqb_neq in H
  | H : bool_decide _ = true |- _ => apply bool_decide_eq_true in H
  | H : bool_decide _ = false |- _ => apply bool_decide_eq_false in H
  | H : (_ <=? _) = true |- _ => apply Z.leb_le in H
  | H : (_ <=? _) = false |- _ => apply Z.leb_gt in H
  | H : (_ <? _) = true |- _ => apply Z.ltb_lt in H
  | H : (_ <? _) = false |- _ => apply Z.ltb_ge in H
  | H : (_ =? _) = true |- _ => apply Z.eqb_eq in H
  | H : (_ =? _) = false |- _ => apply Z.eqb_neq in H
  end.

Create HintDb goal_db.
Create Rewrite HintDb goal_rw.
#[export] Hint Resolve len_nonneg u32_sat_add_fits keep_last_length sort_by_key_perm
  sort_by_key_sorted : goal_db.
#[export] Hint Rewrite @update_first_length @len_app Z.leb_le Z.ltb_lt Z.eqb_eq : goal_rw.
