(* ===== verification/Cadence.v ===== *)
(** Cadence declarations (scheduler/state.rs, scheduler/monitor_poll.rs): the
    recurrence rules and interval strings that turn a declared cadence into a
    number of seconds until the next poll. *)
From S2P Require Import Prelude.

Definition MONITOR_NO_CHANGE_BACKOFF_SECS : u64 := 12.
Definition EXTERNAL_MONITOR_POLICIES : list string :=
  ["material_transition_only"; "read_only_observation_then_no_spend_if_unchanged"].

Definition rrule_for_minutes (minutes : Z) : string :=
  "FREQ=MINUTELY;INTERVAL=" +:+ show (Z.max minutes 1).

Definition normalize_scheduler_rrule (value : string) : string :=
  let text := join " " (split_whitespace value) in
  match strip_prefix "RRULE:" text with
  | Some t => trim t
  | None => text
  end.

(** The loop over the parts of the rule; [None] is its early return on a part
    that has no [=]. *)
Fixpoint rrule_parts (parts : list string) (freq : option string) (interval : option Z)
  : option (option string * option Z) :=
  match parts with
  | [] => Some (freq, interval)
  | part :: rest =>
      match split_once "=" part with
      | None => None
      | Some (key, value) =>
          let k := to_uppercase (trim key) in
          if k =?s "FREQ" then rrule_parts rest (Some (to_uppercase (trim value))) interval
          else if k =?s "INTERVAL" then rrule_parts rest freq (parse_i64 (trim value))
          else rrule_parts rest freq interval
      end
  end.

Definition scheduler_rrule_interval_minutes (value : string) : option Z :=
  match rrule_parts (split_on ";" (normalize_scheduler_rrule value)) None None with
  | None => None
  | Some (freq, interval) =>
      if bool_decide (freq = Some "MINUTELY") then
        match interval with
        | Some i => if 0 <? i then Some i else None
        | None => None
        end
      else None
  end.

Definition rrule_for_cadence_class (cadence_class : string) : option string :=
  let text := to_ascii_lowercase (normalize_scheduler_rrule cadence_class) in
  if (text =?s "hourly") || (text =?s "hour") || (text =?s "1h") then Some (rrule_for_minutes 60)
  else if (text =?s "daily") || (text =?s "day") || (text =?s "1d")
  then Some (rrule_for_minutes (24 * 60))
  else if (text =?s "weekly") || (text =?s "week") then Some (rrule_for_minutes (7 * 24 * 60))
  else if (text =?s "once") || (text =?s "") || (text =?s "none") then None
  else if starts_with "freq=" text then Some (normalize_scheduler_rrule cadence_class)
  else None.

Definition cadence_label (m : Z) : string :=
  if Z.rem m (7 * 24 * 60) =? 0 then show (Z.quot m (7 * 24 * 60)) +:+ "w"
  else if Z.rem m (24 * 60) =? 0 then show (Z.quot m (24 * 60)) +:+ "d"
  else if Z.rem m 60 =? 0 then show (Z.quot m 60) +:+ "h"
  else show m +:+ "m".

(** The longest digit prefix and the rest; [None] when nothing follows it
    ([text.find(..)?]). *)
Fixpoint split_digits (s : string) : option (string * string) :=
  match s with
  | EmptyString => None
  | String c r =>
      if is_ascii_digit c then
        match split_digits r with
        | Some (d, u) => Some (String c d, u)
        | None => None
        end
      else Some (EmptyString, s)
  end.

Definition monitor_cadence_secs (value : string) : option u64 :=
  let text := trim value in
  if text =?s "" then None
  else match split_digits text with
  | None => None
  | Some (count, unit) =>
      match parse_u64 count with
      | None => None
      | Some count =>
          if count =? 0 then None
          else
            let unit := to_ascii_lowercase (trim unit) in
            if starts_with "s" unit then Some count
            else if starts_with "m" unit then u64_checked_mul count 60
            else if starts_with "h" unit then u64_checked_mul count 3600
            else if starts_with "d" unit then u64_checked_mul count 86400
            else None
      end
  end.

Definition policy_allows_no_spend (policy : option string) : bool :=
  match policy with
  | Some p => let p := trim p in
              if p =?s "" then true else existsb (String.eqb p) EXTERNAL_MONITOR_POLICIES
  | None => true
  end.

Definition cadence_poll_interval_secs (cadence : option string) : option u64 :=
  match cadence with
  | None => None
  | Some cad =>
      let cad := trim cad in
      if cad =?s "" then None
      else match monitor_cadence_secs cad with
      | Some secs => Some secs
      | None =>
          match rrule_for_cadence_class cad with
          | None => None
          | Some r =>
              match scheduler_rrule_interval_minutes r with
              | None => None
              | Some m => Some (Z.max m 1 * 60 mod 18446744073709551616)
              end
          end
      end
  end.

Definition next_poll_due_epoch (polled_at : u64) (cadence : option string) : u64 :=
  u64_add polled_at (default MONITOR_NO_CHANGE_BACKOFF_SECS (cadence_poll_interval_secs cadence)).
