(* ===== verification/Todos.v ===== *)
(** Todos (orchestration/goal/src/state.rs, lines 14-498): the task classes,
    statuses and roles, the [Todo] record with every field of the source, its
    constructors and builders, and the claim/lease operations. *)
From S2P Require Import Prelude Cadence.

Inductive Priority := P0 | P1 | P2.
#[export] Instance Priority_eq_dec : EqDecision Priority.
Proof. solve_decision. Defined.
(** The derived [Ord]: the order of declaration. *)
Definition priority_rank (p : Priority) : Z :=
  match p with P0 => 0 | P1 => 1 | P2 => 2 end.
Definition priority_default : Priority := P1.
Definition priority_to_string (p : Priority) : string :=
  match p with P0 => "P0" | P1 => "P1" | P2 => "P2" end.

Inductive TaskClass :=
| Advancement | UserGate | UserAction | Monitor | Blocker | Coordination.
#[export] Instance TaskClass_eq_dec : EqDecision TaskClass.
Proof. solve_decision. Defined.

Inductive TodoStatus := Open | Done | Superseded | Deferred | Blocked.
#[export] Instance TodoStatus_eq_dec : EqDecision TodoStatus.
Proof. solve_decision. Defined.

Inductive TodoRole := Agent | User.
#[export] Instance TodoRole_eq_dec : EqDecision TodoRole.
Proof. solve_decision. Defined.

Definition class_is (c d : TaskClass) : bool := bool_decide (c = d).
Definition status_is (s t : TodoStatus) : bool := bool_decide (s = t).

Definition default_max_validation_attempts : u32 := 3.

Record Todo := mkTodo {
  td_id : string;
  td_parent_id : option string;
  td_text : string;
  td_title : string;
  td_class : TaskClass;
  td_status : TodoStatus;
  td_priority : Priority;
  td_role : TodoRole;
  td_index : u32;
  td_action_kind : option string;
  td_gate_question : option string;
  td_decision : option string;
  td_note : option string;
  td_resume_when_text : option string;
  td_resume_when : option SystemTime;
  td_consecutive_no_change : u32;
  td_monitor_target : option string;
  td_monitor_policy : option string;
  td_monitor_cadence : option string;
  td_blocked_by_gate : option string;
  td_failed_attempts : u32;
  td_successor_ids : list string;
  td_no_follow_up : bool;
  td_evidence : option string;
  td_owner : option string;
  td_claimed_by : option string;
  td_lease_expires_at : option u64;
  td_holder_pid : option u32;
  td_goal_bound : bool;
  td_global_gate : bool;
  td_updated_at : u64;
  td_completed_at : option u64;
  td_archive_state : string;
  td_task_repository : option string;
  td_continuation_policy : option string;
  td_required_write_scope : list string;
  td_validator : option string;
  td_acceptance : option string;
  td_max_validation_attempts : u32
}.
#[export] Instance eta_Todo : Eta Todo := fun r =>
  mkTodo (td_id r) (td_parent_id r) (td_text r) (td_title r) (td_class r) (td_status r)
    (td_priority r) (td_role r) (td_index r) (td_action_kind r) (td_gate_question r)
    (td_decision r) (td_note r) (td_resume_when_text r) (td_resume_when r)
    (td_consecutive_no_change r) (td_monitor_target r) (td_monitor_policy r)
    (td_monitor_cadence r) (td_blocked_by_gate r) (td_failed_attempts r)
    (td_successor_ids r) (td_no_follow_up r) (td_evidence r) (td_owner r)
    (td_claimed_by r) (td_lease_expires_at r) (td_holder_pid r) (td_goal_bound r)
    (td_global_gate r) (td_updated_at r) (td_completed_at r) (td_archive_state r)
    (td_task_repository r) (td_continuation_policy r) (td_required_write_scope r)
    (td_validator r) (td_acceptance r) (td_max_validation_attempts r).

(** * Constructors.  [now] is the clock they read ([now_epoch()] is
    [as_epoch_secs now]). *)
Definition todo_new (now : SystemTime) (id text : string) (class : TaskClass) : Todo :=
  let role := match class with UserGate | UserAction => User | _ => Agent end in
  {| td_id := id; td_parent_id := None; td_text := text; td_title := text;
     td_class := class; td_status := Open; td_priority := priority_default;
     td_role := role; td_index := 0; td_action_kind := None;
     td_gate_question := None; td_decision := None; td_note := None;
     td_resume_when_text := None; td_resume_when := None;
     td_consecutive_no_change := 0; td_monitor_target := None;
     td_monitor_policy := None; td_monitor_cadence := None;
     td_blocked_by_gate := None; td_failed_attempts := 0; td_successor_ids := [];
     td_no_follow_up := false; td_evidence := None; td_owner := None;
     td_claimed_by := None; td_lease_expires_at := None; td_holder_pid := None;
     td_goal_bound := false; td_global_gate := false;
     td_updated_at := as_epoch_secs now; td_completed_at := None;
     td_archive_state := "active"; td_task_repository := None;
     td_continuation_policy := None; td_required_write_scope := [];
     td_validator := None; td_acceptance := None;
     td_max_validation_attempts := default_max_validation_attempts |}.

Definition blocking (gate_ids : list string) (t : Todo) : Todo :=
  if is_empty gate_ids then t
  else t <| td_blocked_by_gate := Some (join "," gate_ids) |>.

Definition advancement (now : SystemTime) (id text : string) : Todo :=
  todo_new now id text Advancement.
Definition user_gate (now : SystemTime) (id question : string) (blocks : list string) : Todo :=
  blocking blocks ((todo_new now id question UserGate) <| td_gate_question := Some question |>).
(** [due_in] is a [Duration] in nanoseconds. *)
Definition monitor (now : SystemTime) (id text : string) (due_in : Z) : Todo :=
  (todo_new now id text Monitor) <| td_resume_when := Some (now + due_in) |>.
Definition monitor_with (now : SystemTime) (id text : string)
    (target policy cadence : option string) (due_in : Z) : Todo :=
  let t := (monitor now id text due_in)
             <| td_monitor_target := target |>
             <| td_monitor_policy := policy |>
             <| td_monitor_cadence := cadence |> in
  match cadence with
  | Some cad =>
      match monitor_cadence_secs cad with
      | Some secs => t <| td_resume_when := Some (now + secs * nanos_per_sec) |>
      | None => t
      end
  | None => t
  end.
Definition with_monitor_target (target : string) (t : Todo) : Todo :=
  t <| td_monitor_target := Some target |>.
Definition with_monitor_policy (policy : string) (t : Todo) : Todo :=
  t <| td_monitor_policy := Some policy |>.
Definition with_monitor_cadence (cadence : string) (t : Todo) : Todo :=
  t <| td_monitor_cadence := Some cadence |>.
Definition blocker (now : SystemTime) (id text : string) (blocks : list string) : Todo :=
  blocking blocks (todo_new now id text Blocker).
Definition coordination (now : SystemTime) (id text : string) : Todo :=
  todo_new now id text Coordination.
Definition owned_by (agent_id : string) (t : Todo) : Todo :=
  t <| td_owner := Some agent_id |>.
Definition at_index (index : u32) (t : Todo) : Todo := t <| td_index := index |>.
Definition with_title (title : string) (t : Todo) : Todo := t <| td_title := title |>.
Definition with_repository (repo : string) (t : Todo) : Todo :=
  t <| td_task_repository := Some repo |>.
Definition with_continuation_policy (policy : string) (t : Todo) : Todo :=
  t <| td_continuation_policy := Some policy |>.
Definition with_write_scopes (scopes : list string) (t : Todo) : Todo :=
  t <| td_required_write_scope := scopes |>.
Definition archive (now : SystemTime) (t : Todo) : Todo :=
  t <| td_archive_state := "archived" |> <| td_updated_at := as_epoch_secs now |>.
Definition at_priority (p : Priority) (t : Todo) : Todo := t <| td_priority := p |>.
Definition with_action_kind (kind : string) (t : Todo) : Todo :=
  t <| td_action_kind := Some kind |>.
Definition with_note (note : string) (t : Todo) : Todo := t <| td_note := Some note |>.
Definition with_gate_scope (goal_bound global_gate : bool) (t : Todo) : Todo :=
  t <| td_goal_bound := goal_bound |> <| td_global_gate := global_gate |>.
Definition user_action (now : SystemTime) (id text : string) : Todo :=
  todo_new now id text UserAction.
Definition deferred (now : SystemTime) (id text : string) (resume_in : Z) : Todo :=
  (todo_new now id text Advancement)
    <| td_status := Deferred |> <| td_resume_when := Some (now + resume_in) |>.

(** * Operations *)
(** [o.is_some_and(|d| d <= now)] *)
Definition due (o : option SystemTime) (now : SystemTime) : bool :=
  match o with Some d => d <=? now | None => false end.

Definition is_due_deferred (t : Todo) (now : SystemTime) : bool :=
  status_is (td_status t) Deferred && due (td_resume_when t) now.

Section Claim.
(** [compat::pid_alive]: the operating system's answer about a process. *)
Variable pid_alive : u32 -> bool.

(** Whether a live lease of another agent stops a claim. *)
Definition lease_refuses (t : Todo) (agent_id : string) (now_epoch : u64) : bool :=
  match td_lease_expires_at t with
  | Some expires =>
      (now_epoch <? expires) && negb (bool_decide (td_claimed_by t = Some agent_id)) &&
      match td_holder_pid t with
      | Some pid => pid_alive pid
      | None => true
      end
  | None => false
  end.

(** [Todo::claim]: the todo after the call and the returned flag. *)
Definition claim (t : Todo) (agent_id : string) (lease_secs now_epoch : u64) : Todo * bool :=
  if negb (status_is (td_status t) Open) then (t, false)
  else if lease_refuses t agent_id now_epoch then (t, false)
  else (t <| td_claimed_by := Some agent_id |>
          <| td_lease_expires_at := Some (u64_add now_epoch lease_secs) |>, true).
End Claim.

Definition claimed_by_other (t : Todo) (agent_id : option string) (now_epoch : u64) : bool :=
  match td_claimed_by t, td_lease_expires_at t with
  | Some owner, Some expires =>
      (now_epoch <? expires) && negb (bool_decide (agent_id = Some owner))
  | _, _ => false
  end.

Definition complete (now : SystemTime) (no_follow_up : bool) (successor_ids : list string)
    (t : Todo) : Todo :=
  t <| td_status := Done |>
    <| td_claimed_by := None |>
    <| td_lease_expires_at := None |>
    <| td_holder_pid := None |>
    <| td_no_follow_up := no_follow_up |>
    <| td_successor_ids := successor_ids |>
    <| td_completed_at := Some (as_epoch_secs now) |>
    <| td_updated_at := as_epoch_secs now |>.

Definition set_evidence (now : SystemTime) (evidence : string) (t : Todo) : Todo :=
  t <| td_evidence := Some evidence |> <| td_updated_at := as_epoch_secs now |>.

(** compat.rs: the names of a class and of a status in rendered text. *)
Definition future_goal_task_class (c : TaskClass) : string :=
  match c with
  | Advancement => "advancement_task"
  | UserGate => "user_gate"
  | UserAction => "user_action"
  | Monitor => "continuous_monitor"
  | Blocker => "blocker"
  | Coordination => "coordination"
  end.
Definition future_goal_status (s : TodoStatus) : string :=
  match s with
  | Open => "open"
  | Done => "done"
  | Superseded => "superseded"
  | Deferred => "deferred"
  | Blocked => "blocked"
  end.

(** * Lemmas *)
Lemma status_is_true s t : status_is s t = true <-> s = t.
Proof. apply bool_decide_eq_true. Qed.
Lemma status_is_false s t : status_is s t = false <-> s <> t.
Proof. apply bool_decide_eq_false. Qed.
Lemma class_is_true c d : class_is c d = true <-> c = d.
Proof. apply bool_decide_eq_true. Qed.
Lemma class_is_false c d : class_is c d = false <-> c <> d.
Proof. apply bool_decide_eq_false. Qed.
