(* ===== verification/GoalState.v ===== *)
(** Goal state (orchestration/goal/src/state.rs, lines 500-1601): run records
    and validation receipts, acceptance gaps, profiles, deliveries, the [Goal]
    record, its queries (frontier, blocking, ownership) and its mutators. *)
From S2P Require Import Prelude Todos.

(** * Validation receipts *)
Definition MAX_VALIDATION_SCHEMA_VERSION : string := "future_goal_turn_task_validation_v0".

Inductive ValidationStatus :=
| VPassed | VProgress | VFailed | VInconclusive | VUnavailable | VNotRequired.
#[export] Instance ValidationStatus_eq_dec : EqDecision ValidationStatus.
Proof. solve_decision. Defined.

Inductive RecoveryKind := RepairRequired | ReplanRequired.

Record TaskValidation := mkTaskValidation {
  tv_schema_version : string;
  tv_status : ValidationStatus;
  tv_validator_kind : string;
  tv_summary : string;
  tv_recovery_kind : option RecoveryKind;
  tv_exit_code : option i32;
  tv_ok : bool
}.

Definition task_validation_receipt (status : ValidationStatus) (validator_kind summary : string)
    (recovery_kind : option RecoveryKind) (exit_code : option i32) : TaskValidation :=
  let ok := match status with VPassed | VNotRequired => true | _ => false end in
  let recovery := match status with
                  | VFailed | VInconclusive | VUnavailable =>
                      Some (default RepairRequired recovery_kind)
                  | _ => None
                  end in
  {| tv_schema_version := MAX_VALIDATION_SCHEMA_VERSION; tv_status := status;
     tv_validator_kind := validator_kind; tv_summary := summary;
     tv_recovery_kind := recovery; tv_exit_code := exit_code; tv_ok := ok |}.

(** * Run records *)
Inductive FailureKind := FNone | InfraRecoverable | ScienceVerifyFailed | HardError.
#[export] Instance FailureKind_eq_dec : EqDecision FailureKind.
Proof. solve_decision. Defined.
Definition failure_label (k : FailureKind) : string :=
  match k with
  | FNone => "succeeded"
  | InfraRecoverable => "infra-recoverable (retry is safe)"
  | ScienceVerifyFailed => "verify-gate rejected the output"
  | HardError => "hard error (no recoverable infra cause)"
  end.

Record RunRecord := mkRunRecord {
  rr_agent_id : option string;
  rr_turn : u32;
  rr_todo_id : string;
  rr_run_id : string;
  rr_validation : option TaskValidation;
  rr_terminal_state : string;
  rr_error : option string;
  rr_tokens_in_delta : u64;
  rr_tokens_out_delta : u64;
  rr_cost_delta : f64;
  rr_tools : list string;
  rr_evidence : string;
  rr_recorded_at : u64;
  rr_spend_source : option string;
  rr_failure_kind : option FailureKind;
  rr_truncation : option json
}.
#[export] Instance eta_RunRecord : Eta RunRecord := fun r =>
  mkRunRecord (rr_agent_id r) (rr_turn r) (rr_todo_id r) (rr_run_id r) (rr_validation r)
    (rr_terminal_state r) (rr_error r) (rr_tokens_in_delta r) (rr_tokens_out_delta r)
    (rr_cost_delta r) (rr_tools r) (rr_evidence r) (rr_recorded_at r)
    (rr_spend_source r) (rr_failure_kind r) (rr_truncation r).

(** * Goal parts *)
Record AcceptanceGap := mkAcceptanceGap {
  ag_id : string; ag_description : string; ag_satisfied : bool
}.
#[export] Instance eta_AcceptanceGap : Eta AcceptanceGap := fun r =>
  mkAcceptanceGap (ag_id r) (ag_description r) (ag_satisfied r).

Record ExecutionProfile := mkExecutionProfile {
  ep_cadence : string;
  ep_spend_rule : string;
  ep_outcome_floor_streak_threshold : u32
}.
#[export] Instance eta_ExecutionProfile : Eta ExecutionProfile := fun r =>
  mkExecutionProfile (ep_cadence r) (ep_spend_rule r) (ep_outcome_floor_streak_threshold r).
Definition execution_profile_default : ExecutionProfile :=
  {| ep_cadence := "bounded_progress_segment";
     ep_spend_rule := "spend_only_after_artifact_validation_writeback";
     ep_outcome_floor_streak_threshold := 0 |}.

Record ReplanAck := mkReplanAck {
  ra_recorded : bool; ra_delta_kinds : list string; ra_at : u64
}.

Definition has_frontier_delta (a : ReplanAck) : bool :=
  ra_recorded a &&
  existsb (fun k => (k =?s "vision_patch") || (k =?s "no_followup")
                    || (k =?s "successor_or_supersede") || (k =?s "runnable_todo_set"))
    (ra_delta_kinds a).

Definition delta_kind_changes_frontier (kind : string) : bool :=
  existsb (String.eqb kind)
    ["vision_patch"; "no_followup"; "successor_or_supersede"; "runnable_todo_set";
     "user_gate"; "blocker"; "monitor_target"; "active_state_next_action";
     "goal_boundary_projection"].

Record DeliveryState := mkDeliveryState {
  ds_todo_id : string;
  ds_outcome : string;
  ds_note : option string;
  ds_delivered_turn : u32;
  ds_followthrough_todo_id : option string;
  ds_seq : u32;
  ds_updated_at : u64
}.
#[export] Instance eta_DeliveryState : Eta DeliveryState := fun r =>
  mkDeliveryState (ds_todo_id r) (ds_outcome r) (ds_note r) (ds_delivered_turn r)
    (ds_followthrough_todo_id r) (ds_seq r) (ds_updated_at r).

(** work_items/delivery_outcome.rs: the outcome vocabulary. *)
Definition OUTCOME_DELIVERED : string := "delivered".
Definition OUTCOME_VERIFIED : string := "verified".

Record AgentProfile := mkAgentProfile {
  ap_id : string; ap_capabilities : list string; ap_workspaces : list string
}.
Definition profile_has (p : AgentProfile) (capability : string) : bool :=
  existsb (fun c => c =?s capability) (ap_capabilities p).

Record Authority := mkAuthority {
  au_write_scope : list string; au_requires_approval : list string
}.
#[export] Instance eta_Authority : Eta Authority := fun r =>
  mkAuthority (au_write_scope r) (au_requires_approval r).
Definition authority_default : Authority :=
  {| au_write_scope := [];
     au_requires_approval := ["publish"; "production-action"; "merge"] |}.
Definition approval_required_for (a : Authority) (action_kind : string) : bool :=
  existsb (fun k => k =?s action_kind) (au_requires_approval a).

Record SteerInstruction := mkSteerInstruction {
  si_agent_id : option string; si_instruction : string; si_ts : u64
}.

Record SessionRetention := mkSessionRetention {
  sr_session_id : string;
  sr_failure_kind : FailureKind;
  sr_resumable : bool;
  sr_reason : string;
  sr_ended_at : u64
}.

Record LivenessAlert := mkLivenessAlert {
  la_agent_id : string;
  la_elapsed_secs : u64;
  la_threshold_secs : u64;
  la_consecutive : u32;
  la_ts : u64
}.

Record TurnNoProgressRecord := mkTurnNoProgressRecord {
  np_goal_id : string;
  np_todo_id : string;
  np_agent_id : option string;
  np_idle_secs : u64;
  np_tool_calls_total : u32;
  np_ts : u64
}.

Record DecisionFreshness := mkDecisionFreshness {
  df_events_max_seq : u64; df_events_max_ts : option u64; df_read_at : u64
}.

(** decision/goal_frontier/semantic_history.rs *)
Record SemanticEvent := mkSemanticEvent {
  se_kind : string; se_todo_id : option string; se_summary : string; se_ts : u64
}.
(** decision/goal_frontier/replan_rules.rs *)
Record ReplanRuleSet := mkReplanRuleSet {
  rs_schema_version : string; rs_rule_ids : list string
}.

Definition default_goal_status : string := "active".

Record Goal := mkGoal {
  g_goal_id : string;
  g_objective : string;
  g_cwd : string;
  g_status : string;
  g_acceptance : list AcceptanceGap;
  g_todos : list Todo;
  g_history : list RunRecord;
  g_next_action : option string;
  g_registered_agents : list string;
  g_agent_profiles : list AgentProfile;
  g_execution_profile : ExecutionProfile;
  g_outcome_streak : u32;
  g_replan_ack : option ReplanAck;
  g_authority : Authority;
  g_created_at : u64;
  g_next_index : u32;
  g_quota_spent_slots : u32;
  g_delivery_states : list DeliveryState;
  g_decision_freshness : option DecisionFreshness;
  g_scheduler_heartbeats : gmap string u64;
  g_liveness_alerts : list LivenessAlert;
  g_turn_no_progress : list TurnNoProgressRecord;
  g_frontier_change_ts : list u64;
  g_semantic_history : list SemanticEvent;
  g_replan_rule_set : option ReplanRuleSet;
  g_session_retention : option SessionRetention;
  g_worker_sessions : gmap string string;
  g_supervisor_session_id : option string;
  g_pending_steer : option SteerInstruction
}.
#[export] Instance eta_Goal : Eta Goal := fun r =>
  mkGoal (g_goal_id r) (g_objective r) (g_cwd r) (g_status r) (g_acceptance r) (g_todos r)
    (g_history r) (g_next_action r) (g_registered_agents r) (g_agent_profiles r)
    (g_execution_profile r) (g_outcome_streak r) (g_replan_ack r) (g_authority r)
    (g_created_at r) (g_next_index r) (g_quota_spent_slots r) (g_delivery_states r)
    (g_decision_freshness r) (g_scheduler_heartbeats r) (g_liveness_alerts r)
    (g_turn_no_progress r) (g_frontier_change_ts r) (g_semantic_history r)
    (g_replan_rule_set r) (g_session_retention r) (g_worker_sessions r)
    (g_supervisor_session_id r) (g_pending_steer r).

Definition goal_new (now : SystemTime) (goal_id objective cwd : string) : Goal :=
  {| g_goal_id := goal_id; g_objective := objective; g_cwd := cwd; g_status := "active";
     g_acceptance := []; g_todos := []; g_history := []; g_next_action := None;
     g_registered_agents := []; g_agent_profiles := [];
     g_execution_profile := execution_profile_default; g_outcome_streak := 0;
     g_replan_ack := None; g_authority := authority_default;
     g_created_at := as_epoch_secs now; g_next_index := 0; g_quota_spent_slots := 0;
     g_delivery_states := []; g_decision_freshness := None;
     g_scheduler_heartbeats := ∅; g_liveness_alerts := []; g_turn_no_progress := [];
     g_frontier_change_ts := []; g_semantic_history := []; g_replan_rule_set := None;
     g_session_retention := None; g_worker_sessions := ∅;
     g_supervisor_session_id := None; g_pending_steer := None |}.

Definition with_acceptance (gaps : list (string * string)) (g : Goal) : Goal :=
  g <| g_acceptance :=
        List.map (fun '(id, d) => {| ag_id := id; ag_description := d; ag_satisfied := false |})
          gaps |>.

(** * Leak scan.  [home] is [compat::home_dir()], read from the environment. *)
Definition LEAK_MARKERS : list string := [".ssh"; "auth.json"; "token="; "api_key"].
Definition boundary_scan_leaks (home text : string) : list string :=
  (if negb (home =?s "") && str_contains home text
   then ["absolute home path leak: " +:+ home] else []) ++
  omap (fun marker =>
          if str_contains marker text
          then Some ("sensitive marker `" +:+ marker +:+ "` in evidence") else None)
    LEAK_MARKERS.

(** * Todos of a goal *)
Definition has_id (id : string) (t : Todo) : bool := td_id t =?s id.
Definition todo (g : Goal) (id : string) : option Todo := List.find (has_id id) (g_todos g).
(** [if let Some(t) = goal.todo_mut(id) { f(t) }] *)
Definition update_todo (id : string) (f : Todo -> Todo) (g : Goal) : Goal :=
  g <| g_todos ::= update_first (has_id id) f |>.

Definition add (t : Todo) (g : Goal) : Goal :=
  let n := u32_add (g_next_index g) 1 in
  let t := if td_index t =? 0 then t <| td_index := n |> else t in
  g <| g_next_index := n |> <| g_todos ::= (fun l => l ++ [t]) |>.

Definition archive_todo (now : SystemTime) (id : string) (g : Goal) : Goal :=
  update_todo id (archive now) g.

(** Open, or deferred and due again. *)
Definition active_at (now : SystemTime) (t : Todo) : bool :=
  status_is (td_status t) Open || is_due_deferred t now.

Definition open_of_at (g : Goal) (class : TaskClass) (now : SystemTime) : list Todo :=
  List.filter (fun t => class_is (td_class t) class && active_at now t) (g_todos g).
Definition open_gates_at (g : Goal) (now : SystemTime) : list Todo := open_of_at g UserGate now.
Definition is_blocking_class (c : TaskClass) : bool := class_is c UserGate || class_is c Blocker.
Definition open_blocking_sources_at (g : Goal) (now : SystemTime) : list Todo :=
  List.filter (fun t => is_blocking_class (td_class t) && active_at now t) (g_todos g).
Definition open_monitors_at (g : Goal) (now : SystemTime) : list Todo :=
  List.filter (fun t => class_is (td_class t) Monitor && active_at now t) (g_todos g).

Definition closed_status (s : TodoStatus) : bool := status_is s Done || status_is s Superseded.

(** An open gate or blocker that names [t] among its outgoing edges. *)
Definition source_blocks (t source : Todo) : bool :=
  negb (td_id source =?s td_id t) &&
  (td_global_gate source ||
   match td_blocked_by_gate source with
   | Some ids => existsb (fun id => trim id =?s td_id t) (split_on "," ids)
   | None => false
   end).

(** Whether the predecessor id [gid] holds its dependent. *)
Definition pred_blocks (g : Goal) (now : SystemTime) (gid : string) : bool :=
  let gid := trim gid in
  if gid =?s "" then false
  else match todo g gid with
  | Some pred =>
      match td_class pred with
      | UserGate | Blocker => active_at now pred
      | _ => negb (closed_status (td_status pred))
      end
  | None => false
  end.

Definition is_blocked_at (g : Goal) (t : Todo) (now : SystemTime) : bool :=
  existsb (source_blocks t) (open_blocking_sources_at g now) ||
  match td_blocked_by_gate t with
  | Some ids => existsb (pred_blocks g now) (split_on "," ids)
  | None => false
  end.

Definition owner_allows (t : Todo) (agent_id : option string) : bool :=
  match td_owner t with
  | None => true
  | Some _ => bool_decide (td_owner t = agent_id)
  end.

(** The predicate of [runnable_advancement_for_at]. *)
Definition runnable_for (g : Goal) (agent_id : option string) (now_sys : SystemTime) (t : Todo)
  : bool :=
  (class_is (td_class t) Advancement && active_at now_sys t)
  && negb (claimed_by_other t agent_id (as_epoch_secs now_sys))
  && owner_allows t agent_id
  && negb (is_blocked_at g t now_sys).
Definition runnable_advancement_for_at (g : Goal) (agent_id : option string)
    (now_sys : SystemTime) : list Todo :=
  List.filter (runnable_for g agent_id now_sys) (g_todos g).

(** The loop of [pending_advancement_owner_aware_at]: (claimable, owner-scoped). *)
Definition pending_advancement_owner_aware_at (g : Goal) (now_sys : SystemTime)
  : list Todo * list Todo :=
  let now := as_epoch_secs now_sys in
  List.fold_left
    (fun '(claimable, owner_scoped) t =>
       let open := class_is (td_class t) Advancement && active_at now_sys t
                   && negb (is_blocked_at g t now_sys) in
       if negb open then (claimable, owner_scoped)
       else match td_owner t with
       | None => if negb (claimed_by_other t None now)
                 then (claimable ++ [t], owner_scoped) else (claimable, owner_scoped)
       | Some _ => (claimable, owner_scoped ++ [t])
       end)
    (g_todos g) ([], []).

(** * Agents *)
Definition is_registered_agent (g : Goal) (agent_id : option string) : bool :=
  match agent_id with
  | None => true
  | Some id => existsb (fun a => a =?s id) (g_registered_agents g)
  end.
Definition agent_capabilities (g : Goal) (agent_id : string) : list string :=
  match List.find (fun p => ap_id p =?s agent_id) (g_agent_profiles g) with
  | Some p => ap_capabilities p
  | None => []
  end.
(** Replace the profile of [p]'s agent and add the agent if it is new. *)
Definition put_agent (p : AgentProfile) (g : Goal) : Goal :=
  let agents := g_registered_agents g in
  let agents := if existsb (fun a => a =?s ap_id p) agents then agents
                else agents ++ [ap_id p] in
  g <| g_registered_agents := agents |>
    <| g_agent_profiles ::=
         (fun l => List.filter (fun q => negb (ap_id q =?s ap_id p)) l ++ [p]) |>.
Definition register_agent (agent_id : string) (capabilities : list string) (g : Goal) : Goal :=
  put_agent {| ap_id := agent_id; ap_capabilities := capabilities; ap_workspaces := [] |} g.

(** * Deliveries *)
Definition delivery_for (id : string) (d : DeliveryState) : bool := ds_todo_id d =?s id.
Definition delivery_state (g : Goal) (todo_id : string) : option DeliveryState :=
  List.find (delivery_for todo_id) (g_delivery_states g).

Definition apply_delivery_outcome (todo_id outcome : string) (note : option string)
    (delivered_turn seq : u32) (ts : u64) (g : Goal) : Goal :=
  let fresh_delivery := outcome =?s OUTCOME_DELIVERED in
  match delivery_state g todo_id with
  | Some _ =>
      g <| g_delivery_states ::=
        update_first (delivery_for todo_id) (fun d =>
          let d := d <| ds_outcome := outcome |> in
          let d := match note with Some _ => d <| ds_note := note |> | None => d end in
          let d := if fresh_delivery
                   then d <| ds_delivered_turn := delivered_turn |>
                          <| ds_followthrough_todo_id := None |> else d in
          d <| ds_seq := seq |> <| ds_updated_at := ts |>) |>
  | None =>
      g <| g_delivery_states ::= (fun l => l ++
        [{| ds_todo_id := todo_id; ds_outcome := outcome; ds_note := note;
            ds_delivered_turn := if fresh_delivery then delivered_turn else 0;
            ds_followthrough_todo_id := None; ds_seq := seq; ds_updated_at := ts |}]) |>
  end.

Definition apply_followthrough (source_todo_id followup_todo_id : string) (ts : u64) (g : Goal)
  : Goal :=
  g <| g_delivery_states ::=
    update_first (delivery_for source_todo_id) (fun d =>
      d <| ds_followthrough_todo_id := Some followup_todo_id |> <| ds_updated_at := ts |>) |>.

(** * Closure *)
Definition closes_silently (t : Todo) : bool :=
  class_is (td_class t) Advancement && status_is (td_status t) Done
  && is_empty (td_successor_ids t) && negb (td_no_follow_up t).
Definition completed_without_closure_intent (g : Goal) : list Todo :=
  List.filter closes_silently (g_todos g).

Definition is_delivery_verified (g : Goal) (todo_id : string) : bool :=
  match delivery_state g todo_id with
  | Some d => ds_outcome d =?s OUTCOME_VERIFIED
  | None => false
  end.
Definition has_passed_validation (g : Goal) (todo_id : string) : bool :=
  existsb (fun r => (rr_todo_id r =?s todo_id) &&
                    match rr_validation r with
                    | Some v => bool_decide (tv_status v = VPassed)
                    | None => false
                    end) (g_history g).
Definition unvalidated (g : Goal) (t : Todo) : bool :=
  class_is (td_class t) Advancement && status_is (td_status t) Done
  && bool_decide (is_Some (td_validator t))
  && negb (has_passed_validation g (td_id t))
  && negb (is_delivery_verified g (td_id t)).
Definition unvalidated_deliveries (g : Goal) : list Todo :=
  List.filter (unvalidated g) (g_todos g).

Definition unsatisfied_gaps (g : Goal) : list AcceptanceGap :=
  List.filter (fun x => negb (ag_satisfied x)) (g_acceptance g).
Definition satisfy_gap (id : string) (g : Goal) : Goal :=
  g <| g_acceptance ::= update_first (fun x => ag_id x =?s id) (fun x => x <| ag_satisfied := true |>) |>.
Definition supersede (todo_id : string) (g : Goal) : Goal :=
  update_todo todo_id (fun t => t <| td_status := Superseded |>) g.

Definition is_terminal (g : Goal) : bool :=
  forallb (fun t => closed_status (td_status t)) (g_todos g)
  && is_empty (unsatisfied_gaps g)
  && is_empty (completed_without_closure_intent g)
  && is_empty (unvalidated_deliveries g).
Definition terminal_closure_mode (g : Goal) : option unit :=
  if is_terminal g then Some tt else None.

(** * Todo summary *)
Record TodoSourceProof := mkTodoSourceProof {
  sp_derived : bool; sp_item_count : u32; sp_schema_version : string
}.
Record TerminalClosureProof := mkTerminalClosureProof {
  cp_all_todos_done : bool;
  cp_derived : bool;
  cp_no_followup_count : u32;
  cp_monitor_open_count : u32;
  cp_successor_gap_count : u32;
  cp_schema_version : string
}.
Record TodoSummary := mkTodoSummary {
  ts_schema_version : string;
  ts_user_open : usize;
  ts_user_done : usize;
  ts_agent_open : usize;
  ts_agent_done : usize;
  ts_monitor_open : usize;
  ts_source_proof : TodoSourceProof;
  ts_terminal_closure_proof : TerminalClosureProof
}.

Definition role_is (r s : TodoRole) : bool := bool_decide (r = s).

Definition todo_summary_at (g : Goal) (now : SystemTime) : TodoSummary :=
  let todos := g_todos g in
  let user_open := count (fun t => role_is (td_role t) User && active_at now t) todos in
  let user_done := count (fun t => role_is (td_role t) User && status_is (td_status t) Done) todos in
  let agent_open := count (fun t => role_is (td_role t) Agent && active_at now t) todos in
  let agent_done := count (fun t => role_is (td_role t) Agent && status_is (td_status t) Done) todos in
  let monitor_open := count (fun t => class_is (td_class t) Monitor && active_at now t) todos in
  let no_followup_count := count td_no_follow_up todos in
  let closure_proof :=
    {| cp_all_todos_done :=
         if is_terminal g then true
         else forallb (fun t => status_is (td_status t) Done) todos;
       cp_derived := true;
       cp_no_followup_count := no_followup_count;
       cp_monitor_open_count := monitor_open;
       cp_successor_gap_count := len (completed_without_closure_intent g);
       cp_schema_version := "todo_terminal_closure_proof_v0" |} in
  {| ts_schema_version := "todo_summary_v0";
     ts_user_open := user_open; ts_user_done := user_done;
     ts_agent_open := agent_open; ts_agent_done := agent_done;
     ts_monitor_open := monitor_open;
     ts_source_proof := {| sp_derived := true; sp_item_count := len todos;
                           sp_schema_version := "todo_source_proof_v0" |};
     ts_terminal_closure_proof := closure_proof |}.

(** [epoch_millis_as_time] *)
Definition epoch_millis_as_time (ms : u64) : SystemTime := ms * nanos_per_milli.
Definition TURN_NO_PROGRESS_IDLE_SECS_DEFAULT : u64 := 60 * 60.
(** [no_progress_idle_secs]; [var] is the environment variable, if set. *)
Definition no_progress_idle_secs (var : option string) : u64 :=
  match var with
  | Some v => match parse_u64 v with
              | Some s => if 0 <? s then s else TURN_NO_PROGRESS_IDLE_SECS_DEFAULT
              | None => TURN_NO_PROGRESS_IDLE_SECS_DEFAULT
              end
  | None => TURN_NO_PROGRESS_IDLE_SECS_DEFAULT
  end.
