(* ===== verification/Contract.v ===== *)
(** The decision protocol (contract.rs, quota/error_codes.rs,
    quota/slot_accounting.rs, decision/arbitration.rs): turn modes, the three
    channels, the should-run packet with every field of the source, reason
    codes, spend classification, and the scheduler arbitration derived from the
    final interaction contract. *)
From S2P Require Import Prelude Todos GoalState.

Definition INTERACTION_CONTRACT_SCHEMA_VERSION : string := "future_goal_interaction_contract_v0".

Inductive TurnMode :=
| BoundedDelivery | AskUser | MonitorPoll | WaitMonitor | Replan | Terminal.
#[export] Instance TurnMode_eq_dec : EqDecision TurnMode.
Proof. solve_decision. Defined.
Definition mode_is (m n : TurnMode) : bool := bool_decide (m = n).
Definition turn_mode_as_str (m : TurnMode) : string :=
  match m with
  | BoundedDelivery => "bounded_delivery"
  | AskUser => "ask_user"
  | MonitorPoll => "monitor_poll"
  | WaitMonitor => "wait_monitor"
  | Replan => "replan"
  | Terminal => "terminal"
  end.

Record UserChannel := mkUserChannel {
  uc_action_required : bool;
  uc_notify : string;
  uc_question : option string;
  uc_todo_ids : list string
}.
Definition user_channel_none : UserChannel :=
  {| uc_action_required := false; uc_notify := "DONT_NOTIFY";
     uc_question := None; uc_todo_ids := [] |}.

Record AgentChannel := mkAgentChannel {
  ac_must_attempt : bool;
  ac_delivery_allowed : bool;
  ac_quiet_noop_allowed : bool;
  ac_primary_action : option string;
  ac_selected_todo : option string;
  ac_fallback_todo : option string
}.
(** decision/primary_action.rs *)
Definition agent_channel (primary_action selected_todo fallback_todo : option string)
    (must_attempt delivery_allowed quiet_noop_allowed : bool) : AgentChannel :=
  {| ac_must_attempt := must_attempt; ac_delivery_allowed := delivery_allowed;
     ac_quiet_noop_allowed := quiet_noop_allowed; ac_primary_action := primary_action;
     ac_selected_todo := selected_todo; ac_fallback_todo := fallback_todo |}.

Record CliChannel := mkCliChannel {
  cc_next_cli_actions : list string;
  cc_spend_allowed_now : bool;
  cc_spend_after_validation : bool;
  cc_spend_policy : string
}.
Record InteractionContract := mkInteractionContract {
  ic_schema_version : string;
  ic_mode : TurnMode;
  ic_user_channel : UserChannel;
  ic_agent_channel : AgentChannel;
  ic_cli_channel : CliChannel
}.
Record WorkLaneContract := mkWorkLaneContract {
  wl_schema_version : string;
  wl_lane : string;
  wl_obligation : string;
  wl_must_attempt_work : bool;
  wl_reason_codes : list string
}.
Record ExecutionObligation := mkExecutionObligation {
  eo_must_attempt_work : bool; eo_kind : string; eo_reason : string
}.
Record AutomationLiveness := mkAutomationLiveness {
  al_keep_active : bool;
  al_pause_allowed : bool;
  al_action : string;
  al_reason : string;
  al_pause_policy : string
}.
Record HeartbeatRecommendation := mkHeartbeatRecommendation {
  hr_recommended_mode : string;
  hr_notify : string;
  hr_spend_policy : string;
  hr_reason : string
}.
Record SchedulerHint := mkSchedulerHint {
  sh_schema_version : string;
  sh_action : string;
  sh_cadence_class : string;
  sh_next_due_ms : option u64
}.
#[export] Instance eta_SchedulerHint : Eta SchedulerHint := fun r =>
  mkSchedulerHint (sh_schema_version r) (sh_action r) (sh_cadence_class r) (sh_next_due_ms r).
Record QuotaSnapshot := mkQuotaSnapshot {
  qs_compute : f64; qs_allowed_slots : u64; qs_spent_slots : u64; qs_state : string
}.
Record ExecutionProfileSnapshot := mkExecutionProfileSnapshot {
  eps_cadence : string;
  eps_spend_rule : string;
  eps_outcome_floor_streak_threshold : u32;
  eps_surface_streak : u32
}.
Record ReplanAckSnapshot := mkReplanAckSnapshot {
  ras_recorded : bool; ras_delta_kinds : list string; ras_frontier_delta_present : bool
}.
Record AuthoritySnapshot := mkAuthoritySnapshot {
  as_write_scope : list string;
  as_requires_approval : list string;
  as_pending_approvals : list string
}.
Record BoundarySnapshot := mkBoundarySnapshot {
  bs_leaks : list string; bs_public_safe : bool
}.
Record FrontierProjection := mkFrontierProjection {
  fp_replan_required : bool;
  fp_current_agent_advancement : usize;
  fp_unclaimed_advancement : usize;
  fp_acceptance_gaps : usize;
  fp_monitors_open : usize;
  fp_monitors_due : usize
}.
Record TerminalClosure := mkTerminalClosure {
  tc_kind : string; tc_derived : bool; tc_source : string
}.
Record RolloutEvent := mkRolloutEvent {
  re_schema_version : string;
  re_event_id : string;
  re_event_kind : string;
  re_recorded_at : string;
  re_status : string
}.

(** * Reason codes *)
Inductive DecisionReasonCode :=
| GoalCancelledCode | IdentityNotRegistered | OpenUserGate | RunnableTodo | RepairAttempt
| OutcomeFloorBreach | RepairBudgetExhausted | BlockedNoFallback | SuccessionClosureMissing
| MonitorStalled | MonitorDue | MonitorBackoff | AcceptanceGapOpen | DeferredNotDue
| WorkLeasedToOthers | ValidatedClosure | OscillationDetected.
#[export] Instance DecisionReasonCode_eq_dec : EqDecision DecisionReasonCode.
Proof. solve_decision. Defined.
Definition reason_code_as_str (c : DecisionReasonCode) : string :=
  match c with
  | GoalCancelledCode => "goal_cancelled"
  | IdentityNotRegistered => "identity_not_registered"
  | OpenUserGate => "open_user_gate"
  | RunnableTodo => "runnable_todo"
  | RepairAttempt => "repair_attempt"
  | OutcomeFloorBreach => "outcome_floor_breach"
  | RepairBudgetExhausted => "repair_budget_exhausted"
  | BlockedNoFallback => "blocked_no_fallback"
  | SuccessionClosureMissing => "succession_closure_missing"
  | MonitorStalled => "monitor_stalled"
  | MonitorDue => "monitor_due"
  | MonitorBackoff => "monitor_backoff"
  | AcceptanceGapOpen => "acceptance_gap_open"
  | DeferredNotDue => "deferred_not_due"
  | WorkLeasedToOthers => "work_leased_to_others"
  | ValidatedClosure => "validated_closure"
  | OscillationDetected => "oscillation_detected"
  end.

(** * Slot accounting *)
Definition QUOTA_ALLOWED_SLOTS : u64 := 1440.
Inductive SlotSpendSource := SpendRun | SpendAgent | SpendHeartbeat.
#[export] Instance SlotSpendSource_eq_dec : EqDecision SlotSpendSource.
Proof. solve_decision. Defined.
Definition spend_source_as_str (s : SlotSpendSource) : string :=
  match s with SpendRun => "run" | SpendAgent => "agent" | SpendHeartbeat => "heartbeat" end.
Definition spend_source_parse (s : string) : option SlotSpendSource :=
  if s =?s "run" then Some SpendRun
  else if s =?s "agent" then Some SpendAgent
  else if s =?s "heartbeat" then Some SpendHeartbeat
  else None.
Definition classify_mode (m : TurnMode) : SlotSpendSource :=
  match m with
  | BoundedDelivery => SpendRun
  | MonitorPoll => SpendHeartbeat
  | AskUser | WaitMonitor | Replan | Terminal => SpendHeartbeat
  end.
Definition classify_record (r : RunRecord) : SlotSpendSource :=
  match (match rr_spend_source r with Some s => spend_source_parse s | None => None end) with
  | Some source => source
  | None => if rr_terminal_state r =?s "completed" then SpendRun else SpendHeartbeat
  end.
Definition slot_spend (r : RunRecord) : u64 :=
  match classify_record r with SpendHeartbeat => 0 | SpendRun | SpendAgent => 1 end.

Record SpendBreakdown := mkSpendBreakdown {
  sb_allowed_slots : u64;
  sb_spent_slots : u64;
  sb_by_source : list (SlotSpendSource * u64)
}.
Definition source_count (b : SpendBreakdown) (s : SlotSpendSource) : u64 :=
  match List.find (fun '(x, _) => bool_decide (x = s)) (sb_by_source b) with
  | Some (_, n) => n
  | None => 0
  end.
Definition account_history (history : list RunRecord) : SpendBreakdown :=
  let '(run, agent, heartbeat) :=
    List.fold_left
      (fun '(run, agent, heartbeat) r =>
         let spent := slot_spend r in
         match classify_record r with
         | SpendRun => (u64_add run spent, agent, heartbeat)
         | SpendAgent => (run, u64_add agent spent, heartbeat)
         | SpendHeartbeat => (run, agent, u64_add heartbeat spent)
         end)
      history (0, 0, 0) in
  {| sb_allowed_slots := QUOTA_ALLOWED_SLOTS;
     sb_spent_slots := u64_add (u64_add run agent) heartbeat;
     sb_by_source := [(SpendRun, run); (SpendAgent, agent); (SpendHeartbeat, heartbeat)] |}.

(** * Scheduler arbitration *)
Definition SCHEDULER_ARBITRATION_SCHEMA_VERSION : string := "scheduler_arbitration_v0".
Definition CONSISTENCY_REPAIR_ACTION : string :=
  "rebuild interaction_contract from the current quota decision, then rerun quota before applying scheduler cadence".
Definition ARBITRATION_ENFORCEMENT : bool := true.

Inductive SchedulerDisposition :=
| TerminalStop | AgentMonitorOnlyWait | ActiveWork | AgentScopeWait | ConsistencyRepair
| HumanGate | MonitorWait | QuietWait | UnchangedWait.
#[export] Instance SchedulerDisposition_eq_dec : EqDecision SchedulerDisposition.
Proof. solve_decision. Defined.

Record SchedulerArbitration := mkSchedulerArbitration {
  sa_disposition : SchedulerDisposition;
  sa_reason_code : string;
  sa_mode : string;
  sa_errors : list string
}.
Definition arbitration_ok (a : SchedulerArbitration) : bool := is_empty (sa_errors a).
Definition consistency_error (a : SchedulerArbitration) : option json :=
  if arbitration_ok a then None
  else Some (JObj
    [("schema_version", JStr SCHEDULER_ARBITRATION_SCHEMA_VERSION);
     ("reason_code", JStr (sa_reason_code a));
     ("mode", if sa_mode a =?s "" then JNull else JStr (sa_mode a));
     ("errors", JArr (List.map JStr (sa_errors a)));
     ("repair_action", JStr CONSISTENCY_REPAIR_ACTION)]).

Definition future_goal_mode (m : TurnMode) : string :=
  match m with
  | BoundedDelivery => "bounded_delivery"
  | AskUser => "user_gate"
  | MonitorPoll => "monitor_due"
  | WaitMonitor => "monitor_quiet_skip"
  | Replan => "successor_replan_required"
  | Terminal => "terminal_no_followup"
  end.

Definition classify_disposition (mode : string)
    (user_required must_attempt quiet_noop_allowed : bool)
    (agent_scope_frontier_actions : list string) : SchedulerDisposition * string :=
  if mode =?s "terminal_no_followup" then (TerminalStop, mode)
  else if mode =?s "agent_monitor_only" then (AgentMonitorOnlyWait, mode)
  else if user_required && negb must_attempt then (HumanGate, "interaction_blocking_user_gate")
  else if mode =?s "monitor_quiet_skip" then (MonitorWait, "interaction_monitor_quiet_wait")
  else if (mode =?s "successor_replan_required") && must_attempt
  then (ActiveWork, "interaction_successor_replan_required")
  else if existsb (String.eqb mode) agent_scope_frontier_actions
  then (AgentScopeWait, "interaction_agent_scope_wait")
  else if mode =?s "mapped_noop_if_unchanged"
  then (UnchangedWait, "interaction_unchanged_wait")
  else if must_attempt then (ActiveWork, "interaction_agent_attempt_required")
  else if quiet_noop_allowed then (QuietWait, "interaction_quiet_noop_allowed")
  else (QuietWait, "interaction_delivery_not_allowed").

(** [errors.retain(|e| seen.insert(e.clone()))]: the first occurrences. *)
Fixpoint dedup_strings (seen l : list string) : list string :=
  match l with
  | [] => []
  | e :: r => if existsb (String.eqb e) seen then dedup_strings seen r
              else e :: dedup_strings (e :: seen) r
  end.

Definition contract_errors (c : InteractionContract) : list string :=
  let mode := future_goal_mode (ic_mode c) in
  let user_required := uc_action_required (ic_user_channel c) in
  let must_attempt := ac_must_attempt (ic_agent_channel c) in
  let delivery_allowed := ac_delivery_allowed (ic_agent_channel c) in
  let quiet_noop_allowed := ac_quiet_noop_allowed (ic_agent_channel c) in
  (if negb (ic_schema_version c =?s INTERACTION_CONTRACT_SCHEMA_VERSION)
   then ["interaction_contract.schema_version_mismatch"] else []) ++
  (if delivery_allowed && negb must_attempt
   then ["interaction_contract.delivery_without_attempt"] else []) ++
  (if quiet_noop_allowed && (must_attempt || delivery_allowed || user_required)
   then ["interaction_contract.quiet_noop_conflicts_with_required_action"] else []) ++
  (if ((mode =?s "terminal_no_followup") || (mode =?s "agent_monitor_only"))
      && (user_required || must_attempt || delivery_allowed || negb quiet_noop_allowed)
   then ["interaction_contract.terminal_conflicts_with_open_action"] else []).

Definition build_scheduler_arbitration (c : InteractionContract)
    (agent_scope_frontier_actions : list string) : SchedulerArbitration :=
  let errors := contract_errors c in
  let mode := future_goal_mode (ic_mode c) in
  let '(disposition, reason_code) :=
    classify_disposition mode (uc_action_required (ic_user_channel c))
      (ac_must_attempt (ic_agent_channel c)) (ac_quiet_noop_allowed (ic_agent_channel c))
      agent_scope_frontier_actions in
  if is_empty errors then
    {| sa_disposition := disposition; sa_reason_code := reason_code;
       sa_mode := mode; sa_errors := [] |}
  else
    {| sa_disposition := ConsistencyRepair;
       sa_reason_code := "scheduler_interaction_contract_inconsistent";
       sa_mode := mode; sa_errors := dedup_strings [] errors |}.

(** * The packet *)
Record ShouldRunPacket := mkShouldRunPacket {
  pk_ok : bool;
  pk_mode : string;
  pk_goal_id : string;
  pk_decision : string;
  pk_should_run : bool;
  pk_effective_action : string;
  pk_reason : string;
  pk_reason_code : string;
  pk_state : string;
  pk_waiting_on : string;
  pk_status : string;
  pk_source : string;
  pk_recommended_action : string;
  pk_rollout_event : option RolloutEvent;
  pk_status_health_ok : bool;
  pk_normal_delivery_allowed : bool;
  pk_recovery_delivery_allowed : bool;
  pk_self_repair_allowed : bool;
  pk_capability_repair_allowed : bool;
  pk_workspace_repair_allowed : bool;
  pk_actionable_by_codex : bool;
  pk_requires_user_action : bool;
  pk_action_required : bool;
  pk_selected_todo : option json;
  pk_open_count : usize;
  pk_blocked_action_scope : option string;
  pk_safe_bypass_allowed : bool;
  pk_safe_bypass_kind : option string;
  pk_safe_bypass_policy : option string;
  pk_lifecycle_phase : string;
  pk_lifecycle_flags : list string;
  pk_project_asset_source : option string;
  pk_active_state_next_action : option string;
  pk_latest_run_recommended_action : option string;
  pk_interaction_contract : InteractionContract;
  pk_work_lane_contract : WorkLaneContract;
  pk_execution_obligation : ExecutionObligation;
  pk_automation_liveness : AutomationLiveness;
  pk_heartbeat_recommendation : HeartbeatRecommendation;
  pk_scheduler_hint : SchedulerHint;
  pk_quota : QuotaSnapshot;
  pk_execution_profile : ExecutionProfileSnapshot;
  pk_replan_ack : ReplanAckSnapshot;
  pk_authority : AuthoritySnapshot;
  pk_boundary : BoundarySnapshot;
  pk_frontier_projection : FrontierProjection;
  pk_agent_todo_summary : option TodoSummary;
  pk_user_todo_summary : option TodoSummary;
  pk_todo_summary_projection : option json;
  pk_goal_boundary : option json;
  pk_plan_summary : option json;
  pk_todo_write_hint : option string;
  pk_agent_identity : option json;
  pk_agent_lane_frontier_hint : option string;
  pk_agent_lane_next_action : option string;
  pk_goal_route_hint : option string;
  pk_task_scope : option string;
  pk_handoff_readiness : option json;
  pk_long_task_cadence_hint : option json;
  pk_promotion_readiness_warning : option string;
  pk_autonomous_backlog_candidates : option json;
  pk_protocol_action_packet : option json;
  pk_scheduler_arbitration : option SchedulerArbitration;
  pk_terminal_closure : option TerminalClosure;
  pk_decision_freshness : option DecisionFreshness
}.
#[export] Instance eta_ShouldRunPacket : Eta ShouldRunPacket := fun r =>
  mkShouldRunPacket (pk_ok r) (pk_mode r) (pk_goal_id r) (pk_decision r) (pk_should_run r)
    (pk_effective_action r) (pk_reason r) (pk_reason_code r) (pk_state r)
    (pk_waiting_on r) (pk_status r) (pk_source r) (pk_recommended_action r)
    (pk_rollout_event r) (pk_status_health_ok r) (pk_normal_delivery_allowed r)
    (pk_recovery_delivery_allowed r) (pk_self_repair_allowed r)
    (pk_capability_repair_allowed r) (pk_workspace_repair_allowed r)
    (pk_actionable_by_codex r) (pk_requires_user_action r) (pk_action_required r)
    (pk_selected_todo r) (pk_open_count r) (pk_blocked_action_scope r)
    (pk_safe_bypass_allowed r) (pk_safe_bypass_kind r) (pk_safe_bypass_policy r)
    (pk_lifecycle_phase r) (pk_lifecycle_flags r) (pk_project_asset_source r)
    (pk_active_state_next_action r) (pk_latest_run_recommended_action r)
    (pk_interaction_contract r) (pk_work_lane_contract r) (pk_execution_obligation r)
    (pk_automation_liveness r) (pk_heartbeat_recommendation r) (pk_scheduler_hint r)
    (pk_quota r) (pk_execution_profile r) (pk_replan_ack r) (pk_authority r)
    (pk_boundary r) (pk_frontier_projection r) (pk_agent_todo_summary r)
    (pk_user_todo_summary r) (pk_todo_summary_projection r) (pk_goal_boundary r)
    (pk_plan_summary r) (pk_todo_write_hint r) (pk_agent_identity r)
    (pk_agent_lane_frontier_hint r) (pk_agent_lane_next_action r) (pk_goal_route_hint r)
    (pk_task_scope r) (pk_handoff_readiness r) (pk_long_task_cadence_hint r)
    (pk_promotion_readiness_warning r) (pk_autonomous_backlog_candidates r)
    (pk_protocol_action_packet r) (pk_scheduler_arbitration r) (pk_terminal_closure r)
    (pk_decision_freshness r).

Definition apply_arbitration (enforce : bool) (packet : ShouldRunPacket) : ShouldRunPacket :=
  let arbitration := build_scheduler_arbitration (pk_interaction_contract packet) [] in
  let packet := packet <| pk_scheduler_arbitration := Some arbitration |> in
  if enforce && bool_decide (sa_disposition arbitration = ConsistencyRepair) then
    packet <| pk_ok := false |>
           <| pk_should_run := false |>
           <| pk_decision := "consistency_repair" |>
           <| pk_effective_action := "consistency_repair" |>
           <| pk_state := "waiting" |>
           <| pk_status := "consistency_repair" |>
           <| pk_recommended_action := CONSISTENCY_REPAIR_ACTION |>
           <| pk_normal_delivery_allowed := false |>
           <| pk_actionable_by_codex := false |>
           <| pk_scheduler_hint ::= (fun h =>
                h <| sh_action := "repair_interaction_contract_projection" |>
                  <| sh_cadence_class := "control_plane_repair" |>) |>
  else packet.
