(* ===== verification/Signals.v ===== *)
(** Decision signals (decision/stall.rs, decision/oscillation.rs,
    decision/monitor.rs, decision/frontier.rs): the advisories attached to a
    delivery, the detector of accept/reject alternation over the run history,
    the monitor lane and the priority-sorted frontier. *)
From S2P Require Import Prelude Cadence Todos GoalState Contract.

(** * decision/mod.rs: truncation to a number of characters *)
Definition truncate (s : string) (max : nat) : string :=
  if (char_count s <=? max)%nat then s else char_take max s +:+ "…".

(** * decision/oscillation.rs *)
Definition OSCILLATION_PATTERN_LEN : nat := 4.

Inductive RunSignature := Accepted | Rejected.
#[export] Instance RunSignature_eq_dec : EqDecision RunSignature.
Proof. solve_decision. Defined.
Definition symbol (s : RunSignature) : string :=
  match s with Accepted => "A" | Rejected => "V" end.

Record OscillationReport := mkOscillationReport {
  or_alternating_len : usize;
  or_pattern : string;
  or_newest_recorded_at : u64
}.

Definition signature_of (record : RunRecord) : option RunSignature :=
  if bool_decide (classify_record record = SpendHeartbeat) then None
  else if negb (rr_terminal_state record =?s "completed") then None
  else Some (match rr_validation record with
             | Some v => if tv_ok v then Accepted else Rejected
             | None => Accepted
             end).

(** [signatures.windows(2)] *)
Fixpoint windows2 {A} (l : list A) : list (A * A) :=
  match l with
  | x :: ((y :: _) as r) => (x, y) :: windows2 r
  | _ => []
  end.

(** The loop of [alternating_suffix_len], with its [break]. *)
Fixpoint count_alternating (pairs : list (RunSignature * RunSignature)) (n : nat) : nat :=
  match pairs with
  | [] => n
  | (a, b) :: r => if bool_decide (a = b) then n else count_alternating r (S n)
  end.
Definition alternating_suffix_len (signatures : list RunSignature) : nat :=
  count_alternating (List.rev (windows2 signatures)) (List.length signatures `min` 1)%nat.

(** The delivery outcomes recorded after [since], in time order. *)
Definition observed_signatures (history : list RunRecord) (since : u64)
  : list (u64 * RunSignature) :=
  sort_by_key fst
    (omap (fun r => match signature_of r with
                    | Some s => Some (rr_recorded_at r, s)
                    | None => None
                    end)
       (List.filter (fun r => since <? rr_recorded_at r) history)).

Definition detect (history : list RunRecord) (since : u64) : option OscillationReport :=
  let signatures := observed_signatures history since in
  let n := alternating_suffix_len (List.map snd signatures) in
  if (n <? OSCILLATION_PATTERN_LEN)%nat then None
  else
    let suffix := drop (List.length signatures - n) signatures in
    Some {| or_alternating_len := Z.of_nat n;
            or_pattern := join "→" (List.map (fun x => symbol (snd x)) suffix);
            or_newest_recorded_at := match last suffix with Some (ts, _) => ts | None => 0 end |}.

Definition ack_time (g : Goal) : u64 :=
  match g_replan_ack g with Some a => ra_at a | None => 0 end.

Definition oscillation_replan_reason (g : Goal) : option string :=
  match detect (g_history g) (ack_time g) with
  | Some report =>
      Some ("oscillation detected: delivery outcomes flip-flop " +:+ or_pattern report +:+ " ("
            +:+ show (or_alternating_len report)
            +:+ " consecutive alternating turns) — record a frontier-changing replan delta to break the action/verify loop")
  | None => None
  end.

(** * decision/stall.rs *)
Definition LLM_ZOMBIE_TURN_THRESHOLD : u32 := 2.
Definition MONITOR_NO_CHANGE_REPLAN_THRESHOLD : u32 := 3.
Definition MAX_REPAIR_ATTEMPTS : u32 := 1.

Definition is_monitor_stalled (m : Todo) : bool :=
  MONITOR_NO_CHANGE_REPLAN_THRESHOLD <=? td_consecutive_no_change m.

Definition outcome_floor_breach (g : Goal) : option string :=
  let threshold := ep_outcome_floor_streak_threshold (g_execution_profile g) in
  if (0 <? threshold) && (threshold <=? g_outcome_streak g) then
    Some ("outcome floor: " +:+ show (g_outcome_streak g)
          +:+ " consecutive turns without a material outcome (threshold "
          +:+ show threshold +:+ ")")
  else None.

(** The turns of the current streak recorded for a todo. *)
Definition no_progress_turns (g : Goal) (id : string) : u32 :=
  count (fun np => np_todo_id np =?s id) (g_turn_no_progress g).

Definition todo_signals (g : Goal) (t : Todo) : list string :=
  (match outcome_floor_breach g with
   | Some signal =>
       ["[signal: " +:+ signal
        +:+ " — consider changing strategy or superseding a stale todo]"]
   | None => []
   end) ++
  (match oscillation_replan_reason g with
   | Some signal =>
       ["[signal: " +:+ signal
        +:+ " — inspect artifacts and split work if useful; do not weaken acceptance criteria to obtain a pass]"]
   | None => []
   end) ++
  (if 0 <? td_failed_attempts t then
     ["[signal: todo " +:+ td_id t +:+ " has " +:+ show (td_failed_attempts t)
      +:+ " failed attempt(s) — consider superseding or asking the operator]"]
   else []) ++
  (let n := no_progress_turns g (td_id t) in
   if LLM_ZOMBIE_TURN_THRESHOLD <=? n then
     ["[signal: " +:+ show n
      +:+ " turns with no write-class tool (write/edit) — activity is not progress; shell/read-only research may be productive. Inspect evidence, validation and reported milestones before deciding whether to restart]"]
   else []).

Definition over_budget (t : Todo) : bool := MAX_REPAIR_ATTEMPTS <? td_failed_attempts t.
Definition repair_exhausted (g : Goal) (now : SystemTime) : bool :=
  existsb over_budget (open_of_at g Advancement now).

(** The quoted operator hint of [repair_exhausted_reason]; 34 is the double
    quote. *)
Definition dquote : string := String (ascii_of_nat 34) EmptyString.
Definition repair_hint : string :=
  "check (a) is the --verify gate tautological/always-false (e.g. `test -n " +:+ dquote +:+ dquote
  +:+ "` from an empty $() expansion), or (b) does it assert a file only present at grading time (data injected into /app/data)? Fix the gate or supersede the todo — don't relaunch the same turn".

Definition repair_exhausted_reason (g : Goal) (now : SystemTime) : option string :=
  let exhausted := List.filter over_budget (open_of_at g Advancement now) in
  if is_empty exhausted then None
  else
    let parts := List.map (fun t =>
      td_id t +:+
      match td_validator t with
      | Some v => " (--verify `" +:+ v +:+ "` failed " +:+ show (td_failed_attempts t) +:+ ")"
      | None => " (no --verify; " +:+ show (td_failed_attempts t) +:+ " failed attempts)"
      end) exhausted in
    Some ("advancement todo(s) exhausted repair budget: "
          +:+ join "; " (parts ++ [repair_hint])).

(** * decision/monitor.rs *)
Definition monitor_poll_classification (changed : bool) (consecutive_no_change : u32)
  : string * u32 :=
  if changed then ("changed", 0) else ("no_change", u32_add consecutive_no_change 1).

Inductive MonitorOutcome :=
| Stalled (m : Todo)
| Due (due : list Todo)
| Waiting (next_due_ms : option u64)
| NoMonitor.

(** [iter.filter_map(|m| m.resume_when).min()] *)
Definition min_opt (l : list Z) : option Z :=
  match l with [] => None | x :: r => Some (List.fold_left Z.min r x) end.

Definition monitor_outcome (g : Goal) (now : SystemTime) : MonitorOutcome :=
  let monitors := open_monitors_at g now in
  match List.find is_monitor_stalled monitors with
  | Some m => Stalled m
  | None =>
      let d := List.filter (fun m => due (td_resume_when m) now) monitors in
      if negb (is_empty d) then Due d
      else if negb (is_empty monitors) then
        Waiting (match min_opt (omap td_resume_when monitors) with
                 | Some d => if now <=? d then Some ((d - now) / nanos_per_milli) else None
                 | None => None
                 end)
      else NoMonitor
  end.

(** * decision/frontier.rs *)
Definition todo_rank (t : Todo) : Z := priority_rank (td_priority t).
Definition sorted_runnable_at (g : Goal) (agent_id : option string) (now : SystemTime)
  : list Todo :=
  sort_by_key todo_rank (runnable_advancement_for_at g agent_id now).

Definition lane_at (g : Goal) (now : SystemTime) : string :=
  if negb (is_empty (open_of_at g Monitor now)) then "monitor" else "advancement_task".

Definition frontier_projection_at (g : Goal) (replan_required : bool) (now : SystemTime)
  : FrontierProjection :=
  let '(claimable, owner_scoped) := pending_advancement_owner_aware_at g now in
  {| fp_replan_required := replan_required;
     fp_current_agent_advancement :=
       count (fun t => 0 <? td_failed_attempts t) (runnable_advancement_for_at g None now);
     fp_unclaimed_advancement := len claimable + len owner_scoped;
     fp_acceptance_gaps := len (unsatisfied_gaps g);
     fp_monitors_open := len (open_monitors_at g now);
     fp_monitors_due := count (fun m => due (td_resume_when m) now) (open_monitors_at g now) |}.
