(* ===== verification/GoalFrontier.v ===== *)
(** The goal frontier (decision/goal_frontier/*.rs,
    work_items/replan_obligation.rs): outcome-continuity segments, the bounded
    semantic history, replan obligations and the replan rule table, the
    terminal judgement and the [frontier show] projection. *)
From S2P Require Import Prelude Cadence Todos GoalState Contract Signals.

(** * outcome_continuity.rs *)
Definition SEGMENT_KIND_SURFACE_ONLY : string := "surface_only".
Definition SEGMENT_KIND_MATERIAL : string := "material".
Record OutcomeSegment := mkOutcomeSegment {
  os_segment_id : string; os_start_turn : u32; os_length : u32; os_kind : string
}.
#[export] Instance eta_OutcomeSegment : Eta OutcomeSegment := fun r =>
  mkOutcomeSegment (os_segment_id r) (os_start_turn r) (os_length r) (os_kind r).

Definition run_is_material (r : RunRecord) : bool :=
  negb (is_empty (rr_tools r)) && negb (is_blank (rr_evidence r)).
Definition kind_of (r : RunRecord) : string :=
  if run_is_material r then SEGMENT_KIND_MATERIAL else SEGMENT_KIND_SURFACE_ONLY.
Definition frontier_changed_between (g : Goal) (prev_at at_ : u64) : bool :=
  existsb (fun ts => (prev_at <? ts) && (ts <=? at_)) (g_frontier_change_ts g).

(** [if let Some(last) = segments.last_mut() { last.length += 1 }] *)
Fixpoint extend_last (l : list OutcomeSegment) : list OutcomeSegment :=
  match l with
  | [] => []
  | [s] => [s <| os_length ::= (fun n => u32_add n 1) |>]
  | s :: r => s :: extend_last r
  end.

Record SegmentState := mkSegmentState {
  ss_segments : list OutcomeSegment;
  ss_current_kind : option string;
  ss_prev_at : option u64
}.
(** Whether [record] continues the current segment. *)
Definition continues_segment (g : Goal) (st : SegmentState) (record : RunRecord) : bool :=
  bool_decide (ss_current_kind st = Some (kind_of record)) &&
  negb match ss_prev_at st with
       | Some prev => frontier_changed_between g prev (rr_recorded_at record)
       | None => false
       end.
Definition segment_step (g : Goal) (st : SegmentState) (record : RunRecord) : SegmentState :=
  let kind := kind_of record in
  if continues_segment g st record then
    {| ss_segments := extend_last (ss_segments st);
       ss_current_kind := ss_current_kind st;
       ss_prev_at := Some (rr_recorded_at record) |}
  else
    {| ss_segments := ss_segments st ++
         [{| os_segment_id := "seg_" +:+ show (rr_turn record);
             os_start_turn := rr_turn record; os_length := 1; os_kind := kind |}];
       ss_current_kind := Some kind;
       ss_prev_at := Some (rr_recorded_at record) |}.
Definition outcome_segments (g : Goal) : list OutcomeSegment :=
  ss_segments (List.fold_left (segment_step g) (g_history g)
                 {| ss_segments := []; ss_current_kind := None; ss_prev_at := None |}).

(** * semantic_history.rs *)
Definition SEMANTIC_HISTORY_CAP : nat := 50.
Definition SEMANTIC_SUMMARY_MAX_CHARS : nat := 200.
Definition KIND_RUN_LANDED : string := "run_landed".
Definition KIND_TODO_COMPLETED : string := "todo_completed".
Definition KIND_TODO_SUPERSEDED : string := "todo_superseded".
Definition KIND_ACCEPTANCE_GAP_SATISFIED : string := "acceptance_gap_satisfied".
Definition KIND_REPLAN_ACKED : string := "replan_acked".
Definition KIND_MONITOR_POLL : string := "monitor_poll".
Definition KIND_GATE_RESOLVED : string := "gate_resolved".
Definition KIND_DELIVERY_OUTCOME : string := "delivery_outcome".
Definition KIND_TURN_NO_PROGRESS : string := "turn_no_progress".

Definition truncate_summary (text : string) : string := truncate text SEMANTIC_SUMMARY_MAX_CHARS.

Definition record_semantic_event (kind : string) (todo_id : option string) (summary : string)
    (ts : u64) (g : Goal) : Goal :=
  g <| g_semantic_history ::= (fun l =>
    keep_last SEMANTIC_HISTORY_CAP
      (l ++ [{| se_kind := kind; se_todo_id := todo_id;
                se_summary := truncate_summary summary; se_ts := ts |}])) |>.

(** * work_items/replan_obligation.rs *)
Definition REPLAN_OBLIGATION_SCHEMA_VERSION : string := "replan_obligation_v0".
Definition MONITOR_NO_CHANGE_OBLIGATION_THRESHOLD : u32 := 3.
Record ReplanObligation := mkReplanObligation {
  ro_schema_version : string;
  ro_kind : string;
  ro_goal_id : string;
  ro_todo_id : option string;
  ro_raised_at : u64;
  ro_evidence : string;
  ro_cleared : bool;
  ro_cleared_reason : option string;
  ro_cleared_at : option u64
}.

Definition ack_clears (g : Goal) (raised_at : u64) : option u64 :=
  match g_replan_ack g with
  | Some ack => if has_frontier_delta ack && (raised_at <=? ra_at ack)
                then Some (ra_at ack) else None
  | None => None
  end.

(** An obligation of [kind] that an ack may clear. *)
Definition clearable (g : Goal) (kind : string) (id : string) (raised_at : u64)
    (evidence : string) : ReplanObligation :=
  let cleared_at := ack_clears g raised_at in
  {| ro_schema_version := REPLAN_OBLIGATION_SCHEMA_VERSION; ro_kind := kind;
     ro_goal_id := g_goal_id g; ro_todo_id := Some id; ro_raised_at := raised_at;
     ro_evidence := evidence; ro_cleared := bool_decide (is_Some cleared_at);
     ro_cleared_reason := match cleared_at with Some _ => Some "replan_ack" | None => None end;
     ro_cleared_at := cleared_at |}.

Definition monitor_obligations (g : Goal) : list ReplanObligation :=
  List.map (fun t =>
      clearable g "monitor_no_change_streak" (td_id t) (td_updated_at t)
        ("monitor " +:+ td_id t +:+ " recorded " +:+ show (td_consecutive_no_change t)
         +:+ " consecutive unchanged polls without a material transition"))
    (List.filter (fun t => class_is (td_class t) Monitor && status_is (td_status t) Open
                           && negb (td_consecutive_no_change t
                                    <? MONITOR_NO_CHANGE_OBLIGATION_THRESHOLD))
       (g_todos g)).

Definition floor_obligations (g : Goal) : list ReplanObligation :=
  let floor := ep_outcome_floor_streak_threshold (g_execution_profile g) in
  if (0 <? floor) && (floor <=? g_outcome_streak g) then
    let raised_at :=
      match List.find run_is_material (List.rev (g_history g)) with
      | Some r => rr_recorded_at r
      | None => g_created_at g
      end in
    [{| ro_schema_version := REPLAN_OBLIGATION_SCHEMA_VERSION;
        ro_kind := "surface_only_progress_streak"; ro_goal_id := g_goal_id g;
        ro_todo_id := None; ro_raised_at := raised_at;
        ro_evidence := show (g_outcome_streak g)
          +:+ " consecutive surface-only turns without a material outcome (floor="
          +:+ show floor +:+ ")";
        ro_cleared := false; ro_cleared_reason := None; ro_cleared_at := None |}]
  else [].

Definition succession_obligations (g : Goal) : list ReplanObligation :=
  List.map (fun t =>
      clearable g "succession_gap" (td_id t)
        (default (td_updated_at t) (td_completed_at t))
        ("todo " +:+ td_id t +:+ " completed without declaring a successor or no-follow-up"))
    (completed_without_closure_intent g).

Definition detect_obligations (g : Goal) : list ReplanObligation :=
  monitor_obligations g ++ floor_obligations g ++ succession_obligations g.
Definition unfulfilled_obligations (g : Goal) : list ReplanObligation :=
  List.filter (fun o => negb (ro_cleared o)) (detect_obligations g).
Definition has_unfulfilled_obligation (g : Goal) : bool :=
  negb (is_empty (unfulfilled_obligations g)).

(** * replan_rules.rs *)
Definition REPLAN_RULE_DECISION_SCHEMA_VERSION : string := "goal_frontier_replan_rule_decision_v0".
Definition DEFAULT_REPLAN_RULE_SET_VERSION : string := "goal_frontier_replan_rules_v0".
Definition RULE_EXISTING_OBLIGATION : string := "existing_obligation".
Definition RULE_OPEN_USER_TODO : string := "open_user_todo".
Definition RULE_TODO_SUCCESSION_GAP : string := "todo_succession_gap".
Definition RULE_VISION_ACCEPTANCE_GAP : string := "vision_acceptance_gap".
Definition RULE_MONITOR_NO_CHANGE_STREAK : string := "monitor_no_change_streak".
Definition RULE_NOT_MONITOR_ONLY : string := "not_monitor_only".
Definition RULE_NO_OPEN_MONITOR : string := "no_open_monitor".
Definition RULE_ADVANCEMENT_REMAINS : string := "advancement_remains".
Definition RULE_MONITOR_FRONTIER_EXHAUSTED : string := "monitor_frontier_exhausted".

Definition default_rule_ids : list string :=
  [RULE_EXISTING_OBLIGATION; RULE_OPEN_USER_TODO; RULE_TODO_SUCCESSION_GAP;
   RULE_VISION_ACCEPTANCE_GAP; RULE_MONITOR_NO_CHANGE_STREAK; RULE_NOT_MONITOR_ONLY;
   RULE_NO_OPEN_MONITOR; RULE_ADVANCEMENT_REMAINS; RULE_MONITOR_FRONTIER_EXHAUSTED].
Definition default_rule_set : ReplanRuleSet :=
  {| rs_schema_version := DEFAULT_REPLAN_RULE_SET_VERSION; rs_rule_ids := default_rule_ids |}.
Definition is_known_rule (id : string) : bool := existsb (String.eqb id) default_rule_ids.
Definition effective_rule_ids (s : ReplanRuleSet) : list string :=
  if existsb is_known_rule (rs_rule_ids s) then rs_rule_ids s else default_rule_ids.

Record ReplanFacts := mkReplanFacts {
  rf_existing_replan_required : bool;
  rf_blocking_user_open_count : usize;
  rf_succession_gap_count : usize;
  rf_acceptance_gap_count : usize;
  rf_selectable_frontier_advancement : usize;
  rf_advancement_open_count : usize;
  rf_monitor_count : usize;
  rf_monitor_no_change_streak_triggered : bool;
  rf_monitor_only_lane : bool
}.

Definition facts_for_goal (g : Goal) (now : SystemTime) : ReplanFacts :=
  let runnable := len (runnable_advancement_for_at g None now) in
  let advancement_open :=
    count (fun t => class_is (td_class t) Advancement && negb (closed_status (td_status t)))
      (g_todos g) in
  {| rf_existing_replan_required :=
       existsb (fun o => ro_kind o =?s "surface_only_progress_streak")
         (unfulfilled_obligations g);
     rf_blocking_user_open_count :=
       len (open_gates_at g now) + len (open_of_at g UserAction now);
     rf_succession_gap_count := len (completed_without_closure_intent g);
     rf_acceptance_gap_count := len (unsatisfied_gaps g);
     rf_selectable_frontier_advancement := runnable;
     rf_advancement_open_count := advancement_open;
     rf_monitor_count := len (open_monitors_at g now);
     rf_monitor_no_change_streak_triggered :=
       existsb (fun m => MONITOR_NO_CHANGE_OBLIGATION_THRESHOLD <=? td_consecutive_no_change m)
         (open_monitors_at g now);
     rf_monitor_only_lane := runnable =? 0 |}.

Record ReplanRuleDecision := mkReplanRuleDecision {
  rd_schema_version : string;
  rd_rule : string;
  rd_rule_index : u32;
  rd_derives_obligation : bool;
  rd_obligation_kind : option string;
  rd_reason : string
}.

Definition rule_obligation (rule : string) : option string :=
  if rule =?s RULE_TODO_SUCCESSION_GAP then Some "succession_gap"
  else if rule =?s RULE_VISION_ACCEPTANCE_GAP then Some "vision_acceptance_gap"
  else if rule =?s RULE_MONITOR_NO_CHANGE_STREAK then Some "monitor_no_change_streak"
  else if rule =?s RULE_MONITOR_FRONTIER_EXHAUSTED then Some "surface_only_progress_streak"
  else None.
Definition decision_for (rule : string) (rule_index : u32) (reason : string)
  : ReplanRuleDecision :=
  {| rd_schema_version := REPLAN_RULE_DECISION_SCHEMA_VERSION; rd_rule := rule;
     rd_rule_index := rule_index;
     rd_derives_obligation := bool_decide (is_Some (rule_obligation rule));
     rd_obligation_kind := rule_obligation rule; rd_reason := reason |}.

(** The [matching] closure: the reason when [rule]'s guard holds.  A rule whose
    guard fails falls through to [None] like an unknown one. *)
Definition matching (f : ReplanFacts) (rule : string) : option string :=
  if (rule =?s RULE_EXISTING_OBLIGATION) && rf_existing_replan_required f
  then Some "an existing scoped obligation remains authoritative"
  else if (rule =?s RULE_OPEN_USER_TODO) && (0 <? rf_blocking_user_open_count f)
  then Some "open blocking user work owns the frontier"
  else if (rule =?s RULE_TODO_SUCCESSION_GAP) && (0 <? rf_succession_gap_count f)
          && (rf_selectable_frontier_advancement f =? 0) && (rf_advancement_open_count f =? 0)
  then Some "completed advancement work lacks a successor or no-followup rationale"
  else if (rule =?s RULE_VISION_ACCEPTANCE_GAP) && (0 <? rf_acceptance_gap_count f)
          && (rf_selectable_frontier_advancement f =? 0)
  then Some "the scoped vision gap lacks a satisfying runnable frontier"
  else if (rule =?s RULE_MONITOR_NO_CHANGE_STREAK) && rf_monitor_only_lane f
          && (0 <? rf_monitor_count f) && rf_monitor_no_change_streak_triggered f
  then Some "the current agent monitor crossed the no-change replan threshold"
  else if (rule =?s RULE_NOT_MONITOR_ONLY) && negb (rf_monitor_only_lane f)
  then Some "the selected lane is not monitor-only"
  else if (rule =?s RULE_NO_OPEN_MONITOR) && (rf_monitor_count f =? 0)
  then Some "no open monitor remains"
  else if (rule =?s RULE_ADVANCEMENT_REMAINS) && (0 <? rf_advancement_open_count f)
  then Some "advancement work remains on the frontier"
  else if rule =?s RULE_MONITOR_FRONTIER_EXHAUSTED
  then Some "only monitor work remains on an empty advancement frontier"
  else None.

(** [for (index, rule) in rules { if let Some(reason) = matching(rule) { return .. } }] *)
Fixpoint first_matching (f : ReplanFacts) (rules : list (u32 * string))
  : option ReplanRuleDecision :=
  match rules with
  | [] => None
  | (index, rule) :: rest =>
      match matching f rule with
      | Some reason => Some (decision_for rule index reason)
      | None => first_matching f rest
      end
  end.
(** [rules.iter().enumerate()] *)
Fixpoint enumerate_from {A} (i : Z) (l : list A) : list (Z * A) :=
  match l with [] => [] | x :: r => (i, x) :: enumerate_from (i + 1) r end.

(** [None] is the [unreachable!] at the end of the function. *)
Definition select_replan_rule_with_set (f : ReplanFacts) (rule_ids : list string)
  : option ReplanRuleDecision :=
  let ordered := List.filter (fun x => is_known_rule (snd x)) (enumerate_from 0 rule_ids) in
  match first_matching f ordered with
  | Some d => Some d
  | None => first_matching f (enumerate_from 0 default_rule_ids)
  end.

Definition select_replan_rule (g : Goal) (now : SystemTime) : option ReplanRuleDecision :=
  let ids := match g_replan_rule_set g with
             | Some s => effective_rule_ids s
             | None => default_rule_ids
             end in
  select_replan_rule_with_set (facts_for_goal g now) ids.
Definition active_rule_set (g : Goal) : ReplanRuleSet := default default_rule_set (g_replan_rule_set g).

(** * terminal.rs *)
Definition TERMINAL_JUDGEMENT_SCHEMA_VERSION : string := "goal_terminal_judgement_v0".
Definition TERMINAL_KIND_NO_FOLLOWUP : string := "no_followup".
Definition TERMINAL_SOURCE_VALIDATED : string := "validated_goal_closure".
Definition GAP_OPEN_TODO : string := "open_todo".
Definition GAP_OPEN_MONITOR : string := "open_monitor".
Definition GAP_PENDING_DEFERRED : string := "pending_deferred".
Definition GAP_UNSATISFIED_ACCEPTANCE : string := "unsatisfied_acceptance".
Definition GAP_SUCCESSION : string := "succession_gap".

Record TerminalGap := mkTerminalGap {
  tg_kind : string;
  tg_todo_id : option string;
  tg_gap_id : option string;
  tg_description : string;
  tg_satisfied : bool
}.
Record TerminalJudgement := mkTerminalJudgement {
  tj_schema_version : string;
  tj_terminal : bool;
  tj_kind : option string;
  tj_source : option string;
  tj_gaps : list TerminalGap;
  tj_closure_proof : TerminalClosureProof
}.

Definition not_done (t : Todo) : bool := negb (closed_status (td_status t)).

Definition open_todo_gap (now : SystemTime) (t : Todo) : TerminalGap :=
  if status_is (td_status t) Deferred && negb (is_due_deferred t now) then
    {| tg_kind := GAP_PENDING_DEFERRED; tg_todo_id := Some (td_id t); tg_gap_id := None;
       tg_description := "deferred todo " +:+ td_id t +:+ " not yet due";
       tg_satisfied := false |}
  else
    {| tg_kind := if class_is (td_class t) Monitor then GAP_OPEN_MONITOR else GAP_OPEN_TODO;
       tg_todo_id := Some (td_id t); tg_gap_id := None;
       tg_description := "todo " +:+ td_id t +:+ " still "
         +:+ future_goal_status (td_status t) +:+ " (class "
         +:+ future_goal_task_class (td_class t) +:+ ")";
       tg_satisfied := false |}.
Definition acceptance_gap_entry (x : AcceptanceGap) : TerminalGap :=
  {| tg_kind := GAP_UNSATISFIED_ACCEPTANCE; tg_todo_id := None; tg_gap_id := Some (ag_id x);
     tg_description := ag_description x; tg_satisfied := false |}.
Definition succession_gap_entry (t : Todo) : TerminalGap :=
  {| tg_kind := GAP_SUCCESSION; tg_todo_id := Some (td_id t); tg_gap_id := None;
     tg_description := "todo " +:+ td_id t +:+ " completed without successor or no-follow-up";
     tg_satisfied := false |}.
Definition unvalidated_gap_entry (t : Todo) : TerminalGap :=
  {| tg_kind := "unvalidated_delivery"; tg_todo_id := Some (td_id t); tg_gap_id := None;
     tg_description := "todo " +:+ td_id t +:+ " has no passed validation or verified delivery";
     tg_satisfied := false |}.

Definition terminal_gaps (g : Goal) (now : SystemTime) : list TerminalGap :=
  List.map (open_todo_gap now) (List.filter not_done (g_todos g))
  ++ List.map acceptance_gap_entry (unsatisfied_gaps g)
  ++ List.map succession_gap_entry (completed_without_closure_intent g)
  ++ List.map unvalidated_gap_entry (unvalidated_deliveries g).

Definition terminal_judgement_at (g : Goal) (now : SystemTime) : TerminalJudgement :=
  let gaps := terminal_gaps g now in
  {| tj_schema_version := TERMINAL_JUDGEMENT_SCHEMA_VERSION;
     tj_terminal := is_empty gaps;
     tj_kind := if is_empty gaps then Some TERMINAL_KIND_NO_FOLLOWUP else None;
     tj_source := if is_empty gaps then Some TERMINAL_SOURCE_VALIDATED else None;
     tj_gaps := gaps;
     tj_closure_proof := ts_terminal_closure_proof (todo_summary_at g now) |}.

(** * mod.rs: [frontier show] *)
Record TodoAssignment := mkTodoAssignment {
  ta_todo_id : string;
  ta_owner : option string;
  ta_owner_registered : option bool;
  ta_claimed_by : option string;
  ta_lease_expires_at : option u64
}.
Record FrontierShow := mkFrontierShow {
  fs_schema_version : string;
  fs_goal_id : string;
  fs_lane : string;
  fs_frontier_projection : FrontierProjection;
  fs_todo_assignments : list TodoAssignment;
  fs_outcome_segments : list OutcomeSegment;
  fs_replan_rule : option ReplanRuleDecision;
  fs_terminal_judgement : TerminalJudgement;
  fs_semantic_history : list SemanticEvent
}.

(** The clock is read once per query; [now] stands for all of them. *)
Definition replan_required (g : Goal) (now : SystemTime) : bool :=
  negb (is_empty (open_gates_at g now))
  || negb (is_empty (completed_without_closure_intent g))
  || existsb is_monitor_stalled (open_monitors_at g now)
  || negb (is_empty (unsatisfied_gaps g)).

Definition frontier_show (g : Goal) (now : SystemTime) : FrontierShow :=
  {| fs_schema_version := "goal_frontier_show_v0";
     fs_goal_id := g_goal_id g;
     fs_lane := lane_at g now;
     fs_frontier_projection := frontier_projection_at g (replan_required g now) now;
     fs_todo_assignments :=
       List.map (fun t =>
         {| ta_todo_id := td_id t; ta_owner := td_owner t;
            ta_owner_registered := match td_owner t with
                                   | Some owner => Some (is_registered_agent g (Some owner))
                                   | None => None
                                   end;
            ta_claimed_by := td_claimed_by t; ta_lease_expires_at := td_lease_expires_at t |})
         (List.filter not_done (g_todos g));
     fs_outcome_segments := outcome_segments g;
     fs_replan_rule := select_replan_rule g now;
     fs_terminal_judgement := terminal_judgement_at g now;
     fs_semantic_history := g_semantic_history g |}.
