(* ===== verification/Decision.v ===== *)
(** The decision kernel (decision/mod.rs, decision/identity.rs,
    decision/boundary.rs, decision/goal_boundary.rs,
    decision/heartbeat_recommendation.rs): [decide_for] compiles a goal state
    and a clock into a should-run packet. *)
From S2P Require Import Prelude Cadence Todos GoalState Contract Signals GoalFrontier.

(** * Packet parts *)
Definition boundary_snapshot (home : string) (g : Goal) : BoundarySnapshot :=
  let leaks := boundary_scan_leaks home (g_objective g) in
  {| bs_leaks := leaks;
     bs_public_safe := is_empty (boundary_scan_leaks home (g_objective g)) |}.

Definition goal_boundary_json (g : Goal) : json :=
  JObj [("repo", JStr (g_cwd g));
        ("write_scope", JArr (List.map JStr (au_write_scope (g_authority g))))].

Definition newline : string := String (ascii_of_nat 10) EmptyString.
Definition compose_goal_boundary (g : Goal) : string :=
  let acceptance :=
    if is_empty (g_acceptance g) then "see per-todo acceptance"
    else join newline (List.map (fun x => "- " +:+ ag_description x +:+ " (" +:+ ag_id x +:+ ")")
                         (g_acceptance g)) in
  join newline
    ["You are an executor working under a deterministic control plane.";
     "";
     "GOAL: " +:+ g_objective g;
     "ACCEPTANCE (what 'done' means):";
     acceptance;
     "";
     "Rules:";
     "- Work exactly one todo per turn. Do not invent work outside the goal.";
     "- Write evidence: report concrete results (file paths, values, diffs).";
     "- When the todo is complete, stop — do not continue into extra work.";
     "- You cannot change the goal or its acceptance."].

Definition recommendation (mode : TurnMode) (must_attempt : bool) : HeartbeatRecommendation :=
  {| hr_recommended_mode :=
       match mode with
       | Terminal => "terminal_no_followup"
       | WaitMonitor => "quiet_wait"
       | AskUser => "ask_user"
       | _ => "steering_audit_then_one_step"
       end;
     hr_notify := if must_attempt then "DONT_NOTIFY" else "NOTIFY_ON_GATE";
     hr_spend_policy := "append exactly one heartbeat spend only after a bounded progress segment is validated and written back";
     hr_reason := "eligible goal requires the standard steering audit before delivery" |}.

Definition selected_todo_json (g : Goal) (todo_id : string) : json :=
  let t := todo g todo_id in
  JObj [("schema_version", JStr "quota_selected_todo_v0");
        ("source", JStr "agent_todo_summary.first_executable_items");
        ("todo_id", JStr todo_id);
        ("index", JNum (match t with Some t => td_index t | None => 0 end));
        ("role", JStr "agent");
        ("priority", JStr (match t with
                           | Some t => priority_to_string (td_priority t) | None => "" end));
        ("status", JStr "open");
        ("task_class", JStr (match t with
                             | Some t => future_goal_task_class (td_class t) | None => "" end));
        ("action_kind", JStr (match t with
                              | Some t => default "" (td_action_kind t) | None => "" end));
        ("text", JStr (match t with Some t => td_text t | None => "" end));
        ("agent_id", JStr "");
        ("selected_by", JStr "unclaimed_todo");
        ("confidence", JStr "candidate");
        ("claim_required_before_work", JBool true)].

Definition ids_of (l : list Todo) : list string := List.map td_id l.
Definition texts_of (l : list Todo) : list string := List.map td_text l.

(** The IEEE-754 bits of [1.0]. *)
Definition f64_one : f64 := 4607182418800017408.

Section Decide.
(** The environment of the decision: [compat::home_dir()], the fresh uuid of
    the rollout event, and [compat::rfc3339] (chrono's local-time rendering
    of an epoch second). *)
Variable home : string.
Variable fresh_uuid : string.
Variable rfc3339 : u64 -> string.

Definition packet (g : Goal) (now : SystemTime) (reason_code : DecisionReasonCode)
    (decision : string) (should_run : bool) (effective_action : string) (mode : TurnMode)
    (reason : string) (user_channel : UserChannel) (agent_channel : AgentChannel)
  : ShouldRunPacket :=
  let must_attempt := ac_must_attempt agent_channel in
  let gates := len (open_gates_at g now) in
  let done_unclosed := len (completed_without_closure_intent g) in
  let monitor_stalled := existsb is_monitor_stalled (open_monitors_at g now) in
  let replan_required :=
    match mode with
    | Replan => true
    | _ => (0 <? gates) || (0 <? done_unclosed) || monitor_stalled
           || negb (is_empty (unsatisfied_gaps g))
    end in
  let spent := len (g_history g) in
  apply_arbitration ARBITRATION_ENFORCEMENT
  {| pk_ok := true;
     pk_mode := "should-run";
     pk_goal_id := g_goal_id g;
     pk_decision := decision;
     pk_should_run := should_run;
     pk_effective_action := effective_action;
     pk_reason := reason;
     pk_reason_code := reason_code_as_str reason_code;
     pk_state := if should_run then "eligible" else "waiting";
     pk_waiting_on := "codex";
     pk_status := match mode with
                  | Terminal => "validated_closure"
                  | Replan => "replan_required"
                  | AskUser => "waiting_on_user"
                  | WaitMonitor => "quiet_wait"
                  | _ => "connected_without_run"
                  end;
     pk_source := "run_history";
     pk_recommended_action :=
       match mode with
       | Terminal => "validated closure; stop recurring automation"
       | AskUser => "resolve the user gate before gated work"
       | Replan => "record a frontier-changing replan delta"
       | _ => reason
       end;
     pk_rollout_event := Some
       {| re_schema_version := "future_goal_rollout_event_v0";
          re_event_id := fresh_uuid;
          re_event_kind := "quota_should_run";
          re_recorded_at := rfc3339 (as_epoch_secs now);
          re_status := decision |};
     pk_status_health_ok := true;
     pk_normal_delivery_allowed := mode_is mode BoundedDelivery;
     pk_recovery_delivery_allowed := false;
     pk_self_repair_allowed := mode_is mode Replan;
     pk_capability_repair_allowed := false;
     pk_workspace_repair_allowed := false;
     pk_actionable_by_codex := should_run;
     pk_requires_user_action := mode_is mode AskUser;
     pk_action_required := mode_is mode AskUser;
     pk_selected_todo := match ac_selected_todo agent_channel with
                         | Some id => Some (selected_todo_json g id)
                         | None => None
                         end;
     pk_open_count :=
       count (fun t => role_is (td_role t) User && status_is (td_status t) Open) (g_todos g);
     pk_blocked_action_scope := None;
     pk_safe_bypass_allowed := false;
     pk_safe_bypass_kind := None;
     pk_safe_bypass_policy := None;
     pk_lifecycle_phase := if mode_is mode Terminal then "closed" else "connected";
     pk_lifecycle_flags := if mode_is mode Terminal then ["closed"] else ["connected"];
     pk_project_asset_source := Some "project_asset";
     pk_active_state_next_action := g_next_action g;
     pk_latest_run_recommended_action := g_next_action g;
     pk_interaction_contract :=
       {| ic_schema_version := INTERACTION_CONTRACT_SCHEMA_VERSION;
          ic_mode := mode;
          ic_user_channel := user_channel;
          ic_agent_channel := agent_channel;
          ic_cli_channel :=
            {| cc_next_cli_actions := ["loopx refresh-state"; "loopx quota spend-slot"];
               cc_spend_allowed_now := false;
               cc_spend_after_validation := true;
               cc_spend_policy := "spend once after validated writeback" |} |};
     pk_work_lane_contract :=
       {| wl_schema_version := "work_lane_contract_v1";
          wl_lane := lane_at g now;
          wl_obligation := "advance_one_bounded_segment";
          wl_must_attempt_work := must_attempt;
          wl_reason_codes :=
            if bool_decide (is_Some (ac_selected_todo agent_channel)) then ["open_agent_todo"]
            else if 0 <? gates then ["open_user_gate"]
            else if negb (is_empty (unsatisfied_gaps g)) then ["acceptance_gap"]
            else ["no_runnable_work"] |};
     pk_execution_obligation :=
       {| eo_must_attempt_work := must_attempt;
          eo_kind := "work_lane_contract";
          eo_reason := "work_lane_contract.obligation is the machine execution contract" |};
     pk_automation_liveness :=
       {| al_keep_active := negb (mode_is mode Terminal);
          al_pause_allowed := mode_is mode Terminal;
          al_action := match mode with
                       | Terminal => "pause"
                       | WaitMonitor => "quiet_wait"
                       | _ => "execute_bounded_work"
                       end;
          al_reason := if mode_is mode Terminal
                       then "validated closure — no recurring automation"
                       else "execution obligation keeps the loop alive";
          al_pause_policy := "pause/delete only after a bounded self-repair or replan path is itself stuck for more eligible turns" |};
     pk_heartbeat_recommendation := recommendation mode must_attempt;
     pk_scheduler_hint :=
       {| sh_schema_version := "scheduler_hint_v0";
          sh_action := match mode with
                       | Terminal => "stop"
                       | WaitMonitor => "wait_until_due"
                       | _ => "tick_next"
                       end;
          sh_cadence_class := match mode with
                              | Terminal => "terminal"
                              | WaitMonitor => "monitor_backoff"
                              | _ => "bounded_segment"
                              end;
          sh_next_due_ms := None |};
     pk_quota :=
       {| qs_compute := f64_one; qs_allowed_slots := QUOTA_ALLOWED_SLOTS;
          qs_spent_slots := spent;
          qs_state := if should_run then "eligible" else "waiting" |};
     pk_execution_profile :=
       {| eps_cadence := ep_cadence (g_execution_profile g);
          eps_spend_rule := ep_spend_rule (g_execution_profile g);
          eps_outcome_floor_streak_threshold :=
            ep_outcome_floor_streak_threshold (g_execution_profile g);
          eps_surface_streak := g_outcome_streak g |};
     pk_replan_ack :=
       {| ras_recorded := match g_replan_ack g with Some a => ra_recorded a | None => false end;
          ras_delta_kinds := match g_replan_ack g with Some a => ra_delta_kinds a | None => [] end;
          ras_frontier_delta_present :=
            match g_replan_ack g with Some a => has_frontier_delta a | None => false end |};
     pk_authority :=
       {| as_write_scope := au_write_scope (g_authority g);
          as_requires_approval := au_requires_approval (g_authority g);
          as_pending_approvals := [] |};
     pk_boundary := boundary_snapshot home g;
     pk_frontier_projection := frontier_projection_at g replan_required now;
     pk_agent_todo_summary := Some (todo_summary_at g now);
     pk_user_todo_summary := Some (todo_summary_at g now);
     pk_todo_summary_projection := None;
     pk_goal_boundary := Some (goal_boundary_json g);
     pk_plan_summary := None;
     pk_todo_write_hint := Some "loopx todo update";
     pk_agent_identity := Some (JObj []);
     pk_agent_lane_frontier_hint := None;
     pk_agent_lane_next_action := None;
     pk_goal_route_hint := Some (turn_mode_as_str mode);
     pk_task_scope := Some "goal";
     pk_handoff_readiness := None;
     pk_long_task_cadence_hint := None;
     pk_promotion_readiness_warning := None;
     pk_autonomous_backlog_candidates := None;
     pk_protocol_action_packet := None;
     pk_scheduler_arbitration := None;
     pk_terminal_closure := None;
     pk_decision_freshness := g_decision_freshness g |}.

Definition replan_packet (g : Goal) (now : SystemTime) (code : DecisionReasonCode)
    (reason : string) : ShouldRunPacket :=
  packet g now code "replan" true "replan" Replan reason user_channel_none
    (agent_channel None None None true false false).

(** The quiet channel of every waiting packet. *)
Definition quiet : AgentChannel := agent_channel None None None false false true.

Definition identity_gate (g : Goal) (agent_id : option string) (now : SystemTime)
  : option ShouldRunPacket :=
  if is_registered_agent g agent_id then None
  else
    let p := packet g now IdentityNotRegistered "skip" false
               "automation_prompt_upgrade_required" WaitMonitor
               "quota should-run --agent-id requires coordination.registered_agents; register this agent identity first"
               user_channel_none quiet in
    Some (p <| pk_ok := false |> <| pk_state := "blocked_health" |>
            <| pk_status := "quota_collection_failed" |>).

Definition cancelled_packet (g : Goal) (now : SystemTime) : ShouldRunPacket :=
  (packet g now GoalCancelledCode "skip" false "cancelled" Terminal
     "goal was cancelled — automation stopped, state retained for audit"
     user_channel_none quiet) <| pk_status := "cancelled" |>.

Definition gate_question (x : Todo) : string := default (td_text x) (td_gate_question x).

Definition gate_packet (g : Goal) (now : SystemTime) (gates user_actions runnable : list Todo)
  : ShouldRunPacket :=
  let question := join " | " (List.map gate_question gates) in
  let question := if is_empty user_actions then question
                  else question +:+ " | (actions) " +:+ join " | " (texts_of user_actions) in
  let fallback := match runnable with t :: _ => Some (td_id t) | [] => None end in
  let has_fallback := bool_decide (is_Some fallback) in
  packet g now OpenUserGate "run" true "ask_user" AskUser
    ("open user gate(s): " +:+ join ", " (ids_of gates))
    {| uc_action_required := true; uc_notify := "NOTIFY"; uc_question := Some question;
       uc_todo_ids := ids_of gates |}
    (agent_channel (match runnable with t :: _ => Some (td_text t) | [] => None end)
       None fallback has_fallback has_fallback false).

Definition delivery_packet (g : Goal) (now : SystemTime) (user_actions : list Todo) (t : Todo)
  : ShouldRunPacket :=
  let advisories := todo_signals g t in
  let attempt := u32_add (td_failed_attempts t) 1 in
  let '(reason, code) :=
    if 1 <? attempt
    then ("repair attempt " +:+ show attempt +:+ " for todo " +:+ td_id t, RepairAttempt)
    else ("runnable todo " +:+ td_id t, RunnableTodo) in
  let reason := if is_empty advisories then reason
                else reason +:+ " " +:+ join " " advisories in
  let user_channel :=
    if is_empty user_actions then user_channel_none
    else {| uc_action_required := true; uc_notify := "NOTIFY";
            uc_question := Some (join " | " (texts_of user_actions));
            uc_todo_ids := ids_of user_actions |} in
  packet g now code "run" true "normal_run" BoundedDelivery reason user_channel
    (agent_channel (Some (td_text t)) (Some (td_id t)) None true true false).

Definition blocked_packet (g : Goal) (now : SystemTime) (blockers : list Todo)
  : ShouldRunPacket :=
  packet g now BlockedNoFallback "wait" false "quiet_wait" WaitMonitor
    ("waiting on blocker(s): " +:+ join ", " (ids_of blockers) +:+ " — no runnable fallback")
    user_channel_none quiet.

Definition monitor_packet (g : Goal) (now : SystemTime) (o : MonitorOutcome)
  : option ShouldRunPacket :=
  match o with
  | Stalled m => Some
      (packet g now MonitorStalled "wait" false "quiet_wait" WaitMonitor
         ("monitor " +:+ td_id m +:+ " stalled (" +:+ show (td_consecutive_no_change m)
          +:+ " consecutive no-change polls) — signal, not a directive: consider watch-lane expiry, a blocker, or superseding the monitor")
         user_channel_none quiet)
  | Due (d :: _) => Some
      (packet g now MonitorDue "run" true "monitor_poll" MonitorPoll
         ("monitor " +:+ td_id d +:+ " due — one read-only poll, no spend on no-change")
         user_channel_none
         (agent_channel (Some (td_text d)) (Some (td_id d)) None true true false))
  | Due [] => None  (* [due[0]] of an empty vector; [monitor_outcome] never returns it *)
  | Waiting next_due_ms => Some
      ((packet g now MonitorBackoff "wait" false "quiet_wait" WaitMonitor
          "monitor(s) present, none due — quiet wait with backoff" user_channel_none quiet)
       <| pk_scheduler_hint ::= (fun h => h <| sh_next_due_ms := next_due_ms |>) |>)
  | NoMonitor => None
  end.

Definition leased_packet (g : Goal) (now : SystemTime) : ShouldRunPacket :=
  packet g now WorkLeasedToOthers "wait" false "quiet_wait" WaitMonitor
    ("open advancement(s) unavailable to this agent (blocked, leased to other agents, or owner-scoped); owner IDs are case-sensitive: "
     +:+ join ", " (btree_set (omap td_owner (g_todos g))) +:+ " — goal is not closed")
    user_channel_none quiet.

Definition gap_label (x : TerminalGap) : string :=
  tg_kind x +:+ ":" +:+
  match tg_gap_id x with
  | Some id => id
  | None => default "-" (tg_todo_id x)
  end.

(** Step 6: the terminal judgement. *)
Definition closure_packet (g : Goal) (now : SystemTime) : ShouldRunPacket :=
  let judgement := terminal_judgement_at g now in
  if negb (tj_terminal judgement) then
    replan_packet g now AcceptanceGapOpen
      ("terminal judgement open gaps: " +:+ join ", " (List.map gap_label (tj_gaps judgement)))
  else
    (packet g now ValidatedClosure "skip" false "terminal_no_followup" Terminal
       "validated closure: todos done, gaps closed, closure intent declared — stop recurring automation until an explicit resume"
       user_channel_none quiet)
    <| pk_terminal_closure := Some {| tc_kind := "no_followup"; tc_derived := true;
                                      tc_source := "validated_goal_closure" |} |>.

Definition pending_deferred (now : SystemTime) (t : Todo) : bool :=
  status_is (td_status t) Deferred && negb (is_due_deferred t now).

(** Steps 2c to 6: no gate is open and nothing is runnable. *)
Definition decide_idle (g : Goal) (now : SystemTime) : ShouldRunPacket :=
  let blockers := open_of_at g Blocker now in
  if negb (is_empty blockers) then blocked_packet g now blockers else
  let unclosed := completed_without_closure_intent g in
  if negb (is_empty unclosed) then
    replan_packet g now SuccessionClosureMissing
      ("completed advancement without closure intent: " +:+ join ", " (ids_of unclosed)
       +:+ " — complete must declare successor or --no-follow-up")
  else
  match monitor_packet g now (monitor_outcome g now) with
  | Some p => p
  | None =>
  let gaps := unsatisfied_gaps g in
  if negb (is_empty gaps) then
    replan_packet g now AcceptanceGapOpen
      ("acceptance gap(s) open with no runnable work: " +:+ join ", " (List.map ag_id gaps))
  else if existsb (pending_deferred now) (g_todos g) then
    packet g now DeferredNotDue "wait" false "quiet_wait" WaitMonitor
      "deferred todo(s) not yet due — quiet wait with backoff" user_channel_none quiet
  else if existsb (fun t => class_is (td_class t) Advancement && active_at now t) (g_todos g)
  then leased_packet g now
  else closure_packet g now
  end.

Definition decide_for (g : Goal) (now : SystemTime) (agent_id : option string)
  : ShouldRunPacket :=
  if g_status g =?s "cancelled" then cancelled_packet g now else
  match identity_gate g agent_id now with
  | Some p => p
  | None =>
      let gates := open_gates_at g now in
      let user_actions := open_of_at g UserAction now in
      let runnable := sorted_runnable_at g agent_id now in
      if negb (is_empty gates) then gate_packet g now gates user_actions runnable
      else match runnable with
      | t :: _ => delivery_packet g now user_actions t
      | [] => decide_idle g now
      end
  end.
Definition decide (g : Goal) (now : SystemTime) : ShouldRunPacket := decide_for g now None.
End Decide.

(** The completion helper of the kernel. *)
Definition complete_todo (now : SystemTime) (todo_id : string) (no_follow_up : bool)
    (successors : list string) (g : Goal) : Goal :=
  update_todo todo_id (complete now no_follow_up successors) g.
