(* ===== verification/CadenceProps.v ===== *)
(** Properties of cadence declarations: the recurrence rules the scheduler
    writes are read back to the interval they were built from, and the poll
    intervals derived from declared cadences. *)
From S2P Require Import Prelude Cadence.
From Stdlib Require Import ZifyBool.

(** * Visible ASCII *)
Definition visible (b : N) : Prop := (33 <= b <= 126)%N.
Lemma ws_width_visible l : Forall visible l -> ws_width l = O.
Proof.
  intros H. destruct l as [|a r]; [done|]. apply Forall_cons in H as [[Ha1 Ha2] H].
  assert (H1 : ws1 a = false) by (unfold ws1; lia). cbn. rewrite H1.
  destruct r as [|b r]; [done|]. assert (H2 : ws2 a b = false) by (unfold ws2; lia). rewrite H2.
  destruct r as [|c r]; [done|]. assert (H3 : ws3 a b c = false) by (unfold ws3; lia). by rewrite H3.
Qed.
Lemma ws_width_rev_visible l : Forall visible l -> ws_width_rev l = O.
Proof.
  intros H. destruct l as [|c r]; [done|]. apply Forall_cons in H as [[Hc1 Hc2] H].
  assert (H1 : ws1 c = false) by (unfold ws1; lia). cbn. rewrite H1.
  destruct r as [|b r]; [done|]. apply Forall_cons in H as [[Hb1 Hb2] H].
  assert (H2 : ws2 b c = false) by (unfold ws2; lia). rewrite H2.
  destruct r as [|a r]; [done|]. apply Forall_cons in H as [[Ha1 Ha2] _].
  assert (H3 : ws3 a b c = false) by (unfold ws3; lia). by rewrite H3.
Qed.
Lemma strip_ws_none width fuel l : width l = O -> strip_ws width fuel l = l.
Proof. intros H. destruct fuel; [done|]. cbn. by rewrite H. Qed.
Lemma bytes_string_bytes s : bytes_string (string_bytes s) = s.
Proof.
  unfold bytes_string, string_bytes. rewrite List.map_map.
  rewrite (List.map_ext _ (fun c => c)), List.map_id by apply ascii_N_embedding.
  apply string_of_list_ascii_of_string.
Qed.
Lemma string_bytes_app a b : string_bytes (a +:+ b) = string_bytes a ++ string_bytes b.
Proof. unfold string_bytes. induction a as [|c a IH]; [done|]. exact (f_equal (cons _) IH). Qed.
Lemma trim_visible s : Forall visible (string_bytes s) -> trim s = s.
Proof.
  intros H. unfold trim. rewrite (strip_ws_none ws_width) by by apply ws_width_visible.
  rewrite (strip_ws_none ws_width_rev).
  - by rewrite List.rev_involutive, bytes_string_bytes.
  - apply ws_width_rev_visible. by apply List.Forall_rev.
Qed.
Lemma split_ws_visible l : forall acc fuel,
  Forall visible l -> (List.length l <= fuel)%nat -> List.rev acc ++ l <> [] ->
  split_ws_bytes fuel acc l = [List.rev acc ++ l].
Proof.
  induction l as [|b l IH]; intros acc fuel Hv Hf Hne.
  - rewrite app_nil_r in *. destruct acc; [done|]. by destruct fuel.
  - destruct fuel as [|fuel]; [cbn in Hf; lia|]. cbn [split_ws_bytes].
    rewrite ws_width_visible by done. apply Forall_cons in Hv as [_ Hv]. rewrite IH; [|done| |].
    + cbn. by rewrite <- (assoc app).
    + cbn in Hf. lia.
    + cbn. by destruct (List.rev acc).
Qed.
Lemma split_whitespace_visible s :
  s <> "" -> Forall visible (string_bytes s) -> split_whitespace s = [s].
Proof.
  intros Hs Hv. unfold split_whitespace. rewrite split_ws_visible; [|done|done|].
  - change ([bytes_string (string_bytes s)] = [s]). by rewrite bytes_string_bytes.
  - change (string_bytes s <> []). intros H. apply Hs. rewrite <- (bytes_string_bytes s), H. done.
Qed.

(** * Decimal digits *)
Lemma digit_char d : (d < 10)%N -> byte_code (pretty_N_char d) = (48 + d)%N.
Proof.
  intros H. assert (Hd : In d [0; 1; 2; 3; 4; 5; 6; 7; 8; 9]%N).
  { assert (d = 0 \/ d = 1 \/ d = 2 \/ d = 3 \/ d = 4 \/ d = 5 \/ d = 6 \/ d = 7 \/ d = 8 \/ d = 9)%N by lia.
    cbn. intuition. }
  repeat destruct Hd as [<-|Hd]; done.
Qed.
Lemma digits_value_step acc d s :
  (d < 10)%N -> 0 <= acc -> 10 * acc + Z.of_N d <= u64_max ->
  digits_value acc (String (pretty_N_char d) s) = digits_value (10 * acc + Z.of_N d) s.
Proof.
  intros Hd Ha Hm. cbn [digits_value]. unfold is_ascii_digit. rewrite digit_char by done.
  rewrite (proj2 (N.leb_le 48 _)), (proj2 (N.leb_le _ 57)) by lia. cbn [andb].
  replace (48 + d - 48)%N with d by lia. by rewrite (proj2 (Z.leb_le _ _)).
Qed.

(** Printing then reading a number. *)
Lemma digits_value_go x : forall s, (0 < x)%N -> Z.of_N x <= u64_max ->
  digits_value 0 (pretty_N_go x s) = digits_value (Z.of_N x) s.
Proof.
  induction (N.lt_wf_0 x) as [x _ IH]. intros s Hx Hm. rewrite pretty_N_go_step by done.
  assert (Hmod : (x mod 10 < 10)%N) by by apply N.mod_lt.
  pose proof (N.div_mod x 10 ltac:(done)) as Hdm.
  assert (Hlt : (x / 10 < x)%N) by (apply N.div_lt; lia).
  set (q := (x / 10)%N) in *. set (r := (x mod 10)%N) in *. clearbody q r.
  destruct (N.eq_0_gt_0_cases q) as [->|Hpos].
  - rewrite pretty_N_go_0, (digits_value_step 0) by lia. f_equal. lia.
  - rewrite IH by lia. rewrite digits_value_step by lia. f_equal. lia.
Qed.
Definition decimal (b : N) : Prop := (48 <= b <= 57)%N.
Lemma decimal_go x : forall s, Forall decimal (string_bytes s) ->
  Forall decimal (string_bytes (pretty_N_go x s)).
Proof.
  induction (N.lt_wf_0 x) as [x _ IH]. intros s Hs. destruct (N.eq_0_gt_0_cases x) as [->|Hx].
  - by rewrite pretty_N_go_0.
  - rewrite pretty_N_go_step by done. apply IH; [apply N.div_lt; lia|].
    assert (Hmod : (x mod 10 < 10)%N) by by apply N.mod_lt.
    apply Forall_cons. split; [|done]. fold (byte_code (pretty_N_char (x mod 10))).
    rewrite digit_char by done. unfold decimal. revert Hmod. generalize (x mod 10)%N. lia.
Qed.

Lemma show_positive n : 0 < n -> show n = pretty_N_go (Z.to_N n) "".
Proof. intros H. by destruct n. Qed.
Lemma show_decimal n : 0 < n -> Forall decimal (string_bytes (show n)).
Proof. intros H. rewrite show_positive by done. by apply decimal_go. Qed.
Lemma show_visible n : 0 < n -> Forall visible (string_bytes (show n)).
Proof.
  intros H. eapply Forall_impl; [by apply show_decimal|]. unfold decimal, visible. lia.
Qed.
Lemma digits_value_show n : 0 < n <= u64_max -> digits_value 0 (show n) = Some n.
Proof.
  intros H. rewrite show_positive by lia. rewrite digits_value_go by lia. cbn. f_equal. lia.
Qed.
Lemma parse_i64_digits c r n :
  is_ascii_digit c = true -> digits_value 0 (String c r) = Some n -> n <= i64_max ->
  parse_i64 (String c r) = Some n.
Proof.
  intros Hc Hv Hn. assert (H : match digits_value 0 (String c r) with
    | Some n => if n <=? i64_max then Some n else None | None => None end = Some n).
  { rewrite Hv. by rewrite (proj2 (Z.leb_le _ _)). }
  rewrite <- H. clear H Hv Hn. destruct c as [[] [] [] [] [] [] [] []]; try discriminate Hc; reflexivity.
Qed.
Lemma parse_i64_show n : 0 < n <= i64_max -> parse_i64 (show n) = Some n.
Proof.
  intros H. assert (Hv : digits_value 0 (show n) = Some n)
    by (apply digits_value_show; unfold i64_max, u64_max in *; lia).
  destruct (show n) as [|c r] eqn:E; [cbn in Hv; injection Hv; lia|].
  apply parse_i64_digits; [|done|lia]. cbn [digits_value] in Hv. by destruct (is_ascii_digit c).
Qed.

Lemma split_on_decimal c s :
  Forall decimal (string_bytes s) -> ~ decimal (byte_code c) -> split_on c s = [s].
Proof.
  intros H Hc. induction s as [|a s IH]; [done|]. apply Forall_cons in H as [Ha H]. cbn.
  destruct (Ascii.eqb_spec a c) as [->|]; [done|]. by rewrite IH.
Qed.

(** * Round trips *)
Lemma rrule_visible m : 0 < m -> Forall visible (string_bytes ("FREQ=MINUTELY;INTERVAL=" +:+ show m)).
Proof.
  intros Hm. rewrite string_bytes_app. apply Forall_app. split; [|by apply show_visible].
  apply (bool_decide_unpack (Forall (fun b => (33 <= b <= 126)%N) _)). by vm_compute.
Qed.
Lemma normalize_rrule m :
  0 < m -> normalize_scheduler_rrule ("FREQ=MINUTELY;INTERVAL=" +:+ show m)
           = "FREQ=MINUTELY;INTERVAL=" +:+ show m.
Proof.
  intros Hm. unfold normalize_scheduler_rrule.
  by rewrite split_whitespace_visible by (done || by apply rrule_visible).
Qed.
Lemma rrule_interval n :
  n <= i64_max -> scheduler_rrule_interval_minutes (rrule_for_minutes n) = Some (Z.max n 1).
Proof.
  intros Hn. unfold scheduler_rrule_interval_minutes, rrule_for_minutes.
  set (m := Z.max n 1). assert (Hm : 0 < m <= i64_max) by (unfold i64_max in *; lia). clearbody m.
  rewrite normalize_rrule by lia. unfold String.append. cbn [split_on Ascii.eqb Bool.eqb].
  rewrite split_on_decimal; [|apply show_decimal; lia|unfold decimal; cbn; lia].
  cbn [rrule_parts split_once Ascii.eqb Bool.eqb].
  change (to_uppercase (trim "FREQ") =?s "FREQ") with true.
  change (to_uppercase (trim "INTERVAL") =?s "FREQ") with false.
  change (to_uppercase (trim "INTERVAL") =?s "INTERVAL") with true.
  change (to_uppercase (trim "MINUTELY")) with "MINUTELY". cbn [rrule_parts].
  rewrite trim_visible by (apply show_visible; lia). rewrite parse_i64_show by done.
  by rewrite bool_decide_eq_true_2, (proj2 (Z.ltb_lt _ _)) by (done || lia).
Qed.

(** Interval strings: a count and a one-letter unit. *)
Lemma split_digits_decimal s unit :
  Forall decimal (string_bytes s) -> is_ascii_digit unit = false ->
  split_digits (s +:+ String unit "") = Some (s, String unit "").
Proof.
  intros H Hu. induction s as [|c s IH].
  - change (split_digits (String unit "") = Some ("", String unit "")). cbn. by rewrite Hu.
  - apply Forall_cons in H as [Hc H].
    assert (Hd : is_ascii_digit c = true).
    { unfold is_ascii_digit. apply andb_true_iff. rewrite !N.leb_le. exact Hc. }
    change (split_digits (String c (s +:+ String unit "")) = Some (String c s, String unit "")).
    cbn [split_digits]. by rewrite Hd, IH.
Qed.
Lemma parse_u64_show n : 0 < n <= u64_max -> parse_u64 (show n) = Some n.
Proof.
  intros H. pose proof (digits_value_show n H) as Hv. unfold parse_u64.
  destruct (show n) as [|c r] eqn:E; [cbn in Hv; injection Hv; lia|].
  assert (Hc : is_ascii_digit c = true) by (cbn [digits_value] in Hv; by destruct (is_ascii_digit c)).
  rewrite <- Hv. destruct c as [[] [] [] [] [] [] [] []]; try discriminate Hc; reflexivity.
Qed.
Lemma monitor_cadence_unit n unit :
  0 < n <= u64_max -> is_ascii_digit unit = false -> visible (byte_code unit) ->
  monitor_cadence_secs (show n +:+ String unit "")
  = let u := to_ascii_lowercase (String unit "") in
    if starts_with "s" u then Some n
    else if starts_with "m" u then u64_checked_mul n 60
    else if starts_with "h" u then u64_checked_mul n 3600
    else if starts_with "d" u then u64_checked_mul n 86400 else None.
Proof.
  intros Hn Hu Hv. assert (Hd : Forall decimal (string_bytes (show n))) by (apply show_decimal; lia).
  assert (Hunit : Forall visible (string_bytes (String unit ""))) by (apply Forall_singleton; exact Hv).
  unfold monitor_cadence_secs. rewrite trim_visible.
  - destruct (String.eqb_spec (show n +:+ String unit "") "") as [E|_].
    { by destruct (show n). }
    rewrite split_digits_decimal, parse_u64_show by done.
    rewrite (proj2 (Z.eqb_neq n 0)) by lia. by rewrite trim_visible.
  - rewrite string_bytes_app. apply Forall_app. split; [apply show_visible; lia|done].
Qed.

(** A rule is no interval string and no named class: it passes through. *)
Lemma rrule_is_no_interval m : 0 < m -> monitor_cadence_secs ("FREQ=MINUTELY;INTERVAL=" +:+ show m) = None.
Proof. intros Hm. unfold monitor_cadence_secs. by rewrite trim_visible by by apply rrule_visible. Qed.
Lemma rrule_class m :
  0 < m -> rrule_for_cadence_class ("FREQ=MINUTELY;INTERVAL=" +:+ show m)
           = Some ("FREQ=MINUTELY;INTERVAL=" +:+ show m).
Proof. intros Hm. unfold rrule_for_cadence_class. by rewrite normalize_rrule by done. Qed.

Ltac unit_case Hunit := apply Hunit; [done|unfold visible; cbn; lia|];
    rewrite monitor_cadence_unit by (done || (unfold visible; cbn; lia)); cbn [starts_with];
    unfold u64_checked_mul; cbn; rewrite ?(proj2 (Z.leb_le _ _)) by lia; done.

(** A cadence is never lost in writing: an interval string of a count and a
    unit stands for that many seconds, and a recurrence rule written for a
    number of minutes is read back to it and polls at that interval. *)
Theorem cadence_roundtrip n :
  0 < n -> n * 86400 <= u64_max ->
  cadence_poll_interval_secs (Some (show n +:+ "s")) = Some n
  /\ cadence_poll_interval_secs (Some (show n +:+ "m")) = Some (n * 60)
  /\ cadence_poll_interval_secs (Some (show n +:+ "h")) = Some (n * 3600)
  /\ cadence_poll_interval_secs (Some (show n +:+ "d")) = Some (n * 86400)
  /\ scheduler_rrule_interval_minutes (rrule_for_minutes n) = Some n
  /\ cadence_poll_interval_secs (Some (rrule_for_minutes n)) = Some (n * 60).
Proof.
  intros Hn Hm.
  assert (Hunit : forall unit secs, is_ascii_digit unit = false -> visible (byte_code unit) ->
    monitor_cadence_secs (show n +:+ String unit "") = Some secs ->
    cadence_poll_interval_secs (Some (show n +:+ String unit "")) = Some secs).
  { intros unit secs Hu Hv H. unfold cadence_poll_interval_secs. rewrite trim_visible, H.
    - destruct (String.eqb_spec (show n +:+ String unit "") "") as [E|_]; [by destruct (show n)|done].
    - rewrite string_bytes_app. apply Forall_app. split; [by apply show_visible|].
      apply Forall_singleton. exact Hv. }
  assert (Hsmall : n <= u64_max) by (unfold u64_max in *; lia).
  do 4 (split; [unit_case Hunit|]).
  rewrite rrule_interval by (unfold i64_max, u64_max in *; lia).
  split; [f_equal; lia|]. pose proof (rrule_interval n) as Hi. unfold rrule_for_minutes in *.
  rewrite Z.max_l in * by lia. unfold cadence_poll_interval_secs.
  rewrite trim_visible by by apply rrule_visible.
  rewrite rrule_is_no_interval, rrule_class, Hi by (unfold i64_max, u64_max in *; lia).
  cbn. rewrite Z.max_l, Z.mod_small by (unfold u64_max in *; lia). done.
Qed.
Lemma cadence_roundtrip_witness :
  cadence_poll_interval_secs (Some (show 15 +:+ "m")) = Some 900
  /\ cadence_poll_interval_secs (Some (rrule_for_minutes 15)) = Some 900.
Proof.
  destruct (cadence_roundtrip 15) as (_ & H1 & _ & _ & _ & H2); [lia|unfold u64_max; lia|].
  split; [exact H1|exact H2].
Defined.
