(* ===== verification/Json.v ===== *)
(** JSON values as the agent builds them ([serde_json::Value] with the feature
    preserve_order) and the accessors the agent reads them with.  An object is
    its entries in insertion order, with distinct keys; a number is its text. *)
From S2P Require Import Prelude CadenceProps.

#[warnings="-register-all"]
Inductive Value :=
| VNull
| VBool (b : bool)
| VNumber (text : string)
| VString (s : string)
| VArray (values : list Value)
| VObject (entries : list (string * Value)).

Section ValueInd.
Variable P : Value -> Prop.
Hypotheses (P_null : P VNull) (P_bool : forall b, P (VBool b)) (P_number : forall t, P (VNumber t))
  (P_string : forall s, P (VString s)) (P_array : forall l, Forall P l -> P (VArray l))
  (P_object : forall o, Forall (fun kv => P (snd kv)) o -> P (VObject o)).
Fixpoint Value_nested_ind (v : Value) : P v :=
  match v with
  | VNull => P_null
  | VBool b => P_bool b
  | VNumber t => P_number t
  | VString s => P_string s
  | VArray l => P_array l
      ((fix all l : Forall P l :=
          match l with [] => @List.Forall_nil _ _ | x :: r => @List.Forall_cons _ _ x r (Value_nested_ind x) (all r) end) l)
  | VObject o => P_object o
      ((fix all o : Forall (fun kv => P (snd kv)) o :=
          match o with
          | [] => @List.Forall_nil _ _
          | kv :: r => @List.Forall_cons _ _ kv r (Value_nested_ind (snd kv)) (all r)
          end) o)
  end.
End ValueInd.

(** * Objects

    [serde_json::Map] over an [IndexMap]: inserting replaces a value in place
    or appends the entry; removing moves the last entry into the hole. *)
Definition Map := list (string * Value).
Fixpoint map_get (key : string) (m : Map) : option Value :=
  match m with
  | [] => None
  | (k, v) :: r => if k =?s key then Some v else map_get key r
  end.
Fixpoint map_insert (key : string) (value : Value) (m : Map) : Map :=
  match m with
  | [] => [(key, value)]
  | (k, v) :: r => if k =?s key then (k, value) :: r else (k, v) :: map_insert key value r
  end.
Fixpoint map_remove (key : string) (m : Map) : Map :=
  match m with
  | [] => []
  | (k, v) :: r =>
      if k =?s key then match last r with Some e => e :: removelast r | None => [] end
      else (k, v) :: map_remove key r
  end.

(** * Accessors *)
Definition as_str (v : Value) : option string := match v with VString s => Some s | _ => None end.
Definition as_bool (v : Value) : option bool := match v with VBool b => Some b | _ => None end.
Definition as_array (v : Value) : option (list Value) := match v with VArray l => Some l | _ => None end.
Definition as_object (v : Value) : option Map := match v with VObject o => Some o | _ => None end.
(** A number's text has no leading plus sign. *)
Definition as_u64 (v : Value) : option u64 :=
  match v with
  | VNumber text => if starts_with "+" text then None else parse_u64 text
  | _ => None
  end.
(** ["-0"] is read as a float. *)
Definition as_i64 (v : Value) : option Z :=
  match v with
  | VNumber text => if starts_with "+" text || (text =?s "-0") then None else parse_i64 text
  | _ => None
  end.
(** [value.get(key)] and [value[key]] *)
Definition get (key : string) (v : Value) : option Value := as_object v ≫= map_get key.
Definition index (key : string) (v : Value) : Value := default VNull (get key v).
(** [value == "text"] and [value == true] *)
Definition is_str (s : string) (v : Value) : bool := bool_decide (as_str v = Some s).
Definition is_true (v : Value) : bool := bool_decide (as_bool v = Some true).

Definition json_u64 (n : u64) : Value := VNumber (show n).
Definition json_i64 (n : Z) : Value := VNumber (show n).
Definition json_strings (l : list string) : Value := VArray (List.map VString l).

(** [Value: PartialEq]: objects are equal as maps. *)
Fixpoint value_eq (v w : Value) : bool :=
  match v, w with
  | VNull, VNull => true
  | VBool a, VBool b => Bool.eqb a b
  | VNumber s, VNumber t => s =?s t
  | VString s, VString t => s =?s t
  | VArray l, VArray l' =>
      (fix go l l' :=
         match l, l' with
         | [], [] => true
         | x :: l, y :: l' => value_eq x y && go l l'
         | _, _ => false
         end) l l'
  | VObject o, VObject o' =>
      (List.length o =? List.length o')%nat
      && List.forallb
           (fun kv => match map_get (fst kv) o' with Some y => value_eq (snd kv) y | None => false end) o
  | _, _ => false
  end.
(** [Option<&Value>] equality *)
Definition option_value_eq (v w : option Value) : bool :=
  match v, w with
  | None, None => true
  | Some v, Some w => value_eq v w
  | _, _ => false
  end.

(** [serde_json::from_value::<Vec<String>>] *)
Definition value_strings (v : Value) : option (list string) := as_array v ≫= mapM as_str.

(** * Laws *)
Lemma map_get_insert key key' v m :
  map_get key (map_insert key' v m) = if key' =?s key then Some v else map_get key m.
Proof.
  induction m as [|[k w] m IH]; cbn; [done|].
  destruct (String.eqb_spec k key'); subst; cbn.
  - destruct (String.eqb_spec key' key); [done|]. done.
  - destruct (String.eqb_spec k key); subst; [|exact IH].
    destruct (String.eqb_spec key' key); congruence.
Qed.
Lemma get_object key m : get key (VObject m) = map_get key m.
Proof. reflexivity. Qed.
Lemma value_strings_json l : value_strings (json_strings l) = Some l.
Proof.
  unfold value_strings, json_strings. cbn. induction l as [|s l IH]; cbn; [done|]. by rewrite IH.
Qed.

(** * Numbers *)
Lemma digits_value_nat n : 0 <= n <= u64_max -> digits_value 0 (show n) = Some n.
Proof. intros H. destruct (decide (n = 0)) as [->|]; [done|]. apply digits_value_show. lia. Qed.
Lemma show_digit n : 0 <= n <= u64_max -> exists c r, show n = String c r /\ is_ascii_digit c = true.
Proof.
  intros H. pose proof (digits_value_nat n H) as Hv. destruct (show n) as [|c r] eqn:E.
  - injection Hv as <-. discriminate E.
  - eexists _, _. split; [done|]. cbn [digits_value] in Hv. by destruct (is_ascii_digit c).
Qed.
Lemma as_u64_show n : 0 <= n <= u64_max -> as_u64 (json_u64 n) = Some n.
Proof.
  intros H. pose proof (digits_value_nat n H) as Hv. unfold as_u64, json_u64, parse_u64.
  destruct (show_digit n H) as (c & r & E & Hc). rewrite E in *.
  destruct c as [[] [] [] [] [] [] [] []]; try discriminate Hc; exact Hv.
Qed.
Lemma as_i64_show n : 0 <= n <= i64_max -> as_i64 (json_i64 n) = Some n.
Proof.
  intros H. assert (H' : 0 <= n <= u64_max) by (unfold i64_max, u64_max in *; lia).
  pose proof (digits_value_nat n H') as Hv. destruct (show_digit n H') as (c & r & E & Hc).
  assert (Hp : parse_i64 (show n) = Some n) by (rewrite E in *; apply parse_i64_digits; [done|done|lia]).
  unfold as_i64, json_i64. rewrite E in *.
  destruct c as [[] [] [] [] [] [] [] []]; try discriminate Hc; exact Hp.
Qed.
