(* ===== verification/GoalProps.v ===== *)
(** Properties of the goal state: the frontier against a declarative notion of
    blocking, leases and ownership, closure, and claims. *)
From S2P Require Import Prelude Cadence Todos GoalState.

(** * Declarative readings of the state's predicates *)
Definition Active (now : SystemTime) (t : Todo) : Prop :=
  td_status t = Open \/
  (td_status t = Deferred /\ exists d, td_resume_when t = Some d /\ d <= now).
Definition Closed (t : Todo) : Prop := td_status t = Done \/ td_status t = Superseded.
Definition GateOrBlocker (t : Todo) : Prop := td_class t = UserGate \/ td_class t = Blocker.
(** [id] is one of the comma-separated ids of [t]'s blocking field. *)
Definition Names (t : Todo) (id : string) : Prop :=
  exists ids piece, td_blocked_by_gate t = Some ids
    /\ In piece (split_on "," ids) /\ trim piece = id.

(** The rules that hold a todo out of the frontier: an active gate or blocker
    that freezes everything or names it, or a predecessor it names that is
    still pending. *)
Inductive Held (g : Goal) (now : SystemTime) (t : Todo) : Prop :=
| held_global s :
    In s (g_todos g) -> GateOrBlocker s -> Active now s -> td_id s <> td_id t ->
    td_global_gate s = true -> Held g now t
| held_outgoing s :
    In s (g_todos g) -> GateOrBlocker s -> Active now s -> td_id s <> td_id t ->
    Names s (td_id t) -> Held g now t
| held_by_gate p :
    Names t (td_id p) -> td_id p <> "" -> todo g (td_id p) = Some p ->
    GateOrBlocker p -> Active now p -> Held g now t
| held_by_todo p :
    Names t (td_id p) -> td_id p <> "" -> todo g (td_id p) = Some p ->
    ~ GateOrBlocker p -> ~ Closed p -> Held g now t.

(** Another agent than [a] holds a lease that has not expired at [now]. *)
Definition LeasedToOther (t : Todo) (a : option string) (now : u64) : Prop :=
  exists o e, td_claimed_by t = Some o /\ td_lease_expires_at t = Some e /\ now < e /\ a <> Some o.

(** * Reflection lemmas *)
Lemma due_true o now : due o now = true <-> exists d, o = Some d /\ d <= now.
Proof.
  destruct o as [d|]; simpl; [rewrite Z.leb_le|]; split.
  - eauto.
  - by intros (? & [= ->] & ?).
  - done.
  - by intros (? & ? & _).
Qed.

Lemma active_at_true now t : active_at now t = true <-> Active now t.
Proof.
  unfold active_at, Active, is_due_deferred.
  by rewrite orb_true_iff, andb_true_iff, !status_is_true, due_true.
Qed.

Lemma closed_status_true t : closed_status (td_status t) = true <-> Closed t.
Proof. unfold closed_status, Closed. by rewrite orb_true_iff, !status_is_true. Qed.

Lemma closed_status_false t : closed_status (td_status t) = false <-> ~ Closed t.
Proof. rewrite <- closed_status_true. by destruct (closed_status _). Qed.

Lemma active_not_closed now t : Active now t -> ~ Closed t.
Proof. unfold Active, Closed. intros [?|[? _]] [?|?]; congruence. Qed.

Lemma blocking_class_true t : is_blocking_class (td_class t) = true <-> GateOrBlocker t.
Proof. unfold is_blocking_class, GateOrBlocker. by rewrite orb_true_iff, !class_is_true. Qed.

Lemma in_open_of g c now t :
  In t (open_of_at g c now) <-> In t (g_todos g) /\ td_class t = c /\ Active now t.
Proof.
  unfold open_of_at. by rewrite List.filter_In, andb_true_iff, class_is_true, active_at_true.
Qed.

Lemma in_blocking_sources g now t :
  In t (open_blocking_sources_at g now)
  <-> In t (g_todos g) /\ GateOrBlocker t /\ Active now t.
Proof.
  unfold open_blocking_sources_at.
  by rewrite List.filter_In, andb_true_iff, blocking_class_true, active_at_true.
Qed.

Lemma open_monitors_are_open_of g now : open_monitors_at g now = open_of_at g Monitor now.
Proof. done. Qed.

Lemma todo_has_id g id p : todo g id = Some p -> td_id p = id /\ In p (g_todos g).
Proof.
  unfold todo. intros H. apply List.find_some in H as [Hin Hid].
  unfold has_id in Hid. by bool_prop.
Qed.

Lemma existsb_split_names (p : string -> bool) t :
  match td_blocked_by_gate t with
  | Some ids => existsb p (split_on "," ids)
  | None => false
  end = true <->
  exists ids piece, td_blocked_by_gate t = Some ids /\ In piece (split_on "," ids)
                    /\ p piece = true.
Proof.
  destruct (td_blocked_by_gate t) as [ids|]; split.
  - intros H. apply List.existsb_exists in H as (x & ? & ?). eauto 6.
  - intros (? & x & [= <-] & ? & ?). apply List.existsb_exists. eauto.
  - done.
  - by intros (? & ? & ? & _).
Qed.

Lemma source_blocks_true t s :
  source_blocks t s = true
  <-> td_id s <> td_id t /\ (td_global_gate s = true \/ Names s (td_id t)).
Proof.
  unfold source_blocks, Names.
  rewrite andb_true_iff, negb_true_iff, String.eqb_neq, orb_true_iff, existsb_split_names.
  by setoid_rewrite String.eqb_eq.
Qed.

Lemma pred_blocks_true g now piece :
  pred_blocks g now piece = true <->
  exists p, trim piece = td_id p /\ td_id p <> "" /\ todo g (td_id p) = Some p /\
    ((GateOrBlocker p /\ Active now p) \/ (~ GateOrBlocker p /\ ~ Closed p)).
Proof.
  unfold pred_blocks. destruct (String.eqb_spec (trim piece) "") as [E|E].
  { split; [done|]. intros (p & Hp & Hne & _). congruence. }
  destruct (todo g (trim piece)) as [p|] eqn:Hp; split; [| |done|].
  - pose proof (todo_has_id _ _ _ Hp) as [Hid _]. intros H.
    exists p. rewrite Hid. split; [done|]. split; [done|]. split; [done|].
    unfold GateOrBlocker.
    destruct (td_class p); try (left; rewrite active_at_true in H; by auto);
      right; apply negb_true_iff, closed_status_false in H; split; [|done| |done| |done| |done];
      intros [?|?]; congruence.
  - intros (q & Hq & _ & Hq2 & H). rewrite Hq, Hq2 in Hp. injection Hp as ->.
    unfold GateOrBlocker in H. destruct H as [[[->| ->] H]|[Hc H]].
    + by apply active_at_true.
    + by apply active_at_true.
    + apply closed_status_false in H. rewrite H. destruct (td_class p); naive_solver.
  - intros (q & Hq & _ & Hq2 & _). rewrite Hq, Hq2 in Hp. done.
Qed.

Lemma is_blocked_held g t now : is_blocked_at g t now = true <-> Held g now t.
Proof.
  unfold is_blocked_at. rewrite orb_true_iff, List.existsb_exists, existsb_split_names.
  setoid_rewrite in_blocking_sources. setoid_rewrite source_blocks_true.
  setoid_rewrite pred_blocks_true. split.
  - intros [(s & (? & ? & ?) & ? & [?|?])|(ids & piece & Hids & Hin & p & Htrim & ? & ? & H)].
    + by eapply held_global.
    + by eapply held_outgoing.
    + assert (Names t (td_id p)) by (by exists ids, piece).
      destruct H as [[? ?]|[? ?]]; [by eapply held_by_gate|by eapply held_by_todo].
  - intros [s ? ? ? ? ?|s ? ? ? ? ?|p (ids & piece & ? & ? & ?) ? ? ? ?|p (ids & piece & ? & ? & ?) ? ? ? ?].
    + left; exists s; auto.
    + left; exists s; auto.
    + right; exists ids, piece. split; [done|]. split; [done|]. exists p. auto 6.
    + right; exists ids, piece. split; [done|]. split; [done|]. exists p. auto 6.
Qed.

Lemma claimed_by_other_true t a now : claimed_by_other t a now = true <-> LeasedToOther t a now.
Proof.
  unfold claimed_by_other, LeasedToOther.
  destruct (td_claimed_by t) as [o|], (td_lease_expires_at t) as [e|].
  2-4: split; [done|]; by intros (? & ? & ? & ? & _).
  rewrite andb_true_iff, negb_true_iff, bool_decide_eq_false, Z.ltb_lt. split.
  - intros [? ?]. exists o, e. auto.
  - intros (? & ? & [= <-] & [= <-] & ? & ?). auto.
Qed.

Lemma owner_allows_true t a :
  owner_allows t a = true <-> forall o, td_owner t = Some o -> a = Some o.
Proof.
  unfold owner_allows. destruct (td_owner t) as [o|]; [|naive_solver].
  rewrite bool_decide_eq_true. naive_solver.
Qed.

(** * The frontier *)
Record Runnable (g : Goal) (a : option string) (now : SystemTime) (t : Todo) : Prop := {
  run_in : In t (g_todos g);
  run_class : td_class t = Advancement;
  run_active : Active now t;
  run_lease : ~ LeasedToOther t a (as_epoch_secs now);
  run_owner : forall o, td_owner t = Some o -> a = Some o;
  run_free : ~ Held g now t
}.

Lemma runnable_for_true g a now t :
  In t (g_todos g) -> runnable_for g a now t = true <-> Runnable g a now t.
Proof.
  intros Hin. unfold runnable_for.
  rewrite !andb_true_iff, !negb_true_iff, class_is_true, active_at_true, owner_allows_true.
  rewrite <- (not_true_iff_false (claimed_by_other _ _ _)), claimed_by_other_true.
  rewrite <- (not_true_iff_false (is_blocked_at _ _ _)), is_blocked_held.
  split; [|by intros []]. intros [[[[? ?] ?] ?] ?]. by constructor.
Qed.

Lemma in_runnable g a now t :
  In t (runnable_advancement_for_at g a now) <-> Runnable g a now t.
Proof.
  unfold runnable_advancement_for_at. rewrite List.filter_In. split.
  - intros [Hin H]. by apply runnable_for_true.
  - intros H. split; [apply H|]. apply runnable_for_true; [apply H|done].
Qed.

(** C15: the frontier an agent is offered is exactly the advancement todos that
    are open or due again, that no other agent holds under a live lease, that
    are owned by nobody or by this agent, and that nothing holds back: no
    active global gate, no active gate or blocker naming them, and no named
    predecessor still pending. *)
Theorem frontier_sound_and_complete g a now t :
  In t (runnable_advancement_for_at g a now) <->
  In t (g_todos g) /\ td_class t = Advancement /\ Active now t
  /\ ~ LeasedToOther t a (as_epoch_secs now)
  /\ (forall o, td_owner t = Some o -> a = Some o)
  /\ ~ Held g now t.
Proof. rewrite in_runnable. split; [by intros []|]. intros (? & ? & ? & ? & ? & ?). by constructor. Qed.

(** * Closure *)
Definition PassedReceipt (g : Goal) (id : string) : Prop :=
  exists r v, In r (g_history g) /\ rr_todo_id r = id
    /\ rr_validation r = Some v /\ tv_status v = VPassed.
Definition DeliveryVerified (g : Goal) (id : string) : Prop :=
  exists d, delivery_state g id = Some d /\ ds_outcome d = OUTCOME_VERIFIED.

(** What closing a goal means: no todo pending, no acceptance condition open,
    and every finished advancement both declared what comes next and, when it
    carries a validator, was proven. *)
Record ClosedGoal (g : Goal) : Prop := {
  cg_todos : forall t, In t (g_todos g) -> Closed t;
  cg_gaps : forall x, In x (g_acceptance g) -> ag_satisfied x = true;
  cg_intent : forall t, In t (g_todos g) -> td_class t = Advancement -> td_status t = Done ->
    td_successor_ids t <> [] \/ td_no_follow_up t = true;
  cg_proven : forall t, In t (g_todos g) -> td_class t = Advancement -> td_status t = Done ->
    is_Some (td_validator t) -> PassedReceipt g (td_id t) \/ DeliveryVerified g (td_id t)
}.

Lemma has_passed_validation_true g id : has_passed_validation g id = true <-> PassedReceipt g id.
Proof.
  unfold has_passed_validation, PassedReceipt. rewrite List.existsb_exists. split.
  - intros (r & Hin & H). apply andb_true_iff in H as [Hid H]. bool_prop.
    destruct (rr_validation r) as [v|] eqn:E; [|done]. bool_prop. by exists r, v.
  - intros (r & v & Hin & Hid & Hv & Hs). exists r. split; [done|].
    rewrite Hv, Hs. apply andb_true_iff. split; [by apply String.eqb_eq|done].
Qed.

Lemma is_delivery_verified_true g id : is_delivery_verified g id = true <-> DeliveryVerified g id.
Proof.
  unfold is_delivery_verified, DeliveryVerified. destruct (delivery_state g id) as [d|].
  - rewrite String.eqb_eq. split; [eauto|]. by intros (? & [= ->] & ?).
  - split; [done|]. by intros (? & ? & _).
Qed.

Lemma closes_silently_true t :
  closes_silently t = true <->
  td_class t = Advancement /\ td_status t = Done /\ td_successor_ids t = []
  /\ td_no_follow_up t = false.
Proof.
  unfold closes_silently.
  rewrite !andb_true_iff, class_is_true, status_is_true, is_empty_true, negb_true_iff. tauto.
Qed.

Lemma unvalidated_true g t :
  unvalidated g t = true <->
  td_class t = Advancement /\ td_status t = Done /\ is_Some (td_validator t)
  /\ ~ PassedReceipt g (td_id t) /\ ~ DeliveryVerified g (td_id t).
Proof.
  unfold unvalidated.
  rewrite !andb_true_iff, class_is_true, status_is_true, bool_decide_eq_true, !negb_true_iff.
  rewrite <- (not_true_iff_false (has_passed_validation _ _)), has_passed_validation_true.
  rewrite <- (not_true_iff_false (is_delivery_verified _ _)), is_delivery_verified_true. tauto.
Qed.

Lemma forallb_closed g :
  forallb (fun t => closed_status (td_status t)) (g_todos g) = true
  <-> forall t, In t (g_todos g) -> Closed t.
Proof. rewrite List.forallb_forall. by setoid_rewrite closed_status_true. Qed.

Lemma is_empty_filter {A} (p : A -> bool) l :
  is_empty (List.filter p l) = true <-> forall x, In x l -> p x = false.
Proof. by rewrite is_empty_true, filter_nil_iff. Qed.

Lemma is_terminal_closed g : is_terminal g = true <-> ClosedGoal g.
Proof.
  unfold is_terminal, unsatisfied_gaps, completed_without_closure_intent, unvalidated_deliveries.
  rewrite !andb_true_iff, forallb_closed, !is_empty_filter. split.
  - intros [[[Ht Hg] Hi] Hv]. constructor; [done| | |].
    + intros x Hx. specialize (Hg x Hx). by apply negb_false_iff in Hg.
    + intros t Hin Hc Hs. specialize (Hi t Hin).
      apply not_true_iff_false in Hi. rewrite closes_silently_true in Hi.
      destruct (td_successor_ids t); [|by left]. destruct (td_no_follow_up t); [by right|tauto].
    + intros t Hin Hc Hs Hsome. specialize (Hv t Hin).
      unfold unvalidated in Hv.
      rewrite Hc, Hs, (bool_decide_eq_true_2 _ Hsome) in Hv. simpl in Hv.
      rewrite <- has_passed_validation_true, <- is_delivery_verified_true.
      destruct (has_passed_validation _ _), (is_delivery_verified _ _); auto.
  - intros [Ht Hg Hi Hv]. split; [split; [split; [done|]|]|].
    + intros x Hx. by rewrite (Hg x Hx).
    + intros t Hin. apply not_true_iff_false. rewrite closes_silently_true.
      intros (Hc & Hs & Hsucc & Hnf). destruct (Hi t Hin Hc Hs); congruence.
    + intros t Hin. apply not_true_iff_false. rewrite unvalidated_true.
      intros (Hc & Hs & Hsome & ? & ?). destruct (Hv t Hin Hc Hs Hsome); contradiction.
Qed.

(** [Goal::is_terminal] holds exactly of a closed goal: no open count alone
    ever closes one. *)
Theorem is_terminal_iff_closed_goal g :
  is_terminal g = true <->
  (forall t, In t (g_todos g) -> Closed t)
  /\ (forall x, In x (g_acceptance g) -> ag_satisfied x = true)
  /\ (forall t, In t (g_todos g) -> td_class t = Advancement -> td_status t = Done ->
        (td_successor_ids t <> [] \/ td_no_follow_up t = true)
        /\ (is_Some (td_validator t) -> PassedReceipt g (td_id t) \/ DeliveryVerified g (td_id t))).
Proof.
  rewrite is_terminal_closed. split.
  - intros []. split; [done|]. split; [done|]. intros; split; eauto.
  - intros (? & ? & H). constructor; [done|done|intros; by apply H|intros; by apply H].
Qed.

(** * Pending work, as shown to an operator *)
Lemma pending_loop g now l c o :
  List.fold_left
    (fun '(claimable, owner_scoped) t =>
       let open := class_is (td_class t) Advancement && active_at now t
                   && negb (is_blocked_at g t now) in
       if negb open then (claimable, owner_scoped)
       else match td_owner t with
       | None => if negb (claimed_by_other t None (as_epoch_secs now))
                 then (claimable ++ [t], owner_scoped) else (claimable, owner_scoped)
       | Some _ => (claimable, owner_scoped ++ [t])
       end) l (c, o)
  = (c ++ List.filter (runnable_for g None now) l,
     o ++ List.filter (fun t => class_is (td_class t) Advancement && active_at now t
                          && negb (is_blocked_at g t now) && bool_decide (is_Some (td_owner t))) l).
Proof.
  revert c o. induction l as [|t l IH]; intros c o; cbn -[is_blocked_at runnable_for].
  { by rewrite !app_nil_r. }
  assert (Hrun : runnable_for g None now t
    = class_is (td_class t) Advancement && active_at now t && negb (is_blocked_at g t now)
      && bool_decide (td_owner t = None) && negb (claimed_by_other t None (as_epoch_secs now))).
  { unfold runnable_for, owner_allows.
    destruct (td_owner t); rewrite ?bool_decide_eq_false_2, ?bool_decide_eq_true_2 by done;
      destruct (class_is _ _), (active_at _ _), (claimed_by_other _ _ _), (is_blocked_at _ _ _);
      done. }
  rewrite Hrun. clear Hrun.
  destruct (class_is _ _ && active_at _ _ && negb (is_blocked_at _ _ _)); simpl; [|apply IH].
  destruct (td_owner t) as [ow|]; simpl.
  - rewrite IH. simpl. by rewrite <- (assoc app).
  - destruct (claimed_by_other t None _); simpl; rewrite IH; simpl; by rewrite <- ?(assoc app).
Qed.

(** The two lists of [pending_advancement_owner_aware_at] are the frontier
    of the anonymous agent and the unblocked owner-scoped work, in ledger
    order: a todo without an owner is listed only while no lease on it is live. *)
Theorem pending_advancement_split g now :
  pending_advancement_owner_aware_at g now
  = (runnable_advancement_for_at g None now,
     List.filter (fun t => class_is (td_class t) Advancement && active_at now t
                      && negb (is_blocked_at g t now) && bool_decide (is_Some (td_owner t)))
       (g_todos g)).
Proof. unfold pending_advancement_owner_aware_at. rewrite pending_loop. done. Qed.

(** * Claims *)
Section ClaimProps.
Variable pid_alive : u32 -> bool.

Definition Refused (t : Todo) (a : string) (now : u64) : Prop :=
  exists e, td_lease_expires_at t = Some e /\ now < e /\ td_claimed_by t <> Some a
    /\ (forall pid, td_holder_pid t = Some pid -> pid_alive pid = true).

Lemma lease_refuses_true t a now :
  lease_refuses pid_alive t a now = true <-> Refused t a now.
Proof.
  unfold lease_refuses, Refused.
  destruct (td_lease_expires_at t) as [e|]; [|split; [done|by intros (? & ? & _)]].
  rewrite !andb_true_iff, negb_true_iff, bool_decide_eq_false, Z.ltb_lt. split.
  - intros [[Hlt Hne] Hal]. exists e. split; [done|]. split; [done|]. split; [done|].
    intros pid Hp. by rewrite Hp in Hal.
  - intros (? & [= <-] & Hlt & Hne & Hal). split; [done|].
    destruct (td_holder_pid t); [by apply Hal|done].
Qed.

Lemma claim_spec t a secs now :
  (td_status t = Open /\ ~ Refused t a now /\
     claim pid_alive t a secs now
     = (t <| td_claimed_by := Some a |>
          <| td_lease_expires_at := Some (u64_add now secs) |>, true))
  \/ ((td_status t <> Open \/ Refused t a now) /\ claim pid_alive t a secs now = (t, false)).
Proof.
  unfold claim. destruct (status_is (td_status t) Open) eqn:Es; simpl.
  - apply status_is_true in Es. destruct (lease_refuses pid_alive t a now) eqn:El.
    + apply lease_refuses_true in El. auto.
    + left. split; [done|]. split; [|done].
      rewrite <- lease_refuses_true. congruence.
  - apply status_is_false in Es. auto.
Qed.

(** A claim succeeds exactly on an open todo no other live holder keeps,
    a refused claim changes nothing, and a granted lease hides the todo from
    every other agent until it expires. *)
Theorem claim_grants_and_excludes t a secs now :
  0 <= now -> 0 <= secs -> now + secs <= u64_max ->
  let '(t', ok) := claim pid_alive t a secs now in
  (ok = true <-> td_status t = Open /\ ~ Refused t a now)
  /\ (ok = false -> t' = t)
  /\ (ok = true -> td_claimed_by t' = Some a /\ td_lease_expires_at t' = Some (now + secs)
        /\ forall b later, b <> Some a -> later < now + secs ->
             claimed_by_other t' b later = true).
Proof.
  intros Hn Hs Hb. destruct (claim_spec t a secs now) as [(Ho & Hr & ->)|([Ho|Hr] & ->)].
  - split; [tauto|]. split; [done|]. intros _. cbn. rewrite u64_add_small by done.
    split; [done|]. split; [done|]. intros b later Hb' Hl.
    by rewrite (proj2 (Z.ltb_lt _ _) Hl), bool_decide_eq_false_2.
  - split; [|done]. split; [done|]. tauto.
  - split; [|done]. split; [done|]. tauto.
Qed.
End ClaimProps.

Lemma claim_grants_and_excludes_witness :
  claim (fun _ => true) (advancement 0 "T1" "work") "a" 60 100
  = ((advancement 0 "T1" "work") <| td_claimed_by := Some "a" |>
       <| td_lease_expires_at := Some 160 |>, true)
  /\ claimed_by_other (fst (claim (fun _ => true) (advancement 0 "T1" "work") "a" 60 100))
       (Some "b") 159 = true.
Proof.
  split; [reflexivity|].
  pose proof (claim_grants_and_excludes (fun _ => true) (advancement 0 "T1" "work") "a" 60 100
    ltac:(lia) ltac:(lia) ltac:(unfold u64_max; lia)) as (_ & _ & H).
  apply H; [reflexivity|discriminate|lia].
Defined.

(** [Todo::claim] keeps the recorded process of the previous holder, so
    once a dead holder's lease is reclaimed the new lease does not exclude
    anybody: a third agent's claim at the same instant succeeds too. *)
Theorem reclaimed_lease_keeps_dead_holder (pid_alive : u32 -> bool) t e pid a b secs now :
  td_status t = Open -> td_lease_expires_at t = Some e -> td_holder_pid t = Some pid ->
  pid_alive pid = false ->
  let '(t1, ok1) := claim pid_alive t a secs now in
  let '(t2, ok2) := claim pid_alive t1 b secs now in
  ok1 = true /\ ok2 = true /\ td_claimed_by t2 = Some b.
Proof.
  intros Ho He Hp Hd.
  assert (Hfree : forall u x, td_holder_pid u = Some pid -> lease_refuses pid_alive u x now = false).
  { intros u x Hu. unfold lease_refuses. rewrite Hu, Hd.
    destruct (td_lease_expires_at u); [apply andb_false_r|done]. }
  assert (Hgrant : forall u x, td_status u = Open -> td_holder_pid u = Some pid ->
    claim pid_alive u x secs now
    = (u <| td_claimed_by := Some x |>
         <| td_lease_expires_at := Some (u64_add now secs) |>, true)).
  { intros u x Hu Hu'. unfold claim. by rewrite Hu, Hfree. }
  rewrite !Hgrant by done. done.
Qed.

Lemma reclaimed_lease_keeps_dead_holder_witness :
  let t := (advancement 0 "T1" "work") <| td_claimed_by := Some "dead" |>
             <| td_lease_expires_at := Some 5000 |> <| td_holder_pid := Some 7 |> in
  let '(t1, ok1) := claim (fun _ => false) t "a" 60 100 in
  let '(t2, ok2) := claim (fun _ => false) t1 "b" 60 100 in
  ok1 = true /\ ok2 = true /\ td_claimed_by t2 = Some "b".
Proof.
  cbv zeta. apply (reclaimed_lease_keeps_dead_holder (fun _ => false) _ 5000 7); reflexivity.
Defined.
