(* ===== verification/SignalsProps.v ===== *)
(** Properties of the decision signals: the alternation detector, the sorted
    frontier and the monitor lane. *)
From S2P Require Import Prelude Cadence Todos GoalState Contract Signals GoalProps.

(** * The alternating suffix *)
(** No two adjacent signatures agree. *)
Fixpoint Alternating (l : list RunSignature) : Prop :=
  match l with
  | x :: ((y :: _) as r) => x <> y /\ Alternating r
  | _ => True
  end.

Lemma windows2_snoc {A} (l : list A) x y :
  windows2 (l ++ [x; y]) = windows2 (l ++ [x]) ++ [(x, y)].
Proof.
  induction l as [|a l IH]; [done|].
  destruct l as [|b l]; [done|]. simpl in *. by rewrite IH.
Qed.

Lemma count_alternating_add pairs n :
  count_alternating pairs n = (n + count_alternating pairs 0)%nat.
Proof.
  revert n. induction pairs as [|[a b] r IH]; intros n; simpl; [lia|].
  case_bool_decide; [lia|]. rewrite (IH (S n)), (IH 1%nat). lia.
Qed.

Lemma asl_nil : alternating_suffix_len [] = 0%nat.
Proof. done. Qed.
Lemma asl_one x : alternating_suffix_len [x] = 1%nat.
Proof. done. Qed.
Lemma asl_snoc l x y :
  alternating_suffix_len (l ++ [x; y])
  = if bool_decide (x = y) then 1%nat else S (alternating_suffix_len (l ++ [x])).
Proof.
  unfold alternating_suffix_len. rewrite windows2_snoc, rev_app_distr, !length_app. simpl.
  replace ((List.length l + 2) `min` 1)%nat with 1%nat by lia.
  replace ((List.length l + 1) `min` 1)%nat with 1%nat by lia.
  case_bool_decide; [done|]. rewrite count_alternating_add. by rewrite (count_alternating_add _ 1).
Qed.

Lemma asl_le l : (alternating_suffix_len l <= List.length l)%nat.
Proof.
  induction l as [|y l IH] using rev_ind; [done|].
  destruct l as [|x l _] using rev_ind; [done|].
  rewrite <- (assoc app) in *. simpl in *. rewrite asl_snoc, length_app. simpl.
  rewrite length_app in IH. simpl in IH. case_bool_decide; lia.
Qed.

Lemma Alternating_snoc l x y :
  Alternating (l ++ [x; y]) <-> Alternating (l ++ [x]) /\ x <> y.
Proof.
  induction l as [|a l IH]; [simpl; tauto|].
  destruct l as [|b l]; [simpl; tauto|]. simpl in *. rewrite IH. tauto.
Qed.

Lemma drop_snoc_pos {A} n (l : list A) x :
  (n <= List.length l)%nat -> drop n (l ++ [x]) = drop n l ++ [x].
Proof. intros. by apply drop_app_le. Qed.

(** The suffix found alternates, and every longer suffix does not. *)
Lemma asl_alternating l :
  Alternating (drop (List.length l - alternating_suffix_len l) l).
Proof.
  induction l as [|y l IH] using rev_ind; [done|].
  destruct l as [|x l _] using rev_ind; [done|].
  rewrite <- (assoc app) in *. simpl in *. rewrite asl_snoc, !length_app in *. simpl in *.
  case_bool_decide as Exy.
  - replace (List.length l + 2 - 1)%nat with (List.length (l ++ [x]))
      by (rewrite length_app; simpl; lia).
    rewrite (assoc app l [x] [y]), drop_app_length. done.
  - pose proof (asl_le (l ++ [x])) as Hle. rewrite length_app in Hle. simpl in Hle.
    set (n := alternating_suffix_len (l ++ [x])) in *.
    replace (List.length l + 2 - S n)%nat with (List.length l + 1 - n)%nat by lia.
    assert (1 <= n)%nat as Hn.
    { subst n. destruct l as [|z l' _] using rev_ind; [done|].
      rewrite <- (assoc app). simpl. rewrite asl_snoc. case_bool_decide; lia. }
    rewrite (drop_app_le l [x]) in IH by lia. rewrite (drop_app_le l [x; y]) by lia.
    by apply Alternating_snoc.
Qed.

Lemma asl_maximal l n :
  (n <= List.length l)%nat -> Alternating (drop (List.length l - n) l) ->
  (n <= alternating_suffix_len l)%nat.
Proof.
  revert n. induction l as [|y l IH] using rev_ind; intros n Hn HA; [simpl in *; lia|].
  destruct l as [|x l _] using rev_ind; [simpl in *; rewrite asl_one; lia|].
  rewrite <- (assoc app) in *. simpl in *. rewrite asl_snoc, !length_app in *. simpl in *.
  destruct n as [|[|n]]; [lia|case_bool_decide; lia|].
  rewrite (drop_app_le l [x; y]) in HA by lia. apply Alternating_snoc in HA as [HA Hxy].
  rewrite bool_decide_eq_false_2 by done. apply le_n_S. apply IH; [lia|].
  rewrite (drop_app_le l [x]) by lia.
  replace (List.length l + 1 - S n)%nat with (List.length l + 2 - S (S n))%nat by lia. done.
Qed.

(** [alternating_suffix_len] is the length of the longest suffix of the
    outcome stream in which no two adjacent outcomes agree. *)
Theorem alternating_suffix_len_longest l n :
  (n <= List.length l)%nat ->
  ((n <= alternating_suffix_len l)%nat <-> Alternating (drop (List.length l - n) l)).
Proof.
  intros Hn. split; [|by apply asl_maximal]. intros Hle.
  pose proof (asl_alternating l) as HA. pose proof (asl_le l).
  replace (List.length l - n)%nat
    with ((List.length l - alternating_suffix_len l) + (alternating_suffix_len l - n))%nat by lia.
  rewrite <- drop_drop. generalize dependent (drop (List.length l - alternating_suffix_len l) l).
  generalize (alternating_suffix_len l - n)%nat as k. clear.
  induction k as [|k IH]; intros s HA; [by rewrite drop_0|].
  destruct s as [|a s]; [done|]. simpl. apply IH. destruct s; [done|]. by destruct HA.
Qed.

Lemma alternating_suffix_len_longest_witness :
  (4 <= alternating_suffix_len [Accepted; Accepted; Rejected; Accepted; Rejected])%nat
  /\ Alternating [Accepted; Rejected; Accepted; Rejected].
Proof.
  split; [vm_compute; lia|].
  apply (proj1 (alternating_suffix_len_longest
    [Accepted; Accepted; Rejected; Accepted; Rejected] 4 ltac:(simpl; lia))).
  vm_compute. lia.
Defined.

(** * The detector *)
(** A run that carries no delivery verdict. *)
Definition Silent (r : RunRecord) : Prop := signature_of r = None.

Lemma observed_silent h1 r h2 since :
  Silent r -> observed_signatures (h1 ++ r :: h2) since = observed_signatures (h1 ++ h2) since.
Proof.
  intros Hr. unfold observed_signatures. rewrite !List.filter_app. simpl.
  destruct (since <? rr_recorded_at r); [|done].
  rewrite !omap_app. simpl. by rewrite Hr.
Qed.

(** Activity that is no delivery - a quota-neutral turn, or one that did
    not complete - neither creates nor breaks an alternation, wherever it lands
    in the ledger. *)
Theorem detect_ignores_silent_runs h1 r h2 since :
  classify_record r = SpendHeartbeat \/ rr_terminal_state r <> "completed" ->
  detect (h1 ++ r :: h2) since = detect (h1 ++ h2) since.
Proof.
  intros H. unfold detect. rewrite observed_silent; [done|].
  unfold Silent, signature_of. destruct H as [H|H].
  - by rewrite bool_decide_eq_true_2.
  - case_bool_decide; [done|]. apply String.eqb_neq in H. by rewrite H.
Qed.

Definition sample_run (ts : u64) (state : string) (ok : option bool) : RunRecord :=
  {| rr_agent_id := None; rr_turn := ts; rr_todo_id := "t"; rr_run_id := "run";
     rr_validation :=
       match ok with
       | Some true => Some (task_validation_receipt VPassed "v" "ok" None (Some 0))
       | Some false => Some (task_validation_receipt VFailed "v" "no" None (Some 1))
       | None => None
       end;
     rr_terminal_state := state; rr_error := None; rr_tokens_in_delta := 0;
     rr_tokens_out_delta := 0; rr_cost_delta := 0; rr_tools := []; rr_evidence := "";
     rr_recorded_at := ts; rr_spend_source := Some "run"; rr_failure_kind := None;
     rr_truncation := None |}.

Lemma detect_ignores_silent_runs_witness :
  detect ([sample_run 1 "completed" None; sample_run 2 "completed" (Some false)]
          ++ sample_run 3 "failed" None
             :: [sample_run 4 "completed" (Some true); sample_run 5 "completed" (Some false)]) 0
  = Some {| or_alternating_len := 4; or_pattern := "A→V→A→V"; or_newest_recorded_at := 5 |}.
Proof.
  etransitivity.
  - apply detect_ignores_silent_runs. right. cbn. discriminate.
  - vm_compute. reflexivity.
Defined.

(** Two stable sorts of permuted inputs agree when no key repeats. *)
Lemma sorted_perm_unique {A} (key : A -> Z) l1 l2 :
  StronglySorted (key_le key) l1 -> StronglySorted (key_le key) l2 ->
  l1 ≡ₚ l2 -> List.NoDup (List.map key l1) -> l1 = l2.
Proof.
  revert l2. induction l1 as [|x l1 IH]; intros l2 S1 S2 P ND.
  { by apply Permutation_nil_l in P. }
  destruct l2 as [|y l2]; [by apply Permutation_nil_r in P|].
  apply StronglySorted_inv in S1 as [S1 F1]. apply StronglySorted_inv in S2 as [S2 F2].
  rewrite Forall_forall in F1, F2. simpl in ND. apply List.NoDup_cons_iff in ND as [Nx ND].
  assert (x = y) as ->.
  { assert (Hy : y ∈ x :: l1) by (rewrite P; left).
    assert (Hx : x ∈ y :: l2) by (rewrite <- P; left).
    apply elem_of_cons in Hy as [->|Hy]; [done|]. apply elem_of_cons in Hx as [->|Hx]; [done|].
    destruct Nx. pose proof (F1 _ Hy). pose proof (F2 _ Hx). unfold key_le in *.
    replace (key x) with (key y) by lia. apply in_map. by apply list_elem_of_In. }
  f_equal. apply Permutation_cons_inv in P. by apply IH.
Qed.

Lemma observed_keys history since :
  List.map fst (omap (fun r => match signature_of r with
                               | Some s => Some (rr_recorded_at r, s) | None => None end)
                  (List.filter (fun r => since <? rr_recorded_at r) history))
  `sublist_of` List.map rr_recorded_at history.
Proof.
  induction history as [|r h IH]; [done|]. simpl. destruct (since <? _); simpl.
  - destruct (signature_of r); simpl; [by constructor|by constructor].
  - by constructor.
Qed.


Lemma ListNoDup_sublist {A} (l1 l2 : list A) :
  l1 `sublist_of` l2 -> List.NoDup l2 -> List.NoDup l1.
Proof. rewrite <- !NoDup_ListNoDup. intros ? H. by eapply sublist_NoDup. Qed.

(** The verdict depends on when outcomes were recorded, never on the order
    in which concurrent writers reached the ledger. *)
Theorem detect_order_independent h1 h2 since :
  h1 ≡ₚ h2 -> List.NoDup (List.map rr_recorded_at h1) -> detect h1 since = detect h2 since.
Proof.
  intros P ND. unfold detect.
  enough (observed_signatures h1 since = observed_signatures h2 since) as -> by done.
  unfold observed_signatures. apply (sorted_perm_unique fst); auto with goal_db.
  - rewrite !sort_by_key_perm. apply omap_Permutation. by apply filter_perm.
  - eapply Permutation_NoDup; [|eapply ListNoDup_sublist; [apply observed_keys|exact ND]].
    apply Permutation_map. symmetry. apply sort_by_key_perm.
Qed.

Lemma detect_order_independent_witness :
  detect [sample_run 3 "completed" None; sample_run 4 "completed" (Some false);
          sample_run 1 "completed" None; sample_run 2 "completed" (Some false)] 0
  = Some {| or_alternating_len := 4; or_pattern := "A→V→A→V"; or_newest_recorded_at := 4 |}.
Proof.
  etransitivity.
  - apply (detect_order_independent _
      [sample_run 1 "completed" None; sample_run 2 "completed" (Some false);
       sample_run 3 "completed" None; sample_run 4 "completed" (Some false)] 0).
    + apply (Permutation_app_comm [_; _] [_; _]).
    + simpl. repeat (constructor; [simpl; lia|]). constructor.
  - vm_compute. reflexivity.
Defined.
