(* ===== verification/FrontierProps.v ===== *)
(** Properties of the goal frontier: the terminal judgement, the replan rule
    table, outcome segments and the bounded semantic history. *)
From S2P Require Import Prelude Cadence Todos GoalState Contract Signals GoalFrontier GoalProps.

(** * The terminal judgement *)
Lemma is_empty_app {A} (l1 l2 : list A) : is_empty (l1 ++ l2) = is_empty l1 && is_empty l2.
Proof. by destruct l1. Qed.
Lemma is_empty_map {A B} (f : A -> B) l : is_empty (List.map f l) = is_empty l.
Proof. by destruct l. Qed.

Lemma terminal_gaps_empty g now : is_empty (terminal_gaps g now) = is_terminal g.
Proof.
  unfold terminal_gaps, is_terminal. rewrite !is_empty_app, !is_empty_map, <- !andb_assoc.
  f_equal. apply Bool.eq_iff_eq_true. rewrite is_empty_filter, List.forallb_forall.
  unfold not_done. by setoid_rewrite negb_false_iff.
Qed.

(** C34: the terminal judgement and [Goal::is_terminal] agree, its closure kind
    and source are present exactly when it is terminal, and no gap it lists is
    satisfied. *)
Theorem terminal_judgement_agrees g now :
  let j := terminal_judgement_at g now in
  tj_terminal j = is_terminal g
  /\ tj_kind j = (if is_terminal g then Some TERMINAL_KIND_NO_FOLLOWUP else None)
  /\ tj_source j = (if is_terminal g then Some TERMINAL_SOURCE_VALIDATED else None)
  /\ (tj_gaps j = [] <-> is_terminal g = true)
  /\ forall x, In x (tj_gaps j) -> tg_satisfied x = false.
Proof.
  cbn. rewrite !terminal_gaps_empty. split; [done|]. split; [done|]. split; [done|].
  split; [by rewrite <- is_empty_true, terminal_gaps_empty|].
  intros x. unfold terminal_gaps. rewrite !in_app_iff, !in_map_iff.
  intros [(t & <- & _)|[(t & <- & _)|[(t & <- & _)|(t & <- & _)]]]; try done.
  unfold open_todo_gap. by destruct (_ && _).
Qed.

(** Every pending todo is named by an entry of the judgement, under the
    kind its state calls for. *)
Theorem terminal_gap_for_pending_todo g now t :
  In t (g_todos g) -> ~ Closed t ->
  exists x, In x (tj_gaps (terminal_judgement_at g now)) /\ tg_todo_id x = Some (td_id t)
    /\ tg_kind x = (if status_is (td_status t) Deferred && negb (due (td_resume_when t) now)
                    then GAP_PENDING_DEFERRED
                    else if class_is (td_class t) Monitor then GAP_OPEN_MONITOR
                    else GAP_OPEN_TODO).
Proof.
  intros Hin Hc. exists (open_todo_gap now t). cbn. unfold terminal_gaps. split.
  - rewrite in_app_iff. left. apply in_map, List.filter_In. split; [done|].
    unfold not_done. by apply negb_true_iff, closed_status_false.
  - unfold open_todo_gap, is_due_deferred.
    destruct (status_is (td_status t) Deferred), (due (td_resume_when t) now); done.
Qed.

Lemma terminal_gap_for_pending_todo_witness :
  let g := add (monitor 0 "M1" "watch" 60000000000) (goal_new 0 "g" "o" "/tmp") in
  exists x, In x (tj_gaps (terminal_judgement_at g 0)) /\ tg_todo_id x = Some "M1"
            /\ tg_kind x = GAP_OPEN_MONITOR.
Proof.
  cbv zeta.
  destruct (terminal_gap_for_pending_todo
    (add (monitor 0 "M1" "watch" 60000000000) (goal_new 0 "g" "o" "/tmp")) 0
    (at_index 1 (monitor 0 "M1" "watch" 60000000000))) as (x & ? & ? & ?).
  - left. vm_compute. reflexivity.
  - intros [H|H]; vm_compute in H; discriminate.
  - exists x. auto.
Defined.

(** * The replan rule table *)
Lemma first_matching_spec f rules :
  match first_matching f rules with
  | Some d => exists l1 l2, rules = l1 ++ (rd_rule_index d, rd_rule d) :: l2
                /\ matching f (rd_rule d) = Some (rd_reason d)
                /\ d = decision_for (rd_rule d) (rd_rule_index d) (rd_reason d)
                /\ forall i r, In (i, r) l1 -> matching f r = None
  | None => forall i r, In (i, r) rules -> matching f r = None
  end.
Proof.
  induction rules as [|[i r] rest IH]; [by intros ? ? []|]. simpl.
  destruct (matching f r) as [reason|] eqn:E.
  - exists [], rest. simpl. split; [done|]. split; [done|]. split; [done|]. by intros ? ? [].
  - destruct (first_matching f rest) as [d|].
    + destruct IH as (l1 & l2 & -> & ? & ? & Hl). exists ((i, r) :: l1), l2.
      split; [done|]. split; [done|]. split; [done|].
      intros i' r' [[= <- <-]|Hin]; [done|]. by eapply Hl.
    + intros i' r' [[= <- <-]|Hin]; [done|]. by eapply IH.
Qed.

Lemma matching_exhausted f : is_Some (matching f RULE_MONITOR_FRONTIER_EXHAUSTED).
Proof. unfold matching. cbn. eauto. Qed.

(** C40: rule selection always decides - the [unreachable!] is unreachable,
    whatever rule set a goal carries - and the decision is the first known rule
    of the set whose guard holds, or, when none of the set's rules applies, the
    first of the default order; the obligation it derives is the rule's. *)
Theorem replan_rule_selection_total f ids :
  exists d, select_replan_rule_with_set f ids = Some d
    /\ matching f (rd_rule d) = Some (rd_reason d)
    /\ rd_derives_obligation d = bool_decide (is_Some (rule_obligation (rd_rule d)))
    /\ exists order before after,
         (order = List.filter (fun x => is_known_rule (snd x)) (enumerate_from 0 ids)
          \/ (order = enumerate_from 0 default_rule_ids
              /\ forall i r, In (i, r) (enumerate_from 0 ids) -> is_known_rule r = true ->
                   matching f r = None))
         /\ order = before ++ (rd_rule_index d, rd_rule d) :: after
         /\ forall i r, In (i, r) before -> matching f r = None.
Proof.
  unfold select_replan_rule_with_set.
  set (ordered := List.filter _ _).
  pose proof (first_matching_spec f ordered) as H1.
  destruct (first_matching f ordered) as [d|].
  - destruct H1 as (l1 & l2 & E & Hm & Hd & Hb). exists d. split; [done|]. split; [done|].
    split; [by rewrite Hd|]. exists ordered, l1, l2. auto.
  - pose proof (first_matching_spec f (enumerate_from 0 default_rule_ids)) as H2.
    destruct (first_matching f _) as [d|].
    + destruct H2 as (l1 & l2 & E & Hm & Hd & Hb). exists d. split; [done|]. split; [done|].
      split; [by rewrite Hd|]. eexists _, l1, l2. split; [|split; [exact E|exact Hb]].
      right. split; [done|]. intros i r Hin Hk. apply (H1 i r).
      unfold ordered. apply List.filter_In. auto.
    + destruct (matching_exhausted f) as [reason Hr].
      rewrite (H2 8 RULE_MONITOR_FRONTIER_EXHAUSTED) in Hr; [done|]. cbn. tauto.
Qed.

(** * Outcome segments *)
(** [r2], recorded right after [r1], continues its segment. *)
Definition Linked (g : Goal) (r1 r2 : RunRecord) : Prop :=
  kind_of r1 = kind_of r2
  /\ frontier_changed_between g (rr_recorded_at r1) (rr_recorded_at r2) = false.

(** A segment of the history: adjacent records are linked. *)
Fixpoint Chain (g : Goal) (l : list RunRecord) : Prop :=
  match l with
  | r1 :: ((r2 :: _) as rest) => Linked g r1 r2 /\ Chain g rest
  | _ => True
  end.
(** Adjacent segments are not linked. *)
Fixpoint Broken (g : Goal) (groups : list (list RunRecord)) : Prop :=
  match groups with
  | g1 :: ((g2 :: _) as rest) =>
      (forall r1 r2, last g1 = Some r1 -> head g2 = Some r2 -> ~ Linked g r1 r2) /\ Broken g rest
  | _ => True
  end.
Definition describes (grp : list RunRecord) (s : OutcomeSegment) : Prop :=
  exists r rest, grp = r :: rest
    /\ s = {| os_segment_id := "seg_" +:+ show (rr_turn r); os_start_turn := rr_turn r;
              os_length := len grp mod 4294967296; os_kind := kind_of r |}.

Lemma Chain_snoc g l r1 r2 : Chain g (l ++ [r1; r2]) <-> Chain g (l ++ [r1]) /\ Linked g r1 r2.
Proof.
  induction l as [|a l IH]; [simpl; tauto|].
  destruct l as [|b l]; [simpl; tauto|]. simpl in *. rewrite IH. tauto.
Qed.
Lemma Broken_snoc g gs a b :
  Broken g (gs ++ [a; b]) <->
  Broken g (gs ++ [a]) /\ (forall r1 r2, last a = Some r1 -> head b = Some r2 -> ~ Linked g r1 r2).
Proof.
  induction gs as [|x gs IH]; [simpl; tauto|].
  destruct gs as [|y gs]; [simpl; tauto|]. simpl in *. rewrite IH. tauto.
Qed.

(** The invariant of the loop over the history. *)
Record SegInv (g : Goal) (done_ : list RunRecord) (st : SegmentState)
    (groups : list (list RunRecord)) : Prop := {
  si_concat : List.concat groups = done_;
  si_desc : Forall2 describes groups (ss_segments st);
  si_chain : Forall (Chain g) groups;
  si_broken : Broken g groups;
  si_last : match last done_ with
            | None => groups = [] /\ ss_current_kind st = None /\ ss_prev_at st = None
            | Some r => ss_current_kind st = Some (kind_of r)
                        /\ ss_prev_at st = Some (rr_recorded_at r)
                        /\ exists gs grp, groups = gs ++ [grp] /\ last grp = Some r
            end
}.

Lemma continues_linked g st r1 r :
  ss_current_kind st = Some (kind_of r1) -> ss_prev_at st = Some (rr_recorded_at r1) ->
  continues_segment g st r = true <-> Linked g r1 r.
Proof.
  intros Hk Hp. unfold continues_segment, Linked. rewrite Hk, Hp.
  rewrite andb_true_iff, bool_decide_eq_true, negb_true_iff.
  split; intros [E ?]; split; congruence.
Qed.

Lemma extend_last_snoc l s :
  extend_last (l ++ [s]) = l ++ [s <| os_length ::= (fun n => u32_add n 1) |>].
Proof.
  induction l as [|a l IH]; [done|]. simpl in *. rewrite IH. by destruct l.
Qed.

Lemma describes_extend grp s r :
  describes grp s -> describes (grp ++ [r]) (s <| os_length ::= (fun n => u32_add n 1) |>).
Proof.
  intros (r0 & rest & -> & ->). exists r0, (rest ++ [r]). split; [done|]. cbn.
  f_equal. unfold u32_add. rewrite Zplus_mod_idemp_l. f_equal.
  unfold len. rewrite app_comm_cons, length_app. simpl. lia.
Qed.

Lemma seg_step g done_ st groups r :
  SegInv g done_ st groups ->
  exists groups', SegInv g (done_ ++ [r]) (segment_step g st r) groups'.
Proof.
  intros [Hc Hd Hch Hb Hl]. unfold segment_step.
  destruct (continues_segment g st r) eqn:E.
  - destruct (last done_) as [r1|] eqn:Elast.
    2: { destruct Hl as (_ & Hk & _). unfold continues_segment in E. by rewrite Hk in E. }
    destruct Hl as (Hk & Hp & gs & grp & -> & Hlast).
    rewrite (continues_linked _ _ r1) in E by done.
    apply last_Some in Hlast as [grp' ->].
    apply Forall2_app_inv_l in Hd as (s1 & s2 & Hd1 & Hd2 & Hs).
    inversion Hd2 as [|? s ? ? Hdesc Hnil]; subst. inversion Hnil; subst.
    apply Forall_app in Hch as [Hch1 Hch2]. rewrite Forall_singleton in Hch2.
    exists (gs ++ [(grp' ++ [r1]) ++ [r]]). constructor.
    + rewrite !List.concat_app. simpl. by rewrite !app_nil_r, (assoc app).
    + simpl. rewrite Hs, extend_last_snoc. apply Forall2_app; [done|].
      constructor; [by apply describes_extend|constructor].
    + apply Forall_app. split; [done|]. apply Forall_singleton.
      rewrite <- (assoc app). simpl. apply Chain_snoc. split; [exact Hch2|exact E].
    + destruct gs as [|x gs _] using rev_ind; [done|].
      rewrite <- (assoc app). rewrite <- (assoc app) in Hb.
      simpl in *. apply Broken_snoc in Hb as [Hb1 Hb2].
      apply Broken_snoc. split; [done|]. intros ra rb Ha Hhd. apply Hb2; [done|].
      destruct grp'; done.
    + rewrite last_snoc. simpl. destruct E as [E _]. rewrite Hk, E. split; [done|].
      split; [done|]. exists gs, ((grp' ++ [r1]) ++ [r]). by rewrite last_snoc.
  - exists (groups ++ [[r]]). constructor.
    + rewrite List.concat_app. simpl. by rewrite Hc.
    + simpl. apply Forall2_app; [done|]. constructor; [|constructor]. by exists r, [].
    + apply Forall_app. by split; [|apply Forall_singleton].
    + destruct (last done_) as [r1|] eqn:Elast.
      * destruct Hl as (Hk & Hp & gs & grp & -> & Hlast).
        rewrite <- (assoc app). simpl. apply Broken_snoc. split; [done|].
        intros ra rb Ha [= <-]. rewrite Hlast in Ha. injection Ha as <-.
        rewrite <- (continues_linked g st r1 r) by done. congruence.
      * by destruct Hl as (-> & _).
    + rewrite last_snoc. simpl. split; [done|]. split; [done|]. by exists groups, [r].
Qed.

Lemma seg_fold g l : forall done_ st groups,
  SegInv g done_ st groups ->
  exists groups', SegInv g (done_ ++ l) (List.fold_left (segment_step g) l st) groups'.
Proof.
  induction l as [|r l IH]; intros done_ st groups H.
  - rewrite app_nil_r. by exists groups.
  - simpl. destruct (seg_step _ _ _ _ r H) as [groups' H'].
    destruct (IH _ _ _ H') as [groups'' H'']. rewrite <- (assoc app) in H''. by exists groups''.
Qed.

(** The outcome segments partition the run history, in order, into maximal
    runs: inside a segment adjacent turns have the same kind and no frontier
    change lands between them, and between two segments one of the two fails.
    Each segment reports its first turn, its kind and its length. *)
Theorem outcome_segments_partition g :
  exists groups, List.concat groups = g_history g
    /\ Forall2 describes groups (outcome_segments g)
    /\ Forall (Chain g) groups
    /\ Broken g groups.
Proof.
  destruct (seg_fold g (g_history g) []
    {| ss_segments := []; ss_current_kind := None; ss_prev_at := None |} []) as [groups []].
  - constructor; done.
  - exists groups. auto.
Qed.

(** * The bounded semantic history *)
Lemma char_count_take n s : (char_count (char_take n s) <= n)%nat.
Proof.
  revert n. induction s as [|c s IH]; intros n; simpl; [lia|].
  destruct (is_continuation c) eqn:E; simpl; [rewrite E; apply IH|].
  destruct n as [|n]; simpl; [lia|]. rewrite E. specialize (IH n). lia.
Qed.
Lemma char_count_app a b : char_count (a +:+ b) = (char_count a + char_count b)%nat.
Proof. induction a as [|c a IH]; simpl; [done|]. destruct (is_continuation c); rewrite IH; lia. Qed.
Lemma truncate_bound s n : (char_count (truncate s n) <= S n)%nat.
Proof.
  unfold truncate. destruct (Nat.leb_spec (char_count s) n); [lia|].
  rewrite char_count_app. pose proof (char_count_take n s). simpl. lia.
Qed.

Definition entry (e : string * option string * string * u64) : SemanticEvent :=
  let '(kind, id, summary, ts) := e in
  {| se_kind := kind; se_todo_id := id; se_summary := truncate_summary summary; se_ts := ts |}.
Definition record_entry (g : Goal) (e : string * option string * string * u64) : Goal :=
  let '(kind, id, summary, ts) := e in record_semantic_event kind id summary ts g.

Lemma record_entries_history es : forall g,
  g_semantic_history (List.fold_left record_entry es g)
  = match es with
    | [] => g_semantic_history g
    | _ => keep_last SEMANTIC_HISTORY_CAP (g_semantic_history g ++ List.map entry es)
    end.
Proof.
  induction es as [|[[[k i] s] ts] es IH] using rev_ind; [done|]. intros g.
  rewrite List.fold_left_app. cbn [List.fold_left].
  unfold record_entry at 1, record_semantic_event. cbn -[keep_last SEMANTIC_HISTORY_CAP].
  rewrite IH, List.map_app. destruct es as [|e es]; [done|].
  cbn -[keep_last SEMANTIC_HISTORY_CAP]. rewrite keep_last_snoc.
  by rewrite <- (assoc app).
Qed.

(** After any sequence of recorded events the semantic history is the last
    50 of them in order, and every summary is at most 201 characters. *)
Theorem semantic_history_keeps_newest g es :
  g_semantic_history g = [] ->
  g_semantic_history (List.fold_left record_entry es g)
    = keep_last SEMANTIC_HISTORY_CAP (List.map entry es)
  /\ (List.length (g_semantic_history (List.fold_left record_entry es g)) <= 50)%nat
  /\ (forall x, In x (g_semantic_history (List.fold_left record_entry es g)) ->
        (char_count (se_summary x) <= 201)%nat).
Proof.
  intros H0. rewrite record_entries_history, H0.
  assert (E : match es with [] => [] | _ => keep_last SEMANTIC_HISTORY_CAP ([] ++ List.map entry es) end
              = keep_last SEMANTIC_HISTORY_CAP (List.map entry es)) by (by destruct es).
  rewrite E. split; [done|]. split; [apply keep_last_length|].
  intros x Hx. assert (Hin : In x (List.map entry es)).
  { rewrite <- (take_drop (List.length (List.map entry es) - 50) (List.map entry es)).
    apply in_app_iff. by right. }
  apply in_map_iff in Hin as ([[[k i] s] ts] & <- & _). cbn. apply (truncate_bound s 200).
Qed.

Lemma semantic_history_keeps_newest_witness :
  g_semantic_history (List.fold_left record_entry
    [("run_landed", Some "T1", "ok", 1); ("gate_resolved", None, "yes", 2)]
    (goal_new 0 "g" "o" "/tmp"))
  = [{| se_kind := "run_landed"; se_todo_id := Some "T1"; se_summary := "ok"; se_ts := 1 |};
     {| se_kind := "gate_resolved"; se_todo_id := None; se_summary := "yes"; se_ts := 2 |}].
Proof.
  destruct (semantic_history_keeps_newest (goal_new 0 "g" "o" "/tmp")
    [("run_landed", Some "T1", "ok", 1); ("gate_resolved", None, "yes", 2)] eq_refl) as [H _].
  rewrite H. reflexivity.
Defined.
