(* ===== verification/DecisionProps.v ===== *)
(** Properties of the decision kernel: its refinement of an ordered decision
    table, the arbitration of its packets, what a delivery authorises and when
    automation may stop. *)
From S2P Require Import Prelude Cadence Todos GoalState Contract Signals GoalFrontier Decision GoalProps FrontierProps.

(** * The decision table *)
(** The steps of the pipeline, in the order of decision/mod.rs. *)
Inductive Step :=
| SCancelled | SUnregistered | SGate | SRunnable | SBlocker | SSuccession | SStalled | SDue
| SBackoff | SAcceptance | SDeferred | SHeld | SResidue | SClosed.

Definition ActiveOf (g : Goal) (now : SystemTime) (c : TaskClass) (t : Todo) : Prop :=
  In t (g_todos g) /\ td_class t = c /\ Active now t.
Definition Silent (t : Todo) : Prop :=
  td_class t = Advancement /\ td_status t = Done /\ td_successor_ids t = []
  /\ td_no_follow_up t = false.

(** When a step applies, in the vocabulary of the goal. *)
Definition guard (g : Goal) (a : option string) (now : SystemTime) (s : Step) : Prop :=
  match s with
  | SCancelled => g_status g = "cancelled"
  | SUnregistered => exists id, a = Some id /\ ~ In id (g_registered_agents g)
  | SGate => exists t, ActiveOf g now UserGate t
  | SRunnable => exists t, Runnable g a now t
  | SBlocker => exists t, ActiveOf g now Blocker t
  | SSuccession => exists t, In t (g_todos g) /\ Silent t
  | SStalled => exists t, ActiveOf g now Monitor t
                  /\ MONITOR_NO_CHANGE_REPLAN_THRESHOLD <= td_consecutive_no_change t
  | SDue => exists t d, ActiveOf g now Monitor t /\ td_resume_when t = Some d /\ d <= now
  | SBackoff => exists t, ActiveOf g now Monitor t
  | SAcceptance => exists x, In x (g_acceptance g) /\ ag_satisfied x = false
  | SDeferred => exists t, In t (g_todos g) /\ td_status t = Deferred /\ ~ Active now t
  | SHeld => exists t, ActiveOf g now Advancement t
  | SResidue => ~ ClosedGoal g
  | SClosed => True
  end.

Record Verdict := { v_codes : list DecisionReasonCode; v_decision : string; v_run : bool;
                    v_action : string; v_mode : TurnMode }.
Definition verdict (s : Step) : Verdict :=
  let wait code := {| v_codes := [code]; v_decision := "wait"; v_run := false;
                      v_action := "quiet_wait"; v_mode := WaitMonitor |} in
  let replan code := {| v_codes := [code]; v_decision := "replan"; v_run := true;
                        v_action := "replan"; v_mode := Replan |} in
  match s with
  | SCancelled => {| v_codes := [GoalCancelledCode]; v_decision := "skip"; v_run := false;
                     v_action := "cancelled"; v_mode := Terminal |}
  | SUnregistered => {| v_codes := [IdentityNotRegistered]; v_decision := "skip"; v_run := false;
                        v_action := "automation_prompt_upgrade_required"; v_mode := WaitMonitor |}
  | SGate => {| v_codes := [OpenUserGate]; v_decision := "run"; v_run := true;
                v_action := "ask_user"; v_mode := AskUser |}
  | SRunnable => {| v_codes := [RunnableTodo; RepairAttempt]; v_decision := "run"; v_run := true;
                    v_action := "normal_run"; v_mode := BoundedDelivery |}
  | SBlocker => wait BlockedNoFallback
  | SSuccession => replan SuccessionClosureMissing
  | SStalled => wait MonitorStalled
  | SDue => {| v_codes := [MonitorDue]; v_decision := "run"; v_run := true;
               v_action := "monitor_poll"; v_mode := MonitorPoll |}
  | SBackoff => wait MonitorBackoff
  | SAcceptance | SResidue => replan AcceptanceGapOpen
  | SDeferred => wait DeferredNotDue
  | SHeld => wait WorkLeasedToOthers
  | SClosed => {| v_codes := [ValidatedClosure]; v_decision := "skip"; v_run := false;
                  v_action := "terminal_no_followup"; v_mode := Terminal |}
  end.

(** The order of the pipeline and the step that governs: its guard holds and no
    earlier one does. *)
Definition rank (s : Step) : nat :=
  match s with
  | SCancelled => 0 | SUnregistered => 1 | SGate => 2 | SRunnable => 3 | SBlocker => 4
  | SSuccession => 5 | SStalled => 6 | SDue => 7 | SBackoff => 8 | SAcceptance => 9
  | SDeferred => 10 | SHeld => 11 | SResidue => 12 | SClosed => 13
  end.
Definition Governs (g : Goal) (a : option string) (now : SystemTime) (s : Step) : Prop :=
  guard g a now s /\ forall s', (rank s' < rank s)%nat -> ~ guard g a now s'.

Lemma rank_inj s s' : rank s = rank s' -> s = s'.
Proof. by destruct s, s'. Qed.
Lemma governs_unique g a now s s' : Governs g a now s -> Governs g a now s' -> s = s'.
Proof.
  intros [Hs Hmin] [Hs' Hmin']. apply rank_inj.
  destruct (Nat.lt_trichotomy (rank s) (rank s')) as [H|[H|H]]; [|done|].
  - by destruct (Hmin' _ H).
  - by destruct (Hmin _ H).
Qed.

(** * Reflection of the guards *)
Definition guardb (g : Goal) (a : option string) (now : SystemTime) (s : Step) : bool :=
  match s with
  | SCancelled => g_status g =?s "cancelled"
  | SUnregistered => negb (is_registered_agent g a)
  | SGate => negb (is_empty (open_gates_at g now))
  | SRunnable => negb (is_empty (sorted_runnable_at g a now))
  | SBlocker => negb (is_empty (open_of_at g Blocker now))
  | SSuccession => negb (is_empty (completed_without_closure_intent g))
  | SStalled => existsb is_monitor_stalled (open_monitors_at g now)
  | SDue => existsb (fun m => due (td_resume_when m) now) (open_monitors_at g now)
  | SBackoff => negb (is_empty (open_monitors_at g now))
  | SAcceptance => negb (is_empty (unsatisfied_gaps g))
  | SDeferred => existsb (pending_deferred now) (g_todos g)
  | SHeld => existsb (fun t => class_is (td_class t) Advancement && active_at now t) (g_todos g)
  | SResidue => negb (is_terminal g)
  | SClosed => true
  end.

Lemma not_empty_exists {A} (l : list A) : negb (is_empty l) = true <-> exists x, In x l.
Proof. destruct l as [|x l]; simpl; split; try done; [by intros [? []]|eauto]. Qed.

Lemma active_pending_deferred now t :
  pending_deferred now t = true <-> td_status t = Deferred /\ ~ Active now t.
Proof.
  unfold pending_deferred. rewrite andb_true_iff, status_is_true, negb_true_iff.
  rewrite <- active_at_true. unfold active_at.
  split; intros [Hs H]; split; try done; rewrite Hs in *; simpl in *; destruct (is_due_deferred t now); done.
Qed.

Lemma registered_false g a :
  is_registered_agent g a = false <-> exists id, a = Some id /\ ~ In id (g_registered_agents g).
Proof.
  unfold is_registered_agent. destruct a as [id|]; [|split; [done|by intros (? & ? & _)]].
  rewrite existsb_false. split.
  - intros H. exists id. split; [done|]. intros Hin. specialize (H _ Hin).
    by rewrite String.eqb_refl in H.
  - intros (? & [= <-] & Hn) x Hx. apply String.eqb_neq. by intros ->.
Qed.

Lemma in_sorted_runnable g a now t : In t (sorted_runnable_at g a now) <-> Runnable g a now t.
Proof.
  rewrite <- in_runnable. unfold sorted_runnable_at.
  rewrite <- !list_elem_of_In. by rewrite (sort_by_key_perm todo_rank).
Qed.

Lemma guardb_true g a now s : guardb g a now s = true <-> guard g a now s.
Proof.
  destruct s; simpl.
  - apply String.eqb_eq.
  - rewrite negb_true_iff. apply registered_false.
  - rewrite not_empty_exists. by setoid_rewrite in_open_of.
  - rewrite not_empty_exists. by setoid_rewrite in_sorted_runnable.
  - rewrite not_empty_exists. by setoid_rewrite in_open_of.
  - rewrite not_empty_exists. unfold completed_without_closure_intent, Silent.
    setoid_rewrite List.filter_In. by setoid_rewrite closes_silently_true.
  - rewrite List.existsb_exists, open_monitors_are_open_of. setoid_rewrite in_open_of.
    unfold is_monitor_stalled. by setoid_rewrite Z.leb_le.
  - rewrite List.existsb_exists, open_monitors_are_open_of. setoid_rewrite in_open_of.
    setoid_rewrite due_true. split.
    + intros (t & ? & d & ?). by exists t, d.
    + intros (t & d & ? & ?). exists t. split; [done|]. by exists d.
  - rewrite not_empty_exists, open_monitors_are_open_of. by setoid_rewrite in_open_of.
  - rewrite not_empty_exists. unfold unsatisfied_gaps. setoid_rewrite List.filter_In.
    by setoid_rewrite negb_true_iff.
  - rewrite List.existsb_exists. by setoid_rewrite active_pending_deferred.
  - rewrite List.existsb_exists. setoid_rewrite andb_true_iff.
    setoid_rewrite class_is_true. by setoid_rewrite active_at_true.
  - rewrite negb_true_iff, <- not_true_iff_false. by rewrite is_terminal_closed.
  - done.
Qed.

Lemma guardb_false g a now s : guardb g a now s = false <-> ~ guard g a now s.
Proof. rewrite <- guardb_true. by destruct (guardb _ _ _ _). Qed.

(** * What a packet says *)
(** The arbitration never overrides a packet whose channels are consistent. *)
Record View (p : ShouldRunPacket) (code : DecisionReasonCode) (decision : string) (run : bool)
    (action : string) (mode : TurnMode) (uc : UserChannel) (ac : AgentChannel) : Prop := {
  vw_code : pk_reason_code p = reason_code_as_str code;
  vw_decision : pk_decision p = decision;
  vw_run : pk_should_run p = run;
  vw_action : pk_effective_action p = action;
  vw_mode : ic_mode (pk_interaction_contract p) = mode;
  vw_user : ic_user_channel (pk_interaction_contract p) = uc;
  vw_agent : ic_agent_channel (pk_interaction_contract p) = ac;
  vw_errors : contract_errors (pk_interaction_contract p) = [];
  vw_arbitration : pk_scheduler_arbitration p
    = Some (build_scheduler_arbitration (pk_interaction_contract p) []);
  vw_pause : al_pause_allowed (pk_automation_liveness p) = mode_is mode Terminal
}.

(** The channels a mode admits. *)
Definition consistent (mode : TurnMode) (uc : UserChannel) (ac : AgentChannel) : bool :=
  (negb (ac_delivery_allowed ac) || ac_must_attempt ac)
  && (negb (ac_quiet_noop_allowed ac)
      || negb (ac_must_attempt ac || ac_delivery_allowed ac || uc_action_required uc))
  && (negb (mode_is mode Terminal)
      || negb (uc_action_required uc || ac_must_attempt ac || ac_delivery_allowed ac
               || negb (ac_quiet_noop_allowed ac))).

Lemma consistent_no_errors mode uc ac cc :
  consistent mode uc ac = true ->
  contract_errors {| ic_schema_version := INTERACTION_CONTRACT_SCHEMA_VERSION; ic_mode := mode;
                     ic_user_channel := uc; ic_agent_channel := ac; ic_cli_channel := cc |} = [].
Proof.
  destruct uc as [u ? ? ?], ac as [m d q ? ? ?]. unfold consistent, contract_errors.
  cbn -[String.eqb]. destruct mode, u, m, d, q; vm_compute; congruence.
Qed.

Lemma no_errors_not_repair c :
  contract_errors c = [] ->
  sa_errors (build_scheduler_arbitration c []) = []
  /\ sa_disposition (build_scheduler_arbitration c [])
     = fst (classify_disposition (future_goal_mode (ic_mode c))
              (uc_action_required (ic_user_channel c)) (ac_must_attempt (ic_agent_channel c))
              (ac_quiet_noop_allowed (ic_agent_channel c)) []).
Proof.
  intros H. unfold build_scheduler_arbitration. rewrite H.
  by destruct (classify_disposition _ _ _ _ _).
Qed.

Lemma classify_not_repair mode u m q :
  fst (classify_disposition (future_goal_mode mode) u m q []) <> ConsistencyRepair.
Proof. by destruct mode, u, m, q. Qed.

Lemma apply_arbitration_consistent p :
  contract_errors (pk_interaction_contract p) = [] ->
  apply_arbitration ARBITRATION_ENFORCEMENT p
  = p <| pk_scheduler_arbitration :=
           Some (build_scheduler_arbitration (pk_interaction_contract p) []) |>.
Proof.
  intros H. unfold apply_arbitration.
  destruct (no_errors_not_repair _ H) as [_ Hd].
  rewrite bool_decide_eq_false_2; [done|]. rewrite Hd. apply classify_not_repair.
Qed.

(** The channels of the packet a step produces. *)
Definition monitor_due (now : SystemTime) (t : Todo) : Prop :=
  exists d, td_resume_when t = Some d /\ d <= now.
Definition Channels (g : Goal) (a : option string) (now : SystemTime) (s : Step)
    (uc : UserChannel) (ac : AgentChannel) : Prop :=
  match s with
  | SGate => uc_action_required uc = true /\ uc_todo_ids uc = ids_of (open_gates_at g now)
      /\ match sorted_runnable_at g a now with
         | t :: _ => ac = agent_channel (Some (td_text t)) None (Some (td_id t)) true true false
         | [] => ac = agent_channel None None None false false false
         end
  | SRunnable => uc_todo_ids uc = ids_of (open_of_at g UserAction now)
      /\ uc_action_required uc = negb (is_empty (open_of_at g UserAction now))
      /\ exists t rest, sorted_runnable_at g a now = t :: rest
         /\ ac = agent_channel (Some (td_text t)) (Some (td_id t)) None true true false
  | SDue => uc = user_channel_none
      /\ exists t, ActiveOf g now Monitor t /\ monitor_due now t
         /\ ac = agent_channel (Some (td_text t)) (Some (td_id t)) None true true false
  | SSuccession | SAcceptance | SResidue =>
      uc = user_channel_none /\ ac = agent_channel None None None true false false
  | _ => uc = user_channel_none /\ ac = quiet
  end.

(** [p] is what the table says of step [s]. *)
Definition Follows (g : Goal) (a : option string) (now : SystemTime) (s : Step)
    (p : ShouldRunPacket) : Prop :=
  exists code uc ac, In code (v_codes (verdict s)) /\ Channels g a now s uc ac
    /\ View p code (v_decision (verdict s)) (v_run (verdict s)) (v_action (verdict s))
         (v_mode (verdict s)) uc ac.

Lemma governs_intro g a now s :
  guardb g a now s = true ->
  (forall s', (rank s' < rank s)%nat -> guardb g a now s' = false) ->
  Governs g a now s.
Proof.
  intros Hs Hmin. split; [by apply guardb_true|]. intros s' H. by apply guardb_false, Hmin.
Qed.

Lemma monitor_outcome_spec g now :
  match monitor_outcome g now with
  | Stalled m => existsb is_monitor_stalled (open_monitors_at g now) = true
  | Due l => existsb is_monitor_stalled (open_monitors_at g now) = false
      /\ existsb (fun m => due (td_resume_when m) now) (open_monitors_at g now) = true
      /\ exists t rest, l = t :: rest /\ ActiveOf g now Monitor t /\ monitor_due now t
  | Waiting _ => existsb is_monitor_stalled (open_monitors_at g now) = false
      /\ existsb (fun m => due (td_resume_when m) now) (open_monitors_at g now) = false
      /\ is_empty (open_monitors_at g now) = false
  | NoMonitor => is_empty (open_monitors_at g now) = true
  end.
Proof.
  unfold monitor_outcome. destruct (List.find _ _) as [m|] eqn:Ef.
  { apply List.existsb_exists. exists m. by apply List.find_some in Ef. }
  rewrite find_none_iff, <- existsb_false in Ef.
  destruct (List.filter _ _) as [|t rest] eqn:Ed; simpl.
  - rewrite filter_nil_iff, <- existsb_false in Ed.
    by destruct (open_monitors_at g now).
  - assert (Hin : In t (t :: rest)) by (by left).
    rewrite <- Ed, List.filter_In in Hin. destruct Hin as [Hin Hdue].
    split; [done|]. split; [apply List.existsb_exists; eauto|].
    exists t, rest. split; [done|]. split; [by apply in_open_of|]. by apply due_true.
Qed.

Section Views.
Context (home uuid : string) (rfc3339 : u64 -> string).
Notation "'packet'" := (packet home uuid rfc3339) (only parsing).

Lemma packet_view g now code decision run action mode reason uc ac :
  consistent mode uc ac = true ->
  View (packet g now code decision run action mode reason uc ac)
    code decision run action mode uc ac.
Proof.
  intros H. unfold Decision.packet. rewrite apply_arbitration_consistent.
  - constructor; try reflexivity. by apply consistent_no_errors.
  - by apply consistent_no_errors.
Qed.

(** The fields a step writes after [packet] are not those of the view. *)
Lemma view_status p c d r x m uc ac s :
  View p c d r x m uc ac -> View (p <| pk_status := s |>) c d r x m uc ac.
Proof. by intros []. Qed.
Lemma view_ok p c d r x m uc ac b :
  View p c d r x m uc ac -> View (p <| pk_ok := b |>) c d r x m uc ac.
Proof. by intros []. Qed.
Lemma view_state p c d r x m uc ac s :
  View p c d r x m uc ac -> View (p <| pk_state := s |>) c d r x m uc ac.
Proof. by intros []. Qed.
Lemma view_hint p c d r x m uc ac f :
  View p c d r x m uc ac -> View (p <| pk_scheduler_hint ::= f |>) c d r x m uc ac.
Proof. by intros []. Qed.
Lemma view_closure p c d r x m uc ac k :
  View p c d r x m uc ac -> View (p <| pk_terminal_closure := k |>) c d r x m uc ac.
Proof. by intros []. Qed.

Ltac follow code := exists code; eexists _, _; split; [simpl; tauto|]; split;
  [|repeat first [apply view_status|apply view_ok|apply view_state|apply view_hint
                 |apply view_closure]; apply packet_view].
Ltac governs := apply governs_intro;
  [simpl; first [done|by apply negb_true_iff]
  |intros s' Hlt; destruct s'; simpl in Hlt; try lia; simpl;
   first [assumption|by apply negb_false_iff|by rewrite ?negb_false_iff]].

Lemma decide_idle_follows g a now :
  guardb g a now SCancelled = false -> guardb g a now SUnregistered = false ->
  guardb g a now SGate = false -> guardb g a now SRunnable = false ->
  exists s, Governs g a now s /\ Follows g a now s (decide_idle home uuid rfc3339 g now).
Proof.
  intros H0 H1 H2 H3. unfold decide_idle.
  destruct (negb (is_empty (open_of_at g Blocker now))) eqn:H4.
  { exists SBlocker. split; [governs|]. by follow BlockedNoFallback. }
  destruct (negb (is_empty (completed_without_closure_intent g))) eqn:H5.
  { exists SSuccession. split; [governs|]. by follow SuccessionClosureMissing. }
  pose proof (monitor_outcome_spec g now) as Hm.
  destruct (monitor_outcome g now) as [m|l|ms|]; cbn [monitor_packet].
  { exists SStalled. split; [governs|]. by follow MonitorStalled. }
  { destruct Hm as (H6 & H7 & t & rest & -> & Hact & Hdue).
    exists SDue. split; [governs|]. follow MonitorDue; [|done]. split; [done|].
    by exists t. }
  { destruct Hm as (H6 & H7 & H8). exists SBackoff. split; [governs|]. by follow MonitorBackoff. }
  assert (open_monitors_at g now = []) as Hnil by (by apply is_empty_true).
  assert (H6 : guardb g a now SStalled = false) by (simpl; by rewrite Hnil).
  assert (H7 : guardb g a now SDue = false) by (simpl; by rewrite Hnil).
  assert (H8 : guardb g a now SBackoff = false) by (simpl; by rewrite Hnil).
  clear Hm Hnil.
  destruct (negb (is_empty (unsatisfied_gaps g))) eqn:H9.
  { exists SAcceptance. split; [governs|]. by follow AcceptanceGapOpen. }
  destruct (existsb (pending_deferred now) (g_todos g)) eqn:H10.
  { exists SDeferred. split; [governs|]. by follow DeferredNotDue. }
  destruct (existsb (fun t => class_is (td_class t) Advancement && active_at now t) (g_todos g))
    eqn:H11.
  { exists SHeld. split; [governs|]. by follow WorkLeasedToOthers. }
  unfold closure_packet. cbn [terminal_judgement_at tj_terminal].
  rewrite terminal_gaps_empty. destruct (is_terminal g) eqn:H12; cbn [negb].
  - exists SClosed. split; [governs|]. by follow ValidatedClosure.
  - exists SResidue. split; [governs|]. by follow AcceptanceGapOpen.
Qed.

Lemma decide_follows g a now :
  exists s, Governs g a now s /\ Follows g a now s (decide_for home uuid rfc3339 g now a).
Proof.
  unfold decide_for.
  destruct (g_status g =?s "cancelled") eqn:H0.
  { exists SCancelled. split; [governs|]. by follow GoalCancelledCode. }
  unfold identity_gate. destruct (is_registered_agent g a) eqn:H1; cbv zeta beta iota.
  2: { exists SUnregistered. split; [governs|]. by follow IdentityNotRegistered. }
  destruct (negb (is_empty (open_gates_at g now))) eqn:H2.
  { exists SGate. split; [governs|]. follow OpenUserGate.
    - split; [done|]. split; [done|]. by destruct (sorted_runnable_at g a now).
    - by destruct (sorted_runnable_at g a now). }
  destruct (sorted_runnable_at g a now) as [|t rest] eqn:H3.
  { apply decide_idle_follows; simpl; [done|by rewrite H1|done|by rewrite H3]. }
  exists SRunnable. split.
  { apply governs_intro; [simpl; by rewrite H3|].
    intros s' Hlt. destruct s'; simpl in Hlt; try lia; simpl; [done|by rewrite H1|done]. }
  unfold delivery_packet.
  set (uc := if is_empty (open_of_at g UserAction now) then _ else _).
  assert (Huc : Channels g a now SRunnable uc
            (agent_channel (Some (td_text t)) (Some (td_id t)) None true true false)).
  { unfold uc. simpl. rewrite H3.
    destruct (open_of_at g UserAction now); repeat split; by exists t, rest. }
  destruct (1 <? u32_add (td_failed_attempts t) 1).
  - exists RepairAttempt, uc. eexists. split; [simpl; tauto|]. split; [exact Huc|].
    by apply packet_view.
  - exists RunnableTodo, uc. eexists. split; [simpl; tauto|]. split; [exact Huc|].
    by apply packet_view.
Qed.
End Views.

(** * The theorems *)
Section Theorems.
Context (home uuid : string) (rfc3339 : u64 -> string).
Notation "'run_decision'" := (decide_for home uuid rfc3339) (only parsing).

(** C1: the decision kernel refines the ordered decision table: for every
    goal, clock and agent exactly one step governs - the first whose guard
    holds - and the packet carries that step's reason code, decision, action,
    mode and channels. *)
Theorem decision_refines_table g a now :
  exists s, Governs g a now s
    /\ (forall s', Governs g a now s' -> s' = s)
    /\ Follows g a now s (run_decision g now a).
Proof.
  destruct (decide_follows home uuid rfc3339 g a now) as (s & Hg & Hf).
  exists s. split; [done|]. split; [|done]. intros s' Hs'. by eapply governs_unique.
Qed.

Lemma closed_only_closed g a now s :
  ClosedGoal g -> guard g a now s -> s = SCancelled \/ s = SUnregistered \/ s = SClosed.
Proof.
  intros Hc. assert (Hna : forall t, In t (g_todos g) -> ~ Active now t).
  { intros t Hin Hact. by apply (active_not_closed _ _ Hact), (cg_todos g Hc). }
  destruct s; simpl; try tauto.
  - intros (t & ? & ? & ?). by destruct (Hna t).
  - intros (t & []). by destruct (Hna t).
  - intros (t & ? & ? & ?). by destruct (Hna t).
  - intros (t & Hin & ? & ? & Hs & Hn). destruct (cg_intent g Hc t); congruence.
  - intros (t & (? & ? & ?) & ?). by destruct (Hna t).
  - intros (t & d & (? & ? & ?) & ?). by destruct (Hna t).
  - intros (t & ? & ? & ?). by destruct (Hna t).
  - intros (x & Hin & Hx). rewrite (cg_gaps g Hc x Hin) in Hx. done.
  - intros (t & Hin & Hs & _). destruct (cg_todos g Hc t Hin); congruence.
  - intros (t & ? & ? & ?). by destruct (Hna t).
Qed.

(** C14: automation is allowed to stop - the Terminal mode, the pause flag -
    exactly when the goal is cancelled, or when the caller is a registered
    agent (or anonymous) and the goal is closed: nothing pending, every
    acceptance condition met, every finished advancement's closure declared
    and proven. *)
Theorem automation_stops_iff_closed g a now :
  al_pause_allowed (pk_automation_liveness (run_decision g now a)) = true <->
  g_status g = "cancelled"
  \/ ((forall id, a = Some id -> In id (g_registered_agents g)) /\ ClosedGoal g).
Proof.
  destruct (decide_follows home uuid rfc3339 g a now) as (s & [Hg Hmin] & code & uc & ac & _ & _ & V).
  rewrite (vw_pause _ _ _ _ _ _ _ _ V). unfold mode_is. rewrite bool_decide_eq_true. split.
  - destruct s; try done; intros _; [by left|right]. split.
    + intros id ->. destruct (is_registered_agent g (Some id)) eqn:E.
      * simpl in E. apply List.existsb_exists in E as (x & Hin & Hx). by bool_prop; subst.
      * destruct (Hmin SUnregistered); [simpl; lia|]. by apply registered_false.
    + apply is_terminal_closed. destruct (is_terminal g) eqn:E; [done|].
      destruct (Hmin SResidue); [simpl; lia|]. simpl. by rewrite <- is_terminal_closed, E.
  - intros [Hc|[Hreg Hc]].
    + destruct s; try done; destruct (Hmin SCancelled); simpl; (lia || done).
    + destruct (closed_only_closed g a now s Hc Hg) as [->|[->| ->]]; [done| |done].
      destruct Hg as (id & -> & Hn). by destruct Hn; apply Hreg.
Qed.

(** What a delivery names: the frontier's first todo of the best priority, or
    a due monitor. *)
Definition BestRunnable (g : Goal) (a : option string) (now : SystemTime) (t : Todo) : Prop :=
  Runnable g a now t
  /\ (forall u, Runnable g a now u -> priority_rank (td_priority t) <= priority_rank (td_priority u))
  /\ exists rest, List.filter (fun u => todo_rank u =? todo_rank t)
                    (runnable_advancement_for_at g a now) = t :: rest.

Lemma sorted_head_best g a now t rest :
  sorted_runnable_at g a now = t :: rest -> BestRunnable g a now t.
Proof.
  intros H. apply sort_by_key_head in H as (Hin & Hle & Hfirst). split; [by apply in_runnable|].
  split; [|done]. intros u Hu. apply Hle. by apply in_runnable.
Qed.

(** C18: a packet that allows delivery names its work: the todo it selects (or,
    while a gate is open, the fallback) is the one of the agent's frontier
    with the best priority, the earliest in the ledger among equals; or it is
    an active monitor whose poll is due.  A packet that names a todo demands
    an attempt. *)
Theorem delivery_names_authorised_work g a now :
  let ac := ic_agent_channel (pk_interaction_contract (run_decision g now a)) in
  (ac_delivery_allowed ac = true ->
     exists t, (ac_selected_todo ac = Some (td_id t) \/ ac_fallback_todo ac = Some (td_id t))
       /\ ac_primary_action ac = Some (td_text t)
       /\ (BestRunnable g a now t \/ (ActiveOf g now Monitor t /\ monitor_due now t)))
  /\ (ac_selected_todo ac <> None \/ ac_fallback_todo ac <> None ->
        ac_must_attempt ac = true /\ ac_delivery_allowed ac = true).
Proof.
  intros ac. destruct (decide_follows home uuid rfc3339 g a now) as (s & _ & code & uc & ac' & _ & Hc & V).
  assert (E : ac = ac') by exact (vw_agent _ _ _ _ _ _ _ _ V). rewrite E. clearbody ac. clear V E ac.
  destruct s; simpl in Hc; try (destruct Hc as [_ ->]; simpl; split; [done|by intros [?|?]]).
  - destruct Hc as (_ & _ & Hc). destruct (sorted_runnable_at g a now) as [|t rest] eqn:Es; subst ac'.
    + simpl. split; [done|by intros [?|?]].
    + simpl. split; [|done]. intros _. exists t. apply sorted_head_best in Es. auto.
  - destruct Hc as (_ & _ & t & rest & Es & ->). simpl. split; [|done]. intros _. exists t.
    apply sorted_head_best in Es. auto.
  - destruct Hc as (_ & t & ? & ? & ->). simpl. split; [|done]. intros _. exists t. auto.
Qed.

Definition expected_disposition (mode : TurnMode) (fallback : bool) : SchedulerDisposition :=
  match mode with
  | Terminal => TerminalStop
  | WaitMonitor => MonitorWait
  | AskUser => if fallback then ActiveWork else HumanGate
  | BoundedDelivery | MonitorPoll | Replan => ActiveWork
  end.

(** Every packet's arbitration is consistent: no contract error is ever
    raised, the repair rewrite never fires, and the scheduler's disposition is
    the one its mode calls for - an open gate reaches a human exactly when
    nothing else is runnable. *)
Theorem arbitration_always_consistent g a now :
  let p := run_decision g now a in
  let c := pk_interaction_contract p in
  exists arb, pk_scheduler_arbitration p = Some arb
    /\ arbitration_ok arb = true /\ consistency_error arb = None
    /\ sa_disposition arb = expected_disposition (ic_mode c) (ac_must_attempt (ic_agent_channel c)).
Proof.
  intros p c. destruct (decide_follows home uuid rfc3339 g a now)
    as (s & _ & code & uc & ac & _ & Hc & V).
  exists (build_scheduler_arbitration c []). split; [apply (vw_arbitration _ _ _ _ _ _ _ _ V)|].
  destruct (no_errors_not_repair _ (vw_errors _ _ _ _ _ _ _ _ V)) as [He Hd].
  unfold consistency_error, arbitration_ok. fold p c in He, Hd. rewrite He. split; [done|].
  split; [done|]. rewrite Hd. unfold c, p.
  rewrite (vw_mode _ _ _ _ _ _ _ _ V), (vw_user _ _ _ _ _ _ _ _ V), (vw_agent _ _ _ _ _ _ _ _ V).
  destruct s; simpl in Hc |- *; try (by destruct Hc as [-> ->]).
  - destruct Hc as (-> & _ & Hc). by destruct (sorted_runnable_at g a now); subst ac.
  - destruct Hc as (_ & _ & t & rest & _ & ->). by destruct (uc_action_required uc).
  - by destruct Hc as (-> & t & _ & _ & ->).
Qed.

(** Past every earlier step an active todo is a user action or coordination. *)
Lemma residue_active g a now t :
  Governs g a now SResidue -> In t (g_todos g) -> Active now t ->
  td_class t = UserAction \/ td_class t = Coordination.
Proof.
  intros [_ Hmin] Hin Hact.
  assert (Hno : forall s, (rank s < rank SResidue)%nat -> guard g a now s -> False)
    by (intros s H1 H2; by apply (Hmin s H1)).
  destruct (td_class t) eqn:Ec; [| |by left| | |by right]; exfalso.
  - apply (Hno SHeld); [simpl; lia|by exists t].
  - apply (Hno SGate); [simpl; lia|by exists t].
  - apply (Hno SBackoff); [simpl; lia|by exists t].
  - apply (Hno SBlocker); [simpl; lia|by exists t].
Qed.

Lemma residue_pending g a now t :
  Governs g a now SResidue -> In t (g_todos g) -> ~ Closed t ->
  td_status t = Blocked
  \/ (Active now t /\ (td_class t = UserAction \/ td_class t = Coordination)).
Proof.
  intros Hr Hin Ht. assert (td_status t = Blocked \/ Active now t) as [H|H]; [|by left|].
  - destruct (active_at now t) eqn:Ea; [right; by apply active_at_true|].
    apply not_true_iff_false in Ea. rewrite active_at_true in Ea.
    unfold Closed in Ht. destruct (td_status t) eqn:Est; try tauto; exfalso.
    + apply Ea. by left.
    + destruct Hr as [_ Hmin]. destruct (Hmin SDeferred); [simpl; lia|by exists t].
  - right. split; [done|]. by eapply residue_active.
Qed.

Lemma not_terminal_reason g :
  is_terminal g = false ->
  (exists t, In t (g_todos g) /\ ~ Closed t) \/ negb (is_empty (unsatisfied_gaps g)) = true
  \/ negb (is_empty (completed_without_closure_intent g)) = true
  \/ exists t, In t (unvalidated_deliveries g).
Proof.
  unfold is_terminal. rewrite !andb_false_iff. intros [[[H|H]|H]|H].
  - left. assert (existsb not_done (g_todos g) = true) as Hex.
    { apply not_false_iff_true. intros E. rewrite existsb_false in E.
      apply not_true_iff_false in H. apply H, List.forallb_forall. intros t Hin.
      by apply negb_false_iff, E. }
    apply List.existsb_exists in Hex as (t & ? & Ht). exists t. split; [done|].
    by apply closed_status_false, negb_true_iff.
  - right; left. by rewrite H.
  - right; right; left. by rewrite H.
  - right; right; right. apply not_empty_exists. by rewrite H.
Qed.

(** The closing branch that decision/mod.rs calls defensive is reachable.
    What reaches it is a todo in the Blocked status, an active user action or
    coordination todo, or a finished delivery nothing has proven; the packet
    then asks for a replan. *)
Theorem closing_residue g a now :
  Governs g a now SResidue ->
  pk_reason_code (run_decision g now a) = "acceptance_gap_open"
  /\ ((exists t, In t (g_todos g) /\ td_status t = Blocked)
      \/ (exists t, In t (g_todos g) /\ Active now t
            /\ (td_class t = UserAction \/ td_class t = Coordination))
      \/ (exists t, In t (g_todos g) /\ td_class t = Advancement /\ td_status t = Done
            /\ is_Some (td_validator t) /\ ~ PassedReceipt g (td_id t)
            /\ ~ DeliveryVerified g (td_id t))).
Proof.
  intros Hr. pose proof Hr as [Hres Hmin]. split.
  { destruct (decide_follows home uuid rfc3339 g a now) as (s & Hg & code & uc & ac & Hin & _ & V).
    rewrite (governs_unique _ _ _ _ _ Hg Hr) in Hin. destruct Hin as [<-|[]].
    apply (vw_code _ _ _ _ _ _ _ _ V). }
  simpl in Hres. rewrite <- is_terminal_closed in Hres. apply not_true_iff_false in Hres.
  destruct (not_terminal_reason g Hres) as [(t & Hin & Ht)|[H|[H|(t & Ht)]]].
  - destruct (residue_pending g a now t Hr Hin Ht) as [?|[? ?]]; [left|right; left]; by exists t.
  - destruct (Hmin SAcceptance); [simpl; lia|]. by apply guardb_true.
  - destruct (Hmin SSuccession); [simpl; lia|]. by apply guardb_true.
  - right; right. exists t. apply List.filter_In in Ht as [Hin Ht].
    split; [done|]. by apply unvalidated_true.
Qed.
End Theorems.

Lemma closing_residue_witness :
  let g := add ((advancement 0 "T1" "x") <| td_status := Blocked |>) (goal_new 0 "g" "o" "/tmp") in
  Governs g None 0 SResidue
  /\ pk_reason_code (decide_for "" "" show g 0 None) = "acceptance_gap_open".
Proof.
  cbv zeta.
  assert (H : Governs (add ((advancement 0 "T1" "x") <| td_status := Blocked |>)
                        (goal_new 0 "g" "o" "/tmp")) None 0 SResidue).
  { apply governs_intro; [vm_compute; reflexivity|].
    intros s' Hlt. destruct s'; simpl in Hlt; try lia; vm_compute; reflexivity. }
  split; [exact H|]. apply (closing_residue "" "" show _ None 0 H).
Defined.
