(* ===== verification/Ledger.v ===== *)
(** The event ledger (store.rs, quota/decision_summary.rs, agents/control.rs,
    agent_client.rs:59): the events with every field of the source, the fold
    [apply] that rebuilds a goal from them, [replay], the projection gap check
    and the read models over the raw events. *)
From S2P Require Import Prelude Cadence Todos GoalState Contract Signals GoalFrontier.

(** * Events *)
(** quota/decision_summary.rs *)
Record DecisionSummary := mkDecisionSummary {
  dsm_schema_version : string;
  dsm_goal_id : string;
  dsm_agent_id : option string;
  dsm_decision : string;
  dsm_should_run : bool;
  dsm_effective_action : string;
  dsm_reason_code : string;
  dsm_mode : string;
  dsm_state : string;
  dsm_selected_todo : option string;
  dsm_spent_slots : u64;
  dsm_allowed_slots : u64;
  dsm_normal_delivery_allowed : bool;
  dsm_recovery_delivery_allowed : bool;
  dsm_self_repair_allowed : bool;
  dsm_safe_bypass_allowed : bool;
  dsm_safe_bypass_kind : option string;
  dsm_blocked_action_scope : option string;
  dsm_turn : u32
}.
Definition DECISION_SUMMARY_SCHEMA_VERSION : string := "quota_decision_summary_v0".

(** agents/control.rs *)
Record Instruction := mkInstruction {
  in_id : string; in_agent_id : option string; in_text : string; in_interrupt : bool
}.

Inductive Event :=
| GoalStarted (goal_id : string) (ts : u64)
| TodoAdded (goal_id : string) (todo : Todo) (ts : u64)
| TodoCompleted (goal_id todo_id : string) (no_follow_up : bool) (successor_ids : list string)
    (evidence : option string) (ts : u64)
| TodoSuperseded (goal_id todo_id : string) (ts : u64)
| TodoUpdated (goal_id todo_id : string)
    (text status evidence note priority resume_when : option string)
    (blocks : option (list string)) (acceptance owner : option string)
    (resume_at_ms : option u64) (ts : u64)
| GoalCancelled (goal_id reason : string) (ts : u64)
| GateResolved (goal_id todo_id decision : string) (note : option string) (ts : u64)
| GapSatisfied (goal_id gap_id : string) (ts : u64)
| RunRecorded (goal_id : string) (record : RunRecord) (ts : u64)
| TodoClaimed (goal_id todo_id agent_id : string) (lease_expires_at : u64)
    (holder_pid : option u32) (ts : u64)
| AgentRegistered (goal_id agent_id : string) (workspaces : list string) (ts : u64)
| AgentOnboarded (goal_id agent_id : string) (capabilities workspaces : list string) (ts : u64)
| WorkerSessionBound (goal_id agent_id session_id : string) (ts : u64)
| WorkspaceLockAcquired (goal_id agent_id todo_id : string) (paths : list string)
    (forced : bool) (ts : u64)
| ReplanAcked (goal_id : string) (delta_kinds : list string) (ts : u64)
| ProfileSet (goal_id : string) (outcome_floor_streak_threshold : u32) (ts : u64)
| AuthoritySet (goal_id : string) (write_scope requires_approval : list string) (ts : u64)
| TodoArchived (goal_id todo_id : string) (ts : u64)
| MonitorPolled (goal_id todo_id result : string) (no_change_count : u32) (ts : u64)
| TurnNoProgress (goal_id todo_id : string) (agent_id : option string) (idle_secs : u64)
    (tool_calls_total : u32) (ts : u64)
| QuotaSpent (goal_id run_id todo_id source : string) (slots : u32) (ts : u64)
| EvidenceAttached (goal_id todo_id evidence : string) (ts : u64)
| TodoRenewed (goal_id todo_id agent_id : string) (lease_expires_at ts : u64)
| TodoReleased (goal_id todo_id agent_id : string) (ts : u64)
| TodoExpired (goal_id todo_id : string) (ts : u64)
| DeliveryOutcomeRecorded (goal_id todo_id outcome : string) (note : option string)
    (delivered_turn seq : u32) (ts : u64)
| ProgressReported (goal_id agent_id todo_id message : string) (ts : u64)
| SupervisorNote (goal_id todo_id note_kind message dedup_key : string) (ts : u64)
| FollowthroughCreated (goal_id source_todo_id followup_todo_id : string)
    (turns_overdue : u32) (ts : u64)
| DecisionSummaryRecorded (goal_id : string) (summary : DecisionSummary) (ts : u64)
| HeartbeatReceiptRecorded (goal_id : string) (agent_id : option string)
    (turn_instance_id : string) (todo_id : option string) (decision reason_code : string)
    (ts : u64)
| SchedulerAcked (goal_id agent_id action cadence_class : string) (rrule : option string)
    (source : string) (ts : u64)
| SchedulerTicked (goal_id agent_id action : string) (rrule : option string) (ts : u64)
| AutomationLivenessAlert (goal_id agent_id : string) (elapsed_secs threshold_secs : u64)
    (consecutive : u32) (ts : u64)
| ProjectionRepaired (goal_id projection : string)
    (drift_count missing_rows stale_rows duplicate_rows rows_written : usize)
    (backup_path : string) (ts : u64)
| ReplanRuleSetUpdated (goal_id rule_set_version : string) (rule_ids : list string) (ts : u64)
| SupervisorRegistered (goal_id session_id : string) (ts : u64)
| WorkerSteered (goal_id : string) (agent_id : option string) (instruction : string) (ts : u64)
| SteerConsumed (goal_id : string) (agent_id : option string) (steer_ts ts : u64)
| ControlIssued (goal_id : string) (instruction : Instruction) (ts : u64)
| ControlAcknowledged (goal_id instruction_id : string) (agent_id : option string) (ts : u64)
| SupervisorBatchPrepared (goal_id batch_id session_id : string) (note_keys : list string)
    (message : string) (ts : u64)
| SupervisorBatchDelivered (goal_id batch_id : string) (ts : u64)
| WorkerStopped (goal_id : string) (agent_id : option string) (ts : u64).

(** [event.goal_id()] *)
Definition goal_id (e : Event) : string :=
  match e with
  | GoalStarted x _ | TodoAdded x _ _ | TodoCompleted x _ _ _ _ _ | TodoSuperseded x _ _
  | TodoUpdated x _ _ _ _ _ _ _ _ _ _ _ _ | GoalCancelled x _ _ | GateResolved x _ _ _ _
  | GapSatisfied x _ _ | RunRecorded x _ _ | TodoClaimed x _ _ _ _ _ | AgentRegistered x _ _ _
  | AgentOnboarded x _ _ _ _ | WorkerSessionBound x _ _ _ | WorkspaceLockAcquired x _ _ _ _ _
  | ReplanAcked x _ _ | ProfileSet x _ _ | AuthoritySet x _ _ _ | TodoArchived x _ _
  | MonitorPolled x _ _ _ _ | TurnNoProgress x _ _ _ _ _ | QuotaSpent x _ _ _ _ _
  | EvidenceAttached x _ _ _ | TodoRenewed x _ _ _ _ | TodoReleased x _ _ _ | TodoExpired x _ _
  | DeliveryOutcomeRecorded x _ _ _ _ _ _ | ProgressReported x _ _ _ _
  | SupervisorNote x _ _ _ _ _ | FollowthroughCreated x _ _ _ _ | DecisionSummaryRecorded x _ _
  | HeartbeatReceiptRecorded x _ _ _ _ _ _ | SchedulerAcked x _ _ _ _ _ _
  | SchedulerTicked x _ _ _ _ | AutomationLivenessAlert x _ _ _ _ _
  | ProjectionRepaired x _ _ _ _ _ _ _ _ | ReplanRuleSetUpdated x _ _ _
  | SupervisorRegistered x _ _ | WorkerSteered x _ _ _ | SteerConsumed x _ _ _
  | ControlIssued x _ _ | ControlAcknowledged x _ _ _ | SupervisorBatchPrepared x _ _ _ _ _
  | SupervisorBatchDelivered x _ _ | WorkerStopped x _ _ => x
  end.

(** [event_ts]: the [ts] field every variant carries. *)
Definition event_ts (e : Event) : u64 :=
  match e with
  | GoalStarted _ ts | TodoAdded _ _ ts | TodoCompleted _ _ _ _ _ ts | TodoSuperseded _ _ ts
  | TodoUpdated _ _ _ _ _ _ _ _ _ _ _ _ ts | GoalCancelled _ _ ts | GateResolved _ _ _ _ ts
  | GapSatisfied _ _ ts | RunRecorded _ _ ts | TodoClaimed _ _ _ _ _ ts
  | AgentRegistered _ _ _ ts | AgentOnboarded _ _ _ _ ts | WorkerSessionBound _ _ _ ts
  | WorkspaceLockAcquired _ _ _ _ _ ts | ReplanAcked _ _ ts | ProfileSet _ _ ts
  | AuthoritySet _ _ _ ts | TodoArchived _ _ ts | MonitorPolled _ _ _ _ ts
  | TurnNoProgress _ _ _ _ _ ts | QuotaSpent _ _ _ _ _ ts | EvidenceAttached _ _ _ ts
  | TodoRenewed _ _ _ _ ts | TodoReleased _ _ _ ts | TodoExpired _ _ ts
  | DeliveryOutcomeRecorded _ _ _ _ _ _ ts | ProgressReported _ _ _ _ ts
  | SupervisorNote _ _ _ _ _ ts | FollowthroughCreated _ _ _ _ ts
  | DecisionSummaryRecorded _ _ ts | HeartbeatReceiptRecorded _ _ _ _ _ _ ts
  | SchedulerAcked _ _ _ _ _ _ ts | SchedulerTicked _ _ _ _ ts
  | AutomationLivenessAlert _ _ _ _ _ ts | ProjectionRepaired _ _ _ _ _ _ _ _ ts
  | ReplanRuleSetUpdated _ _ _ ts | SupervisorRegistered _ _ ts | WorkerSteered _ _ _ ts
  | SteerConsumed _ _ _ ts | ControlIssued _ _ ts | ControlAcknowledged _ _ _ ts
  | SupervisorBatchPrepared _ _ _ _ _ ts | SupervisorBatchDelivered _ _ ts
  | WorkerStopped _ _ ts => ts
  end.

(** * The arms of [apply] *)
(** agent_client.rs:59 *)
Definition is_write_class_tool (name : string) : bool := (name =?s "write") || (name =?s "edit").

Definition mark_frontier (ts : u64) (g : Goal) : Goal :=
  g <| g_frontier_change_ts ::= (fun l => l ++ [ts]) |>.

Definition apply_todo_added (t : Todo) (ts : u64) (g : Goal) : Goal :=
  let g :=
    if td_index t =? 0 then
      let n := u32_add (g_next_index g) 1 in
      g <| g_next_index := n |> <| g_todos ::= (fun l => l ++ [t <| td_index := n |>]) |>
    else g <| g_todos ::= (fun l => l ++ [t]) |> in
  mark_frontier ts g.

Definition completion_summary (no_follow_up : bool) (successor_ids : list string) : string :=
  if no_follow_up then "no-follow-up"
  else if negb (is_empty successor_ids) then "successor " +:+ join "," successor_ids
  else "completed".

Definition completed_todo (now : SystemTime) (no_follow_up : bool) (successor_ids : list string)
    (evidence : option string) (ts : u64) (t : Todo) : Todo :=
  if status_is (td_status t) Superseded then t
  else
    let t := (complete now no_follow_up successor_ids t)
               <| td_completed_at := Some ts |> <| td_updated_at := ts |> in
    match evidence with Some e => t <| td_evidence := Some e |> | None => t end.

Definition apply_todo_completed (now : SystemTime) (todo_id : string) (no_follow_up : bool)
    (successor_ids : list string) (evidence : option string) (ts : u64) (g : Goal) : Goal :=
  record_semantic_event KIND_TODO_COMPLETED (Some todo_id)
    (completion_summary no_follow_up successor_ids) ts
    (mark_frontier ts
       (update_todo todo_id (completed_todo now no_follow_up successor_ids evidence ts) g)).

(** [if let Some(x) = v { f(x) }] over a todo. *)
Definition when {A} (v : option A) (f : A -> Todo -> Todo) (t : Todo) : Todo :=
  match v with Some x => f x t | None => t end.

Definition non_blank (s : string) : option string := if is_blank s then None else Some s.

Definition parse_priority (p : string) : Priority :=
  let p := to_uppercase p in
  if p =?s "P0" then P0 else if p =?s "P2" then P2 else P1.

(** The instant a deferral was resolved to when its event was written. *)
Definition deferral_instant (resume_when : string) (resume_at_ms : option u64) (ts : u64)
  : option SystemTime :=
  match resume_at_ms with
  | Some at_ms => Some (epoch_millis_as_time at_ms)
  | None =>
      match strip_prefix "defer:" resume_when with
      | Some s =>
          match parse_u64 s with
          | Some secs => Some (epoch_millis_as_time
                                 (u64_sat_add (u64_sat_mul ts 1000) (u64_sat_mul secs 1000)))
          | None => None
          end
      | None => None
      end
  end.

Definition apply_status (st : string) (t : Todo) : Todo :=
  if st =?s "open" then t <| td_status := Open |>
  else if st =?s "blocked" then t <| td_status := Blocked |>
  else if st =?s "deferred" then t <| td_status := Deferred |>
  else if st =?s "superseded" then t <| td_status := Superseded |>
  else t.

Definition updated_todo (text status evidence note priority resume_when : option string)
    (blocks : option (list string)) (acceptance owner : option string)
    (resume_at_ms : option u64) (ts : u64) (t : Todo) : Todo :=
  let t := when text (fun x t => t <| td_text := x |>) t in
  let t := when owner (fun o t => t <| td_owner := non_blank o |>) t in
  let t := when evidence (fun x t => t <| td_evidence := Some x |>) t in
  let t := when note (fun x t => t <| td_note := Some x |>) t in
  let t := when acceptance (fun a t => t <| td_acceptance := non_blank a |>) t in
  let t := when blocks (fun b t =>
             t <| td_blocked_by_gate := if is_empty b then None else Some (join "," b) |>) t in
  let t := when priority (fun p t => t <| td_priority := parse_priority p |>) t in
  let t := when resume_when (fun rw t =>
             let t := t <| td_resume_when_text := Some rw |> <| td_status := Deferred |> in
             match deferral_instant rw resume_at_ms ts with
             | Some i => t <| td_resume_when := Some i |>
             | None => t
             end) t in
  let t := when status apply_status t in
  t <| td_updated_at := ts |>.

Definition resolved_gate (decision : string) (note : option string) (ts : u64) (t : Todo) : Todo :=
  when note (fun n t => t <| td_note := Some n |>)
    (t <| td_status := Done |> <| td_decision := Some decision |>
       <| td_completed_at := Some ts |> <| td_updated_at := ts |>).

Definition run_summary (r : RunRecord) : string :=
  if is_blank (rr_evidence r) then rr_terminal_state r
  else rr_terminal_state r +:+ " — " +:+ truncate (rr_evidence r) 120.

Definition apply_run_recorded (record : RunRecord) (ts : u64) (g : Goal) : Goal :=
  let g := record_semantic_event KIND_RUN_LANDED (Some (rr_todo_id record))
             (run_summary record) ts g in
  if existsb is_write_class_tool (rr_tools record) then
    g <| g_turn_no_progress ::=
          List.filter (fun np => negb (np_todo_id np =?s rr_todo_id record)) |>
  else g.

Definition claimed_todo (agent_id : string) (lease_expires_at : u64) (holder_pid : option u32)
    (t : Todo) : Todo :=
  t <| td_claimed_by := Some agent_id |>
    <| td_lease_expires_at := Some lease_expires_at |>
    <| td_holder_pid := holder_pid |>.

Definition apply_replan_acked (delta_kinds : list string) (ts : u64) (g : Goal) : Goal :=
  let ack := {| ra_recorded := true; ra_delta_kinds := delta_kinds; ra_at := ts |} in
  let g := g <| g_replan_ack := Some ack |> in
  let g := if has_frontier_delta ack then mark_frontier ts g else g in
  record_semantic_event KIND_REPLAN_ACKED None ("delta kinds: " +:+ join "," delta_kinds) ts g.

Definition polled_monitor (result : string) (no_change_count : u32) (ts : u64) (m : Todo) : Todo :=
  let m :=
    if result =?s "changed" then
      m <| td_consecutive_no_change := 0 |> <| td_status := Done |>
    else
      m <| td_consecutive_no_change := no_change_count |>
        <| td_resume_when :=
             Some (epoch_secs_as_time (next_poll_due_epoch ts (td_monitor_cadence m))) |> in
  m <| td_updated_at := ts |>.

Definition renewed_todo (agent_id : string) (lease_expires_at ts : u64) (t : Todo) : Todo :=
  let t := match td_claimed_by t with
           | None => t <| td_claimed_by := Some agent_id |>
           | Some _ => t
           end in
  t <| td_lease_expires_at := Some lease_expires_at |> <| td_updated_at := ts |>.

Definition cleared_lease (ts : u64) (t : Todo) : Todo :=
  t <| td_claimed_by := None |> <| td_lease_expires_at := None |> <| td_updated_at := ts |>.
Definition released_todo (agent_id : string) (ts : u64) (t : Todo) : Todo :=
  if bool_decide (td_claimed_by t = Some agent_id) then cleared_lease ts t else t.
Definition expired_todo (ts : u64) (t : Todo) : Todo :=
  match td_claimed_by t with Some _ => cleared_lease ts t | None => t end.

Definition apply_turn_no_progress (np : TurnNoProgressRecord) (ts : u64) (g : Goal) : Goal :=
  record_semantic_event KIND_TURN_NO_PROGRESS None
    (show (np_idle_secs np) +:+ "s idle after " +:+ show (np_tool_calls_total np) +:+ " tool calls")
    ts (g <| g_turn_no_progress ::= (fun l => l ++ [np]) |>).

Definition apply_rule_set (version : string) (rule_ids : list string) (ts : u64) (g : Goal) : Goal :=
  record_semantic_event KIND_REPLAN_ACKED None "replan rule set updated" ts
    (g <| g_replan_rule_set :=
           if is_empty rule_ids then None
           else Some {| rs_schema_version := version; rs_rule_ids := rule_ids |} |>).

Definition same_episode (g : Goal) (agent_id : option string) (steer_ts : u64) : bool :=
  match g_pending_steer g with
  | Some s => (si_ts s =? steer_ts) && bool_decide (si_agent_id s = agent_id)
  | None => false
  end.

(** [apply].  [now] is the clock [Todo::complete] and [Todo::archive] read. *)
Definition apply (now : SystemTime) (e : Event) (g : Goal) : Goal :=
  match e with
  | GoalStarted _ ts => g <| g_created_at := ts |>
  | TodoAdded _ t ts => apply_todo_added t ts g
  | TodoCompleted _ id nf succ ev ts => apply_todo_completed now id nf succ ev ts g
  | TodoSuperseded _ id ts =>
      record_semantic_event KIND_TODO_SUPERSEDED (Some id) "superseded" ts
        (mark_frontier ts (supersede id g))
  | TodoUpdated _ id text status ev note prio rw blocks acc owner at_ms ts =>
      update_todo id (updated_todo text status ev note prio rw blocks acc owner at_ms ts) g
  | GoalCancelled _ _ _ => g <| g_status := "cancelled" |>
  | GateResolved _ id decision note ts =>
      record_semantic_event KIND_GATE_RESOLVED (Some id) "gate resolved" ts
        (mark_frontier ts (update_todo id (resolved_gate decision note ts) g))
  | GapSatisfied _ id ts =>
      record_semantic_event KIND_ACCEPTANCE_GAP_SATISFIED None
        ("acceptance gap " +:+ id +:+ " satisfied") ts (satisfy_gap id g)
  | RunRecorded _ r ts => apply_run_recorded r ts g
  | TodoClaimed _ id agent exp pid _ => update_todo id (claimed_todo agent exp pid) g
  | AgentRegistered _ agent ws _ =>
      put_agent {| ap_id := agent; ap_capabilities := []; ap_workspaces := ws |} g
  | AgentOnboarded _ agent caps ws _ =>
      put_agent {| ap_id := agent; ap_capabilities := caps; ap_workspaces := ws |} g
  | WorkerSessionBound _ agent session _ =>
      g <| g_worker_sessions ::= <[agent := session]> |>
  | WorkspaceLockAcquired _ _ _ _ _ _ => g
  | ReplanAcked _ kinds ts => apply_replan_acked kinds ts g
  | ProfileSet _ floor _ =>
      g <| g_execution_profile ::= (fun p => p <| ep_outcome_floor_streak_threshold := floor |>) |>
  | AuthoritySet _ ws ra _ =>
      g <| g_authority ::= (fun a => a <| au_write_scope := ws |> <| au_requires_approval := ra |>) |>
  | TodoArchived _ id ts => mark_frontier ts (archive_todo now id g)
  | MonitorPolled _ id result n ts =>
      record_semantic_event KIND_MONITOR_POLL (Some id) result ts
        (update_todo id (polled_monitor result n ts) g)
  | TurnNoProgress gid id agent idle calls ts =>
      apply_turn_no_progress
        {| np_goal_id := gid; np_todo_id := id; np_agent_id := agent; np_idle_secs := idle;
           np_tool_calls_total := calls; np_ts := ts |} ts g
  | QuotaSpent _ _ _ _ slots _ => g <| g_quota_spent_slots ::= (fun n => u32_sat_add n slots) |>
  | EvidenceAttached _ id ev ts =>
      update_todo id (fun t => t <| td_evidence := Some ev |> <| td_updated_at := ts |>) g
  | TodoRenewed _ id agent exp ts => update_todo id (renewed_todo agent exp ts) g
  | TodoReleased _ id agent ts => update_todo id (released_todo agent ts) g
  | TodoExpired _ id ts => update_todo id (expired_todo ts) g
  | DeliveryOutcomeRecorded _ id outcome note turn seq ts =>
      record_semantic_event KIND_DELIVERY_OUTCOME (Some id) outcome ts
        (apply_delivery_outcome id outcome note turn seq ts g)
  | FollowthroughCreated _ source followup _ ts => apply_followthrough source followup ts g
  | SchedulerTicked _ agent _ _ ts =>
      g <| g_scheduler_heartbeats ::=
            (fun m => <[agent := Z.max (default ts (m !! agent)) ts]> m) |>
  | AutomationLivenessAlert _ agent elapsed threshold consecutive ts =>
      g <| g_liveness_alerts ::=
            (fun l => l ++ [{| la_agent_id := agent; la_elapsed_secs := elapsed;
                               la_threshold_secs := threshold; la_consecutive := consecutive;
                               la_ts := ts |}]) |>
  | ReplanRuleSetUpdated _ version ids ts => apply_rule_set version ids ts g
  | SupervisorRegistered _ session _ => g <| g_supervisor_session_id := Some session |>
  | WorkerSteered _ agent instruction ts =>
      g <| g_pending_steer := Some {| si_agent_id := agent; si_instruction := instruction;
                                      si_ts := ts |} |>
  | SteerConsumed _ agent steer_ts _ =>
      if same_episode g agent steer_ts then g <| g_pending_steer := None |> else g
  | DecisionSummaryRecorded _ _ _ | HeartbeatReceiptRecorded _ _ _ _ _ _ _
  | SchedulerAcked _ _ _ _ _ _ _ | ProjectionRepaired _ _ _ _ _ _ _ _ _
  | WorkerStopped _ _ _ | ProgressReported _ _ _ _ _ | SupervisorNote _ _ _ _ _ _
  | ControlIssued _ _ _ | ControlAcknowledged _ _ _ _ | SupervisorBatchPrepared _ _ _ _ _ _
  | SupervisorBatchDelivered _ _ _ => g
  end.

(** * Replay *)
Record RegistryEntry := mkRegistryEntry {
  re_goal_id : string; re_objective : string; re_cwd : string; re_reg_status : string;
  re_created_at : u64
}.

(** [for stored in ledger { apply(&mut goal, stored.event) }]: every step may
    read a different clock. *)
Definition fold_events (ledger : list (SystemTime * Event)) (g : Goal) : Goal :=
  List.fold_left (fun g '(now, e) => apply now e g) ledger g.

Definition max_opt (l : list Z) : option Z :=
  match l with [] => None | x :: r => Some (List.fold_left Z.max r x) end.

(** The goal [replay] folds into.  [now0] and [now1] are the clocks of
    [Goal::new] and of the freshness stamp. *)
Definition replay_seed (now0 now1 : SystemTime) (entry : RegistryEntry) (events : list Event) : Goal :=
  let g := goal_new now0 (re_goal_id entry) (re_objective entry) (re_cwd entry) in
  let g := if 0 <? re_created_at entry then g <| g_created_at := re_created_at entry |> else g in
  g <| g_decision_freshness := Some
         {| df_events_max_seq := len events;
            df_events_max_ts := max_opt (List.filter (fun ts => 0 <? ts) (List.map event_ts events));
            df_read_at := as_epoch_secs now1 |} |>.

(** [Store::replay] of a registered goal whose ledger file exists and parses:
    [next_action] is the text of the side file, when there is one, and [runs]
    the records of runs.jsonl. *)
Definition replay (now0 now1 : SystemTime) (entry : RegistryEntry)
    (ledger : list (SystemTime * Event)) (next_action : option string) (runs : list RunRecord)
  : Goal :=
  let g := fold_events ledger (replay_seed now0 now1 entry (List.map snd ledger)) in
  let g := match next_action with
           | Some text => g <| g_next_action := Some (trim text) |>
           | None => g
           end in
  g <| g_history ::= (fun l => l ++ runs) |>.

(** * Read models over the raw events *)
Definition decision_summaries (events : list Event) : list DecisionSummary :=
  omap (fun e => match e with DecisionSummaryRecorded _ s _ => Some s | _ => None end) events.
Definition latest_decision_summary (events : list Event) : option DecisionSummary :=
  last (decision_summaries events).

(** agents/control.rs: [pending]. *)
Definition addressed (i : Instruction) (agent : option string) : bool :=
  bool_decide (in_agent_id i = None) || bool_decide (in_agent_id i = agent).
Definition control_step (agent : option string)
    (st : list Instruction * list string) (e : Event) : list Instruction * list string :=
  let '(instructions, acknowledged) := st in
  match e with
  | ControlIssued _ i _ =>
      if addressed i agent then
        (List.filter (fun old => negb (bool_decide (in_agent_id old = in_agent_id i))) instructions
           ++ [i], acknowledged)
      else st
  | ControlAcknowledged _ id who _ =>
      if bool_decide (who = agent) then (instructions, id :: acknowledged) else st
  | _ => st
  end.
Definition pending (events : list Event) (agent : option string) : list Instruction :=
  let '(instructions, acknowledged) := List.fold_left (control_step agent) events ([], []) in
  List.filter (fun i => negb (existsb (String.eqb (in_id i)) acknowledged)) instructions.

(** * Projection gap.  [str::to_lowercase] maps no other character into the
    letters of the word it is searched for. *)
Definition projection_gap (g : Goal) (now : SystemTime) : option string :=
  match g_next_action g with
  | None => None
  | Some next_action =>
      if is_blank next_action then None
      else if str_contains "complete; no further" next_action then None
      else
        let agent_open := len (open_of_at g Advancement now) in
        let user_open := len (open_gates_at g now) in
        if (agent_open =? 0) && negb (starts_with "[P1]" next_action)
           && negb (str_contains "waiting" next_action)
        then Some ("active-state Next Action `" +:+ next_action
                   +:+ "` has no matching open agent todo")
        else if (user_open =? 0) && str_contains "decide" (to_ascii_lowercase next_action)
        then Some ("active-state Next Action `" +:+ next_action
                   +:+ "` waits on a decision with no open user gate")
        else None
  end.

Definition from_packet (p : ShouldRunPacket) (agent_id : option string) (turn : u32)
  : DecisionSummary :=
  {| dsm_schema_version := DECISION_SUMMARY_SCHEMA_VERSION;
     dsm_goal_id := pk_goal_id p;
     dsm_agent_id := agent_id;
     dsm_decision := pk_decision p;
     dsm_should_run := pk_should_run p;
     dsm_effective_action := pk_effective_action p;
     dsm_reason_code := pk_reason_code p;
     dsm_mode := turn_mode_as_str (ic_mode (pk_interaction_contract p));
     dsm_state := pk_state p;
     dsm_selected_todo := ac_selected_todo (ic_agent_channel (pk_interaction_contract p));
     dsm_spent_slots := qs_spent_slots (pk_quota p);
     dsm_allowed_slots := qs_allowed_slots (pk_quota p);
     dsm_normal_delivery_allowed := pk_normal_delivery_allowed p;
     dsm_recovery_delivery_allowed := pk_recovery_delivery_allowed p;
     dsm_self_repair_allowed := pk_self_repair_allowed p;
     dsm_safe_bypass_allowed := pk_safe_bypass_allowed p;
     dsm_safe_bypass_kind := pk_safe_bypass_kind p;
     dsm_blocked_action_scope := pk_blocked_action_scope p;
     dsm_turn := turn |}.
