(* ===== verification/LedgerProps.v ===== *)
(** Properties of the event ledger's fold: independence of the reading clock,
    the well-formedness invariant, terminal states, streaks, steering,
    heartbeats and quota. *)
From S2P Require Import Prelude Cadence Todos GoalState Contract Signals GoalFrontier Ledger GoalProps.

Lemma fold_events_app l1 l2 g : fold_events (l1 ++ l2) g = fold_events l2 (fold_events l1 g).
Proof. apply List.fold_left_app. Qed.
Lemma fold_events_snoc l now e g : fold_events (l ++ [(now, e)]) g = apply now e (fold_events l g).
Proof. apply fold_events_app. Qed.

(** * The reading clock *)
(** A goal up to its todos' [updated_at]. *)
Definition blur (t : Todo) : Todo := t <| td_updated_at := 0 |>.
Definition blur_goal (g : Goal) : Goal := g <| g_todos ::= List.map blur |>.

Lemma blur_blur t : blur (blur t) = blur t.
Proof. done. Qed.

Lemma blur_update_first id f f' l :
  (forall t, blur (f t) = blur (f' (blur t))) ->
  List.map blur (update_first (has_id id) f l)
  = List.map blur (update_first (has_id id) f' (List.map blur l)).
Proof.
  intros H. induction l as [|t l IH]; [done|]. simpl.
  change (has_id id (blur t)) with (has_id id t).
  destruct (has_id id t); simpl; [|by rewrite IH].
  rewrite H. f_equal. rewrite List.map_map. by apply List.map_ext.
Qed.

Lemma blur_update_todo id f f' g :
  (forall t, blur (f t) = blur (f' (blur t))) ->
  blur_goal (update_todo id f g) = blur_goal (update_todo id f' (blur_goal g)).
Proof.
  intros H. unfold blur_goal, update_todo. destruct g. cbn. f_equal. by apply blur_update_first.
Qed.

(** Wrappers that do not look at the todos. *)
Lemma blur_mark ts g : blur_goal (mark_frontier ts g) = mark_frontier ts (blur_goal g).
Proof. done. Qed.
Lemma blur_semantic k i s ts g :
  blur_goal (record_semantic_event k i s ts g) = record_semantic_event k i s ts (blur_goal g).
Proof. done. Qed.
Lemma blur_goal_idem g : blur_goal (blur_goal g) = blur_goal g.
Proof.
  unfold blur_goal. destruct g. cbn. f_equal. rewrite List.map_map. by apply List.map_ext.
Qed.

Lemma blur_completed now now' nf succ ev ts t :
  blur (completed_todo now nf succ ev ts t) = blur (completed_todo now' nf succ ev ts (blur t)).
Proof.
  unfold completed_todo. cbn [blur td_status].
  change (td_status (blur t)) with (td_status t). by destruct (status_is _ _), ev.
Qed.
Lemma when_blur {A} (v : option A) f t :
  (forall x u, f x (blur u) = blur (f x u)) -> when v f (blur t) = blur (when v f t).
Proof. by destruct v; simpl. Qed.
Lemma apply_status_blur st t : apply_status st (blur t) = blur (apply_status st t).
Proof.
  unfold apply_status.
  by destruct (st =?s "open"), (st =?s "blocked"), (st =?s "deferred"), (st =?s "superseded").
Qed.
Lemma blur_updated a b c d e f h i j k ts t :
  blur (updated_todo a b c d e f h i j k ts t)
  = blur (updated_todo a b c d e f h i j k ts (blur t)).
Proof.
  unfold updated_todo. rewrite !when_blur; try done.
  - apply apply_status_blur.
  - intros rw u. by destruct (deferral_instant rw k ts).
Qed.

(** An arm that does not look at the todos commutes with blurring. *)
Ltac commute := match goal with |- blur_goal ?x = _ =>
  rewrite <- (blur_goal_idem x); f_equal; reflexivity end.

Lemma apply_blur now now' e g :
  blur_goal (apply now e g) = blur_goal (apply now' e (blur_goal g)).
Proof.
  destruct e; cbn [apply]; try (by commute); try (by rewrite blur_goal_idem).
  - unfold apply_todo_added, blur_goal. destruct g, (td_index todo =? 0); cbn;
      rewrite !List.map_app, List.map_map; by f_equal.
  - unfold apply_todo_completed. rewrite !blur_semantic, !blur_mark. do 2 f_equal.
    apply blur_update_todo. intros t. apply blur_completed.
  - rewrite !blur_semantic, !blur_mark. do 2 f_equal. by apply blur_update_todo.
  - apply blur_update_todo. intros t. apply blur_updated.
  - rewrite !blur_semantic, !blur_mark. do 2 f_equal.
    apply blur_update_todo. intros t. by destruct note.
  - unfold apply_run_recorded. destruct (existsb _ _); commute.
  - by apply blur_update_todo.
  - unfold apply_replan_acked. destruct (has_frontier_delta _); commute.
  - rewrite !blur_mark. f_equal. by apply blur_update_todo.
  - rewrite !blur_semantic. f_equal.
    apply blur_update_todo. intros t. unfold polled_monitor. by destruct (result =?s "changed").
  - by apply blur_update_todo.
  - apply blur_update_todo. intros t. unfold renewed_todo.
    change (td_claimed_by (blur t)) with (td_claimed_by t). by destruct (td_claimed_by t).
  - apply blur_update_todo. intros t. unfold released_todo.
    change (td_claimed_by (blur t)) with (td_claimed_by t). by destruct (bool_decide _).
  - apply blur_update_todo. intros t. unfold expired_todo.
    change (td_claimed_by (blur t)) with (td_claimed_by t). by destruct (td_claimed_by t).
  - unfold apply_delivery_outcome. rewrite !blur_semantic. f_equal.
    change (delivery_state (blur_goal g)) with (delivery_state g).
    destruct (delivery_state g todo_id); commute.
  - unfold same_episode. change (g_pending_steer (blur_goal g)) with (g_pending_steer g).
    destruct (match g_pending_steer g with Some _ => _ | None => _ end);
      [commute|by rewrite blur_goal_idem].
Qed.

(** Goals that differ at most in their todos' [updated_at]. *)
Definition StampEq (g1 g2 : Goal) : Prop := blur_goal g1 = blur_goal g2.
#[export] Instance StampEq_equivalence : Equivalence StampEq.
Proof. split; unfold StampEq; [done|congruence|congruence]. Qed.
#[export] Instance apply_proper now e : Proper (StampEq ==> StampEq) (apply now e).
Proof.
  intros g1 g2 H. unfold StampEq in *. by rewrite (apply_blur now now), H, <- (apply_blur now now).
Qed.
Lemma apply_any_clock now now' e g : StampEq (apply now e g) (apply now' e g).
Proof. unfold StampEq. by rewrite (apply_blur now now'), <- (apply_blur now' now'). Qed.

Definition is_archive (e : Event) : bool :=
  match e with TodoArchived _ _ _ => true | _ => false end.
Lemma apply_same_clock now now' e g : is_archive e = false -> apply now e g = apply now' e g.
Proof. by destruct e. Qed.

Lemma fold_any_clock l1 : forall l2 g1 g2,
  List.map snd l1 = List.map snd l2 -> StampEq g1 g2 ->
  StampEq (fold_events l1 g1) (fold_events l2 g2).
Proof.
  induction l1 as [|[n1 e1] l1 IH]; intros [|[n2 e2] l2] g1 g2; simpl; try done.
  intros [= -> Hl] Hg. apply IH; [done|].
  transitivity (apply n2 e2 g1); [apply apply_any_clock|]. by rewrite Hg.
Qed.
Lemma fold_same_clock l1 : forall l2 g,
  List.map snd l1 = List.map snd l2 -> existsb is_archive (List.map snd l1) = false ->
  fold_events l1 g = fold_events l2 g.
Proof.
  induction l1 as [|[n1 e1] l1 IH]; intros [|[n2 e2] l2] g; simpl; try done.
  intros [= -> Hl] H. apply orb_false_iff in H as [Ha H].
  rewrite (apply_same_clock n1 n2) by done. by apply IH.
Qed.

(** A goal without the moment it was read. *)
Definition unread (g : Goal) : Goal :=
  g <| g_decision_freshness ::=
        option_map (fun d => {| df_events_max_seq := df_events_max_seq d;
                                df_events_max_ts := df_events_max_ts d; df_read_at := 0 |}) |>.

Lemma unread_apply now e g : unread (apply now e g) = apply now e (unread g).
Proof.
  destruct e; cbn [apply]; try done.
  - unfold apply_todo_added. by destruct (td_index todo =? 0).
  - unfold apply_run_recorded. by destruct (existsb _ _).
  - unfold apply_replan_acked. by destruct (has_frontier_delta _).
  - unfold apply_delivery_outcome. change (delivery_state (unread g)) with (delivery_state g).
    by destruct (delivery_state g todo_id).
  - change (same_episode (unread g)) with (same_episode g).
    by destruct (same_episode g agent_id steer_ts).
Qed.
Lemma unread_fold l : forall g, unread (fold_events l g) = fold_events l (unread g).
Proof.
  induction l as [|[n e] l IH]; intros g; [done|]. simpl. by rewrite IH, unread_apply.
Qed.
Lemma unread_seed a b a' b' entry events :
  0 < re_created_at entry ->
  unread (replay_seed a b entry events) = unread (replay_seed a' b' entry events).
Proof. intros H. unfold replay_seed. rewrite (proj2 (Z.ltb_lt _ _) H). done. Qed.

(** The steps of [replay] after the fold. *)
Definition finish (next_action : option string) (runs : list RunRecord) (g : Goal) : Goal :=
  (match next_action with Some text => g <| g_next_action := Some (trim text) |> | None => g end)
    <| g_history ::= (fun l => l ++ runs) |>.
Lemma replay_finish a b entry l na runs :
  replay a b entry l na runs
  = finish na runs (fold_events l (replay_seed a b entry (List.map snd l))).
Proof. by destruct na. Qed.
Lemma unread_finish na runs g : unread (finish na runs g) = finish na runs (unread g).
Proof. by destruct na. Qed.
#[export] Instance finish_proper na runs : Proper (StampEq ==> StampEq) (finish na runs).
Proof.
  intros g1 g2 H. unfold StampEq in *.
  assert (E : forall g, blur_goal (finish na runs g) = finish na runs (blur_goal g)) by (by destruct na).
  by rewrite !E, H.
Qed.

(** replaying a ledger gives the same goal whenever it is read: two replays
    under any clocks agree, but for the moment of reading and the [updated_at]
    stamps, and agree on those stamps too when no todo was archived. *)
Theorem replay_ignores_the_clock entry l1 l2 a b a' b' na runs :
  0 < re_created_at entry ->
  List.map snd l1 = List.map snd l2 ->
  StampEq (unread (replay a b entry l1 na runs)) (unread (replay a' b' entry l2 na runs))
  /\ (existsb is_archive (List.map snd l1) = false ->
        unread (replay a b entry l1 na runs) = unread (replay a' b' entry l2 na runs)).
Proof.
  intros Hc Hl. rewrite !replay_finish, !unread_finish, !unread_fold, <- Hl.
  rewrite (unread_seed a b a' b') by done. split.
  - apply finish_proper. by apply fold_any_clock.
  - intros Ha. f_equal. by apply fold_same_clock.
Qed.

Lemma replay_ignores_the_clock_witness :
  let entry := {| re_goal_id := "g"; re_objective := "o"; re_cwd := "/tmp";
                  re_reg_status := "active"; re_created_at := 7 |} in
  let ledger now := [(now, TodoAdded "g" (advancement 0 "T1" "x") 10);
                     (now, TodoCompleted "g" "T1" true [] None 20)] in
  unread (replay 0 0 entry (ledger 0) None [])
  = unread (replay 5000000000 6000000000 entry (ledger 7000000000) None []).
Proof.
  cbv zeta. apply (replay_ignores_the_clock
    {| re_goal_id := "g"; re_objective := "o"; re_cwd := "/tmp";
       re_reg_status := "active"; re_created_at := 7 |}
    [(0, TodoAdded "g" (advancement 0 "T1" "x") 10); (0, TodoCompleted "g" "T1" true [] None 20)]
    [(7000000000, TodoAdded "g" (advancement 0 "T1" "x") 10);
     (7000000000, TodoCompleted "g" "T1" true [] None 20)]
    0 0 5000000000 6000000000 None []); [reflexivity|reflexivity|reflexivity].
Defined.

Lemma todo_update_todo id f g t :
  (forall u, td_id (f u) = td_id u) ->
  todo g id = Some t -> todo (update_todo id f g) id = Some (f t).
Proof.
  intros Hf H. unfold todo, update_todo. cbn. apply update_first_find; [|done].
  intros u Hu. unfold has_id in *. by rewrite Hf.
Qed.

(** The exception: an archived todo is stamped with the clock of whoever
    reads the ledger, not with the time the event was written. *)
Theorem archive_stamp_is_read_time now gid id ts g t :
  todo g id = Some t ->
  todo (apply now (TodoArchived gid id ts) g) id
  = Some (t <| td_archive_state := "archived" |> <| td_updated_at := as_epoch_secs now |>).
Proof. intros H. by apply (todo_update_todo id (archive now) g t). Qed.

Lemma archive_stamp_is_read_time_witness :
  let g := add (advancement 0 "T1" "x") (goal_new 0 "g" "o" "/tmp") in
  option_map td_updated_at (todo (apply 5000000000 (TodoArchived "g" "T1" 1) g) "T1") = Some 5.
Proof.
  cbv zeta. rewrite (archive_stamp_is_read_time 5000000000 "g" "T1" 1
    (add (advancement 0 "T1" "x") (goal_new 0 "g" "o" "/tmp")) (at_index 1 (advancement 0 "T1" "x")));
    vm_compute; reflexivity.
Defined.

(** * What an event does to a todo *)
Definition target (e : Event) : option string :=
  match e with
  | TodoCompleted _ id _ _ _ _ | TodoSuperseded _ id _ | TodoUpdated _ id _ _ _ _ _ _ _ _ _ _ _
  | GateResolved _ id _ _ _ | TodoClaimed _ id _ _ _ _ | TodoArchived _ id _
  | MonitorPolled _ id _ _ _ | EvidenceAttached _ id _ _ | TodoRenewed _ id _ _ _
  | TodoReleased _ id _ _ | TodoExpired _ id _ => Some id
  | _ => None
  end.
Definition effect (now : SystemTime) (e : Event) : Todo -> Todo :=
  match e with
  | TodoCompleted _ _ nf succ ev ts => completed_todo now nf succ ev ts
  | TodoSuperseded _ _ _ => fun t => t <| td_status := Superseded |>
  | TodoUpdated _ _ text status ev note prio rw blocks acc owner at_ms ts =>
      updated_todo text status ev note prio rw blocks acc owner at_ms ts
  | GateResolved _ _ decision note ts => resolved_gate decision note ts
  | TodoClaimed _ _ agent exp pid _ => claimed_todo agent exp pid
  | TodoArchived _ _ _ => archive now
  | MonitorPolled _ _ result n ts => polled_monitor result n ts
  | EvidenceAttached _ _ ev ts => fun t => t <| td_evidence := Some ev |> <| td_updated_at := ts |>
  | TodoRenewed _ _ agent exp ts => renewed_todo agent exp ts
  | TodoReleased _ _ agent ts => released_todo agent ts
  | TodoExpired _ _ ts => expired_todo ts
  | _ => fun t => t
  end.
Definition added (g : Goal) (e : Event) : list Todo :=
  match e with
  | TodoAdded _ t _ => [if td_index t =? 0 then t <| td_index := u32_add (g_next_index g) 1 |> else t]
  | _ => []
  end.

(** Every event updates the todo it targets, and only that one, and only
    [TodoAdded] adds one. *)
Lemma apply_todos now e g :
  g_todos (apply now e g)
  = match target e with
    | Some id => update_first (has_id id) (effect now e) (g_todos g)
    | None => g_todos g
    end ++ added g e.
Proof.
  destruct e; cbn [apply target added]; rewrite ?app_nil_r; try done.
  - unfold apply_todo_added. by destruct (td_index todo =? 0).
  - unfold apply_run_recorded. by destruct (existsb _ _).
  - unfold apply_replan_acked. by destruct (has_frontier_delta _).
  - unfold apply_delivery_outcome. by destruct (delivery_state g todo_id).
  - by destruct (same_episode g agent_id steer_ts).
Qed.

Lemma when_id {A} (v : option A) f t :
  (forall x u, td_id (f x u) = td_id u) -> td_id (when v f t) = td_id t.
Proof. by destruct v; simpl. Qed.
Lemma apply_status_keeps_id st t : td_id (apply_status st t) = td_id t.
Proof.
  unfold apply_status.
  by destruct (st =?s "open"), (st =?s "blocked"), (st =?s "deferred"), (st =?s "superseded").
Qed.
Lemma updated_id a b c d e f h i j k ts t : td_id (updated_todo a b c d e f h i j k ts t) = td_id t.
Proof.
  unfold updated_todo. cbn.
  rewrite !when_id; try done.
  - intros rw u. by destruct (deferral_instant rw k ts).
  - intros st u. apply apply_status_keeps_id.
Qed.
Lemma effect_id now e t : td_id (effect now e t) = td_id t.
Proof.
  destruct e; try done; simpl.
  - unfold completed_todo. by destruct (status_is _ _), evidence.
  - apply updated_id.
  - by destruct note.
  - unfold polled_monitor. by destruct (result =?s "changed").
  - unfold renewed_todo. by destruct (td_claimed_by t).
  - unfold released_todo. by destruct (bool_decide _).
  - unfold expired_todo. by destruct (td_claimed_by t).
Qed.

Lemma find_app_some {A} (p : A -> bool) l1 l2 x :
  List.find p l1 = Some x -> List.find p (l1 ++ l2) = Some x.
Proof. induction l1 as [|a l1 IH]; simpl; [done|]. by destruct (p a). Qed.
Lemma find_update_other i j f l :
  i <> j -> (forall t, td_id (f t) = td_id t) ->
  List.find (has_id i) (update_first (has_id j) f l) = List.find (has_id i) l.
Proof.
  intros Hij Hf. induction l as [|t l IH]; [done|]. simpl.
  destruct (has_id j t) eqn:Ej; simpl.
  - unfold has_id in *. rewrite Hf. apply String.eqb_eq in Ej. rewrite Ej.
    by rewrite (proj2 (String.eqb_neq j i)).
  - by rewrite IH.
Qed.

Lemma todo_apply now e g id t :
  todo g id = Some t ->
  todo (apply now e g) id
  = Some (if bool_decide (target e = Some id) then effect now e t else t).
Proof.
  intros H. unfold todo in *. rewrite apply_todos. apply find_app_some.
  destruct (bool_decide_reflect (target e = Some id)) as [->|Hne].
  - apply update_first_find; [|done]. intros u Hu. unfold has_id in *. by rewrite effect_id.
  - destruct (target e) as [j|]; [|done]. rewrite find_update_other; [done|congruence|].
    intros u. apply effect_id.
Qed.

(** * Terminal states *)
(** The events that take a superseded todo out of that state. *)
Definition revives (e : Event) (id : string) : bool :=
  match e with
  | GateResolved _ i _ _ _ => i =?s id
  | MonitorPolled _ i result _ _ => (i =?s id) && (result =?s "changed")
  | TodoUpdated _ i _ status _ _ _ rw _ _ _ _ _ =>
      (i =?s id) &&
      match status with
      | Some st =>
          existsb (String.eqb st) ["open"; "blocked"; "deferred"]
          || (bool_decide (is_Some rw) && negb (st =?s "superseded"))
      | None => bool_decide (is_Some rw)
      end
  | _ => false
  end.

Lemma when_status {A} (v : option A) f t :
  (forall x u, td_status (f x u) = td_status u) -> td_status (when v f t) = td_status t.
Proof. by destruct v; simpl. Qed.
Lemma status_of_apply_status st t :
  td_status (apply_status st t)
  = if st =?s "open" then Open else if st =?s "blocked" then Blocked
    else if st =?s "deferred" then Deferred else if st =?s "superseded" then Superseded
    else td_status t.
Proof.
  unfold apply_status.
  by destruct (st =?s "open"), (st =?s "blocked"), (st =?s "deferred"), (st =?s "superseded").
Qed.
Lemma status_of_stamp t ts : td_status (t <| td_updated_at := ts |>) = td_status t.
Proof. done. Qed.
(** The status an update leaves. *)
Lemma updated_status a st c d e rw h i j k ts t :
  td_status (updated_todo a st c d e rw h i j k ts t)
  = let s0 := match rw with Some _ => Deferred | None => td_status t end in
    match st with
    | Some st => if st =?s "open" then Open else if st =?s "blocked" then Blocked
                 else if st =?s "deferred" then Deferred
                 else if st =?s "superseded" then Superseded else s0
    | None => s0
    end.
Proof.
  unfold updated_todo. cbv zeta. rewrite status_of_stamp.
  assert (E : forall u, td_status u = td_status t ->
    td_status (when rw (fun rw t =>
      match deferral_instant rw k ts with
      | Some i => t <| td_resume_when_text := Some rw |> <| td_status := Deferred |>
                    <| td_resume_when := Some i |>
      | None => t <| td_resume_when_text := Some rw |> <| td_status := Deferred |>
      end) u) = match rw with Some _ => Deferred | None => td_status t end).
  { intros u Hu. destruct rw as [r|]; [|done]. cbn [when]. by destruct (deferral_instant r k ts). }
  destruct st as [st|]; cbn [when]; rewrite ?status_of_apply_status, E; try done;
    by rewrite !when_status by done.
Qed.

(** A superseded todo stays superseded whatever the ledger goes on to say
    about it - in particular when a late completion arrives - except under
    exactly these events: a field update that sets a pending status or defers
    it, a gate resolution, and a monitor poll that saw a change. *)
Theorem superseded_revived_iff now e g id t :
  todo g id = Some t -> td_status t = Superseded ->
  exists t', todo (apply now e g) id = Some t'
    /\ (td_status t' <> Superseded <-> revives e id = true).
Proof.
  intros Hin Hs. eexists. split; [by apply todo_apply|].
  assert (Hsame : forall u, td_status u = Superseded -> (td_status u <> Superseded <-> false = true))
    by (by intros u ->; split).
  destruct (bool_decide_reflect (target e = Some id)) as [Ht|Hne].
  - destruct e; cbn [effect target revives] in *; simplify_eq; try (by apply Hsame).
    + apply Hsame. unfold completed_todo. by rewrite Hs.
    + rewrite updated_status, Hs, String.eqb_refl. cbn [existsb andb].
      destruct status as [st|], resume_when as [rw|]; simpl; try done.
      * destruct (st =?s "open"), (st =?s "blocked"), (st =?s "deferred"), (st =?s "superseded"); done.
      * destruct (st =?s "open"), (st =?s "blocked"), (st =?s "deferred"), (st =?s "superseded"); done.
    + rewrite String.eqb_refl. by destruct note.
    + rewrite String.eqb_refl. unfold polled_monitor. destruct (result =?s "changed"); simpl; by rewrite ?Hs.
    + apply Hsame. unfold renewed_todo. by destruct (td_claimed_by t).
    + apply Hsame. unfold released_todo. by destruct (bool_decide _).
    + apply Hsame. unfold expired_todo. by destruct (td_claimed_by t).
  - assert (revives e id = false) as ->; [|by apply Hsame].
    destruct e; try done; simpl in *; by rewrite (proj2 (String.eqb_neq todo_id id)) by congruence.
Qed.

Lemma superseded_revived_iff_witness :
  let g := supersede "G1" (add (user_gate 0 "G1" "ok?" []) (goal_new 0 "g" "o" "/tmp")) in
  exists t', todo (apply 0 (GateResolved "g" "G1" "yes" None 5) g) "G1" = Some t'
             /\ td_status t' <> Superseded.
Proof.
  cbv zeta.
  destruct (superseded_revived_iff 0 (GateResolved "g" "G1" "yes" None 5)
    (supersede "G1" (add (user_gate 0 "G1" "ok?" []) (goal_new 0 "g" "o" "/tmp"))) "G1"
    ((at_index 1 (user_gate 0 "G1" "ok?" [])) <| td_status := Superseded |>)) as (t' & H1 & H2).
  - vm_compute. reflexivity.
  - reflexivity.
  - exists t'. split; [exact H1|]. apply H2. reflexivity.
Defined.

(** The updates that put a todo back to work. *)
Definition reopens (e : Event) (id : string) : bool :=
  match e with
  | TodoUpdated _ i _ status _ _ _ rw _ _ _ _ _ =>
      (i =?s id) &&
      match status with
      | Some st =>
          existsb (String.eqb st) ["open"; "blocked"; "deferred"]
          || (bool_decide (is_Some rw) && negb (st =?s "superseded"))
      | None => bool_decide (is_Some rw)
      end
  | _ => false
  end.

(** A closed todo - done or superseded - is reopened by field updates only,
    and by exactly those that set a pending status or defer it; no claim,
    completion, poll, gate resolution or archival ever does. *)
Theorem closed_reopened_iff now e g id t :
  todo g id = Some t -> Closed t ->
  exists t', todo (apply now e g) id = Some t' /\ (~ Closed t' <-> reopens e id = true).
Proof.
  intros Hin Hc. eexists. split; [by apply todo_apply|].
  assert (Hsame : forall u, Closed u -> (~ Closed u <-> false = true)) by (by intros u Hu; split).
  assert (Hdone : forall u, td_status u = Done -> (~ Closed u <-> false = true)).
  { intros u Hu. apply Hsame. by left. }
  destruct (bool_decide_reflect (target e = Some id)) as [Ht|Hne].
  - destruct e; cbn [effect target reopens] in *; simplify_eq; try (by apply Hsame).
    + unfold completed_todo. destruct (status_is (td_status t) Superseded); [by apply Hsame|].
      apply Hdone. by destruct evidence.
    + apply Hsame. by right.
    + unfold Closed. rewrite updated_status, String.eqb_refl. cbn [existsb andb].
      unfold Closed in Hc.
      destruct status as [st|], resume_when as [rw|]; cbn;
        [destruct (st =?s "open"), (st =?s "blocked"), (st =?s "deferred"), (st =?s "superseded")
        |destruct (st =?s "open"), (st =?s "blocked"), (st =?s "deferred"), (st =?s "superseded")| |];
        naive_solver.
    + apply Hdone. by destruct note.
    + unfold polled_monitor. destruct (result =?s "changed"); [by apply Hdone|by apply Hsame].
    + apply Hsame. unfold renewed_todo. by destruct (td_claimed_by t).
    + apply Hsame. unfold released_todo. by destruct (bool_decide _).
    + apply Hsame. unfold expired_todo. by destruct (td_claimed_by t).
  - assert (reopens e id = false) as ->; [|by apply Hsame].
    destruct e; try done; simpl in *; by rewrite (proj2 (String.eqb_neq todo_id id)) by congruence.
Qed.

Lemma closed_reopened_iff_witness :
  let g := supersede "T1" (add (advancement 0 "T1" "x") (goal_new 0 "g" "o" "/tmp")) in
  let e := TodoUpdated "g" "T1" None (Some "open") None None None None None None None None 5 in
  exists t', todo (apply 0 e g) "T1" = Some t' /\ ~ Closed t'.
Proof.
  cbv zeta.
  destruct (closed_reopened_iff 0
    (TodoUpdated "g" "T1" None (Some "open") None None None None None None None None 5)
    (supersede "T1" (add (advancement 0 "T1" "x") (goal_new 0 "g" "o" "/tmp"))) "T1"
    ((at_index 1 (advancement 0 "T1" "x")) <| td_status := Superseded |>)) as (t' & H1 & H2).
  - vm_compute. reflexivity.
  - right. reflexivity.
  - exists t'. split; [exact H1|]. apply H2. reflexivity.
Defined.


(** * The well-formedness invariant *)
Definition lease_claimed (t : Todo) : Prop :=
  is_Some (td_lease_expires_at t) -> is_Some (td_claimed_by t).
(** What the writers promise of an event: an added todo's lease has a holder. *)
Definition EventOk (e : Event) : Prop :=
  match e with
  | TodoAdded _ t _ => lease_claimed t
  | QuotaSpent _ _ _ _ slots _ => 0 <= slots
  | _ => True
  end.

Record WellFormed (g : Goal) : Prop := {
  wf_leases : forall t, In t (g_todos g) -> lease_claimed t;
  wf_history : (List.length (g_semantic_history g) <= SEMANTIC_HISTORY_CAP)%nat;
  wf_rules : forall s, g_replan_rule_set g = Some s -> rs_rule_ids s <> [];
  wf_agents : base.NoDup (g_registered_agents g);
  wf_profiles : base.NoDup (List.map ap_id (g_agent_profiles g));
  wf_profiled : forall p, In p (g_agent_profiles g) -> In (ap_id p) (g_registered_agents g);
  wf_deliveries : base.NoDup (List.map ds_todo_id (g_delivery_states g));
  wf_slots : 0 <= g_quota_spent_slots g <= u32_max
}.

Lemma when_keeps {A B} (p : Todo -> B) (v : option A) f t :
  (forall x u, p (f x u) = p u) -> p (when v f t) = p t.
Proof. by destruct v; simpl. Qed.
Lemma updated_keeps {B} (p : Todo -> B) a st c d e rw h i j k ts t :
  (forall x u, p (u <| td_text := x |>) = p u) -> (forall x u, p (u <| td_owner := x |>) = p u) ->
  (forall x u, p (u <| td_evidence := x |>) = p u) -> (forall x u, p (u <| td_note := x |>) = p u) ->
  (forall x u, p (u <| td_acceptance := x |>) = p u) ->
  (forall x u, p (u <| td_blocked_by_gate := x |>) = p u) ->
  (forall x u, p (u <| td_priority := x |>) = p u) ->
  (forall x u, p (u <| td_resume_when_text := x |>) = p u) ->
  (forall x u, p (u <| td_resume_when := x |>) = p u) ->
  (forall x u, p (u <| td_status := x |>) = p u) ->
  (forall x u, p (u <| td_updated_at := x |>) = p u) ->
  p (updated_todo a st c d e rw h i j k ts t) = p t.
Proof.
  intros H1 H2 H3 H4 H5 H6 H7 H8 H9 H10 H11. unfold updated_todo. cbv zeta. rewrite H11.
  rewrite !when_keeps; auto.
  - intros r u. destruct (deferral_instant r k ts); by rewrite ?H9, H10, H8.
  - intros s u. unfold apply_status.
    destruct (s =?s "open"), (s =?s "blocked"), (s =?s "deferred"), (s =?s "superseded"); auto.
Qed.

Lemma lease_effect now e t : lease_claimed t -> lease_claimed (effect now e t).
Proof.
  unfold lease_claimed. intros H. destruct e; cbn [effect]; try done.
  - unfold completed_todo. destruct (status_is _ _); [done|]. by destruct evidence; intros [].
  - rewrite (updated_keeps td_claimed_by), (updated_keeps td_lease_expires_at); done.
  - by destruct note.
  - unfold polled_monitor. by destruct (result =?s "changed").
  - unfold renewed_todo. destruct (td_claimed_by t) as [o|] eqn:E; intros _; [exists o|by eexists].
    exact E.
  - unfold released_todo. destruct (bool_decide _); [by intros []|done].
  - unfold expired_todo. destruct (td_claimed_by t) eqn:E; [by intros []|]. by rewrite E.
Qed.

Lemma leases_preserved now e g :
  EventOk e -> (forall t, In t (g_todos g) -> lease_claimed t) ->
  forall t, In t (g_todos (apply now e g)) -> lease_claimed t.
Proof.
  intros Hok H t. rewrite apply_todos, in_app_iff. intros [Hin|Hin].
  - destruct (target e) as [id|]; [|by apply H].
    apply update_first_In in Hin as [?|(u & Hu & _ & ->)]; [by apply H|]. by apply lease_effect, H.
  - destruct e; simpl in *; try done. destruct Hin as [<-|[]]. by destruct (td_index todo =? 0).
Qed.

Lemma history_preserved now e g :
  (List.length (g_semantic_history g) <= SEMANTIC_HISTORY_CAP)%nat ->
  (List.length (g_semantic_history (apply now e g)) <= SEMANTIC_HISTORY_CAP)%nat.
Proof.
  intros H. destruct e; cbn [apply]; try exact H; try apply keep_last_length.
  - unfold apply_todo_added. by destruct (td_index todo =? 0).
  - unfold apply_run_recorded. destruct (existsb _ _); apply keep_last_length.
  - by destruct (same_episode g agent_id steer_ts).
Qed.

Lemma rules_preserved now e g :
  (forall s, g_replan_rule_set g = Some s -> rs_rule_ids s <> []) ->
  forall s, g_replan_rule_set (apply now e g) = Some s -> rs_rule_ids s <> [].
Proof.
  intros H. destruct e; cbn [apply]; try exact H.
  - unfold apply_todo_added. by destruct (td_index todo =? 0).
  - unfold apply_run_recorded. by destruct (existsb _ _).
  - unfold apply_replan_acked. by destruct (has_frontier_delta _).
  - unfold apply_delivery_outcome. by destruct (delivery_state g todo_id).
  - cbn. destruct rule_ids; [done|]. by intros rs [= <-].
  - by destruct (same_episode g agent_id steer_ts).
Qed.

(** The agents of a goal: both lists, and what [put_agent] keeps of them. *)
Definition AgentsOk (g : Goal) : Prop :=
  base.NoDup (g_registered_agents g) /\ base.NoDup (List.map ap_id (g_agent_profiles g))
  /\ forall p, In p (g_agent_profiles g) -> In (ap_id p) (g_registered_agents g).

Lemma NoDup_map_filter {A B} (f : A -> B) p l :
  base.NoDup (List.map f l) -> base.NoDup (List.map f (List.filter p l)).
Proof.
  rewrite !NoDup_ListNoDup. induction l as [|x l IH]; [done|]. simpl. intros Hn.
  inversion Hn as [|? ? Hx Hl]; subst. destruct (p x); simpl; [|auto].
  constructor; [|auto]. intros Hin. apply Hx. apply in_map_iff in Hin as (y & <- & Hy).
  apply List.filter_In in Hy as [Hy _]. by apply in_map.
Qed.

Lemma put_agent_ok p g : AgentsOk g -> AgentsOk (put_agent p g).
Proof.
  intros (Ha & Hp & Hin). unfold AgentsOk, put_agent. cbn.
  assert (Hreg : forall x, In x (g_registered_agents g) \/ x = ap_id p ->
    In x (if existsb (fun a => a =?s ap_id p) (g_registered_agents g) then g_registered_agents g
          else g_registered_agents g ++ [ap_id p])).
  { intros x Hx. destruct (existsb _ _) eqn:E; [|apply in_app_iff; simpl; naive_solver].
    destruct Hx as [?| ->]; [done|]. apply List.existsb_exists in E as (y & Hy & Ey).
    apply String.eqb_eq in Ey. by subst. }
  split; [|split].
  - destruct (existsb _ _) eqn:E; [done|]. apply NoDup_app. split; [done|].
    split; [|apply NoDup_singleton]. intros x Hx Hs. apply list_elem_of_singleton in Hs as ->.
    apply list_elem_of_In in Hx. rewrite existsb_false in E. specialize (E _ Hx).
    by rewrite String.eqb_refl in E.
  - rewrite List.map_app. apply NoDup_app. split; [by apply NoDup_map_filter|].
    split; [|apply NoDup_singleton]. intros x Hx Hs. apply list_elem_of_singleton in Hs as ->.
    apply list_elem_of_In, in_map_iff in Hx as (q & Eq & Hq). apply List.filter_In in Hq as [_ Hq].
    rewrite Eq, String.eqb_refl in Hq. done.
  - intros q Hq. apply Hreg. apply in_app_iff in Hq as [Hq|[<-|[]]]; [|by right].
    left. apply Hin. by apply List.filter_In in Hq as [? _].
Qed.

Lemma agents_preserved now e g : AgentsOk g -> AgentsOk (apply now e g).
Proof.
  intros H. destruct e; cbn [apply]; try exact H; try by apply put_agent_ok.
  - unfold apply_todo_added. by destruct (td_index todo =? 0).
  - unfold apply_run_recorded. by destruct (existsb _ _).
  - unfold apply_replan_acked. by destruct (has_frontier_delta _).
  - unfold apply_delivery_outcome. by destruct (delivery_state g todo_id).
  - by destruct (same_episode g agent_id steer_ts).
Qed.

Lemma delivery_outcome_nodup id o n t sq ts g :
  base.NoDup (List.map ds_todo_id (g_delivery_states g)) ->
  base.NoDup (List.map ds_todo_id (g_delivery_states (apply_delivery_outcome id o n t sq ts g))).
Proof.
  intros H. unfold apply_delivery_outcome. destruct (delivery_state g id) as [d|] eqn:E; cbn.
  - rewrite update_first_map; [done|]. intros x _. by destruct n, (o =?s OUTCOME_DELIVERED).
  - rewrite List.map_app. apply NoDup_app. split; [done|]. split; [|apply NoDup_singleton].
    intros x Hx Hs. apply list_elem_of_singleton in Hs as ->.
    apply list_elem_of_In, in_map_iff in Hx as (d & Ed & Hd).
    unfold delivery_state in E. rewrite find_none_iff in E. specialize (E _ Hd).
    unfold delivery_for in E. simpl in Ed. by rewrite Ed, String.eqb_refl in E.
Qed.

Lemma deliveries_preserved now e g :
  base.NoDup (List.map ds_todo_id (g_delivery_states g)) ->
  base.NoDup (List.map ds_todo_id (g_delivery_states (apply now e g))).
Proof.
  intros H. destruct e; cbn [apply]; try exact H.
  - unfold apply_todo_added. by destruct (td_index todo =? 0).
  - unfold apply_run_recorded. by destruct (existsb _ _).
  - unfold apply_replan_acked. by destruct (has_frontier_delta _).
  - by apply delivery_outcome_nodup.
  - cbn. by rewrite update_first_map.
  - by destruct (same_episode g agent_id steer_ts).
Qed.

Lemma apply_slots now e g :
  g_quota_spent_slots (apply now e g)
  = match e with
    | QuotaSpent _ _ _ _ slots _ => u32_sat_add (g_quota_spent_slots g) slots
    | _ => g_quota_spent_slots g
    end.
Proof.
  destruct e; cbn [apply]; try done.
  - unfold apply_todo_added. by destruct (td_index todo =? 0).
  - unfold apply_run_recorded. by destruct (existsb _ _).
  - unfold apply_replan_acked. by destruct (has_frontier_delta _).
  - unfold apply_delivery_outcome. by destruct (delivery_state g todo_id).
  - by destruct (same_episode g agent_id steer_ts).
Qed.

Lemma apply_well_formed now e g : EventOk e -> WellFormed g -> WellFormed (apply now e g).
Proof.
  intros Hok [Hl Hh Hr Ha Hp Hpr Hd Hs].
  destruct (agents_preserved now e g) as (? & ? & ?); [done|]. constructor; try done.
  - by apply leases_preserved.
  - by apply history_preserved.
  - by apply rules_preserved.
  - by apply deliveries_preserved.
  - rewrite apply_slots. destruct e; try done. simpl in Hok. unfold u32_sat_add, u32_max in *. lia.
Qed.

Lemma fold_well_formed l : forall g,
  Forall EventOk (List.map snd l) -> WellFormed g -> WellFormed (fold_events l g).
Proof.
  induction l as [|[n e] l IH]; intros g; [done|]. simpl.
  rewrite Forall_cons. intros [? ?] ?. apply IH; [done|]. by apply apply_well_formed.
Qed.

(** C31: every goal rebuilt from a ledger is well formed: a lease always names
    its holder, the semantic history holds at most fifty events, an explicit
    rule set is never empty, agents and profiles are unique and every profile's
    agent is registered, each work item has one delivery state, and the quota
    counter stays within 32 bits. *)
Theorem replay_well_formed a b entry l na runs :
  Forall EventOk (List.map snd l) -> WellFormed (replay a b entry l na runs).
Proof.
  intros Hok. rewrite replay_finish.
  assert (H : WellFormed (fold_events l (replay_seed a b entry (List.map snd l)))).
  { apply fold_well_formed; [done|]. unfold replay_seed.
    destruct (0 <? re_created_at entry);
      (constructor; cbn; [done|lia|done|constructor|constructor|done|constructor|unfold u32_max; lia]). }
  destruct H. by destruct na; constructor.
Qed.

Lemma replay_well_formed_witness :
  let entry := {| re_goal_id := "g"; re_objective := "o"; re_cwd := "/tmp";
                  re_reg_status := "active"; re_created_at := 7 |} in
  WellFormed (replay 0 0 entry
    [(0, TodoAdded "g" (advancement 0 "T1" "x") 10); (0, QuotaSpent "g" "r" "T1" "run" 1 11);
     (0, TodoClaimed "g" "T1" "a" 100 None 12)] None []).
Proof.
  cbv zeta. apply replay_well_formed.
  constructor; [intros [x Hx]; vm_compute in Hx; discriminate|].
  constructor; [vm_compute; discriminate|]. constructor; [exact I|]. constructor.
Defined.

(** * Counters and folds *)
Definition slots_of (e : Event) : Z := match e with QuotaSpent _ _ _ _ slots _ => slots | _ => 0 end.
Definition total_slots (es : list Event) : Z := List.fold_right (fun e n => slots_of e + n) 0 es.

Lemma total_slots_nonneg es : Forall EventOk es -> 0 <= total_slots es.
Proof.
  induction 1 as [|e es He _ IH]; simpl; [lia|]. destruct e; simpl in *; lia.
Qed.

(** The quota counter is the sum of the slots spent, saturating at the
    largest 32-bit value: it never wraps. *)
Theorem quota_spent_is_saturating_sum l g :
  Forall EventOk (List.map snd l) -> 0 <= g_quota_spent_slots g <= u32_max ->
  g_quota_spent_slots (fold_events l g)
  = Z.min u32_max (g_quota_spent_slots g + total_slots (List.map snd l)).
Proof.
  revert g. induction l as [|[n e] l IH]; intros g Hok Hg; simpl; [lia|].
  simpl in Hok. apply Forall_cons in Hok as [He Hok].
  pose proof (total_slots_nonneg _ Hok) as Hn. rewrite IH; [|done|].
  - rewrite apply_slots. destruct e; simpl in *; try lia. unfold u32_sat_add. lia.
  - rewrite apply_slots. destruct e; simpl in *; try lia. unfold u32_sat_add, u32_max in *. lia.
Qed.

Lemma quota_spent_is_saturating_sum_witness :
  g_quota_spent_slots (fold_events [(0, QuotaSpent "g" "r" "T" "run" u32_max 1);
                                    (0, QuotaSpent "g" "r" "T" "run" 1 2)] (goal_new 0 "g" "o" "/"))
  = u32_max.
Proof.
  rewrite quota_spent_is_saturating_sum.
  - reflexivity.
  - constructor; [vm_compute; discriminate|]. constructor; [vm_compute; discriminate|constructor].
  - vm_compute. split; discriminate.
Defined.

Definition is_idle_turn (id : string) (e : Event) : bool :=
  match e with TurnNoProgress _ i _ _ _ _ => i =?s id | _ => false end.
Definition is_writing_run (id : string) (e : Event) : bool :=
  match e with
  | RunRecorded _ r _ => (rr_todo_id r =?s id) && existsb is_write_class_tool (rr_tools r)
  | _ => false
  end.

Lemma apply_idle now e g id :
  no_progress_turns (apply now e g) id
  = if is_writing_run id e then 0
    else no_progress_turns g id + (if is_idle_turn id e then 1 else 0).
Proof.
  unfold no_progress_turns.
  destruct e; cbn [apply is_writing_run is_idle_turn]; rewrite ?Z.add_0_r; try done.
  - unfold apply_todo_added. by destruct (td_index todo =? 0).
  - unfold apply_run_recorded. destruct (existsb _ _); [|by rewrite andb_false_r].
    rewrite andb_true_r. cbn. unfold count. destruct (String.eqb_spec (rr_todo_id record) id) as [<-|Hne].
    + rewrite (proj2 (filter_nil_iff _ _)); [done|]. intros x Hx.
      apply List.filter_In in Hx as [_ Hx]. by apply negb_true_iff in Hx.
    + f_equal. induction (g_turn_no_progress g) as [|x l IH]; [done|]. simpl.
      destruct (np_todo_id x =?s rr_todo_id record) eqn:E; simpl; rewrite IH; [|done].
      apply String.eqb_eq in E. rewrite E. by rewrite (proj2 (String.eqb_neq _ id)).
  - unfold apply_replan_acked. by destruct (has_frontier_delta _).
  - cbn. unfold count. rewrite List.filter_app, len_app. simpl. by destruct (todo_id =?s id).
  - unfold apply_delivery_outcome. by destruct (delivery_state g todo_id).
  - by destruct (same_episode g agent_id steer_ts).
Qed.

Lemma fold_idle l : forall g id,
  existsb (is_writing_run id) (List.map snd l) = false ->
  no_progress_turns (fold_events l g) id
  = no_progress_turns g id + count (is_idle_turn id) (List.map snd l).
Proof.
  induction l as [|[n e] l IH]; intros g id; simpl; [unfold count, len; simpl; lia|].
  intros [He Hl]%orb_false_iff. rewrite IH, apply_idle, He by done.
  unfold count, len. simpl. destruct (is_idle_turn id e); simpl; lia.
Qed.

(** The idle-turn count an agent is warned about is the streak since the
    todo's last turn that wrote: whatever came before a writing run is
    forgotten, and every idle turn after it is counted. *)
Theorem idle_streak_since_last_write l1 n e l2 g id :
  is_writing_run id e = true ->
  existsb (is_writing_run id) (List.map snd l2) = false ->
  no_progress_turns (fold_events (l1 ++ (n, e) :: l2) g) id
  = count (is_idle_turn id) (List.map snd l2).
Proof.
  intros He Hl. rewrite fold_events_app. cbn [fold_events List.fold_left].
  change (List.fold_left _ l2 ?x) with (fold_events l2 x).
  rewrite fold_idle, apply_idle, He by done. lia.
Qed.

Definition writing_run (id : string) : RunRecord :=
  {| rr_agent_id := None; rr_turn := 1; rr_todo_id := id; rr_run_id := "r1"; rr_validation := None;
     rr_terminal_state := "completed"; rr_error := None; rr_tokens_in_delta := 0;
     rr_tokens_out_delta := 0; rr_cost_delta := 0; rr_tools := ["bash"; "edit"];
     rr_evidence := "patched"; rr_recorded_at := 5; rr_spend_source := None;
     rr_failure_kind := None; rr_truncation := None |}.
Lemma idle_streak_since_last_write_witness :
  no_progress_turns (fold_events
    ([(0, TurnNoProgress "g" "T1" None 10 1 1); (0, TurnNoProgress "g" "T1" None 10 1 2)]
     ++ (0, RunRecorded "g" (writing_run "T1") 5) :: [(0, TurnNoProgress "g" "T1" None 10 1 6)])
    (goal_new 0 "g" "o" "/")) "T1" = 1.
Proof. rewrite idle_streak_since_last_write; vm_compute; reflexivity. Defined.

Definition is_steer (e : Event) : bool := match e with WorkerSteered _ _ _ _ => true | _ => false end.
Definition consumes (agent : option string) (at_ : u64) (e : Event) : bool :=
  match e with SteerConsumed _ a s _ => (at_ =? s) && bool_decide (agent = a) | _ => false end.

Lemma apply_pending_steer now e g :
  is_steer e = false ->
  g_pending_steer (apply now e g)
  = match g_pending_steer g with
    | Some s => if consumes (si_agent_id s) (si_ts s) e then None else Some s
    | None => None
    end.
Proof.
  intros He.
  assert (Hkeep : (forall a s, consumes a s e = false) ->
            g_pending_steer (apply now e g) = g_pending_steer g ->
            g_pending_steer (apply now e g)
            = match g_pending_steer g with
              | Some s => if consumes (si_agent_id s) (si_ts s) e then None else Some s
              | None => None
              end).
  { intros Hc ->. destruct (g_pending_steer g) as [s|]; [by rewrite Hc|done]. }
  destruct e; try done; try (by apply Hkeep); cbn [apply consumes].
  - apply Hkeep; [done|]. cbn [apply]. unfold apply_todo_added. by destruct (td_index todo =? 0).
  - apply Hkeep; [done|]. cbn [apply]. unfold apply_run_recorded. by destruct (existsb _ _).
  - apply Hkeep; [done|]. cbn [apply]. unfold apply_replan_acked. by destruct (has_frontier_delta _).
  - apply Hkeep; [done|]. cbn [apply]. unfold apply_delivery_outcome.
    by destruct (delivery_state g todo_id).
  - unfold same_episode. destruct (g_pending_steer g) as [s|] eqn:E; [|done].
    by destruct ((si_ts s =? steer_ts) && bool_decide (si_agent_id s = agent_id)).
Qed.

Lemma fold_pending_steer l : forall g,
  existsb is_steer (List.map snd l) = false ->
  g_pending_steer (fold_events l g)
  = match g_pending_steer g with
    | Some s => if existsb (consumes (si_agent_id s) (si_ts s)) (List.map snd l) then None else Some s
    | None => None
    end.
Proof.
  induction l as [|[n e] l IH]; intros g; simpl; [by destruct (g_pending_steer g)|].
  intros [He Hl]%orb_false_iff. rewrite IH, apply_pending_steer by done.
  destruct (g_pending_steer g) as [s|]; [|done].
  by destruct (consumes (si_agent_id s) (si_ts s) e).
Qed.

(** The steering instruction a worker finds is the latest one issued, and it
    is gone exactly when an acknowledgement of that same episode - same
    recipient, same timestamp - followed it; acknowledging an older episode
    never swallows a newer instruction. *)
Theorem pending_steer_is_latest l1 n gid agent instruction ts l2 g :
  existsb is_steer (List.map snd l2) = false ->
  g_pending_steer (fold_events (l1 ++ (n, WorkerSteered gid agent instruction ts) :: l2) g)
  = if existsb (consumes agent ts) (List.map snd l2) then None
    else Some {| si_agent_id := agent; si_instruction := instruction; si_ts := ts |}.
Proof.
  intros H. rewrite fold_events_app. cbn [fold_events List.fold_left].
  change (List.fold_left _ l2 ?x) with (fold_events l2 x). by rewrite fold_pending_steer.
Qed.

Lemma pending_steer_is_latest_witness :
  option_map si_instruction (g_pending_steer (fold_events
    ([(0, WorkerSteered "g" None "old" 1)] ++
     (0, WorkerSteered "g" None "new" 2) :: [(0, SteerConsumed "g" None 1 3)])
    (goal_new 0 "g" "o" "/"))) = Some "new".
Proof. rewrite pending_steer_is_latest; vm_compute; reflexivity. Defined.

(** * Scheduler heartbeats *)
Definition tick_of (agent : string) (e : Event) : option u64 :=
  match e with
  | SchedulerTicked _ a _ _ ts => if a =?s agent then Some ts else None
  | _ => None
  end.

Lemma apply_heartbeats now e g agent :
  g_scheduler_heartbeats (apply now e g) !! agent
  = match tick_of agent e with
    | Some ts => Some (Z.max (default ts (g_scheduler_heartbeats g !! agent)) ts)
    | None => g_scheduler_heartbeats g !! agent
    end.
Proof.
  destruct e; cbn [apply tick_of]; try done.
  - unfold apply_todo_added. by destruct (td_index todo =? 0).
  - unfold apply_run_recorded. by destruct (existsb _ _).
  - unfold apply_replan_acked. by destruct (has_frontier_delta _).
  - unfold apply_delivery_outcome. by destruct (delivery_state g todo_id).
  - cbn. destruct (String.eqb_spec agent_id agent) as [->|Hne].
    + by rewrite lookup_insert_eq.
    + by rewrite lookup_insert_ne.
  - by destruct (same_episode g agent_id steer_ts).
Qed.

Lemma max_opt_snoc l x : max_opt (l ++ [x]) = Some (Z.max (default x (max_opt l)) x).
Proof.
  destruct l as [|y l]; simpl; [by rewrite Z.max_id|]. by rewrite List.fold_left_app.
Qed.
Lemma max_opt_spec l h : max_opt l = Some h <-> In h l /\ forall x, In x l -> x <= h.
Proof.
  revert h. induction l as [|x l IH] using rev_ind; intros h; [simpl; naive_solver|].
  rewrite max_opt_snoc. setoid_rewrite in_app_iff. cbn [In].
  destruct (max_opt l) as [m|] eqn:Em; cbn [default]; unfold id.
  - destruct (proj1 (IH m) eq_refl) as [Hm Hle]. split.
    + intros [= <-]. split.
      * destruct (Z.max_spec m x) as [[_ ->]|[_ ->]]; auto.
      * intros y [Hy|[->|[]]]; [specialize (Hle _ Hy)|]; lia.
    + intros [Hin Hall]. f_equal. pose proof (Hall m (or_introl Hm)).
      pose proof (Hall x (or_intror (or_introl eq_refl))).
      destruct Hin as [Hin|[<-|[]]]; [specialize (Hle _ Hin)|]; unfold id; lia.
  - assert (l = []) as -> by (by destruct l). rewrite Z.max_id. simpl. split.
    + intros [= <-]. split; [auto|]. intros y [[]|[<-|[]]]. lia.
    + by intros [[[]|[<-|[]]] _].
Qed.

Lemma fold_heartbeats l g agent :
  g_scheduler_heartbeats g = ∅ ->
  g_scheduler_heartbeats (fold_events l g) !! agent = max_opt (omap (tick_of agent) (List.map snd l)).
Proof.
  intros H0. induction l as [|[n e] l IH] using rev_ind; [cbn; by rewrite H0|].
  rewrite fold_events_snoc, apply_heartbeats, IH, List.map_app, omap_app. cbn.
  destruct (tick_of agent e); [by rewrite max_opt_snoc|by rewrite app_nil_r].
Qed.

(** The heartbeat of an agent is its latest tick, however the ledger orders
    them: it is one of the recorded ticks, and none is later. *)
Theorem heartbeat_is_latest_tick l g agent h :
  g_scheduler_heartbeats g = ∅ ->
  g_scheduler_heartbeats (fold_events l g) !! agent = Some h <->
  (exists e, In e (List.map snd l) /\ tick_of agent e = Some h)
  /\ (forall e ts, In e (List.map snd l) -> tick_of agent e = Some ts -> ts <= h).
Proof.
  intros H0. rewrite fold_heartbeats, max_opt_spec, in_omap by done. setoid_rewrite in_omap.
  naive_solver.
Qed.

Lemma heartbeat_is_latest_tick_witness :
  g_scheduler_heartbeats (fold_events
    [(0, SchedulerTicked "g" "a" "tick" None 9); (0, SchedulerTicked "g" "a" "tick" None 4);
     (0, SchedulerTicked "g" "b" "tick" None 20)] (goal_new 0 "g" "o" "/")) !! "a" = Some 9.
Proof.
  apply (heartbeat_is_latest_tick _ _ "a" 9); [reflexivity|]. split.
  - exists (SchedulerTicked "g" "a" "tick" None 9). split; [left; reflexivity|reflexivity].
  - intros e ts [<-|[<-|[<-|[]]]] H; vm_compute in H; try discriminate; injection H as <-; lia.
Defined.

(** * Steering addressed to a recipient *)
Definition issues (agent : option string) (e : Event) : option Instruction :=
  match e with
  | ControlIssued _ i _ => if addressed i agent then Some i else None
  | _ => None
  end.
Definition acknowledges (agent : option string) (e : Event) : option string :=
  match e with
  | ControlAcknowledged _ id who _ => if bool_decide (who = agent) then Some id else None
  | _ => None
  end.
(** The latest instruction of its scope among those issued. *)
Definition Latest (agent : option string) (es : list Event) (i : Instruction) : Prop :=
  exists l1 l2, omap (issues agent) es = l1 ++ i :: l2
    /\ forall j, In j l2 -> in_agent_id j <> in_agent_id i.

Lemma latest_snoc l x (i : Instruction) :
  (exists l1 l2, l ++ [x] = l1 ++ i :: l2 /\ forall j, In j l2 -> in_agent_id j <> in_agent_id i)
  <-> i = x \/ (in_agent_id x <> in_agent_id i
               /\ exists l1 l2, l = l1 ++ i :: l2 /\ forall j, In j l2 -> in_agent_id j <> in_agent_id i).
Proof.
  split.
  - intros (l1 & l2 & E & H). destruct l2 as [|y l2 _] using rev_ind.
    + apply app_inj_tail in E as [_ ->]. by left.
    + rewrite app_comm_cons, (assoc app) in E. apply app_inj_tail in E as [-> ->]. right. split.
      * apply H, in_app_iff. simpl. auto.
      * exists l1, l2. split; [done|]. intros j Hj. apply H, in_app_iff. auto.
  - intros [->|(Hx & l1 & l2 & -> & H)]; [by exists l, []|].
    exists l1, (l2 ++ [x]). split; [by rewrite <- (assoc app)|].
    intros j [Hj|[<-|[]]]%in_app_iff; auto.
Qed.

Lemma control_fold agent es :
  let st := List.fold_left (control_step agent) es ([], []) in
  (forall i, In i (fst st) <-> Latest agent es i)
  /\ (forall id, In id (snd st) <-> In id (omap (acknowledges agent) es)).
Proof.
  induction es as [|e es IH] using rev_ind.
  { split; [|done]. intros i. split; [done|]. by intros ([|] & l2 & ? & _). }
  cbv zeta in *. rewrite List.fold_left_app. cbn [List.fold_left].
  destruct (List.fold_left (control_step agent) es ([], [])) as [iss acks]. destruct IH as [Hi Ha].
  unfold Latest in *. rewrite !omap_app. cbn [fst snd] in *.
  assert (Hskip : issues agent e = None -> acknowledges agent e = None ->
    (forall i, In i iss <-> exists l1 l2, omap (issues agent) es ++ omap (issues agent) [e] = l1 ++ i :: l2
       /\ forall j, In j l2 -> in_agent_id j <> in_agent_id i)
    /\ (forall id, In id acks <-> In id (omap (acknowledges agent) es ++ omap (acknowledges agent) [e]))).
  { intros H1 H2. cbn. rewrite H1, H2, !app_nil_r. auto. }
  destruct e; cbn [control_step]; try (by apply Hskip).
  - destruct (addressed instruction agent) eqn:Ead; [|by apply Hskip; simpl; rewrite ?Ead].
    cbn. rewrite Ead, app_nil_r. split; [|done]. intros i.
    rewrite latest_snoc, <- Hi, in_app_iff, List.filter_In, negb_true_iff, bool_decide_eq_false.
    simpl. naive_solver.
  - destruct (bool_decide (agent_id = agent)) eqn:Eag; [|by apply Hskip; simpl; rewrite ?Eag].
    cbn. rewrite Eag, app_nil_r. split; [done|]. intros id.
    rewrite in_app_iff, <- Ha. simpl. tauto.
Qed.

(** The instructions pending for a recipient are exactly those that are the
    latest of their scope - the broadcast scope or the recipient's own - and
    that this recipient itself has not acknowledged; another recipient's
    acknowledgement never consumes a broadcast. *)
Theorem pending_controls_iff agent es i :
  In i (pending es agent) <->
  Latest agent es i
  /\ forall gid who ts, In (ControlAcknowledged gid (in_id i) who ts) es -> who <> agent.
Proof.
  unfold pending. pose proof (control_fold agent es) as [Hi Ha]. cbv zeta in *.
  destruct (List.fold_left _ es _) as [iss acks]. cbn [fst snd] in *.
  rewrite List.filter_In, Hi, negb_true_iff, existsb_false.
  assert (E : (forall x, In x acks -> (in_id i =?s x) = false) <-> ~ In (in_id i) acks).
  { split; [intros H Hin; specialize (H _ Hin); by rewrite String.eqb_refl in H|].
    intros H x Hx. apply String.eqb_neq. by intros <-. }
  rewrite E, Ha, in_omap. split; intros [? H]; (split; [done|]).
  - intros gid who ts Hin ->. apply H. eexists. split; [exact Hin|]. simpl. by rewrite bool_decide_eq_true_2.
  - intros (e & Hin & He). destruct e; try done. simpl in He.
    destruct (bool_decide_reflect (agent_id = agent)); simplify_eq. by eapply H.
Qed.
