(* ===== verification/TaskLease.v ===== *)
(** Task leases (work_items/task_lease.rs): the derived lease status of a todo
    and the claim / renew / release / expire operations.  Operations return the
    error message or the outcome together with the todo they leave. *)
From S2P Require Import Prelude Cadence Todos GoalState.

Definition TASK_LEASE_SCHEMA_VERSION : string := "task_lease_v0".
Definition DEFAULT_TASK_LEASE_TTL_SECONDS : u64 := 45 * 60.
Definition MAX_TASK_LEASE_TTL_SECONDS : u64 := 24 * 60 * 60.

(** [Result<A>] of the fallible operations. *)
Definition result (A : Type) : Type := string + A.

Inductive LeaseStatus :=
| LeaseFree
| LeaseActive (owner : string) (expires_at : u64)
| LeaseExpired (owner : string) (expires_at : u64).

Definition lease_status (t : Todo) (now : u64) : LeaseStatus :=
  match td_claimed_by t, td_lease_expires_at t with
  | Some owner, Some expires =>
      if now <? expires then LeaseActive owner expires else LeaseExpired owner expires
  | _, _ => LeaseFree
  end.
Definition lease_is_active (t : Todo) (now : u64) : bool :=
  match lease_status t now with LeaseActive _ _ => true | _ => false end.

Definition normalize_ttl (ttl_seconds : u64) : result u64 :=
  let ttl := if ttl_seconds =? 0 then DEFAULT_TASK_LEASE_TTL_SECONDS else ttl_seconds in
  if MAX_TASK_LEASE_TTL_SECONDS <? ttl
  then inl ("ttl seconds must be between 1 and " +:+ show MAX_TASK_LEASE_TTL_SECONDS)
  else inr ttl.

Record ClaimOutcome := mkClaimOutcome { co_idempotent : bool; co_steal : bool }.
Inductive LeaseOp :=
| OpRenewed
| OpReleased (missing : bool)
| OpExpired (had_lease : bool).

Section Operations.
(** [compat::pid_alive] and [std::process::id()]. *)
Variable pid_alive : u32 -> bool.
Variable process_id : u32.

(** The writes of every branch that acquires the lease. *)
Definition acquire (agent : string) (ttl now : u64) (t : Todo) : Todo :=
  t <| td_claimed_by := Some agent |>
    <| td_lease_expires_at := Some (u64_add now ttl) |>
    <| td_holder_pid := Some process_id |>
    <| td_updated_at := now |>.

Definition holder_dead (t : Todo) : bool :=
  match td_holder_pid t with Some pid => negb (pid_alive pid) | None => false end.

Definition lease_claim (t : Todo) (agent : string) (lease_secs now : u64)
  : result (ClaimOutcome * Todo) :=
  if negb (status_is (td_status t) Open) then inl "task lease requires an open todo"
  else match normalize_ttl lease_secs with
  | inl e => inl e
  | inr ttl =>
      match lease_status t now with
      | LeaseActive owner _ =>
          if owner =?s agent then inr ({| co_idempotent := true; co_steal := false |}, t)
          else if holder_dead t
          then inr ({| co_idempotent := false; co_steal := true |}, acquire agent ttl now t)
          else inl "todo already has an active lease held by another agent"
      | LeaseFree => inr ({| co_idempotent := false; co_steal := false |}, acquire agent ttl now t)
      | LeaseExpired _ _ =>
          inr ({| co_idempotent := false; co_steal := true |}, acquire agent ttl now t)
      end
  end.

Definition lease_renew (t : Todo) (agent : string) (lease_secs now : u64) : result (LeaseOp * Todo) :=
  match normalize_ttl lease_secs with
  | inl e => inl e
  | inr ttl =>
      match lease_status t now with
      | LeaseActive owner _ =>
          if owner =?s agent
          then inr (OpRenewed, t <| td_lease_expires_at := Some (u64_add now ttl) |>
                                 <| td_updated_at := now |>)
          else inl "lease owner mismatch"
      | _ => inl "lease is missing or expired"
      end
  end.

Definition lease_release (t : Todo) (agent : string) (now : u64) : result (LeaseOp * Todo) :=
  match lease_status t now with
  | LeaseActive owner _ =>
      if owner =?s agent
      then inr (OpReleased false, t <| td_claimed_by := None |> <| td_lease_expires_at := None |>
                                    <| td_updated_at := now |>)
      else inl "lease owner mismatch"
  | LeaseFree => inr (OpReleased true, t)
  | LeaseExpired _ _ => inr (OpReleased true, t)
  end.

Definition lease_expire (t : Todo) (now : u64) : result (LeaseOp * Todo) :=
  match lease_status t now with
  | LeaseExpired _ _ =>
      inr (OpExpired true, t <| td_claimed_by := None |> <| td_lease_expires_at := None |>
                             <| td_updated_at := now |>)
  | LeaseFree => inr (OpExpired false, t)
  | LeaseActive _ _ => inl "lease is still active"
  end.

Definition dead_holder_todos (g : Goal) : list Todo :=
  List.filter (fun t => status_is (td_status t) Open && bool_decide (is_Some (td_claimed_by t))
                        && match td_holder_pid t with
                           | Some pid => negb (pid_alive pid)
                           | None => false
                           end) (g_todos g).
End Operations.
