(* ===== verification/TaskLeaseProps.v ===== *)
(** Properties of task leases: the refinement of an abstract lease, exclusion
    under any interleaving of operations, and agreement with the ledger fold. *)
From S2P Require Import Prelude Cadence Todos GoalState Contract Signals GoalFrontier Ledger TaskLease GoalProps.

(** * The abstract lease *)
(** What the component promises: at most one holder, until a deadline. *)
Definition lease := option (string * u64).
Definition holder_at (l : lease) (now : u64) : option string :=
  match l with Some (o, e) => if now <? e then Some o else None | None => None end.

Inductive Request :=
| RClaim (agent : string) (secs : u64)
| RRenew (agent : string) (secs : u64)
| RRelease (agent : string)
| RExpire.
(** One request, at a time, with the process table of that moment. *)
Record Call := { c_now : u64; c_alive : u32 -> bool; c_pid : u32; c_req : Request }.

Definition ttl_of (secs : u64) : option u64 :=
  let ttl := if secs =? 0 then 2700 else secs in if 86400 <? ttl then None else Some ttl.

(** The contract: which requests are granted, and the lease they leave; [open]
    is whether the todo is open, [dead] whether the holder's process died. *)
Definition lease_spec (open dead : bool) (now : u64) (r : Request) (l : lease) : option lease :=
  let until ttl agent := Some (Some (agent, u64_add now ttl)) in
  match r with
  | RClaim agent secs =>
      match ttl_of secs with
      | Some ttl =>
          if negb open then None
          else match holder_at l now with
               | Some o => if o =?s agent then Some l else if dead then until ttl agent else None
               | None => until ttl agent
               end
      | None => None
      end
  | RRenew agent secs =>
      match ttl_of secs, holder_at l now with
      | Some ttl, Some o => if o =?s agent then until ttl agent else None
      | _, _ => None
      end
  | RRelease agent =>
      match holder_at l now with
      | Some o => if o =?s agent then Some None else None
      | None => Some l
      end
  | RExpire => match holder_at l now with Some _ => None | None => Some None end
  end.

(** The implementation of a request: the todo it leaves when it is granted. *)
Definition perform (c : Call) (t : Todo) : option Todo :=
  match c_req c with
  | RClaim agent secs =>
      match lease_claim (c_alive c) (c_pid c) t agent secs (c_now c) with inr (_, t) => Some t | inl _ => None end
  | RRenew agent secs =>
      match lease_renew t agent secs (c_now c) with inr (_, t) => Some t | inl _ => None end
  | RRelease agent => match lease_release t agent (c_now c) with inr (_, t) => Some t | inl _ => None end
  | RExpire => match lease_expire t (c_now c) with inr (_, t) => Some t | inl _ => None end
  end.

(** The lease a todo carries; half a lease is none. *)
Definition lease_of (t : Todo) : lease :=
  match td_claimed_by t, td_lease_expires_at t with
  | Some o, Some e => Some (o, e)
  | _, _ => None
  end.

Lemma normalize_ttl_spec secs :
  match normalize_ttl secs with inr ttl => ttl_of secs = Some ttl | inl _ => ttl_of secs = None end.
Proof.
  unfold normalize_ttl, ttl_of, DEFAULT_TASK_LEASE_TTL_SECONDS, MAX_TASK_LEASE_TTL_SECONDS.
  change (45 * 60) with 2700. change (24 * 60 * 60) with 86400.
  by destruct (86400 <? (if secs =? 0 then 2700 else secs)).
Qed.

Lemma status_holder t now :
  match lease_status t now with
  | LeaseActive o e => lease_of t = Some (o, e) /\ holder_at (lease_of t) now = Some o /\ now < e
  | LeaseExpired o e => lease_of t = Some (o, e) /\ holder_at (lease_of t) now = None /\ e <= now
  | LeaseFree => lease_of t = None /\ holder_at (lease_of t) now = None
  end.
Proof.
  unfold lease_status, lease_of.
  destruct (td_claimed_by t), (td_lease_expires_at t) as [e|]; simpl; try done.
  destruct (Z.ltb_spec now e); simpl; auto.
Qed.

(** C26: the lease operations refine the abstract lease: a request is granted
    exactly when the contract grants it, and the lease of the todo is then the
    contract's. *)
Theorem lease_refines_spec c t :
  option_map lease_of (perform c t)
  = lease_spec (status_is (td_status t) Open)
      (match td_holder_pid t with Some pid => negb (c_alive c pid) | None => false end)
      (c_now c) (c_req c)
      (lease_of t).
Proof.
  unfold perform, lease_spec, lease_claim, lease_renew, lease_release, lease_expire.
  fold (holder_dead (c_alive c) t). pose proof (status_holder t (c_now c)) as H.
  destruct (c_req c) as [agent secs|agent secs|agent|].
  - pose proof (normalize_ttl_spec secs) as Ht.
    destruct (normalize_ttl secs) as [err|ttl]; rewrite Ht;
      [by destruct (negb (status_is (td_status t) Open))|].
    destruct (negb (status_is (td_status t) Open)); [done|].
    destruct (lease_status t (c_now c)) as [|o e|o e]; [by destruct H as [_ ->]| |by destruct H as (_ & -> & _)].
    destruct H as (_ & -> & _). destruct (o =?s agent); [done|]. by destruct (holder_dead _ t).
  - pose proof (normalize_ttl_spec secs) as Ht. destruct (normalize_ttl secs) as [err|ttl]; rewrite Ht; [done|].
    destruct (lease_status t (c_now c)) as [|o e|o e]; [by destruct H as [_ ->]| |by destruct H as (_ & -> & _)].
    destruct H as (Hl & -> & _). destruct (String.eqb_spec o agent) as [->|]; [|done].
    cbn. unfold lease_of in *. cbn. by destruct (td_claimed_by t), (td_lease_expires_at t); simplify_eq.
  - destruct (lease_status t (c_now c)) as [|o e|o e]; [by destruct H as [_ ->]| |by destruct H as (_ & -> & _)].
    destruct H as (_ & -> & _). by destruct (o =?s agent).
  - destruct (lease_status t (c_now c)) as [|o e|o e].
    + destruct H as [Hl Hh]. rewrite Hh. cbn [option_map]. by rewrite Hl.
    + destruct H as (Hl & Hh & _). by rewrite Hh.
    + destruct H as (Hl & Hh & _). by rewrite Hh.
Qed.

(** * Exclusion *)
Definition requester (r : Request) : option string :=
  match r with RClaim a _ | RRenew a _ | RRelease a => Some a | RExpire => None end.
(** A refused request leaves the todo alone. *)
Definition serve (t : Todo) (c : Call) : Todo := default t (perform c t).


(** While an agent holds a lease and its process lives, no interleaving of
    other agents' requests - claims, renewals, releases, expiries - before the
    deadline changes the todo, and every one of them is refused. *)
Theorem lease_excludes_others calls t a e :
  lease_of t = Some (a, e) ->
  (forall c, In c calls ->
     c_now c < e /\ (forall pid, td_holder_pid t = Some pid -> c_alive c pid = true)
     /\ requester (c_req c) <> Some a) ->
  List.fold_left serve calls t = t /\ forall c, In c calls -> perform c t = None.
Proof.
  intros Hl Hcalls.
  assert (Hall : forall c, In c calls -> perform c t = None).
  { intros c Hin. destruct (Hcalls c Hin) as (Hnow & Hpid & Hreq).
    assert (Hdead : holder_dead (c_alive c) t = false).
    { unfold holder_dead. destruct (td_holder_pid t); [by rewrite Hpid|done]. }
    assert (Hs : lease_status t (c_now c) = LeaseActive a e).
    { unfold lease_status, lease_of in *.
      destruct (td_claimed_by t), (td_lease_expires_at t); simplify_eq.
      by rewrite (proj2 (Z.ltb_lt _ _)). }
    unfold perform, lease_claim, lease_renew, lease_release, lease_expire. rewrite Hs, Hdead.
    destruct (c_req c) as [b secs|b secs|b|]; [| | |done]; simpl in Hreq;
      assert (Hab : (a =?s b) = false) by (apply String.eqb_neq; congruence); rewrite Hab; [| |done].
    - destruct (negb _); [done|]. by destruct (normalize_ttl secs).
    - by destruct (normalize_ttl secs). }
  split; [|done]. clear Hl Hcalls. induction calls as [|c calls IH]; [done|]. simpl.
  unfold serve at 2. rewrite Hall by (by left). apply IH. intros c' Hc'. apply Hall. by right.
Qed.

Definition held_todo : Todo :=
  acquire 41 "a" 60 1000 (advancement 0 "T1" "x").
Lemma lease_excludes_others_witness :
  List.fold_left serve
    [{| c_now := 1010; c_alive := fun _ => true; c_pid := 7; c_req := RClaim "b" 60 |};
     {| c_now := 1020; c_alive := fun _ => true; c_pid := 7; c_req := RExpire |}] held_todo
  = held_todo.
Proof.
  apply (lease_excludes_others _ held_todo "a" 1060); [vm_compute; reflexivity|].
  intros c [<-|[<-|[]]]; (split; [reflexivity|split; [reflexivity|discriminate]]).
Defined.

(** An open todo under no live lease is there for the taking: any agent with
    an admissible time-to-live is granted the claim, the lease runs at least one
    second and at most a day past the clock, and nothing else of the todo
    changes. *)
Theorem free_todo_claimable alive pid t agent secs now :
  td_status t = Open -> holder_at (lease_of t) now = None ->
  0 <= secs <= 86400 -> 0 <= now -> now + 86400 <= u64_max ->
  exists o t' e, lease_claim alive pid t agent secs now = inr (o, t')
    /\ co_idempotent o = false /\ (co_steal o = true <-> lease_of t <> None)
    /\ lease_of t' = Some (agent, e) /\ now < e <= now + 86400
    /\ t' = t <| td_claimed_by := Some agent |> <| td_lease_expires_at := Some e |>
              <| td_holder_pid := Some pid |> <| td_updated_at := now |>.
Proof.
  intros Ho Hf Hsecs Hnow Hmax. unfold lease_claim. rewrite Ho. simpl.
  pose proof (normalize_ttl_spec secs) as Ht. unfold ttl_of in Ht.
  assert (Hb : (if secs =? 0 then 2700 else secs) <= 86400 /\ 1 <= (if secs =? 0 then 2700 else secs)).
  { destruct (Z.eqb_spec secs 0); lia. }
  rewrite (proj2 (Z.ltb_ge _ _)) in Ht by lia.
  destruct (normalize_ttl secs) as [|ttl]; [done|]. injection Ht as Ht.
  assert (He : u64_add now ttl = now + ttl).
  { unfold u64_add. apply Z.mod_small. unfold u64_max in *. lia. }
  pose proof (status_holder t now) as Hst.
  destruct (lease_status t now) as [|o e|o e].
  - destruct Hst as [Hl _]. eexists _, _, (now + ttl). split; [done|]. unfold acquire. rewrite He.
    split; [done|]. split; [by rewrite Hl|]. split; [done|]. split; [lia|done].
  - destruct Hst as (_ & Hh & _). congruence.
  - destruct Hst as (Hl & _). eexists _, _, (now + ttl). split; [done|]. unfold acquire. rewrite He.
    split; [done|]. split; [by rewrite Hl|]. split; [done|]. split; [lia|done].
Qed.

Lemma free_todo_claimable_witness :
  exists o t' e, lease_claim (fun _ => true) 7 (advancement 0 "T1" "x") "a" 0 1000 = inr (o, t')
    /\ lease_of t' = Some ("a", e) /\ 1000 < e <= 1000 + 86400.
Proof.
  destruct (free_todo_claimable (fun _ => true) 7 (advancement 0 "T1" "x") "a" 0 1000)
    as (o & t' & e & H1 & _ & _ & H2 & H3 & _);
    [reflexivity|reflexivity|lia|lia|unfold u64_max; lia|].
  exists o, t', e. auto.
Defined.

(** * Leases and the ledger *)
(** The event an operation's caller appends, and its effect on the todo when
    the ledger is replayed. *)
Definition replayed (c : Call) (t : Todo) : Todo :=
  match c_req c with
  | RClaim agent secs =>
      match ttl_of secs with
      | Some ttl => claimed_todo agent (u64_add (c_now c) ttl) (Some (c_pid c)) t
      | None => t
      end
  | RRenew agent secs =>
      match ttl_of secs with
      | Some ttl => renewed_todo agent (u64_add (c_now c) ttl) (c_now c) t
      | None => t
      end
  | RRelease agent => released_todo agent (c_now c) t
  | RExpire => expired_todo (c_now c) t
  end.
Definition same_lease (t1 t2 : Todo) : Prop :=
  td_claimed_by t1 = td_claimed_by t2 /\ td_lease_expires_at t1 = td_lease_expires_at t2.

(** Replaying the event of a granted operation rebuilds the lease the
    operation left: a renewal, a release or an expiry rebuilds the whole todo,
    a claim that took the lease rebuilds holder, deadline and process. *)
Theorem granted_lease_replays c t :
  match c_req c with
  | RClaim agent secs => forall o t',
      lease_claim (c_alive c) (c_pid c) t agent secs (c_now c) = inr (o, t') ->
      co_idempotent o = false ->
      same_lease t' (replayed c t) /\ td_holder_pid t' = td_holder_pid (replayed c t)
  | RRenew agent secs => forall o t',
      lease_renew t agent secs (c_now c) = inr (o, t') -> t' = replayed c t
  | RRelease agent => forall t',
      lease_release t agent (c_now c) = inr (OpReleased false, t') -> t' = replayed c t
  | RExpire => forall t',
      lease_expire t (c_now c) = inr (OpExpired true, t') -> t' = replayed c t
  end.
Proof.
  unfold replayed. destruct (c_req c) as [agent secs|agent secs|agent|].
  - intros o t'. unfold lease_claim. pose proof (normalize_ttl_spec secs) as Ht.
    destruct (negb _); [done|]. destruct (normalize_ttl secs) as [|ttl]; [done|]. rewrite Ht.
    destruct (lease_status t (c_now c)) as [|h e|h e].
    + by intros [= <- <-].
    + destruct (h =?s agent); [by intros [= <- <-]|]. destruct (holder_dead _ t); [|done].
      by intros [= <- <-].
    + by intros [= <- <-].
  - intros o t'. unfold lease_renew, lease_status. pose proof (normalize_ttl_spec secs) as Ht.
    destruct (normalize_ttl secs) as [|ttl]; [done|]. rewrite Ht. unfold renewed_todo.
    destruct (td_claimed_by t) as [h|] eqn:Ec; [|done]. destruct (td_lease_expires_at t); [|done].
    destruct (_ <? _); [|done]. destruct (h =?s agent); [|done]. by intros [= <- <-].
  - intros t'. unfold lease_release, lease_status, released_todo.
    destruct (td_claimed_by t) as [h|] eqn:Ec; [|done]. destruct (td_lease_expires_at t); [|done].
    destruct (_ <? _); [|done]. destruct (String.eqb_spec h agent) as [->|]; [|done].
    rewrite bool_decide_eq_true_2 by done. by intros [= <-].
  - intros t'. unfold lease_expire, lease_status, expired_todo.
    destruct (td_claimed_by t) as [h|] eqn:Ec; [|done]. destruct (td_lease_expires_at t); [|done].
    destruct (_ <? _); [done|]. by intros [= <-].
Qed.

Lemma granted_lease_replays_witness :
  exists o t', lease_renew held_todo "a" 120 1010 = inr (o, t')
    /\ t' = replayed {| c_now := 1010; c_alive := fun _ => true; c_pid := 7; c_req := RRenew "a" 120 |} held_todo.
Proof.
  eexists _, _. split; [reflexivity|].
  eapply (granted_lease_replays
    {| c_now := 1010; c_alive := fun _ => true; c_pid := 7; c_req := RRenew "a" 120 |} held_todo).
  reflexivity.
Defined.

(** The report of stranded todos is exact: open todos under a claim whose
    recorded process no longer lives. *)
Theorem dead_holders_exact alive g t :
  In t (dead_holder_todos alive g) <->
  In t (g_todos g) /\ td_status t = Open /\ is_Some (td_claimed_by t)
  /\ exists pid, td_holder_pid t = Some pid /\ alive pid = false.
Proof.
  unfold dead_holder_todos. rewrite List.filter_In, !andb_true_iff, status_is_true, bool_decide_eq_true.
  destruct (td_holder_pid t) as [pid|]; [rewrite negb_true_iff|]; naive_solver.
Qed.
