(* ===== verification/TaskGraph.v ===== *)
(** The task graph (work_items/task_graph.rs): dependency edges, the validation
    of a dependency edit, and the graph with Kahn's topological order.  A
    [BTreeMap] is a finite map; where its iteration order matters, the sorted
    list of its keys. *)
From S2P Require Import Prelude Cadence Todos GoalState.

Definition TASK_GRAPH_SCHEMA_VERSION : string := "task_graph_v0".

Record TaskGraphNode := mkTaskGraphNode {
  tn_todo_id : string; tn_class : string; tn_status : string; tn_text : string
}.
Record TaskGraphEdge := mkTaskGraphEdge {
  te_from : string; te_to : string; te_relation : string
}.
Record TaskGraph := mkTaskGraph {
  tk_schema_version : string;
  tk_nodes : list TaskGraphNode;
  tk_edges : list TaskGraphEdge;
  tk_topological_order : option (list string);
  tk_cycle : option (list string)
}.

Definition predecessor_ids (t : Todo) : list string :=
  match td_blocked_by_gate t with
  | Some s => List.filter (fun p => negb (p =?s "")) (List.map trim (split_on "," s))
  | None => []
  end.
Definition is_blocking_source (t : Todo) : bool :=
  class_is (td_class t) UserGate || class_is (td_class t) Blocker.

(** The edge a reference declares: a gate or blocker names what it blocks, any
    other todo names what blocks it. *)
Definition edge_of (t : Todo) (other : string) : string * string :=
  if is_blocking_source t then (td_id t, other) else (other, td_id t).
Definition todo_edges (t : Todo) : list (string * string) :=
  List.map (edge_of t) (predecessor_ids t).
Definition goal_edges (g : Goal) : list (string * string) := List.flat_map todo_edges (g_todos g).

(** [map.entry(from).or_default().push(to)] over the edges. *)
Definition push_edge (m : gmap string (list string)) (e : string * string)
  : gmap string (list string) :=
  <[fst e := default [] (m !! fst e) ++ [snd e]]> m.
Definition adjacency (edges : list (string * string)) : gmap string (list string) :=
  List.fold_left push_edge edges ∅.
Definition successors (m : gmap string (list string)) (id : string) : list string :=
  default [] (m !! id).

(** * validate_dependency_change *)
(** The first bad reference of the todo. *)
Definition bad_reference (g : Goal) (todo_id id : string) : option string :=
  if id =?s todo_id then Some ("todo `" +:+ todo_id +:+ "` cannot reference itself")
  else match todo g id with
       | None => Some ("todo `" +:+ todo_id +:+ "` references unknown todo `" +:+ id +:+ "`")
       | Some _ => None
       end.
Fixpoint first_error {A} (f : A -> option string) (l : list A) : option string :=
  match l with
  | [] => None
  | x :: r => match f x with Some e => Some e | None => first_error f r end
  end.

(** The depth-first search from the todo's successors.  [pending] is the stack,
    its top first; [None] is running out of fuel. *)
Fixpoint search (fuel : nat) (outgoing : gmap string (list string)) (todo_id : string)
    (pending : list string) (visited : gset string) : option bool :=
  match pending with
  | [] => Some false
  | id :: rest =>
      match fuel with
      | O => None
      | S fuel =>
          if id =?s todo_id then Some true
          else if decide (id ∈ visited) then search fuel outgoing todo_id rest visited
          else search fuel outgoing todo_id (List.rev (successors outgoing id) ++ rest)
                 ({[id]} ∪ visited)
      end
  end.

(** Every round takes one entry off the stack and every edge is pushed at most
    once more, so twice the number of edges is fuel enough. *)
Definition validate_dependency_change (g : Goal) (todo_id : string) : option (string + unit) :=
  match todo g todo_id with
  | None => Some (inl ("unknown todo `" +:+ todo_id +:+ "`"))
  | Some t =>
      match first_error (bad_reference g todo_id) (predecessor_ids t) with
      | Some e => Some (inl e)
      | None =>
          let edges := goal_edges g in
          let outgoing := adjacency edges in
          match search (2 * List.length edges) outgoing todo_id
                  (List.rev (successors outgoing todo_id)) ∅ with
          | Some true => Some (inl ("dependency cycle involving todo `" +:+ todo_id +:+ "`"))
          | Some false => Some (inr tt)
          | None => None
          end
      end
  end.

(** * topological_sort *)
Record TopoState := mkTopoState {
  tp_queue : list string;
  tp_order : list string;
  tp_indegree : gmap string Z
}.

(** One successor of the node taken: [None] is the failed [expect] or a counter
    going below zero. *)
Definition relax (st : option TopoState) (n : string) : option TopoState :=
  match st with
  | None => None
  | Some st =>
      match tp_indegree st !! n with
      | None => None
      | Some d =>
          if d <=? 0 then None
          else
            let indegree := <[n := d - 1]> (tp_indegree st) in
            Some {| tp_queue := if d - 1 =? 0 then sort_strings (tp_queue st ++ [n]) else tp_queue st;
                    tp_order := tp_order st; tp_indegree := indegree |}
      end
  end.

(** The loop over the queue: each round takes one node, so the number of nodes
    is fuel enough. *)
Fixpoint kahn (fuel : nat) (adj : gmap string (list string)) (st : TopoState) : option TopoState :=
  match tp_queue st with
  | [] => Some st
  | id :: rest =>
      match fuel with
      | O => None
      | S fuel =>
          match List.fold_left relax (successors adj id)
                  (Some {| tp_queue := rest; tp_order := tp_order st ++ [id];
                           tp_indegree := tp_indegree st |}) with
          | Some st => kahn fuel adj st
          | None => None
          end
      end
  end.

(** The walk over leftover successors that reports a cycle. *)
Fixpoint cycle_walk (fuel : nat) (adj : gmap string (list string)) (leftover : list string)
    (start current : string) (seen : gset string) (path : list string) : option (list string) :=
  match fuel with
  | O => None
  | S fuel =>
      match List.find (fun n => existsb (String.eqb n) leftover) (successors adj current) with
      | Some n =>
          if n =?s start then Some (path ++ [n])
          else if decide (n ∈ seen) then Some path
          else cycle_walk fuel adj leftover start n ({[n]} ∪ seen) (path ++ [n])
      | None => Some path
      end
  end.

Definition bump (m : gmap string Z) (e : string * string) : gmap string Z :=
  <[snd e := default 0 (m !! snd e) + 1]> m.

Definition topological_sort (todos : list Todo) (edges : list (string * string))
  : option (list string * list string) :=
  let ids := btree_set (List.map td_id todos) in
  let known id := existsb (String.eqb id) ids in
  let kept := List.filter (fun e => known (fst e) && known (snd e)) edges in
  let indegree0 := List.fold_left (fun m id => <[id := 0]> m) ids (∅ : gmap string Z) in
  let indegree := List.fold_left bump kept indegree0 in
  let adj := adjacency kept in
  let queue := List.filter (fun id => bool_decide (indegree !! id = Some 0)) ids in
  match kahn (List.length ids) adj
          {| tp_queue := sort_strings queue; tp_order := []; tp_indegree := indegree |} with
  | None => None
  | Some st =>
      let order := tp_order st in
      if (List.length order =? List.length ids)%nat then Some (order, [])
      else
        let leftover := List.filter (fun id => negb (existsb (String.eqb id) order)) ids in
        match leftover with
        | [] => None  (* [leftover[0]] of an empty vector *)
        | start :: _ =>
            match cycle_walk (S (List.length leftover)) adj leftover start start {[start]} [start] with
            | Some path => Some (order, path)
            | None => None
            end
        end
  end.

(** * build_task_graph *)
(** [edges.sort(); edges.dedup()] *)
Definition compare_edge (a b : string * string) : comparison :=
  match String.compare (fst a) (fst b) with
  | Eq => String.compare (snd a) (snd b)
  | c => c
  end.
Fixpoint insert_edge (x : string * string) (l : list (string * string)) : list (string * string) :=
  match l with
  | [] => [x]
  | y :: r => match compare_edge x y with Gt => y :: insert_edge x r | _ => x :: l end
  end.
Definition sort_edges (l : list (string * string)) : list (string * string) :=
  List.fold_right insert_edge [] l.
Fixpoint dedup_edges (l : list (string * string)) : list (string * string) :=
  match l with
  | x :: ((y :: _) as r) => if bool_decide (x = y) then dedup_edges r else x :: dedup_edges r
  | _ => l
  end.

Definition class_debug (c : TaskClass) : string :=
  match c with
  | Advancement => "advancement" | UserGate => "usergate" | UserAction => "useraction"
  | Monitor => "monitor" | Blocker => "blocker" | Coordination => "coordination"
  end.

Definition unknown_reference (known : list string) (t : Todo) (other : string) : option string :=
  if other =?s td_id t then Some ("todo `" +:+ td_id t +:+ "` cannot reference itself")
  else if negb (existsb (String.eqb other) known)
  then Some ("todo `" +:+ td_id t +:+ "` references unknown todo `" +:+ other +:+ "`")
  else None.

Definition build_task_graph (g : Goal) : option (string + TaskGraph) :=
  let known := btree_set (List.map td_id (g_todos g)) in
  match first_error (fun t => first_error (unknown_reference known t) (predecessor_ids t))
          (g_todos g) with
  | Some e => Some (inl e)
  | None =>
      let edges := dedup_edges (sort_edges (goal_edges g)) in
      match topological_sort (g_todos g) edges with
      | None => None
      | Some (order, cycle) =>
          Some (inr
            {| tk_schema_version := TASK_GRAPH_SCHEMA_VERSION;
               tk_nodes := List.map (fun t =>
                 {| tn_todo_id := td_id t; tn_class := class_debug (td_class t);
                    tn_status := future_goal_status (td_status t); tn_text := td_text t |})
                 (g_todos g);
               tk_edges := List.map (fun e =>
                 {| te_from := fst e; te_to := snd e; te_relation := "blocks" |}) edges;
               tk_topological_order := if is_empty cycle then Some order else None;
               tk_cycle := if is_empty cycle then None else Some cycle |})
      end
  end.

Definition successors_of (g : Goal) (todo_id : string) : list string :=
  match todo g todo_id with
  | None => []
  | Some t =>
      if is_blocking_source t then predecessor_ids t
      else List.map td_id
             (List.filter (fun u => negb (is_blocking_source u)
                                    && existsb (fun p => p =?s todo_id) (predecessor_ids u))
                (g_todos g))
  end.
Definition predecessors_of (t : Todo) : list string := predecessor_ids t.
