(* ===== verification/TaskGraphProps.v ===== *)
(** Properties of the task graph: a dependency edit is accepted exactly when it
    closes no cycle, and Kahn's order is total on acyclic graphs and fails
    closed on cyclic ones. *)
From S2P Require Import Prelude Cadence Todos GoalState TaskGraph GoalProps.

(** * Adjacency *)
Lemma successors_adjacency E id :
  successors (adjacency E) id = List.map snd (List.filter (fun e => fst e =?s id) E).
Proof.
  unfold adjacency. induction E as [|[f t] E IH] using rev_ind; [done|].
  rewrite List.fold_left_app, List.filter_app, List.map_app. cbn.
  unfold successors, push_edge in *. cbn. destruct (String.eqb_spec f id) as [->|Hne].
  - by rewrite lookup_insert_eq, IH.
  - by rewrite lookup_insert_ne, IH, app_nil_r.
Qed.
Lemma in_successors E f t : In t (successors (adjacency E) f) <-> In (f, t) E.
Proof.
  rewrite successors_adjacency, in_map_iff. split.
  - intros ([f' t'] & <- & Hin). apply List.filter_In in Hin as [Hin Hf].
    apply String.eqb_eq in Hf. simpl in *. by subst.
  - intros Hin. exists (f, t). split; [done|]. apply List.filter_In. split; [done|apply String.eqb_refl].
Qed.

(** * The edit check *)
Section Search.
Context (E : list (string * string)) (root : string).
Definition Edge (a b : string) : Prop := In (a, b) E.

Definition unvisited (visited : gset string) : list (string * string) :=
  List.filter (fun e => negb (bool_decide (fst e ∈ visited))) E.
Lemma unvisited_step id visited :
  id ∉ visited ->
  List.length (unvisited visited)
  = (List.length (successors (adjacency E) id) + List.length (unvisited ({[id]} ∪ visited)))%nat.
Proof.
  intros Hid. rewrite successors_adjacency, List.length_map. unfold unvisited.
  induction E as [|[f t] l IH]; [done|]. simpl.
  destruct (String.eqb_spec f id) as [->|Hne].
  - rewrite (bool_decide_eq_false_2 _ Hid). rewrite bool_decide_eq_true_2 by set_solver. simpl. lia.
  - rewrite (bool_decide_ext (f ∈ {[id]} ∪ visited) (f ∈ visited)) by set_solver.
    destruct (bool_decide (f ∈ visited)); simpl; lia.
Qed.

Lemma search_fuel fuel : forall pending visited,
  (List.length pending + List.length (unvisited visited) <= fuel)%nat ->
  is_Some (search fuel (adjacency E) root pending visited).
Proof.
  induction fuel as [|fuel IH]; intros [|id rest] visited Hm; simpl in *; try lia; [by eexists..|].
  destruct (id =?s root); [by eexists|]. destruct (decide (id ∈ visited)) as [Hv|Hv].
  - apply IH. lia.
  - apply IH. rewrite (unvisited_step id visited) in Hm by done.
    rewrite length_app, List.length_rev. lia.
Qed.

Lemma search_sound fuel : forall pending visited,
  (forall x, In x pending -> tc Edge root x) ->
  search fuel (adjacency E) root pending visited = Some true -> tc Edge root root.
Proof.
  induction fuel as [|fuel IH]; intros [|id rest] visited Hp; try done. simpl.
  destruct (String.eqb_spec id root) as [->|Hne]; [intros _; apply Hp; by left|].
  destruct (decide (id ∈ visited)); apply IH.
  - intros x Hx. apply Hp. by right.
  - intros x [Hx|Hx]%in_app_iff; [|apply Hp; by right].
    apply List.in_rev, in_successors in Hx. eapply tc_r; [apply Hp; by left|exact Hx].
Qed.

(** The search's invariant: what is reachable from the root in one step, or from
    a visited node, is visited or on the stack. *)
Definition Swept (visited : gset string) (pending : list string) : Prop :=
  (root ∉ visited)
  /\ (forall y, Edge root y -> (y ∈ visited) \/ In y pending)
  /\ (forall x y, x ∈ visited -> Edge x y -> (y ∈ visited) \/ In y pending).

Lemma swept_done visited : Swept visited [] -> ~ tc Edge root root.
Proof.
  intros (Hr & Hroot & Hcl) Hc.
  assert (Hall : forall y, tc Edge root y -> y ∈ visited).
  { apply (tc_ind_r (fun y => y ∈ visited) root).
    - intros y Hy. by destruct (Hroot y Hy).
    - intros y z _ Hyz IHy. by destruct (Hcl y z IHy Hyz). }
  by apply Hr, Hall.
Qed.

Lemma search_complete fuel : forall pending visited,
  Swept visited pending ->
  search fuel (adjacency E) root pending visited = Some false -> ~ tc Edge root root.
Proof.
  induction fuel as [|fuel IH]; intros [|id rest] visited Hs; simpl; try done;
    try (intros _; by eapply swept_done).
  destruct (String.eqb_spec id root) as [->|Hne]; [done|].
  destruct Hs as (Hr & Hroot & Hcl). destruct (decide (id ∈ visited)) as [Hv|Hv]; apply IH.
  - split; [done|]. split.
    + intros y Hy. destruct (Hroot y Hy) as [?|[->|?]]; auto.
    + intros x y Hx Hxy. destruct (Hcl x y Hx Hxy) as [?|[->|?]]; auto.
  - split; [set_solver|]. setoid_rewrite in_app_iff. setoid_rewrite <- List.in_rev.
    setoid_rewrite in_successors. split.
    + intros y Hy. destruct (Hroot y Hy) as [?|[->|?]]; [left|left|]; [set_solver..|auto].
    + intros x y Hx Hxy. destruct (decide (x = id)) as [->|Hxi]; [by right; left|].
      destruct (Hcl x y) as [?|[->|?]]; [set_solver|done|left; set_solver|left; set_solver|auto].
Qed.
End Search.

Lemma first_error_none {A} (f : A -> option string) l :
  first_error f l = None <-> forall x, In x l -> f x = None.
Proof.
  induction l as [|x l IH]; [by split|]. rewrite forall_in_cons. simpl.
  destruct (f x) eqn:E; [|rewrite IH]; naive_solver.
Qed.

(** The search of the edit check decides whether the node is on a cycle. *)
Lemma search_decides E id :
  exists b, search (2 * List.length E) (adjacency E) id
              (List.rev (successors (adjacency E) id)) ∅ = Some b
    /\ (b = true <-> tc (Edge E) id id).
Proof.
  set (pending := List.rev _).
  assert (Hinit : forall x, In x pending <-> In (id, x) E).
  { intros x. unfold pending. by rewrite <- List.in_rev, in_successors. }
  destruct (search_fuel E id (2 * List.length E) pending ∅) as [b Hb].
  { assert (List.length (unvisited E ∅) <= List.length E)%nat by apply List.filter_length_le.
    unfold pending. rewrite List.length_rev, successors_adjacency, List.length_map.
    pose proof (List.filter_length_le (fun e : string * string => fst e =?s id) E). lia. }
  exists b. split; [done|]. destruct b; split; try done.
  - intros _. eapply (search_sound E id); [|exact Hb]. intros x Hx. apply tc_once. by apply Hinit.
  - intros Hc. exfalso. eapply (search_complete E id); [|exact Hb|exact Hc].
    split; [set_solver|]. split; [intros y Hy; right; by apply Hinit|set_solver].
Qed.
Lemma validated_on_no_cycle g id :
  validate_dependency_change g id = Some (inr tt) -> ~ tc (Edge (goal_edges g)) id id.
Proof.
  unfold validate_dependency_change. destruct (todo g id) as [t|]; [|done].
  destruct (first_error _ _); [done|]. destruct (search_decides (goal_edges g) id) as (b & -> & Hb).
  destruct b; [done|]. intros _ Hc. by apply Hb in Hc.
Qed.

(** A cycle that avoids a node lives among the edges that avoid it. *)
Lemma cycle_without E id x y :
  tc (Edge E) x y -> ~ tc (Edge E) id id -> tc (Edge E) y x ->
  tc (Edge (List.filter (fun e => negb (fst e =?s id) && negb (snd e =?s id)) E)) x y.
Proof.
  intros H Hid. set (E' := List.filter _ E).
  assert (Hstep : forall a b, Edge E a b -> tc (Edge E) b a -> Edge E' a b).
  { intros a b Hab Hba. apply List.filter_In. split; [done|]. cbn.
    destruct (String.eqb_spec a id) as [->|]; [destruct Hid; by eapply tc_l|].
    destruct (String.eqb_spec b id) as [->|]; [destruct Hid; by eapply tc_r|done]. }
  induction H as [a b Hab|a b c Hab Hbc IH]; intros Hback.
  - apply tc_once. by apply Hstep.
  - eapply tc_l; [apply Hstep; [done|by eapply tc_transitive]|]. apply IH. by eapply tc_r.
Qed.
(** When two graphs agree away from a node that is on no cycle, acyclicity of
    one carries over to the other. *)
Lemma acyclic_change E E' id :
  (forall a b, a <> id -> b <> id -> In (a, b) E' -> In (a, b) E) ->
  ~ tc (Edge E') id id -> (forall x, ~ tc (Edge E) x x) -> forall x, ~ tc (Edge E') x x.
Proof.
  intros Hsub Hid Hac x Hx. apply (Hac x).
  pose proof (cycle_without E' id x x Hx Hid Hx) as Hc.
  revert Hc. apply (tc_congruence (fun y => y)). intros a b [Hab H]%List.filter_In.
  apply andb_true_iff in H as [H1%negb_true_iff%String.eqb_neq H2%negb_true_iff%String.eqb_neq].
  by apply Hsub.
Qed.

(** a dependency edit is validated in bounded time, and accepted exactly
    when the changed todo exists, refers only to other known todos, and lies on
    no dependency cycle; damage elsewhere in the graph does not matter. *)
Theorem dependency_change_accepted_iff g id :
  exists r, validate_dependency_change g id = Some r
    /\ (r = inr tt <->
        exists t, todo g id = Some t
          /\ (forall p, In p (predecessor_ids t) -> p <> id /\ is_Some (todo g p))
          /\ ~ tc (fun a b => In (a, b) (goal_edges g)) id id).
Proof.
  unfold validate_dependency_change. destruct (todo g id) as [t|] eqn:Et; [|naive_solver].
  assert (Href : first_error (bad_reference g id) (predecessor_ids t) = None <->
            forall p, In p (predecessor_ids t) -> p <> id /\ is_Some (todo g p)).
  { rewrite first_error_none. split; intros H p Hp; specialize (H p Hp); unfold bad_reference in *.
    - destruct (String.eqb_spec p id); [done|]. by destruct (todo g p); [eauto|].
    - destruct H as [Hne [x Hx]]. by rewrite (proj2 (String.eqb_neq _ _) Hne), Hx. }
  destruct (first_error _ _) as [err|] eqn:Ee.
  { eexists. split; [done|]. split; [done|]. intros (t' & [= <-] & Hp & _). apply Href in Hp. congruence. }
  destruct (search_decides (goal_edges g) id) as (b & -> & Hb).
  destruct b; eexists; (split; [done|]); split; try done.
  - intros (t' & [= <-] & _ & Hc). by destruct Hc; apply Hb.
  - intros _. exists t. split; [done|]. split; [by apply Href|]. intros Hc. by apply Hb in Hc.
Qed.

(** * Kahn's algorithm *)
Lemma count_cons {A} (p : A -> bool) x l : count p (x :: l) = (if p x then 1 else 0) + count p l.
Proof. unfold count, len. simpl. destruct (p x); simpl; lia. Qed.
Lemma count_nonneg {A} (p : A -> bool) l : 0 <= count p l.
Proof. apply len_nonneg. Qed.
Lemma count_zero {A} (p : A -> bool) l : count p l = 0 <-> forall x, In x l -> p x = false.
Proof. unfold count. rewrite len_zero. apply filter_nil_iff. Qed.

Lemma count_ext {A} (p q : A -> bool) l : (forall x, p x = q x) -> count p l = count q l.
Proof. intros H. unfold count. by rewrite (List.filter_ext _ _ H). Qed.
Lemma NoDup_list_filter {A} (p : A -> bool) l : base.NoDup l -> base.NoDup (List.filter p l).
Proof. rewrite !NoDup_ListNoDup. apply List.NoDup_filter. Qed.

Definition mem (x : string) (l : list string) : bool := existsb (String.eqb x) l.
Lemma mem_true x l : mem x l = true <-> In x l.
Proof.
  unfold mem. rewrite List.existsb_exists. split; [|by exists x; rewrite String.eqb_refl].
  intros (y & Hy & E). apply String.eqb_eq in E. by subst.
Qed.
Lemma mem_false x l : mem x l = false <-> ~ In x l.
Proof. rewrite <- mem_true. by destruct (mem x l). Qed.
Lemma mem_app x l1 l2 : mem x (l1 ++ l2) = mem x l1 || mem x l2.
Proof. apply List.existsb_app. Qed.

Section Kahn.
Context (ids : list string) (E : list (string * string)).
Hypothesis ids_nodup : base.NoDup ids.
Hypothesis E_known : forall f t, In (f, t) E -> In f ids /\ In t ids.

(** The edges into [n] from outside [order]. *)
Definition waiting (order : list string) (n : string) : Z :=
  count (fun e => (snd e =? n)%string && negb (mem (fst e) order)) E.
Definition occurrences (n : string) (l : list string) : Z := count (String.eqb n) l.

Lemma waiting_zero order n : waiting order n = 0 <-> forall f, In (f, n) E -> In f order.
Proof.
  unfold waiting. rewrite count_zero. split.
  - intros H f Hf. specialize (H _ Hf). simpl in H. rewrite String.eqb_refl in H.
    simpl in H. apply negb_false_iff in H. by apply mem_true.
  - intros H [f t] Hin. simpl. destruct (String.eqb_spec t n) as [->|]; [|done].
    simpl. by apply negb_false_iff, mem_true, H.
Qed.

Lemma waiting_snoc order cur n :
  ~ In cur order ->
  waiting order n = waiting (order ++ [cur]) n + occurrences n (successors (adjacency E) cur).
Proof.
  intros Hc. rewrite successors_adjacency. unfold waiting, occurrences. clear E_known.
  induction E as [|[f t] l IH]; [done|]. cbn [List.filter fst].
  rewrite !count_cons, IH. cbn [fst snd]. rewrite mem_app. cbn [mem existsb].
  destruct (String.eqb_spec f cur) as [->|Hne]; cbn [List.map]; rewrite ?count_cons.
  - rewrite (proj2 (mem_false cur order) Hc). cbn [snd]. rewrite (String.eqb_sym n t).
    destruct (t =? n)%string; simpl; lia.
  - rewrite !orb_false_r. lia.
Qed.

Record Inv (st : TopoState) : Prop := {
  iv_nodup : base.NoDup (tp_order st ++ tp_queue st);
  iv_indegree : forall n, In n ids -> tp_indegree st !! n = Some (waiting (tp_order st) n);
  iv_ready : forall n, In n (tp_order st ++ tp_queue st)
                       <-> In n ids /\ waiting (tp_order st) n = 0;
  iv_topo : forall l1 n l2 f, tp_order st = l1 ++ n :: l2 -> In (f, n) E -> In f l1
}.
(** Inside a round: [post] is what is left of the node's successors. *)
Record Mid (order post : list string) (st : TopoState) : Prop := {
  md_order : tp_order st = order;
  md_nodup : base.NoDup (order ++ tp_queue st);
  md_indegree : forall n, In n ids ->
    tp_indegree st !! n = Some (waiting order n + occurrences n post);
  md_ready : forall n, In n (order ++ tp_queue st)
                       <-> In n ids /\ waiting order n + occurrences n post = 0
}.

Lemma relax_mid order n post st :
  In n ids -> Mid order (n :: post) st ->
  exists st', relax (Some st) n = Some st' /\ Mid order post st'.
Proof.
  intros Hn [Ho Hnd Hi Hr].
  assert (Hocc : forall x, occurrences x (n :: post)
            = (if (x =? n)%string then 1 else 0) + occurrences x post)
    by (intros x; apply count_cons).
  pose proof (count_nonneg (fun e => (snd e =? n)%string && negb (mem (fst e) order)) E) as Hw.
  fold (waiting order n) in Hw. pose proof (count_nonneg (String.eqb n) post) as Hp.
  fold (occurrences n post) in Hp. cbn [relax].
  rewrite (Hi n Hn), Hocc, String.eqb_refl, (proj2 (Z.leb_gt _ _)) by lia.
  set (d := waiting order n + (1 + occurrences n post) - 1).
  assert (Hd : d = waiting order n + occurrences n post) by (unfold d; lia). clearbody d. subst d.
  assert (Hout : ~ In n (order ++ tp_queue st)).
  { rewrite Hr, Hocc, String.eqb_refl. intros [_ ?]. lia. }
  eexists. split; [done|]. destruct (Z.eqb_spec (waiting order n + occurrences n post) 0) as [Hz|Hz];
    constructor; cbn; try done.
  - rewrite sort_strings_perm, (assoc app), NoDup_app. split; [done|].
    split; [|apply NoDup_singleton]. intros x Hx Hs. apply list_elem_of_singleton in Hs as ->.
    by apply Hout, list_elem_of_In.
  - intros x Hx. destruct (decide (x = n)) as [->|Hne]; [by rewrite lookup_insert_eq|].
    rewrite lookup_insert_ne, (Hi x Hx), Hocc by done.
    rewrite (proj2 (String.eqb_neq x n)) by done. f_equal.
  - intros x. rewrite in_app_iff, <- (list_elem_of_In (sort_strings _)), sort_strings_perm,
      list_elem_of_In, in_app_iff, (assoc or), <- in_app_iff, Hr, Hocc. simpl.
    destruct (String.eqb_spec x n) as [->|Hne]; naive_solver lia.
  - intros x Hx. destruct (decide (x = n)) as [->|Hne]; [by rewrite lookup_insert_eq|].
    rewrite lookup_insert_ne, (Hi x Hx), Hocc by done.
    rewrite (proj2 (String.eqb_neq x n)) by done. f_equal.
  - intros x. rewrite Hr, Hocc. destruct (String.eqb_spec x n) as [->|Hne]; naive_solver lia.
Qed.

Lemma relax_all post : forall order st,
  (forall x, In x post -> In x ids) -> Mid order post st ->
  exists st', List.fold_left relax post (Some st) = Some st' /\ Mid order [] st'.
Proof.
  induction post as [|n post IH]; intros order st Hids Hm; [by exists st|].
  destruct (relax_mid order n post st) as (st1 & H1 & Hm1); [apply Hids; by left|done|].
  cbn [List.fold_left]. rewrite H1. apply IH; [|done]. intros x Hx. apply Hids. by right.
Qed.

Lemma round_inv id rest order indegree :
  Inv {| tp_queue := id :: rest; tp_order := order; tp_indegree := indegree |} ->
  exists st', List.fold_left relax (successors (adjacency E) id)
                (Some {| tp_queue := rest; tp_order := order ++ [id]; tp_indegree := indegree |})
              = Some st'
    /\ Inv st' /\ tp_order st' = order ++ [id].
Proof.
  intros [Hnd Hi Hr Ht]. cbn in *.
  assert (Hid : ~ In id order).
  { intros Hin. apply NoDup_app in Hnd as (_ & Hd & _). apply (Hd id); [by apply list_elem_of_In|left]. }
  assert (Hz : In id ids /\ waiting order id = 0) by (apply Hr, in_app_iff; right; by left).
  destruct (relax_all (successors (adjacency E) id) (order ++ [id])
    {| tp_queue := rest; tp_order := order ++ [id]; tp_indegree := indegree |})
    as (st' & H1 & [Ho Hnd' Hi' Hr']).
  - intros x Hx. apply in_successors in Hx. by apply E_known in Hx as [_ ?].
  - constructor; cbn; [done| | |].
    + by rewrite <- (assoc app).
    + intros n Hn. by rewrite (Hi n Hn), (waiting_snoc _ id).
    + intros n. rewrite <- (assoc app). cbn. by rewrite Hr, (waiting_snoc _ id).
  - exists st'. split; [done|]. split; [|done]. unfold occurrences in *. constructor; rewrite Ho.
    + done.
    + intros n Hn. rewrite (Hi' n Hn). change (count (String.eqb n) []) with 0. by rewrite Z.add_0_r.
    + intros n. rewrite Hr'. change (count (String.eqb n) []) with 0. by rewrite Z.add_0_r.
    + intros l1 n l2 f. destruct l2 as [|y l2 _] using rev_ind.
      * intros [-> ->]%app_inj_tail Hf. by eapply waiting_zero; [apply Hz|].
      * rewrite app_comm_cons, (assoc app). intros [-> ->]%app_inj_tail Hf. by eapply Ht.
Qed.

Lemma NoDup_prefix_length (l r : list string) :
  base.NoDup (l ++ r) -> (forall x, In x (l ++ r) -> In x ids) ->
  (List.length l + List.length r <= List.length ids)%nat.
Proof.
  intros Hnd Hin. rewrite <- length_app. apply submseteq_length, NoDup_submseteq; [done|].
  intros x Hx. by apply list_elem_of_In, Hin, list_elem_of_In.
Qed.
Lemma kahn_inv fuel : forall st,
  Inv st -> (List.length ids <= fuel + List.length (tp_order st))%nat ->
  exists st', kahn fuel (adjacency E) st = Some st' /\ Inv st' /\ tp_queue st' = [].
Proof.
  induction fuel as [|fuel IH]; intros [[|id rest] order indeg] Hi Hf; [by eexists| |by eexists|].
  - pose proof (NoDup_prefix_length _ _ (iv_nodup _ Hi)) as Hl. cbn in *.
    assert (forall x, In x (order ++ id :: rest) -> In x ids) by (intros x Hx; by apply (iv_ready _ Hi)).
    specialize (Hl ltac:(done)). lia.
  - destruct (round_inv id rest order indeg Hi) as (st' & H1 & Hi' & Ho). cbn [kahn tp_queue tp_order tp_indegree].
    rewrite H1. apply IH; [done|]. rewrite Ho, length_app. cbn in *. lia.
Qed.

(** An order that respects the edges leaves no node on a cycle. *)
Lemma respects_acyclic order :
  base.NoDup order ->
  (forall l1 n l2 f, order = l1 ++ n :: l2 -> In (f, n) E -> In f l1) ->
  forall x, In x order -> ~ tc (Edge E) x x.
Proof.
  intros Hnd Ht x Hx Hc.
  assert (Hpre : forall a b, tc (Edge E) a b -> forall l1 l2, order = l1 ++ b :: l2 -> In a l1).
  { intros a b Hab. induction Hab as [a b Hab|a b c Hab _ IH]; intros l1 l2 Ho; [by eapply Ht|].
    pose proof (IH l1 l2 Ho) as (m1 & m2 & ->)%List.in_split.
    rewrite <- (assoc app), <- app_comm_cons in Ho. apply in_app_iff. left. by eapply Ht. }
  apply List.in_split in Hx as (l1 & l2 & ->).
  pose proof (Hpre x x Hc l1 l2 eq_refl) as Hin%list_elem_of_In.
  apply NoDup_app in Hnd as (_ & Hd & _). apply (Hd x Hin). left.
Qed.

(** Without cycles, a set of nodes closed under "all predecessors are in" is all
    of them. *)
Lemma acyclic_complete order :
  (forall x, ~ tc (Edge E) x x) ->
  (forall n, In n ids -> (forall f, In (f, n) E -> In f order) -> In n order) ->
  forall n, In n ids -> In n order.
Proof.
  intros Hac Hcl n Hn. set (R := fun a b => Edge E b a).
  assert (Hflip : forall a b, tc R a b -> tc (Edge E) b a).
  { intros a b H. induction H as [a b H|a b c H _ IH]; [by apply tc_once|]. by eapply tc_r. }
  assert (Hsn : sn R n).
  { apply tc_finite_sn; [intros x Hx; by apply (Hac x), Hflip|].
    exists ids. intros y Hy. apply list_elem_of_In. apply Hflip in Hy.
    inversion Hy as [a b Hab|a b c Hab]; subst; by apply E_known in Hab as [? _]. }
  induction Hsn as [n _ IH]. apply Hcl; [done|].
  intros f Hf. apply IH; [done|]. by apply E_known in Hf as [? _].
Qed.

(** The state the loop stops in. *)
Lemma stopped_topo st : Inv st -> tp_queue st = [] ->
  base.NoDup (tp_order st)
  /\ (forall n, In n (tp_order st) <-> In n ids /\ forall f, In (f, n) E -> In f (tp_order st))
  /\ (forall l1 n l2 f, tp_order st = l1 ++ n :: l2 -> In (f, n) E -> In f l1).
Proof.
  intros [Hnd _ Hr Ht] Hq. rewrite Hq, app_nil_r in *.
  split; [done|]. split; [|done]. intros n. by rewrite Hr, waiting_zero.
Qed.
End Kahn.

(** * The counters at the start *)
Lemma bump_lookup l : forall m n d,
  m !! n = Some d ->
  List.fold_left bump l m !! n = Some (d + count (fun e => (snd e =? n)%string) l).
Proof.
  induction l as [|[f t] l IH]; intros m n d Hm; [by rewrite Z.add_0_r|].
  rewrite count_cons. cbn [List.fold_left snd].
  destruct (String.eqb_spec t n) as [->|Hne].
  - rewrite (IH _ n (d + 1)); [f_equal; lia|]. unfold bump. cbn. by rewrite lookup_insert_eq, Hm.
  - rewrite (IH _ n d); [done|]. unfold bump. cbn. by rewrite lookup_insert_ne.
Qed.
Lemma zeroes_lookup ids : forall (m : gmap string Z) n,
  In n ids \/ m !! n = Some 0 ->
  List.fold_left (fun m id => <[id := 0]> m) ids m !! n = Some 0.
Proof.
  induction ids as [|x ids IH]; intros m n H; [by destruct H|]. cbn. apply IH.
  destruct (decide (x = n)) as [->|Hne]; [right; by rewrite lookup_insert_eq|].
  destruct H as [[?|?]|?]; [done|by left|right; by rewrite lookup_insert_ne].
Qed.

Lemma cycle_walk_some adj leftover start fuel :
  base.NoDup leftover -> forall current seen path,
  seen ⊆ list_to_set leftover -> (List.length leftover < fuel + size seen)%nat -> path <> [] ->
  exists p, cycle_walk fuel adj leftover start current seen path = Some p /\ p <> [].
Proof.
  intros Hnd. induction fuel as [|fuel IH]; intros current seen path Hs Hf Hp.
  - pose proof (subseteq_size _ _ Hs) as Hle. rewrite size_list_to_set in Hle by done. lia.
  - cbn [cycle_walk]. destruct (List.find _ _) as [n|] eqn:En; [|by exists path].
    destruct (n =?s start); [eexists; split; [done|]; by destruct path|].
    destruct (decide (n ∈ seen)) as [|Hn]; [by exists path|].
    apply List.find_some in En as [_ En]. apply mem_true in En.
    apply IH; [|rewrite size_union, size_singleton by set_solver; lia|by destruct path].
    apply list_elem_of_In in En. set_solver.
Qed.

(** * topological_sort *)
Definition known_edges (ids : list string) (edges : list (string * string)) : list (string * string) :=
  List.filter (fun e => mem (fst e) ids && mem (snd e) ids) edges.
Lemma in_known_edges ids edges f t :
  In (f, t) (known_edges ids edges) <-> In (f, t) edges /\ In f ids /\ In t ids.
Proof. unfold known_edges. by rewrite List.filter_In, andb_true_iff, !mem_true. Qed.

Lemma start_inv ids edges :
  base.NoDup ids ->
  let kept := known_edges ids edges in
  let indegree := List.fold_left bump kept (List.fold_left (fun m id => <[id := 0]> m) ids ∅) in
  Inv ids kept
    {| tp_queue := sort_strings (List.filter (fun id => bool_decide (indegree !! id = Some 0)) ids);
       tp_order := []; tp_indegree := indegree |}.
Proof.
  intros Hnd kept indegree.
  assert (Hi : forall n, In n ids -> indegree !! n = Some (waiting kept [] n)).
  { intros n Hn. unfold indegree. rewrite (bump_lookup _ _ n 0); [|apply zeroes_lookup; by left].
    f_equal. apply count_ext. intros [f t]. by rewrite andb_true_r. }
  constructor; cbn; [|done| |by intros []].
  - rewrite sort_strings_perm. by apply NoDup_list_filter.
  - intros n. rewrite <- list_elem_of_In, sort_strings_perm, list_elem_of_In, List.filter_In, bool_decide_eq_true.
    split; intros [Hn H]; (split; [done|]).
    + rewrite Hi in H by done. by injection H.
    + by rewrite Hi, H.
Qed.

Lemma topological_sort_spec todos edges :
  let ids := btree_set (List.map td_id todos) in
  let kept := known_edges ids edges in
  exists order cycle, topological_sort todos edges = Some (order, cycle)
    /\ base.NoDup order
    /\ (forall l1 n l2 f, order = l1 ++ n :: l2 -> In (f, n) kept -> In f l1)
    /\ (cycle = [] <-> forall x, ~ tc (Edge kept) x x)
    /\ (cycle = [] <-> order ≡ₚ ids).
Proof.
  intros ids kept. pose proof (btree_set_NoDup (List.map td_id todos)) as Hnd. fold ids in Hnd.
  assert (Hk : forall f t, In (f, t) kept -> In f ids /\ In t ids)
    by (intros f t Hft; by apply in_known_edges in Hft as [_ ?]).
  destruct (kahn_inv ids kept Hk (List.length ids) _ (start_inv ids edges Hnd))
    as (st & Hst & Hi & Hq); [cbn; lia|].
  apply stopped_topo in Hi as (Ho & Hin & Ht); [|done..].
  unfold topological_sort. cbv zeta beta. fold ids.
  change (List.filter _ edges) with kept. cbv zeta in Hst. fold kept in Hst. rewrite Hst.
  assert (Hsub : tp_order st ⊆+ ids).
  { apply NoDup_submseteq; [done|]. intros x Hx. apply list_elem_of_In, Hin, list_elem_of_In. done. }
  destruct (Nat.eqb_spec (List.length (tp_order st)) (List.length ids)) as [Hl|Hl].
  - assert (Hp : tp_order st ≡ₚ ids) by (apply submseteq_length_Permutation; [done|lia]).
    exists (tp_order st), []. split_and!; try done. split; [|done]. intros _ x Hx.
    apply (respects_acyclic kept (tp_order st) Ho Ht x); [|done].
    apply list_elem_of_In. rewrite Hp. apply list_elem_of_In.
    inversion Hx as [a b Hab|a b c Hab]; subst; by apply Hk in Hab as [? _].
  - set (leftover := List.filter _ ids).
    assert (Hlo : forall x, In x leftover <-> In x ids /\ ~ In x (tp_order st))
      by (intros x; unfold leftover; by rewrite List.filter_In, negb_true_iff, <- mem_false).
    assert (Hnp : ~ tp_order st ≡ₚ ids) by (intros Hp; by apply Hl, Permutation_length).
    destruct leftover as [|start rest] eqn:Elo.
    { destruct Hnp, Hl. apply Nat.le_antisymm; [by apply submseteq_length|].
      apply submseteq_length, NoDup_submseteq; [done|]. intros x Hx%list_elem_of_In.
      apply list_elem_of_In. destruct (in_dec string_dec x (tp_order st)) as [|Hn]; [done|].
      by destruct (proj2 (Hlo x) (conj Hx Hn)). }
    destruct (cycle_walk_some (adjacency kept) (start :: rest) start
                (S (List.length (start :: rest)))) with (current := start)
      (seen := {[start]} : gset string) (path := [start]) as (path & Hw & Hp);
      [rewrite <- Elo; by apply NoDup_list_filter|set_solver|rewrite size_singleton; lia|done|].
    rewrite Hw. exists (tp_order st), path. split_and!; try done.
    split; [done|]. intros Hac. destruct Hnp.
    apply NoDup_Permutation; [done..|]. intros x. rewrite !list_elem_of_In. split; [apply Hin|].
    apply (acyclic_complete ids kept Hk); [done|]. intros n Hn Hf. by apply Hin.
Qed.

(** * build_task_graph *)
Lemma in_sort_edges e l : In e (sort_edges l) <-> In e l.
Proof.
  assert (Hins : forall x l, In e (insert_edge x l) <-> e = x \/ In e l).
  { intros x l'. induction l' as [|y r IH]; cbn; [naive_solver|].
    destruct (compare_edge x y); cbn; [naive_solver..|]. rewrite IH. naive_solver. }
  induction l as [|x l IH]; [done|]. cbn. rewrite Hins. unfold sort_edges in IH. rewrite IH. naive_solver.
Qed.
Lemma in_dedup_edges e l : In e (dedup_edges l) <-> In e l.
Proof.
  induction l as [|x [|y r] IH]; [done|done|]. cbn [dedup_edges].
  destruct (bool_decide_reflect (x = y)) as [->|Hne]; [|cbn [In]; by rewrite IH].
  rewrite IH. cbn. naive_solver.
Qed.

(** A reference the graph refuses: to the todo itself, or to no todo. *)
Definition BadReference (g : Goal) (t : Todo) (p : string) : Prop :=
  In t (g_todos g) /\ In p (predecessor_ids t)
  /\ (p = td_id t \/ ~ In p (List.map td_id (g_todos g))).
Lemma first_error_some {A} (f : A -> option string) l e :
  first_error f l = Some e -> exists x, In x l /\ f x = Some e.
Proof.
  induction l as [|x l IH]; [done|]. cbn. destruct (f x) eqn:E.
  - intros [= <-]. exists x. auto.
  - intros H. destruct (IH H) as (y & ? & ?). eauto.
Qed.
Lemma unknown_reference_none g t p :
  unknown_reference (btree_set (List.map td_id (g_todos g))) t p = None
  <-> p <> td_id t /\ In p (List.map td_id (g_todos g)).
Proof.
  unfold unknown_reference. destruct (String.eqb_spec p (td_id t)) as [->|Hne]; [naive_solver|].
  rewrite <- in_btree_set, <- mem_true. unfold mem.
  destruct (existsb _ _); naive_solver.
Qed.

Lemma goal_edges_known g :
  (forall t p, ~ BadReference g t p) ->
  forall a b, In (a, b) (goal_edges g) ->
    In a (List.map td_id (g_todos g)) /\ In b (List.map td_id (g_todos g)).
Proof.
  intros Hb a b (t & Ht & (p & Hp & Hin)%in_map_iff)%List.in_flat_map.
  assert (In (td_id t) (List.map td_id (g_todos g))) by (by apply List.in_map).
  assert (In p (List.map td_id (g_todos g))).
  { destruct (in_dec string_dec p (List.map td_id (g_todos g))) as [|Hn]; [done|].
    destruct (Hb t p). split; [done|]. auto. }
  unfold edge_of in Hp. destruct (is_blocking_source t); by injection Hp as <- <-.
Qed.

(** Building the task graph always terminates; it is refused exactly when
    some todo refers to itself or to an unknown todo, and otherwise its edges
    are the declared dependencies and it carries a topological order exactly
    when the dependencies have no cycle: every todo once, each after all of its
    predecessors.  On a cyclic graph it carries a cycle report instead. *)
Theorem task_graph_orders_acyclic_goals g :
  exists r, build_task_graph g = Some r /\
  match r with
  | inl _ => exists t p, BadReference g t p
  | inr tk =>
      (forall t p, ~ BadReference g t p)
      /\ (forall a b, In {| te_from := a; te_to := b; te_relation := "blocks" |} (tk_edges tk)
                      <-> In (a, b) (goal_edges g))
      /\ (is_Some (tk_topological_order tk) <-> forall x, ~ tc (Edge (goal_edges g)) x x)
      /\ (tk_cycle tk = None <-> is_Some (tk_topological_order tk))
      /\ match tk_topological_order tk with
         | None => True
         | Some order =>
             base.NoDup order
             /\ (forall x, In x order <-> In x (List.map td_id (g_todos g)))
             /\ (forall l1 n l2 f, order = l1 ++ n :: l2 -> In (f, n) (goal_edges g) -> In f l1)
         end
  end.
Proof.
  unfold build_task_graph. destruct (first_error _ (g_todos g)) as [e|] eqn:Ee.
  { exists (inl e). split; [done|]. apply first_error_some in Ee as (t & Ht & He).
    apply first_error_some in He as (p & Hp & He). exists t, p. split; [done|]. split; [done|].
    destruct (string_dec p (td_id t)); [by left|right]. intros Hin.
    rewrite (proj2 (unknown_reference_none g t p)) in He; done. }
  assert (Hgood : forall t p, ~ BadReference g t p).
  { intros t p (Ht & Hp & Hbad). rewrite first_error_none in Ee. specialize (Ee t Ht).
    cbn in Ee. rewrite first_error_none in Ee. apply Ee, unknown_reference_none in Hp. naive_solver. }
  set (edges := dedup_edges (sort_edges (goal_edges g))).
  assert (Hed : forall e, In e edges <-> In e (goal_edges g))
    by (intros e; unfold edges; by rewrite in_dedup_edges, in_sort_edges).
  destruct (topological_sort_spec (g_todos g) edges) as (order & cycle & -> & Hnd & Ht & Hac & Hp).
  set (kept := known_edges _ edges) in *.
  assert (Hk : forall a b, In (a, b) kept <-> In (a, b) (goal_edges g)).
  { intros a b. unfold kept. rewrite in_known_edges, !in_btree_set, Hed.
    pose proof (goal_edges_known g Hgood a b). naive_solver. }
  assert (Htc : forall x, tc (Edge kept) x x <-> tc (Edge (goal_edges g)) x x).
  { intros x. split; apply (tc_congruence (fun y => y)); intros a b; apply Hk. }
  eexists. split; [done|]. cbn. split; [done|]. split.
  { intros a b. rewrite in_map_iff, <- Hed. split; [|intros H; by exists (a, b)].
    by intros ([a' b'] & [= <- <-] & H). }
  setoid_rewrite Htc in Hac. rewrite <- Hac.
  destruct cycle as [|c cycle]; cbn; 
    [|assert (~ is_Some (@None (list string))) by (intros [? [=]]); naive_solver].
  split_and!; [by split; [|eexists]|done|done| |].
  - intros x. rewrite <- (in_btree_set x (List.map td_id _)). pose proof (proj1 Hp eq_refl) as Hperm.
    split; apply Permutation_in; [exact Hperm|symmetry; exact Hperm].
  - intros l1 n l2 f Ho Hf. eapply Ht; [done|by apply Hk].
Qed.

(** The reported cycle starts at the first unordered node, which may only lead
    into a cycle: with A2 blocked by B, and B and C blocking each other, the
    report is the path of the single node A2, on no cycle. *)
Definition tangled : Goal :=
  List.fold_right add (goal_new 0 "g" "objective" ".")
    [blocking ["b"] (advancement 0 "a2" "after b"); blocking ["c"] (advancement 0 "b" "after c");
     blocking ["b"] (advancement 0 "c" "after b")].
(** The cycle report need not be a cycle. *)
Theorem reported_cycle_may_be_a_tail :
  exists tk, build_task_graph tangled = Some (inr tk) /\ tk_cycle tk = Some ["a2"]
    /\ ~ tc (Edge (goal_edges tangled)) "a2" "a2".
Proof.
  eexists. split; [vm_compute; reflexivity|]. split; [reflexivity|].
  intros H. inversion H as [x y Hxy|x y z Hxy]; subst; revert Hxy; vm_compute; naive_solver.
Qed.
