(* ===== verification/WorkspaceGuard.v ===== *)
(** The agent workspace guard (agents/workspace_guard.rs): declared write sets,
    their normalisation, and the live conflicts a claim would race.  Paths are
    strings with [std::path]'s Unix rules; the [cfg(windows)] branches are not
    modelled.  The file system is a parameter: the home directory and
    [canonicalize]. *)
From S2P Require Import Prelude Cadence Todos GoalState.

(** * [std::path] on Unix *)
Inductive Component := RootDir | CurDir | ParentDir | Normal (name : string).
#[export] Instance Component_eq_dec : EqDecision Component.
Proof. solve_decision. Defined.
Definition as_os_str (c : Component) : string :=
  match c with RootDir => "/" | CurDir => "." | ParentDir => ".." | Normal s => s end.

(** The pieces between separators; empty ones are skipped, and [.] is kept only
    at the head of a relative path. *)
Fixpoint piece_components (head : bool) (pieces : list string) : list Component :=
  match pieces with
  | [] => []
  | p :: r =>
      if p =?s "" then piece_components false r
      else if p =?s "." then
        if head then CurDir :: piece_components false r else piece_components false r
      else (if p =?s ".." then ParentDir else Normal p) :: piece_components false r
  end.
Definition is_absolute (path : string) : bool := starts_with "/" path.
Definition components (path : string) : list Component :=
  if is_absolute path then RootDir :: piece_components false (split_on "/" path)
  else piece_components true (split_on "/" path).

Fixpoint ends_with_slash (s : string) : bool :=
  match s with
  | EmptyString => false
  | String c EmptyString => Ascii.eqb c "/"
  | String _ r => ends_with_slash r
  end.
(** [PathBuf::push] and [Path::join]. *)
Definition path_push (base component : string) : string :=
  if is_absolute component then component
  else if (base =?s "") || ends_with_slash base then base +:+ component
  else base +:+ "/" +:+ component.
(** The path a list of components is pushed into. *)
Definition path_of (cs : list Component) : string :=
  List.fold_left (fun out c => path_push out (as_os_str c)) cs "".

Fixpoint is_prefix (p l : list Component) : bool :=
  match p, l with
  | [], _ => true
  | c :: p, d :: l => bool_decide (c = d) && is_prefix p l
  | _ :: _, [] => false
  end.
Definition path_starts_with (path base : string) : bool :=
  is_prefix (components base) (components path).
Definition path_eq (a b : string) : bool := bool_decide (components a = components b).

(** * Normalisation *)
Definition expand_home_with (raw home : string) : string :=
  let tilde := (raw =?s "~") || starts_with "~/" raw || starts_with "~\" raw in
  if tilde && negb (home =?s "") then home +:+ drop_bytes 1 raw else raw.

(** The loop of [lexical_normalize]; [out] is its path, as components. *)
Definition normalize_step (out : list Component) (comp : Component) : list Component :=
  match comp with
  | CurDir => out
  | ParentDir =>
      match last out with
      | Some (Normal _) => removelast out
      | _ => if bool_decide (List.hd_error out = Some RootDir) then out else out ++ [ParentDir]
      end
  | other => out ++ [other]
  end.
Definition lexical_normalize (path : string) : string :=
  path_of (List.fold_left normalize_step (components path) []).

Definition paths_overlap (a b : string) : bool :=
  path_eq a b || path_starts_with a b || path_starts_with b a.

Definition WORKSPACE_GUARD_SCHEMA_VERSION : string := "agent_workspace_guard_v1".
Record WorkspaceConflict := mkWorkspaceConflict {
  wc_schema_version : string;
  wc_holder_agent_id : string;
  wc_holder_todo_ids : list string;
  wc_overlapping_paths : list string;
  wc_holder_lease_expires_at : u64
}.

(** A stable sort by a string key ([sort_by(|a, b| a.key.cmp(&b.key))]). *)
Section SortByString.
Context {A : Type} (key : A -> string).
Fixpoint insert_by_string (x : A) (l : list A) : list A :=
  match l with
  | [] => [x]
  | y :: r => match String.compare (key x) (key y) with
              | Gt => y :: insert_by_string x r
              | _ => x :: l
              end
  end.
Definition sort_by_string (l : list A) : list A := List.fold_right insert_by_string [] l.
End SortByString.

(** [iter().min()] *)
Definition earliest (l : list u64) : option u64 :=
  match l with [] => None | x :: r => Some (List.fold_left Z.min r x) end.

Section Guard.
(** [compat::home_dir()], [std::fs::canonicalize] and [compat::pid_alive]. *)
Variable home : string.
Variable canonicalize : string -> option string.
Variable pid_alive : u32 -> bool.

Definition expand_home (raw : string) : string := expand_home_with raw home.

(** The loop over the components: each prefix is normalised, and resolved when
    it exists. *)
Definition resolve_step (resolved : string) (c : Component) : string :=
  let resolved := lexical_normalize (path_push resolved (as_os_str c)) in
  match canonicalize resolved with Some canon => canon | None => resolved end.
Definition normalize_workspace_path_at (raw base : string) : string :=
  let path := expand_home (trim raw) in
  let abs := if is_absolute path then path else path_push base path in
  List.fold_left resolve_step (components abs) "".
(** [current_dir] is [std::env::current_dir()]. *)
Definition normalize_workspace_path (current_dir raw : string) : string :=
  normalize_workspace_path_at raw current_dir.

Definition agent_workspaces (g : Goal) (agent_id : string) : list string :=
  match List.find (fun p => ap_id p =?s agent_id) (g_agent_profiles g) with
  | Some p => ap_workspaces p
  | None => []
  end.

Definition todo_workspaces (g : Goal) (agent_id : string) (t : Todo) : list string :=
  let scopes := List.filter (fun s => negb (is_blank s)) (td_required_write_scope t) in
  if is_empty scopes then agent_workspaces g agent_id
  else List.map (fun s => normalize_workspace_path_at s (g_cwd g)) scopes.

Definition live_holder (t : Todo) (agent_id : string) (now : u64) : bool :=
  negb (status_is (td_status t) Done || status_is (td_status t) Superseded)
  && bool_decide (td_claimed_by t = Some agent_id)
  && match td_lease_expires_at t with Some expires => now <? expires | None => false end
  && match td_holder_pid t with Some pid => pid_alive pid | None => true end.

(** The paths of a todo that overlap the claimer's. *)
Definition overlapping (g : Goal) (mine : list string) (holder : string) (t : Todo) : list string :=
  List.filter (fun w => existsb (fun m => paths_overlap m w) mine) (todo_workspaces g holder t).

(** The body of the loop over the holders; [sort(); dedup()] leaves the sorted
    set of the paths. *)
Definition conflict_with (g : Goal) (mine : list string) (now : u64) (holder : string)
  : option WorkspaceConflict :=
  let live := List.filter (fun t => live_holder t holder now) (g_todos g) in
  let paths := btree_set (List.flat_map (overlapping g mine holder) live) in
  if is_empty paths then None
  else
    let held := sort_by_string td_id
                  (List.filter (fun t => negb (is_empty (overlapping g mine holder t))) live) in
    Some {| wc_schema_version := WORKSPACE_GUARD_SCHEMA_VERSION;
            wc_holder_agent_id := holder;
            wc_holder_todo_ids := List.map td_id held;
            wc_overlapping_paths := paths;
            wc_holder_lease_expires_at := default now (earliest (omap td_lease_expires_at held)) |}.

Definition conflicts_for_paths (g : Goal) (agent_id : string) (mine : list string) (now : u64)
  : list WorkspaceConflict :=
  if is_empty mine then []
  else
    let holders := btree_set (List.filter (fun id => negb (id =?s agent_id))
                                (omap td_claimed_by (g_todos g))) in
    sort_by_string wc_holder_agent_id (omap (conflict_with g mine now) holders).

Definition todo_workspace_conflicts (g : Goal) (agent_id : string) (t : Todo) (now : u64)
  : list WorkspaceConflict :=
  conflicts_for_paths g agent_id (todo_workspaces g agent_id t) now.

Definition live_workspace_conflicts (g : Goal) (agent_id : string) (now : u64)
  : list WorkspaceConflict :=
  let held := List.filter (fun t => live_holder t agent_id now) (g_todos g) in
  let mine := if is_empty held then agent_workspaces g agent_id
              else List.flat_map (todo_workspaces g agent_id) held in
  conflicts_for_paths g agent_id mine now.
End Guard.

Definition newline : string := String (ascii_of_N 10) "".
Definition render_conflicts (conflicts : list WorkspaceConflict) (now : u64) : string :=
  String.concat ""
    (List.map (fun c =>
       "  ⚠ agent `" +:+ wc_holder_agent_id c +:+ "` is writing "
       +:+ join ", " (wc_overlapping_paths c) +:+ " (todos: "
       +:+ join ", " (wc_holder_todo_ids c) +:+ "; lease expires in "
       +:+ show (Z.max 0 (wc_holder_lease_expires_at c - now)) +:+ "s)" +:+ newline) conflicts).

Example overlap_is_component_aware :
  (paths_overlap "/repo/a" "/repo/ab", paths_overlap "/repo/a" "/repo/a/sub/")
  = (false, true).
Proof. reflexivity. Qed.
Example normalises_parent :
  normalize_workspace_path_at "/home/u" (fun _ => None) " ~/x/../y/./z " "/repo" = "/home/u/y/z".
Proof. reflexivity. Qed.
