(* ===== verification/LedgerStore.v ===== *)
(** The ledger file of a goal (store.rs): content-derived event ids, the
    parser that collapses repeated lines, the locked append and the claim
    transaction.  A file is the list of its lines, deserialised; every
    transaction holds the file's exclusive lock from reading the lines to
    writing the new ones, so it is one step from a ledger to a ledger. *)
From S2P Require Import Prelude Cadence Todos GoalState Contract Signals GoalFrontier Ledger TaskLease TaskGraph WorkspaceGuard.

Record StoredEvent := mkStoredEvent {
  se_event_id : string;
  se_producer : option string;
  se_source_ref : option string;
  se_source_section : option string;
  se_source_line : option u64;
  se_privacy : option string;
  se_fencing_token : option u64;
  se_event : Event
}.

Record AtomicClaimOutcome := mkAtomicClaimOutcome { ao_claimed : bool; ao_stolen : bool }.

(** * Content digests *)
Definition fnv_offset : Z := 14695981039346656037.
Definition fnv_prime : Z := 1099511628211.
Definition fnv_step (hash : Z) (b : N) : Z :=
  (Z.lxor hash (Z.of_N b) * fnv_prime) mod 18446744073709551616.
Definition hex_digit (d : Z) : ascii :=
  ascii_of_N (Z.to_N (if d <? 10 then 48 + d else 87 + d)).
(** [{:0nx}] *)
Fixpoint hex (n : nat) (z : Z) (acc : string) : string :=
  match n with
  | O => acc
  | S n => hex n (z / 16) (String (hex_digit (z mod 16)) acc)
  end.
Definition content_digest (bytes : list N) : string :=
  hex 16 (List.fold_left fnv_step bytes fnv_offset) "".

Definition valid_goal_id (id : string) : bool :=
  negb (id =?s "") && negb ((id =?s ".") || (id =?s ".."))
  && forallb (fun b => ((48 <=? b)%N && (b <=? 57)%N) || ((65 <=? b)%N && (b <=? 90)%N)
                       || ((97 <=? b)%N && (b <=? 122)%N)
                       || (b =? 46)%N || (b =? 95)%N || (b =? 45)%N) (string_bytes id).

(** The keys of the envelope, which [event_part] strips. *)
Definition ENVELOPE_KEYS : list string :=
  ["event_id"; "producer"; "source_ref"; "source_section"; "source_line"; "privacy";
   "fencing_token"].

Section Store.
(** serde_json: the canonical text of an event, its object as entries of a key
    and the text of its value, and the text of such an object. *)
Variable to_json : Event -> string.
Variable to_entries : Event -> list (string * string).
Variable render_object : list (string * string) -> string.
(** The environment of the workspace guard. *)
Variable home : string.
Variable canonicalize : string -> option string.

Definition derive_event_id (e : Event) : string :=
  "evt-" +:+ content_digest (string_bytes (to_json e)).
Definition effective_id (s : StoredEvent) : string :=
  if se_event_id s =?s "" then derive_event_id (se_event s) else se_event_id s.
Definition event_part (entries : list (string * string)) : list (string * string) :=
  List.filter (fun kv => negb (existsb (String.eqb (fst kv)) ENVELOPE_KEYS)) entries.
Definition event_fingerprint (e : Event) : string := render_object (event_part (to_entries e)).

(** The line a kernel append writes. *)
Definition stored (e : Event) : StoredEvent :=
  {| se_event_id := derive_event_id e; se_producer := None; se_source_ref := None;
     se_source_section := None; se_source_line := None; se_privacy := None;
     se_fencing_token := None; se_event := e |}.

(** * parse_ledger *)
Record ParseState := mkParseState {
  ps_seen : gmap string string;
  ps_out : list StoredEvent;
  ps_line : nat
}.
Definition parse_step (st : result ParseState) (s : StoredEvent) : result ParseState :=
  match st with
  | inl e => inl e
  | inr st =>
      let id := effective_id s in
      let fingerprint := event_fingerprint (se_event s) in
      match ps_seen st !! id with
      | Some prior =>
          if prior =?s fingerprint then inr (mkParseState (ps_seen st) (ps_out st) (S (ps_line st)))
          else inl ("conflicting event_id `" +:+ id +:+ "` at line "
                    +:+ show (Z.of_nat (ps_line st) + 1) +:+ " (StateEventConflictError)")
      | None => inr (mkParseState (<[id := fingerprint]> (ps_seen st)) (ps_out st ++ [s])
                       (S (ps_line st)))
      end
  end.
Definition parse_state (lines : list StoredEvent) : result ParseState :=
  List.fold_left parse_step lines (inr (mkParseState ∅ [] 0)).
Definition parse_ledger (lines : list StoredEvent) : result (list StoredEvent) :=
  match parse_state lines with inl e => inl e | inr st => inr (ps_out st) end.

(** The goal the parsed events fold to, read at [clock]. *)
Definition folded (clock : SystemTime) (entry : RegistryEntry) (events : list StoredEvent) : Goal :=
  fold_events (List.map (fun s => (clock, se_event s)) events)
    (goal_new clock (re_goal_id entry) (re_objective entry) (re_cwd entry)).

(** * append_event_locked *)
Fixpoint find_existing (lines : list StoredEvent) (event_id fingerprint : string)
  : option (result unit) :=
  match lines with
  | [] => None
  | l :: r =>
      if negb (se_event_id l =?s event_id) then find_existing r event_id fingerprint
      else if event_fingerprint (se_event l) =?s fingerprint then Some (inr tt)
      else Some (inl ("conflicting event_id `" +:+ event_id
                      +:+ "` — same id, different content (StateEventConflictError)"))
  end.
Definition append_event_locked (lines : list StoredEvent) (line : StoredEvent)
    (validate : list StoredEvent -> result unit) : result (list StoredEvent) :=
  match find_existing lines (se_event_id line) (event_fingerprint (se_event line)) with
  | Some (inl e) => inl e
  | Some (inr _) => inr lines
  | None => match validate lines with inl e => inl e | inr _ => inr (lines ++ [line]) end
  end.

Definition registry_entry (registry : list RegistryEntry) (id : string) : option RegistryEntry :=
  List.find (fun g => re_goal_id g =?s id) registry.

Definition append_with_meta (registry : list RegistryEntry) (lines : list StoredEvent) (e : Event)
    (event_id producer source_ref source_section : option string) (source_line : option u64)
    (privacy : option string) : result (list StoredEvent * string) :=
  match registry_entry registry (goal_id e) with
  | None => inl ("goal `" +:+ goal_id e
                 +:+ "` is not registered — register before appending events")
  | Some _ =>
      if negb (valid_goal_id (goal_id e))
      then inl "goal id must be a nonempty filename component (ASCII letters, digits, '.', '_' or '-')"
      else
        let id := match event_id with Some id => id | None => derive_event_id e end in
        let line := {| se_event_id := id; se_producer := producer; se_source_ref := source_ref;
                       se_source_section := source_section; se_source_line := source_line;
                       se_privacy := privacy; se_fencing_token := None; se_event := e |} in
        match append_event_locked lines line (fun _ => inr tt) with
        | inl e => inl ("append event: " +:+ e)
        | inr lines => inr (lines, id)
        end
  end.
Definition append (registry : list RegistryEntry) (lines : list StoredEvent) (e : Event)
  : result (list StoredEvent * string) :=
  append_with_meta registry lines e None None None None None None.

(** The validation of [append_todo_change]; the nested option is the search
    running out of fuel. *)
Definition validate_todo_change (clock : SystemTime) (entry : RegistryEntry) (e : Event)
    (lines : list StoredEvent) : result unit :=
  match parse_ledger lines with
  | inl err => inl err
  | inr events =>
      let g := folded clock entry events in
      let changed :=
        match e with
        | TodoAdded _ t _ => inr (Some (td_id t))
        | TodoUpdated _ id _ _ _ _ _ _ (Some _) _ _ _ _ => inr (Some id)
        | TodoUpdated _ _ _ _ _ _ _ _ None _ _ _ _ => inr None
        | _ => inl "expected a todo add/update event"
        end in
      match changed with
      | inl err => inl err
      | inr None => inr tt
      | inr (Some id) =>
          match validate_dependency_change (apply clock e g) id with
          | Some (inl err) => inl err
          | Some (inr _) => inr tt
          | None => inl "unreachable"
          end
      end
  end.
Definition append_todo_change (clock : SystemTime) (registry : list RegistryEntry)
    (lines : list StoredEvent) (e : Event) : result (list StoredEvent * string) :=
  match registry_entry registry (goal_id e) with
  | None => inl "goal is not registered"
  | Some entry =>
      if negb (valid_goal_id (goal_id e))
      then inl "goal id must be a nonempty filename component (ASCII letters, digits, '.', '_' or '-')"
      else match append_event_locked lines (stored e) (validate_todo_change clock entry e) with
           | inl err => inl err
           | inr lines => inr (lines, derive_event_id e)
           end
  end.

(** * The claim transaction *)
Section Claim.
Variable pid_alive : u32 -> bool.

Definition todo_closed (t : Todo) : bool :=
  status_is (td_status t) Done || status_is (td_status t) Superseded.
Definition owned_elsewhere (t : Todo) (agent_id : string) : bool :=
  match td_owner t with Some owner => negb (owner =?s agent_id) | None => false end.
(** [claimed_by.zip(lease_expires_at)] with the holder's pid. *)
Definition lease_triple (t : Todo) : option (string * u64 * option u32) :=
  match td_claimed_by t, td_lease_expires_at t with
  | Some holder, Some expiry => Some (holder, expiry, td_holder_pid t)
  | _, _ => None
  end.
Definition lease_stops (lease : option (string * u64 * option u32)) (agent_id : string) (now : u64)
  : bool :=
  match lease with
  | Some (holder, exp, holder_pid) =>
      (now <? exp) && negb (holder =?s agent_id)
      && negb (match holder_pid with Some p => negb (pid_alive p) | None => false end)
  | None => false
  end.
(** A relative write scope of the todo, or of any leased one. *)
Definition relative_scope (g : Goal) (todo_id : string) (now : u64) : bool :=
  existsb (fun t =>
    ((td_id t =?s todo_id)
     || (bool_decide (is_Some (td_claimed_by t))
         && match td_lease_expires_at t with Some expiry => now <? expiry | None => false end
         && negb (todo_closed t)))
    && existsb (fun scope => negb (is_blank scope) && negb (is_absolute (trim scope)))
         (td_required_write_scope t)) (g_todos g).

Definition conflict_message (conflicts : list WorkspaceConflict) (now : u64) : string :=
  "workspace conflict — claiming would race a peer writing the same workspace:" +:+ newline
  +:+ render_conflicts conflicts now
  +:+ "degrade to serial: retry after the holder releases its lease; declare disjoint --required-write-scope paths (goal-relative), or override only with proven disjoint writes (--force-workspace for run, --force for claim)".

(** The lines a granted claim writes: the claim, and the audit of its effective
    write set when there is one. *)
Definition claim_lines (goal_id todo_id agent_id : string) (expires_at : u64)
    (holder_pid : option u32) (paths : list string) (forced : bool) (now : u64)
  : list StoredEvent :=
  stored (TodoClaimed goal_id todo_id agent_id expires_at holder_pid now)
  :: (if is_empty paths then []
      else [stored (WorkspaceLockAcquired goal_id agent_id todo_id paths forced now)]).

(** The check of the folded goal, under the lock: the outcome and the lines to
    write. *)
Definition claim_on (g : Goal) (goal_id todo_id agent_id : string) (lease_secs : u64)
    (holder_pid : option u32) (force_workspace : bool) (now : u64)
  : result (AtomicClaimOutcome * list StoredEvent) :=
  match todo g todo_id with
  | None => inl "unknown todo"
  | Some t =>
      let refused := inr ({| ao_claimed := false; ao_stolen := false |}, []) in
      if todo_closed t || owned_elsewhere t agent_id then refused
      else
        let lease := lease_triple t in
        if lease_stops lease agent_id now then refused
        else if negb (is_absolute (g_cwd g)) && relative_scope g todo_id now
        then inl "cannot resolve relative task write scopes: legacy goal cwd is not absolute; recreate the goal with an absolute --cwd and re-declare its write scopes"
        else
          let conflicts := todo_workspace_conflicts home canonicalize pid_alive g agent_id t now in
          if negb (is_empty conflicts) && negb force_workspace
          then inl (conflict_message conflicts now)
          else
            let paths := todo_workspaces home canonicalize g agent_id t in
            let stolen := match lease with
                          | Some (holder, _, _) => negb (holder =?s agent_id)
                          | None => false
                          end in
            inr ({| ao_claimed := true; ao_stolen := stolen |},
                 claim_lines goal_id todo_id agent_id (u64_add now lease_secs) holder_pid paths
                   (negb (is_empty conflicts) && force_workspace) now)
  end.

(** [now] is the epoch second the transaction reads first, [clock] the clock of
    the fold.  The second component is the file afterwards. *)
Definition try_claim_todo_with_workspace (now : u64) (clock : SystemTime)
    (registry : list RegistryEntry) (lines : list StoredEvent)
    (goal_id todo_id agent_id : string) (lease_secs : u64) (holder_pid : option u32)
    (force_workspace : bool) : result AtomicClaimOutcome * list StoredEvent :=
  match normalize_ttl lease_secs with
  | inl e => (inl e, lines)
  | inr lease_secs =>
      if negb (valid_goal_id goal_id)
      then (inl "goal id must be a nonempty filename component (ASCII letters, digits, '.', '_' or '-')", lines)
      else match registry_entry registry goal_id with
      | None => (inl "goal is not registered", lines)
      | Some entry =>
          match parse_ledger lines with
          | inl e => (inl e, lines)
          | inr events =>
              match claim_on (folded clock entry events) goal_id todo_id agent_id lease_secs
                      holder_pid force_workspace now with
              | inl e => (inl e, lines)
              | inr (outcome, written) => (inr outcome, lines ++ written)
              end
          end
      end
  end.
Definition try_claim_todo_with_pid now clock registry lines goal_id todo_id agent_id lease_secs
    holder_pid :=
  try_claim_todo_with_workspace now clock registry lines goal_id todo_id agent_id lease_secs
    holder_pid false.
Definition try_claim_todo now clock registry lines goal_id todo_id agent_id lease_secs :=
  try_claim_todo_with_pid now clock registry lines goal_id todo_id agent_id lease_secs None.
End Claim.
End Store.
