(* ===== verification/LedgerStoreProps.v ===== *)
(** Properties of the ledger file: repeated lines collapse, the claim
    transaction keeps the workspaces of live claimants disjoint and excludes
    other agents from a leased todo, and the one way a granted claim is lost. *)
From S2P Require Import Prelude Cadence Todos GoalState Contract Signals GoalFrontier Ledger TaskLease TaskGraph WorkspaceGuard LedgerStore GoalProps LedgerProps.

(** * Conflicts *)
Lemma in_sort_by_string {A} (key : A -> string) l : sort_by_string key l ≡ₚ l.
Proof.
  assert (Hins : forall x l, insert_by_string key x l ≡ₚ x :: l).
  { intros x l'. induction l' as [|y r IH]; cbn; [done|]. destruct (String.compare _ _); [done|done|].
    rewrite IH. constructor. }
  induction l as [|x l IH]; [done|]. cbn. by rewrite Hins, IH.
Qed.
Lemma sort_by_string_nil {A} (key : A -> string) l : sort_by_string key l = [] <-> l = [].
Proof.
  split; [|by intros ->]. intros H. apply Permutation_nil. by rewrite <- H, in_sort_by_string.
Qed.
Lemma omap_nil_iff {A B} (f : A -> option B) l : omap f l = [] <-> forall x, In x l -> f x = None.
Proof.
  induction l as [|x l IH]; [by split|]. rewrite forall_in_cons, <- IH. cbn.
  destruct (f x); naive_solver.
Qed.
Lemma flat_map_nil {A B} (f : A -> list B) l : List.flat_map f l = [] <-> forall x, In x l -> f x = [].
Proof.
  induction l as [|x l IH]; [by split|]. rewrite forall_in_cons, <- IH. cbn.
  rewrite app_nil. done.
Qed.
Lemma update_first_found {A} p (f : A -> A) l x :
  In x (update_first p f l) -> In x l \/ exists y, List.find p l = Some y /\ x = f y.
Proof.
  induction l as [|a l IH]; [done|]. cbn. destruct (p a); cbn; [naive_solver|].
  intros [->|H]; [auto|]. destruct (IH H); auto.
Qed.
Lemma is_prefix_refl p : is_prefix p p = true.
Proof. induction p; [done|]. cbn. by rewrite bool_decide_eq_true_2. Qed.
Lemma paths_overlap_refl a : paths_overlap a a = true.
Proof. unfold paths_overlap, path_eq. by rewrite bool_decide_eq_true_2. Qed.
Lemma paths_overlap_sym a b : paths_overlap a b = paths_overlap b a.
Proof.
  unfold paths_overlap, path_eq.
  rewrite (bool_decide_ext (components a = components b) (components b = components a)) by done.
  destruct (bool_decide _), (path_starts_with a b), (path_starts_with b a); done.
Qed.

Lemma live_holder_true pid_alive t a now :
  live_holder pid_alive t a now = true <->
  td_status t <> Done /\ td_status t <> Superseded /\ td_claimed_by t = Some a
  /\ (exists e, td_lease_expires_at t = Some e /\ now < e)
  /\ (forall pid, td_holder_pid t = Some pid -> pid_alive pid = true).
Proof.
  unfold live_holder. rewrite !andb_true_iff, negb_true_iff, orb_false_iff, bool_decide_eq_true.
  rewrite <- !not_true_iff_false, !status_is_true.
  destruct (td_lease_expires_at t) as [e|]; [rewrite Z.ltb_lt|]; destruct (td_holder_pid t); naive_solver.
Qed.

Section Guard.
Context (home : string) (canonicalize : string -> option string) (pid_alive : u32 -> bool).
Notation "'ws'" := (todo_workspaces home canonicalize) (only parsing).
Notation "'live'" := (live_holder pid_alive) (only parsing).

(** No conflict is reported exactly when no other agent's live todo has a path
    that overlaps the claimer's. *)
Lemma conflicts_for_paths_nil g agent mine now :
  conflicts_for_paths home canonicalize pid_alive g agent mine now = [] <->
  forall u b, In u (g_todos g) -> b <> agent -> live u b now = true ->
    forall m q, In m mine -> In q (ws g b u) -> paths_overlap m q = false.
Proof.
  assert (Hone : forall b, conflict_with home canonicalize pid_alive g mine now b = None <->
    forall u, In u (g_todos g) -> live u b now = true ->
      forall m q, In m mine -> In q (ws g b u) -> paths_overlap m q = false).
  { intros b. unfold conflict_with.
    set (paths := List.flat_map _ _).
    assert (Hp : paths = [] <-> forall u, In u (g_todos g) -> live u b now = true ->
              forall m q, In m mine -> In q (ws g b u) -> paths_overlap m q = false).
    { unfold paths. rewrite flat_map_nil. setoid_rewrite List.filter_In. unfold overlapping.
      setoid_rewrite filter_nil_iff. setoid_rewrite existsb_false. naive_solver. }
    rewrite <- Hp. destruct (is_empty (btree_set paths)) eqn:Ee.
    - apply is_empty_true in Ee. split; [intros _|done]. apply elem_of_nil_inv. intros x Hx.
      apply list_elem_of_In, in_btree_set in Hx. by rewrite Ee in Hx.
    - split; [done|]. intros Hn. by rewrite Hn in Ee. }
  unfold conflicts_for_paths. destruct (is_empty mine) eqn:Em.
  { apply is_empty_true in Em as ->. by split. }
  rewrite sort_by_string_nil, omap_nil_iff. setoid_rewrite in_btree_set.
  setoid_rewrite List.filter_In. setoid_rewrite in_omap. setoid_rewrite Hone.
  setoid_rewrite negb_true_iff. setoid_rewrite String.eqb_neq. split.
  - intros H u b Hu Hb Hl. apply (H b); [|done|done]. split; [|done]. exists u. split; [done|].
    apply live_holder_true in Hl. tauto.
  - intros H b [_ Hb] u Hu Hl. by apply (H u b).
Qed.
End Guard.

(** * Isolation: the live claimants' write sets are disjoint *)
Definition Isolated (home : string) (canonicalize : string -> option string)
    (alive : u32 -> bool) (now : u64) (g : Goal) : Prop :=
  forall t u a b, In t (g_todos g) -> In u (g_todos g) -> a <> b ->
    live_holder alive t a now = true -> live_holder alive u b now = true ->
    forall p q, In p (todo_workspaces home canonicalize g a t) ->
                In q (todo_workspaces home canonicalize g b u) -> paths_overlap p q = false.

Section Isolation.
Context (home : string) (canonicalize : string -> option string).
Notation "'ws'" := (todo_workspaces home canonicalize) (only parsing).
Notation "'isolated'" := (Isolated home canonicalize) (only parsing).

(** What a todo's liveness and write set depend on. *)
Lemma isolated_shrink alive alive' now now' g g' :
  g_cwd g' = g_cwd g -> g_agent_profiles g' = g_agent_profiles g ->
  (forall t', In t' (g_todos g') -> exists t, In t (g_todos g)
     /\ td_required_write_scope t' = td_required_write_scope t
     /\ forall a, live_holder alive' t' a now' = true -> live_holder alive t a now = true) ->
  isolated alive now g -> isolated alive' now' g'.
Proof.
  intros Hc Hp Hs Hi t' u' a b Ht Hu Hab Hlt Hlu p q Hpp Hq.
  assert (Hws : forall x t t', td_required_write_scope t' = td_required_write_scope t -> ws g' x t' = ws g x t).
  { intros x t0 t0' H. unfold todo_workspaces, agent_workspaces. by rewrite H, Hc, Hp. }
  destruct (Hs t' Ht) as (t & Hti & Hst & Hl). destruct (Hs u' Hu) as (u & Hui & Hsu & Hl').
  rewrite (Hws a t t' Hst) in Hpp. rewrite (Hws b u u' Hsu) in Hq.
  by eapply (Hi t u a b); auto.
Qed.

Lemma isolated_stamp alive now g g' : StampEq g g' -> isolated alive now g -> isolated alive now g'.
Proof.
  intros H. apply isolated_shrink.
  - change (g_cwd (blur_goal g') = g_cwd (blur_goal g)). by rewrite H.
  - change (g_agent_profiles (blur_goal g') = g_agent_profiles (blur_goal g)). by rewrite H.
  - intros t' Ht'.
    assert (Hb : In (blur t') (List.map blur (g_todos g))).
    { change (In (blur t') (g_todos (blur_goal g))). rewrite H. by apply List.in_map. }
    apply in_map_iff in Hb as (t & Hbt & Ht). exists t. split; [done|].
    assert (Hf : forall {B} (f : Todo -> B), (forall x, f (blur x) = f x) -> f t' = f t)
      by (intros B f Hf; rewrite <- (Hf t'), <- (Hf t); by f_equal).
    split; [by apply (Hf _ td_required_write_scope)|].
    intros a. by rewrite (Hf _ (fun x => live_holder alive x a now)).
Qed.

(** A later moment, at which no recorded holder has come back to life. *)
Lemma isolated_later alive alive' now now' g :
  now <= now' ->
  (forall t pid, In t (g_todos g) -> td_holder_pid t = Some pid -> alive' pid = true -> alive pid = true) ->
  isolated alive now g -> isolated alive' now' g.
Proof.
  intros Hn Ha. apply isolated_shrink; [done..|]. intros t Ht. exists t. split; [done|]. split; [done|].
  intros a. rewrite !live_holder_true. intros (H1 & H2 & H3 & (e & H4 & H5) & H6).
  do 3 (split; [done|]). split; [exists e; split; [done|lia]|]. intros pid Hp. eapply Ha; eauto.
Qed.

(** What the guard promises the claim transaction, whatever checks it: an empty
    report means that no live todo of another agent has a path overlapping the
    claimer's. *)
Class GuardSound (alive : u32 -> bool)
    (report : Goal -> string -> Todo -> u64 -> list WorkspaceConflict) : Prop :=
  guard_sound g agent t now : report g agent t now = [] ->
    forall u b, In u (g_todos g) -> b <> agent -> live_holder alive u b now = true ->
    forall m q, In m (ws g agent t) -> In q (ws g b u) -> paths_overlap m q = false.
#[export] Instance workspace_guard_sound alive :
  GuardSound alive (todo_workspace_conflicts home canonicalize alive).
Proof. intros g agent t now Hc. by apply conflicts_for_paths_nil. Qed.

Lemma live_earlier alive t a now later : now <= later ->
  live_holder alive t a later = true -> live_holder alive t a now = true.
Proof.
  intros Hn. rewrite !live_holder_true. intros (H1 & H2 & H3 & (e & H4 & H5) & H6).
  do 3 (split; [done|]). split; [exists e; split; [done|lia]|done].
Qed.
(** The fold of a claim whose workspaces raise no conflict at the time it read,
    which may lie before the latest time read so far: who is live at the latest
    was live then. *)
Lemma isolated_claim alive report `{GuardSound alive report} now latest clock g id t gid agent exp pid ts :
  now <= latest -> todo g id = Some t -> report g agent t now = [] ->
  isolated alive latest g -> isolated alive latest (apply clock (TodoClaimed gid id agent exp pid ts) g).
Proof.
  intros Hle Ht Hc Hi.
  assert (Hpeer : forall u b, In u (g_todos g) -> b <> agent -> live_holder alive u b latest = true ->
    forall m q, In m (ws g agent t) -> In q (ws g b u) -> paths_overlap m q = false).
  { intros u b Hu Hb Hl. apply (guard_sound g agent t now Hc u b Hu Hb). by eapply live_earlier. }
  clear Hc.
  set (g' := apply clock _ g). set (t2 := claimed_todo agent exp pid t).
  assert (Hold : forall x, In x (g_todos g') -> In x (g_todos g) \/ x = t2).
  { intros x Hx. unfold g' in Hx. cbn in Hx. apply update_first_found in Hx as [?|(y & Hy & ->)]; [by left|].
    right. unfold todo in Ht. unfold t2. congruence. }
  assert (Hws : forall a x, ws g' a x = ws g a x) by done.
  assert (Hw2 : forall a, ws g a t2 = ws g a t) by done.
  assert (Hown : forall a, live_holder alive t2 a latest = true -> a = agent).
  { intros a Ha. apply live_holder_true in Ha as (_ & _ & Ha & _). unfold t2, claimed_todo in Ha.
    cbn in Ha. congruence. }
  intros x y a b Hx Hy Hab Hlx Hly p q Hp Hq. rewrite Hws in Hp, Hq.
  destruct (Hold x Hx) as [Hx'| ->], (Hold y Hy) as [Hy'| ->].
  - by eapply (Hi x y a b).
  - apply Hown in Hly as ->. rewrite paths_overlap_sym. by eapply (Hpeer x a).
  - apply Hown in Hlx as ->. eapply (Hpeer y b); auto.
  - apply Hown in Hlx as ->. by apply Hown in Hly as ->.
Qed.
End Isolation.

(** Events that end work or report on it: they grant nothing and change no
    write set. *)
Definition eases (e : Event) : bool :=
  match e with
  | TodoCompleted _ _ _ _ _ _ | TodoSuperseded _ _ _ | TodoReleased _ _ _ _ | TodoExpired _ _ _
  | RunRecorded _ _ _ | QuotaSpent _ _ _ _ _ _ | EvidenceAttached _ _ _ _
  | TurnNoProgress _ _ _ _ _ _ | GateResolved _ _ _ _ _ => true
  | _ => false
  end.
Lemma eases_effect alive now clock e t a :
  eases e = true ->
  td_required_write_scope (effect clock e t) = td_required_write_scope t
  /\ (live_holder alive (effect clock e t) a now = true -> live_holder alive t a now = true).
Proof.
  intros He. destruct e; try done; cbn [effect]; try (split; done).
  - unfold completed_todo. destruct (status_is _ _); [done|]. by destruct evidence.
  - by destruct note.
  - unfold released_todo. destruct (bool_decide _); [|done]. split; [done|].
    rewrite live_holder_true. by intros (_ & _ & ? & _).
  - unfold expired_todo. destruct (td_claimed_by t) eqn:E; [|done]. split; [done|].
    rewrite live_holder_true. by intros (_ & _ & ? & _).
Qed.
Lemma isolated_eases home canonicalize alive now clock e g :
  eases e = true -> Isolated home canonicalize alive now g ->
  Isolated home canonicalize alive now (apply clock e g).
Proof.
  intros He. apply isolated_shrink.
  - destruct e; try done. cbn [apply]. unfold apply_run_recorded. by destruct (existsb _ _).
  - destruct e; try done. cbn [apply]. unfold apply_run_recorded. by destruct (existsb _ _).
  - intros t' Ht'. rewrite apply_todos in Ht'.
    assert (Ha : added g e = []) by (by destruct e). rewrite Ha, app_nil_r in Ht'.
    destruct (target e) as [id|]; [|by exists t'].
    apply update_first_found in Ht' as [?|(t & Ht & ->)]; [by exists t'|].
    exists t. split; [by apply List.find_some in Ht as [? _]|].
    split; [by apply (eases_effect alive now clock e t "")|].
    intros a. by apply eases_effect.
Qed.

(** A goal up to the moment its fold started. *)
Definition unborn (g : Goal) : Goal := g <| g_created_at := 0 |>.
Lemma unborn_apply now e g : unborn (apply now e g) = unborn (apply now e (unborn g)).
Proof.
  destruct e; cbn [apply]; try done.
  - unfold apply_todo_added. change (g_next_index (unborn g)) with (g_next_index g).
    by destruct (td_index todo =? 0).
  - unfold apply_run_recorded. by destruct (existsb _ _).
  - unfold apply_replan_acked. by destruct (has_frontier_delta _).
  - unfold apply_delivery_outcome. change (delivery_state (unborn g)) with (delivery_state g).
    by destruct (delivery_state g todo_id).
  - change (same_episode (unborn g)) with (same_episode g).
    by destruct (same_episode g agent_id steer_ts).
Qed.
Lemma unborn_fold l : forall g1 g2,
  unborn g1 = unborn g2 -> unborn (fold_events l g1) = unborn (fold_events l g2).
Proof.
  induction l as [|[n e] l IH]; intros g1 g2 H; [done|]. apply IH. by rewrite unborn_apply, H, <- unborn_apply.
Qed.
(** Folds of the same events at two clocks. *)
Lemma isolated_any_clock home canonicalize alive now c1 c2 entry ev :
  Isolated home canonicalize alive now (folded c1 entry ev) ->
  Isolated home canonicalize alive now (folded c2 entry ev).
Proof.
  intros H. unfold folded in *.
  set (g1 := goal_new c1 _ _ _) in *. set (g2 := goal_new c2 _ _ _).
  assert (Hu : forall g g', unborn g = unborn g' ->
            Isolated home canonicalize alive now g -> Isolated home canonicalize alive now g').
  { intros g g' E Hi. change (Isolated home canonicalize alive now (unborn g')). by rewrite <- E. }
  apply (Hu (fold_events (List.map (fun s => (c2, se_event s)) ev) g1)); [by apply unborn_fold|].
  eapply isolated_stamp; [|exact H]. apply fold_any_clock; [by rewrite !List.map_map|done].
Qed.

(** * The ledger *)
Section Ledger.
Context (to_json : Event -> string) (to_entries : Event -> list (string * string)).
Context (render_object : list (string * string) -> string).
Notation "'parse'" := (parse_ledger to_json to_entries render_object) (only parsing).
Notation "'pstep'" := (parse_step to_json to_entries render_object) (only parsing).

Lemma parse_error w err : List.fold_left pstep w (inl err) = inl err.
Proof. by induction w. Qed.
Lemma parse_fold w : forall st st',
  List.fold_left pstep w (inr st) = inr st' ->
  exists w', sublist w' w /\ ps_out st' = ps_out st ++ w'.
Proof.
  induction w as [|s w IH]; intros st st'.
  - intros [= <-]. exists []. by rewrite app_nil_r.
  - cbn [List.fold_left parse_step]. destruct (ps_seen st !! _) as [prior|].
    + destruct (prior =?s _); [|by rewrite parse_error].
      intros H. apply IH in H as (w' & Hw & ->). exists w'. split; [by constructor|done].
    + intros H. apply IH in H as (w' & Hw & ->). exists (s :: w'). split; [by constructor|].
      cbn. by rewrite <- (assoc app).
Qed.
(** The events read from a longer file: those read before, and some of the new
    ones. *)
Lemma parse_app lines w ev' :
  parse (lines ++ w) = inr ev' ->
  exists ev w', parse lines = inr ev /\ sublist w' w /\ ev' = ev ++ w'.
Proof.
  unfold parse_ledger, parse_state. rewrite List.fold_left_app.
  destruct (List.fold_left _ lines _) as [err|st]; [by rewrite parse_error|].
  destruct (List.fold_left _ w _) as [err|st'] eqn:E; [done|]. intros [= <-].
  apply parse_fold in E as (w' & ? & ?). eauto.
Qed.

Lemma folded_app clock entry ev w :
  folded clock entry (ev ++ w)
  = fold_events (List.map (fun s => (clock, se_event s)) w) (folded clock entry ev).
Proof. unfold folded. by rewrite List.map_app, fold_events_app. Qed.

Context (home : string) (canonicalize : string -> option string) (registry : list RegistryEntry).
Context (gid : string) (entry : RegistryEntry).
Hypothesis entry_registered : registry_entry registry gid = Some entry.
Notation "'claim'" :=
  (try_claim_todo_with_pid to_json to_entries render_object home canonicalize) (only parsing).

(** What the claim's lines do to the fold: nothing, or exactly the claim. *)
Lemma folded_claim_lines clock ev w id agent exp pid paths forced now :
  sublist w (claim_lines to_json gid id agent exp pid paths forced now) ->
  folded clock entry (ev ++ w) = folded clock entry ev
  \/ folded clock entry (ev ++ w)
     = apply clock (TodoClaimed gid id agent exp pid now) (folded clock entry ev).
Proof.
  intros Hw. rewrite folded_app. unfold claim_lines in Hw.
  assert (Hlock : forall w0 g, sublist w0 (if is_empty paths then []
             else [stored to_json (WorkspaceLockAcquired gid agent id paths forced now)]) ->
            fold_events (List.map (fun s => (clock, se_event s)) w0) g = g).
  { intros w0 g H0. destruct (is_empty paths); [by apply sublist_nil_r in H0 as ->|].
    apply sublist_cons_r in H0 as [H0|(w1 & -> & H0)]; apply sublist_nil_r in H0 as ->; done. }
  apply sublist_cons_r in Hw as [Hw|(w0 & -> & Hw)].
  - left. by apply Hlock.
  - right. cbn. by apply Hlock.
Qed.

(** A transaction leaves the file alone, or grants the claim and writes its
    lines. *)
Lemma claim_cases alive now clock lines id agent secs pid r lines' :
  claim alive now clock registry lines gid id agent secs pid = (r, lines') ->
  (lines' = lines /\ forall o, r = inr o -> ao_claimed o = false)
  \/ exists ev t ttl o,
       parse lines = inr ev /\ normalize_ttl secs = inr ttl
       /\ todo (folded clock entry ev) id = Some t
       /\ todo_closed t = false
       /\ lease_stops alive (lease_triple t) agent now = false
       /\ todo_workspace_conflicts home canonicalize alive (folded clock entry ev) agent t now = []
       /\ r = inr o /\ ao_claimed o = true
       /\ lines' = lines ++ claim_lines to_json gid id agent (u64_add now ttl) pid
                     (todo_workspaces home canonicalize (folded clock entry ev) agent t) false now.
Proof.
  unfold try_claim_todo_with_pid, try_claim_todo_with_workspace.
  destruct (normalize_ttl secs) as [err|ttl]; [intros [= <- <-]; by left|].
  destruct (negb (valid_goal_id gid)); [intros [= <- <-]; by left|]. rewrite entry_registered.
  destruct (parse lines) as [err|ev] eqn:Ep; [intros [= <- <-]; by left|].
  unfold claim_on. destruct (todo _ id) as [t|] eqn:Et; [|intros [= <- <-]; by left].
  destruct (todo_closed t) eqn:Ec; cbn [orb].
  { rewrite app_nil_r. intros [= <- <-]. left. split; [done|]. by intros o [= <-]. }
  destruct (owned_elsewhere t agent).
  { rewrite app_nil_r. intros [= <- <-]. left. split; [done|]. by intros o [= <-]. }
  destruct (lease_stops alive (lease_triple t) agent now) eqn:El.
  { rewrite app_nil_r. intros [= <- <-]. left. split; [done|]. by intros o [= <-]. }
  destruct (_ && relative_scope _ _ _); [intros [= <- <-]; by left|].
  destruct (is_empty (todo_workspace_conflicts _ _ _ _ _ _ _)) eqn:Ew;
    cbn [negb andb]; [|intros [= <- <-]; by left].
  apply is_empty_true in Ew. intros [= <- <-]. right. eexists ev, t, ttl, _.
  split_and!; done.
Qed.

(** * Concurrent claimants *)
(** A moment: the latest time any transaction has read, the processes alive, and
    the file of the goal. *)
Record World := mkWorld { w_now : u64; w_alive : u32 -> bool; w_lines : list StoredEvent }.
(** Processes die: no holder on record comes back to life, so no recorded
    process id is given to a new process. *)
Definition no_reuse (w : World) (alive : u32 -> bool) : Prop :=
  forall clock ev t pid, parse (w_lines w) = inr ev -> In t (g_todos (folded clock entry ev)) ->
       td_holder_pid t = Some pid -> alive pid = true -> w_alive w pid = true.

(** One transaction of one process: a claim, whatever its outcome, or an append
    that ends work or reports on it.  A claim reads the clock before it takes the
    lock, so the times need not come in the order of the transactions. *)
Inductive transaction (w : World) : World -> Prop :=
| tx_claim now alive clock id agent secs pid r lines' :
    no_reuse w alive ->
    claim alive now clock registry (w_lines w) gid id agent secs pid = (r, lines') ->
    transaction w (mkWorld (Z.max (w_now w) now) alive lines')
| tx_append now alive e lines' event_id :
    no_reuse w alive -> eases e = true -> goal_id e = gid ->
    append to_json to_entries render_object registry (w_lines w) e = inr (lines', event_id) ->
    transaction w (mkWorld (Z.max (w_now w) now) alive lines').

(** From the latest time read on, whenever the ledger is read. *)
Definition LedgerIsolated (w : World) : Prop :=
  forall time clock ev, w_now w <= time -> parse (w_lines w) = inr ev ->
    Isolated home canonicalize (w_alive w) time (folded clock entry ev).

Lemma append_lines lines e lines' event_id :
  append to_json to_entries render_object registry lines e = inr (lines', event_id) ->
  lines' = lines \/ lines' = lines ++ [stored to_json e].
Proof.
  unfold append, append_with_meta. destruct (registry_entry registry (goal_id e)); [|done].
  destruct (negb _); [done|]. unfold append_event_locked.
  destruct (find_existing _ _ _ _) as [[?|?]|]; cbn; intros [=]; subst; auto.
Qed.

Lemma isolated_at_later w now alive :
  no_reuse w alive -> LedgerIsolated w -> LedgerIsolated (mkWorld (Z.max (w_now w) now) alive (w_lines w)).
Proof.
  intros Ha Hi time clock ev Ht Hp. cbn in *. eapply (isolated_later _ _ (w_alive w) alive time time); [lia| |].
  - intros t pid. by apply Ha.
  - apply Hi; [lia|done].
Qed.

Lemma transaction_isolated w w' : transaction w w' -> LedgerIsolated w -> LedgerIsolated w'.
Proof.
  intros Htx Hi. destruct Htx as [now alive clock id agent secs pid r lines' Hl Hc
                                 |now alive e lines' event_id Hl He Hg Ha];
    pose proof (isolated_at_later w now alive Hl Hi) as Hi'; clear Hi.
  - apply claim_cases in Hc as [[-> _]|(ev & t & ttl & o & Hp & _ & Ht & _ & _ & Hw & _ & _ & ->)]; [done|].
    intros time c ev' Htime Hp'. apply parse_app in Hp' as (ev0 & w1 & Hp0 & Hs & ->).
    cbn [w_lines w_now w_alive] in *. replace ev0 with ev by congruence.
    apply isolated_any_clock with (c1 := clock).
    destruct (folded_claim_lines clock ev _ _ _ _ _ _ _ _ Hs) as [->| ->].
    + by apply (Hi' time clock ev).
    + eapply isolated_claim with (t := t) (now := now); [apply _|lia|done|exact Hw|]. by apply (Hi' time clock ev).
  - apply append_lines in Ha as [->| ->]; [done|].
    intros time c ev' Htime Hp'. apply parse_app in Hp' as (ev0 & w1 & Hp0 & Hs & ->).
    rewrite folded_app. apply sublist_cons_r in Hs as [Hs|(w0 & -> & Hs)];
      apply sublist_nil_r in Hs as ->.
    + by apply (Hi' time c ev0).
    + cbn. apply isolated_eases; [done|]. by apply (Hi' time c ev0).
Qed.

(** C9: however many processes claim todos of a goal without force, and end or
    report on work, the agents that the ledger says hold live leases never hold
    overlapping write sets: this is an invariant of every sequence of
    transactions, in whatever order the times they read come (a claim reads the
    clock before it takes the lock), at the latest time read so far and at any
    later one, as long as no process id on record is given to a new process.
    (What the ledger says may differ from what an agent was told: a claim that
    repeats an earlier line is reported and not recorded,
    [repeated_claim_is_lost].) *)
Theorem claims_keep_workspaces_disjoint w w' :
  LedgerIsolated w -> rtc transaction w w' -> LedgerIsolated w'.
Proof. intros Hi Hr. induction Hr as [w|w w1 w2 Hs _ IH]; [done|]. by apply IH, (transaction_isolated w). Qed.

(** * Exclusion *)
Record Attempt := mkAttempt {
  at_now : u64; at_clock : SystemTime; at_alive : u32 -> bool;
  at_todo : string; at_agent : string; at_secs : u64; at_pid : option u32
}.
(** Attempts one after the other, in any order the lock serialises them to. *)
Fixpoint run_attempts (l : list Attempt) (lines : list StoredEvent)
  : list (Attempt * result AtomicClaimOutcome) * list StoredEvent :=
  match l with
  | [] => ([], lines)
  | c :: l =>
      let '(r, lines) := claim (at_alive c) (at_now c) (at_clock c) registry lines gid
                           (at_todo c) (at_agent c) (at_secs c) (at_pid c) in
      let '(rs, lines) := run_attempts l lines in ((c, r) :: rs, lines)
  end.

(** The file says that [agent] holds the todo until [e]. *)
Definition Held (id agent : string) (e : u64) (pid : option u32) (lines : list StoredEvent) : Prop :=
  forall clock ev, parse lines = inr ev -> exists t, todo (folded clock entry ev) id = Some t
    /\ td_claimed_by t = Some agent /\ td_lease_expires_at t = Some e /\ td_holder_pid t = pid.

Lemma held_stops alive t agent e pid b now :
  td_claimed_by t = Some agent -> td_lease_expires_at t = Some e -> td_holder_pid t = pid ->
  now < e -> b <> agent -> (forall p, pid = Some p -> alive p = true) ->
  lease_stops alive (lease_triple t) b now = true.
Proof.
  intros Hc He Hp Hn Hb Ha. unfold lease_stops, lease_triple. rewrite Hc, He, Hp.
  rewrite (proj2 (Z.ltb_lt _ _) Hn), (proj2 (String.eqb_neq agent b)) by congruence.
  destruct pid as [p|]; [by rewrite (Ha p)|done].
Qed.

(** While an agent's lease runs and its process lives, no sequence of claim
    transactions by other agents - on this todo or any other - is granted the
    todo, and the lease survives all of them. *)
Theorem leased_todo_excludes_claimants l lines id agent e pid :
  Held id agent e pid lines ->
  (forall c, In c l -> at_now c < e /\ at_agent c <> agent
                       /\ forall p, pid = Some p -> at_alive c p = true) ->
  Held id agent e pid (snd (run_attempts l lines))
  /\ forall c o, In (c, inr o) (fst (run_attempts l lines)) -> at_todo c = id -> ao_claimed o = false.
Proof.
  revert lines. induction l as [|c l IH]; intros lines Hh Hl; [by split|].
  rewrite forall_in_cons in Hl. destruct Hl as [(Hn & Hb & Ha) Hl]. cbn [run_attempts].
  destruct (claim _ _ _ _ _ _ _ _ _ _) as [r lines1] eqn:Hc.
  assert (Hstep : Held id agent e pid lines1
            /\ forall o, r = inr o -> at_todo c = id -> ao_claimed o = false).
  { apply claim_cases in Hc as [[-> Hr]|(ev & t & ttl & o & Hp & _ & Ht & _ & Hs & _ & -> & _ & ->)];
      [split; [done|]; intros o Ho _; by apply Hr|].
    assert (Hne : at_todo c <> id).
    { intros Heq. rewrite Heq in Ht. destruct (Hh (at_clock c) ev Hp) as (t' & Ht' & H1 & H2 & H3).
      replace t' with t in * by congruence.
      by rewrite (held_stops _ _ _ _ _ _ _ H1 H2 H3 Hn Hb Ha) in Hs. }
    split; [|done]. intros k ev' Hp'. apply parse_app in Hp' as (ev0 & w & Hp0 & Hw & ->).
    destruct (Hh k ev0 Hp0) as (t' & Ht' & H).
    destruct (folded_claim_lines k ev0 _ _ _ _ _ _ _ _ Hw) as [->| ->]; [by exists t'|].
    exists t'. split; [|done]. erewrite todo_apply by done. cbn [target].
    rewrite bool_decide_eq_false_2; [done|]. congruence. }
  destruct Hstep as [Hh1 Hr1]. specialize (IH lines1 Hh1 Hl). destruct IH as [IH1 IH2].
  destruct (run_attempts l lines1) as [rs lines2]. split; [done|].
  intros c' o' [[= -> ->]|Hin]; [by apply Hr1|by apply IH2].
Qed.

(** * Repeated lines *)
Lemma parse_seen lines st : parse_state to_json to_entries render_object lines = inr st ->
  forall s, In s lines ->
    ps_seen st !! effective_id to_json s = Some (event_fingerprint to_entries render_object (se_event s)).
Proof.
  revert st. induction lines as [|s lines IH] using rev_ind; [done|]. intros st'.
  unfold parse_state. rewrite List.fold_left_app. fold (parse_state to_json to_entries render_object lines).
  destruct (parse_state _ _ _ lines) as [err|st] eqn:E; [done|]. cbn [List.fold_left parse_step].
  specialize (IH st eq_refl).
  destruct (ps_seen st !! _) as [prior|] eqn:Es.
  - destruct (String.eqb_spec prior (event_fingerprint to_entries render_object (se_event s))) as [->|]; [|done].
    intros [= <-] x [Hx|[<-|[]]]%in_app_iff; [by apply IH|done].
  - intros [= <-] x [Hx|[<-|[]]]%in_app_iff; cbn; [|by rewrite lookup_insert_eq].
    rewrite lookup_insert_ne; [by apply IH|]. intros Heq. specialize (IH x Hx). congruence.
Qed.
Lemma parse_repeated lines w ev :
  parse lines = inr ev -> (forall s, In s w -> In s lines) -> parse (lines ++ w) = inr ev.
Proof.
  unfold parse_ledger at 1. destruct (parse_state _ _ _ lines) as [err|st] eqn:E; [done|].
  intros [= <-] Hw. pose proof (parse_seen lines st E) as Hs.
  unfold parse_ledger, parse_state. rewrite List.fold_left_app. fold (parse_state to_json to_entries render_object lines).
  rewrite E. clear E. revert st Hs. induction w as [|s w IH]; intros st Hs; [done|].
  rewrite forall_in_cons in Hw. destruct Hw as [Hin Hw]. cbn [List.fold_left parse_step].
  rewrite (Hs s Hin), String.eqb_refl.
  by apply (IH Hw (mkParseState (ps_seen st) (ps_out st) (S (ps_line st)))).
Qed.

(** The id of an event is its content, and the reader collapses repeated
    lines - so a claim granted with the same agent, deadline and second as an
    earlier one is written and read as nothing: the transaction reports the
    claim, and the ledger still says what it said before it. *)
Theorem repeated_claim_is_lost alive now clock lines id agent secs pid o lines' :
  claim alive now clock registry lines gid id agent secs pid = (inr o, lines') ->
  ao_claimed o = true ->
  (forall s, In s lines' -> In s lines) ->
  parse lines' = parse lines.
Proof.
  intros Hc Ho Hin. apply claim_cases in Hc as [[_ Hr]|(ev & t & ttl & o' & Hp & _ & _ & _ & _ & _ & _ & _ & ->)].
  - by rewrite (Hr o eq_refl) in Ho.
  - rewrite Hp. apply parse_repeated; [done|]. intros s Hs. apply Hin, in_app_iff. by right.
Qed.
End Ledger.

(** * A concrete ledger *)
(** A serialisation that tells the events of the examples apart. *)
Definition plain_json (e : Event) : string :=
  match e with
  | TodoAdded _ t _ => "added " +:+ td_id t
  | TodoClaimed _ id agent exp _ ts =>
      "claimed " +:+ id +:+ " " +:+ agent +:+ " " +:+ show exp +:+ " " +:+ show ts
  | TodoReleased _ id agent ts => "released " +:+ id +:+ " " +:+ agent +:+ " " +:+ show ts
  | WorkspaceLockAcquired _ agent id _ _ ts =>
      "locked " +:+ id +:+ " " +:+ agent +:+ " " +:+ show ts
  | _ => "other"
  end.
Definition plain_entries (e : Event) : list (string * string) := [("event", plain_json e)].
Definition plain_object (l : list (string * string)) : string := join "," (List.map snd l).
Definition demo_entry : RegistryEntry :=
  {| re_goal_id := "g"; re_objective := "o"; re_cwd := "/repo"; re_reg_status := "active";
     re_created_at := 1 |}.
Definition demo_lines : list StoredEvent :=
  List.map (stored plain_json)
    [TodoAdded "g" (with_write_scopes ["src"] (advancement 0 "T1" "x")) 10;
     TodoAdded "g" (with_write_scopes ["src/lib"] (advancement 0 "T2" "y")) 11].
Definition demo_claim (now : u64) (lines : list StoredEvent) (id agent : string)
  : result AtomicClaimOutcome * list StoredEvent :=
  try_claim_todo_with_pid plain_json plain_entries plain_object "/home/u" (fun _ => None)
    (fun _ => true) now 0 [demo_entry] lines "g" id agent 60 None.

Lemma demo_isolated :
  LedgerIsolated plain_json plain_entries plain_object "/home/u" (fun _ => None) demo_entry
    (mkWorld 20 (fun _ => true) demo_lines).
Proof.
  intros time clock ev _ Hp. vm_compute in Hp. injection Hp as <-.
  intros t u a b Ht _ _ Hl. exfalso. apply live_holder_true in Hl as (_ & _ & Hc & _).
  destruct Ht as [<-|[<-|[]]]; discriminate Hc.
Qed.

(** The second claim has read the clock before the first. *)
Lemma claims_keep_workspaces_disjoint_witness :
  LedgerIsolated plain_json plain_entries plain_object "/home/u" (fun _ => None) demo_entry
    (mkWorld 30 (fun _ => true)
       (snd (demo_claim 20 (snd (demo_claim 30 demo_lines "T1" "a")) "T2" "b"))).
Proof.
  apply (claims_keep_workspaces_disjoint plain_json plain_entries plain_object "/home/u"
           (fun _ => None) [demo_entry] "g" demo_entry eq_refl
           (mkWorld 20 (fun _ => true) demo_lines)); [apply demo_isolated|].
  set (w1 := mkWorld 30 (fun _ => true) (snd (demo_claim 30 demo_lines "T1" "a"))).
  apply (rtc_l _ _ w1); [|apply rtc_once].
  - apply (tx_claim plain_json plain_entries plain_object "/home/u" (fun _ => None) [demo_entry] "g" demo_entry
      (mkWorld 20 (fun _ => true) demo_lines) 30 (fun _ => true) 0 "T1" "a" 60 None
      (fst (demo_claim 30 demo_lines "T1" "a"))); [intros c ev t p _ _ _ _; reflexivity|apply surjective_pairing].
  - apply (tx_claim plain_json plain_entries plain_object "/home/u" (fun _ => None) [demo_entry] "g" demo_entry
      w1 20 (fun _ => true) 0 "T2" "b" 60 None (fst (demo_claim 20 (w_lines w1) "T2" "b")));
      [intros c ev t p _ _ _ _; reflexivity|apply surjective_pairing].
Defined.

Lemma leased_todo_excludes_claimants_witness :
  let lines := snd (demo_claim 20 demo_lines "T1" "a") in
  let attempts := [mkAttempt 30 0 (fun _ => true) "T1" "b" 60 None;
                   mkAttempt 40 0 (fun _ => true) "T1" "c" 60 (Some 7)] in
  Held plain_json plain_entries plain_object demo_entry "T1" "a" 80 None
    (snd (run_attempts plain_json plain_entries plain_object "/home/u" (fun _ => None)
            [demo_entry] "g" attempts lines)).
Proof.
  cbv zeta.
  apply (leased_todo_excludes_claimants plain_json plain_entries plain_object "/home/u"
    (fun _ => None) [demo_entry] "g" demo_entry eq_refl _ _ "T1" "a" 80 None).
  - intros clock ev Hp. vm_compute in Hp. injection Hp as <-. eexists.
    split; [reflexivity|]. split; [reflexivity|]. split; reflexivity.
  - intros c [<-|[<-|[]]]; (split; [reflexivity|split; discriminate]).
Defined.

(** Within one second an agent claims, releases and claims again: the second
    claim is granted and lost, and another agent is granted the todo too. *)
Lemma repeated_claim_is_lost_witness :
  let lines1 := snd (demo_claim 20 demo_lines "T1" "a") ++ [stored plain_json (TodoReleased "g" "T1" "a" 20)] in
  let again := demo_claim 20 lines1 "T1" "a" in
  parse_ledger plain_json plain_entries plain_object (snd again)
  = parse_ledger plain_json plain_entries plain_object lines1
  /\ fst again = inr {| ao_claimed := true; ao_stolen := false |}
  /\ fst (demo_claim 20 (snd again) "T1" "b") = inr {| ao_claimed := true; ao_stolen := false |}.
Proof.
  cbv zeta. split; [|split; vm_compute; reflexivity].
  apply (repeated_claim_is_lost plain_json plain_entries plain_object "/home/u" (fun _ => None)
    [demo_entry] "g" demo_entry eq_refl (fun _ => true) 20 0 _ "T1" "a" 60 None
    {| ao_claimed := true; ao_stolen := false |}); [vm_compute; reflexivity|reflexivity|].
  intros s Hs. vm_compute in Hs. vm_compute. tauto.
Defined.
