(* ===== verification/TodoChangeProps.v ===== *)
(** Dependency edits under the append lock: a ledger that grows by checked edits
    and by events that touch no dependency never folds to a cyclic goal. *)
From S2P Require Import Prelude Cadence Todos GoalState Contract Signals GoalFrontier Ledger TaskLease TaskGraph WorkspaceGuard LedgerStore GoalProps LedgerProps TaskGraphProps LedgerStoreProps.

(** What the dependencies of a goal depend on. *)
Definition same_deps (t u : Todo) : Prop :=
  td_id t = td_id u /\ td_class t = td_class u /\ td_blocked_by_gate t = td_blocked_by_gate u.
Lemma same_deps_edges t u : same_deps t u -> todo_edges t = todo_edges u.
Proof.
  intros (Hi & Hc & Hb). unfold todo_edges, predecessor_ids. rewrite Hb. apply List.map_ext.
  intros p. unfold edge_of, is_blocking_source. by rewrite Hi, Hc.
Qed.
Lemma flat_map_update_first {A B} p (f : A -> A) (h : A -> list B) l :
  (forall x, h (f x) = h x) -> List.flat_map h (update_first p f l) = List.flat_map h l.
Proof.
  intros H. induction l as [|x l IH]; [done|]. cbn. destruct (p x); cbn; [by rewrite H|by rewrite IH].
Qed.

(** Events that may change a dependency, with the todo they change. *)
Definition restructures (e : Event) : option string :=
  match e with
  | TodoAdded _ t _ => Some (td_id t)
  | TodoUpdated _ id _ _ _ _ _ _ (Some _) _ _ _ _ => Some id
  | _ => None
  end.

Lemma when_deps {A} (v : option A) f t :
  (forall x u, same_deps (f x u) u) -> same_deps (when v f t) t.
Proof. intros H. destruct v; [apply H|done]. Qed.
Lemma same_deps_trans t u v : same_deps t u -> same_deps u v -> same_deps t v.
Proof. unfold same_deps. naive_solver congruence. Qed.

Lemma updated_deps a b c d e f i j k ts t :
  same_deps (updated_todo a b c d e f None i j k ts t) t.
Proof.
  unfold updated_todo. cbn [when].
  repeat lazymatch goal with
  | |- same_deps (when ?v ?g ?x) _ =>
      apply (same_deps_trans _ x); [apply when_deps; intros; try done|]
  | |- same_deps (?x <| td_updated_at := _ |>) _ => apply (same_deps_trans _ x); [done|]
  end; try done.
  all: intros; unfold apply_status;
    repeat match goal with |- context [match ?b with _ => _ end] => destruct b end; done.
Qed.

Lemma effect_deps now e t : restructures e = None -> same_deps (effect now e t) t.
Proof.
  intros H. destruct e; try done; cbn [effect].
  - unfold completed_todo. destruct (status_is _ _); [done|]. by destruct evidence.
  - destruct blocks; [done|]. apply updated_deps.
  - by destruct note.
  - unfold polled_monitor. by destruct (result =?s "changed").
  - unfold renewed_todo. by destruct (td_claimed_by t).
  - unfold released_todo. by destruct (bool_decide _).
  - unfold expired_todo. by destruct (td_claimed_by t).
Qed.
Lemma edges_unchanged now e g :
  restructures e = None -> goal_edges (apply now e g) = goal_edges g.
Proof.
  intros H. unfold goal_edges. rewrite apply_todos.
  assert (Ha : added g e = []) by (by destruct e). rewrite Ha, app_nil_r.
  destruct (target e); [|done]. apply flat_map_update_first. intros t.
  by apply same_deps_edges, effect_deps.
Qed.

(** Every edge a todo declares touches it. *)
Lemma edge_touches t a b : In (a, b) (todo_edges t) -> a = td_id t \/ b = td_id t.
Proof.
  intros (p & Hp & _)%in_map_iff. unfold edge_of in Hp.
  destruct (is_blocking_source t); injection Hp as <- <-; auto.
Qed.
Lemma edges_changed now e g id a b :
  restructures e = Some id -> a <> id -> b <> id ->
  In (a, b) (goal_edges (apply now e g)) -> In (a, b) (goal_edges g).
Proof.
  intros Hr Ha Hb (t' & Ht' & Hin)%List.in_flat_map. apply List.in_flat_map.
  rewrite apply_todos in Ht'. apply edge_touches in Hin as Htouch.
  apply in_app_iff in Ht' as [Ht'|Ht'].
  - destruct (target e) as [i|] eqn:Et; [|by exists t'].
    apply update_first_found in Ht' as [?|(t & Ht & ->)]; [by exists t'|].
    apply List.find_some in Ht as [_ Hi]. apply String.eqb_eq in Hi. rewrite effect_id in Htouch.
    assert (i = id) as -> by (destruct e; try done; destruct blocks; naive_solver congruence).
    naive_solver congruence.
  - destruct e; try done. destruct Ht' as [<-|[]].
    assert (td_id (if td_index todo =? 0 then todo <| td_index := u32_add (g_next_index g) 1 |> else todo)
            = td_id todo) as Hid by (by destruct (td_index todo =? 0)).
    rewrite Hid in Htouch. naive_solver congruence.
Qed.

(** The clock of a fold does not matter to the dependencies. *)
Lemma edges_blur g : goal_edges (blur_goal g) = goal_edges g.
Proof. unfold goal_edges. cbn. induction (g_todos g) as [|t l IH]; [done|]. cbn. by rewrite IH. Qed.
Lemma edges_any_clock c1 c2 entry ev :
  goal_edges (folded c1 entry ev) = goal_edges (folded c2 entry ev).
Proof.
  unfold folded. set (g1 := goal_new c1 _ _ _). set (g2 := goal_new c2 _ _ _).
  transitivity (goal_edges (fold_events (List.map (fun s => (c2, se_event s)) ev) g1)).
  - rewrite <- edges_blur, <- (edges_blur (fold_events (List.map (fun s => (c2, se_event s)) ev) g1)).
    f_equal. apply fold_any_clock; [by rewrite !List.map_map|done].
  - change (goal_edges (unborn (fold_events (List.map (fun s => (c2, se_event s)) ev) g1))
            = goal_edges (unborn (fold_events (List.map (fun s => (c2, se_event s)) ev) g2))).
    f_equal. by apply unborn_fold.
Qed.

Section Edits.
Context (to_json : Event -> string) (to_entries : Event -> list (string * string)).
Context (render_object : list (string * string) -> string).
Context (registry : list RegistryEntry) (gid : string) (entry : RegistryEntry).
Hypothesis entry_registered : registry_entry registry gid = Some entry.
Notation "'parse'" := (parse_ledger to_json to_entries render_object) (only parsing).

(** One append: a todo added or updated through the checked path, or an event
    that changes no dependency. *)
Inductive edit (lines : list StoredEvent) : list StoredEvent -> Prop :=
| edit_todo clock e lines' event_id :
    goal_id e = gid ->
    append_todo_change to_json to_entries render_object clock registry lines e = inr (lines', event_id) ->
    edit lines lines'
| edit_other e lines' event_id :
    goal_id e = gid -> restructures e = None ->
    append to_json to_entries render_object registry lines e = inr (lines', event_id) ->
    edit lines lines'.

Definition AcyclicLedger (lines : list StoredEvent) : Prop :=
  forall clock ev, parse lines = inr ev ->
    forall x, ~ tc (Edge (goal_edges (folded clock entry ev))) x x.

(** A ledger with one more line stays acyclic when the event, applied to what
    the ledger folds to, is. *)
Lemma acyclic_snoc lines e :
  AcyclicLedger lines ->
  (forall ev, parse lines = inr ev -> exists clock,
     forall x, ~ tc (Edge (goal_edges (apply clock e (folded clock entry ev)))) x x) ->
  AcyclicLedger (lines ++ [stored to_json e]).
Proof.
  intros Hac He clock ev' Hp. apply parse_app in Hp as (ev & w & Hp & Hw & ->).
  apply sublist_cons_r in Hw as [Hw|(w0 & -> & Hw)]; apply sublist_nil_r in Hw as ->.
  - rewrite app_nil_r. by apply Hac.
  - destruct (He ev Hp) as [c Hc]. rewrite (edges_any_clock clock c), folded_app. exact Hc.
Qed.

Lemma todo_change_lines clock lines e lines' event_id :
  goal_id e = gid ->
  append_todo_change to_json to_entries render_object clock registry lines e = inr (lines', event_id) ->
  lines' = lines
  \/ lines' = lines ++ [stored to_json e]
     /\ validate_todo_change to_json to_entries render_object clock entry e lines = inr tt.
Proof.
  intros Hg. unfold append_todo_change. rewrite Hg, entry_registered.
  destruct (negb (valid_goal_id gid)); [done|]. unfold append_event_locked.
  destruct (find_existing _ _ _ _) as [[?|?]|]; [done| |].
  - intros [= <- _]. by left.
  - destruct (validate_todo_change _ _ _ _ _ _ _) as [?|[]]; [done|]. intros [= <- _]. by right.
Qed.

Lemma validated_change_acyclic clock e lines ev :
  validate_todo_change to_json to_entries render_object clock entry e lines = inr tt ->
  parse lines = inr ev ->
  (forall x, ~ tc (Edge (goal_edges (folded clock entry ev))) x x) ->
  forall x, ~ tc (Edge (goal_edges (apply clock e (folded clock entry ev)))) x x.
Proof.
  unfold validate_todo_change. intros Hv Hp Hac. rewrite Hp in Hv.
  destruct (restructures e) as [id|] eqn:Hr.
  - apply acyclic_change with (id := id) (E := goal_edges (folded clock entry ev)); [| |done].
    + intros a b Ha Hb. by apply (edges_changed clock e _ id).
    + apply validated_on_no_cycle. destruct e; try done.
      * injection Hr as <-. by destruct (validate_dependency_change _ _) as [[?|[]]|].
      * destruct blocks; [|done]. injection Hr as <-.
        by destruct (validate_dependency_change _ _) as [[?|[]]|].
  - rewrite edges_unchanged by done. exact Hac.
Qed.

Lemma edit_acyclic lines lines' : edit lines lines' -> AcyclicLedger lines -> AcyclicLedger lines'.
Proof.
  intros [clock e l' event_id Hg Ha|e l' event_id Hg Hr Ha] Hac.
  - apply todo_change_lines in Ha as [->|[-> Hv]]; [done| |done].
    apply acyclic_snoc; [done|]. intros ev Hp. exists clock.
    eapply validated_change_acyclic; [exact Hv|exact Hp|]. by apply Hac.
  - apply append_lines in Ha as [->| ->]; [done|]. apply acyclic_snoc; [done|].
    intros ev Hp. exists 0. rewrite edges_unchanged by done. by apply Hac.
Qed.

(** C30: a ledger that grew from nothing by checked todo edits and by events
    that touch no dependency never folds to a goal with a dependency cycle,
    whoever appended and in whatever order: every todo can still be ordered. *)
Theorem checked_edits_stay_acyclic lines : rtc edit [] lines -> AcyclicLedger lines.
Proof.
  intros H. assert (H0 : AcyclicLedger []).
  { intros clock ev [= <-] x Hx. inversion Hx as [? ? Hab|? ? ? Hab]; by destruct Hab. }
  revert H0. induction H as [l|l l1 l2 Hs _ IH]; [done|]. intros H0. by apply IH, (edit_acyclic l).
Qed.
End Edits.

Lemma checked_edits_stay_acyclic_witness :
  AcyclicLedger plain_json plain_entries plain_object demo_entry
    (List.map (stored plain_json)
       [TodoAdded "g" (advancement 0 "T1" "x") 10;
        TodoAdded "g" (blocking ["T1"] (advancement 0 "T2" "y")) 11]).
Proof.
  apply (checked_edits_stay_acyclic plain_json plain_entries plain_object [demo_entry] "g"
           demo_entry eq_refl).
  eapply rtc_l; [|eapply rtc_l; [|apply rtc_refl]].
  - apply (edit_todo _ _ _ _ _ _ 0 (TodoAdded "g" (advancement 0 "T1" "x") 10) _
             (derive_event_id plain_json (TodoAdded "g" (advancement 0 "T1" "x") 10)));
      [reflexivity|vm_compute; reflexivity].
  - apply (edit_todo _ _ _ _ _ _ 0 (TodoAdded "g" (blocking ["T1"] (advancement 0 "T2" "y")) 11) _
             (derive_event_id plain_json (TodoAdded "g" (blocking ["T1"] (advancement 0 "T2" "y")) 11)));
      [reflexivity|vm_compute; reflexivity].
Defined.
