(* ===== verification/RunQueue.v ===== *)
(** The run queue of one agent session (src/agent/src/runtime): busy policies
    (run_request.rs), run acknowledgements (packages/rpc/src/payloads_ext.rs),
    the global budget all sessions share and every operation of the
    process-local FIFO (scheduler_queue.rs).

    The queue's mutex makes each operation one step.  An operation takes the
    state under the session's mutex and the one under the budget's, and returns
    its error or its result with both new states; every error is returned
    before the first write, so an error leaves both states as they were. *)
From S2P Require Import Prelude Json.

(** * Run requests *)
Inductive BusyPolicy := EnqueueIfBusy | EnqueueCoalescing | SupersedeSession.
#[export] Instance BusyPolicy_eq_dec : EqDecision BusyPolicy.
Proof. solve_decision. Defined.

Definition busy_policy_default : BusyPolicy := EnqueueIfBusy.
Definition VALID_VALUES : list string :=
  ["enqueue_if_busy"; "enqueue_coalescing"; "supersede_session"].
Definition busy_policy_parse (value : string) : string + BusyPolicy :=
  let other := trim value in
  if (other =?s "") || (other =?s "enqueue_if_busy") then inr EnqueueIfBusy
  else if other =?s "enqueue_coalescing" then inr EnqueueCoalescing
  else if other =?s "supersede_session" then inr SupersedeSession
  else inl ("unknown busy policy `" +:+ other +:+ "`; expected one of: "
            +:+ join ", " VALID_VALUES).
Definition busy_policy_as_str (p : BusyPolicy) : string :=
  match p with
  | EnqueueIfBusy => "enqueue_if_busy"
  | EnqueueCoalescing => "enqueue_coalescing"
  | SupersedeSession => "supersede_session"
  end.
Definition coalesces (p : BusyPolicy) : bool :=
  match p with EnqueueCoalescing => true | _ => false end.

Inductive RunAcceptedState := AckRunning | AckExisting | AckQueued.
Record RunAck := mkRunAck {
  ack_run_id : string;
  ack_run_epoch : u64;
  ack_accepted_state : RunAcceptedState;
  ack_run_sequence : option u64;
  ack_queue_position : option u64
}.
#[export] Instance eta_RunAck : Eta RunAck := fun r =>
  mkRunAck (ack_run_id r) (ack_run_epoch r) (ack_accepted_state r) (ack_run_sequence r)
    (ack_queue_position r).
Definition ack_existing (run_id : string) (run_epoch : u64) : RunAck :=
  mkRunAck run_id run_epoch AckExisting None None.
Definition ack_running (run_id : string) (run_epoch : u64) : RunAck :=
  mkRunAck run_id run_epoch AckRunning None None.
Definition ack_queued (run_id : string) (run_sequence queue_position : u64) : RunAck :=
  mkRunAck run_id 0 AckQueued (Some run_sequence) (Some queue_position).

(** * JSON payloads *)

(** [BTreeMap::insert], a map being its entries in key order; collecting an
    iterator inserts one entry after the other. *)
Fixpoint btree_map_insert {A} (k : string) (v : A) (m : list (string * A)) : list (string * A) :=
  match m with
  | [] => [(k, v)]
  | (k', v') :: r =>
      match String.compare k k' with
      | Lt => (k, v) :: m
      | Eq => (k', v) :: r
      | Gt => (k', v') :: btree_map_insert k v r
      end
  end.
Definition btree_map_collect {A} (l : list (string * A)) : list (string * A) :=
  List.fold_left (fun m kv => btree_map_insert (fst kv) (snd kv) m) l [].

Fixpoint canonicalize (value : Value) : Value :=
  match value with
  | VObject object =>
      VObject (btree_map_collect (List.map (fun kv => (fst kv, canonicalize (snd kv))) object))
  | VArray values => VArray (List.map canonicalize values)
  | other => other
  end.

(** What the queue takes from its libraries: serde_json's text of a value,
    SHA-256, and chrono's RFC 3339 instants (nanoseconds since the epoch). *)
Class RunEnv := {
  to_vec : Value -> list N;
  sha256 : list N -> list N;
  to_rfc3339 : Z -> string;
  parse_from_rfc3339 : string -> option Z
}.

Definition hex_digit (n : N) : ascii := ascii_of_N (if (n <? 10)%N then 48 + n else 87 + n)%N.
Definition hex_byte (b : N) : string :=
  String (hex_digit (b / 16)%N) (String (hex_digit (b mod 16)%N) EmptyString).

Definition request_digest `{RunEnv} (requested_run_id : option string) (busy_policy : BusyPolicy)
    (payload : Value) : string :=
  let envelope := VObject [
    ("busy_policy", VString (busy_policy_as_str busy_policy));
    ("payload", canonicalize payload);
    ("requested_run_id", match requested_run_id with Some s => VString s | None => VNull end)] in
  String.concat "" (List.map hex_byte (sha256 (to_vec envelope))).

(** * Data *)
Definition DEFAULT_SESSION_QUEUE_CAPACITY : usize := 128.
Definition DEFAULT_SESSION_QUEUE_BYTES : usize := 64 * 1024 * 1024.
Definition DEFAULT_REQUEST_BYTES : usize := 16 * 1024 * 1024.
Definition DEFAULT_GLOBAL_QUEUE_CAPACITY : usize := 4096.
Definition DEFAULT_GLOBAL_QUEUE_BYTES : usize := 512 * 1024 * 1024.
(** In seconds. *)
Definition QUEUED_RUN_STALE_AFTER : u64 := 600.

Inductive QueueBoundary := AfterRun | Idle.
#[export] Instance QueueBoundary_eq_dec : EqDecision QueueBoundary.
Proof. solve_decision. Defined.

Record ScheduledRunRequest := mkRun {
  run_session_id : string;
  run_run_id : string;
  run_sequence : u64;
  run_client_request_id : string;
  run_digest : string;
  run_busy_policy : BusyPolicy;
  run_payload : Value;
  run_accepted_at : string;
  run_payload_bytes : usize
}.
#[export] Instance eta_ScheduledRunRequest : Eta ScheduledRunRequest := fun r =>
  mkRun (run_session_id r) (run_run_id r) (run_sequence r) (run_client_request_id r)
    (run_digest r) (run_busy_policy r) (run_payload r) (run_accepted_at r) (run_payload_bytes r).

Inductive QueuedCancellationReason := RCancelled | RSuperseded | RSessionDeleted.
Definition cancellation_as_str (r : QueuedCancellationReason) : string :=
  match r with
  | RCancelled => "cancelled" | RSuperseded => "superseded" | RSessionDeleted => "session_deleted"
  end.

Record TerminalRunAck := mkTerminal {
  term_run_id : string;
  term_run_sequence : u64;
  term_client_request_id : string;
  term_state : string;
  term_reason : string
}.

Inductive RunQueueError :=
| Deleting
| PersistenceUnavailable (message : string)
| InvalidRunId (run_id : string)
| MissingClientRequestId
| DuplicateRequestConflict (client_request_id : string)
| DuplicateRunId (run_id : string)
| SupersedeRequiresSessionOperation
| QueueFull (limit : usize)
| RequestTooLarge (actual limit : usize)
| QueueBytesExceeded (actual limit : usize)
| GlobalQueueFull (limit : usize)
| GlobalQueueBytesExceeded (actual limit : usize)
| ActiveRunExists (run_id : string)
| QueueEmpty
| RunNotQueued (run_id : string)
| RunNotActive (expected : option string) (actual : string)
| SequenceExhausted.
Definition qresult (A : Type) : Type := RunQueueError + A.

Record RequestIdentity := mkIdentity {
  id_digest : string; id_run_id : string; id_run_sequence : u64
}.

Inductive ParkReason := TooOld | UnknownAge.
Definition park_reason_as_str (r : ParkReason) : string :=
  match r with TooOld => "stale" | UnknownAge => "unknown_age" end.
Record ParkedRun := mkParked { parked_run_id : string; parked_reason : ParkReason }.
Record HeldRun := mkHeld { held_request : ScheduledRunRequest; held_why : ParkReason }.

Record QueueState := mkQueue {
  qs_next_sequence : u64;
  qs_active : option (ScheduledRunRequest * u64);
  qs_queued : list ScheduledRunRequest;
  qs_held : list HeldRun;
  qs_queued_bytes : usize;
  qs_requests : gmap string RequestIdentity;
  qs_run_ids : gset string;
  qs_terminal_acks : list TerminalRunAck
}.
#[export] Instance eta_QueueState : Eta QueueState := fun s =>
  mkQueue (qs_next_sequence s) (qs_active s) (qs_queued s) (qs_held s) (qs_queued_bytes s)
    (qs_requests s) (qs_run_ids s) (qs_terminal_acks s).

(** * The global budget *)
Record GlobalBudgetState := mkBudgetState { gs_count : usize; gs_bytes : usize }.
Record GlobalQueueBudget := mkBudget { gb_max_count : usize; gb_max_bytes : usize }.
Definition global_new : GlobalBudgetState := mkBudgetState 0 0.
Definition global_defaults : GlobalQueueBudget :=
  mkBudget DEFAULT_GLOBAL_QUEUE_CAPACITY DEFAULT_GLOBAL_QUEUE_BYTES.

Definition usize_sat_sub (a b : usize) : usize := Z.max 0 (a - b).

Definition reserve (gb : GlobalQueueBudget) (bytes : usize) (s : GlobalBudgetState)
  : qresult GlobalBudgetState :=
  if gb_max_count gb <=? gs_count s then inl (GlobalQueueFull (gb_max_count gb)) else
  let new_bytes := u64_sat_add (gs_bytes s) bytes in
  if gb_max_bytes gb <? new_bytes
  then inl (GlobalQueueBytesExceeded new_bytes (gb_max_bytes gb))
  else inr (mkBudgetState (u64_add (gs_count s) 1) new_bytes).

Definition release (bytes : usize) (s : GlobalBudgetState) : GlobalBudgetState :=
  mkBudgetState (usize_sat_sub (gs_count s) 1) (usize_sat_sub (gs_bytes s) bytes).

Definition replace_queued (gb : GlobalQueueBudget) (released_count released_bytes new_bytes : usize)
    (s : GlobalBudgetState) : qresult GlobalBudgetState :=
  let base_count := usize_sat_sub (gs_count s) released_count in
  let base_bytes := usize_sat_sub (gs_bytes s) released_bytes in
  if gb_max_count gb <=? base_count then inl (GlobalQueueFull (gb_max_count gb)) else
  let projected_bytes := u64_sat_add base_bytes new_bytes in
  if gb_max_bytes gb <? projected_bytes
  then inl (GlobalQueueBytesExceeded projected_bytes (gb_max_bytes gb))
  else inr (mkBudgetState (u64_add base_count 1) projected_bytes).

Definition usage (s : GlobalBudgetState) : usize * usize := (gs_count s, gs_bytes s).

(** [for request in &requests { global_budget.release(request.payload_bytes) }] *)
Definition release_each (requests : list ScheduledRunRequest) (g : GlobalBudgetState)
  : GlobalBudgetState :=
  List.fold_left (fun g r => release (run_payload_bytes r) g) requests g.

(** * The queue

    The immutable fields of [InMemoryRunQueue]; the budget and the state behind
    its mutex are threaded through the operations. *)
Record InMemoryRunQueue := mkRunQueue {
  q_session_id : string;
  q_capacity : usize;
  q_max_queue_bytes : usize;
  q_max_request_bytes : usize;
  q_global_budget : GlobalQueueBudget;
  q_recent_ack_limit : usize;
  q_stale_after : u64
}.

Definition with_limits_and_global (session_id : string) (next_sequence : u64)
    (capacity max_queue_bytes max_request_bytes recent_ack_limit : usize)
    (global_budget : GlobalQueueBudget) : InMemoryRunQueue * QueueState :=
  (mkRunQueue session_id capacity max_queue_bytes max_request_bytes global_budget
     recent_ack_limit QUEUED_RUN_STALE_AFTER,
   mkQueue (Z.max next_sequence 1) None [] [] 0 ∅ ∅ []).
Definition with_limits (session_id : string) (next_sequence : u64)
    (capacity max_queue_bytes max_request_bytes recent_ack_limit : usize)
  : InMemoryRunQueue * QueueState :=
  with_limits_and_global session_id next_sequence capacity max_queue_bytes max_request_bytes
    recent_ack_limit (mkBudget u64_max u64_max).
Definition queue_new (session_id : string) (next_sequence : u64) : InMemoryRunQueue * QueueState :=
  with_limits_and_global session_id next_sequence DEFAULT_SESSION_QUEUE_CAPACITY
    DEFAULT_SESSION_QUEUE_BYTES DEFAULT_REQUEST_BYTES 256 (mkBudget u64_max u64_max).

(** ** Terminal acknowledgements *)

(** The eviction loop: the oldest acknowledgements go, and with them what makes
    their ids known. *)
Fixpoint evict (limit : usize) (acks : list TerminalRunAck) (requests : gmap string RequestIdentity)
    (run_ids : gset string) : list TerminalRunAck * gmap string RequestIdentity * gset string :=
  match acks with
  | evicted :: rest =>
      if limit <? len acks
      then evict limit rest (delete (term_client_request_id evicted) requests)
             (run_ids ∖ {[ term_run_id evicted ]})
      else (acks, requests, run_ids)
  | [] => (acks, requests, run_ids)
  end.

Definition remember_terminal (limit : usize) (terminal_state reason : string)
    (state : QueueState) (request : ScheduledRunRequest) : QueueState :=
  let acks := qs_terminal_acks state ++
    [mkTerminal (run_run_id request) (run_sequence request) (run_client_request_id request)
       terminal_state reason] in
  match evict limit acks (qs_requests state) (qs_run_ids state) with
  | (acks, requests, run_ids) =>
      state <| qs_terminal_acks := acks |> <| qs_requests := requests |> <| qs_run_ids := run_ids |>
  end.
Definition remember_all (limit : usize) (terminal_state reason : string)
    (requests : list ScheduledRunRequest) (state : QueueState) : QueueState :=
  List.fold_left (remember_terminal limit terminal_state reason) requests state.

Definition next_sequence (state : QueueState) : qresult (u64 * QueueState) :=
  let sequence := qs_next_sequence state in
  if sequence + 1 <=? u64_max
  then inr (sequence, state <| qs_next_sequence := sequence + 1 |>)
  else inl SequenceExhausted.

(** ** Looking rows up *)
Definition is_run (run_id : string) (r : ScheduledRunRequest) : bool := run_run_id r =?s run_id.
Definition is_held_run (run_id : string) (h : HeldRun) : bool := is_run run_id (held_request h).

(** [iter().position(p)] *)
Fixpoint position {A} (p : A -> bool) (l : list A) : option nat :=
  match l with
  | [] => None
  | x :: r => if p x then Some O else option_map S (position p r)
  end.
(** [Vec::remove(i)] with the element it returns, [None] where it panics. *)
Fixpoint remove_at {A} (i : nat) (l : list A) : option (A * list A) :=
  match l, i with
  | [], _ => None
  | x :: r, O => Some (x, r)
  | x :: r, S i => match remove_at i r with Some (y, r) => Some (y, x :: r) | None => None end
  end.

Definition existing_ack (state : QueueState) (identity : RequestIdentity) : RunAck :=
  let fallback :=
    match position (is_run (id_run_id identity)) (qs_queued state) with
    | Some index =>
        (ack_existing (id_run_id identity) 0)
          <| ack_run_sequence := Some (id_run_sequence identity) |>
          <| ack_queue_position := Some (Z.of_nat index + 1) |>
    | None =>
        (ack_existing (id_run_id identity) 0)
          <| ack_run_sequence := Some (id_run_sequence identity) |>
    end in
  match qs_active state with
  | Some (run, epoch) =>
      if run_run_id run =?s id_run_id identity
      then (ack_existing (id_run_id identity) epoch)
             <| ack_run_sequence := Some (id_run_sequence identity) |>
      else fallback
  | None => fallback
  end.

(** ** Accepting *)
Definition is_ascii_alphanumeric (c : ascii) : bool :=
  let n := byte_code c in
  is_ascii_digit c || ((65 <=? n)%N && (n <=? 90)%N) || ((97 <=? n)%N && (n <=? 122)%N).
Definition safe_byte (c : ascii) : bool :=
  is_ascii_alphanumeric c || Ascii.eqb c "_" || Ascii.eqb c "-".
Definition unsafe_run_id (run_id : string) : bool :=
  (128 <? Z.of_nat (String.length run_id)) || (run_id =?s "")
  || negb (List.forallb safe_byte (list_ascii_of_string run_id)).

(** [fresh] is the text of the new UUID. *)
Definition choose_run_id (fresh : string) (requested_run_id : option string) : string :=
  match requested_run_id with
  | Some value => if value =?s "" then "run_" +:+ fresh else value
  | None => "run_" +:+ fresh
  end.

(** The writes that enter a request: its identity, its run id and its place at
    the back of the queue. *)
Definition enqueue (request : ScheduledRunRequest) (queued_bytes : usize) (state : QueueState)
  : QueueState :=
  state
    <| qs_requests ::= <[run_client_request_id request :=
         mkIdentity (run_digest request) (run_run_id request) (run_sequence request)]> |>
    <| qs_run_ids ::= fun ids => {[ run_run_id request ]} ∪ ids |>
    <| qs_queued_bytes := queued_bytes |>
    <| qs_queued ::= fun queued => queued ++ [request] |>.

Section Operations.
Context `{RunEnv} (q : InMemoryRunQueue).

Definition accept (fresh : string) (now : Z) (client_request_id : string)
    (requested_run_id : option string) (busy_policy : BusyPolicy) (payload : Value)
    (g : GlobalBudgetState) (state : QueueState)
  : qresult (RunAck * GlobalBudgetState * QueueState) :=
  if trim client_request_id =?s "" then inl MissingClientRequestId else
  let digest := request_digest requested_run_id busy_policy payload in
  let payload_bytes := len (to_vec payload) in
  match qs_requests state !! client_request_id with
  | Some identity =>
      if negb (id_digest identity =?s digest)
      then inl (DuplicateRequestConflict client_request_id)
      else inr (existing_ack state identity, g, state)
  | None =>
  if bool_decide (busy_policy = SupersedeSession) then inl SupersedeRequiresSessionOperation else
  if q_max_request_bytes q <? payload_bytes
  then inl (RequestTooLarge payload_bytes (q_max_request_bytes q)) else
  if q_capacity q <=? len (qs_queued state) then inl (QueueFull (q_capacity q)) else
  let new_bytes := u64_sat_add (qs_queued_bytes state) payload_bytes in
  if q_max_queue_bytes q <? new_bytes
  then inl (QueueBytesExceeded new_bytes (q_max_queue_bytes q)) else
  let run_id := choose_run_id fresh requested_run_id in
  if unsafe_run_id run_id then inl (InvalidRunId run_id) else
  if bool_decide (run_id ∈ qs_run_ids state) then inl (DuplicateRunId run_id) else
  if negb (qs_next_sequence state + 1 <=? u64_max) then inl SequenceExhausted else
  match reserve (q_global_budget q) payload_bytes g with
  | inl e => inl e
  | inr g =>
  match next_sequence state with
  | inl e => inl e
  | inr (sequence, state) =>
  let request := mkRun (q_session_id q) run_id sequence client_request_id digest busy_policy
    payload (to_rfc3339 now) payload_bytes in
  let state := enqueue request new_bytes state in
  inr (ack_queued run_id sequence (len (qs_queued state)), g, state)
  end end end.

Definition supersede (fresh : string) (now : Z) (client_request_id : string)
    (requested_run_id : option string) (payload : Value)
    (g : GlobalBudgetState) (state : QueueState)
  : qresult (RunAck * list ScheduledRunRequest * option string * GlobalBudgetState * QueueState) :=
  if trim client_request_id =?s "" then inl MissingClientRequestId else
  let policy := SupersedeSession in
  let digest := request_digest requested_run_id policy payload in
  let payload_bytes := len (to_vec payload) in
  match qs_requests state !! client_request_id with
  | Some identity =>
      if negb (id_digest identity =?s digest)
      then inl (DuplicateRequestConflict client_request_id)
      else inr (existing_ack state identity, [], None, g, state)
  | None =>
  if (q_max_request_bytes q <? payload_bytes) || (q_max_queue_bytes q <? payload_bytes)
  then inl (RequestTooLarge payload_bytes (Z.min (q_max_request_bytes q) (q_max_queue_bytes q))) else
  let run_id := choose_run_id fresh requested_run_id in
  if unsafe_run_id run_id then inl (InvalidRunId run_id) else
  if bool_decide (run_id ∈ qs_run_ids state) then inl (DuplicateRunId run_id) else
  if negb (qs_next_sequence state + 1 <=? u64_max) then inl SequenceExhausted else
  match replace_queued (q_global_budget q) (len (qs_queued state)) (qs_queued_bytes state)
          payload_bytes g with
  | inl e => inl e
  | inr g =>
  let cancelled := qs_queued state in
  let state := state <| qs_queued := [] |> <| qs_queued_bytes := 0 |> in
  let state := remember_all (q_recent_ack_limit q) "cancelled" "superseded" cancelled state in
  match next_sequence state with
  | inl e => inl e
  | inr (sequence, state) =>
  let request := mkRun (q_session_id q) run_id sequence client_request_id digest policy
    payload (to_rfc3339 now) payload_bytes in
  let state := enqueue request payload_bytes state in
  inr (ack_queued run_id sequence 1, cancelled, option_map (fun a => run_run_id (fst a)) (qs_active state),
       g, state)
  end end end.

(** ** Running *)
Definition start_next (epoch : u64) (g : GlobalBudgetState) (state : QueueState)
  : qresult (ScheduledRunRequest * RunAck * GlobalBudgetState * QueueState) :=
  match qs_active state with
  | Some (active, _) => inl (ActiveRunExists (run_run_id active))
  | None =>
      match qs_queued state with
      | [] => inl QueueEmpty
      | request :: rest =>
          let ack := mkRunAck (run_run_id request) epoch AckRunning (Some (run_sequence request)) None in
          inr (request, ack, release (run_payload_bytes request) g,
               state <| qs_queued := rest |>
                     <| qs_queued_bytes ::= fun b => usize_sat_sub b (run_payload_bytes request) |>
                     <| qs_active := Some (request, epoch) |>)
      end
  end.

(** The scan of [drain_coalescing_after_first]: how many requests behind the
    front fit in [remaining] bytes. *)
Fixpoint coalescing_count (remaining : usize) (requests : list ScheduledRunRequest) : nat :=
  match requests with
  | request :: rest =>
      if negb (coalesces (run_busy_policy request)) || (remaining <? run_payload_bytes request)
      then O
      else S (coalescing_count (remaining - run_payload_bytes request) rest)
  | [] => O
  end.

Definition drain_coalescing_after_first (g : GlobalBudgetState) (state : QueueState)
  : list ScheduledRunRequest * GlobalBudgetState * QueueState :=
  match qs_queued state with
  | [] => ([], g, state)
  | front :: behind =>
      if negb (coalesces (run_busy_policy front)) then ([], g, state) else
      let remaining := usize_sat_sub (q_max_request_bytes q) (run_payload_bytes front) in
      let n := coalescing_count remaining behind in
      if Nat.eqb n 0 then ([], g, state) else
      let folded := take n behind in
      let state := state
        <| qs_queued := front :: drop n behind |>
        <| qs_queued_bytes ::= fun b =>
             List.fold_left (fun b r => usize_sat_sub b (run_payload_bytes r)) folded b |> in
      (folded, release_each folded g,
       remember_all (q_recent_ack_limit q) "terminal" "merged" folded state)
  end.

Definition finish_active (run_id : string) (state : QueueState) : qresult QueueState :=
  match qs_active state with
  | Some (finished, _) =>
      if run_run_id finished =?s run_id
      then inr (remember_terminal (q_recent_ack_limit q) "terminal" "settled"
                  (state <| qs_active := None |>) finished)
      else inl (RunNotActive (Some (run_run_id finished)) run_id)
  | None => inl (RunNotActive None run_id)
  end.

Definition release_active_payload (run_id : string) (state : QueueState) : QueueState :=
  match qs_active state with
  | Some (active, epoch) =>
      if run_run_id active =?s run_id
      then state <| qs_active := Some (active <| run_payload := VNull |>
                                              <| run_payload_bytes := 0 |>, epoch) |>
      else state
  | None => state
  end.

(** ** Cancelling *)
Definition cancel_queued (run_id : string) (reason : QueuedCancellationReason)
    (g : GlobalBudgetState) (state : QueueState)
  : qresult (ScheduledRunRequest * GlobalBudgetState * QueueState) :=
  let settle (cancelled : ScheduledRunRequest) (state : QueueState) :=
    (cancelled, release (run_payload_bytes cancelled) g,
     remember_terminal (q_recent_ack_limit q) "cancelled" (cancellation_as_str reason)
       (state <| qs_queued_bytes ::= fun b => usize_sat_sub b (run_payload_bytes cancelled) |>)
       cancelled) in
  match position (is_held_run run_id) (qs_held state) with
  | Some index =>
      match remove_at index (qs_held state) with
      | Some (h, held) => inr (settle (held_request h) (state <| qs_held := held |>))
      | None => inl (RunNotQueued run_id)
      end
  | None =>
      match position (is_run run_id) (qs_queued state) with
      | Some index =>
          match remove_at index (qs_queued state) with
          | Some (r, queued) => inr (settle r (state <| qs_queued := queued |>))
          | None => inl (RunNotQueued run_id)
          end
      | None => inl (RunNotQueued run_id)
      end
  end.

Definition cancel_all_queued (reason : QueuedCancellationReason)
    (g : GlobalBudgetState) (state : QueueState)
  : list ScheduledRunRequest * GlobalBudgetState * QueueState :=
  let cancelled := sort_by_key run_sequence
    (qs_queued state ++ List.map held_request (qs_held state)) in
  let state := state <| qs_queued := [] |> <| qs_held := [] |> <| qs_queued_bytes := 0 |> in
  (cancelled, release_each cancelled g,
   remember_all (q_recent_ack_limit q) "cancelled" (cancellation_as_str reason) cancelled state).

(** ** Parking *)

(** [x as i64] *)
Definition u64_as_i64 (x : u64) : Z := if x <=? i64_max then x else x - 18446744073709551616.

(** [age.num_seconds()] truncates toward zero. *)
Definition park_reason (boundary : QueueBoundary) (now : Z) (request : ScheduledRunRequest)
  : option ParkReason :=
  match parse_from_rfc3339 (run_accepted_at request) with
  | Some at_ =>
      match boundary with
      | AfterRun => None
      | Idle =>
          if u64_as_i64 (q_stale_after q) <=? Z.quot (now - at_) nanos_per_sec
          then Some TooOld else None
      end
  | None => Some UnknownAge
  end.

(** The loop over the drained queue: the rows parked now and the rows kept. *)
Fixpoint park_rows (boundary : QueueBoundary) (now : Z) (requests : list ScheduledRunRequest)
  : list HeldRun * list ScheduledRunRequest :=
  match requests with
  | [] => ([], [])
  | request :: rest =>
      let '(held, kept) := park_rows boundary now rest in
      match park_reason boundary now request with
      | Some reason => (mkHeld request reason :: held, kept)
      | None => (held, request :: kept)
      end
  end.

Definition park_stale (boundary : QueueBoundary) (now : Z) (state : QueueState)
  : list ParkedRun * QueueState :=
  let '(held, kept) := park_rows boundary now (qs_queued state) in
  (List.map (fun h => mkParked (run_run_id (held_request h)) (held_why h)) held,
   state <| qs_queued := kept |>
         <| qs_held := sort_by_key (fun h => run_sequence (held_request h)) (qs_held state ++ held) |>).

(** [VecDeque::insert(at, _)] *)
Definition insert_at {A} (i : nat) (x : A) (l : list A) : list A := take i l ++ x :: drop i l.

Definition release_held (run_id : string) (now : Z) (state : QueueState)
  : qresult (ScheduledRunRequest * QueueState) :=
  match position (is_held_run run_id) (qs_held state) with
  | None => inl (RunNotQueued run_id)
  | Some index =>
      match remove_at index (qs_held state) with
      | None => inl (RunNotQueued run_id)
      | Some (h, held) =>
          let request := (held_request h) <| run_accepted_at := to_rfc3339 now |> in
          let at_ :=
            match position (fun r => run_sequence request <? run_sequence r) (qs_queued state) with
            | Some i => i
            | None => List.length (qs_queued state)
            end in
          inr (request, state <| qs_held := held |> <| qs_queued ::= insert_at at_ request |>)
      end
  end.
End Operations.

(** ** Reading *)
Definition is_held (state : QueueState) (run_id : string) : bool :=
  List.existsb (is_held_run run_id) (qs_held state).
Definition held_reason (state : QueueState) (run_id : string) : option ParkReason :=
  option_map held_why (List.find (is_held_run run_id) (qs_held state)).
Definition active (state : QueueState) : option (ScheduledRunRequest * u64) := qs_active state.
Definition has_pending (state : QueueState) : bool :=
  match qs_active state with Some _ => true | None => false end || negb (is_empty (qs_queued state)).
Definition next_startable (state : QueueState) : option ScheduledRunRequest := head (qs_queued state).
Definition queued (state : QueueState) : list ScheduledRunRequest :=
  sort_by_key run_sequence (List.map held_request (qs_held state) ++ qs_queued state).
Definition queued_bytes (state : QueueState) : usize := qs_queued_bytes state.
Definition knows_request (state : QueueState) (client_request_id : string) : bool :=
  match qs_requests state !! client_request_id with Some _ => true | None => false end.
Definition recent_terminal_acks (state : QueueState) : list TerminalRunAck := qs_terminal_acks state.
