(* ===== verification/CanonicalJson.v ===== *)
(** The digest of a run request does not depend on how its payload was written:
    [canonicalize] (scheduler_queue.rs) forgets the order of object entries and
    nothing else. *)
From S2P Require Import Prelude Json RunQueue.

(** Values that differ only in the order of object entries, at any depth.
    serde_json objects have distinct keys. *)
#[warnings="-register-all"]
Inductive same_value : Value -> Value -> Prop :=
| same_refl v : same_value v v
| same_array l l' : Forall2 same_value l l' -> same_value (VArray l) (VArray l')
| same_object o o1 o2 :
    Forall2 (fun e e' => fst e = fst e' /\ same_value (snd e) (snd e')) o o1 ->
    o1 ≡ₚ o2 -> NoDup (List.map fst o) -> same_value (VObject o) (VObject o2).

(** * Collected maps *)
Section Collect.
Context {A : Type}.
Definition entry_lt (x y : string * A) : Prop := str_lt (fst x) (fst y).

Lemma btree_map_insert_perm k (v : A) m :
  (forall x, In x m -> fst x <> k) -> btree_map_insert k v m ≡ₚ (k, v) :: m.
Proof.
  induction m as [|[k' v'] m IH]; intros Hk; [done|]. cbn.
  rewrite forall_in_cons in Hk. destruct Hk as [Hk Hm]. cbn in Hk.
  destruct (String.compare k k') eqn:E; [|done|].
  - apply String.compare_eq_iff in E. congruence.
  - rewrite IH by done. constructor.
Qed.
Lemma btree_map_insert_sorted k (v : A) m :
  StronglySorted entry_lt m -> StronglySorted entry_lt (btree_map_insert k v m).
Proof.
  assert (Hin : forall x m, In x (btree_map_insert k v m) -> fst x = k \/ In x m \/ exists y, In y m /\ fst y = fst x).
  { intros x m'. induction m' as [|[k' v'] m' IH]; cbn; [intros [<-|[]]; by left|].
    destruct (String.compare k k') eqn:E; cbn.
    - intros [<-|Hx]; [|auto]. right. right. exists (k', v'). cbn. auto.
    - intros [<-|Hx]; auto.
    - intros [<-|Hx]; [auto|]. destruct (IH Hx) as [?|[?|(y & ? & ?)]]; [auto|auto|]. right. right.
      exists y. auto. }
  induction 1 as [|[k' v'] m Hs IH Hall]; cbn; [repeat constructor|].
  destruct (String.compare k k') eqn:E.
  - by constructor.
  - constructor; [by constructor|]. constructor; [exact E|].
    eapply Forall_impl; [exact Hall|]. intros x Hx. exact (str_lt_trans _ _ _ E Hx).
  - constructor; [done|]. apply Forall_forall. intros x Hx. rewrite Forall_forall in Hall.
    apply list_elem_of_In, Hin in Hx as [Hx|[Hx|(y & Hy & He)]]; unfold entry_lt; cbn.
    + rewrite Hx. by apply str_compare_gt.
    + apply (Hall x). by apply list_elem_of_In.
    + rewrite <- He. apply (Hall y). by apply list_elem_of_In.
Qed.
Lemma btree_map_collect_spec (l : list (string * A)) : NoDup (List.map fst l) ->
  btree_map_collect l ≡ₚ l /\ StronglySorted entry_lt (btree_map_collect l).
Proof.
  unfold btree_map_collect.
  assert (Hg : forall l acc, NoDup (List.map fst (acc ++ l)) -> StronglySorted entry_lt acc ->
    let m := List.fold_left (fun m kv => btree_map_insert (fst kv) (snd kv) m) l acc in
    m ≡ₚ acc ++ l /\ StronglySorted entry_lt m).
  { clear l. induction l as [|[k v] l IH]; intros acc Hnd Hs; cbn; [by rewrite app_nil_r|].
    assert (Hk : forall x, In x acc -> fst x <> k).
    { intros x Hx <-. rewrite List.map_app in Hnd. cbn in Hnd.
      apply NoDup_app in Hnd as (_ & Hnd & _). apply (Hnd (fst x)); [|by left].
      apply list_elem_of_In. by apply in_map. }
    assert (HP : btree_map_insert k v acc ++ l ≡ₚ acc ++ (k, v) :: l)
      by (rewrite (btree_map_insert_perm k v acc Hk); cbn; by rewrite Permutation_middle).
    destruct (IH (btree_map_insert k v acc)) as [I1 I2];
      [by rewrite (Permutation_map fst HP)|by apply btree_map_insert_sorted|].
    split; [by rewrite I1|done]. }
  intros Hnd. apply (Hg l []); [done|constructor].
Qed.
Lemma btree_map_collect_perm (l l' : list (string * A)) :
  NoDup (List.map fst l) -> l ≡ₚ l' -> btree_map_collect l = btree_map_collect l'.
Proof.
  intros Hnd HP. destruct (btree_map_collect_spec l Hnd) as [P1 S1].
  destruct (btree_map_collect_spec l') as [P2 S2]; [by rewrite <- (Permutation_map fst HP)|].
  apply (StronglySorted_unique_strong entry_lt); [|done|done|by rewrite P1, P2].
  intros x y _ _ H1 H2. by destruct (str_lt_irrefl (fst x) (str_lt_trans _ _ _ H1 H2)).
Qed.
End Collect.

(** * Canonical values *)
Lemma canonicalize_same : forall v v', same_value v v' -> canonicalize v = canonicalize v'.
Proof.
  fix IH 3. intros v v' [w|l l' F|o o1 o2 F HP Hnd]; [done| |].
  - cbn. f_equal. induction F as [|x y l l' Hxy F IHF]; [done|]. cbn. f_equal; [by apply IH|done].
  - cbn. f_equal.
    assert (HE : List.map (fun kv => (fst kv, canonicalize (snd kv))) o
                 = List.map (fun kv => (fst kv, canonicalize (snd kv))) o1).
    { clear HP Hnd. induction F as [|x y o o1 [Hk Hv] F IHF]; [done|]. cbn.
      f_equal; [|done]. rewrite Hk. f_equal. by apply IH. }
    rewrite HE. apply btree_map_collect_perm; [|by apply Permutation_map].
    rewrite <- HE, List.map_map. exact Hnd.
Qed.

(** two requests whose payloads differ only in the order of object
    entries, at any depth, have the same digest: a client that re-serialises
    its payload still resubmits the same request. *)
Theorem digest_ignores_key_order `{RunEnv} requested_run_id busy_policy payload payload' :
  same_value payload payload' ->
  request_digest requested_run_id busy_policy payload
  = request_digest requested_run_id busy_policy payload'.
Proof. intros Hs. unfold request_digest. by rewrite (canonicalize_same _ _ Hs). Qed.

(** A concrete environment: texts are the concatenated leaves of a value, the
    digest is its argument, instants are written in decimal. *)
Fixpoint demo_text (v : Value) : list N :=
  match v with
  | VString s => string_bytes s
  | VArray l => List.concat (List.map demo_text l)
  | VObject o => List.concat (List.map (fun kv => string_bytes (fst kv) ++ demo_text (snd kv)) o)
  | _ => []
  end.
Definition demo_env : RunEnv :=
  {| to_vec := demo_text; sha256 := fun l => l; to_rfc3339 := show; parse_from_rfc3339 := parse_i64 |}.
Lemma digest_ignores_key_order_witness :
  request_digest (H := demo_env) None EnqueueIfBusy (VObject [("message", VString "m"); ("cwd", VNull)])
  = request_digest (H := demo_env) None EnqueueIfBusy (VObject [("cwd", VNull); ("message", VString "m")]).
Proof.
  apply (digest_ignores_key_order (H := demo_env)).
  apply (same_object _ [("message", VString "m"); ("cwd", VNull)]).
  - repeat constructor.
  - apply perm_swap.
  - apply NoDup_cons. split; [by intros [=]%list_elem_of_singleton|]. apply NoDup_singleton.
Defined.
