(* ===== verification/RunQueueProps.v ===== *)
(** Properties of one session's run queue: the state invariant every operation
    keeps, and the refinement of the two concrete lists (startable and parked
    rows) to one line of rows in the order they were accepted. *)
From S2P Require Import Prelude Json RunQueue.

(** * Lists *)
Lemma position_some {A} (p : A -> bool) l i : position p l = Some i ->
  exists pre x post, l = pre ++ x :: post /\ List.length pre = i /\ p x = true
    /\ (forall y, In y pre -> p y = false) /\ remove_at i l = Some (x, pre ++ post).
Proof.
  revert i. induction l as [|x l IH]; [done|]. cbn. intros i. destruct (p x) eqn:Ep.
  - intros [= <-]. exists [], x, l. naive_solver.
  - destruct (position p l) as [j|]; [|done]. intros [= <-].
    destruct (IH j eq_refl) as (pre & y & post & -> & <- & Hy & Hpre & Hr).
    exists (x :: pre), y, post. cbn. rewrite Hr. naive_solver.
Qed.
Lemma position_none {A} (p : A -> bool) l : position p l = None <-> forall x, In x l -> p x = false.
Proof.
  induction l as [|x l IH]; [by split|]. rewrite forall_in_cons, <- IH. cbn.
  destruct (p x); [naive_solver|]. destruct (position p l); naive_solver.
Qed.

Section Strict.
Context {A : Type} (key : A -> Z).
Definition key_lt (x y : A) : Prop := key x < key y.

Lemma strict_weaken l : StronglySorted key_lt l -> StronglySorted (key_le key) l.
Proof.
  induction 1 as [|x l Hs IH Hall]; constructor; [done|].
  eapply Forall_impl; [exact Hall|]. unfold key_lt, key_le. lia.
Qed.
(** A strictly sorted list is the sort of each of its permutations. *)
Lemma sort_unique l l' : StronglySorted key_lt l -> l ≡ₚ l' -> sort_by_key key l' = l.
Proof.
  intros Hs HP. eapply (StronglySorted_unique_strong (key_le key)).
  - intros x y Hx Hy H1 H2. rewrite sort_by_key_perm, <- HP in Hx.
    assert (He : key x = key y) by (unfold key_le in *; lia).
    clear HP H1 H2. induction Hs as [|z l Hs IH Hall]; [by apply elem_of_nil in Hx|].
    rewrite Forall_forall in Hall. unfold key_lt in Hall.
    apply elem_of_cons in Hx as [->|Hx]; apply elem_of_cons in Hy as [->|Hy]; auto.
    + specialize (Hall y Hy). lia.
    + specialize (Hall x Hx). lia.
  - apply sort_by_key_sorted.
  - by apply strict_weaken.
  - by rewrite sort_by_key_perm.
Qed.
Lemma sorted_strict l : NoDup (key <$> l) -> StronglySorted (key_le key) l -> StronglySorted key_lt l.
Proof.
  intros Hnd Hs. induction Hs as [|x l Hs IH Hall]; [constructor|].
  apply NoDup_cons in Hnd as [Hx Hnd]. constructor; [auto|].
  rewrite Forall_forall in Hall |- *. intros y Hy. specialize (Hall y Hy).
  assert (key x <> key y) by (intros He; apply Hx; rewrite He; by apply list_elem_of_fmap_2).
  unfold key_le, key_lt in *. lia.
Qed.
Lemma sort_strict l : NoDup (key <$> l) -> StronglySorted key_lt (sort_by_key key l).
Proof. intros H. apply sorted_strict; [by rewrite sort_by_key_perm|]. apply sort_by_key_sorted. Qed.

Lemma strict_app l1 l2 : StronglySorted key_lt (l1 ++ l2) <->
  StronglySorted key_lt l1 /\ StronglySorted key_lt l2
  /\ (forall x y, x ∈ l1 -> y ∈ l2 -> key x < key y).
Proof.
  induction l1 as [|a l1 IH]; cbn.
  - split; [|naive_solver]. intros H. repeat split; [constructor|done|].
    intros x y Hx. by apply elem_of_nil in Hx.
  - split.
    + intros H. apply StronglySorted_inv in H as [H Ha]. apply IH in H as (H1 & H2 & H3).
      rewrite Forall_app, !Forall_forall in Ha. destruct Ha as [Ha1 Ha2]. repeat split; [|done|].
      * constructor; [done|by rewrite Forall_forall].
      * intros x y Hx Hy. apply elem_of_cons in Hx as [->|Hx]; [by apply Ha2|auto].
    + intros (H1 & H2 & H3). apply StronglySorted_inv in H1 as [H1 Ha]. constructor.
      * apply IH. repeat split; [done|done|]. intros x y Hx Hy. apply H3; [by right|done].
      * rewrite Forall_app. split; [done|]. rewrite Forall_forall. intros y Hy.
        apply H3; [by left|done].
Qed.
Lemma strict_filter p l : StronglySorted key_lt l -> StronglySorted key_lt (List.filter p l).
Proof.
  induction 1 as [|x l Hs IH Hall]; cbn; [constructor|]. destruct (p x); [|done].
  constructor; [done|]. rewrite Forall_forall in Hall |- *. intros y Hy.
  apply list_elem_of_In, List.filter_In in Hy as [Hy _]. apply Hall. by apply list_elem_of_In.
Qed.
Lemma strict_snoc l x : StronglySorted key_lt l -> (forall y, y ∈ l -> key y < key x) ->
  StronglySorted key_lt (l ++ [x]).
Proof.
  intros Hs Hx. apply strict_app. repeat split; [done|repeat constructor|].
  intros y z Hy Hz. apply list_elem_of_singleton in Hz as ->. by apply Hx.
Qed.
Lemma strict_remove pre x post : StronglySorted key_lt (pre ++ x :: post) ->
  StronglySorted key_lt (pre ++ post).
Proof.
  rewrite !strict_app. intros (H1 & H2 & H3). apply StronglySorted_inv in H2 as [H2 _].
  repeat split; [done|done|]. intros y z Hy Hz. apply H3; [done|by right].
Qed.
End Strict.
Lemma strict_map {A B} (ka : A -> Z) (kb : B -> Z) (f : A -> B) l :
  (forall x, kb (f x) = ka x) -> StronglySorted (key_lt ka) l -> StronglySorted (key_lt kb) (List.map f l).
Proof.
  intros Hf. induction 1 as [|x l Hs IH Hall]; cbn; constructor; [done|].
  apply Forall_forall. intros y Hy. rewrite Forall_forall in Hall. apply list_elem_of_In, in_map_iff in Hy as (z & <- & Hz).
  unfold key_lt in *. rewrite !Hf. apply Hall. by apply list_elem_of_In.
Qed.
#[export] Hint Resolve strict_filter sort_strict : goal_db.

(** * The state invariant

    [waiting] is every row that holds quota, [live] adds the active run.  The
    ids a request is known by are exactly those of the live rows and of the
    remembered terminal acknowledgements. *)
Definition waiting (s : QueueState) : list ScheduledRunRequest :=
  List.map held_request (qs_held s) ++ qs_queued s.
Definition active_run (s : QueueState) : list ScheduledRunRequest :=
  match qs_active s with Some (r, _) => [r] | None => [] end.
Definition live (s : QueueState) : list ScheduledRunRequest := active_run s ++ waiting s.

Definition run_key (r : ScheduledRunRequest) : string * string :=
  (run_run_id r, run_client_request_id r).
Definition term_key (t : TerminalRunAck) : string * string :=
  (term_run_id t, term_client_request_id t).
Definition identity_of (r : ScheduledRunRequest) : RequestIdentity :=
  mkIdentity (run_digest r) (run_run_id r) (run_sequence r).
(** The identity behind a remembered verdict is that of its run. *)
Definition identifies (requests : gmap string RequestIdentity) (t : TerminalRunAck) : Prop :=
  exists digest, requests !! term_client_request_id t
    = Some (mkIdentity digest (term_run_id t) (term_run_sequence t)).

Record index_ok (keys : list (string * string)) (requests : gmap string RequestIdentity)
    (run_ids : gset string) : Prop := mkIndexOk {
  ix_ids : NoDup keys.*1;
  ix_clients : NoDup keys.*2;
  ix_run_ids : forall id, id ∈ run_ids <-> id ∈ keys.*1;
  ix_requests : forall c, is_Some (requests !! c) <-> c ∈ keys.*2
}.

(** [pending] rows have left the lists and are about to be recorded. *)
Record indexed (limit : Z) (pending : list ScheduledRunRequest) (s : QueueState) : Prop := mkIndexed {
  in_index : index_ok ((run_key <$> pending ++ live s) ++ (term_key <$> qs_terminal_acks s))
               (qs_requests s) (qs_run_ids s);
  in_identity : forall r, r ∈ pending ++ live s ->
    qs_requests s !! run_client_request_id r = Some (identity_of r);
  in_verdicts : forall t, t ∈ qs_terminal_acks s -> identifies (qs_requests s) t;
  in_acks : len (qs_terminal_acks s) <= limit
}.
Record placed (s : QueueState) : Prop := mkPlaced {
  pl_next : 1 <= qs_next_sequence s <= u64_max;
  pl_below : forall r, r ∈ live s -> 1 <= run_sequence r < qs_next_sequence s;
  pl_queued : StronglySorted (key_lt run_sequence) (qs_queued s);
  pl_held : StronglySorted (key_lt (fun h => run_sequence (held_request h))) (qs_held s);
  pl_distinct : NoDup (run_sequence <$> live s);
  pl_bytes : forall r, r ∈ live s -> 0 <= run_payload_bytes r
}.
Definition queue_ok (limit : Z) (s : QueueState) : Prop := indexed limit [] s /\ placed s.

#[export] Instance index_ok_proper : Proper ((≡ₚ) ==> eq ==> eq ==> iff) index_ok.
Proof.
  assert (Hi : forall k k' m i, k ≡ₚ k' -> index_ok k m i -> index_ok k' m i).
  { intros k k' m i HP [H1 H2 H3 H4].
    split; [by rewrite <- HP|by rewrite <- HP| |]; intros x; [rewrite H3|rewrite H4]; by rewrite HP. }
  intros k k' HP m m' <- i i' <-. split; apply Hi; done.
Qed.

Lemma evict_index limit keys acks requests run_ids :
  0 <= limit -> index_ok (keys ++ (term_key <$> acks)) requests run_ids ->
  match evict limit acks requests run_ids with
  | (acks', requests', run_ids') =>
      index_ok (keys ++ (term_key <$> acks')) requests' run_ids' /\ len acks' <= limit
      /\ (exists gone, acks = gone ++ acks')
      /\ (forall c, c ∈ (keys ++ (term_key <$> acks')).*2 -> requests' !! c = requests !! c)
  end.
Proof.
  intros Hl. revert requests run_ids. induction acks as [|t acks IH]; intros m ids Hix; cbn [evict].
  - split; [done|]. split; [unfold len; cbn; lia|]. split; [by exists []|done].
  - destruct (Z.ltb_spec limit (len (t :: acks))) as [Hgt|Hle].
    2: { split; [done|]. split; [done|]. split; [by exists []|done]. }
    assert (HP : keys ++ (term_key <$> t :: acks) ≡ₚ term_key t :: (keys ++ (term_key <$> acks)))
      by (cbn; by rewrite Permutation_middle).
    rewrite HP in Hix. destruct Hix as [H1 H2 H3 H4]. cbn [fmap list_fmap] in *.
    apply NoDup_cons in H1 as [H1a H1], H2 as [H2a H2].
    specialize (IH (delete (term_client_request_id t) m) (ids ∖ {[term_run_id t]})).
    destruct (evict _ _ _ _) as [[acks' m'] ids'].
    destruct IH as (A & B & (gone & ->) & C).
    + split; [done|done| |].
      * intros id. rewrite elem_of_difference, elem_of_singleton, H3, elem_of_cons.
        cbn [term_key fst]. split; [naive_solver|]. intros Hid. split; [naive_solver|]. intros ->. by apply H1a.
      * intros c. destruct (decide (c = term_client_request_id t)) as [->|Hc].
        -- rewrite lookup_delete_eq. split; [by intros [? [=]]|]. intros Hc. by destruct H2a.
        -- rewrite lookup_delete_ne, H4, elem_of_cons by done. cbn. naive_solver.
    + split; [done|]. split; [done|]. split; [by exists (t :: gone)|].
      intros c Hc. rewrite C by done. apply lookup_delete_ne. intros <-. apply H2a.
      rewrite !fmap_app, !elem_of_app in *. tauto.
Qed.

(** [remember_terminal] touches nothing but the acknowledgements and the index. *)
Lemma remember_frame limit st why s r :
  let s' := remember_terminal limit st why s r in
  qs_next_sequence s' = qs_next_sequence s /\ qs_active s' = qs_active s
  /\ qs_queued s' = qs_queued s /\ qs_held s' = qs_held s /\ qs_queued_bytes s' = qs_queued_bytes s.
Proof.
  unfold remember_terminal. destruct (evict _ _ _ _) as [[a m] i]. done.
Qed.
Lemma remember_all_frame limit st why rs s :
  let s' := remember_all limit st why rs s in
  qs_next_sequence s' = qs_next_sequence s /\ qs_active s' = qs_active s
  /\ qs_queued s' = qs_queued s /\ qs_held s' = qs_held s /\ qs_queued_bytes s' = qs_queued_bytes s.
Proof.
  unfold remember_all. revert s. induction rs as [|r rs IH]; intros s; [done|]. cbn [List.fold_left].
  specialize (IH (remember_terminal limit st why s r)). cbn zeta in *.
  pose proof (remember_frame limit st why s r) as F. cbn zeta in F.
  destruct F as (F1 & F2 & F3 & F4 & F5). by rewrite F1, F2, F3, F4, F5 in IH.
Qed.
Lemma live_frame s s' : qs_active s' = qs_active s -> qs_queued s' = qs_queued s ->
  qs_held s' = qs_held s -> live s' = live s.
Proof. unfold live, waiting, active_run. by intros -> -> ->. Qed.

Lemma remember_indexed limit st why s r pending :
  0 <= limit -> indexed limit (r :: pending) s ->
  indexed limit pending (remember_terminal limit st why s r).
Proof.
  intros Hl [Hix Hid Hv _].
  pose proof (remember_frame limit st why s r) as (_ & F2 & F3 & F4 & _). cbn zeta in *.
  pose proof (live_frame _ _ F2 F3 F4) as FL. revert FL. clear F2 F3 F4.
  unfold remember_terminal.
  set (t := mkTerminal _ _ _ st why).
  pose proof (evict_index limit (run_key <$> pending ++ live s) (qs_terminal_acks s ++ [t])
                (qs_requests s) (qs_run_ids s) Hl) as E.
  destruct (evict _ _ _ _) as [[a m] i]. intros FL.
  destruct E as (E1 & E2 & (gone & E3) & E4).
  { eapply index_ok_proper; [|reflexivity|reflexivity|exact Hix].
    rewrite (fmap_app term_key). cbn. change (term_key t) with (run_key r).
    by rewrite app_assoc, <- Permutation_cons_append. }
  split; rewrite ?FL; [done| | |done].
  - intros x Hx. cbn. rewrite E4; [apply Hid; by right|].
    rewrite fmap_app, elem_of_app. left. rewrite <- list_fmap_compose. apply list_elem_of_fmap. by exists x.
  - intros x Hx. cbn in *. unfold identifies. rewrite E4.
    + assert (Hin : x ∈ qs_terminal_acks s ++ [t]) by (rewrite E3, elem_of_app; by right).
      apply elem_of_app in Hin as [Hin|Hin]; [by apply Hv|]. apply list_elem_of_singleton in Hin as ->.
      exists (run_digest r). apply (Hid r). left.
    + rewrite fmap_app, elem_of_app. right. rewrite <- list_fmap_compose. apply list_elem_of_fmap. by exists x.
Qed.
Lemma remember_all_indexed limit st why rs s :
  0 <= limit -> indexed limit rs s -> indexed limit [] (remember_all limit st why rs s).
Proof.
  intros Hl. unfold remember_all. revert s. induction rs as [|r rs IH]; intros s H; [done|].
  cbn. apply IH. by apply remember_indexed.
Qed.
(** Rows that leave the lists become pending. *)
Lemma indexed_move limit pending pending' s s' :
  qs_terminal_acks s' = qs_terminal_acks s -> qs_requests s' = qs_requests s ->
  qs_run_ids s' = qs_run_ids s ->
  (run_key <$> pending' ++ live s') ≡ₚ (run_key <$> pending ++ live s) ->
  (forall r', r' ∈ pending' ++ live s' -> exists r, r ∈ pending ++ live s /\ run_key r = run_key r'
     /\ identity_of r = identity_of r') ->
  indexed limit pending s -> indexed limit pending' s'.
Proof.
  intros Ha Hm Hi HP Hr [H1 H2 H3 H4]. split; rewrite ?Ha, ?Hm, ?Hi; [by rewrite HP| |done|done].
  intros r' Hr'. destruct (Hr r' Hr') as (r & Hin & Hk & <-). unfold run_key in Hk.
  injection Hk as _ Hc. rewrite <- Hc. by apply H2.
Qed.
Lemma indexed_perm limit pending pending' s s' :
  qs_terminal_acks s' = qs_terminal_acks s -> qs_requests s' = qs_requests s ->
  qs_run_ids s' = qs_run_ids s -> pending' ++ live s' ≡ₚ pending ++ live s ->
  indexed limit pending s -> indexed limit pending' s'.
Proof.
  intros Ha Hm Hi HP. apply indexed_move; [done|done|done|by rewrite HP|].
  intros r Hr. exists r. by rewrite <- HP.
Qed.

(** * Operations as steps

    One constructor per method that changes the queue, with its arguments and
    what it draws from the environment (the new UUID's text, the clock). *)
Inductive QueueOp :=
| OpAccept (fresh : string) (now : Z) (client_request_id : string) (run_id : option string)
    (busy_policy : BusyPolicy) (payload : Value)
| OpSupersede (fresh : string) (now : Z) (client_request_id : string) (run_id : option string)
    (payload : Value)
| OpStart (epoch : u64)
| OpDrain
| OpFinish (run_id : string)
| OpReleasePayload (run_id : string)
| OpCancel (run_id : string) (reason : QueuedCancellationReason)
| OpCancelAll (reason : QueuedCancellationReason)
| OpPark (boundary : QueueBoundary) (now : Z)
| OpReleaseHeld (run_id : string) (now : Z).

Inductive Outcome :=
| Refused (e : RunQueueError)
| Accepted (ack : RunAck)
| Replaced (ack : RunAck) (cancelled : list ScheduledRunRequest) (active : option string)
| Started (request : ScheduledRunRequest) (ack : RunAck)
| Removed (requests : list ScheduledRunRequest)
| Parked (rows : list ParkedRun)
| Released (request : ScheduledRunRequest)
| Done.

Definition run_op `{RunEnv} (q : InMemoryRunQueue) (op : QueueOp)
    (g : GlobalBudgetState) (s : QueueState) : Outcome * GlobalBudgetState * QueueState :=
  match op with
  | OpAccept fresh now c rid policy payload =>
      match accept q fresh now c rid policy payload g s with
      | inl e => (Refused e, g, s)
      | inr (ack, g, s) => (Accepted ack, g, s)
      end
  | OpSupersede fresh now c rid payload =>
      match supersede q fresh now c rid payload g s with
      | inl e => (Refused e, g, s)
      | inr (ack, cancelled, active, g, s) => (Replaced ack cancelled active, g, s)
      end
  | OpStart epoch =>
      match start_next epoch g s with
      | inl e => (Refused e, g, s)
      | inr (r, ack, g, s) => (Started r ack, g, s)
      end
  | OpDrain => let '(folded, g, s) := drain_coalescing_after_first q g s in (Removed folded, g, s)
  | OpFinish run_id =>
      match finish_active q run_id s with inl e => (Refused e, g, s) | inr s => (Done, g, s) end
  | OpReleasePayload run_id => (Done, g, release_active_payload run_id s)
  | OpCancel run_id reason =>
      match cancel_queued q run_id reason g s with
      | inl e => (Refused e, g, s)
      | inr (r, g, s) => (Removed [r], g, s)
      end
  | OpCancelAll reason => let '(rs, g, s) := cancel_all_queued q reason g s in (Removed rs, g, s)
  | OpPark boundary now => let '(rows, s) := park_stale q boundary now s in (Parked rows, g, s)
  | OpReleaseHeld run_id now =>
      match release_held run_id now s with
      | inl e => (Refused e, g, s)
      | inr (r, s) => (Released r, g, s)
      end
  end.

(** * Every operation keeps the invariant *)
Lemma queue_ok_init sid next cap mq mr limit gb : 0 <= limit -> next <= u64_max ->
  queue_ok limit (snd (with_limits_and_global sid next cap mq mr limit gb)).
Proof.
  intros Hl Hn. unfold with_limits_and_global, u64_max in *. cbn [snd]. split.
  - split; cbn; [|intros r Hr; by apply elem_of_nil in Hr|intros t Ht; by apply elem_of_nil in Ht
                 |unfold len; cbn; lia].
    split; cbn; [constructor|constructor|set_solver|].
    intros c. rewrite lookup_empty. split; [by intros [? [=]]|]. intros Hc. by apply elem_of_nil in Hc.
  - split; cbn; [unfold u64_max; lia| |apply SSorted_nil|apply SSorted_nil|apply NoDup_nil_2|];
      intros r Hr; by apply elem_of_nil in Hr.
Qed.

(** The queue's part of the invariant under a change of the two lists. *)
Lemma placed_sub s s' :
  qs_next_sequence s' = qs_next_sequence s -> placed s ->
  (exists gone, run_sequence <$> live s ≡ₚ gone ++ (run_sequence <$> live s')) ->
  StronglySorted (key_lt run_sequence) (qs_queued s') ->
  StronglySorted (key_lt (fun h => run_sequence (held_request h))) (qs_held s') ->
  (forall r, r ∈ live s' -> 0 <= run_payload_bytes r) ->
  placed s'.
Proof.
  intros Hn [P1 P2 P3 P4 P5 P6] (gone & HP) Hq Hh Hb. split; rewrite ?Hn; try done.
  - intros r Hr. assert (Hin : run_sequence r ∈ run_sequence <$> live s).
    { rewrite HP, elem_of_app. right. by apply list_elem_of_fmap_2. }
    apply list_elem_of_fmap in Hin as (r' & -> & Hr'). by apply P2.
  - rewrite HP in P5. by apply NoDup_app in P5 as (_ & _ & ?).
Qed.

Lemma enqueue_ok limit s r qb :
  queue_ok limit s -> qs_requests s !! run_client_request_id r = None ->
  run_run_id r ∉ qs_run_ids s -> 0 <= run_payload_bytes r ->
  run_sequence r = qs_next_sequence s -> qs_next_sequence s + 1 <= u64_max ->
  queue_ok limit (enqueue r qb (s <| qs_next_sequence := qs_next_sequence s + 1 |>)).
Proof.
  intros [[Hix Hid Hv Ha] [P1 P2 P3 P4 P5 P6]] Hc Hrid Hb Hseq Hn.
  assert (HL : live (enqueue r qb (s <| qs_next_sequence := qs_next_sequence s + 1 |>)) ≡ₚ r :: live s).
  { unfold live, waiting, enqueue. cbn. change (active_run _) with (active_run s).
    by rewrite !app_assoc, <- Permutation_cons_append. }
  destruct Hix as [I1 I2 I3 I4]. cbn [app] in *. split; split.
  - eapply index_ok_proper; [|reflexivity|reflexivity|].
    { cbn [app]. rewrite HL. reflexivity. }
    cbn [fmap list_fmap app]. split.
    + cbn. apply NoDup_cons. split; [by rewrite <- I3|done].
    + cbn. apply NoDup_cons. split; [|done]. rewrite <- I4, Hc. by intros [? [=]].
    + intros id. cbn. rewrite elem_of_union, elem_of_singleton, elem_of_cons, I3. done.
    + intros c'. cbn. rewrite elem_of_cons. destruct (decide (c' = run_client_request_id r)) as [->|Hne].
      * rewrite lookup_insert_eq. split; [by left|by eexists].
      * rewrite lookup_insert_ne, I4 by done. naive_solver.
  - intros x Hx. cbn [app] in Hx. rewrite HL in Hx. cbn.
    apply elem_of_cons in Hx as [->|Hx]; [by rewrite lookup_insert_eq|].
    rewrite lookup_insert_ne; [by apply Hid|]. intros Heq.
    specialize (Hid x Hx). rewrite <- Heq in Hid. cbn in Hid. congruence.
  - intros t Ht. destruct (Hv t Ht) as (d & Hd). exists d. cbn. rewrite lookup_insert_ne; [done|].
    intros Heq. cbn in Hd. congruence.
  - done.
  - cbn. lia.
  - intros x Hx. rewrite HL in Hx. cbn. apply elem_of_cons in Hx as [->|Hx]; [cbn; lia|].
    specialize (P2 x Hx). lia.
  - cbn. apply strict_snoc; [done|]. intros y Hy. cbn. rewrite Hseq. apply P2. unfold live, waiting.
    rewrite !elem_of_app. by right; right.
  - done.
  - rewrite HL. cbn. rewrite Hseq. apply NoDup_cons. split; [|done]. intros Hin.
    apply list_elem_of_fmap in Hin as (y & Hy & Hin). specialize (P2 y Hin). lia.
  - intros x Hx. rewrite HL in Hx. apply elem_of_cons in Hx as [->|Hx]; [done|auto].
Qed.

(** Rows [gone] leave the waiting lists and are remembered. *)
Lemma remove_remember_ok limit st why gone s s' :
  0 <= limit -> queue_ok limit s ->
  qs_next_sequence s' = qs_next_sequence s -> qs_active s' = qs_active s ->
  qs_terminal_acks s' = qs_terminal_acks s -> qs_requests s' = qs_requests s ->
  qs_run_ids s' = qs_run_ids s ->
  waiting s ≡ₚ gone ++ waiting s' ->
  StronglySorted (key_lt run_sequence) (qs_queued s') ->
  StronglySorted (key_lt (fun h => run_sequence (held_request h))) (qs_held s') ->
  queue_ok limit (remember_all limit st why gone s').
Proof.
  intros Hl [Hix Hpl] Hn Hact Ha Hm Hi HW Hq Hh.
  assert (HL : live s ≡ₚ gone ++ live s').
  { unfold live, active_run. rewrite HW, Hact, !app_assoc. f_equiv. apply Permutation_app_comm. }
  split.
  - apply remember_all_indexed; [done|]. refine (indexed_perm _ _ _ s _ _ _ _ _ Hix); [done|done|done|].
    cbn [app]. by rewrite HL.
  - pose proof (remember_all_frame limit st why gone s') as (F1 & F2 & F3 & F4 & _). cbn zeta in *.
    pose proof (live_frame _ _ F2 F3 F4) as FL.
    apply (placed_sub s); [by rewrite F1|exact Hpl| |by rewrite F3|by rewrite F4|].
    + exists (run_sequence <$> gone). by rewrite FL, HL, fmap_app.
    + intros r Hr. rewrite FL in Hr. apply (pl_bytes _ Hpl). rewrite HL, elem_of_app. by right.
Qed.

(** ** What a successful operation did *)
Section Effects.
Context `{RunEnv} (q : InMemoryRunQueue).
Notation "'limit'" := (q_recent_ack_limit q) (only parsing).

Definition new_request (fresh : string) (now : Z) (c : string) (rid : option string)
    (policy : BusyPolicy) (payload : Value) (sequence : u64) : ScheduledRunRequest :=
  mkRun (q_session_id q) (choose_run_id fresh rid) sequence c
    (request_digest rid policy payload) policy payload (to_rfc3339 now) (len (to_vec payload)).

Lemma accept_inv fresh now c rid policy payload g s ack g' s' :
  accept q fresh now c rid policy payload g s = inr (ack, g', s') ->
  (exists identity, qs_requests s !! c = Some identity
     /\ id_digest identity = request_digest rid policy payload
     /\ ack = existing_ack s identity /\ g' = g /\ s' = s)
  \/ (let r := new_request fresh now c rid policy payload (qs_next_sequence s) in
      let new_bytes := u64_sat_add (qs_queued_bytes s) (run_payload_bytes r) in
      qs_requests s !! c = None /\ policy <> SupersedeSession
      /\ run_payload_bytes r <= q_max_request_bytes q /\ len (qs_queued s) < q_capacity q
      /\ new_bytes <= q_max_queue_bytes q /\ unsafe_run_id (run_run_id r) = false
      /\ (run_run_id r ∉ qs_run_ids s) /\ qs_next_sequence s + 1 <= u64_max
      /\ reserve (q_global_budget q) (run_payload_bytes r) g = inr g'
      /\ s' = enqueue r new_bytes (s <| qs_next_sequence := qs_next_sequence s + 1 |>)
      /\ ack = ack_queued (run_run_id r) (qs_next_sequence s) (len (qs_queued s) + 1)).
Proof.
  unfold accept. intros E. destruct (trim c =?s ""); [done|].
  destruct (qs_requests s !! c) as [i|] eqn:Ec.
  - destruct (negb _) eqn:Ed; [done|]. injection E as <- <- <-. bool_prop. left. by exists i.
  - right. destruct (bool_decide (policy = _)) eqn:E1; [done|].
    destruct (Z.ltb (q_max_request_bytes q) _) eqn:E2; [done|].
    destruct (Z.leb (q_capacity q) _) eqn:E3; [done|].
    destruct (Z.ltb (q_max_queue_bytes q) _) eqn:E4; [done|].
    destruct (unsafe_run_id _) eqn:E5; [done|].
    destruct (bool_decide (choose_run_id _ _ ∈ _)) eqn:E6; [done|].
    destruct (negb _) eqn:E7; [done|]. bool_prop.
    destruct (reserve _ _ _) as [?|g1] eqn:E8; [done|].
    unfold next_sequence in E. rewrite (proj2 (Z.leb_le _ _)) in E by done.
    injection E as <- <- <-. cbn zeta. repeat (split; [done|]).
    unfold enqueue. cbn. f_equal. f_equal. by rewrite len_app.
Qed.

Lemma supersede_inv fresh now c rid payload g s ack cancelled act g' s' :
  supersede q fresh now c rid payload g s = inr (ack, cancelled, act, g', s') ->
  (exists identity, qs_requests s !! c = Some identity
     /\ id_digest identity = request_digest rid SupersedeSession payload
     /\ ack = existing_ack s identity /\ cancelled = [] /\ act = None /\ g' = g /\ s' = s)
  \/ (let r := new_request fresh now c rid SupersedeSession payload (qs_next_sequence s) in
      let s1 := remember_all limit "cancelled" "superseded" (qs_queued s)
                  (s <| qs_queued := [] |> <| qs_queued_bytes := 0 |>) in
      qs_requests s !! c = None
      /\ run_payload_bytes r <= q_max_request_bytes q /\ run_payload_bytes r <= q_max_queue_bytes q
      /\ unsafe_run_id (run_run_id r) = false
      /\ (run_run_id r ∉ qs_run_ids s) /\ qs_next_sequence s + 1 <= u64_max
      /\ replace_queued (q_global_budget q) (len (qs_queued s)) (qs_queued_bytes s)
           (run_payload_bytes r) g = inr g'
      /\ s' = enqueue r (run_payload_bytes r) (s1 <| qs_next_sequence := qs_next_sequence s1 + 1 |>)
      /\ ack = ack_queued (run_run_id r) (qs_next_sequence s) 1
      /\ cancelled = qs_queued s
      /\ act = option_map (fun a => run_run_id (fst a)) (qs_active s)).
Proof.
  unfold supersede. intros E. destruct (trim c =?s ""); [done|].
  destruct (qs_requests s !! c) as [i|] eqn:Ec.
  - destruct (negb _) eqn:Ed; [done|]. injection E as <- <- <- <- <-. bool_prop. left. by exists i.
  - right. destruct (_ || _) eqn:E1; [done|].
    destruct (unsafe_run_id _) eqn:E5; [done|].
    destruct (bool_decide _) eqn:E6; [done|].
    destruct (negb _) eqn:E7; [done|]. bool_prop.
    destruct (replace_queued _ _ _ _ _) as [?|g1] eqn:E8; [done|].
    set (s1 := remember_all _ _ _ _ _) in *.
    pose proof (remember_all_frame limit "cancelled" "superseded" (qs_queued s)
                  (s <| qs_queued := [] |> <| qs_queued_bytes := 0 |>)) as (F1 & F2 & _).
    cbn zeta in *. fold s1 in F1, F2. cbn in F1, F2.
    unfold next_sequence in E. rewrite F1, (proj2 (Z.leb_le _ _)) in E by done.
    injection E as <- <- <- <- <-. cbn [qs_active enqueue set_field]. cbn. rewrite F1, F2.
    repeat (split; [done|]). done.
Qed.

Lemma start_next_inv epoch g s r ack g' s' :
  start_next epoch g s = inr (r, ack, g', s') ->
  exists rest, qs_active s = None /\ qs_queued s = r :: rest
  /\ ack = mkRunAck (run_run_id r) epoch AckRunning (Some (run_sequence r)) None
  /\ g' = release (run_payload_bytes r) g
  /\ s' = s <| qs_queued := rest |>
            <| qs_queued_bytes := usize_sat_sub (qs_queued_bytes s) (run_payload_bytes r) |>
            <| qs_active := Some (r, epoch) |>.
Proof.
  unfold start_next. destruct (qs_active s) as [[? ?]|]; [done|].
  destruct (qs_queued s) as [|x rest]; [done|]. intros [= <- <- <- <-]. by exists rest.
Qed.

(** [s1] is the state with the cancelled row taken out of its list. *)
Lemma cancel_inv run_id reason g s r g' s' :
  cancel_queued q run_id reason g s = inr (r, g', s') ->
  exists s1, s' = remember_all limit "cancelled" (cancellation_as_str reason) [r]
      (s1 <| qs_queued_bytes := usize_sat_sub (qs_queued_bytes s) (run_payload_bytes r) |>)
  /\ g' = release (run_payload_bytes r) g /\ run_run_id r = run_id
  /\ ((exists pre h post, qs_held s = pre ++ h :: post /\ r = held_request h
         /\ s1 = s <| qs_held := pre ++ post |>)
      \/ (exists pre post, qs_queued s = pre ++ r :: post /\ s1 = s <| qs_queued := pre ++ post |>)).
Proof.
  unfold cancel_queued. intros E.
  destruct (position (is_held_run run_id) (qs_held s)) as [i|] eqn:Eh.
  - apply position_some in Eh as (pre & h & post & Hs & _ & Hp & _ & Hr). rewrite Hr in E.
    injection E as <- <- <-. unfold is_held_run, is_run in Hp. bool_prop.
    exists (s <| qs_held := pre ++ post |>). do 3 (split; [done|]). left. by exists pre, h, post.
  - destruct (position (is_run run_id) (qs_queued s)) as [i|] eqn:Eq; [|done].
    apply position_some in Eq as (pre & x & post & Hs & _ & Hp & _ & Hr). rewrite Hr in E.
    injection E as <- <- <-. unfold is_run in Hp. bool_prop.
    exists (s <| qs_queued := pre ++ post |>). do 3 (split; [done|]). right. by exists pre, post.
Qed.

Lemma release_held_inv run_id now s r s' :
  release_held run_id now s = inr (r, s') ->
  exists pre h post before behind, qs_held s = pre ++ h :: post
  /\ r = (held_request h) <| run_accepted_at := to_rfc3339 now |>
  /\ run_run_id r = run_id /\ qs_queued s = before ++ behind
  /\ (forall x, In x before -> run_sequence x <= run_sequence r)
  /\ match behind with [] => True | x :: _ => run_sequence r < run_sequence x end
  /\ s' = s <| qs_held := pre ++ post |> <| qs_queued := before ++ r :: behind |>.
Proof.
  unfold release_held. intros E.
  destruct (position (is_held_run run_id) (qs_held s)) as [i|] eqn:Eh; [|done].
  apply position_some in Eh as (pre & h & post & Hs & _ & Hp & _ & Hr). rewrite Hr in E.
  unfold is_held_run, is_run in Hp. bool_prop.
  destruct (position (fun r => _) (qs_queued s)) as [j|] eqn:Ej.
  - apply position_some in Ej as (b & x & c & Hq & <- & Hx & Hb & _). bool_prop.
    injection E as <- <-. exists pre, h, post, b, (x :: c).
    split; [done|]. split; [done|]. split; [done|]. split; [done|].
    split; [intros y Hy; specialize (Hb y Hy); by bool_prop|]. split; [done|].
    unfold insert_at. cbn. rewrite Hq. by rewrite take_app_length, drop_app_length.
  - rewrite position_none in Ej. injection E as <- <-. exists pre, h, post, (qs_queued s), [].
    split; [done|]. split; [done|]. split; [done|]. split; [by rewrite app_nil_r|].
    split; [intros y Hy; specialize (Ej y Hy); by bool_prop|]. split; [done|].
    unfold insert_at. cbn. by rewrite take_ge, drop_ge by done.
Qed.

Lemma drain_inv g s folded g' s' :
  drain_coalescing_after_first q g s = (folded, g', s') ->
  (folded = [] /\ g' = g /\ s' = s)
  \/ exists front rest,
      qs_queued s = front :: folded ++ rest
      /\ coalesces (run_busy_policy front) = true
      /\ folded = take (coalescing_count
           (usize_sat_sub (q_max_request_bytes q) (run_payload_bytes front)) (folded ++ rest)) (folded ++ rest)
      /\ g' = release_each folded g
      /\ s' = remember_all limit "terminal" "merged" folded
           (s <| qs_queued := front :: rest |>
              <| qs_queued_bytes := List.fold_left (fun b r => usize_sat_sub b (run_payload_bytes r))
                                      folded (qs_queued_bytes s) |>).
Proof.
  unfold drain_coalescing_after_first. intros E.
  destruct (qs_queued s) as [|front behind] eqn:Eq; [injection E as <- <- <-; auto|].
  destruct (coalesces _) eqn:Ec; cbn [negb] in E; [|injection E as <- <- <-; auto].
  destruct (Nat.eqb _ 0) eqn:En; [injection E as <- <- <-; auto|].
  right. injection E as <- <- <-.
  exists front, (drop (coalescing_count
    (usize_sat_sub (q_max_request_bytes q) (run_payload_bytes front)) behind) behind).
  by rewrite !take_drop.
Qed.

Lemma park_rows_perm boundary now rs held kept :
  park_rows q boundary now rs = (held, kept) ->
  rs ≡ₚ List.map held_request held ++ kept
  /\ kept = List.filter (fun r => match park_reason q boundary now r with None => true | _ => false end) rs
  /\ (forall h, In h held -> park_reason q boundary now (held_request h) = Some (held_why h))
  /\ List.map held_request held
     = List.filter (fun r => match park_reason q boundary now r with None => false | _ => true end) rs.
Proof.
  revert held kept. induction rs as [|r rs IH]; intros held kept; cbn; [by intros [= <- <-]|].
  destruct (park_rows _ _ _ _) as [h k]. destruct (IH h k eq_refl) as (A & B & C & D).
  destruct (park_reason q boundary now r) eqn:Er; intros [= <- <-]; cbn.
  - repeat split; [by rewrite A|done| |by rewrite D]. intros x [<-|Hx]; [done|auto].
  - repeat split; [by rewrite A, Permutation_middle|by rewrite B|done|done].
Qed.
End Effects.

(** ** Preservation *)
Lemma evict_shrinks limit acks m ids :
  match evict limit acks m ids with
  | (_, m', ids') => (forall c, m !! c = None -> m' !! c = None) /\ ids' ⊆ ids
  end.
Proof.
  revert m ids. induction acks as [|t acks IH]; intros m ids; cbn; [by split|].
  destruct (_ <? _); [|by split].
  specialize (IH (delete (term_client_request_id t) m) (ids ∖ {[term_run_id t]})).
  destruct (evict _ _ _ _) as [[a m'] i']. destruct IH as [A B]. split; [|set_solver].
  intros c Hc. apply A. rewrite lookup_delete. by destruct (decide _).
Qed.
Lemma remember_all_shrinks limit st why rs s :
  let s' := remember_all limit st why rs s in
  (forall c, qs_requests s !! c = None -> qs_requests s' !! c = None)
  /\ qs_run_ids s' ⊆ qs_run_ids s.
Proof.
  unfold remember_all. revert s. induction rs as [|r rs IH]; intros s; [done|]. cbn [List.fold_left].
  specialize (IH (remember_terminal limit st why s r)). cbn zeta in *. destruct IH as [A B].
  assert (Hr : (forall c, qs_requests s !! c = None ->
            qs_requests (remember_terminal limit st why s r) !! c = None)
          /\ qs_run_ids (remember_terminal limit st why s r) ⊆ qs_run_ids s).
  { unfold remember_terminal.
    match goal with |- context [evict ?l ?a ?m ?i] => pose proof (evict_shrinks l a m i) as E end.
    destruct (evict _ _ _ _) as [[a m'] i']. exact E. }
  destruct Hr as [R1 R2]. split; [auto|set_solver].
Qed.

Lemma live_filter_queued s gone (queued' : list ScheduledRunRequest) :
  qs_queued s ≡ₚ gone ++ queued' -> waiting s ≡ₚ gone ++ (List.map held_request (qs_held s) ++ queued').
Proof. unfold waiting. intros ->. rewrite !app_assoc. f_equiv. apply Permutation_app_comm. Qed.

Lemma placed_queued_seqs s : placed s ->
  NoDup (run_sequence <$> waiting s).
Proof. intros H. apply pl_distinct in H. unfold live in H. rewrite fmap_app in H. by apply NoDup_app in H as (_ & _ & ?). Qed.

Lemma strict_sublist_middle l1 (l2 l3 : list ScheduledRunRequest) :
  StronglySorted (key_lt run_sequence) (l1 ++ l2 ++ l3) -> StronglySorted (key_lt run_sequence) (l1 ++ l3).
Proof.
  rewrite !strict_app. intros (H1 & (H2 & H3 & _) & H4). repeat split; [done|done|].
  intros x y Hx Hy. apply H4; [done|]. rewrite elem_of_app. by right.
Qed.

Section Preservation.
Context `{RunEnv} (q : InMemoryRunQueue).
Hypothesis limit_nonneg : 0 <= q_recent_ack_limit q.
Notation "'limit'" := (q_recent_ack_limit q) (only parsing).

Lemma accept_ok fresh now c rid policy payload g s ack g' s' :
  queue_ok limit s -> accept q fresh now c rid policy payload g s = inr (ack, g', s') -> queue_ok limit s'.
Proof.
  intros Hok E. apply accept_inv in E as [(? & _ & _ & _ & _ & ->)|E]; [done|].
  destruct E as (Hc & _ & _ & _ & _ & _ & Hrid & Hn & _ & -> & _).
  apply enqueue_ok; try done. apply len_nonneg.
Qed.

Lemma supersede_ok fresh now c rid payload g s ack cancelled act g' s' :
  queue_ok limit s -> supersede q fresh now c rid payload g s = inr (ack, cancelled, act, g', s') ->
  queue_ok limit s'.
Proof.
  intros Hok E. apply supersede_inv in E as [(? & _ & _ & _ & _ & _ & _ & ->)|E]; [done|].
  destruct E as (Hc & _ & _ & _ & Hrid & Hn & _ & -> & _).
  set (s0 := s <| qs_queued := [] |> <| qs_queued_bytes := 0 |>).
  pose proof (remember_all_frame limit "cancelled" "superseded" (qs_queued s) s0) as (F1 & _).
  pose proof (remember_all_shrinks limit "cancelled" "superseded" (qs_queued s) s0) as (R1 & R2).
  cbn zeta in *.
  apply enqueue_ok; [|by apply R1|cbn; set_solver|apply len_nonneg|by rewrite F1|by rewrite F1].
  eapply (remove_remember_ok _ _ _ _ s); try exact Hok; try done; [|constructor|].
  - unfold s0, waiting. cbn. rewrite app_nil_r. apply Permutation_app_comm.
  - apply Hok.
Qed.

Lemma start_ok epoch g s r ack g' s' :
  queue_ok limit s -> start_next epoch g s = inr (r, ack, g', s') -> queue_ok limit s'.
Proof.
  intros [Hix Hpl] E. apply start_next_inv in E as (rest & Ha & Hq & _ & _ & ->).
  set (s' := _ <| qs_active := _ |>).
  assert (HL : live s' ≡ₚ live s).
  { unfold live, active_run, waiting. rewrite Ha, Hq. cbn. by rewrite Permutation_middle. }
  split.
  - refine (indexed_perm _ _ _ s _ _ _ _ _ Hix); [done|done|done|]. cbn [app]. by rewrite HL.
  - apply (placed_sub s); [done|exact Hpl|exists []; cbn [app]; by rewrite HL| |apply Hpl|].
    + pose proof (pl_queued _ Hpl) as Hs. rewrite Hq in Hs. by apply StronglySorted_inv in Hs as [? _].
    + intros x. rewrite HL. apply Hpl.
Qed.

Lemma drain_ok g s folded g' s' :
  queue_ok limit s -> drain_coalescing_after_first q g s = (folded, g', s') -> queue_ok limit s'.
Proof.
  intros Hok E. apply drain_inv in E as [(_ & _ & ->)|(front & rest & Hq & _ & _ & _ & ->)]; [done|].
  pose proof (pl_queued _ (proj2 Hok)) as Hs. rewrite Hq in Hs.
  eapply (remove_remember_ok _ _ _ _ s); try exact Hok; try done; [|by apply (strict_sublist_middle [front] folded)|apply Hok].
  apply (live_filter_queued s folded (front :: rest)). rewrite Hq. cbn. by rewrite Permutation_middle.
Qed.

Lemma cancel_ok run_id reason g s r g' s' :
  queue_ok limit s -> cancel_queued q run_id reason g s = inr (r, g', s') -> queue_ok limit s'.
Proof.
  intros Hok E. apply cancel_inv in E as (s1 & -> & _ & _ & [(pre & h & post & Hh & -> & ->)|(pre & post & Hq & ->)]).
  - pose proof (pl_held _ (proj2 Hok)) as Hs. rewrite Hh in Hs.
    eapply (remove_remember_ok _ _ _ _ s); try exact Hok; try done; [|apply Hok|by apply strict_remove in Hs].
    unfold waiting. cbn. rewrite Hh, !List.map_app. cbn. by rewrite <- Permutation_middle.
  - pose proof (pl_queued _ (proj2 Hok)) as Hs. rewrite Hq in Hs.
    eapply (remove_remember_ok _ _ _ _ s); try exact Hok; try done; [|by apply strict_remove in Hs|apply Hok].
    unfold waiting. cbn. rewrite Hq, app_assoc, <- Permutation_middle. by rewrite app_assoc.
Qed.

Lemma cancel_all_ok reason g s rs g' s' :
  queue_ok limit s -> cancel_all_queued q reason g s = (rs, g', s') -> queue_ok limit s'.
Proof.
  intros Hok. unfold cancel_all_queued. intros [= <- _ <-].
  eapply (remove_remember_ok _ _ _ _ s); try exact Hok; try done; [|constructor|constructor].
  unfold waiting. cbn. rewrite sort_by_key_perm, app_nil_r. apply Permutation_app_comm.
Qed.

Lemma finish_ok run_id s s' :
  queue_ok limit s -> finish_active q run_id s = inr s' -> queue_ok limit s'.
Proof.
  intros [Hix Hpl]. unfold finish_active. destruct (qs_active s) as [[r e]|] eqn:Ha; [|done].
  destruct (_ =?s _); [|done]. intros E.
  pose (s1 := s <| qs_active := None |>).
  assert (s' = remember_terminal limit "terminal" "settled" s1 r) as -> by (by injection E as <-).
  clear E.
  assert (HL : live s = r :: live s1) by (unfold live, active_run; by rewrite Ha).
  split.
  - apply remember_indexed; [done|]. refine (indexed_perm _ _ _ s _ _ _ _ _ Hix); [done|done|done|].
    cbn [app]. by rewrite HL.
  - pose proof (remember_frame limit "terminal" "settled" s1 r) as (F1 & F2 & F3 & F4 & _). cbn zeta in *.
    pose proof (live_frame _ _ F2 F3 F4) as FL.
    apply (placed_sub s); [by rewrite F1|exact Hpl| |rewrite F3; apply Hpl|rewrite F4; apply Hpl|].
    + exists [run_sequence r]. by rewrite FL, HL.
    + intros x Hx. rewrite FL in Hx. apply (pl_bytes _ Hpl). rewrite HL. by right.
Qed.

(** A live row is replaced by one of the same identity and sequence. *)
Lemma replace_ok s s' a r r' :
  queue_ok limit s -> qs_next_sequence s' = qs_next_sequence s ->
  qs_terminal_acks s' = qs_terminal_acks s -> qs_requests s' = qs_requests s ->
  qs_run_ids s' = qs_run_ids s ->
  live s ≡ₚ r :: a -> live s' ≡ₚ r' :: a -> run_key r' = run_key r -> identity_of r' = identity_of r ->
  0 <= run_payload_bytes r' ->
  StronglySorted (key_lt run_sequence) (qs_queued s') ->
  StronglySorted (key_lt (fun h => run_sequence (held_request h))) (qs_held s') ->
  queue_ok limit s'.
Proof.
  intros [Hix Hpl] Hn Ha Hm Hi HL HL' Hk Hid Hb Hq Hh.
  assert (Hseq : run_sequence r' = run_sequence r) by (unfold identity_of in Hid; congruence).
  split.
  - refine (indexed_move _ _ _ s _ _ _ _ _ _ Hix); [done|done|done| |].
    + cbn [app]. rewrite HL, HL'. cbn [app fmap list_fmap]. by rewrite Hk.
    + intros x Hx. cbn [app] in *. rewrite HL' in Hx. setoid_rewrite HL.
      apply elem_of_cons in Hx as [->|Hx]; [exists r|exists x]; (split; [set_solver|done]).
  - apply (placed_sub s); [done|exact Hpl| |done|done|].
    + exists []. rewrite HL, HL'. cbn. by rewrite Hseq.
    + intros x Hx. rewrite HL' in Hx. apply elem_of_cons in Hx as [->|Hx]; [done|].
      apply (pl_bytes _ Hpl). rewrite HL. by right.
Qed.

Lemma release_payload_ok run_id s : queue_ok limit s -> queue_ok limit (release_active_payload run_id s).
Proof.
  intros Hok. unfold release_active_payload. destruct (qs_active s) as [[r e]|] eqn:Ha; [|done].
  destruct (_ =?s _); [|done].
  apply (replace_ok s _ (waiting s) r (r <| run_payload := VNull |> <| run_payload_bytes := 0 |>));
    try done; try apply Hok.
  unfold live, active_run. by rewrite Ha.
Qed.

Lemma park_ok boundary now s rows s' :
  queue_ok limit s -> park_stale q boundary now s = (rows, s') -> queue_ok limit s'.
Proof.
  intros Hok. unfold park_stale. destruct (park_rows _ _ _ _) as [held kept] eqn:Ep.
  apply park_rows_perm in Ep as (HP & Hk & _ & _). intros [= <- <-].
  match goal with |- queue_ok _ ?x => set (s' := x) end.
  assert (HW : waiting s' ≡ₚ waiting s).
  { unfold waiting. cbn. rewrite (Permutation_map held_request (sort_by_key_perm _ _)).
    by rewrite List.map_app, <- app_assoc, HP. }
  assert (HL : live s' ≡ₚ live s) by (unfold live; by rewrite HW).
  destruct Hok as [Hix Hpl]. split.
  - refine (indexed_perm _ _ _ s _ _ _ _ _ Hix); [done|done|done|]. cbn [app]. by rewrite HL.
  - apply (placed_sub s); [done|exact Hpl|exists []; cbn [app]; by rewrite HL| | |].
    + cbn. rewrite Hk. apply strict_filter, Hpl.
    + cbn. apply sort_strict. pose proof (placed_queued_seqs _ Hpl) as Hnd. rewrite <- HW in Hnd.
      unfold waiting in Hnd. cbn in Hnd. rewrite sort_by_key_perm, fmap_app in Hnd.
      apply NoDup_app in Hnd as (Hnd & _). rewrite <- list_fmap_compose in Hnd. exact Hnd.
    + intros x. rewrite HL. apply Hpl.
Qed.

Lemma release_held_ok run_id now s r s' :
  queue_ok limit s -> release_held run_id now s = inr (r, s') -> queue_ok limit s'.
Proof.
  intros Hok E. apply release_held_inv in E as (pre & h & post & bf & bh & Hh & -> & _ & Hq & Hbf & Hbh & ->).
  set (r := (held_request h) <| run_accepted_at := to_rfc3339 now |>) in *.
  assert (HW : waiting s ≡ₚ held_request h :: (List.map held_request (pre ++ post) ++ bf ++ bh)).
  { unfold waiting. rewrite Hh, Hq, !List.map_app. cbn. by rewrite <- Permutation_middle. }
  pose proof (placed_queued_seqs _ (proj2 Hok)) as Hnd. rewrite HW in Hnd. cbn in Hnd.
  apply NoDup_cons in Hnd as [Hnd _]. rewrite !fmap_app, !elem_of_app in Hnd.
  apply (replace_ok s _ (active_run s ++ List.map held_request (pre ++ post) ++ bf ++ bh)
           (held_request h) r); try done.
  - unfold live. rewrite HW. by rewrite <- Permutation_middle.
  - unfold live, waiting. cbn. change (active_run _) with (active_run s).
    generalize (active_run s). intros act. by rewrite <- !Permutation_middle.
  - apply (pl_bytes _ (proj2 Hok) (held_request h)). unfold live. rewrite HW, elem_of_app. right. left.
  - pose proof (pl_queued _ (proj2 Hok)) as Hs. rewrite Hq, strict_app in Hs. destruct Hs as (S1 & S2 & S3).
    assert (Hlt : forall x, x ∈ bf -> run_sequence x < run_sequence r).
    { intros x Hx. specialize (Hbf x (proj1 (list_elem_of_In _ _) Hx)).
      assert (run_sequence x <> run_sequence r); [|lia]. intros He. apply Hnd. right. left.
      change (run_sequence (held_request h)) with (run_sequence r). rewrite <- He.
      by apply list_elem_of_fmap_2. }
    cbn. apply strict_app. split; [done|]. split.
    + constructor; [done|]. apply Forall_forall. intros x Hx. unfold key_lt.
      destruct bh as [|y bh]; [by apply elem_of_nil in Hx|].
      apply StronglySorted_inv in S2 as [_ S2]. rewrite Forall_forall in S2. unfold key_lt in S2.
      apply elem_of_cons in Hx as [->|Hx]; [done|]. specialize (S2 x Hx). lia.
    + intros x y Hx Hy. apply elem_of_cons in Hy as [->|Hy]; auto.
  - pose proof (pl_held _ (proj2 Hok)) as Hs. rewrite Hh in Hs. by apply strict_remove in Hs.
Qed.

Lemma run_op_ok op g s o g' s' :
  queue_ok limit s -> run_op q op g s = (o, g', s') -> queue_ok limit s'.
Proof.
  intros Hok. destruct op; cbn [run_op].
  - destruct (accept _ _ _ _ _ _ _ _ _) as [e|[[ack g1] s1]] eqn:E; intros [= <- <- <-]; [done|].
    by eapply accept_ok.
  - destruct (supersede _ _ _ _ _ _ _ _) as [e|[[[[ack rs] a] g1] s1]] eqn:E; intros [= <- <- <-]; [done|].
    by eapply supersede_ok.
  - destruct (start_next _ _ _) as [e|[[[r ack] g1] s1]] eqn:E; intros [= <- <- <-]; [done|].
    by eapply start_ok.
  - destruct (drain_coalescing_after_first _ _ _) as [[rs g1] s1] eqn:E. intros [= <- <- <-].
    by eapply drain_ok.
  - destruct (finish_active _ _ _) as [e|s1] eqn:E; intros [= <- <- <-]; [done|]. by eapply finish_ok.
  - intros [= <- <- <-]. by apply release_payload_ok.
  - destruct (cancel_queued _ _ _ _ _) as [e|[[r g1] s1]] eqn:E; intros [= <- <- <-]; [done|].
    by eapply cancel_ok.
  - destruct (cancel_all_queued _ _ _ _) as [[rs g1] s1] eqn:E. intros [= <- <- <-].
    by eapply cancel_all_ok.
  - destruct (park_stale _ _ _ _) as [rows s1] eqn:E. intros [= <- <- <-]. by eapply park_ok.
  - destruct (release_held _ _ _) as [e|[r s1]] eqn:E; intros [= <- <- <-]; [done|].
    by eapply release_held_ok.
Qed.
End Preservation.
