(* ===== verification/RunQueueSpec.v ===== *)
(** The run queue as one line: the abstract specification of the session queue
    and the proof that every operation refines it.

    A client sees one list of rows in the order they were accepted, some of
    them parked.  The queue stores two lists, [qs_queued] and [qs_held]; this
    file shows that together they behave as that one list.  The abstract line also has
    the bytes that wait, the next sequence number and the newest verdicts on
    ended rows; it admits a row only within the queue's limits, and says why it
    refuses an operation. *)
From S2P Require Import Prelude Json RunQueue RunQueueProps.

(** * The line

    The active run, the rows in acceptance order, the verdicts remembered about
    the runs that ended (the oldest first), the bytes the queue reports and the
    next sequence number. *)
Record Row := mkRow { row_run : ScheduledRunRequest; row_parked : option ParkReason }.
Record Line := mkLine {
  line_active : option (ScheduledRunRequest * u64);
  line_rows : list Row;
  line_done : list TerminalRunAck;
  line_bytes : usize;
  line_next : u64
}.
#[export] Instance eta_Line : Eta Line := fun L =>
  mkLine (line_active L) (line_rows L) (line_done L) (line_bytes L) (line_next L).

Definition row_sequence (r : Row) : Z := run_sequence (row_run r).
Definition parked (r : Row) : bool := match row_parked r with Some _ => true | None => false end.
Definition startable (r : Row) : bool := negb (parked r).
Definition queued_row (r : ScheduledRunRequest) : Row := mkRow r None.
Definition held_row (h : HeldRun) : Row := mkRow (held_request h) (Some (held_why h)).

Definition rows (s : QueueState) : list Row :=
  List.map held_row (qs_held s) ++ List.map queued_row (qs_queued s).
Definition line_of (s : QueueState) : Line :=
  mkLine (qs_active s) (sort_by_key row_sequence (rows s)) (qs_terminal_acks s) (qs_queued_bytes s)
    (qs_next_sequence s).

(** A run that ends leaves a verdict; the newest verdicts are kept. *)
Definition run_verdict (state reason : string) (r : ScheduledRunRequest) : TerminalRunAck :=
  mkTerminal (run_run_id r) (run_sequence r) (run_client_request_id r) state reason.
Definition settle (q : InMemoryRunQueue) (state reason : string) (rs : list ScheduledRunRequest)
    (L : Line) : Line :=
  L <| line_done ::= fun verdicts =>
         keep_last (Z.to_nat (q_recent_ack_limit q)) (verdicts ++ List.map (run_verdict state reason) rs) |>.

(** The run ids and client request ids the line knows. *)
Definition line_keys (L : Line) : list (string * string) :=
  match line_active L with Some (r, _) => [run_key r] | None => [] end
  ++ List.map (fun r => run_key (row_run r)) (line_rows L) ++ List.map term_key (line_done L).
Definition taken (L : Line) (run_id : string) : Prop := In run_id (List.map fst (line_keys L)).
Definition known (L : Line) (client : string) : Prop := In client (List.map snd (line_keys L)).

(** Joining at the back. *)
Definition join_line (r : ScheduledRunRequest) (bytes : usize) (L : Line) : Line :=
  L <| line_rows ::= fun rs => rs ++ [queued_row r] |> <| line_bytes := bytes |>
    <| line_next := line_next L + 1 |>.
Definition may_join (q : InMemoryRunQueue) (r : ScheduledRunRequest) (L : Line) : Prop :=
  run_payload_bytes r <= q_max_request_bytes q /\ ~ known L (run_client_request_id r)
  /\ ~ taken L (run_run_id r) /\ unsafe_run_id (run_run_id r) = false
  /\ line_next L + 1 <= u64_max /\ (forall x, In x (line_rows L) -> row_sequence x < run_sequence r).
(** Leaving gives the row's bytes back. *)
Definition give_back (rs : list ScheduledRunRequest) (L : Line) : Line :=
  L <| line_bytes ::= fun b => List.fold_left (fun b r => usize_sat_sub b (run_payload_bytes r)) rs b |>.

(** Parking sets a mark in place; releasing clears it in place and restarts the
    row's clock. *)
Definition park_row `{RunEnv} (q : InMemoryRunQueue) (boundary : QueueBoundary) (now : Z) (r : Row) : Row :=
  match row_parked r with
  | Some _ => r
  | None => mkRow (row_run r) (park_reason q boundary now (row_run r))
  end.
Definition newly_parked `{RunEnv} (q : InMemoryRunQueue) (boundary : QueueBoundary) (now : Z) (r : Row)
  : option ParkedRun :=
  match row_parked r with
  | Some _ => None
  | None => option_map (mkParked (run_run_id (row_run r))) (park_reason q boundary now (row_run r))
  end.
Definition in_runs (l : list ScheduledRunRequest) (r : Row) : bool :=
  List.existsb (is_run (run_run_id (row_run r))) l.

(** What may be folded into the front: the longest run of opted-in requests
    behind it whose payloads fit beside the front's in one request. *)
Definition sum_bytes (l : list ScheduledRunRequest) : Z :=
  List.fold_right (fun r a => run_payload_bytes r + a) 0 l.
Definition folds (q : InMemoryRunQueue) (front : ScheduledRunRequest)
    (folded rest : list ScheduledRunRequest) : Prop :=
  let room := usize_sat_sub (q_max_request_bytes q) (run_payload_bytes front) in
  (forall r, In r folded -> coalesces (run_busy_policy front) = true /\ coalesces (run_busy_policy r) = true)
  /\ sum_bytes folded <= room
  /\ match rest with
     | [] => True
     | r :: _ => coalesces (run_busy_policy front) = false \/ coalesces (run_busy_policy r) = false
                 \/ room < sum_bytes folded + run_payload_bytes r
     end.

(** When an operation may be refused, and how. *)
Definition submission_refused `{RunEnv} (q : InMemoryRunQueue) (fresh c : string) (rid : option string)
    (policy : BusyPolicy) (payload : Value) (e : RunQueueError) (L : Line) : Prop :=
  match e with
  | MissingClientRequestId => trim c = ""
  | DuplicateRequestConflict c' => c' = c /\ known L c
  | RequestTooLarge n m => n = len (to_vec payload) /\ m < n /\ m <= q_max_request_bytes q
  | QueueFull n => policy <> SupersedeSession /\ n = q_capacity q /\ n <= count startable (line_rows L)
  | QueueBytesExceeded n m => policy <> SupersedeSession /\ m = q_max_queue_bytes q
      /\ n = u64_sat_add (line_bytes L) (len (to_vec payload)) /\ m < n
  | InvalidRunId id => id = choose_run_id fresh rid /\ unsafe_run_id id = true
  | DuplicateRunId id => id = choose_run_id fresh rid /\ taken L id
  | SequenceExhausted => u64_max < line_next L + 1
  | GlobalQueueFull n => n = gb_max_count (q_global_budget q)
  | GlobalQueueBytesExceeded n m => m = gb_max_bytes (q_global_budget q) /\ m < n
  | _ => False
  end.
Definition op_refused `{RunEnv} (q : InMemoryRunQueue) (op : QueueOp) (e : RunQueueError) (L : Line) : Prop :=
  match op with
  | OpAccept fresh _ c rid policy payload =>
      (e = SupersedeRequiresSessionOperation /\ policy = SupersedeSession)
      \/ submission_refused q fresh c rid policy payload e L
  | OpSupersede fresh _ c rid payload => submission_refused q fresh c rid SupersedeSession payload e L
  | OpStart _ =>
      match line_active L with
      | Some (r, _) => e = ActiveRunExists (run_run_id r)
      | None => e = QueueEmpty /\ List.filter startable (line_rows L) = []
      end
  | OpFinish run_id =>
      let running := option_map (fun a => run_run_id (fst a)) (line_active L) in
      e = RunNotActive running run_id /\ running <> Some run_id
  | OpCancel run_id _ =>
      e = RunNotQueued run_id /\ forall r, In r (line_rows L) -> run_run_id (row_run r) <> run_id
  | OpReleaseHeld run_id _ =>
      e = RunNotQueued run_id
      /\ forall r, In r (line_rows L) -> parked r = true -> run_run_id (row_run r) <> run_id
  | _ => False
  end.

Inductive line_step `{RunEnv} (q : InMemoryRunQueue) : QueueOp -> Outcome -> Line -> Line -> Prop :=
| line_refused op e L : op_refused q op e L -> line_step q op (Refused e) L L
| line_known fresh now c rid policy payload ack L :
    In (ack_run_id ack, c) (line_keys L) -> ack_accepted_state ack = AckExisting ->
    line_step q (OpAccept fresh now c rid policy payload) (Accepted ack) L L
| line_known_supersede fresh now c rid payload ack L :
    In (ack_run_id ack, c) (line_keys L) -> ack_accepted_state ack = AckExisting ->
    line_step q (OpSupersede fresh now c rid payload) (Replaced ack [] None) L L
| line_accept fresh now c rid policy payload L :
    let r := new_request q fresh now c rid policy payload (line_next L) in
    let n := count startable (line_rows L) in
    let bytes := u64_sat_add (line_bytes L) (run_payload_bytes r) in
    policy <> SupersedeSession -> may_join q r L -> n < q_capacity q -> bytes <= q_max_queue_bytes q ->
    line_step q (OpAccept fresh now c rid policy payload)
      (Accepted (ack_queued (run_run_id r) (line_next L) (n + 1))) L (join_line r bytes L)
| line_supersede fresh now c rid payload L :
    let r := new_request q fresh now c rid SupersedeSession payload (line_next L) in
    let gone := List.map row_run (List.filter startable (line_rows L)) in
    may_join q r L -> run_payload_bytes r <= q_max_queue_bytes q ->
    line_step q (OpSupersede fresh now c rid payload)
      (Replaced (ack_queued (run_run_id r) (line_next L) 1) gone
         (option_map (fun a => run_run_id (fst a)) (line_active L)))
      L (join_line r (run_payload_bytes r)
           (settle q "cancelled" "superseded" gone (L <| line_rows ::= List.filter parked |>)))
| line_start epoch r pre post L :
    line_active L = None -> line_rows L = pre ++ queued_row r :: post ->
    (forall x, In x pre -> parked x = true) ->
    line_step q (OpStart epoch)
      (Started r (mkRunAck (run_run_id r) epoch AckRunning (Some (run_sequence r)) None))
      L (give_back [r] (L <| line_active := Some (r, epoch) |> <| line_rows := pre ++ post |>))
| line_drain front folded rest L :
    List.filter startable (line_rows L) = queued_row front :: List.map queued_row (folded ++ rest) ->
    folds q front folded rest ->
    line_step q OpDrain (Removed folded) L
      (settle q "terminal" "merged" folded
         (give_back folded (L <| line_rows ::= List.filter (fun r => negb (in_runs folded r)) |>)))
| line_drain_none L : List.filter startable (line_rows L) = [] -> line_step q OpDrain (Removed []) L L
| line_finish r epoch L :
    line_active L = Some (r, epoch) ->
    line_step q (OpFinish (run_run_id r)) Done L
      (settle q "terminal" "settled" [r] (L <| line_active := None |>))
| line_release_payload r epoch L :
    line_active L = Some (r, epoch) ->
    line_step q (OpReleasePayload (run_run_id r)) Done L
      (L <| line_active := Some (r <| run_payload := VNull |> <| run_payload_bytes := 0 |>, epoch) |>)
| line_release_payload_other run_id L :
    match line_active L with Some (r, _) => run_run_id r <> run_id | None => True end ->
    line_step q (OpReleasePayload run_id) Done L L
| line_cancel r reason pre post L :
    line_rows L = pre ++ r :: post ->
    line_step q (OpCancel (run_run_id (row_run r)) reason) (Removed [row_run r]) L
      (settle q "cancelled" (cancellation_as_str reason) [row_run r]
         (give_back [row_run r] (L <| line_rows := pre ++ post |>)))
| line_cancel_all reason L :
    line_step q (OpCancelAll reason) (Removed (List.map row_run (line_rows L))) L
      (settle q "cancelled" (cancellation_as_str reason) (List.map row_run (line_rows L))
         (L <| line_rows := [] |> <| line_bytes := 0 |>))
| line_park boundary now L :
    line_step q (OpPark boundary now) (Parked (omap (newly_parked q boundary now) (line_rows L))) L
      (L <| line_rows ::= List.map (park_row q boundary now) |>)
| line_release r why now pre post L :
    line_rows L = pre ++ mkRow r (Some why) :: post ->
    let r' := r <| run_accepted_at := to_rfc3339 now |> in
    line_step q (OpReleaseHeld (run_run_id r) now) (Released r') L
      (L <| line_rows := pre ++ queued_row r' :: post |>).

(** * The two lists and the line *)
Lemma filter_all {A} (p : A -> bool) l : (forall x, In x l -> p x = true) -> List.filter p l = l.
Proof.
  induction l as [|x l IH]; [done|]. rewrite forall_in_cons. intros [Hx Hl]. cbn.
  by rewrite Hx, IH.
Qed.
Lemma filter_none {A} (p : A -> bool) l : (forall x, In x l -> p x = false) -> List.filter p l = [].
Proof. apply filter_nil_iff. Qed.

Lemma rows_sequences s : List.map row_sequence (rows s) = List.map run_sequence (waiting s).
Proof. unfold rows, waiting. by rewrite !List.map_app, !List.map_map. Qed.

Section LineFacts.
Context (limit : Z) (s : QueueState) (Hok : queue_ok limit s).

Lemma rows_distinct : NoDup (row_sequence <$> rows s).
Proof.
  change (NoDup (List.map row_sequence (rows s))). rewrite rows_sequences.
  exact (placed_queued_seqs _ (proj2 Hok)).
Qed.
Lemma line_sorted : StronglySorted (key_lt row_sequence) (line_rows (line_of s)).
Proof. apply sort_strict, rows_distinct. Qed.
Lemma line_perm : line_rows (line_of s) ≡ₚ rows s.
Proof. apply sort_by_key_perm. Qed.
Lemma in_line r : In r (line_rows (line_of s)) <-> In r (rows s).
Proof. rewrite <- !list_elem_of_In. by rewrite line_perm. Qed.

Lemma filter_line p l : StronglySorted (key_lt row_sequence) l ->
  List.filter p (rows s) ≡ₚ l -> List.filter p (line_rows (line_of s)) = l.
Proof.
  intros Hs HP. transitivity (sort_by_key row_sequence (List.filter p (rows s))).
  - symmetry. apply sort_unique; [apply strict_filter, line_sorted|].
    apply filter_perm, line_perm.
  - by apply sort_unique.
Qed.
Lemma startable_line : List.filter startable (line_rows (line_of s)) = List.map queued_row (qs_queued s).
Proof.
  apply filter_line.
  - apply (strict_map run_sequence); [done|apply Hok].
  - unfold rows. rewrite List.filter_app, filter_none, filter_all; [done| |].
    + intros x Hx. by apply in_map_iff in Hx as (y & <- & _).
    + intros x Hx. by apply in_map_iff in Hx as (y & <- & _).
Qed.
Lemma parked_line : List.filter parked (line_rows (line_of s)) = List.map held_row (qs_held s).
Proof.
  apply filter_line.
  - apply (strict_map (fun h => run_sequence (held_request h))); [done|apply Hok].
  - unfold rows. rewrite List.filter_app, filter_all, filter_none; [by rewrite app_nil_r| |].
    + intros x Hx. by apply in_map_iff in Hx as (y & <- & _).
    + intros x Hx. by apply in_map_iff in Hx as (y & <- & _).
Qed.
Lemma below_next r : In r (line_rows (line_of s)) -> row_sequence r < qs_next_sequence s.
Proof.
  rewrite in_line. intros Hr.
  assert (Hin : In (row_sequence r) (List.map run_sequence (waiting s)))
    by (rewrite <- rows_sequences; by apply in_map).
  apply in_map_iff in Hin as (x & <- & Hx). apply (pl_below _ (proj2 Hok)).
  unfold live. rewrite elem_of_app. right. by apply list_elem_of_In.
Qed.
(** A row of the line can be pulled out of it. *)
Lemma line_split r : In r (rows s) ->
  exists pre post, line_rows (line_of s) = pre ++ r :: post
    /\ StronglySorted (key_lt row_sequence) (pre ++ r :: post).
Proof.
  intros Hr. apply in_line, in_split in Hr as (pre & post & E). exists pre, post.
  split; [done|]. rewrite <- E. apply line_sorted.
Qed.
(** Run ids and sequences are distinct, so a row is found by its run id. *)
Lemma live_ids_distinct : NoDup (run_run_id <$> live s).
Proof.
  destruct (proj1 Hok) as [[H _ _ _] _ _ _]. cbn [app] in H. rewrite fmap_app in H.
  apply NoDup_app in H as (H & _). by rewrite <- list_fmap_compose in H.
Qed.
Lemma rows_by_id r r' : In r (rows s) -> In r' (rows s) ->
  run_run_id (row_run r) = run_run_id (row_run r') -> row_run r = row_run r'.
Proof.
  assert (Hw : forall x, In x (rows s) -> row_run x ∈ waiting s).
  { intros x Hx. apply list_elem_of_In. assert (List.map row_run (rows s) = waiting s) as <-.
    { unfold rows, waiting. rewrite List.map_app, !List.map_map. cbn. by rewrite List.map_id. }
    by apply in_map. }
  intros Hr Hr' He. pose proof live_ids_distinct as Hnd. unfold live in Hnd.
  rewrite fmap_app in Hnd. apply NoDup_app in Hnd as (_ & _ & Hnd).
  apply Hw in Hr, Hr'. apply list_elem_of_lookup in Hr as (i & Hi), Hr' as (j & Hj).
  assert (i = j); [|congruence].
  apply (NoDup_lookup _ i j (run_run_id (row_run r)) Hnd); rewrite list_lookup_fmap.
  - by rewrite Hi.
  - by rewrite Hj, He.
Qed.
End LineFacts.

(** * What the line knows *)
Section Known.
Context (limit : Z) (s : QueueState) (Hok : queue_ok limit s).

Lemma line_keys_perm :
  line_keys (line_of s) ≡ₚ (run_key <$> live s) ++ (term_key <$> qs_terminal_acks s).
Proof.
  unfold line_keys. cbn [line_of line_active line_rows line_done].
  rewrite (Permutation_map (fun r => run_key (row_run r)) (sort_by_key_perm _ _)).
  unfold live, active_run, rows, waiting. rewrite List.map_app, !List.map_map, !fmap_app. cbn.
  rewrite <- list_fmap_compose. by destruct (qs_active s) as [[? ?]|]; rewrite <- !app_assoc.
Qed.
Lemma in_line_keys k :
  In k (line_keys (line_of s)) <-> k ∈ (run_key <$> live s) ++ (term_key <$> qs_terminal_acks s).
Proof. rewrite <- list_elem_of_In. by rewrite line_keys_perm. Qed.
Lemma taken_iff id : taken (line_of s) id <-> id ∈ qs_run_ids s.
Proof.
  unfold taken. rewrite <- list_elem_of_In, (Permutation_map fst line_keys_perm).
  symmetry. apply (ix_run_ids _ _ _ (in_index _ _ _ (proj1 Hok))).
Qed.
Lemma known_iff c : known (line_of s) c <-> is_Some (qs_requests s !! c).
Proof.
  unfold known. rewrite <- list_elem_of_In, (Permutation_map snd line_keys_perm).
  symmetry. apply (ix_requests _ _ _ (in_index _ _ _ (proj1 Hok))).
Qed.
(** A client request id leads to its own run. *)
Lemma identity_known c i : qs_requests s !! c = Some i -> In (id_run_id i, c) (line_keys (line_of s)).
Proof.
  intros Hi. apply in_line_keys.
  assert (Hc : known (line_of s) c) by (apply known_iff; by eexists).
  unfold known in Hc. apply in_map_iff in Hc as ([id c'] & Ec & Hin). cbn in Ec. subst c'.
  apply in_line_keys in Hin. rewrite elem_of_app in Hin |- *. destruct Hin as [Hin|Hin].
  - left. apply list_elem_of_fmap in Hin as (r & Er & Hr). injection Er as -> ->.
    rewrite (in_identity _ _ _ (proj1 Hok) r Hr) in Hi. injection Hi as <-. apply list_elem_of_fmap. by exists r.
  - right. apply list_elem_of_fmap in Hin as (t & Et & Ht). injection Et as -> ->.
    destruct (in_verdicts _ _ _ (proj1 Hok) t Ht) as (d & Hd). rewrite Hd in Hi. injection Hi as <-.
    apply list_elem_of_fmap. by exists t.
Qed.
End Known.

(** * Verdicts *)
Lemma evict_keeps limit acks m ids : 0 <= limit ->
  (evict limit acks m ids).1.1 = keep_last (Z.to_nat limit) acks.
Proof.
  intros Hl. unfold keep_last. revert m ids.
  induction acks as [|t acks IH]; intros m ids; cbn [evict List.length]; [by rewrite drop_nil|].
  unfold len. cbn [List.length]. destruct (Z.ltb_spec limit (Z.of_nat (S (List.length acks)))).
  - rewrite IH. by replace (S (List.length acks) - Z.to_nat limit)%nat
      with (S (List.length acks - Z.to_nat limit)) by lia.
  - by replace (S (List.length acks) - Z.to_nat limit)%nat with 0%nat by lia.
Qed.
Lemma keep_last_idemp {A} n (l : list A) : keep_last n (keep_last n l) = keep_last n l.
Proof.
  pose proof (keep_last_length n l). unfold keep_last at 1.
  by replace (List.length (keep_last n l) - n)%nat with 0%nat by lia.
Qed.
Lemma keep_last_app {A} n (a b : list A) : keep_last n (keep_last n a ++ b) = keep_last n (a ++ b).
Proof.
  revert a. induction b as [|x b IH]; intros a; [rewrite !app_nil_r; apply keep_last_idemp|].
  change (x :: b) with ([x] ++ b). rewrite !app_assoc, <- (IH (_ ++ [x])), keep_last_snoc. apply IH.
Qed.
Lemma remember_all_verdicts limit st why rs s : len (qs_terminal_acks s) <= limit ->
  qs_terminal_acks (remember_all limit st why rs s)
  = keep_last (Z.to_nat limit) (qs_terminal_acks s ++ List.map (run_verdict st why) rs).
Proof.
  intros Hl. assert (H0 : 0 <= limit) by (pose proof (len_nonneg (qs_terminal_acks s)); lia).
  revert s Hl. unfold remember_all. induction rs as [|r rs IH]; intros s Hl.
  - cbn. rewrite app_nil_r. unfold keep_last, len in *.
    by replace (_ - _)%nat with 0%nat by lia.
  - cbn [List.fold_left List.map].
    assert (E : qs_terminal_acks (remember_terminal limit st why s r)
                = keep_last (Z.to_nat limit) (qs_terminal_acks s ++ [run_verdict st why r])).
    { unfold remember_terminal. rewrite <- (evict_keeps _ _ (qs_requests s) (qs_run_ids s)) by done.
      unfold run_verdict. by destruct (evict _ _ _ _) as [[a m] i]. }
    rewrite IH, E; [by rewrite keep_last_app, <- app_assoc|]. rewrite E.
    pose proof (keep_last_length (Z.to_nat limit) (qs_terminal_acks s ++ [run_verdict st why r])).
    unfold len. lia.
Qed.

(** * Refinement *)
Lemma line_step_to `{RunEnv} q op o L L' s' :
  line_step q op o L L' ->
  line_active L' = qs_active s' -> StronglySorted (key_lt row_sequence) (line_rows L') ->
  line_rows L' ≡ₚ rows s' -> line_done L' = qs_terminal_acks s' -> line_bytes L' = qs_queued_bytes s' ->
  line_next L' = qs_next_sequence s' -> line_step q op o L (line_of s').
Proof.
  destruct L' as [a l d b n]. cbn. intros Hst -> Hs HP -> -> ->. unfold line_of.
  by rewrite (sort_unique row_sequence l (rows s') Hs HP).
Qed.
(** The same for a state that remembers the verdicts of the rows [rs]. *)
Lemma line_step_settled `{RunEnv} q op o L L' st why rs s1 :
  line_step q op o L (settle q st why rs L') -> len (qs_terminal_acks s1) <= q_recent_ack_limit q ->
  line_active L' = qs_active s1 -> StronglySorted (key_lt row_sequence) (line_rows L') ->
  line_rows L' ≡ₚ rows s1 -> line_done L' = qs_terminal_acks s1 -> line_bytes L' = qs_queued_bytes s1 ->
  line_next L' = qs_next_sequence s1 ->
  line_step q op o L (line_of (remember_all (q_recent_ack_limit q) st why rs s1)).
Proof.
  intros Hst Hl Ha Hs HP Hd Hb Hn.
  pose proof (remember_all_frame (q_recent_ack_limit q) st why rs s1) as (F1 & F2 & F3 & F4 & F5).
  cbn zeta in *. eapply line_step_to; [exact Hst|..]; cbn.
  - by rewrite F2.
  - done.
  - rewrite HP. unfold rows. by rewrite F3, F4.
  - by rewrite remember_all_verdicts, Hd.
  - by rewrite F5.
  - by rewrite F1.
Qed.
Lemma count_startable limit s : queue_ok limit s ->
  count startable (line_rows (line_of s)) = len (qs_queued s).
Proof.
  intros Hok. unfold count, len. rewrite (startable_line _ _ Hok), length_map. done.
Qed.
Lemma rows_enqueue s r qb n :
  rows (enqueue r qb (s <| qs_next_sequence := n |>)) = rows s ++ [queued_row r].
Proof. unfold rows, enqueue. cbn. by rewrite List.map_app, app_assoc. Qed.
Lemma existing_ack_fields s identity :
  ack_run_id (existing_ack s identity) = id_run_id identity
  /\ ack_run_sequence (existing_ack s identity) = Some (id_run_sequence identity)
  /\ ack_accepted_state (existing_ack s identity) = AckExisting.
Proof.
  unfold existing_ack. cbn zeta.
  destruct (position _ _); destruct (qs_active s) as [[r e]|]; try destruct (_ =?s _); done.
Qed.
Lemma omap_filter_startable `{RunEnv} q boundary now l :
  omap (newly_parked q boundary now) (List.filter startable l) = omap (newly_parked q boundary now) l.
Proof.
  induction l as [|r l IH]; [done|]. cbn. unfold startable at 1, parked.
  destruct (row_parked r) eqn:Er; cbn; rewrite IH; [|done].
  unfold newly_parked at 2. by rewrite Er.
Qed.
Lemma park_rows_parked `{RunEnv} q boundary now rs held kept :
  park_rows q boundary now rs = (held, kept) ->
  List.map (fun h => mkParked (run_run_id (held_request h)) (held_why h)) held
    = omap (newly_parked q boundary now) (List.map queued_row rs)
  /\ List.map held_row held ++ List.map queued_row kept
     ≡ₚ List.map (park_row q boundary now) (List.map queued_row rs).
Proof.
  revert held kept. induction rs as [|r rs IH]; intros held kept; cbn; [by intros [= <- <-]|].
  destruct (park_rows _ _ _ _) as [h k]. destruct (IH h k eq_refl) as (A & B).
  change (newly_parked q boundary now (queued_row r))
    with (option_map (mkParked (run_run_id r)) (park_reason q boundary now r)).
  change (park_row q boundary now (queued_row r)) with (mkRow r (park_reason q boundary now r)).
  destruct (park_reason q boundary now r); intros [= <- <-]; cbn.
  - split; [by f_equal|]. by rewrite B.
  - split; [done|]. by rewrite <- Permutation_middle, B.
Qed.

Lemma coalescing_count_spec remaining rs : 0 <= remaining ->
  (forall r, In r rs -> 0 <= run_payload_bytes r) ->
  let folded := take (coalescing_count remaining rs) rs in
  let rest := drop (coalescing_count remaining rs) rs in
  (forall r, In r folded -> coalesces (run_busy_policy r) = true)
  /\ sum_bytes folded <= remaining
  /\ match rest with
     | [] => True
     | r :: _ => coalesces (run_busy_policy r) = false \/ remaining < sum_bytes folded + run_payload_bytes r
     end.
Proof.
  revert remaining. induction rs as [|r rs IH]; intros remaining Hr Hb; [by cbn|].
  rewrite forall_in_cons in Hb. destruct Hb as [Hb0 Hb]. cbn [coalescing_count].
  destruct (coalesces (run_busy_policy r)) eqn:Ec; cbn [negb orb]; [|cbn; auto].
  destruct (Z.ltb_spec remaining (run_payload_bytes r)); [cbn; split; [done|]; split; [lia|right; lia]|].
  destruct (IH (remaining - run_payload_bytes r)) as (A & B & C); [lia|done|].
  cbn zeta in *. cbn [take drop]. set (f := take _ rs) in *. set (d := drop _ rs) in *.
  change (sum_bytes (r :: f)) with (run_payload_bytes r + sum_bytes f).
  split; [by intros x [<-|Hx]; auto|]. split; [lia|]. destruct d; [done|]. destruct C; [by left|right; lia].
Qed.

Section Refinement.
Context `{RunEnv} (q : InMemoryRunQueue) (s : QueueState).
Notation "'limit'" := (q_recent_ack_limit q) (only parsing).
Hypothesis Hok : queue_ok limit s.

Let L := line_of s.
Let rows_sorted : StronglySorted (key_lt row_sequence) (line_rows L) := line_sorted _ _ Hok.
Let rows_perm : line_rows L ≡ₚ rows s := line_perm s.
Let verdicts_fit : len (qs_terminal_acks s) <= limit := in_acks _ _ _ (proj1 Hok).

Lemma existing_known c i : qs_requests s !! c = Some i ->
  In (ack_run_id (existing_ack s i), c) (line_keys L) /\ ack_accepted_state (existing_ack s i) = AckExisting.
Proof.
  intros Hi. destruct (existing_ack_fields s i) as (-> & _ & ->). split; [|done].
  by eapply identity_known.
Qed.
Lemma joins_sorted (r : ScheduledRunRequest) l : StronglySorted (key_lt row_sequence) l ->
  (forall x, In x l -> row_sequence x < run_sequence r) ->
  StronglySorted (key_lt row_sequence) (l ++ [queued_row r]).
Proof. intros Hs Hl. apply strict_snoc; [done|]. intros y Hy. apply Hl. by apply list_elem_of_In. Qed.
Lemma may_join_intro r : run_payload_bytes r <= q_max_request_bytes q ->
  qs_requests s !! run_client_request_id r = None -> run_run_id r ∉ qs_run_ids s ->
  unsafe_run_id (run_run_id r) = false -> qs_next_sequence s + 1 <= u64_max ->
  run_sequence r = qs_next_sequence s -> may_join q r L.
Proof.
  intros Hb Hc Hid Hu Hn Hseq. unfold may_join, L.
  rewrite (known_iff _ _ Hok), (taken_iff _ _ Hok), Hc, Hseq. repeat split; try done.
  apply (below_next _ _ Hok).
Qed.

Lemma accept_refines fresh now c rid policy payload g ack g' s' :
  accept q fresh now c rid policy payload g s = inr (ack, g', s') ->
  line_step q (OpAccept fresh now c rid policy payload) (Accepted ack) L (line_of s').
Proof.
  intros E. apply accept_inv in E as [(i & Hi & _ & -> & _ & ->)|E].
  { apply existing_known in Hi as [? ?]. by apply line_known. }
  destruct E as (Hc & Hp & Hb & Hn & Hq & Hu & Hid & Hs & _ & -> & ->).
  assert (Hj := may_join_intro (new_request q fresh now c rid policy payload (qs_next_sequence s))
                  Hb Hc Hid Hu Hs eq_refl).
  rewrite <- (count_startable _ _ Hok) in Hn |- *.
  eapply line_step_to; [by apply (line_accept q fresh now c rid policy payload L)|done|..|done|done|done].
  - apply joins_sorted; [done|]. apply Hj.
  - rewrite rows_enqueue. apply Permutation_app_tail, rows_perm.
Qed.

Lemma supersede_refines fresh now c rid payload g ack cancelled act g' s' :
  supersede q fresh now c rid payload g s = inr (ack, cancelled, act, g', s') ->
  line_step q (OpSupersede fresh now c rid payload) (Replaced ack cancelled act) L (line_of s').
Proof.
  intros E. apply supersede_inv in E as [(i & Hi & _ & -> & -> & -> & _ & ->)|E].
  { apply existing_known in Hi as [? ?]. by apply line_known_supersede. }
  destruct E as (Hc & Hb & Hq & Hu & Hid & Hn & _ & -> & -> & -> & ->).
  assert (Hj := may_join_intro (new_request q fresh now c rid SupersedeSession payload (qs_next_sequence s))
                  Hb Hc Hid Hu Hn eq_refl).
  set (s0 := s <| qs_queued := [] |> <| qs_queued_bytes := 0 |>).
  set (s1 := remember_all _ _ _ _ s0).
  pose proof (remember_all_frame limit "cancelled" "superseded" (qs_queued s) s0) as (F1 & F2 & F3 & F4 & _).
  assert (F5 : qs_terminal_acks s1
    = keep_last (Z.to_nat limit) (qs_terminal_acks s ++ List.map (run_verdict "cancelled" "superseded") (qs_queued s)))
    by exact (remember_all_verdicts limit _ _ (qs_queued s) s0 verdicts_fit).
  cbn zeta in *. fold s1 in F1, F2, F3, F4.
  assert (Hgone : qs_queued s = List.map row_run (List.filter startable (line_rows L))).
  { unfold L. rewrite (startable_line _ _ Hok), List.map_map. symmetry. apply List.map_id. }
  rewrite Hgone. eapply line_step_to; [by apply (line_supersede q fresh now c rid payload L)|..].
  - cbn. by rewrite F2.
  - apply joins_sorted; [by apply strict_filter|]. intros x Hx.
    apply List.filter_In in Hx as [Hx _]. by apply Hj.
  - rewrite rows_enqueue. apply Permutation_app_tail.
    transitivity (List.map held_row (qs_held s)); [by rewrite <- (parked_line _ _ Hok)|].
    unfold rows. cbn. rewrite F3, F4. cbn. by rewrite app_nil_r.
  - cbn. rewrite F5. by rewrite Hgone.
  - done.
  - cbn. by rewrite F1.
Qed.

(** The front startable row has only parked rows before it. *)
Lemma front_split r rest : qs_queued s = r :: rest ->
  exists pre post, line_rows L = pre ++ queued_row r :: post
    /\ (forall x, In x pre -> parked x = true)
    /\ StronglySorted (key_lt row_sequence) (pre ++ post)
    /\ pre ++ post ≡ₚ List.map held_row (qs_held s) ++ List.map queued_row rest.
Proof.
  intros Hq. assert (Hin : In (queued_row r) (rows s)).
  { unfold rows. rewrite Hq. apply in_or_app. right. by left. }
  destruct (line_split _ _ Hok _ Hin) as (pre & post & EL & HS). change (line_of s) with L in EL.
  exists pre, post. split; [done|]. split; [|split; [by apply strict_remove in HS|]].
  - assert (Hf : List.filter startable (line_rows L) = queued_row r :: List.map queued_row rest)
      by (unfold L; by rewrite (startable_line _ _ Hok), Hq).
    intros x Hx. destruct (parked x) eqn:Ep; [done|]. exfalso.
    assert (Hx' : In x (List.filter startable (line_rows L))).
    { apply List.filter_In. split; [rewrite EL; apply in_or_app; by left|]. unfold startable. by rewrite Ep. }
    apply strict_app in HS as (_ & _ & HS). apply list_elem_of_In in Hx.
    specialize (HS x (queued_row r) Hx (list_elem_of_here _ _)).
    rewrite Hf in Hx'. destruct Hx' as [<-|Hx']; [lia|].
    pose proof (strict_filter row_sequence startable _ rows_sorted) as Hs. rewrite Hf in Hs.
    apply StronglySorted_inv in Hs as [_ Hs]. rewrite Forall_forall in Hs.
    apply list_elem_of_In in Hx'. specialize (Hs x Hx'). unfold key_lt in Hs. lia.
  - apply (Permutation_cons_inv (a := queued_row r)). rewrite Permutation_middle, <- EL, rows_perm.
    unfold rows. rewrite Hq. cbn. by rewrite Permutation_middle.
Qed.
Lemma start_refines epoch g r ack g' s' :
  start_next epoch g s = inr (r, ack, g', s') ->
  line_step q (OpStart epoch) (Started r ack) L (line_of s').
Proof.
  intros E. apply start_next_inv in E as (rest & Ha & Hq & -> & _ & ->).
  destruct (front_split r rest Hq) as (pre & post & EL & Hpre & Hs & HP).
  eapply line_step_to; [by eapply (line_start q epoch r pre post L)|done|done| |done|done|done].
  cbn. by rewrite HP.
Qed.

(** Folding takes exactly the folded rows out. *)
Lemma fold_rows front folded rest : qs_queued s = front :: folded ++ rest ->
  List.filter (fun r => negb (in_runs folded r)) (line_rows L)
  ≡ₚ List.map held_row (qs_held s) ++ List.map queued_row (front :: rest).
Proof.
  intros Hq. set (keep := fun r : Row => negb (in_runs folded r)).
  rewrite (filter_perm keep _ _ rows_perm). unfold rows. rewrite Hq.
  assert (Hseqs : NoDup (run_sequence <$> waiting s)) by exact (placed_queued_seqs _ (proj2 Hok)).
  assert (Hkeep : forall r, In r (rows s) -> row_run r ∉ folded -> keep r = true).
  { intros r Hr Hn. unfold keep, in_runs. rewrite negb_true_iff, existsb_false. intros x Hx.
    unfold is_run. apply String.eqb_neq. intros He. apply Hn.
    replace (row_run r) with x; [by apply list_elem_of_In|]. change x with (row_run (queued_row x)).
    apply (rows_by_id _ _ Hok); [|done|done]. unfold rows. apply in_or_app. right. apply in_map.
    rewrite Hq. right. apply in_or_app. by left. }
  assert (Hnd : NoDup (waiting s)) by (by apply NoDup_fmap_1 in Hseqs).
  unfold waiting in Hnd. rewrite Hq in Hnd.
  apply NoDup_app in Hnd as (_ & Hdis & Hnd). apply NoDup_cons in Hnd as [Hfr Hnd].
  rewrite elem_of_app in Hfr. apply NoDup_app in Hnd as (_ & Hfold & _).
  assert (Hrow : forall x, In x (qs_queued s) -> In (queued_row x) (rows s)).
  { intros x Hx. unfold rows. apply in_or_app. right. by apply in_map. }
  rewrite Hq in Hrow. rewrite List.filter_app. f_equiv.
  - rewrite filter_all; [done|]. intros x Hx. apply Hkeep.
    + unfold rows. apply in_or_app. by left.
    + apply in_map_iff in Hx as (h & <- & Hh). cbn. intros Hin.
      apply (Hdis (held_request h)); [apply list_elem_of_In; by apply in_map|].
      right. rewrite elem_of_app. by left.
  - cbn. rewrite Hkeep; [|apply Hrow; by left|naive_solver].
    f_equiv. rewrite List.map_app, List.filter_app, filter_none, filter_all; [done| |].
    + intros x Hx. apply in_map_iff in Hx as (y & <- & Hy). apply Hkeep.
      * apply Hrow. right. apply in_or_app. by right.
      * cbn. intros Hin. apply (Hfold y Hin). by apply list_elem_of_In.
    + intros x Hx. apply in_map_iff in Hx as (y & <- & Hy). unfold keep, in_runs.
      rewrite negb_false_iff. apply existsb_exists. exists y. split; [done|].
      unfold is_run. apply String.eqb_refl.
Qed.

Lemma drain_spec g front behind : qs_queued s = front :: behind ->
  exists folded rest, behind = folded ++ rest /\ folds q front folded rest
  /\ drain_coalescing_after_first q g s
     = (folded, release_each folded g, remember_all limit "terminal" "merged" folded
          (s <| qs_queued := front :: rest |>
             <| qs_queued_bytes := List.fold_left (fun b r => usize_sat_sub b (run_payload_bytes r))
                                     folded (qs_queued_bytes s) |>)).
Proof.
  intros Hq. unfold drain_coalescing_after_first. rewrite Hq.
  assert (Hs : (s <| qs_queued := front :: behind |> <| qs_queued_bytes := qs_queued_bytes s |>) = s)
    by (destruct s; cbn in *; by rewrite Hq).
  set (room := usize_sat_sub (q_max_request_bytes q) (run_payload_bytes front)).
  destruct (coalescing_count_spec room behind) as (A & B & C).
  { unfold room, usize_sat_sub. lia. }
  { intros r Hr. apply (pl_bytes _ (proj2 Hok)). unfold live, waiting. rewrite Hq, !elem_of_app. right. right.
    right. by apply list_elem_of_In. }
  cbn zeta in *. destruct (coalesces (run_busy_policy front)) eqn:Ec; cbn [negb].
  - set (n := coalescing_count room behind) in *. exists (take n behind), (drop n behind).
    split; [by rewrite take_drop|]. split.
    + split; [by auto|]. split; [done|]. destruct (drop n behind); [done|by right].
    + destruct (Nat.eqb_spec n 0) as [->|]; [|done]. rewrite take_0, drop_0.
      exact (f_equal (fun x => ([], g, x)) (eq_sym Hs)).
  - exists [], behind. split; [done|]. split; [|exact (f_equal (fun x => ([], g, x)) (eq_sym Hs))].
    split; [done|]. split; [cbn; unfold usize_sat_sub; lia|]. destruct behind; [done|by left].
Qed.
Lemma drain_refines g folded g' s' :
  drain_coalescing_after_first q g s = (folded, g', s') ->
  line_step q OpDrain (Removed folded) L (line_of s').
Proof.
  intros E. destruct (qs_queued s) as [|front behind] eqn:Hq.
  { unfold drain_coalescing_after_first in E. rewrite Hq in E. injection E as <- _ <-.
    apply line_drain_none. unfold L. by rewrite (startable_line _ _ Hok), Hq. }
  destruct (drain_spec g front behind Hq) as (f & rest & -> & Hf & E'). rewrite E' in E.
  injection E as <- _ <-.
  eapply line_step_settled; [eapply line_drain|..]; [|exact Hf|done|done| | |done|done|done].
  - unfold L. by rewrite (startable_line _ _ Hok), Hq.
  - by apply strict_filter.
  - exact (fold_rows front f rest Hq).
Qed.

Lemma finish_refines run_id s' :
  finish_active q run_id s = inr s' -> line_step q (OpFinish run_id) Done L (line_of s').
Proof.
  unfold finish_active. destruct (qs_active s) as [[r e]|] eqn:Ha; [|done].
  destruct (String.eqb_spec (run_run_id r) run_id) as [<-|]; [|done]. intros [= <-].
  change (remember_terminal ?l ?a ?b ?s ?r) with (remember_all l a b [r] s).
  by eapply line_step_settled; [by eapply line_finish|..].
Qed.

Lemma release_payload_refines run_id :
  line_step q (OpReleasePayload run_id) Done L (line_of (release_active_payload run_id s)).
Proof.
  unfold release_active_payload. destruct (qs_active s) as [[r e]|] eqn:Ha.
  - destruct (String.eqb_spec (run_run_id r) run_id) as [<-|Hne].
    + by eapply line_step_to; [by eapply line_release_payload|..].
    + apply line_release_payload_other. cbn. by rewrite Ha.
  - apply line_release_payload_other. cbn. by rewrite Ha.
Qed.

(** Taking a row out of one of the lists takes it out of the line. *)
Lemma cancel_line s1 r row run_id reason :
  rows s ≡ₚ row :: rows s1 -> row_run row = r -> run_run_id r = run_id ->
  qs_active s1 = qs_active s -> qs_terminal_acks s1 = qs_terminal_acks s ->
  qs_next_sequence s1 = qs_next_sequence s ->
  line_step q (OpCancel run_id reason) (Removed [r]) L
    (line_of (remember_all limit "cancelled" (cancellation_as_str reason) [r]
       (s1 <| qs_queued_bytes := usize_sat_sub (qs_queued_bytes s) (run_payload_bytes r) |>))).
Proof.
  intros HP <- <- Ha Hv Hn.
  assert (Hin : In row (rows s)) by (rewrite <- list_elem_of_In, HP; left).
  destruct (line_split _ _ Hok _ Hin) as (pre & post & EL & HS).
  eapply line_step_settled; [eapply line_cancel, EL|..]; cbn; rewrite ?Ha, ?Hv, ?Hn; try done.
  - by apply strict_remove in HS.
  - apply (Permutation_cons_inv (a := row)). by rewrite Permutation_middle, <- EL, line_perm, HP.
Qed.
Lemma cancel_refines run_id reason g r g' s' :
  cancel_queued q run_id reason g s = inr (r, g', s') ->
  line_step q (OpCancel run_id reason) (Removed [r]) L (line_of s').
Proof.
  intros E. apply cancel_inv in E as (s1 & -> & _ & Hid & Hs1).
  destruct Hs1 as [(pre & h & post & Hh & -> & ->)|(pre & post & Hq & ->)].
  - apply (cancel_line _ _ (held_row h)); try done. unfold rows. cbn.
    rewrite Hh, !List.map_app. cbn. by rewrite <- Permutation_middle.
  - apply (cancel_line _ _ (queued_row r)); try done. unfold rows. cbn.
    rewrite Hq, !List.map_app. cbn. by rewrite <- !Permutation_middle.
Qed.

Lemma cancel_all_refines reason g rs g' s' :
  cancel_all_queued q reason g s = (rs, g', s') ->
  line_step q (OpCancelAll reason) (Removed rs) L (line_of s').
Proof.
  unfold cancel_all_queued. intros [= <- _ <-].
  replace (sort_by_key run_sequence _) with (List.map row_run (line_rows L)).
  - by eapply line_step_settled; [apply line_cancel_all|..]; try constructor.
  - symmetry. apply sort_unique; [by apply (strict_map row_sequence)|].
    rewrite (Permutation_map row_run rows_perm). unfold rows.
    rewrite List.map_app, !List.map_map. cbn. rewrite List.map_id. apply Permutation_app_comm.
Qed.

Lemma park_refines boundary now rs s' :
  park_stale q boundary now s = (rs, s') ->
  line_step q (OpPark boundary now) (Parked rs) L (line_of s').
Proof.
  unfold park_stale. destruct (park_rows _ _ _ _) as [held kept] eqn:Ep.
  destruct (park_rows_parked _ _ _ _ _ _ Ep) as [HA HB]. intros [= <- <-].
  rewrite HA, <- (startable_line _ _ Hok), omap_filter_startable.
  eapply line_step_to; [apply line_park|done|..|done|done|done].
  - apply (strict_map row_sequence); [|done]. intros r. unfold park_row. by destruct (row_parked r).
  - etransitivity; [apply Permutation_map, rows_perm|]. unfold rows. cbn.
    rewrite (Permutation_map held_row (sort_by_key_perm _ _)), !List.map_app, <- app_assoc, HB.
    f_equiv. rewrite List.map_map. done.
Qed.

Lemma release_held_refines run_id now r s' :
  release_held run_id now s = inr (r, s') ->
  line_step q (OpReleaseHeld run_id now) (Released r) L (line_of s').
Proof.
  intros E. apply release_held_inv in E as (pre & h & post & bf & bh & Hh & -> & <- & Hq & _ & _ & ->).
  assert (Hin : In (held_row h) (rows s)).
  { unfold rows. rewrite Hh. apply in_or_app. left. apply in_map, in_or_app. right. by left. }
  destruct (line_split _ _ Hok _ Hin) as (pre' & post' & EL & HS).
  eapply line_step_to; [eapply (line_release q (held_request h)), EL|done|..|done|done|done].
  - apply strict_app in HS as (H1 & H2 & H3). apply StronglySorted_inv in H2 as [H2 H2'].
    apply strict_app. split; [done|]. split; [by constructor|].
    intros x y Hx Hy. apply elem_of_cons in Hy as [->|Hy].
    + apply (H3 x (held_row h) Hx). left.
    + apply H3; [done|by right].
  - set (r := (held_request h) <| run_accepted_at := to_rfc3339 now |>).
    apply (Permutation_cons_inv (a := held_row h)). transitivity (queued_row r :: rows s).
    + rewrite <- line_perm, EL. cbn. rewrite <- !Permutation_middle. constructor.
    + unfold rows. cbn. rewrite Hh, Hq, !List.map_app. cbn.
      rewrite <- !Permutation_middle. apply perm_swap.
Qed.

(** ** Refusals *)
Lemma reserve_refused bytes g e : reserve (q_global_budget q) bytes g = inl e ->
  e = GlobalQueueFull (gb_max_count (q_global_budget q))
  \/ exists n, e = GlobalQueueBytesExceeded n (gb_max_bytes (q_global_budget q))
              /\ gb_max_bytes (q_global_budget q) < n.
Proof.
  unfold reserve. destruct (Z.leb_spec (gb_max_count (q_global_budget q)) (gs_count g)).
  - intros [= <-]. by left.
  - destruct (Z.ltb_spec (gb_max_bytes (q_global_budget q)) (u64_sat_add (gs_bytes g) bytes)); intros [= <-].
    right. by eexists.
Qed.
Lemma replace_refused count old bytes g e : replace_queued (q_global_budget q) count old bytes g = inl e ->
  e = GlobalQueueFull (gb_max_count (q_global_budget q))
  \/ exists n, e = GlobalQueueBytesExceeded n (gb_max_bytes (q_global_budget q))
              /\ gb_max_bytes (q_global_budget q) < n.
Proof.
  intros E. unfold replace_queued in E.
  apply (reserve_refused bytes (mkBudgetState (usize_sat_sub (gs_count g) count) (usize_sat_sub (gs_bytes g) old))).
  exact E.
Qed.

Lemma accept_refused fresh now c rid policy payload g e :
  accept q fresh now c rid policy payload g s = inl e ->
  op_refused q (OpAccept fresh now c rid policy payload) e L.
Proof.
  unfold accept, op_refused. intros E.
  destruct (String.eqb_spec (trim c) "") as [Et|]; [injection E as <-; by right|].
  destruct (qs_requests s !! c) as [i|] eqn:Ec.
  { destruct (negb _); [|done]. injection E as <-. right. split; [done|].
    apply (known_iff _ _ Hok). by eexists. }
  destruct (bool_decide_reflect (policy = SupersedeSession)); [injection E as <-; by left|]. right.
  destruct (Z.ltb_spec (q_max_request_bytes q) (len (to_vec payload))); [injection E as <-; by split|].
  destruct (Z.leb_spec (q_capacity q) (len (qs_queued s))).
  { injection E as <-. unfold submission_refused, L. by rewrite (count_startable _ _ Hok). }
  destruct (Z.ltb_spec (q_max_queue_bytes q) (u64_sat_add (qs_queued_bytes s) (len (to_vec payload))));
    [by injection E as <-|].
  destruct (unsafe_run_id _) eqn:Eu; [by injection E as <-|].
  destruct (bool_decide_reflect (choose_run_id fresh rid ∈ qs_run_ids s)).
  { injection E as <-. split; [done|]. by apply (taken_iff _ _ Hok). }
  destruct (Z.leb_spec (qs_next_sequence s + 1) u64_max) as [Hn|]; cbn [negb] in E; [|by injection E as <-].
  destruct (reserve _ _ _) as [e'|] eqn:Er.
  { injection E as <-. by apply reserve_refused in Er as [->|(n' & -> & ?)]. }
  unfold next_sequence in E. by rewrite (proj2 (Z.leb_le _ _)) in E.
Qed.
Lemma supersede_refused fresh now c rid payload g e :
  supersede q fresh now c rid payload g s = inl e ->
  op_refused q (OpSupersede fresh now c rid payload) e L.
Proof.
  unfold supersede, op_refused. intros E.
  destruct (String.eqb_spec (trim c) "") as [Et|]; [by injection E as <-|].
  destruct (qs_requests s !! c) as [i|] eqn:Ec.
  { destruct (negb _); [|done]. injection E as <-. split; [done|]. apply (known_iff _ _ Hok). by eexists. }
  destruct (_ || _) eqn:Eb.
  { injection E as <-. apply orb_true_iff in Eb. rewrite !Z.ltb_lt in Eb. cbn. lia. }
  destruct (unsafe_run_id _) eqn:Eu; [by injection E as <-|].
  destruct (bool_decide_reflect (choose_run_id fresh rid ∈ qs_run_ids s)).
  { injection E as <-. split; [done|]. by apply (taken_iff _ _ Hok). }
  destruct (Z.leb_spec (qs_next_sequence s + 1) u64_max) as [Hn|]; cbn [negb] in E; [|by injection E as <-].
  destruct (replace_queued _ _ _ _ _) as [e'|] eqn:Er.
  { injection E as <-. by apply replace_refused in Er as [->|(n' & -> & ?)]. }
  unfold next_sequence in E.
  pose proof (remember_all_frame limit "cancelled" "superseded" (qs_queued s)
    (s <| qs_queued := [] |> <| qs_queued_bytes := 0 |>)) as (F1 & _). cbn zeta in F1.
  rewrite F1, (proj2 (Z.leb_le _ _)) in E by done. done.
Qed.
Lemma start_refused epoch g e : start_next epoch g s = inl e -> op_refused q (OpStart epoch) e L.
Proof.
  unfold start_next. cbn [op_refused L line_of line_active]. destruct (qs_active s) as [[a ep]|]; [by intros [= <-]|].
  destruct (qs_queued s) eqn:Hq; [|done]. intros [= <-]. split; [done|].
  change (List.filter startable (line_rows (line_of s)) = []). by rewrite (startable_line _ _ Hok), Hq.
Qed.
Lemma finish_refused run_id e : finish_active q run_id s = inl e -> op_refused q (OpFinish run_id) e L.
Proof.
  unfold finish_active. cbn [op_refused L line_of line_active]. destruct (qs_active s) as [[a ep]|].
  - destruct (String.eqb_spec (run_run_id a) run_id); [done|]. intros [= <-]. cbn. split; congruence.
  - by intros [= <-].
Qed.
Lemma in_rows r : In r (line_rows L) ->
  (exists h, In h (qs_held s) /\ r = held_row h) \/ (exists x, In x (qs_queued s) /\ r = queued_row x).
Proof.
  intros Hr. apply in_line in Hr. unfold rows in Hr.
  apply in_app_or in Hr as [Hr|Hr]; apply in_map_iff in Hr as (x & <- & Hx); [left|right]; by exists x.
Qed.
Lemma cancel_refused run_id reason g e : cancel_queued q run_id reason g s = inl e ->
  op_refused q (OpCancel run_id reason) e L.
Proof.
  unfold cancel_queued. intros E.
  destruct (position (is_held_run run_id) (qs_held s)) as [i|] eqn:Eh.
  { apply position_some in Eh as (pre & h & post & _ & _ & _ & _ & Hr). by rewrite Hr in E. }
  destruct (position (is_run run_id) (qs_queued s)) as [i|] eqn:Eq.
  { apply position_some in Eq as (pre & h & post & _ & _ & _ & _ & Hr). by rewrite Hr in E. }
  injection E as <-. split; [done|]. assert (Hh := proj1 (position_none _ _) Eh).
  assert (Hq := proj1 (position_none _ _) Eq).
  intros r Hr. apply in_rows in Hr as [(h & Hin & ->)|(x & Hx & ->)]; apply String.eqb_neq; [by apply Hh|by apply Hq].
Qed.
Lemma release_held_refused run_id now e : release_held run_id now s = inl e ->
  op_refused q (OpReleaseHeld run_id now) e L.
Proof.
  unfold release_held. intros E.
  destruct (position (is_held_run run_id) (qs_held s)) as [i|] eqn:Eh.
  { apply position_some in Eh as (pre & h & post & _ & _ & _ & _ & Hr). by rewrite Hr in E. }
  injection E as <-. split; [done|]. assert (Hh := proj1 (position_none _ _) Eh).
  intros r Hr Hp. apply in_rows in Hr as [(h & Hin & ->)|(x & Hx & ->)]; [|done].
  apply String.eqb_neq. by apply Hh.
Qed.

Lemma run_op_refines op g o g' s' :
  run_op q op g s = (o, g', s') -> line_step q op o L (line_of s').
Proof.
  destruct op; cbn [run_op].
  - destruct (accept _ _ _ _ _ _ _ _ _) as [e|[[ack g1] s1]] eqn:E; intros [= <- <- <-];
      [by eapply line_refused, accept_refused|by eapply accept_refines].
  - destruct (supersede _ _ _ _ _ _ _ _) as [e|[[[[ack rs] a] g1] s1]] eqn:E; intros [= <- <- <-];
      [by eapply line_refused, supersede_refused|by eapply supersede_refines].
  - destruct (start_next _ _ _) as [e|[[[r ack] g1] s1]] eqn:E; intros [= <- <- <-];
      [by eapply line_refused, start_refused|by eapply start_refines].
  - destruct (drain_coalescing_after_first _ _ _) as [[rs g1] s1] eqn:E. intros [= <- <- <-].
    by eapply drain_refines.
  - destruct (finish_active _ _ _) as [e|s1] eqn:E; intros [= <- <- <-];
      [by apply line_refused, finish_refused|by apply finish_refines].
  - intros [= <- <- <-]. apply release_payload_refines.
  - destruct (cancel_queued _ _ _ _ _) as [e|[[r g1] s1]] eqn:E; intros [= <- <- <-];
      [by eapply line_refused, cancel_refused|by eapply cancel_refines].
  - destruct (cancel_all_queued _ _ _ _) as [[rs g1] s1] eqn:E. intros [= <- <- <-].
    by eapply cancel_all_refines.
  - destruct (park_stale _ _ _ _) as [rs s1] eqn:E. intros [= <- <- <-]. by eapply park_refines.
  - destruct (release_held _ _ _) as [e|[r s1]] eqn:E; intros [= <- <- <-];
      [by eapply line_refused, release_held_refused|by eapply release_held_refines].
Qed.
End Refinement.

(** * Limits

    What a line never exceeds: the bytes it reports respect the queue's limit,
    and every row belongs to the session, is accounted with the bytes of its
    payload and respects the request limit. *)
Definition row_fits `{RunEnv} (q : InMemoryRunQueue) (r : ScheduledRunRequest) : Prop :=
  run_session_id r = q_session_id q
  /\ run_payload_bytes r = len (to_vec (run_payload r)) /\ run_payload_bytes r <= q_max_request_bytes q.
Definition within_limits `{RunEnv} (q : InMemoryRunQueue) (L : Line) : Prop :=
  0 <= line_bytes L <= q_max_queue_bytes q
  /\ forall x, In x (line_rows L) -> row_fits q (row_run x).

Lemma fold_sub_bounds rs b : (forall r, In r rs -> 0 <= run_payload_bytes r) -> 0 <= b ->
  0 <= List.fold_left (fun b r => usize_sat_sub b (run_payload_bytes r)) rs b <= b.
Proof.
  revert b. induction rs as [|r rs IH]; intros b Hr Hb; cbn [List.fold_left]; [lia|].
  apply forall_in_cons in Hr as [Hr Hrs].
  assert (Hs : 0 <= usize_sat_sub b (run_payload_bytes r) <= b) by (unfold usize_sat_sub; lia).
  specialize (IH _ Hrs (proj1 Hs)). lia.
Qed.

Section Limits.
Context `{RunEnv} (q : InMemoryRunQueue).

Lemma row_fits_bytes r : row_fits q r -> 0 <= run_payload_bytes r.
Proof. intros (_ & -> & _). apply len_nonneg. Qed.
Lemma within_settle st why rs L : within_limits q L -> within_limits q (settle q st why rs L).
Proof. done. Qed.
(** Rows that leave or are rewritten in place. *)
Lemma within_sub gone L rs' : within_limits q L -> (forall r, In r gone -> row_fits q r) ->
  (forall x, In x rs' -> exists y, In y (line_rows L) /\ (row_fits q (row_run y) -> row_fits q (row_run x))) ->
  within_limits q (give_back gone (L <| line_rows := rs' |>)).
Proof.
  intros [Hb Hr] Hg Hs. split; cbn.
  - pose proof (fold_sub_bounds gone (line_bytes L)
      (fun r Hin => row_fits_bytes r (Hg r Hin)) (proj1 Hb)). lia.
  - intros x Hx. destruct (Hs x Hx) as (y & Hy & Hxy). auto.
Qed.
Lemma within_join r bytes L : (forall x, In x (line_rows L) -> row_fits q (row_run x)) -> row_fits q r ->
  0 <= bytes <= q_max_queue_bytes q -> within_limits q (join_line r bytes L).
Proof.
  intros Hr Hf Hb. split; [done|]. cbn. intros x Hx. apply in_app_or in Hx as [Hx|[<-|[]]]; [by apply Hr|done].
Qed.
Lemma in_sub {A} (x : A) pre y post : In x (pre ++ post) -> In x (pre ++ y :: post).
Proof. rewrite !in_app_iff. cbn. tauto. Qed.

Lemma line_step_within op o L L' : within_limits q L -> line_step q op o L L' -> within_limits q L'.
Proof.
  intros HL Hst. pose proof HL as [Hb Hr].
  destruct Hst as [| | |fresh now c rid policy payload L r n bytes _ Hj _ Hq|fresh now c rid payload L r gone Hj Hq
    |epoch r pre post L _ HR _|front folded rest L HF _| |r epoch L _|r epoch L _| |r reason pre post L HR
    |reason L|boundary now L|r why now pre post L HR r']; try done.
  - apply within_join; [done|by split; [|split; [|apply Hj]]|].
    split; [|done]. pose proof (len_nonneg (to_vec payload)). unfold bytes, r, u64_sat_add, u64_max. cbn. lia.
  - apply within_join; [|by split; [|split; [|apply Hj]]|].
    + intros x Hx. cbn in Hx. apply List.filter_In in Hx as [Hx _]. auto.
    + split; [apply len_nonneg|done].
  - apply (within_sub [r] (L <| line_active := Some (r, epoch) |>)); [done|..].
    + intros x [<-|[]]. apply (Hr (queued_row r)). rewrite HR. apply in_or_app. right. by left.
    + intros x Hx. exists x. split; [|done]. cbn. rewrite HR. by apply in_sub.
  - apply within_settle, (within_sub folded L); [done|..].
    + intros x Hx. apply (Hr (queued_row x)). eapply proj1, List.filter_In. rewrite HF. right.
      apply in_map, in_or_app. by left.
    + intros x Hx. apply List.filter_In in Hx as [Hx _]. by exists x.
  - apply within_settle, (within_sub [row_run r] L); [done|..].
    + intros x [<-|[]]. apply Hr. rewrite HR. apply in_or_app. right. by left.
    + intros x Hx. exists x. split; [|done]. rewrite HR. by apply in_sub.
  - split; [cbn; lia|done].
  - apply (within_sub [] L); [done|done|]. intros x Hx. apply in_map_iff in Hx as (y & <- & Hy).
    exists y. split; [done|]. unfold park_row. by destruct (row_parked y).
  - apply (within_sub [] L); [done|done|]. intros x Hx. apply in_app_or in Hx as [Hx|[<-|Hx]].
    + exists x. split; [|done]. rewrite HR. apply in_or_app. by left.
    + exists (mkRow r (Some why)). split; [|done]. rewrite HR. apply in_or_app. right. by left.
    + exists x. split; [|done]. rewrite HR. apply in_or_app. right. by right.
Qed.
End Limits.
