(* ===== verification/RunQueueSystem.v ===== *)
(** Sessions that share one queue budget: a step relation over whole systems of
    run queues, the accounting of the budget, and what the queues promise in
    every reachable system. *)
From stdpp Require Import relations.
From S2P Require Import Prelude Json RunQueue RunQueueProps RunQueueSpec.

(** * Systems *)
Record System := mkSystem {
  sys_global : GlobalBudgetState;
  sys_sessions : list (InMemoryRunQueue * QueueState)
}.

(** What a queue's configuration must satisfy: machine integers, and the shared
    budget. *)
Record config_ok (gb : GlobalQueueBudget) (q : InMemoryRunQueue) : Prop := mkConfigOk {
  cfg_budget : q_global_budget q = gb;
  cfg_acks : 0 <= q_recent_ack_limit q
}.

Section Systems.
Context `{RunEnv} (gb : GlobalQueueBudget).
(** Which queues may be opened, and which operations a session may perform in
    which state. *)
Variable opens : InMemoryRunQueue -> Prop.
Variable allowed : QueueOp -> QueueState -> Prop.

Inductive sys_step : System -> System -> Prop :=
| step_open g l sid next cap mq mr limit :
    0 <= limit -> 0 <= mq -> next <= u64_max ->
    let session := with_limits_and_global sid next cap mq mr limit gb in
    opens (fst session) -> sys_step (mkSystem g l) (mkSystem g (l ++ [session]))
| step_op g pre q s post op o g' s' :
    allowed op s -> run_op q op g s = (o, g', s') ->
    sys_step (mkSystem g (pre ++ (q, s) :: post)) (mkSystem g' (pre ++ (q, s') :: post)).

Definition reachable (S : System) : Prop := rtc sys_step (mkSystem global_new []) S.
End Systems.

(** Fewer queues and fewer operations reach fewer systems. *)
Lemma reachable_mono `{RunEnv} gb (opens opens' : InMemoryRunQueue -> Prop)
    (allowed allowed' : QueueOp -> QueueState -> Prop) S :
  (forall q, opens q -> opens' q) -> (forall op s, allowed op s -> allowed' op s) ->
  reachable gb opens allowed S -> reachable gb opens' allowed' S.
Proof.
  intros Ho Ha. unfold reachable. induction 1 as [|S1 S2 S3 Hst _ IH]; [done|].
  eapply rtc_l; [|exact IH]. destruct Hst; econstructor; eauto.
Qed.

Definition any_queue (q : InMemoryRunQueue) : Prop := True.
(** The byte limit leaves room for the sum to be computed without saturation. *)
Definition finite_queue (q : InMemoryRunQueue) : Prop := q_max_queue_bytes q < u64_max.
Definition any_op (op : QueueOp) (s : QueueState) : Prop := True.
(** Nobody supersedes a session while prompts of it are parked. *)
Definition no_parked_supersede (op : QueueOp) (s : QueueState) : Prop :=
  match op with OpSupersede _ _ _ _ _ => qs_held s = [] | _ => True end.

(** What the rows actually hold. *)
Definition waiting_bytes (s : QueueState) : Z := sum_bytes (waiting s).
Definition total {A} (f : A -> Z) (l : list A) : Z := List.fold_right (fun x a => f x + a) 0 l.
Arguments total : simpl never.
Lemma total_nil {A} (f : A -> Z) : total f [] = 0.
Proof. done. Qed.
Lemma total_cons {A} (f : A -> Z) x l : total f (x :: l) = f x + total f l.
Proof. done. Qed.
Definition total_rows (S : System) : Z := total (fun p => len (waiting (snd p))) (sys_sessions S).
Definition total_bytes (S : System) : Z := total (fun p => waiting_bytes (snd p)) (sys_sessions S).
Definition total_reported (S : System) : Z := total (fun p => qs_queued_bytes (snd p)) (sys_sessions S).

(** * Sums *)
Lemma total_app {A} (f : A -> Z) l1 l2 : total f (l1 ++ l2) = total f l1 + total f l2.
Proof. unfold total. induction l1 as [|x l1 IH]; cbn; [done|]. rewrite IH. lia. Qed.
Lemma total_nonneg {A} (f : A -> Z) l : (forall x, In x l -> 0 <= f x) -> 0 <= total f l.
Proof.
  unfold total. induction l as [|x l IH]; cbn; [done|]. intros Hl. specialize (IH (fun y Hy => Hl y (or_intror Hy))).
  specialize (Hl x (or_introl eq_refl)). lia.
Qed.
Lemma sum_bytes_app l1 l2 : sum_bytes (l1 ++ l2) = sum_bytes l1 + sum_bytes l2.
Proof. apply (total_app run_payload_bytes). Qed.
Lemma sum_bytes_nonneg l : (forall r, r ∈ l -> 0 <= run_payload_bytes r) -> 0 <= sum_bytes l.
Proof. intros Hl. apply total_nonneg. intros r Hr. apply Hl. by apply list_elem_of_In. Qed.
#[export] Instance sum_bytes_proper : Proper ((≡ₚ) ==> eq) sum_bytes.
Proof. unfold sum_bytes. induction 1; cbn in *; lia. Qed.
#[export] Instance len_proper {A} : Proper ((≡ₚ) ==> eq) (@len A).
Proof. intros l l' HP. unfold len. by rewrite HP. Qed.

Lemma release_each_count rs g : len rs <= gs_count g ->
  gs_count (release_each rs g) = gs_count g - len rs.
Proof.
  unfold release_each. revert g. induction rs as [|r rs IH]; intros g Hg; cbn; [unfold len; cbn; lia|].
  change (r :: rs) with ([r] ++ rs) in Hg |- *. rewrite len_app in Hg |- *.
  change (len [r]) with 1 in *. pose proof (len_nonneg rs).
  rewrite IH; cbn; unfold usize_sat_sub; lia.
Qed.
Lemma release_each_bytes rs g : 0 <= gs_bytes g -> (forall r, r ∈ rs -> 0 <= run_payload_bytes r) ->
  gs_bytes (release_each rs g) = Z.max 0 (gs_bytes g - sum_bytes rs).
Proof.
  unfold release_each. revert g. induction rs as [|r rs IH]; intros g Hg Hrs; cbn; [lia|].
  assert (Hr : 0 <= run_payload_bytes r) by (apply Hrs; left).
  assert (Hs : 0 <= sum_bytes rs) by (apply sum_bytes_nonneg; intros x Hx; apply Hrs; by right).
  rewrite IH; [|cbn; unfold usize_sat_sub; lia|intros x Hx; apply Hrs; by right].
  cbn. fold (sum_bytes rs). unfold usize_sat_sub. lia.
Qed.
Lemma sat_sub_each rs b : 0 <= b -> (forall r, r ∈ rs -> 0 <= run_payload_bytes r) ->
  List.fold_left (fun b r => usize_sat_sub b (run_payload_bytes r)) rs b = Z.max 0 (b - sum_bytes rs).
Proof.
  revert b. induction rs as [|r rs IH]; intros b Hb Hrs; cbn; [lia|].
  assert (Hr : 0 <= run_payload_bytes r) by (apply Hrs; left).
  assert (Hs : 0 <= sum_bytes rs) by (apply sum_bytes_nonneg; intros x Hx; apply Hrs; by right).
  rewrite IH; [|unfold usize_sat_sub; lia|intros x Hx; apply Hrs; by right].
  fold (sum_bytes rs). unfold usize_sat_sub. lia.
Qed.

Lemma total_ext {A} (f g : A -> Z) l : (forall x, In x l -> f x = g x) -> total f l = total g l.
Proof.
  induction l as [|x l IH]; [done|]. rewrite forall_in_cons, !total_cons. intros [-> Hl]. by rewrite IH.
Qed.

(** * What one operation does to the accounts

    [others] stands for what the other sessions report. *)
Record accounts (max_count : Z) (g : GlobalBudgetState) (s : QueueState) : Prop := mkAccounts {
  ac_count : len (waiting s) <= gs_count g <= max_count;
  ac_bytes : 0 <= gs_bytes g;
  ac_reported : 0 <= qs_queued_bytes s <= waiting_bytes s
}.
(** The transition from [g, s] to [g', s']: rows are counted exactly, bytes are
    never over-reported, and where they were exact they stay exact unless the
    step forgot [forgotten] parked bytes. *)
Record accounted (gb : GlobalQueueBudget) (exact : Prop) (g : GlobalBudgetState) (s : QueueState)
    (g' : GlobalBudgetState) (s' : QueueState) : Prop := mkAccounted {
  at_count : gs_count g' - len (waiting s') = gs_count g - len (waiting s);
  at_max : gs_count g' <= gb_max_count gb;
  at_bytes : 0 <= gs_bytes g';
  at_max_bytes : gs_bytes g <= gb_max_bytes gb -> gs_bytes g' <= gb_max_bytes gb;
  at_reported : 0 <= qs_queued_bytes s' <= waiting_bytes s';
  at_others : forall others, 0 <= others -> gs_bytes g <= others + qs_queued_bytes s ->
    gs_bytes g' <= others + qs_queued_bytes s';
  at_exact : forall others, exact -> 0 <= others -> qs_queued_bytes s = waiting_bytes s ->
    gs_bytes g = others + qs_queued_bytes s ->
    qs_queued_bytes s' = waiting_bytes s' /\ gs_bytes g' = others + qs_queued_bytes s'
}.

Section Accounting.
Context `{RunEnv} (gb : GlobalQueueBudget) (q : InMemoryRunQueue).
Hypothesis cfg : config_ok gb q.
Hypothesis max_count_fits : gb_max_count gb <= u64_max.
Context (g : GlobalBudgetState) (s : QueueState).
Hypothesis Hok : queue_ok (q_recent_ack_limit q) s.
Hypothesis Hac : accounts (gb_max_count gb) g s.

Definition finite_limits : Prop := q_max_queue_bytes q < u64_max /\ gb_max_bytes gb < u64_max.

Lemma waiting_bytes_nonneg r : r ∈ waiting s -> 0 <= run_payload_bytes r.
Proof. intros Hr. apply (pl_bytes _ (proj2 Hok)). unfold live. rewrite elem_of_app. by right. Qed.

Lemma accounted_refl exact : accounted gb exact g s g s.
Proof. destruct Hac as [A B C]. split; auto; lia. Qed.

(** Rows only move or are rewritten. *)
Lemma accounted_moved exact s' : len (waiting s') = len (waiting s) ->
  waiting_bytes s' = waiting_bytes s -> qs_queued_bytes s' = qs_queued_bytes s ->
  accounted gb exact g s g s'.
Proof. intros E1 E2 E3. destruct Hac as [A B C]. split; rewrite ?E1, ?E2, ?E3; auto; lia. Qed.

(** The rows [gone] leave and are released. *)
Lemma accounted_removed exact gone s' :
  waiting s ≡ₚ gone ++ waiting s' ->
  qs_queued_bytes s' = Z.max 0 (qs_queued_bytes s - sum_bytes gone) ->
  accounted gb exact g s (release_each gone g) s'.
Proof.
  intros HP HQ. destruct Hac as [A B C].
  assert (Hn : 0 <= sum_bytes gone /\ 0 <= waiting_bytes s').
  { split; apply sum_bytes_nonneg; intros r Hr; apply waiting_bytes_nonneg; rewrite HP, elem_of_app; auto. }
  assert (HL : len (waiting s) = len gone + len (waiting s')) by (rewrite HP; apply len_app).
  assert (HB : waiting_bytes s = sum_bytes gone + waiting_bytes s')
    by (unfold waiting_bytes; rewrite HP; apply sum_bytes_app).
  pose proof (len_nonneg gone). pose proof (len_nonneg (waiting s')).
  assert (EC : gs_count (release_each gone g) = gs_count g - len gone) by (apply release_each_count; lia).
  assert (EB : gs_bytes (release_each gone g) = Z.max 0 (gs_bytes g - sum_bytes gone)).
  { apply release_each_bytes; [lia|]. intros r Hr. apply waiting_bytes_nonneg. rewrite HP, elem_of_app. auto. }
  split; rewrite ?EC, ?EB, ?HQ; intros; lia.
Qed.

Lemma waiting_enqueue r qb s1 n :
  waiting (enqueue r qb (s1 <| qs_next_sequence := n |>)) = waiting s1 ++ [r].
Proof. unfold waiting, enqueue. cbn. by rewrite app_assoc. Qed.
Lemma len_snoc {A} (l : list A) x : len (l ++ [x]) = len l + 1.
Proof. by rewrite len_app. Qed.

Lemma accept_accounted fresh now c rid policy payload ack g' s' :
  accept q fresh now c rid policy payload g s = inr (ack, g', s') -> accounted gb finite_limits g s g' s'.
Proof.
  intros E. apply accept_inv in E as [(i & _ & _ & _ & -> & ->)|E]; [apply accounted_refl|].
  cbn zeta in E. set (r := new_request _ _ _ _ _ _ _ _) in E. set (n := run_payload_bytes r) in *.
  destruct E as (_ & _ & _ & _ & Hq & _ & _ & _ & Hres & -> & _).
  rewrite (cfg_budget _ _ cfg) in Hres. unfold reserve in Hres.
  destruct (Z.leb_spec (gb_max_count gb) (gs_count g)); [done|].
  destruct (Z.ltb_spec (gb_max_bytes gb) (u64_sat_add (gs_bytes g) n)) as [|Hmax]; [done|].
  injection Hres as <-. destruct Hac as [A B C].
  assert (Hn : 0 <= n) by apply len_nonneg.
  assert (HW : waiting_bytes (enqueue r (u64_sat_add (qs_queued_bytes s) n)
      (s <| qs_next_sequence := qs_next_sequence s + 1 |>)) = waiting_bytes s + n).
  { unfold waiting_bytes. rewrite waiting_enqueue, sum_bytes_app. cbn. fold n. lia. }
  pose proof (len_nonneg (waiting s)).
  unfold finite_limits. split; rewrite ?HW, ?waiting_enqueue, ?len_snoc; cbn [gs_count gs_bytes];
    rewrite ?u64_add_small by lia;
    try change (qs_queued_bytes (enqueue _ _ _)) with (u64_sat_add (qs_queued_bytes s) n);
    unfold u64_sat_add, u64_max in *; intros; lia.
Qed.

Lemma supersede_accounted fresh now c rid payload ack cancelled act g' s' :
  supersede q fresh now c rid payload g s = inr (ack, cancelled, act, g', s') ->
  accounted gb (finite_limits /\ qs_held s = []) g s g' s'.
Proof.
  intros E. apply supersede_inv in E as [(i & _ & _ & _ & _ & _ & -> & ->)|E]; [apply accounted_refl|].
  cbn zeta in E. set (r := new_request _ _ _ _ _ _ _ _) in E. set (n := run_payload_bytes r) in *.
  destruct E as (_ & _ & Hq & _ & _ & _ & Hrep & -> & _).
  rewrite (cfg_budget _ _ cfg) in Hrep. unfold replace_queued, usize_sat_sub in Hrep.
  set (s1 := remember_all _ _ _ _ _) in *.
  destruct (Z.leb_spec (gb_max_count gb) (Z.max 0 (gs_count g - len (qs_queued s)))); [done|].
  destruct (Z.ltb_spec (gb_max_bytes gb)
    (u64_sat_add (Z.max 0 (gs_bytes g - qs_queued_bytes s)) n)) as [|Hmax]; [done|].
  injection Hrep as <-. destruct Hac as [A B C].
  assert (Hn : 0 <= n) by apply len_nonneg.
  pose proof (remember_all_frame (q_recent_ack_limit q) "cancelled" "superseded" (qs_queued s)
    (s <| qs_queued := [] |> <| qs_queued_bytes := 0 |>)) as (_ & _ & F3 & F4 & _).
  cbn zeta in *. fold s1 in F3, F4. cbn in F3, F4.
  assert (HW1 : waiting s1 = List.map held_request (qs_held s))
    by (unfold waiting; rewrite F3, F4; apply app_nil_r).
  set (h := List.map held_request (qs_held s)) in *.
  assert (HW : waiting_bytes (enqueue r n (s1 <| qs_next_sequence := qs_next_sequence s1 + 1 |>))
      = sum_bytes h + n).
  { unfold waiting_bytes. rewrite waiting_enqueue, HW1, sum_bytes_app. cbn. fold n. lia. }
  assert (HL : len (waiting s) = len h + len (qs_queued s)) by apply len_app.
  assert (HB : waiting_bytes s = sum_bytes h + sum_bytes (qs_queued s)) by apply sum_bytes_app.
  assert (Hh : 0 <= sum_bytes h /\ 0 <= sum_bytes (qs_queued s)).
  { split; apply sum_bytes_nonneg; intros x Hx; apply waiting_bytes_nonneg; unfold waiting;
      rewrite elem_of_app; auto. }
  assert (He : qs_held s = [] -> sum_bytes h = 0) by (unfold h; by intros ->).
  pose proof (len_nonneg h). pose proof (len_nonneg (qs_queued s)).
  unfold finite_limits. split; rewrite ?HW, ?waiting_enqueue, ?HW1, ?len_snoc; cbn [gs_count gs_bytes];
    rewrite ?u64_add_small by lia;
    try change (qs_queued_bytes (enqueue _ _ _)) with n;
    unfold u64_sat_add, u64_max in *; intros; try lia.
  match goal with X : _ /\ qs_held s = [] |- _ => destruct X as [[L1 L2] E0] end.
  specialize (He E0). lia.
Qed.
End Accounting.

Section Accounting2.
Context `{RunEnv} (gb : GlobalQueueBudget) (q : InMemoryRunQueue).
Hypothesis cfg : config_ok gb q.
Hypothesis max_count_fits : gb_max_count gb <= u64_max.

Lemma waiting_remember limit st why rs s : waiting (remember_all limit st why rs s) = waiting s.
Proof.
  pose proof (remember_all_frame limit st why rs s) as (_ & _ & F3 & F4 & _). cbn zeta in *.
  unfold waiting. by rewrite F3, F4.
Qed.
Lemma reported_remember limit st why rs s :
  qs_queued_bytes (remember_all limit st why rs s) = qs_queued_bytes s.
Proof. apply (remember_all_frame limit st why rs s). Qed.

Lemma run_op_accounted op g s o g' s' :
  queue_ok (q_recent_ack_limit q) s -> accounts (gb_max_count gb) g s ->
  run_op q op g s = (o, g', s') ->
  accounted gb (finite_limits gb q /\ no_parked_supersede op s) g s g' s'.
Proof.
  intros Hok Hac. destruct op; cbn [run_op no_parked_supersede].
  - destruct (accept _ _ _ _ _ _ _ _ _) as [e|[[ack g1] s1]] eqn:E; intros [= <- <- <-];
      [by apply accounted_refl|].
    eapply accept_accounted in E; try done. destruct E. split; auto. intros others [? ?]; auto.
  - destruct (supersede _ _ _ _ _ _ _ _) as [e|[[[[ack rs] a] g1] s1]] eqn:E; intros [= <- <- <-];
      [by apply accounted_refl|by eapply supersede_accounted].
  - destruct (start_next _ _ _) as [e|[[[r ack] g1] s1]] eqn:E; intros [= <- <- <-];
      [by apply accounted_refl|].
    apply start_next_inv in E as (rest & Ha & Hq & _ & -> & ->).
    apply (accounted_removed gb q g s Hok Hac _ [r]).
    + unfold waiting. cbn. rewrite Hq. by rewrite Permutation_middle.
    + cbn. unfold usize_sat_sub. f_equal. lia.
  - destruct (drain_coalescing_after_first _ _ _) as [[rs g1] s1] eqn:E. intros [= <- <- <-].
    apply drain_inv in E as [(_ & -> & ->)|(front & rest & Hq & _ & _ & -> & ->)];
      [by apply accounted_refl|].
    apply (accounted_removed gb q g s Hok Hac); rewrite ?waiting_remember, ?reported_remember.
    + apply (live_filter_queued s rs (front :: rest)). rewrite Hq. cbn. by rewrite Permutation_middle.
    + apply sat_sub_each; [apply Hac|]. intros r Hr. apply (waiting_bytes_nonneg q s Hok).
      unfold waiting. rewrite Hq, !elem_of_app. right. right. rewrite elem_of_app. auto.
  - destruct (finish_active _ _ _) as [e|s1] eqn:E; intros [= <- <- <-]; [by apply accounted_refl|].
    unfold finish_active in E. destruct (qs_active s) as [[r ?]|]; [|done].
    destruct (_ =?s _); [|done]. injection E as <-.
    change (remember_terminal ?l ?a ?b ?s ?r) with (remember_all l a b [r] s).
    apply accounted_moved; unfold waiting_bytes; by rewrite ?waiting_remember, ?reported_remember.
  - intros [= <- <- <-]. unfold release_active_payload.
    destruct (qs_active s) as [[r ?]|]; [destruct (_ =?s _)|]; by apply accounted_moved.
  - destruct (cancel_queued _ _ _ _ _) as [e|[[r g1] s1]] eqn:E; intros [= <- <- <-];
      [by apply accounted_refl|].
    apply cancel_inv in E as (s2 & -> & -> & _ & Hs2).
    apply (accounted_removed gb q g s Hok Hac _ [r]); rewrite ?waiting_remember, ?reported_remember.
    + destruct Hs2 as [(pre & h & post & Hh & -> & ->)|(pre & post & Hq & ->)]; unfold waiting; cbn.
      * rewrite Hh, !List.map_app. cbn. by rewrite <- Permutation_middle.
      * rewrite Hq. by rewrite <- !Permutation_middle.
    + cbn. unfold usize_sat_sub. f_equal. lia.
  - destruct (cancel_all_queued _ _ _ _) as [[rs g1] s1] eqn:E. intros [= <- <- <-].
    unfold cancel_all_queued in E. injection E as <- <- <-.
    set (rs := sort_by_key _ _).
    assert (HP : rs ≡ₚ waiting s) by (unfold rs, waiting; rewrite sort_by_key_perm; apply Permutation_app_comm).
    apply (accounted_removed gb q g s Hok Hac); rewrite ?waiting_remember, ?reported_remember.
    + unfold waiting at 2. cbn. by rewrite app_nil_r.
    + cbn. rewrite HP. fold (waiting_bytes s). pose proof (ac_reported _ _ _ Hac). lia.
  - destruct (park_stale _ _ _ _) as [rs s1] eqn:E. intros [= <- <- <-].
    unfold park_stale in E. destruct (park_rows _ _ _ _) as [held kept] eqn:Ep.
    apply park_rows_perm in Ep as (HP & _). injection E as <- <-.
    assert (HW : waiting (s <| qs_queued := kept |>
        <| qs_held := sort_by_key (fun h => run_sequence (held_request h)) (qs_held s ++ held) |>) ≡ₚ waiting s).
    { unfold waiting. cbn. rewrite (Permutation_map held_request (sort_by_key_perm _ _)).
      by rewrite List.map_app, <- app_assoc, HP. }
    apply accounted_moved; [done|by rewrite HW|unfold waiting_bytes; by rewrite HW|done].
  - destruct (release_held _ _ _) as [e|[r s1]] eqn:E; intros [= <- <- <-]; [by apply accounted_refl|].
    apply release_held_inv in E as (pre & h & post & bf & bh & Hh & -> & _ & Hq & _ & _ & ->).
    set (r := (held_request h) <| run_accepted_at := to_rfc3339 now |>).
    assert (HW : waiting s ≡ₚ held_request h :: (List.map held_request (pre ++ post) ++ bf ++ bh)).
    { unfold waiting. rewrite Hh, Hq, !List.map_app. cbn. by rewrite <- Permutation_middle. }
    assert (HW' : waiting (s <| qs_held := pre ++ post |> <| qs_queued := bf ++ r :: bh |>)
        ≡ₚ r :: (List.map held_request (pre ++ post) ++ bf ++ bh)).
    { unfold waiting. cbn. by rewrite <- !Permutation_middle. }
    apply accounted_moved; [done| | |done].
    + by rewrite HW, HW'.
    + unfold waiting_bytes. by rewrite HW, HW'.
Qed.
End Accounting2.

(** * The invariant of every reachable system *)
Record system_ok `{RunEnv} (gb : GlobalQueueBudget) (opens : InMemoryRunQueue -> Prop) (S : System) : Prop :=
mkSystemOk {
  so_sessions : forall q s, In (q, s) (sys_sessions S) ->
    config_ok gb q /\ opens q /\ queue_ok (q_recent_ack_limit q) s
    /\ within_limits q (line_of s) /\ 0 <= qs_queued_bytes s <= waiting_bytes s;
  so_count : gs_count (sys_global S) = total_rows S;
  so_max : gs_count (sys_global S) <= gb_max_count gb;
  so_bytes : 0 <= gs_bytes (sys_global S) <= gb_max_bytes gb;
  so_reported : gs_bytes (sys_global S) <= total_reported S
}.
Record system_exact (S : System) : Prop := mkSystemExact {
  se_sessions : forall q s, In (q, s) (sys_sessions S) -> qs_queued_bytes s = waiting_bytes s;
  se_global : gs_bytes (sys_global S) = total_reported S
}.

Section Reachable.
Context `{RunEnv} (gb : GlobalQueueBudget) (opens : InMemoryRunQueue -> Prop).
Context (allowed : QueueOp -> QueueState -> Prop).
Hypothesis limits_nonneg : 0 <= gb_max_count gb <= u64_max /\ 0 <= gb_max_bytes gb.

Lemma total_session {B} (f : InMemoryRunQueue * B -> Z) pre x post :
  total f (pre ++ x :: post) = total f (pre ++ post) + f x.
Proof. rewrite !total_app, total_cons. lia. Qed.

Lemma system_ok_others S pre q s post :
  system_ok gb opens S -> sys_sessions S = pre ++ (q, s) :: post ->
  accounts (gb_max_count gb) (sys_global S) s
  /\ 0 <= total (fun p => qs_queued_bytes (snd p)) (pre ++ post).
Proof.
  intros [H1 H2 H3 H4 H5] HE.
  assert (Hin : forall q' s', In (q', s') (pre ++ post) -> In (q', s') (sys_sessions S)).
  { intros q' s' Hi. rewrite HE. apply in_app_or in Hi as [Hi|Hi]; apply in_or_app; [auto|by right; right]. }
  destruct (H1 q s) as (_ & _ & _ & _ & Hb); [rewrite HE; apply in_or_app; right; by left|].
  split; [|apply total_nonneg; intros [q' s'] Hi; apply Hin, H1 in Hi; cbn; lia].
  split; [|lia|done].
  unfold total_rows in H2. rewrite HE, total_session in H2. cbn in H2.
  assert (0 <= total (fun p : InMemoryRunQueue * QueueState => len (waiting (snd p))) (pre ++ post))
    by (apply total_nonneg; intros ? _; apply len_nonneg). lia.
Qed.

Lemma in_replaced {A} (x y z : A) pre post :
  In z (pre ++ y :: post) -> z = y \/ In z (pre ++ x :: post).
Proof.
  intros Hi. apply in_app_or in Hi as [Hi|[->|Hi]]; [right|by left|right]; apply in_or_app; auto.
  right. by right.
Qed.

Lemma sys_step_ok S S' : system_ok gb opens S -> sys_step gb opens allowed S S' -> system_ok gb opens S'.
Proof.
  intros HS Hst. destruct Hst as [g l sid next cap mq mr limit Hl Hm Hn session Ho|g pre q s post op o g' s' Ha E].
  - destruct HS as [H1 H2 H3 H4 H5]. split; cbn in *; [|..|done|done|].
    + intros q s Hi. apply in_app_or in Hi as [Hi|[Hi|[]]]; [by apply H1|]. unfold session in Hi, Ho.
      injection Hi as <- <-. split; [by split|]. split; [done|].
      split; [by apply (queue_ok_init sid next cap mq mr limit gb)|]. split; [by split; cbn|done].
    + unfold total_rows in *. cbn in *. rewrite total_app, total_cons, total_nil, H2. cbn. unfold len at 3. cbn. lia.
    + unfold total_reported in *. cbn in *. rewrite total_app, total_cons, total_nil. cbn. lia.
  - destruct (system_ok_others _ pre q s post HS eq_refl) as [Hac Hoth]. cbn [sys_global] in Hac.
    destruct HS as [H1 H2 H3 H4 H5]. cbn in *.
    destruct (H1 q s) as (Hc & Ho & Hok & Hw & Hb); [apply in_or_app; right; by left|].
    pose proof (run_op_accounted gb q Hc (proj2 (proj1 limits_nonneg)) op g s o g' s' Hok Hac E) as A.
    pose proof (run_op_ok q (cfg_acks _ _ Hc) op g s o g' s' Hok E) as Hok'.
    pose proof (line_step_within q _ _ _ _ Hw (run_op_refines q s Hok op g o g' s' E)) as Hw'.
    destruct A as [A1 A2 A3 A4 A5 A6 _]. split; cbn; [|..|done| |].
    + intros q1 s1 Hi. apply (in_replaced (q, s)) in Hi as [[= -> ->]|Hi]; [done|by apply H1].
    + unfold total_rows in *. cbn in *. rewrite total_session in *. cbn in *. lia.
    + split; [done|]. apply A4. lia.
    + unfold total_reported in *. cbn in *. rewrite total_session in *. cbn in *. apply A6; [done|lia].
Qed.
Lemma system_ok_init : system_ok gb opens (mkSystem global_new []).
Proof. split; cbn; [done|done|lia|lia|done]. Qed.
Lemma reachable_ok S : reachable gb opens allowed S -> system_ok gb opens S.
Proof.
  intros Hr. unfold reachable in Hr. pose proof system_ok_init as Hi. revert Hi.
  induction Hr as [|S1 S2 S3 Hst _ IH]; [done|]. intros Hi. apply IH. by eapply sys_step_ok.
Qed.
End Reachable.

Section Exact.
Context `{RunEnv} (gb : GlobalQueueBudget).
Hypothesis limits_nonneg : 0 <= gb_max_count gb <= u64_max /\ 0 <= gb_max_bytes gb < u64_max.

Lemma sys_step_exact S S' : system_ok gb finite_queue S -> system_exact S ->
  sys_step gb finite_queue no_parked_supersede S S' -> system_exact S'.
Proof.
  intros HS HE Hst. destruct Hst as [g l sid next cap mq mr limit Hl Hm Hn session Ho|g pre q s post op o g' s' Ha E].
  - destruct HE as [E1 E2]. split; cbn in *.
    + intros q s Hi. apply in_app_or in Hi as [Hi|[Hi|[]]]; [by eapply E1|]. unfold session in Hi.
      by injection Hi as <- <-.
    + unfold total_reported in *. cbn in *. rewrite total_app, total_cons, total_nil, E2. cbn. lia.
  - destruct (system_ok_others gb finite_queue _ pre q s post HS eq_refl) as [Hac Hoth].
    cbn [sys_global] in Hac.
    destruct HE as [E1 E2], HS as [H1 H2 H3 H4 H5]. cbn in *.
    assert (Hin : In (q, s) (pre ++ (q, s) :: post)) by (apply in_or_app; right; by left).
    destruct (H1 q s Hin) as (Hc & Ho & Hok & Hw & Hb).
    assert (Hmax : gb_max_count gb <= u64_max) by lia.
    destruct (run_op_accounted gb q Hc Hmax op g s o g' s' Hok Hac E) as [_ _ _ _ _ _ A7].
    destruct (A7 (total (fun p : InMemoryRunQueue * QueueState => qs_queued_bytes (snd p)) (pre ++ post)))
      as [B1 B2]; [split; [split; [exact Ho|lia]|done]|done|by eapply E1| |].
    { unfold total_reported in E2. cbn in E2. by rewrite total_session in E2. }
    split; cbn.
    + intros q1 s1 Hi. apply (in_replaced (q, s)) in Hi as [[= -> ->]|Hi]; [done|by eapply E1].
    + unfold total_reported. cbn. by rewrite total_session.
Qed.
Lemma reachable_exact S : reachable gb finite_queue no_parked_supersede S -> system_exact S.
Proof.
  intros Hr. unfold reachable in Hr.
  assert (Hi : system_ok gb finite_queue (mkSystem global_new []) /\ system_exact (mkSystem global_new [])).
  { split; [apply system_ok_init; lia|]. by split. }
  revert Hi. induction Hr as [|S1 S2 S3 Hst _ IH]; [tauto|]. intros [Hi He]. apply IH. split.
  - eapply (sys_step_ok gb finite_queue no_parked_supersede); [lia|done|done].
  - by eapply sys_step_exact.
Qed.
End Exact.
