(* ===== verification/RunQueueClaims.v ===== *)
(** What the run queues of an agent promise: in every reachable system they
    behave as lines, their accounts add up, submissions are idempotent, bursts
    are folded within the request limit, released rows start; and the one
    operation that loses quota. *)
From stdpp Require Import relations.
From S2P Require Import Prelude Json RunQueue CanonicalJson RunQueueProps RunQueueSpec RunQueueSystem.

(** * Concrete systems for the witnesses *)
Definition demo_budget : GlobalQueueBudget := mkBudget 10 10.
Definition demo_sessions : System :=
  mkSystem global_new
    [with_limits_and_global "a" 1 2 100 8 4 demo_budget; with_limits_and_global "b" 1 2 100 8 4 demo_budget].

(** One operation of the [i]th session, as a function. *)
Definition sys_run `{RunEnv} (i : nat) (op : QueueOp) (S : System) : System :=
  match sys_sessions S !! i with
  | Some (q, s) =>
      match run_op q op (sys_global S) s with
      | (_, g, s) => mkSystem g (<[i := (q, s)]> (sys_sessions S))
      end
  | None => S
  end.
Definition sys_run_all `{RunEnv} (ops : list (nat * QueueOp)) (S : System) : System :=
  List.fold_left (fun S p => sys_run (fst p) (snd p) S) ops S.

Lemma sys_run_step `{RunEnv} gb opens (allowed : QueueOp -> QueueState -> Prop) i op S :
  (forall q s, sys_sessions S !! i = Some (q, s) -> allowed op s) ->
  rtc (sys_step gb opens allowed) S (sys_run i op S).
Proof.
  intros Ha. unfold sys_run. destruct (sys_sessions S !! i) as [[q s]|] eqn:El; [|done].
  destruct (run_op q op (sys_global S) s) as [[o g'] s'] eqn:E.
  apply rtc_once. destruct S as [g l]. cbn in *.
  pose proof (list_elem_of_split_length _ _ _ El) as (pre & post & -> & ->).
  rewrite insert_app_r_alt, Nat.sub_diag by done. cbn. eapply step_op; [by eapply Ha|exact E].
Qed.
Lemma sys_run_all_steps `{RunEnv} gb opens ops S :
  rtc (sys_step gb opens any_op) S (sys_run_all ops S).
Proof.
  revert S. induction ops as [|[i op] ops IH]; intros S; [done|].
  etransitivity; [|apply IH]. by apply sys_run_step.
Qed.
Lemma demo_sessions_reachable opens allowed :
  (forall sid, opens (fst (with_limits_and_global sid 1 2 100 8 4 demo_budget))) ->
  reachable (H := demo_env) demo_budget opens allowed demo_sessions.
Proof.
  intros Ho. unfold reachable, demo_sessions.
  eapply rtc_l; [|eapply rtc_once];
    [apply (step_open (H := demo_env) demo_budget opens allowed global_new [])
    |apply (step_open (H := demo_env) demo_budget opens allowed global_new
       [with_limits_and_global "a" 1 2 100 8 4 demo_budget])]; try apply Ho; done.
Qed.
Lemma demo_reachable ops :
  reachable (H := demo_env) demo_budget any_queue any_op (sys_run_all (H := demo_env) ops demo_sessions).
Proof.
  unfold reachable. etransitivity; [by apply demo_sessions_reachable|]. apply sys_run_all_steps.
Qed.

(** * Claims *)

(** C2: every operation of every session of a reachable system, whatever its
    outcome, is a step [line_step] of the session's line: its active run, its
    rows in acceptance order, the verdicts it remembers, the bytes it reports and
    its next sequence number.  A new request joins at the back if its client
    request id and run id are not known, its payload, the queue's bytes and the
    number of startable rows are within the limits; a known one is answered with
    its run; the first row that is not parked starts; parking and releasing
    change a row in place; cancelling, folding and superseding take exactly the
    returned rows out; a run that ends, is folded or taken out leaves its verdict
    and the newest verdicts are kept; and a refusal changes nothing and gives its
    reason. *)
Theorem queues_behave_as_lines `{RunEnv} gb opens allowed S q s op g o g' s' :
  0 <= gb_max_count gb <= u64_max -> 0 <= gb_max_bytes gb ->
  reachable gb opens allowed S -> In (q, s) (sys_sessions S) ->
  run_op q op g s = (o, g', s') -> line_step q op o (line_of s) (line_of s').
Proof.
  intros Hc Hb Hr Hin E.
  destruct (so_sessions _ _ _ (reachable_ok gb opens allowed (conj Hc Hb) S Hr) q s Hin) as (_ & _ & Hok & _).
  by eapply (run_op_refines q s Hok).
Qed.

Definition burst : list (nat * QueueOp) :=
  [(0%nat, OpAccept "u1" 5 "c1" (Some "r1") EnqueueIfBusy (VString "abc"));
   (0%nat, OpAccept "u2" 6 "c2" (Some "r2") EnqueueCoalescing (VString "de"))].
Definition nth_session (i : nat) (S : System) : InMemoryRunQueue * QueueState :=
  List.nth i (sys_sessions S) (with_limits_and_global "" 0 0 0 0 0 demo_budget).
Definition burst_session : InMemoryRunQueue * QueueState :=
  Eval vm_compute in nth_session 0 (sys_run_all (H := demo_env) burst demo_sessions).

Lemma queues_behave_as_lines_witness :
  let '(q, s) := burst_session in
  let '(o, g', s') := run_op (H := demo_env) q (OpStart 7) (sys_global demo_sessions) s in
  line_step (H := demo_env) q (OpStart 7) o (line_of s) (line_of s').
Proof.
  refine (queues_behave_as_lines (H := demo_env) demo_budget any_queue any_op
            (sys_run_all (H := demo_env) burst demo_sessions) (fst burst_session) (snd burst_session)
            (OpStart 7) (sys_global demo_sessions) _ _ _ _ _ (demo_reachable burst) _ _).
  - split; vm_compute; discriminate.
  - vm_compute; discriminate.
  - vm_compute. by left.
  - vm_compute. reflexivity.
Defined.

(** C39: the state of every session of a reachable system is well formed
    ([queue_ok]): the startable and the parked rows are in acceptance order,
    sequences, run ids and client request ids are distinct and below the next
    sequence, the known ids are exactly those of the live rows and the remembered
    verdicts, a client request id leads to its own run, and no more verdicts are
    kept than the limit; it is within its limits ([within_limits]): the bytes it
    reports are at most the queue's limit, and every waiting row belongs to the
    session, is accounted with the length of its payload and is within the
    request limit; and it never reports more bytes than its waiting rows hold. *)
Theorem queue_state_well_formed `{RunEnv} gb opens allowed S q s :
  0 <= gb_max_count gb <= u64_max -> 0 <= gb_max_bytes gb ->
  reachable gb opens allowed S -> In (q, s) (sys_sessions S) ->
  queue_ok (q_recent_ack_limit q) s /\ within_limits q (line_of s)
  /\ 0 <= qs_queued_bytes s <= waiting_bytes s.
Proof.
  intros Hc Hb Hr Hin.
  by destruct (so_sessions _ _ _ (reachable_ok gb opens allowed (conj Hc Hb) S Hr) q s Hin) as (_ & _ & ? & ? & ?).
Qed.
Lemma queue_state_well_formed_witness :
  len (qs_terminal_acks (snd burst_session)) <= 4 /\ qs_queued_bytes (snd burst_session) <= 100
  /\ len (qs_queued (snd burst_session)) = 2.
Proof.
  destruct (queue_state_well_formed (H := demo_env) demo_budget any_queue any_op
            (sys_run_all (H := demo_env) burst demo_sessions) (fst burst_session) (snd burst_session))
    as (A & B & _).
  - split; vm_compute; discriminate.
  - vm_compute; discriminate.
  - exact (demo_reachable burst).
  - vm_compute. by left.
  - split; [exact (in_acks _ _ _ (proj1 A))|]. split; [exact (proj2 (proj1 B))|vm_compute; reflexivity].
Defined.

(** C21: whatever the sessions do, the budget counts every waiting row of every
    session, startable or parked, and never more than its maximum; the bytes it
    reports are within its maximum, never more than the sessions report, and no
    session reports more than its rows hold.  As long as no session is superseded
    while prompts of it are parked, and the byte limits are below the largest
    machine integer, the bytes are exact as well: every session reports what its
    rows hold and the budget the sum over all sessions, which is then within its
    maximum.  (A supersede with parked prompts loses their bytes:
    [parked_bytes_escape_the_quota].) *)
Theorem shared_budget_exact `{RunEnv} gb opens allowed S :
  0 <= gb_max_count gb <= u64_max -> 0 <= gb_max_bytes gb -> reachable gb opens allowed S ->
  (gs_count (sys_global S) = total_rows S /\ total_rows S <= gb_max_count gb
   /\ gs_bytes (sys_global S) <= gb_max_bytes gb
   /\ gs_bytes (sys_global S) <= total_reported S
   /\ forall q s, In (q, s) (sys_sessions S) -> qs_queued_bytes s <= waiting_bytes s)
  /\ ((forall q, opens q -> finite_queue q) -> gb_max_bytes gb < u64_max ->
      (forall op s, allowed op s -> no_parked_supersede op s) ->
      (forall q s, In (q, s) (sys_sessions S) -> qs_queued_bytes s = waiting_bytes s)
      /\ gs_bytes (sys_global S) = total_bytes S /\ total_bytes S <= gb_max_bytes gb).
Proof.
  intros Hc Hb Hr. destruct (reachable_ok gb opens allowed (conj Hc Hb) S Hr) as [H1 H2 H3 H4 H5].
  split.
  - repeat split; [done|lia|lia|done|]. intros q s Hin. by destruct (H1 q s Hin) as (_ & _ & _ & _ & _ & ?).
  - intros Ho Hf Ha. destruct (reachable_exact gb (conj Hc (conj Hb Hf)) S (reachable_mono gb _ _ _ _ S Ho Ha Hr))
      as [E1 E2].
    assert (E3 : total_reported S = total_bytes S); [|split; [done|lia]].
    unfold total_reported, total_bytes. apply total_ext. intros [q s] Hin. by apply (E1 q s).
Qed.
Lemma shared_budget_exact_witness :
  gs_count (sys_global (sys_run_all (H := demo_env) burst demo_sessions)) = 2
  /\ gs_bytes (sys_global (sys_run (H := demo_env) 0 (OpAccept "u1" 5 "c1" (Some "r1") EnqueueIfBusy (VString "abc"))
       demo_sessions)) = 3.
Proof.
  split.
  - destruct (shared_budget_exact (H := demo_env) demo_budget any_queue any_op
      (sys_run_all (H := demo_env) burst demo_sessions)) as ((-> & _) & _);
      [split; vm_compute; discriminate|vm_compute; discriminate|apply demo_reachable|vm_compute; reflexivity].
  - destruct (shared_budget_exact (H := demo_env) demo_budget finite_queue no_parked_supersede
      (sys_run (H := demo_env) 0 (OpAccept "u1" 5 "c1" (Some "r1") EnqueueIfBusy (VString "abc")) demo_sessions))
      as (_ & B).
    + split; vm_compute; discriminate.
    + vm_compute; discriminate.
    + unfold reachable. etransitivity; [|by apply sys_run_step].
      apply demo_sessions_reachable. intros sid. vm_compute. reflexivity.
    + destruct B as (_ & -> & _); [done|vm_compute; reflexivity|done|vm_compute; reflexivity].
Defined.

(** A session parks an eight-byte prompt and is superseded, twice. *)
Definition parked_then_superseded : list (nat * QueueOp) :=
  [(0%nat, OpAccept "u1" 0 "c1" (Some "r1") EnqueueIfBusy (VString "12345678"));
   (0%nat, OpPark Idle 700000000000);
   (0%nat, OpSupersede "u2" 700000000001 "c2" (Some "r2") (VString "x"));
   (1%nat, OpAccept "u3" 700000000002 "c3" (Some "r3") EnqueueIfBusy (VString "abcdefgh"))].

(** Superseding a session whose prompts are parked releases the bytes of
    the parked prompts although they keep their place in the queue: two
    sessions of a reachable system hold seventeen bytes under a budget of ten
    that reports nine, and taking the parked prompt back afterwards releases
    its bytes a second time, so that the budget reports one byte of the nine
    that are left. *)
Theorem parked_bytes_escape_the_quota :
  let S := sys_run_all (H := demo_env) parked_then_superseded demo_sessions in
  let S' := sys_run (H := demo_env) 0 (OpCancel "r1" RCancelled) S in
  reachable (H := demo_env) demo_budget any_queue any_op S
  /\ gb_max_bytes demo_budget = 10 /\ total_bytes S = 17 /\ gs_bytes (sys_global S) = 9
  /\ total_bytes S' = 9 /\ gs_bytes (sys_global S') = 1.
Proof.
  cbn zeta. split; [apply demo_reachable|]. vm_compute. repeat split; reflexivity.
Qed.

(** A client request id that belongs to a row still waiting or running is
    never queued twice: the same request is acknowledged as existing with the
    row's run id and sequence, a different request is refused, and nothing
    changes. *)
Theorem resubmission_is_idempotent `{RunEnv} gb opens allowed S q s r fresh now rid policy payload g :
  0 <= gb_max_count gb <= u64_max -> 0 <= gb_max_bytes gb ->
  reachable gb opens allowed S -> In (q, s) (sys_sessions S) -> In r (live s) ->
  is_blank (run_client_request_id r) = false ->
  (if request_digest rid policy payload =?s run_digest r
   then exists ack, accept q fresh now (run_client_request_id r) rid policy payload g s = inr (ack, g, s)
     /\ ack_run_id ack = run_run_id r /\ ack_run_sequence ack = Some (run_sequence r)
     /\ ack_accepted_state ack = AckExisting
   else accept q fresh now (run_client_request_id r) rid policy payload g s
        = inl (DuplicateRequestConflict (run_client_request_id r))).
Proof.
  intros Hc Hb Hr Hin Hlive Hblank.
  destruct (so_sessions _ _ _ (reachable_ok gb opens allowed (conj Hc Hb) S Hr) q s Hin) as (_ & _ & [Hix _] & _).
  assert (Hid : qs_requests s !! run_client_request_id r = Some (identity_of r)).
  { apply (in_identity _ _ _ Hix). cbn. by apply list_elem_of_In. }
  unfold is_blank in Hblank. unfold accept. rewrite Hblank, Hid. cbn [identity_of id_digest].
  rewrite (String.eqb_sym (run_digest r)).
  destruct (request_digest rid policy payload =?s run_digest r); cbn [negb]; [|done].
  eexists. split; [done|]. apply (existing_ack_fields s (identity_of r)).
Qed.
Lemma resubmission_is_idempotent_witness :
  accept (H := demo_env) (fst burst_session) "u9" 9 "c1" (Some "r1") EnqueueIfBusy (VString "other")
    global_new (snd burst_session) = inl (DuplicateRequestConflict "c1").
Proof.
  pose proof (resubmission_is_idempotent (H := demo_env) demo_budget any_queue any_op
    (sys_run_all (H := demo_env) burst demo_sessions) (fst burst_session) (snd burst_session)
    (List.nth 0 (live (snd burst_session)) (mkRun "" "" 0 "" "" EnqueueIfBusy VNull "" 0))
    "u9" 9 (Some "r1") EnqueueIfBusy (VString "other") global_new) as P.
  vm_compute (if _ : bool then _ else _) in P. refine (P _ _ (demo_reachable burst) _ _ _).
  - split; vm_compute; discriminate.
  - vm_compute; discriminate.
  - vm_compute. by left.
  - vm_compute. by left.
  - vm_compute. reflexivity.
Defined.

(** ** Folding *)
(** The run boundary folds into the front request exactly the longest run
    of opted-in requests behind it whose payloads still fit, with the front's,
    in one request; their order is kept, the rest stays queued in order, and
    nothing else leaves the queue. *)
Theorem folding_is_maximal_and_bounded q g s front behind folded g' s' :
  qs_queued s = front :: behind ->
  (forall r, In r (front :: behind) -> 0 <= run_payload_bytes r) ->
  run_payload_bytes front <= q_max_request_bytes q ->
  drain_coalescing_after_first q g s = (folded, g', s') ->
  exists rest, behind = folded ++ rest /\ qs_queued s' = front :: rest /\ qs_held s' = qs_held s
    /\ (forall r, In r folded -> coalesces (run_busy_policy front) = true
          /\ coalesces (run_busy_policy r) = true)
    /\ run_payload_bytes front + sum_bytes folded <= q_max_request_bytes q
    /\ match rest with
       | [] => True
       | r :: _ => coalesces (run_busy_policy front) = true -> coalesces (run_busy_policy r) = true ->
           q_max_request_bytes q < run_payload_bytes front + sum_bytes folded + run_payload_bytes r
       end.
Proof.
  intros Hq Hb Hf. rewrite forall_in_cons in Hb. destruct Hb as [Hb0 Hb].
  unfold drain_coalescing_after_first. rewrite Hq.
  pose proof (coalescing_count_spec (usize_sat_sub (q_max_request_bytes q) (run_payload_bytes front)) behind)
    as (A & B & C); [unfold usize_sat_sub; lia|done|].
  set (n := coalescing_count _ behind) in *. cbn zeta in *.
  assert (Hs : usize_sat_sub (q_max_request_bytes q) (run_payload_bytes front)
               = q_max_request_bytes q - run_payload_bytes front) by (unfold usize_sat_sub; lia).
  rewrite Hs in B, C.
  destruct (coalesces (run_busy_policy front)) eqn:Ec; cbn [negb].
  2: { intros [= <- <- <-]. exists behind. do 3 (split; [done|]). split; [done|].
       split; [change (sum_bytes []) with 0; lia|by destruct behind]. }
  destruct (Nat.eqb_spec n 0) as [En|En]; intros [= <- <- <-].
  - rewrite En in B, C. rewrite take_0 in B, C. rewrite drop_0 in C. exists behind. do 3 (split; [done|]). split; [done|].
    split; [change (sum_bytes []) with 0; lia|].
    destruct behind as [|r behind]; [done|]. intros _ Hr. destruct C as [C|C]; [congruence|lia].
  - match goal with |- context [remember_all ?l ?a ?b ?c ?s] =>
      pose proof (remember_all_frame l a b c s) as (_ & _ & F3 & F4 & _) end. cbn zeta in *.
    exists (drop n behind). rewrite F3, F4. split; [by rewrite take_drop|].
    do 2 (split; [done|]). split; [by auto|]. split; [lia|].
    destruct (drop n behind) as [|r rest]; [done|]. intros _ Hr. destruct C as [C|C]; [congruence|lia].
Qed.

Definition demo_row (id : string) (sequence : u64) (policy : BusyPolicy) (bytes : usize) : ScheduledRunRequest :=
  mkRun "a" id sequence id "" policy VNull "0" bytes.
Definition demo_burst : QueueState :=
  mkQueue 9 None [demo_row "r1" 1 EnqueueCoalescing 3; demo_row "r2" 2 EnqueueCoalescing 4;
                  demo_row "r3" 3 EnqueueCoalescing 2] [] 9 ∅ ∅ [].
Lemma folding_is_maximal_and_bounded_witness :
  exists rest, [demo_row "r2" 2 EnqueueCoalescing 4; demo_row "r3" 3 EnqueueCoalescing 2]
    = [demo_row "r2" 2 EnqueueCoalescing 4] ++ rest /\ rest = [demo_row "r3" 3 EnqueueCoalescing 2].
Proof.
  pose proof (folding_is_maximal_and_bounded (fst burst_session) global_new demo_burst
    (demo_row "r1" 1 EnqueueCoalescing 3)
    [demo_row "r2" 2 EnqueueCoalescing 4; demo_row "r3" 3 EnqueueCoalescing 2]
    [demo_row "r2" 2 EnqueueCoalescing 4]
    (snd (fst (drain_coalescing_after_first (fst burst_session) global_new demo_burst)))
    (snd (drain_coalescing_after_first (fst burst_session) global_new demo_burst))) as P.
  destruct P as (rest & E & _).
  - reflexivity.
  - intros r Hr. repeat destruct Hr as [<-|Hr]; [vm_compute; discriminate..|destruct Hr].
  - vm_compute. discriminate.
  - vm_compute. reflexivity.
  - exists rest. split; [exact E|]. by injection E as <-.
Defined.

(** ** Parking and releasing *)

(** "send it now" is honoured: a parked row that is released stays
    startable at every boundary that comes before the staleness window has
    passed again, because releasing restarts its clock.  (chrono reads back the
    instants it writes.) *)
Theorem released_row_is_startable `{RunEnv} q s run_id now r s' boundary later parked_now s'' :
  (forall t, parse_from_rfc3339 (to_rfc3339 t) = Some t) ->
  release_held run_id now s = inr (r, s') -> park_stale q boundary later s' = (parked_now, s'') ->
  now <= later -> later - now < q_stale_after q * nanos_per_sec -> q_stale_after q <= i64_max ->
  run_run_id r = run_id /\ In r (qs_queued s'').
Proof.
  intros Hlaw E1 E2 Hle Hlt Hmax.
  apply release_held_inv in E1 as (pre & h & post & bf & bh & Hh & -> & Hid & Hq & _ & _ & ->).
  split; [done|].
  unfold park_stale in E2. cbn [qs_queued set_field eta eta_QueueState] in E2.
  destruct (park_rows _ _ _ _) as [held kept] eqn:Ep. apply park_rows_perm in Ep as (_ & Hk & _ & _).
  injection E2 as _ <-. cbn. rewrite Hk. apply List.filter_In. split; [apply in_or_app; right; by left|].
  unfold park_reason. cbn. rewrite Hlaw. destruct boundary; [done|].
  unfold u64_as_i64, nanos_per_sec in *. rewrite (proj2 (Z.leb_le (q_stale_after q) i64_max)) by done.
  rewrite Z.quot_div_nonneg by lia.
  destruct (Z.leb_spec (q_stale_after q) ((later - now) / 1000000000)) as [Hbad|]; [|done].
  pose proof (Z.mul_div_le (later - now) 1000000000). lia.
Qed.

(** Instants written in binary, the sign first. *)
Fixpoint write_pos (p : positive) : string :=
  match p with xH => "" | xO p => String "0" (write_pos p) | xI p => String "1" (write_pos p) end.
Fixpoint read_pos (s : string) : positive :=
  match s with
  | EmptyString => xH
  | String c s => if Ascii.eqb c "0" then xO (read_pos s) else xI (read_pos s)
  end.
Definition clock_env : RunEnv :=
  {| to_vec := demo_text;
     sha256 := fun l => l;
     to_rfc3339 := fun t =>
       match t with Z0 => "Z" | Zpos p => String "+" (write_pos p) | Zneg p => String "-" (write_pos p) end;
     parse_from_rfc3339 := fun s =>
       match s with
       | String c r => Some (if Ascii.eqb c "Z" then 0 else if Ascii.eqb c "+" then Zpos (read_pos r)
                             else Zneg (read_pos r))
       | EmptyString => None
       end |}.
Lemma clock_env_reads_back t :
  parse_from_rfc3339 (RunEnv := clock_env) (to_rfc3339 (RunEnv := clock_env) t) = Some t.
Proof.
  assert (Hp : forall p, read_pos (write_pos p) = p) by (induction p; cbn; congruence).
  destruct t as [|p|p]; [done| |]; cbv -[read_pos write_pos]; by rewrite Hp.
Qed.

Definition stale_queue : QueueState :=
  mkQueue 9 None [demo_row "r2" 2 EnqueueIfBusy 4] [mkHeld (demo_row "r1" 1 EnqueueIfBusy 3) TooOld] 7 ∅ ∅ [].
Lemma released_row_is_startable_witness :
  exists r, run_run_id r = "r1"
  /\ In r (qs_queued (snd (park_stale (H := clock_env) (fst burst_session) Idle 1500000000000
       (stale_queue <| qs_held := [] |>
          <| qs_queued := [r; demo_row "r2" 2 EnqueueIfBusy 4] |>)))).
Proof.
  exists ((demo_row "r1" 1 EnqueueIfBusy 3) <| run_accepted_at := to_rfc3339 (RunEnv := clock_env) 1000000000000 |>).
  eapply (released_row_is_startable (H := clock_env) (fst burst_session) stale_queue "r1" 1000000000000 _ _
            Idle 1500000000000).
  - exact clock_env_reads_back.
  - vm_compute. reflexivity.
  - apply surjective_pairing.
  - lia.
  - vm_compute. reflexivity.
  - vm_compute. discriminate.
Defined.
