(* ===== verification/TaskTypes.v ===== *)
(** Scheduled tasks, data and pure kernel (src/orchestration/tasks/src): the
    task and run records (types.rs), time zones (timezone.rs), schedules and
    the next due instant, settle reasons, truncation, prompt revisions and the
    run envelope (kernel.rs).

    chrono, chrono-tz, iana-time-zone, uuid and serde are the class
    [TaskLibs].  A calendar date is the number of its day since 1970-01-01, a
    time of day its milliseconds since midnight, an instant its milliseconds
    since the epoch. *)
From S2P Require Import Prelude.

(** * Types *)
Definition TASK_ID_PREFIX : string := "tsk_".
Definition RUN_ID_PREFIX : string := "trn_".
Definition REVISION_ID_PREFIX : string := "rev_".
Definition TASK_ENVELOPE_SCHEMA_VERSION : string := "future_tasks_run_envelope_v1".
Definition REVISION_STATUS_ACTIVE : string := "active".
Definition REVISION_STATUS_SUPERSEDED : string := "superseded".
Definition REVISION_SOURCE_SUPERSEDED : string := "superseded".
Definition REVISION_SOURCE_ROLLBACK : string := "rollback".

Inductive TriggerKind := TrManual | TrSchedule.
Inductive SessionPolicy := SpNew | SpExisting.
Inductive SessionRetention := SrKeep | SrDelete.
Inductive ConversationMode := CmChat | CmWorkspace.
Inductive RunKind := RkMain | RkManual | RkChain.
Inductive RunOrigin := RoSchedule | RoUi | RoCli | RoChain.
Inductive RunStatus := RsRunning | RsCompleted | RsFailed | RsSkipped.
#[export] Instance TriggerKind_eq_dec : EqDecision TriggerKind. Proof. solve_decision. Defined.
#[export] Instance SessionPolicy_eq_dec : EqDecision SessionPolicy. Proof. solve_decision. Defined.
#[export] Instance SessionRetention_eq_dec : EqDecision SessionRetention. Proof. solve_decision. Defined.
#[export] Instance RunKind_eq_dec : EqDecision RunKind. Proof. solve_decision. Defined.
#[export] Instance RunStatus_eq_dec : EqDecision RunStatus. Proof. solve_decision. Defined.

(** [finish_reason] *)
Definition ANSWER : string := "answer".
Definition EMPTY_ANSWER : string := "empty_answer".
Definition CANCELLED : string := "cancelled".
Definition INTERRUPTED : string := "interrupted".
Definition TIMEOUT : string := "timeout".
Definition PROVIDER_ERROR : string := "provider_error".
Definition ERROR : string := "error".

Abbreviation i64 := Z (only parsing).

Record Task := mkTask {
  tk_id : string;
  tk_name : string;
  tk_enabled : bool;
  tk_prompt : string;
  tk_prompt_version : i64;
  tk_cwd : string;
  tk_model_id : option string;
  tk_thinking_level : option string;
  tk_timezone : option string;
  tk_session_policy : SessionPolicy;
  tk_conversation_mode : ConversationMode;
  tk_thread_id : option string;
  tk_trigger_kind : TriggerKind;
  tk_trigger_json : json;
  tk_next_due_at : option i64;
  tk_pending_request_at : option i64;
  tk_pending_origin : option RunOrigin;
  tk_pending_actor : option string;
  tk_session_retention : SessionRetention;
  tk_created_at : i64;
  tk_updated_at : i64;
  tk_deleted_at : option i64
}.
#[export] Instance eta_Task : Eta Task := fun t =>
  mkTask (tk_id t) (tk_name t) (tk_enabled t) (tk_prompt t) (tk_prompt_version t) (tk_cwd t)
    (tk_model_id t) (tk_thinking_level t) (tk_timezone t) (tk_session_policy t)
    (tk_conversation_mode t) (tk_thread_id t) (tk_trigger_kind t) (tk_trigger_json t)
    (tk_next_due_at t) (tk_pending_request_at t) (tk_pending_origin t) (tk_pending_actor t)
    (tk_session_retention t) (tk_created_at t) (tk_updated_at t) (tk_deleted_at t).

Record TaskRun := mkTaskRun {
  tr_id : string;
  tr_task_id : string;
  tr_kind : RunKind;
  tr_origin : RunOrigin;
  tr_actor : option string;
  tr_due_at : option i64;
  tr_status : RunStatus;
  tr_thread_id : option string;
  tr_session_id : option string;
  tr_run_id : option string;
  tr_prompt_version : option i64;
  tr_result_summary : option string;
  tr_feedback : option string;
  tr_feedback_note : option string;
  tr_started_at : option i64;
  tr_finished_at : option i64;
  tr_error_message : option string;
  tr_finish_reason : option string;
  tr_finish_note : option string;
  tr_session_deleted : bool
}.
#[export] Instance eta_TaskRun : Eta TaskRun := fun r =>
  mkTaskRun (tr_id r) (tr_task_id r) (tr_kind r) (tr_origin r) (tr_actor r) (tr_due_at r)
    (tr_status r) (tr_thread_id r) (tr_session_id r) (tr_run_id r) (tr_prompt_version r)
    (tr_result_summary r) (tr_feedback r) (tr_feedback_note r) (tr_started_at r)
    (tr_finished_at r) (tr_error_message r) (tr_finish_reason r) (tr_finish_note r)
    (tr_session_deleted r).

Record PromptRevision := mkRevision {
  rv_id : string;
  rv_task_id : string;
  rv_version : i64;
  rv_prompt : string;
  rv_source : string;
  rv_status : string;
  rv_reason : option string;
  rv_confidence : option f64;
  rv_source_run_id : option string;
  rv_created_at : i64
}.
#[export] Instance eta_PromptRevision : Eta PromptRevision := fun r =>
  mkRevision (rv_id r) (rv_task_id r) (rv_version r) (rv_prompt r) (rv_source r) (rv_status r)
    (rv_reason r) (rv_confidence r) (rv_source_run_id r) (rv_created_at r).

(** [fresh] is the text of the new UUID. *)
Definition new_task_id (fresh : string) : string := TASK_ID_PREFIX +:+ fresh.
Definition new_run_id (fresh : string) : string := RUN_ID_PREFIX +:+ fresh.
Definition new_revision_id (fresh : string) : string := REVISION_ID_PREFIX +:+ fresh.
Definition default_conversation_mode : ConversationMode := CmWorkspace.

(** * Schedules *)
Inductive ScheduleMode :=
| Once (date time : string)
| Interval (every_minutes anchor : i64)
| Daily (time : string)
| Weekly (days : list string) (time : string)
| Monthly (day : i64) (time : string)
| Yearly (month : u32) (day : i64) (time : string).

(** * The libraries *)
Class TaskLibs := {
  Tz : Type;
  (** [parse::<Tz>], [Tz::from_str_insensitive], [Tz::name], the zone the host
      reports, and the zone of the fallback. *)
  tz_parse : string -> option Tz;
  tz_from_str_insensitive : string -> option Tz;
  tz_name : Tz -> string;
  host_timezone : option string;
  Asia__Shanghai : Tz;
  (** Whether [DateTime::from_timestamp_millis] represents an instant; its local
      date and time of day; the earliest instant of a local date and time. *)
  representable : Z -> bool;
  local_date : Tz -> Z -> Z;
  time_of_day : Tz -> Z -> Z;
  earliest_local : Tz -> Z -> Z -> option Z;
  (** The calendar. *)
  year_of : Z -> Z;
  month_of : Z -> Z;
  day_of : Z -> Z;
  days_from_monday : Z -> Z;
  from_ymd_opt : Z -> Z -> Z -> option Z;
  (** Parsing and printing: dates (%Y-%m-%d), times (%H:%M), RFC 3339, the
      serde form of a schedule. *)
  parse_ymd : string -> option Z;
  parse_hm : string -> option Z;
  rfc3339_in : Tz -> Z -> string;
  schedule_from_value : json -> option ScheduleMode;
  value_to_string : json -> string
}.

Definition day_ms : Z := 86400000.

(** * Time zones (timezone.rs) *)
Section Zones.
Context `{TaskLibs}.

Definition FALLBACK_TIMEZONE : string := "Asia/Shanghai".
Definition parse_timezone (name : string) : option Tz :=
  let name := trim name in
  if name =?s "" then None
  else match tz_parse name with Some tz => Some tz | None => tz_from_str_insensitive name end.
Definition system_timezone : option Tz :=
  match host_timezone with Some name => parse_timezone name | None => None end.
Definition default_timezone : Tz :=
  match system_timezone with Some tz => tz | None => Asia__Shanghai end.
Definition task_timezone (task : Task) : Tz :=
  match tk_timezone task with
  | Some name => match parse_timezone name with Some tz => tz | None => default_timezone end
  | None => default_timezone
  end.
Definition resolve_timezone (raw : option string) : string :=
  tz_name
    match raw with
    | Some name => match parse_timezone name with Some tz => tz | None => default_timezone end
    | None => default_timezone
    end.
End Zones.

(** * The next due instant (kernel.rs) *)

(** [i64] arithmetic of a release build. *)
Definition i64_wrap (z : Z) : i64 :=
  (z + 9223372036854775808) mod 18446744073709551616 - 9223372036854775808.
Definition i64_add (a b : i64) : i64 := i64_wrap (a + b).
Definition i64_sub (a b : i64) : i64 := i64_wrap (a - b).
Definition i64_mul (a b : i64) : i64 := i64_wrap (a * b).
(** [x as u32], [x as i32] *)
Definition as_u32 (z : Z) : u32 := z mod 4294967296.
Definition as_i32 (z : Z) : Z := (z + 2147483648) mod 4294967296 - 2147483648.

(** [Iterator::min] *)
Fixpoint minimum (l : list Z) : option Z :=
  match l with
  | [] => None
  | x :: r => match minimum r with Some y => Some (Z.min x y) | None => Some x end
  end.

Definition MAX_GAP_DAYS : i64 := 8.

Definition weekday_num (day : string) : option u32 :=
  let d := to_ascii_lowercase day in
  if d =?s "mon" then Some 0
  else if d =?s "tue" then Some 1
  else if d =?s "wed" then Some 2
  else if d =?s "thu" then Some 3
  else if d =?s "fri" then Some 4
  else if d =?s "sat" then Some 5
  else if d =?s "sun" then Some 6
  else None.

Definition add_months (year : Z) (month : u32) (delta : i64) : Z * u32 :=
  let total := year * 12 + month - 1 + delta in
  (as_i32 (total / 12), as_u32 (total mod 12 + 1)).

Section NextDue.
Context `{TaskLibs}.

Definition parse_schedule (trigger_json : json) : option ScheduleMode := schedule_from_value trigger_json.
Definition parse_time (time : string) : option Z := parse_hm time.
(** A local date and time. *)
Definition parse_date_time (date time : string) : option (Z * Z) :=
  match parse_ymd date with
  | Some d => match parse_time time with Some t => Some (d, t) | None => None end
  | None => None
  end.

(** [None] where the [unwrap] panics: the month after is out of chrono's range. *)
Definition days_in_month (year : Z) (month : u32) : option u32 :=
  let '(y, m) := if month =? 12 then (year + 1, 1) else (year, month + 1) in
  match from_ymd_opt y m 1 with
  | Some first => Some (day_of (first - 1))
  | None => None
  end.

(** The loop of [local_slot]: [fuel] rounds are left. *)
Fixpoint local_slot_from (fuel : nat) (date time : Z) (tz : Tz) : option Z :=
  match fuel with
  | O => None
  | S fuel =>
      match earliest_local tz date time with
      | Some due => Some due
      | None => local_slot_from fuel (date + 1) time tz
      end
  end.
Definition local_slot (date time : Z) (tz : Tz) : option Z :=
  local_slot_from (Z.to_nat (MAX_GAP_DAYS + 1)) date time tz.

Definition next_calendar_time (after time : Z) (tz : Tz) : option Z :=
  let days := if time <=? time_of_day tz after then 1 else 0 in
  local_slot (local_date tz after + days) time tz.

(** [after + Duration::days(delta)] is an exact number of milliseconds later. *)
Definition weekly_candidate (after_ms : i64) (day_nums : list u32) (time : Z) (delta : i64) (tz : Tz)
  : option i64 :=
  if representable after_ms then
    let date := local_date tz (after_ms + delta * day_ms) in
    if bool_decide (days_from_monday date ∈ day_nums) then earliest_local tz date time else None
  else None.

Definition monthly_candidate (after_ms : i64) (day : i64) (time : Z) (delta : i64) (tz : Tz)
  : option i64 :=
  if representable after_ms then
    let today := local_date tz after_ms in
    let '(y, m) := add_months (year_of today) (month_of today) delta in
    match days_in_month y m with
    | Some last =>
        let dom := as_u32 (Z.min day last) in
        match from_ymd_opt y m dom with
        | Some date => earliest_local tz date time
        | None => None
        end
    | None => None
    end
  else None.

Definition yearly_candidate (after_ms : i64) (month : u32) (day : i64) (time : Z) (delta : i64) (tz : Tz)
  : option i64 :=
  if negb ((1 <=? month) && (month <=? 12)) || (day <? 1) then None else
  if representable after_ms then
    let year := year_of (local_date tz after_ms) + as_i32 delta in
    match days_in_month year month with
    | Some last =>
        let dom := as_u32 (Z.min day last) in
        match from_ymd_opt year month dom with
        | Some date => earliest_local tz date time
        | None => None
        end
    | None => None
    end
  else None.

(** [candidates.filter(|c| c > after_ms).min()] *)
Definition first_after (after_ms : i64) (candidates : list i64) : option i64 :=
  minimum (List.filter (fun cand => after_ms <? cand) candidates).

Definition next_due_for_mode (mode : ScheduleMode) (after_ms : i64) (tz : Tz) : option i64 :=
  if negb (representable after_ms) then None else
  match mode with
  | Once date time =>
      match parse_date_time date time with
      | Some (d, t) =>
          match earliest_local tz d t with
          | Some due => if after_ms <? due then Some due else None
          | None => None
          end
      | None => None
      end
  | Interval every_minutes anchor =>
      let step := Z.max (every_minutes * 60000) 60000 in
      let anchor := if 0 <? anchor then anchor else after_ms in
      Some (if anchor <=? after_ms
            then i64_add anchor (i64_mul (i64_add (Z.quot (i64_sub after_ms anchor) step) 1) step)
            else anchor)
  | Daily time =>
      match parse_time time with
      | Some t =>
          match next_calendar_time after_ms t tz with
          | Some due => if after_ms <? due then Some due else None
          | None => None
          end
      | None => None
      end
  | Weekly days time =>
      match parse_time time with
      | Some t =>
          let day_nums := omap weekday_num days in
          if is_empty day_nums then None
          else first_after after_ms
                 (omap (fun delta => weekly_candidate after_ms day_nums t delta tz) (seqZ 0 8))
      | None => None
      end
  | Monthly day time =>
      match parse_time time with
      | Some t =>
          first_after after_ms
            (omap (fun delta => monthly_candidate after_ms day t delta tz) (seqZ 0 13))
      | None => None
      end
  | Yearly month day time =>
      match parse_time time with
      | Some t =>
          first_after after_ms
            (omap (fun delta => yearly_candidate after_ms month day t delta tz) (seqZ 0 3))
      | None => None
      end
  end.

Definition next_due (task : Task) (after_ms : i64) : option i64 :=
  if negb (tk_enabled task) || bool_decide (is_Some (tk_deleted_at task)) then None else
  match tk_trigger_kind task with
  | TrManual => None
  | TrSchedule =>
      match parse_schedule (tk_trigger_json task) with
      | Some mode => next_due_for_mode mode after_ms (task_timezone task)
      | None => None
      end
  end.
End NextDue.

(** * Settling *)
Definition RESULT_SUMMARY_CHARS : usize := 2000.
Definition RUN_OUTPUT_CHARS : usize := 16000.
Definition FINISH_NOTE_CHARS : usize := 400.
Definition LEGACY_PROPOSED_STATUS : string := "proposed".

Definition finish_reason_for_answer (answer : string) : string :=
  if trim answer =?s "" then EMPTY_ANSWER else ANSWER.

(** [rest.split(c).next()] *)
Fixpoint take_until (c : ascii) (s : string) : string :=
  match s with
  | EmptyString => ""
  | String a r => if Ascii.eqb a c then "" else String a (take_until c r)
  end.
Definition one_of (s : string) (l : list string) : bool := List.existsb (String.eqb s) l.

Definition finish_reason_for_error (error : string) : string :=
  let code := match strip_prefix "[" error with Some rest => take_until "]" rest | None => "" end in
  if one_of code ["RUN_CANCELLED"; "RUN_QUEUED"] then CANCELLED
  else if one_of code ["INTERRUPTED_BY_RESTART"] then INTERRUPTED
  else if one_of code ["RESPONSE_TIMEOUT"] then TIMEOUT
  else if one_of code ["UPSTREAM_DISCONNECTED"; "PROVIDER_CANCELLED"; "MODEL_RESPONSE_ERROR";
                       "MODEL_CONTENT_FILTER"; "MODEL_PAUSED"; "OUTPUT_LIMIT"; "AGENT_FAILED"]
  then PROVIDER_ERROR
  else if one_of code ["RESPONSE_UNCONFIRMED"] then INTERRUPTED
  else ERROR.

(** [s.is_char_boundary(i)] *)
Definition is_char_boundary (s : string) (i : nat) : bool :=
  match String.get i s with
  | Some c => negb (is_continuation c)
  | None => Nat.eqb i (String.length s)
  end.
(** The loop of [floor_char_boundary], which steps down from [i]. *)
Fixpoint floor_from (s : string) (i : nat) : nat :=
  match i with
  | O => O
  | S j => if is_char_boundary s i then i else floor_from s j
  end.
Definition floor_char_boundary (s : string) (idx : nat) : nat := floor_from s (Nat.min idx (String.length s)).

Definition MARK : string := "…".
(** [&text[..n]] and [&text[n..]] *)
Definition slice_to (n : nat) (s : string) : string := String.substring 0 n s.
Definition slice_from (n : nat) (s : string) : string := drop_bytes n s.

Definition truncate (text : string) (max : nat) : string :=
  if Nat.leb (String.length text) max then text
  else if Nat.leb max (String.length MARK + 1) then slice_to (floor_char_boundary text max) text
  else
    let budget := (max - String.length MARK)%nat in
    let head_bytes := (budget * 3 / 4)%nat in
    let tail_bytes := (budget - head_bytes)%nat in
    let head := slice_to (floor_char_boundary text head_bytes) text in
    let tail_start := floor_char_boundary text (String.length text - tail_bytes) in
    head +:+ MARK +:+ slice_from tail_start text.

Definition finish_note (answer_chars : usize) (last_tool : option string) : string :=
  let tool :=
    match last_tool with
    | Some name => if trim name =?s "" then "last tool call: none" else "last tool call: " +:+ name
    | None => "last tool call: none"
    end in
  truncate ("answer: " +:+ show answer_chars +:+ " chars · " +:+ tool) (Z.to_nat FINISH_NOTE_CHARS).

Definition deletes_run_conversation (task : Task) : bool :=
  bool_decide (tk_session_retention task = SrDelete) && bool_decide (tk_session_policy task = SpNew).

(** * Prompt revisions

    [fresh] are the texts of the UUIDs of the first and the second row. *)
Definition is_recorded (task : Task) (history : list PromptRevision) : bool :=
  List.existsb (fun r => (rv_version r =? tk_prompt_version task)
                         && negb (rv_status r =?s LEGACY_PROPOSED_STATUS)) history.

Definition prompt_change_revisions (fresh : string * string) (task : Task)
    (history : list PromptRevision) (new_prompt source : string) (reason : option string)
    (at_ms : i64) : list PromptRevision :=
  if new_prompt =?s tk_prompt task then []
  else
    (if is_recorded task history then []
     else [mkRevision (new_revision_id (fst fresh)) (tk_id task) (tk_prompt_version task)
             (tk_prompt task) REVISION_SOURCE_SUPERSEDED REVISION_STATUS_SUPERSEDED None None None at_ms])
    ++ [mkRevision (new_revision_id (snd fresh)) (tk_id task) (i64_add (tk_prompt_version task) 1)
          new_prompt source REVISION_STATUS_ACTIVE reason None None at_ms].

(** * The run envelope *)
Definition run_kind_label (kind : RunKind) : string :=
  match kind with RkMain => "main" | RkManual => "manual" | RkChain => "chain" end.

Section Envelope.
Context `{TaskLibs}.

Definition newline : string := String "010" EmptyString.
Definition local_time (ms : i64) (tz : Tz) : string :=
  if representable ms then rfc3339_in tz ms else "".
Definition trigger_label (task : Task) : string :=
  match tk_trigger_kind task with
  | TrManual => "manual"
  | TrSchedule => value_to_string (tk_trigger_json task)
  end.
Definition app_default (o : option string) : string :=
  match o with Some s => s | None => "(app default)" end.
Definition run_settings_line (task : Task) : string :=
  let parts :=
    (if trim (tk_cwd task) =?s "" then [] else ["cwd=" +:+ trim (tk_cwd task)]) ++
    ["timezone=" +:+ tz_name (task_timezone task);
     "conversation=" +:+ match tk_conversation_mode task with CmChat => "chat" | CmWorkspace => "workspace" end;
     match tk_session_policy task with
     | SpNew => "session=new (fresh conversation per run)"
     | SpExisting =>
         "session=existing (one conversation kept across runs, appended with no pre-run compaction)"
     end;
     "model=" +:+ app_default (tk_model_id task);
     "thinking=" +:+ app_default (tk_thinking_level task)] in
  join " | " parts.

Definition compose_envelope_header (task : Task) (kind : RunKind) (due_ms occurrence : option i64) : string :=
  let tz := task_timezone task in
  let due :=
    match due_ms with
    | Some due => let s := local_time due tz in if s =?s "" then "" else " | due=" +:+ s
    | None => ""
    end in
  let occ := match occurrence with Some n => " | occurrence=" +:+ show n | None => "" end in
  "── " +:+ TASK_ENVELOPE_SCHEMA_VERSION +:+ " ──" +:+ newline
  +:+ "task: " +:+ tk_name task +:+ " | id: " +:+ tk_id task +:+ " | prompt-version: "
  +:+ show (tk_prompt_version task) +:+ newline
  +:+ "run: kind=" +:+ run_kind_label kind +:+ due +:+ occ +:+ newline
  +:+ "trigger: " +:+ trigger_label task +:+ newline
  +:+ "run settings: " +:+ run_settings_line task +:+ newline
  +:+ newline.

Definition INSTRUCTION_BANNER : string := "Instruction:" +:+ newline.
Definition COMPLETION_CONTRACT : string :=
  newline +:+ newline +:+ "Completion contract:" +:+ newline
  +:+ "- This run is unattended: nobody answers mid-run. Make a reasonable choice, record it, and carry on — do not end by asking a question." +:+ newline
  +:+ "- Close with a short report: it becomes this run's summary. State what you did, the artifacts and paths, what is new versus earlier runs, and what is still uncertain." +:+ newline.

Definition compose_run_prompt (task : Task) (kind : RunKind) (due_ms occurrence : option i64)
    (started_at_ms : i64) : string :=
  let due := match due_ms with Some d => Some d | None => Some started_at_ms end in
  compose_envelope_header task kind due occurrence +:+ INSTRUCTION_BANNER
  +:+ tk_prompt task +:+ COMPLETION_CONTRACT.
End Envelope.
