(* ===== verification/TaskScheduleProps.v ===== *)
(** Properties of schedules: a due instant is in the future, intervals keep
    their grid, daily and weekly schedules fire at the next matching instant in
    a zone without clock changes, and what clock changes do to them. *)
From S2P Require Import Prelude TaskTypes.

(** * Least elements *)
Lemma minimum_spec l : match minimum l with
  | Some m => In m l /\ forall y, In y l -> m <= y
  | None => l = []
  end.
Proof.
  induction l as [|x l IH]; [done|]. cbn. destruct (minimum l) as [m|].
  - destruct IH as [IH1 IH2]. split.
    + destruct (Z.min_spec x m) as [[_ ->]|[_ ->]]; auto.
    + intros y [<-|Hy]; [lia|]. specialize (IH2 y Hy). lia.
  - subst. split; [by left|]. intros y [<-|[]]. lia.
Qed.
Lemma first_after_spec after l : match first_after after l with
  | Some m => In m l /\ after < m /\ forall y, In y l -> after < y -> m <= y
  | None => forall y, In y l -> y <= after
  end.
Proof.
  unfold first_after. pose proof (minimum_spec (List.filter (fun c => after <? c) l)) as H.
  destruct (minimum _) as [m|].
  - destruct H as [H1 H2]. apply List.filter_In in H1 as [H1 Hm]. bool_prop.
    split; [done|]. split; [done|]. intros y Hy Hlt. apply H2. apply List.filter_In.
    split; [done|]. by apply Z.ltb_lt.
  - intros y Hy. rewrite filter_nil_iff in H. specialize (H y Hy). by bool_prop.
Qed.
Lemma first_after_some after l m : first_after after l = Some m -> after < m.
Proof. intros E. pose proof (first_after_spec after l) as H. rewrite E in H. apply H. Qed.

Lemma i64_wrap_small z : -9223372036854775808 <= z <= i64_max -> i64_wrap z = z.
Proof. unfold i64_wrap, i64_max. intros. rewrite Z.mod_small; lia. Qed.

(** * Intervals *)
Definition interval_step (every_minutes : Z) : Z := Z.max (every_minutes * 60000) 60000.
Definition interval_anchor (anchor after : Z) : Z := if 0 <? anchor then anchor else after.
(** The slots fit the clock: no product or sum leaves the 64-bit range. *)
Definition interval_fits (every_minutes anchor after : Z) : Prop :=
  -4611686018427387904 <= after <= 4611686018427387903
  /\ interval_step every_minutes <= 4611686018427387903 /\ anchor <= i64_max.

Section Schedules.
Context `{TaskLibs}.

Lemma interval_due every_minutes anchor after tz due :
  interval_fits every_minutes anchor after ->
  next_due_for_mode (Interval every_minutes anchor) after tz = Some due ->
  let step := interval_step every_minutes in
  let start := interval_anchor anchor after in
  if start <=? after then due = start + ((after - start) / step + 1) * step else due = start.
Proof.
  intros (H1 & H2 & H3). unfold next_due_for_mode. destruct (negb _); [done|].
  fold (interval_step every_minutes) (interval_anchor anchor after). cbn zeta.
  destruct (Z.leb_spec (interval_anchor anchor after) after) as [Hle|Hgt]; intros [= <-]; [|done].
  set (step := interval_step every_minutes) in *. set (start := interval_anchor anchor after) in *.
  assert (Hs : 60000 <= step) by (unfold step, interval_step; lia).
  assert (Hst : -4611686018427387904 <= start <= after).
  { unfold start, interval_anchor in *. destruct (Z.ltb_spec 0 anchor); lia. }
  assert (Hdiff : 0 <= after - start <= 4611686018427387903).
  { unfold start, interval_anchor in *. unfold i64_max in *. destruct (Z.ltb_spec 0 anchor); lia. }
  pose proof (Z.mul_div_le (after - start) step ltac:(lia)).
  pose proof (Z.div_pos (after - start) step ltac:(lia) ltac:(lia)).
  set (k := (after - start) / step) in *. unfold i64_max in *.
  assert (Hk : 60000 * k <= after - start) by nia.
  assert (Hks : (k + 1) * step = step * k + step) by ring.
  unfold i64_sub. rewrite (i64_wrap_small (after - start)) by (unfold i64_max; lia).
  rewrite Z.quot_div_nonneg by lia. fold k.
  unfold i64_add, i64_mul.
  rewrite (i64_wrap_small (k + 1)) by (unfold i64_max; lia).
  rewrite (i64_wrap_small ((k + 1) * step)) by (unfold i64_max; lia).
  rewrite i64_wrap_small by (unfold i64_max; lia). done.
Qed.

(** A due instant is strictly later than the instant asked about, for
    every schedule, zone and calendar (an interval's arithmetic staying within
    64 bits): a claimed task cannot come due again at the same moment. *)
Theorem due_is_in_the_future task after due :
  (forall every_minutes anchor, parse_schedule (tk_trigger_json task) = Some (Interval every_minutes anchor) ->
     interval_fits every_minutes anchor after) ->
  next_due task after = Some due -> after < due.
Proof.
  intros Hfit. unfold next_due. destruct (_ || _); [done|]. destruct (tk_trigger_kind task); [done|].
  destruct (parse_schedule _) as [mode|]; [|done]. specialize (Hfit).
  destruct mode as [date time|n anchor|time|days time|day time|month day time].
  2: { intros E. specialize (Hfit n anchor eq_refl). apply interval_due in E; [|done]. cbn zeta in E.
       assert (Hs : 60000 <= interval_step n) by (unfold interval_step; lia).
       destruct (Z.leb_spec (interval_anchor anchor after) after) as [Hle|Hgt]; [|lia].
       set (start := interval_anchor anchor after) in *. set (step := interval_step n) in *.
       pose proof (Z.mul_succ_div_gt (after - start) step ltac:(lia)). nia. }
  all: clear Hfit; unfold next_due_for_mode; destruct (negb _); [done|].
  - destruct (parse_date_time _ _) as [[d t]|]; [|done]. destruct (earliest_local _ _ _); [|done].
    destruct (Z.ltb_spec after z); [|done]. by intros [= <-].
  - destruct (parse_time _); [|done]. destruct (next_calendar_time _ _ _) as [d|]; [|done].
    destruct (Z.ltb_spec after d); [|done]. by intros [= <-].
  - destruct (parse_time _); [|done]. destruct (is_empty _); [done|]. apply first_after_some.
  - destruct (parse_time _); [|done]. apply first_after_some.
  - destruct (parse_time _); [|done]. apply first_after_some.
Qed.

(** an interval schedule fires on a fixed grid: whenever it is asked, the
    answer is the first instant strictly later that lies a whole number of
    steps (at least a minute) from the anchor and not before it, so that late
    ticks do not make it drift; without an anchor it is one step from now. *)
Theorem interval_keeps_its_grid every_minutes anchor after tz due :
  interval_fits every_minutes anchor after ->
  next_due_for_mode (Interval every_minutes anchor) after tz = Some due ->
  let step := interval_step every_minutes in
  (0 < anchor -> exists k, 0 <= k /\ due = anchor + k * step
     /\ forall j, 0 <= j -> after < anchor + j * step -> due <= anchor + j * step)
  /\ (anchor <= 0 -> due = after + step).
Proof.
  intros Hfit E. apply interval_due in E; [|done]. cbn zeta in *.
  assert (Hs : 60000 <= interval_step every_minutes) by (unfold interval_step; lia).
  set (step := interval_step every_minutes) in *. unfold interval_anchor in E. split; intros Ha.
  - destruct (Z.ltb_spec 0 anchor); [|lia]. destruct (Z.leb_spec anchor after) as [Hle|Hgt]; subst due.
    + exists ((after - anchor) / step + 1).
      pose proof (Z.div_pos (after - anchor) step ltac:(lia) ltac:(lia)).
      split; [lia|]. split; [done|]. intros j Hj Hlt.
      pose proof (Z.mul_div_le (after - anchor) step ltac:(lia)).
      assert ((after - anchor) / step < j) by nia. nia.
    + exists 0. split; [lia|]. split; [lia|]. intros j Hj _. nia.
  - destruct (Z.ltb_spec 0 anchor); [lia|]. rewrite Z.leb_refl, Z.sub_diag, Z.div_0_l in E by lia. lia.
Qed.

(** * Zones without clock changes

    What chrono documents of a fixed offset, of weekdays (1970-01-01 was a
    Thursday) and of parsed times. *)
Record fixed_zone (tz : Tz) (offset : Z) : Prop := mkFixedZone {
  fz_date : forall ms, local_date tz ms = (ms + offset) / day_ms;
  fz_time : forall ms, time_of_day tz ms = (ms + offset) mod day_ms;
  fz_earliest : forall d t, 0 <= t < day_ms -> earliest_local tz d t = Some (d * day_ms + t - offset)
}.
Record calendar_laws : Prop := mkCalendarLaws {
  cl_weekday : forall d, days_from_monday d = (d + 3) mod 7;
  cl_time : forall s t, parse_hm s = Some t -> 0 <= t < day_ms
}.

(** The instants at which a daily or weekly schedule means to fire. *)
Definition fires_at (mode : ScheduleMode) (tz : Tz) (x : Z) : Prop :=
  match mode with
  | Daily time => parse_time time = Some (time_of_day tz x)
  | Weekly days time => parse_time time = Some (time_of_day tz x)
      /\ days_from_monday (local_date tz x) ∈ omap weekday_num days
  | _ => False
  end.
(** A daily or weekly schedule that can be read. *)
Definition readable_calendar (mode : ScheduleMode) : Prop :=
  match mode with
  | Daily time => is_Some (parse_time time)
  | Weekly days time => is_Some (parse_time time) /\ omap weekday_num days <> []
  | _ => False
  end.

Lemma weekday_num_range d n : weekday_num d = Some n -> 0 <= n <= 6.
Proof. unfold weekday_num. repeat (destruct (_ =?s _); [intros [= <-]; lia|]). done. Qed.

Lemma day_split x offset : x + offset = (x + offset) / day_ms * day_ms + (x + offset) mod day_ms.
Proof. rewrite (Z.mul_comm _ day_ms). apply Z.div_mod. done. Qed.
Lemma slot_day d t offset : 0 <= t < day_ms -> (d * day_ms + t - offset + offset) / day_ms = d
  /\ (d * day_ms + t - offset + offset) mod day_ms = t.
Proof.
  intros Ht. replace (d * day_ms + t - offset + offset) with (t + d * day_ms) by lia.
  rewrite Z.div_add, Z.mod_add by done. rewrite Z.div_small, Z.mod_small by done. lia.
Qed.

Section Fixed.
Context (tz : Tz) (offset : Z) (Hz : fixed_zone tz offset) (Hc : calendar_laws).

Lemma daily_fires time after :
  representable after = true -> is_Some (parse_time time) ->
  exists due, next_due_for_mode (Daily time) after tz = Some due /\ after < due
    /\ fires_at (Daily time) tz due
    /\ forall x, after < x -> fires_at (Daily time) tz x -> due <= x.
Proof.
  intros Hr [t Ht]. pose proof (cl_time Hc _ _ Ht) as Htr.
  unfold next_due_for_mode, fires_at. rewrite Hr, Ht. cbn [negb].
  set (days := if t <=? time_of_day tz after then 1 else 0).
  assert (En : next_calendar_time after t tz = Some ((local_date tz after + days) * day_ms + t - offset)).
  { unfold next_calendar_time, local_slot. change (Z.to_nat (MAX_GAP_DAYS + 1)) with 9%nat.
    cbn [local_slot_from]. by rewrite (fz_earliest _ _ Hz). }
  rewrite En. pose proof (day_split after offset) as Hd.
  pose proof (Z.mod_pos_bound (after + offset) day_ms ltac:(done)) as Hb.
  rewrite (fz_date _ _ Hz). unfold days. rewrite (fz_time _ _ Hz).
  set (D := (after + offset) / day_ms) in *. set (T := (after + offset) mod day_ms) in *.
  assert (Hlt : after < (D + (if t <=? T then 1 else 0)) * day_ms + t - offset).
  { destruct (Z.leb_spec t T); unfold day_ms in *; lia. }
  rewrite (proj2 (Z.ltb_lt _ _) Hlt). eexists. split; [done|]. split; [done|]. split.
  - rewrite (fz_time _ _ Hz). by rewrite (proj2 (slot_day _ t offset Htr)).
  - intros x Hx. rewrite (fz_time _ _ Hz). intros [= Hxt].
    pose proof (day_split x offset) as Hdx. rewrite <- Hxt in Hdx.
    set (Dx := (x + offset) / day_ms) in *. destruct (Z.leb_spec t T); unfold day_ms in *; nia.
Qed.

Lemma weekly_fires days time after :
  (forall x, representable x = true) -> is_Some (parse_time time) -> omap weekday_num days <> [] ->
  exists due, next_due_for_mode (Weekly days time) after tz = Some due /\ after < due
    /\ fires_at (Weekly days time) tz due
    /\ forall x, after < x -> fires_at (Weekly days time) tz x -> due <= x.
Proof.
  intros Hr [t Ht] Hne. pose proof (cl_time Hc _ _ Ht) as Htr.
  unfold next_due_for_mode, fires_at. rewrite Hr, Ht. cbn [negb].
  set (nums := omap weekday_num days) in *.
  rewrite (proj2 (is_empty_false nums) Hne).
  pose proof (day_split after offset) as Hd.
  pose proof (Z.mod_pos_bound (after + offset) day_ms ltac:(done)) as Hb.
  set (D := (after + offset) / day_ms) in *. set (T := (after + offset) mod day_ms) in *.
  assert (Hcand : forall delta, weekly_candidate after nums t delta tz =
    if bool_decide ((D + delta + 3) mod 7 ∈ nums) then Some ((D + delta) * day_ms + t - offset) else None).
  { intros delta. unfold weekly_candidate. rewrite Hr, (fz_date _ _ Hz), (cl_weekday Hc).
    replace (after + delta * day_ms + offset) with (after + offset + delta * day_ms) by lia.
    rewrite Z.div_add by done. fold D. by rewrite (fz_earliest _ _ Hz). }
  set (l := omap _ (seqZ 0 8)).
  assert (Hin : forall y, In y l <-> exists delta, 0 <= delta < 8 /\ (D + delta + 3) mod 7 ∈ nums
              /\ y = (D + delta) * day_ms + t - offset).
  { intros y. unfold l. rewrite in_omap. setoid_rewrite <- list_elem_of_In. setoid_rewrite elem_of_seqZ.
    setoid_rewrite Hcand. split.
    - intros (delta & Hdelta & E). destruct (bool_decide_reflect ((D + delta + 3) mod 7 ∈ nums)); [|done].
      exists delta. injection E as <-. split; [lia|done].
    - intros (delta & Hdelta & Hm & ->). exists delta. split; [lia|]. by rewrite bool_decide_eq_true_2. }
  (* a selected weekday within the coming week *)
  assert (Hsome : exists y, In y l /\ after < y).
  { destruct nums as [|n nums'] eqn:En; [done|].
    assert (Hn : 0 <= n <= 6).
    { assert (Hnin : In n nums) by (rewrite En; by left). unfold nums in Hnin.
      apply in_omap in Hnin as (d & _ & Hd'). by eapply weekday_num_range. }
    set (delta := (n - (D + 3)) mod 7).
    pose proof (Z.mod_pos_bound (n - (D + 3)) 7 ltac:(lia)) as Hdb. fold delta in Hdb.
    assert (Hm : forall k, (D + (delta + 7 * k) + 3) mod 7 = n).
    { intros k. replace (D + (delta + 7 * k) + 3) with (D + 3 + delta + k * 7) by lia.
      rewrite Z.mod_add by lia. unfold delta. rewrite Zplus_mod_idemp_r.
      replace (D + 3 + (n - (D + 3))) with n by lia. apply Z.mod_small. lia. }
    set (k := if (delta =? 0) && (t <=? T) then 1 else 0).
    exists ((D + (delta + 7 * k)) * day_ms + t - offset). split.
    - apply Hin. exists (delta + 7 * k). split; [|split; [|done]].
      + unfold k. destruct (Z.eqb_spec delta 0), (Z.leb_spec t T); cbn; lia.
      + rewrite Hm. left.
    - unfold k. destruct (Z.eqb_spec delta 0), (Z.leb_spec t T); cbn; unfold day_ms in *; nia. }
  pose proof (first_after_spec after l) as Hf. destruct (first_after after l) as [due|].
  2: { destruct Hsome as (y & Hy & Hlt). specialize (Hf y Hy). lia. }
  destruct Hf as (F1 & F2 & F3). exists due. split; [done|]. split; [done|].
  apply Hin in F1 as (delta & Hdelta & Hm & ->). split.
  - rewrite (fz_time _ _ Hz), (fz_date _ _ Hz), (cl_weekday Hc).
    destruct (slot_day (D + delta) t offset Htr) as [-> ->]. done.
  - intros x Hx. rewrite (fz_time _ _ Hz), (fz_date _ _ Hz), (cl_weekday Hc). intros [[= Hxt] Hw].
    pose proof (day_split x offset) as Hdx. rewrite <- Hxt in Hdx.
    set (Dx := (x + offset) / day_ms) in *.
    destruct (Z_lt_ge_dec (Dx - D) 8) as [Hlt|Hge].
    + apply F3; [|done]. apply Hin. exists (Dx - D). split; [|split].
      * split; [|lia]. unfold day_ms in *. nia.
      * by replace (D + (Dx - D) + 3) with (Dx + 3) by lia.
      * unfold day_ms in *. nia.
    + unfold day_ms in *. nia.
Qed.
End Fixed.
End Schedules.

(** In a zone without clock changes a daily or weekly schedule that can be
    read always has a next slot, and it is the first later instant whose local
    time, and for a weekly schedule local weekday, is one it names. *)
Theorem calendar_slot_is_the_next_one `{TaskLibs} tz offset mode after :
  fixed_zone tz offset -> calendar_laws -> (forall x, representable x = true) ->
  readable_calendar mode ->
  exists due, next_due_for_mode mode after tz = Some due /\ after < due /\ fires_at mode tz due
    /\ forall x, after < x -> fires_at mode tz x -> due <= x.
Proof.
  intros Hz Hc Hr. destruct mode as [| |time|days time| |]; cbn [readable_calendar]; try done.
  - intros Ht. by eapply daily_fires.
  - intros [Ht Hd]. by eapply weekly_fires.
Qed.

(** * A concrete calendar and two zones

    The proleptic Gregorian calendar, Shanghai (UTC+8) and New York in 2026
    (UTC-5, UTC-4 from 8 March 02:00 to 1 November 02:00 local time). *)
Definition civil_from_days (n : Z) : Z * Z * Z :=
  let z := n + 719468 in
  let era := z / 146097 in
  let doe := z mod 146097 in
  let yoe := (doe - doe / 1460 + doe / 36524 - doe / 146096) / 365 in
  let doy := doe - (365 * yoe + yoe / 4 - yoe / 100) in
  let mp := (5 * doy + 2) / 153 in
  let d := doy - (153 * mp + 2) / 5 + 1 in
  let m := if mp <? 10 then mp + 3 else mp - 9 in
  (yoe + era * 400 + (if m <=? 2 then 1 else 0), m, d).
Definition days_from_civil (y m d : Z) : Z :=
  let y := if m <=? 2 then y - 1 else y in
  let era := y / 400 in
  let yoe := y mod 400 in
  let doy := (153 * (if 2 <? m then m - 3 else m + 9) + 2) / 5 + d - 1 in
  era * 146097 + (yoe * 365 + yoe / 4 - yoe / 100 + doy) - 719468.
Definition ymd_opt (y m d : Z) : option Z :=
  let n := days_from_civil y m d in
  if bool_decide (civil_from_days n = (y, m, d)) then Some n else None.

Inductive DemoZone := Shanghai | NewYork.
Definition hour_ms : Z := 3600000.
Definition offset_at (z : DemoZone) (ms : Z) : Z :=
  match z with
  | Shanghai => 8 * hour_ms
  | NewYork => if (1772953200000 <=? ms) && (ms <? 1793512800000) then -4 * hour_ms else -5 * hour_ms
  end.
Definition demo_earliest (z : DemoZone) (d t : Z) : option Z :=
  let at_ off := d * day_ms + t - off in
  match z with
  | Shanghai => Some (at_ (8 * hour_ms))
  | NewYork =>
      minimum (List.filter (fun x => d * day_ms + t =? x + offset_at z x)
                 [at_ (-4 * hour_ms); at_ (-5 * hour_ms)])
  end.
Definition digit (c : ascii) : Z := Z.of_N (byte_code c) - 48.
Definition demo_hm (s : string) : option Z :=
  match s with
  | String a (String b (String ":" (String c (String d EmptyString)))) =>
      let t := (digit a * 10 + digit b) * hour_ms + (digit c * 10 + digit d) * 60000 in
      if (0 <=? t) && (t <? day_ms) then Some t else None
  | _ => None
  end.
Definition demo_schedule (v : json) : option ScheduleMode :=
  match v with
  | JObj [("mode", JStr "daily"); ("time", JStr t)] => Some (Daily t)
  | JObj [("mode", JStr "interval"); ("every_minutes", JNum n)] => Some (Interval n 0)
  | _ => None
  end.
Definition demo_libs : TaskLibs := {|
  Tz := DemoZone;
  tz_parse := fun s => if s =?s "America/New_York" then Some NewYork
                       else if s =?s "Asia/Shanghai" then Some Shanghai else None;
  tz_from_str_insensitive := fun _ => None;
  tz_name := fun z => match z with Shanghai => "Asia/Shanghai" | NewYork => "America/New_York" end;
  host_timezone := None;
  Asia__Shanghai := Shanghai;
  representable := fun _ => true;
  local_date := fun z ms => (ms + offset_at z ms) / day_ms;
  time_of_day := fun z ms => (ms + offset_at z ms) mod day_ms;
  earliest_local := demo_earliest;
  year_of := fun n => fst (fst (civil_from_days n));
  month_of := fun n => snd (fst (civil_from_days n));
  day_of := fun n => snd (civil_from_days n);
  days_from_monday := fun n => (n + 3) mod 7;
  from_ymd_opt := ymd_opt;
  parse_ymd := fun _ => None;
  parse_hm := demo_hm;
  rfc3339_in := fun _ ms => show ms;
  schedule_from_value := demo_schedule;
  value_to_string := fun _ => "{}" |}.

Lemma demo_shanghai_fixed : fixed_zone (H := demo_libs) Shanghai (8 * hour_ms).
Proof. split; done. Qed.
Lemma demo_calendar_laws : calendar_laws (H := demo_libs).
Proof.
  split; [done|]. intros s t E. cbn in E. unfold demo_hm in E.
  repeat match type of E with
  | match ?x with _ => _ end = _ => destruct x eqn:?; try done
  end.
  injection E as <-. bool_prop. done.
Qed.
Lemma calendar_slot_is_the_next_one_witness :
  exists due, next_due_for_mode (H := demo_libs) (Weekly ["mon"; "fri"] "09:00") 1772953200000 Shanghai
              = Some due /\ 1772953200000 < due.
Proof.
  destruct (calendar_slot_is_the_next_one (H := demo_libs) Shanghai (8 * hour_ms)
    (Weekly ["mon"; "fri"] "09:00") 1772953200000) as (due & E & Hlt & _).
  - exact demo_shanghai_fixed.
  - exact demo_calendar_laws.
  - reflexivity.
  - split; [exists (9 * hour_ms); vm_compute; reflexivity|vm_compute; discriminate].
  - exists due. split; [exact E|exact Hlt].
Defined.

Definition demo_task (trigger : json) : Task :=
  mkTask "tsk_1" "report" true "do it" 1 "/w" None None (Some "Asia/Shanghai") SpNew CmWorkspace None
    TrSchedule trigger None None None None SrKeep 0 0 None.
Lemma due_is_in_the_future_witness :
  next_due (H := demo_libs) (demo_task (JObj [("mode", JStr "daily"); ("time", JStr "09:00")])) 1772953200000
    = Some 1773018000000 /\ 1772953200000 < 1773018000000.
Proof.
  split; [vm_compute; reflexivity|].
  apply (due_is_in_the_future (H := demo_libs)
           (demo_task (JObj [("mode", JStr "daily"); ("time", JStr "09:00")]))).
  - intros n a E. vm_compute in E. discriminate E.
  - vm_compute. reflexivity.
Defined.
Lemma interval_keeps_its_grid_witness :
  exists k, 0 <= k /\ 1772953500000 = 1772953200000 + k * interval_step 5.
Proof.
  destruct (proj1 (interval_keeps_its_grid (H := demo_libs) 5 1772953200000 1772953201000 Shanghai 1772953500000
    ltac:(repeat split; vm_compute; discriminate) ltac:(vm_compute; reflexivity)) ltac:(reflexivity))
    as (k & Hk & E & _).
  exists k. split; [exact Hk|exact E].
Defined.

(** Where the clocks change a schedule can lose its next slot, which the
    store reads as no longer scheduled, or skip one.  In New York in 2026: a
    weekly Sunday 02:30 task asked at its slot of 1 March has no next slot,
    because the only Sunday of the coming week falls into the gap of 8 March; a
    daily 01:30 task asked at the second 01:10 of 1 November has none, because
    its slot of that day has already passed once; and a weekly Sunday 09:00 task
    asked on Saturday 7 March at 23:30 skips Sunday 8 March, because a day is
    added as twenty-four hours.  In each case a later slot exists. *)
Theorem clock_changes_lose_slots :
  next_due_for_mode (H := demo_libs) (Weekly ["sun"] "02:30") 1772350200000 NewYork = None
  /\ (1772350200000 < 1773556200000
      /\ fires_at (H := demo_libs) (Weekly ["sun"] "02:30") NewYork 1773556200000)
  /\ next_due_for_mode (H := demo_libs) (Daily "01:30") 1793513400000 NewYork = None
  /\ (1793513400000 < 1793601000000
      /\ fires_at (H := demo_libs) (Daily "01:30") NewYork 1793601000000)
  /\ next_due_for_mode (H := demo_libs) (Weekly ["sun"] "09:00") 1772944200000 NewYork = Some 1773579600000
  /\ (1772944200000 < 1772974800000 < 1773579600000
      /\ fires_at (H := demo_libs) (Weekly ["sun"] "09:00") NewYork 1772974800000).
Proof.
  repeat split; try (vm_compute; reflexivity); vm_compute; left.
Qed.
