(* ===== verification/TaskStore.v ===== *)
(** Scheduled tasks, the ledger (src/orchestration/tasks/src/store.rs): the
    three tables of tasks.db and every statement the store runs on them.

    A table is the list of its rows in insertion order.  Enumerations, flags and
    JSON are stored as the store writes them, as text and integers; reading a
    row parses them.  A statement checks the schema's constraints (primary keys,
    unique indexes, foreign keys, which the connection turns on) before it
    writes.  serde_json's text of a value is the class [JsonText]. *)
From S2P Require Import Prelude TaskTypes.

Class JsonText := {
  json_to_string : json -> string;
  json_from_str : string -> option json
}.

(** * Enumerations as text *)
Definition trigger_kind_str (k : TriggerKind) : string :=
  match k with TrManual => "manual" | TrSchedule => "schedule" end.
Definition parse_trigger_kind (s : string) : option TriggerKind :=
  if s =?s "manual" then Some TrManual else if s =?s "schedule" then Some TrSchedule else None.
Definition conversation_mode_str (mode : ConversationMode) : string :=
  match mode with CmChat => "chat" | CmWorkspace => "workspace" end.
Definition parse_conversation_mode (s : string) : option ConversationMode :=
  if s =?s "chat" then Some CmChat else if s =?s "workspace" then Some CmWorkspace else None.
Definition session_policy_str (p : SessionPolicy) : string :=
  match p with SpNew => "new" | SpExisting => "existing" end.
Definition parse_session_policy (s : string) : option SessionPolicy :=
  if s =?s "new" then Some SpNew else if s =?s "existing" then Some SpExisting else None.
Definition session_retention_str (r : SessionRetention) : string :=
  match r with SrKeep => "keep" | SrDelete => "delete" end.
Definition parse_session_retention (s : string) : option SessionRetention :=
  if s =?s "keep" then Some SrKeep else if s =?s "delete" then Some SrDelete else None.
Definition run_kind_str (k : RunKind) : string :=
  match k with RkMain => "main" | RkManual => "manual" | RkChain => "chain" end.
Definition parse_run_kind (s : string) : option RunKind :=
  if s =?s "main" then Some RkMain else if s =?s "manual" then Some RkManual
  else if s =?s "chain" then Some RkChain else None.
Definition run_origin_str (o : RunOrigin) : string :=
  match o with RoSchedule => "schedule" | RoUi => "ui" | RoCli => "cli" | RoChain => "chain" end.
Definition parse_run_origin (s : string) : option RunOrigin :=
  if s =?s "schedule" then Some RoSchedule else if s =?s "ui" then Some RoUi
  else if s =?s "cli" then Some RoCli else if s =?s "chain" then Some RoChain else None.
Definition run_status_str (s : RunStatus) : string :=
  match s with
  | RsRunning => "running" | RsCompleted => "completed" | RsFailed => "failed" | RsSkipped => "skipped"
  end.
Definition parse_run_status (s : string) : option RunStatus :=
  if s =?s "running" then Some RsRunning else if s =?s "completed" then Some RsCompleted
  else if s =?s "failed" then Some RsFailed else if s =?s "skipped" then Some RsSkipped else None.

(** * Rows *)
Record TaskRow := mkTaskRow {
  ct_id : string;
  ct_name : string;
  ct_enabled : i64;
  ct_prompt : string;
  ct_prompt_version : i64;
  ct_cwd : string;
  ct_model_id : option string;
  ct_thinking_level : option string;
  ct_session_policy : string;
  ct_conversation_mode : string;
  ct_thread_id : option string;
  ct_trigger_kind : string;
  ct_trigger_json : string;
  ct_next_due_at : option i64;
  ct_pending_request_at : option i64;
  ct_pending_origin : option string;
  ct_pending_actor : option string;
  ct_session_retention : string;
  ct_created_at : i64;
  ct_updated_at : i64;
  ct_deleted_at : option i64;
  ct_timezone : option string
}.
#[export] Instance eta_TaskRow : Eta TaskRow := fun t =>
  mkTaskRow (ct_id t) (ct_name t) (ct_enabled t) (ct_prompt t) (ct_prompt_version t) (ct_cwd t)
    (ct_model_id t) (ct_thinking_level t) (ct_session_policy t) (ct_conversation_mode t)
    (ct_thread_id t) (ct_trigger_kind t) (ct_trigger_json t) (ct_next_due_at t)
    (ct_pending_request_at t) (ct_pending_origin t) (ct_pending_actor t) (ct_session_retention t)
    (ct_created_at t) (ct_updated_at t) (ct_deleted_at t) (ct_timezone t).

Record RunRow := mkRunRow {
  cr_id : string;
  cr_task_id : string;
  cr_kind : string;
  cr_origin : string;
  cr_actor : option string;
  cr_due_at : option i64;
  cr_status : string;
  cr_thread_id : option string;
  cr_session_id : option string;
  cr_run_id : option string;
  cr_prompt_version : option i64;
  cr_result_summary : option string;
  cr_feedback : option string;
  cr_feedback_note : option string;
  cr_started_at : option i64;
  cr_finished_at : option i64;
  cr_error_message : option string;
  cr_result_text : option string;
  cr_session_deleted : i64;
  cr_finish_reason : option string;
  cr_finish_note : option string;
  cr_owner : option string
}.
#[export] Instance eta_RunRow : Eta RunRow := fun r =>
  mkRunRow (cr_id r) (cr_task_id r) (cr_kind r) (cr_origin r) (cr_actor r) (cr_due_at r) (cr_status r)
    (cr_thread_id r) (cr_session_id r) (cr_run_id r) (cr_prompt_version r) (cr_result_summary r)
    (cr_feedback r) (cr_feedback_note r) (cr_started_at r) (cr_finished_at r) (cr_error_message r)
    (cr_result_text r) (cr_session_deleted r) (cr_finish_reason r) (cr_finish_note r) (cr_owner r).

(** The database. *)
Record Db := mkDb {
  db_tasks : list TaskRow;
  db_runs : list RunRow;
  db_revisions : list PromptRevision
}.
#[export] Instance eta_Db : Eta Db := fun d => mkDb (db_tasks d) (db_runs d) (db_revisions d).

(** A constraint of the schema, and what a write is refused with. *)
Inductive Constraint :=
| UniqueTasksId | UniqueTasksName
| UniqueRunsId | UniqueRunsSlot | ForeignRunsTask
| UniqueRevisionsId | UniqueRevisionsVersion | ForeignRevisionsTask.
Inductive StoreError :=
| TaskNameTaken (name existing_id : string)
| DriverError (violated : Constraint).
Definition sresult (A : Type) : Type := StoreError + A.

(** The driver's sentence for a violated constraint. *)
Class DriverText := { constraint_text : Constraint -> string }.
Definition quote : string := String "034" EmptyString.
(** [TaskNameTaken::fmt] *)
Definition fmt_name_taken (name existing_id : string) : string :=
  if existing_id =?s ""
  then "a task named " +:+ quote +:+ name +:+ quote
       +:+ " already exists; rename this one or edit that task instead"
  else "a task named " +:+ quote +:+ name +:+ quote +:+ " already exists (" +:+ existing_id
       +:+ "); rename this one or edit that task instead".
Definition store_error_text `{DriverText} (e : StoreError) : string :=
  match e with
  | TaskNameTaken name existing_id => fmt_name_taken name existing_id
  | DriverError violated => constraint_text violated
  end.

Definition bool_int (b : bool) : i64 := if b then 1 else 0.

Section Rows.
Context `{JsonText}.

(** The values of SQL_INSERT_TASK and SQL_UPDATE_TASK. *)
Definition task_values (t : Task) : TaskRow :=
  mkTaskRow (tk_id t) (tk_name t) (bool_int (tk_enabled t)) (tk_prompt t) (tk_prompt_version t)
    (tk_cwd t) (tk_model_id t) (tk_thinking_level t) (session_policy_str (tk_session_policy t))
    (conversation_mode_str (tk_conversation_mode t)) (tk_thread_id t)
    (trigger_kind_str (tk_trigger_kind t)) (json_to_string (tk_trigger_json t)) (tk_next_due_at t)
    (tk_pending_request_at t) (option_map run_origin_str (tk_pending_origin t)) (tk_pending_actor t)
    (session_retention_str (tk_session_retention t)) (tk_created_at t) (tk_updated_at t)
    (tk_deleted_at t) (tk_timezone t).

Definition or_default {A} (o : option A) (a : A) : A := match o with Some x => x | None => a end.

Definition task_from_row (r : TaskRow) : Task :=
  mkTask (ct_id r) (ct_name r) (negb (ct_enabled r =? 0)) (ct_prompt r) (ct_prompt_version r)
    (ct_cwd r) (ct_model_id r) (ct_thinking_level r) (ct_timezone r)
    (or_default (parse_session_policy (ct_session_policy r)) SpNew)
    (or_default (parse_conversation_mode (ct_conversation_mode r)) CmWorkspace)
    (ct_thread_id r)
    (or_default (parse_trigger_kind (ct_trigger_kind r)) TrManual)
    (or_default (json_from_str (ct_trigger_json r)) JNull)
    (ct_next_due_at r) (ct_pending_request_at r)
    (match ct_pending_origin r with Some s => parse_run_origin s | None => None end)
    (ct_pending_actor r)
    (or_default (parse_session_retention (ct_session_retention r)) SrKeep)
    (ct_created_at r) (ct_updated_at r) (ct_deleted_at r).

Definition run_values (run : TaskRun) (owner : option string) : RunRow :=
  mkRunRow (tr_id run) (tr_task_id run) (run_kind_str (tr_kind run)) (run_origin_str (tr_origin run))
    (tr_actor run) (tr_due_at run) (run_status_str (tr_status run)) (tr_thread_id run)
    (tr_session_id run) (tr_run_id run) (tr_prompt_version run) (tr_result_summary run)
    (tr_feedback run) (tr_feedback_note run) (tr_started_at run) (tr_finished_at run)
    (tr_error_message run) None (bool_int (tr_session_deleted run)) (tr_finish_reason run)
    (tr_finish_note run) owner.

Definition run_from_row (r : RunRow) : TaskRun :=
  mkTaskRun (cr_id r) (cr_task_id r) (or_default (parse_run_kind (cr_kind r)) RkMain)
    (or_default (parse_run_origin (cr_origin r)) RoSchedule) (cr_actor r) (cr_due_at r)
    (or_default (parse_run_status (cr_status r)) RsFailed) (cr_thread_id r) (cr_session_id r)
    (cr_run_id r) (cr_prompt_version r) (cr_result_summary r) (cr_feedback r) (cr_feedback_note r)
    (cr_started_at r) (cr_finished_at r) (cr_error_message r) (cr_finish_reason r)
    (cr_finish_note r) (negb (cr_session_deleted r =? 0)).

(** ** Tasks *)
Definition is_live_task (r : TaskRow) : bool := bool_decide (ct_deleted_at r = None).
Definition find_task_by_name (name : string) (db : Db) : option Task :=
  option_map task_from_row
    (List.find (fun r => (ct_name r =?s name) && is_live_task r) (db_tasks db)).
Definition get_task (id : string) (db : Db) : option Task :=
  option_map task_from_row (List.find (fun r => ct_id r =?s id) (db_tasks db)).

(** The sentence for a taken name; every other refusal passes through. *)
Definition explain_write_error (violated : Constraint) (name : string) (db : Db) : StoreError :=
  match violated with
  | UniqueTasksName =>
      TaskNameTaken name (match find_task_by_name name db with Some t => tk_id t | None => "" end)
  | other => DriverError other
  end.

(** The index [tasks_active_name] (the row being written excepted). *)
Definition name_taken (row : TaskRow) (others : list TaskRow) : bool :=
  is_live_task row && List.existsb (fun r => (ct_name r =?s ct_name row) && is_live_task r) others.

Definition insert_task (task : Task) (db : Db) : sresult Db :=
  let row := task_values task in
  if List.existsb (fun r => ct_id r =?s ct_id row) (db_tasks db)
  then inl (explain_write_error UniqueTasksId (tk_name task) db)
  else if name_taken row (db_tasks db)
  then inl (explain_write_error UniqueTasksName (tk_name task) db)
  else inr (db <| db_tasks := db_tasks db ++ [row] |>).

(** SQL_UPDATE_TASK leaves [id] and [created_at]; no row is not an error. *)
Definition update_task (task : Task) (db : Db) : sresult Db :=
  let matching := fun r => ct_id r =?s tk_id task in
  match List.find matching (db_tasks db) with
  | None => inr db
  | Some old =>
      let row := (task_values task) <| ct_created_at := ct_created_at old |> in
      if name_taken row (List.filter (fun r => negb (matching r)) (db_tasks db))
      then inl (explain_write_error UniqueTasksName (tk_name task) db)
      else inr (db <| db_tasks := update_first matching (fun _ => row) (db_tasks db) |>)
  end.

(** ORDER BY created_at DESC, rowid DESC *)
Definition list_tasks (include_deleted : bool) (db : Db) : list Task :=
  List.map task_from_row
    (sort_by_key (fun r => - ct_created_at r)
       (List.rev (List.filter (fun r => include_deleted || is_live_task r) (db_tasks db)))).

(** The WHERE clause of SQL_DUE_TASKS. *)
Definition is_due (now_ms : i64) (r : TaskRow) : bool :=
  is_live_task r && (ct_enabled r =? 1)
  && (bool_decide (is_Some (ct_pending_request_at r))
      || ((ct_trigger_kind r =?s "schedule")
          && match ct_next_due_at r with Some due => due <=? now_ms | None => false end)).
(** ORDER BY next_due_at, created_at: NULL comes first. *)
Definition order_due (rows : list TaskRow) : list TaskRow :=
  let rows := sort_by_key ct_created_at rows in
  List.filter (fun r => bool_decide (ct_next_due_at r = None)) rows
  ++ sort_by_key (fun r => or_default (ct_next_due_at r) 0)
       (List.filter (fun r => bool_decide (is_Some (ct_next_due_at r))) rows).
Definition list_due_tasks (now_ms : i64) (db : Db) : list Task :=
  List.map task_from_row (order_due (List.filter (is_due now_ms) (db_tasks db))).

(** ** Runs *)
Definition task_exists (id : string) (db : Db) : bool := List.existsb (fun t => ct_id t =?s id) (db_tasks db).
(** UNIQUE(task_id, due_at); NULLs are distinct. *)
Definition same_slot (a b : RunRow) : bool :=
  (cr_task_id a =?s cr_task_id b)
  && match cr_due_at a, cr_due_at b with Some x, Some y => x =? y | _, _ => false end.

Definition insert_run_owned (run : TaskRun) (owner : option string) (db : Db) : sresult Db :=
  let row := run_values run owner in
  if List.existsb (fun r => cr_id r =?s cr_id row) (db_runs db) then inl (DriverError UniqueRunsId)
  else if List.existsb (same_slot row) (db_runs db) then inl (DriverError UniqueRunsSlot)
  else if negb (task_exists (cr_task_id row) db) then inl (DriverError ForeignRunsTask)
  else inr (db <| db_runs := db_runs db ++ [row] |>).
Definition insert_run (run : TaskRun) (db : Db) : sresult Db := insert_run_owned run None db.

(** What SQL_UPDATE_RUN sets: everything but the task, the output and the owner. *)
Definition updated_run (run : TaskRun) (old : RunRow) : RunRow :=
  (run_values run (cr_owner old)) <| cr_task_id := cr_task_id old |>
    <| cr_result_text := cr_result_text old |>.
Definition update_run (run : TaskRun) (db : Db) : sresult Db :=
  let matching := fun r => cr_id r =?s tr_id run in
  match List.find matching (db_runs db) with
  | None => inr db
  | Some old =>
      if List.existsb (same_slot (updated_run run old))
           (List.filter (fun r => negb (matching r)) (db_runs db))
      then inl (DriverError UniqueRunsSlot)
      else inr (db <| db_runs := update_first matching (updated_run run) (db_runs db) |>)
  end.

Definition run_output (run_id : string) (db : Db) : option string :=
  match List.find (fun r => cr_id r =?s run_id) (db_runs db) with
  | Some r => cr_result_text r
  | None => None
  end.
Definition set_run_output (run_id text : string) (db : Db) : Db :=
  db <| db_runs := update_first (fun r => cr_id r =?s run_id)
                     (fun r => r <| cr_result_text := Some text |>) (db_runs db) |>.
Definition mark_run_conversation_deleted (run_id : string) (db : Db) : Db :=
  db <| db_runs := update_first (fun r => cr_id r =?s run_id)
    (fun r => r <| cr_thread_id := None |> <| cr_session_id := None |> <| cr_session_deleted := 1 |>)
    (db_runs db) |>.
Definition get_run (id : string) (db : Db) : option TaskRun :=
  option_map run_from_row (List.find (fun r => cr_id r =?s id) (db_runs db)).

(** ORDER BY started_at DESC (NULL last) LIMIT: a negative limit is no limit. *)
Definition order_recent (rows : list RunRow) : list RunRow :=
  sort_by_key (fun r => - or_default (cr_started_at r) 0)
    (List.filter (fun r => bool_decide (is_Some (cr_started_at r))) rows)
  ++ List.filter (fun r => bool_decide (cr_started_at r = None)) rows.
Definition list_runs_for_task (task_id : string) (limit : i64) (db : Db) : list TaskRun :=
  let rows := order_recent (List.filter (fun r => cr_task_id r =?s task_id) (db_runs db)) in
  List.map run_from_row (if limit <? 0 then rows else take (Z.to_nat limit) rows).
Definition latest_run_for_task (task_id : string) (db : Db) : option TaskRun :=
  head (list_runs_for_task task_id 1 db).

Definition is_running (r : RunRow) : bool := cr_status r =?s "running".
Definition has_running_run (task_id : string) (db : Db) : bool :=
  0 <? count (fun r => (cr_task_id r =?s task_id) && is_running r) (db_runs db).
(** ORDER BY started_at: NULL comes first. *)
Definition running_run_owners (db : Db) : list (string * option string) :=
  let rows := List.filter is_running (db_runs db) in
  List.map (fun r => (cr_id r, cr_owner r))
    (List.filter (fun r => bool_decide (cr_started_at r = None)) rows
     ++ sort_by_key (fun r => or_default (cr_started_at r) 0)
          (List.filter (fun r => bool_decide (is_Some (cr_started_at r))) rows)).

Definition failed_run (at_ms : i64) (error reason note : string) (r : RunRow) : RunRow :=
  r <| cr_status := "failed" |> <| cr_finished_at := Some at_ms |>
    <| cr_error_message := Some error |> <| cr_finish_reason := Some reason |>
    <| cr_finish_note := Some note |>.
Definition reap_running_run (run_id : string) (at_ms : i64) (error reason note : string) (db : Db)
  : bool * Db :=
  let matching := fun r => (cr_id r =?s run_id) && is_running r in
  (List.existsb matching (db_runs db),
   db <| db_runs := List.map (fun r => if matching r then failed_run at_ms error reason note r else r)
                      (db_runs db) |>).
Definition mark_interrupted_runs (at_ms : i64) (db : Db) : usize * Db :=
  (count is_running (db_runs db),
   db <| db_runs := List.map (fun r => if is_running r then
       failed_run at_ms "interrupted" INTERRUPTED
         "the tasks loop started and found this run still marked `running`: the process that claimed it is gone, so its conversation is the only record left" r
       else r) (db_runs db) |>).

(** ** Prompt revisions *)
Definition demote (rev : PromptRevision) (r : PromptRevision) : PromptRevision :=
  if (rv_task_id r =?s rv_task_id rev) && (rv_version r <? rv_version rev) && (rv_status r =?s "active")
  then r <| rv_status := REVISION_STATUS_SUPERSEDED |> else r.
Definition insert_revision (rev : PromptRevision) (db : Db) : sresult Db :=
  if List.existsb (fun r => rv_id r =?s rv_id rev) (db_revisions db) then inl (DriverError UniqueRevisionsId)
  else if List.existsb (fun r => (rv_task_id r =?s rv_task_id rev) && (rv_version r =? rv_version rev))
            (db_revisions db)
  then inl (DriverError UniqueRevisionsVersion)
  else if negb (task_exists (rv_task_id rev) db) then inl (DriverError ForeignRevisionsTask)
  else
    let rows := db_revisions db ++ [rev] in
    inr (db <| db_revisions := if rv_status rev =?s REVISION_STATUS_ACTIVE
                               then List.map (demote rev) rows else rows |>).
Definition list_revisions (task_id : string) (db : Db) : list PromptRevision :=
  sort_by_key rv_version (List.filter (fun r => rv_task_id r =?s task_id) (db_revisions db)).
(** SELECT MAX(version) *)
Definition maximum (l : list Z) : option Z := option_map Z.opp (minimum (List.map Z.opp l)).
Definition next_revision_version (task_id : string) (db : Db) : i64 :=
  let versions := List.map rv_version (List.filter (fun r => rv_task_id r =?s task_id) (db_revisions db)) in
  i64_add (or_default (maximum versions) 0) 1.
End Rows.
