(* ===== verification/TaskTick.v ===== *)
(** Scheduled tasks, the host (src/host/src/tasks.rs): the tick that settles
    orphaned runs and claims due tasks, the settling of a run, and the prompt
    and switch operations the clients share.

    The host is the database, the runs its executors are carrying and its own
    name in the ledger.  Starting an executor, prompting the agent and deleting
    a conversation are outside; what they return is an argument. *)
From S2P Require Import Prelude TaskTypes TaskStore.

Definition EMPTY_ANSWER_ERROR : string :=
  "[EMPTY_ANSWER] the run finished without any answer; its turn produced no text".
Definition ORPHANED_RUN_ERROR : string :=
  "the host that claimed this run is gone; it was settled by a later tick".
Definition ORPHANED_RUN_NOTE : string :=
  "no live executor owned this run: its claim row was left in `running` when the host stopped (killed or crashed) mid-run, so its conversation is the only record left".

Record RunAnswer := mkRunAnswer { ra_text : string; ra_last_tool : option string }.
Inductive ClaimReason := Explicit | Schedule.

Record Host := mkHost {
  h_db : Db;
  h_owner : string;
  h_live : gset string
}.
#[export] Instance eta_Host : Eta Host := fun h => mkHost (h_db h) (h_owner h) (h_live h).

Section Tick.
Context `{TaskLibs} `{JsonText} `{DriverText}.

(** * Clients *)
(** [for row in rows { store.insert_revision(row)? }]: the rows before the
    refused one stay. *)
Fixpoint insert_revisions (rows : list PromptRevision) (db : Db) : option StoreError * Db :=
  match rows with
  | [] => (None, db)
  | row :: rows =>
      match insert_revision row db with
      | inl e => (Some e, db)
      | inr db => insert_revisions rows db
      end
  end.

Definition accept_revision (fresh : string * string) (now now' : i64) (task_id revision_id : string) (db : Db)
  : (string + Task) * Db :=
  match get_task task_id db with
  | None => (inl "task not found", db)
  | Some task =>
      let history := list_revisions task_id db in
      match List.find (fun r => rv_id r =?s revision_id) history with
      | None => (inl "revision not found", db)
      | Some revision =>
          let reason := Some ("applied revision " +:+ revision_id +:+ " (v"
                              +:+ show (rv_version revision) +:+ ")") in
          let rows := prompt_change_revisions fresh task history (rv_prompt revision)
                        REVISION_SOURCE_ROLLBACK reason now in
          match last rows with
          | None => (inr task, db)
          | Some applied =>
              match insert_revisions rows db with
              | (Some e, db) => (inl (store_error_text e), db)
              | (None, db) =>
                  let task := task <| tk_prompt := rv_prompt applied |>
                                   <| tk_prompt_version := rv_version applied |>
                                   <| tk_updated_at := now' |> in
                  match update_task task db with
                  | inl e => (inl (store_error_text e), db)
                  | inr db => (inr task, db)
                  end
              end
          end
      end
  end.

Definition apply_task_enabled (task : Task) (enabled : bool) (now : i64) : Task :=
  let task := task <| tk_enabled := enabled |> in
  let task :=
    if enabled && bool_decide (tk_trigger_kind task = TrSchedule)
    then task <| tk_next_due_at := next_due task now |> else task in
  task <| tk_updated_at := now |>.

(** * The tick *)
Definition candidates (now : i64) (db : Db) : list (Task * ClaimReason) :=
  List.map (fun task => (task, if bool_decide (is_Some (tk_pending_request_at task))
                               then Explicit else Schedule))
    (list_due_tasks now db).

Definition orphaned (h : Host) (id : string) (owner : option string) : bool :=
  match owner with
  | Some owner => if owner =?s h_owner h then negb (bool_decide (id ∈ h_live h)) else true
  | None => true
  end.
(** The loop over the running rows; a settled row is reported. *)
Fixpoint reap_each (now : i64) (rows : list (string * option string)) (h : Host) : list string * Host :=
  match rows with
  | [] => ([], h)
  | (id, owner) :: rows =>
      if negb (orphaned h id owner) then reap_each now rows h else
      let '(changed, db) := reap_running_run id now ORPHANED_RUN_ERROR INTERRUPTED ORPHANED_RUN_NOTE (h_db h) in
      let '(reaped, h) := reap_each now rows (h <| h_db := db |>) in
      (if changed then id :: reaped else reaped, h)
  end.
Definition reap_orphaned_runs (now : i64) (h : Host) : list string * Host :=
  reap_each now (running_run_owners (h_db h)) h.

(** The run row of a claim.  [fresh] is the text of the new UUID. *)
Definition claimed_run (fresh : string) (now : i64) (task : Task) (reason : ClaimReason) : TaskRun :=
  let '(kind, origin, due_at) :=
    match reason with
    | Explicit => (RkManual, or_default (tk_pending_origin task) RoCli, None)
    | Schedule => (RkMain, RoSchedule, tk_next_due_at task)
    end in
  mkTaskRun (new_run_id fresh) (tk_id task) kind origin (tk_pending_actor task) due_at RsRunning
    None None None (Some (tk_prompt_version task)) None None None (Some now) None None None None false.
Definition claimed_task (now : i64) (task : Task) (reason : ClaimReason) : Task :=
  let t := match reason with
           | Schedule => task <| tk_next_due_at := next_due task now |>
           | Explicit => task
           end in
  t <| tk_pending_request_at := None |> <| tk_pending_origin := None |>
    <| tk_pending_actor := None |> <| tk_updated_at := now |>.
(** The row is inserted before the task is updated: a refused update leaves it. *)
Definition claim (fresh : string) (now : i64) (task : Task) (reason : ClaimReason) (h : Host)
  : sresult TaskRun * Host :=
  let run := claimed_run fresh now task reason in
  match insert_run_owned run (Some (h_owner h)) (h_db h) with
  | inl e => (inl e, h)
  | inr db =>
      let h := h <| h_db := db |> in
      match update_task (claimed_task now task reason) (h_db h) with
      | inl e => (inl e, h)
      | inr db => (inr run, h <| h_db := db |>)
      end
  end.

(** The claiming loop: the runs whose executors were started, and the error the
    tick ended with.  Each candidate draws a UUID and reads the clock; stopping
    is noticed between candidates. *)
Fixpoint claim_each (envs : list (string * i64 * bool)) (cands : list (Task * ClaimReason)) (h : Host)
  : option StoreError * list TaskRun * Host :=
  match cands, envs with
  | (task, reason) :: cands, (fresh, now, stopping) :: envs =>
      if (stopping : bool) then (None, [], h) else
      if has_running_run (tk_id task) (h_db h) then claim_each envs cands h else
      match claim fresh now task reason h with
      | (inl e, h) => (Some e, [], h)
      | (inr run, h) =>
          let h := h <| h_live ::= fun live => {[ tr_id run ]} ∪ live |> in
          let '(e, started, h) := claim_each envs cands h in
          (e, run :: started, h)
      end
  | _, _ => (None, [], h)
  end.
Definition tick (now : i64) (envs : list (string * i64 * bool)) (h : Host)
  : option StoreError * list TaskRun * Host :=
  let h := snd (reap_orphaned_runs now h) in
  claim_each envs (candidates now (h_db h)) h.

(** * Opening a run: the ledger's part of [run_inner] *)

(** [get_thread] reads the conversation store: an error, no conversation, or its
    agent session. *)
Definition bound_thread (get_thread : string -> string + option (option string)) (task : Task)
  : string + option (string * string) :=
  match tk_thread_id task with
  | None => inr None
  | Some thread_id =>
      match get_thread thread_id with
      | inl e => inl e
      | inr None => inl "bound task thread is missing"
      | inr (Some None) => inl "bound task thread has no agent session"
      | inr (Some (Some session_id)) => inr (Some (thread_id, session_id))
      end
  end.
Definition bind_task_thread (now : i64) (task : Task) (thread_id : string) (db : Db) : sresult Db :=
  update_task (task <| tk_thread_id := Some thread_id |> <| tk_updated_at := now |>) db.

(** The conversation of a run, then the run row that names it.  [created] is
    what [create_new_session] returns; the error, if any, is the outcome. *)
Definition open_run (get_thread : string -> string + option (option string)) (created : string + (string * string))
    (now : i64) (task : Task) (run : TaskRun) (db : Db) : option string * TaskRun * Db :=
  let '(ids, db) :=
    match tk_session_policy task with
    | SpNew => (created, db)
    | SpExisting =>
        match bound_thread get_thread task with
        | inl e => (inl e, db)
        | inr (Some ids) => (inr ids, db)
        | inr None =>
            match created with
            | inl e => (inl e, db)
            | inr ids =>
                match bind_task_thread now task (fst ids) db with
                | inl e => (inl (store_error_text e), db)
                | inr db => (inr ids, db)
                end
            end
        end
    end in
  match ids with
  | inl e => (Some e, run, db)
  | inr (thread_id, session_id) =>
      let run := run <| tr_thread_id := Some thread_id |> <| tr_session_id := Some session_id |> in
      match update_run run db with
      | inl e => (Some (store_error_text e), run, db)
      | inr db => (None, run, db)
      end
  end.

(** * Settling *)

(** What a run ends with: status, error, reason, note and output.  [digest] is
    the best-effort read of the session of a failed run. *)
Definition settle_outcome (outcome : string + RunAnswer) (digest : option RunAnswer)
  : RunStatus * option string * string * option string * option string :=
  match outcome with
  | inr answer =>
      let finish := finish_reason_for_answer (ra_text answer) in
      if finish =?s EMPTY_ANSWER
      then (RsFailed, Some EMPTY_ANSWER_ERROR, finish, Some (finish_note 0 (ra_last_tool answer)), None)
      else (RsCompleted, None, finish, None, Some (ra_text answer))
  | inl error =>
      let note :=
        match digest with
        | Some answer => finish_note (Z.of_nat (char_count (ra_text answer))) (ra_last_tool answer)
        | None => truncate "the run's session could not be read back (the Agent may have been gone); its terminal state is in the error above" (Z.to_nat FINISH_NOTE_CHARS)
        end in
      (RsFailed, Some error, finish_reason_for_error error, Some note, None)
  end.
Definition settled_run (now : i64) (outcome : string + RunAnswer) (digest : option RunAnswer) (run : TaskRun)
  : TaskRun :=
  let '(status, error, reason, note, output) := settle_outcome outcome digest in
  let run := match output with
             | Some text => run <| tr_result_summary := Some (truncate text (Z.to_nat RESULT_SUMMARY_CHARS)) |>
             | None => run
             end in
  run <| tr_status := status |> <| tr_finished_at := Some now |> <| tr_error_message := error |>
      <| tr_finish_reason := Some reason |> <| tr_finish_note := note |>.

Definition forget_conversation (run : TaskRun) : TaskRun :=
  run <| tr_session_deleted := true |> <| tr_thread_id := None |> <| tr_session_id := None |>.

(** [execute] after the run itself: the ledger write, the saved answer, then the
    conversation.  [deleted] and [deleted_shell] say whether the two attempts
    to delete it succeed, [has_entries] what the agent says of the session. *)
Definition execute (now : i64) (outcome : string + RunAnswer) (digest : option RunAnswer)
    (deleted deleted_shell : bool) (has_entries : option bool) (task : Task) (run : TaskRun) (db : Db)
  : sresult (TaskRun * Db) :=
  let run := settled_run now outcome digest run in
  match update_run run db with
  | inl e => inl e
  | inr db =>
      let db := match snd (settle_outcome outcome digest) with
                | Some text => set_run_output (tr_id run) (truncate text (Z.to_nat RUN_OUTPUT_CHARS)) db
                | None => db
                end in
      let '(run, db) :=
        if deletes_run_conversation task && bool_decide (is_Some (tr_thread_id run)) && deleted
        then (forget_conversation run, mark_run_conversation_deleted (tr_id run) db)
        else (run, db) in
      let '(run, db) :=
        if negb (tr_session_deleted run) && bool_decide (tk_session_policy task = SpNew)
           && bool_decide (is_Some (tr_session_id run))
           && match has_entries with Some false => true | _ => false end
           && bool_decide (is_Some (tr_thread_id run)) && deleted_shell
        then (forget_conversation run, mark_run_conversation_deleted (tr_id run) db)
        else (run, db) in
      inr (run, db)
  end.

(** [InterruptedTask::drop] *)
Definition interrupt (now : i64) (id : string) (db : Db) : sresult Db :=
  match get_run id db with
  | Some run =>
      if bool_decide (tr_status run = RsRunning)
      then update_run (run <| tr_status := RsFailed |> <| tr_finished_at := Some now |>
                           <| tr_error_message := Some "Desktop stopped before task completion" |>
                           <| tr_finish_reason := Some INTERRUPTED |>
                           <| tr_finish_note := Some "the host stopped while this run was in flight; its conversation is the only record left" |>) db
      else inr db
  | None => inr db
  end.
End Tick.
