(* ===== verification/TaskService.v ===== *)
(** Scheduled tasks, the desktop's form and requests
    (src/host/src/tasks/service.rs): the views a client reads, the task form,
    and the operations of the panel over the ledger.

    An operation takes the opened database, the clock readings it makes and the
    texts of the UUIDs it draws, and returns its view or the error message with
    the database as it was left. *)
From S2P Require Import Prelude TaskTypes TaskStore TaskTick.

(** The [Debug] names of the enumerations. *)
Definition debug_trigger_kind (k : TriggerKind) : string :=
  match k with TrManual => "Manual" | TrSchedule => "Schedule" end.
Definition debug_session_policy (p : SessionPolicy) : string :=
  match p with SpNew => "New" | SpExisting => "Existing" end.
Definition debug_session_retention (r : SessionRetention) : string :=
  match r with SrKeep => "Keep" | SrDelete => "Delete" end.
Definition debug_conversation_mode (m : ConversationMode) : string :=
  match m with CmChat => "Chat" | CmWorkspace => "Workspace" end.
Definition debug_run_kind (k : RunKind) : string :=
  match k with RkMain => "Main" | RkManual => "Manual" | RkChain => "Chain" end.
Definition debug_run_origin (o : RunOrigin) : string :=
  match o with RoSchedule => "Schedule" | RoUi => "Ui" | RoCli => "Cli" | RoChain => "Chain" end.
Definition debug_run_status (s : RunStatus) : string :=
  match s with RsRunning => "Running" | RsCompleted => "Completed" | RsFailed => "Failed" | RsSkipped => "Skipped" end.

(** [format!("{s:?}")], exact for ASCII text and for the characters beyond it
    that [Debug] prints as they are. *)
Definition hex_char (n : N) : ascii := ascii_of_N (if (n <? 10)%N then 48 + n else 87 + n)%N.
Definition debug_char (c : ascii) : string :=
  let n := byte_code c in
  let escaped := fun e => String "\" (String e EmptyString) in
  if (n =? 34)%N || (n =? 92)%N then escaped c
  else if (n =? 0)%N then escaped "0"%char
  else if (n =? 9)%N then escaped "t"%char
  else if (n =? 10)%N then escaped "n"%char
  else if (n =? 13)%N then escaped "r"%char
  else if (n <? 32)%N || (n =? 127)%N
  then "\u{" +:+ (if (n <? 16)%N then String (hex_char n) EmptyString
                  else String (hex_char (n / 16)%N) (String (hex_char (n mod 16)%N) EmptyString)) +:+ "}"
  else String c EmptyString.
Definition debug_str (s : string) : string :=
  quote +:+ String.concat "" (List.map debug_char (list_ascii_of_string s)) +:+ quote.

(** * Views *)
Record RunView := mkRunView {
  rw_id : string;
  rw_kind : string;
  rw_origin : string;
  rw_status : string;
  rw_due_at : option i64;
  rw_thread_id : option string;
  rw_session_id : option string;
  rw_started_at : option i64;
  rw_finished_at : option i64;
  rw_prompt_version : option i64;
  rw_result_summary : option string;
  rw_error_message : option string;
  rw_finish_reason : option string;
  rw_finish_note : option string;
  rw_session_deleted : bool
}.

Record TaskView := mkTaskView {
  tw_id : string;
  tw_name : string;
  tw_enabled : bool;
  tw_prompt : string;
  tw_prompt_version : i64;
  tw_cwd : string;
  tw_model_id : option string;
  tw_thinking_level : option string;
  tw_timezone : string;
  tw_session_policy : string;
  tw_session_retention : string;
  tw_conversation_mode : string;
  tw_trigger_kind : string;
  tw_trigger : json;
  tw_dep_count : usize;
  tw_next_due_at : option i64;
  tw_queued : bool;
  tw_latest_run : option RunView
}.

Record RevisionView := mkRevisionView {
  vw_id : string;
  vw_version : i64;
  vw_prompt : string;
  vw_source : string;
  vw_status : string;
  vw_reason : option string;
  vw_confidence : option f64;
  vw_source_run_id : option string;
  vw_created_at : i64
}.

Record DepView := mkDepView {
  dw_upstream_task_id : string;
  dw_upstream_name : string;
  dw_on : string;
  dw_satisfied : bool
}.

Definition run_view (run : TaskRun) : RunView :=
  mkRunView (tr_id run) (to_ascii_lowercase (debug_run_kind (tr_kind run)))
    (to_ascii_lowercase (debug_run_origin (tr_origin run)))
    (to_ascii_lowercase (debug_run_status (tr_status run)))
    (tr_due_at run) (tr_thread_id run) (tr_session_id run) (tr_started_at run) (tr_finished_at run)
    (tr_prompt_version run) (tr_result_summary run) (tr_error_message run) (tr_finish_reason run)
    (tr_finish_note run) (tr_session_deleted run).

(** * The form *)
Record TaskInput := mkTaskInput {
  in_name : string;
  in_prompt : string;
  in_cwd : string;
  in_model_id : option string;
  in_thinking_level : option string;
  in_timezone : option string;
  in_session_policy : option string;
  in_conversation_mode : option string;
  in_session_retention : option string;
  in_trigger_kind : option string;
  in_trigger : option json;
  in_enabled : option bool
}.

Definition is_text (raw : option string) (s : string) : bool :=
  match raw with Some r => r =?s s | None => false end.
Definition read_conversation_mode (raw : option string) : ConversationMode :=
  if is_text raw "chat" then CmChat else CmWorkspace.
Definition read_session_policy (raw : option string) : SessionPolicy :=
  if is_text raw "existing" then SpExisting else SpNew.
Definition read_session_retention (raw : option string) (policy : SessionPolicy) : SessionRetention :=
  if is_text raw "delete" && bool_decide (policy = SpNew) then SrDelete else SrKeep.
Definition read_trigger_kind (raw : option string) : TriggerKind :=
  if is_text raw "schedule" then TrSchedule else TrManual.

Section Service.
Context `{TaskLibs} `{JsonText} `{DriverText}.

Definition task_view (task : Task) (db : Db) : TaskView :=
  mkTaskView (tk_id task) (tk_name task) (tk_enabled task) (tk_prompt task) (tk_prompt_version task)
    (tk_cwd task) (tk_model_id task) (tk_thinking_level task) (tz_name (task_timezone task))
    (to_ascii_lowercase (debug_session_policy (tk_session_policy task)))
    (to_ascii_lowercase (debug_session_retention (tk_session_retention task)))
    (to_ascii_lowercase (debug_conversation_mode (tk_conversation_mode task)))
    (to_ascii_lowercase (debug_trigger_kind (tk_trigger_kind task)))
    (tk_trigger_json task) 0 (tk_next_due_at task) (bool_decide (is_Some (tk_pending_request_at task)))
    (option_map run_view (latest_run_for_task (tk_id task) db)).

Definition unknown_timezone (name : string) : string :=
  "unknown timezone " +:+ debug_str name +:+ ": expected an IANA name like Asia/Shanghai".
(** The name a zone field resolves to: blank asks for the host's zone. *)
Definition resolve_zone (name : option string) : string + string :=
  match option_map trim name with
  | Some name =>
      if name =?s "" then inr (resolve_timezone None)
      else match parse_timezone name with
           | Some tz => inr (tz_name tz)
           | None => inl (unknown_timezone name)
           end
  | None => inr (resolve_timezone None)
  end.
Definition parse_timezone_field (raw : option string) : string + option string :=
  match resolve_zone raw with inl e => inl e | inr name => inr (Some name) end.

(** * Operations *)
Definition svc_list_tasks (db : Db) : list TaskView :=
  List.map (fun t => task_view t db) (list_tasks false db).

(** The task of a filled form, before its first slot. *)
Definition created_task (fresh : string) (now : i64) (timezone : option string) (input : TaskInput) : Task :=
  mkTask (new_task_id fresh) (in_name input) (or_default (in_enabled input) true) (in_prompt input) 1
    (in_cwd input) (in_model_id input) (in_thinking_level input) timezone
    (read_session_policy (in_session_policy input)) (read_conversation_mode (in_conversation_mode input)) None
    (read_trigger_kind (in_trigger_kind input)) (or_default (in_trigger input) (JObj [])) None None None None
    (read_session_retention (in_session_retention input) (read_session_policy (in_session_policy input)))
    now now None.
Definition svc_create_task (fresh : string) (now : i64) (input : TaskInput) (db : Db)
  : (string + TaskView) * Db :=
  match parse_timezone_field (in_timezone input) with
  | inl e => (inl e, db)
  | inr timezone =>
      let task := created_task fresh now timezone input in
      let task :=
        if bool_decide (tk_trigger_kind task = TrSchedule)
        then task <| tk_next_due_at := next_due task (i64_sub now 1) |> else task in
      match insert_task task db with
      | inl e => (inl (store_error_text e), db)
      | inr db => (inr (task_view task db), db)
      end
  end.

(** The fields an edit writes, the zone and the slot apart. *)
Definition edited_task (input : TaskInput) (task : Task) : Task :=
  let policy := read_session_policy (in_session_policy input) in
  task <| tk_name := in_name input |> <| tk_prompt := in_prompt input |> <| tk_cwd := in_cwd input |>
       <| tk_model_id := in_model_id input |> <| tk_thinking_level := in_thinking_level input |>
       <| tk_session_policy := policy |>
       <| tk_session_retention := read_session_retention (in_session_retention input) policy |>
       <| tk_conversation_mode := read_conversation_mode (in_conversation_mode input) |>
       <| tk_trigger_kind := read_trigger_kind (in_trigger_kind input) |>
       <| tk_trigger_json := or_default (in_trigger input) (tk_trigger_json task) |>
       <| tk_enabled := or_default (in_enabled input) (tk_enabled task) |>.
Definition edited_timezone (input : TaskInput) (task : Task) : string + option string :=
  match in_timezone input with
  | Some raw => parse_timezone_field (Some raw)
  | None => inr (tk_timezone task)
  end.
(** [now], [now'] and [now''] are read for the revisions, [updated_at] and the slot. *)
Definition svc_update_task (fresh : string * string) (now now' now'' : i64) (id : string) (input : TaskInput)
    (db : Db) : (string + TaskView) * Db :=
  match get_task id db with
  | None => (inl "task not found", db)
  | Some task =>
      let prompt_revisions :=
        if negb (in_prompt input =?s tk_prompt task)
        then prompt_change_revisions fresh task (list_revisions (tk_id task) db) (in_prompt input) "user" None now
        else [] in
      match edited_timezone input task with
      | inl e => (inl e, db)
      | inr timezone =>
          let task := (edited_task input task) <| tk_timezone := timezone |> <| tk_updated_at := now' |> in
          let task :=
            task <| tk_next_due_at :=
                      if bool_decide (tk_trigger_kind task = TrSchedule)
                      then next_due task (i64_sub now'' 1) else None |> in
          match insert_revisions prompt_revisions db with
          | (Some e, db) => (inl (store_error_text e), db)
          | (None, db) =>
              let task :=
                match last prompt_revisions with
                | Some row => task <| tk_prompt_version := rv_version row |>
                | None => task
                end in
              match update_task task db with
              | inl e => (inl (store_error_text e), db)
              | inr db => (inr (task_view task db), db)
              end
          end
      end
  end.

(** The shape the remaining writes share: the stored task, changed, is written back. *)
Definition rewrite_task (id : string) (change : Task -> Task) (db : Db) : (string + Task) * Db :=
  match get_task id db with
  | None => (inl "task not found", db)
  | Some task =>
      let task := change task in
      match update_task task db with
      | inl e => (inl (store_error_text e), db)
      | inr db => (inr task, db)
      end
  end.
Definition with_view (r : (string + Task) * Db) : (string + TaskView) * Db :=
  match r with
  | (inl e, db) => (inl e, db)
  | (inr task, db) => (inr (task_view task db), db)
  end.

Definition deleted_task (now now' : i64) (task : Task) : Task :=
  task <| tk_deleted_at := Some now |> <| tk_enabled := false |> <| tk_updated_at := now' |>.
Definition svc_delete_task (now now' : i64) (id : string) (db : Db) : (string + unit) * Db :=
  match rewrite_task id (deleted_task now now') db with
  | (inl e, db) => (inl e, db)
  | (inr _, db) => (inr tt, db)
  end.
Definition svc_set_task_enabled (now : i64) (id : string) (enabled : bool) (db : Db)
  : (string + TaskView) * Db :=
  with_view (rewrite_task id (fun task => apply_task_enabled task enabled now) db).
Definition requested_task (now now' : i64) (actor : string) (task : Task) : Task :=
  task <| tk_pending_request_at := Some now |> <| tk_pending_origin := Some RoUi |>
       <| tk_pending_actor := Some actor |> <| tk_updated_at := now' |>.
Definition svc_run_task_now (now now' : i64) (id : string) (db : Db) : (string + TaskView) * Db :=
  with_view (rewrite_task id (requested_task now now' "user") db).

Definition svc_list_task_runs (id : string) (limit : option i64) (db : Db) : list RunView :=
  List.map run_view (list_runs_for_task id (or_default limit 20) db).
Definition svc_list_task_deps (id : string) : string + list DepView := inr [].
Definition svc_set_task_dep (id upstream_task_id : string) (on : option string) : string + unit :=
  inl "task dependencies have been removed; a task now runs on its own schedule or on demand".
Definition svc_remove_task_dep (id upstream_task_id : string) : string + unit :=
  inl "task dependencies have been removed; there are no edges to remove".

Definition revision_view (r : PromptRevision) : RevisionView :=
  mkRevisionView (rv_id r) (rv_version r) (rv_prompt r) (rv_source r) (rv_status r) (rv_reason r)
    (rv_confidence r) (rv_source_run_id r) (rv_created_at r).
Definition svc_list_task_revisions (id : string) (db : Db) : list RevisionView :=
  List.map revision_view (list_revisions id db).
Definition svc_apply_task_revision (fresh : string * string) (now now' : i64) (id revision_id : string)
    (db : Db) : (string + TaskView) * Db :=
  with_view (accept_revision fresh now now' id revision_id db).
End Service.
