(* ===== verification/TaskRemote.v ===== *)
(** Scheduled tasks, the phone's commands (src/host/src/remote_host/business/tasks.rs):
    the task a payload describes, the reduced views that cross the wire, and the
    dispatch of a command to a reply.

    A JSON object is its entries with distinct keys; the order in which
    serde_json prints them is not part of the model. *)
From S2P Require Import Prelude TaskTypes TaskStore TaskTick TaskService.

(** * JSON *)
Definition json_get (key : string) (payload : json) : option json :=
  match payload with
  | JObj fields => option_map snd (List.find (fun kv => fst kv =?s key) fields)
  | _ => None
  end.
Definition as_str (v : json) : option string := match v with JStr s => Some s | _ => None end.
Definition as_bool (v : json) : option bool := match v with JBool b => Some b | _ => None end.
Definition str_field (key : string) (payload : json) : option string :=
  match json_get key payload with Some v => as_str v | None => None end.
Definition bool_field (key : string) (payload : json) : option bool :=
  match json_get key payload with Some v => as_bool v | None => None end.
(** [o.or_else(..)] *)
Definition or_else {A} (o p : option A) : option A := match o with Some a => Some a | None => p end.
Definition json_str (o : option string) : json := match o with Some s => JStr s | None => JNull end.
Definition json_i64 (o : option i64) : json := match o with Some n => JNum n | None => JNull end.

(** * Views *)
Definition RUN_SUMMARY_CHARS : usize := 300.
Definition truncate_head (text : string) (max : nat) : string :=
  if Nat.leb (String.length text) max then text
  else slice_to (floor_from text max) text +:+ "…".

(** * The command and its reply *)
Record IncomingCmd := mkIncomingCmd {
  cmd_type : string;
  cmd_task : json;
  cmd_task_id : string;
  cmd_revision_id : string;
  cmd_enabled : bool;
  cmd_limit : i64
}.
Record Reply := mkReply { rp_ok : bool; rp_payload : json; rp_error : option string }.
Definition accepted (payload : json) : Reply := mkReply true payload None.
Definition refused (error : string) : Reply := mkReply false JNull (Some error).

Definition run_summary_view (run : TaskRun) : json :=
  JObj [("id", JStr (tr_id run));
        ("kind", JStr (to_ascii_lowercase (debug_run_kind (tr_kind run))));
        ("origin", JStr (to_ascii_lowercase (debug_run_origin (tr_origin run))));
        ("status", JStr (to_ascii_lowercase (debug_run_status (tr_status run))));
        ("threadId", json_str (tr_thread_id run));
        ("sessionId", json_str (tr_session_id run));
        ("startedAt", json_i64 (tr_started_at run));
        ("finishedAt", json_i64 (tr_finished_at run));
        ("promptVersion", json_i64 (tr_prompt_version run));
        ("resultSummary", json_str (option_map (fun s => truncate_head s (Z.to_nat RUN_SUMMARY_CHARS))
                                      (tr_result_summary run)));
        ("errorMessage", json_str (tr_error_message run));
        ("finishReason", json_str (tr_finish_reason run));
        ("finishNote", json_str (tr_finish_note run));
        ("sessionDeleted", JBool (tr_session_deleted run))].

Section Remote.
Context `{TaskLibs} `{JsonText} `{DriverText}.
(** serde_json's number of a float. *)
Context (json_f64 : f64 -> json).

Definition latest_run_view (task : Task) (db : Db) : json :=
  match latest_run_for_task (tk_id task) db with Some run => run_summary_view run | None => JNull end.
Definition task_list_view (task : Task) (db : Db) : json :=
  JObj [("id", JStr (tk_id task));
        ("name", JStr (tk_name task));
        ("enabled", JBool (tk_enabled task));
        ("triggerKind", JStr (to_ascii_lowercase (debug_trigger_kind (tk_trigger_kind task))));
        ("trigger", tk_trigger_json task);
        ("timezone", JStr (tz_name (task_timezone task)));
        ("depCount", JNum 0);
        ("nextDueAt", json_i64 (tk_next_due_at task));
        ("queued", JBool (bool_decide (is_Some (tk_pending_request_at task))));
        ("latestRun", latest_run_view task db)].
Definition task_detail_view (task : Task) (db : Db) : json :=
  JObj [("timezone", JStr (tz_name (task_timezone task)));
        ("id", JStr (tk_id task));
        ("name", JStr (tk_name task));
        ("enabled", JBool (tk_enabled task));
        ("prompt", JStr (tk_prompt task));
        ("promptVersion", JNum (tk_prompt_version task));
        ("cwd", JStr (tk_cwd task));
        ("modelId", json_str (tk_model_id task));
        ("thinkingLevel", json_str (tk_thinking_level task));
        ("sessionPolicy", JStr (to_ascii_lowercase (debug_session_policy (tk_session_policy task))));
        ("sessionRetention", JStr (to_ascii_lowercase (debug_session_retention (tk_session_retention task))));
        ("conversationMode", JStr (to_ascii_lowercase (debug_conversation_mode (tk_conversation_mode task))));
        ("triggerKind", JStr (to_ascii_lowercase (debug_trigger_kind (tk_trigger_kind task))));
        ("trigger", tk_trigger_json task);
        ("depJoin", JStr "all");
        ("depCount", JNum 0);
        ("nextDueAt", json_i64 (tk_next_due_at task));
        ("queued", JBool (bool_decide (is_Some (tk_pending_request_at task))));
        ("latestRun", latest_run_view task db)].
Definition revision_json (r : PromptRevision) : json :=
  JObj [("id", JStr (rv_id r));
        ("version", JNum (rv_version r));
        ("source", JStr (rv_source r));
        ("status", JStr (rv_status r));
        ("reason", json_str (rv_reason r));
        ("confidence", match rv_confidence r with Some c => json_f64 c | None => JNull end);
        ("createdAt", JNum (rv_created_at r));
        ("prompt", JStr (rv_prompt r));
        ("promptPreview", JStr (truncate_head (rv_prompt r) 160))].

(** * The task of a payload: a field that is absent keeps its value *)
Definition optional_str_field (payload : json) (key : string) (base : option string) : option string :=
  match json_get key payload with
  | None => base
  | Some JNull => None
  | Some (JStr value) => Some value
  | Some _ => base
  end.
Definition timezone_from_payload (payload : json) (base : option Task) : string + option string :=
  let resolve := fun name => match resolve_zone name with inl e => inl e | inr name => inr (Some name) end in
  match json_get "timezone" payload with
  | None => match base with Some task => inr (tk_timezone task) | None => resolve None end
  | Some JNull => resolve None
  | Some (JStr raw) => resolve (Some raw)
  | Some _ => inr (match base with Some task => tk_timezone task | None => None end)
  end.
Definition required_field (key : string) (payload : json) (base : option string) : string + string :=
  match or_else (str_field key payload) base with
  | Some s => inr s
  | None => inl (key +:+ " is required")
  end.

Definition payload_policy (payload : json) (base : option Task) : SessionPolicy :=
  or_default (or_else (option_map (fun raw => read_session_policy (Some raw)) (str_field "sessionPolicy" payload))
                (option_map tk_session_policy base)) SpNew.
(** The task once the name, the prompt, the directory and the zone are read. *)
Definition payload_task (fresh : string) (now : i64) (payload : json) (base : option Task)
    (name prompt cwd : string) (timezone : option string) : Task :=
  mkTask (or_default (option_map tk_id base) (new_task_id fresh)) name
    (or_default (or_else (bool_field "enabled" payload) (option_map tk_enabled base)) true)
    prompt (or_default (option_map tk_prompt_version base) 1) cwd
    (optional_str_field payload "modelId" (match base with Some t => tk_model_id t | None => None end))
    (optional_str_field payload "thinkingLevel"
       (match base with Some t => tk_thinking_level t | None => None end))
    timezone (payload_policy payload base)
    (or_default (or_else (option_map (fun raw => read_conversation_mode (Some raw))
                            (str_field "conversationMode" payload))
                   (option_map tk_conversation_mode base)) CmWorkspace)
    (match base with Some t => tk_thread_id t | None => None end)
    (or_default (or_else (option_map (fun raw => read_trigger_kind (Some raw)) (str_field "triggerKind" payload))
                   (option_map tk_trigger_kind base)) TrManual)
    (or_default (or_else (json_get "trigger" payload) (option_map tk_trigger_json base)) (JObj []))
    None
    (match base with Some t => tk_pending_request_at t | None => None end)
    (match base with Some t => tk_pending_origin t | None => None end)
    (match base with Some t => tk_pending_actor t | None => None end)
    (or_default (or_else (option_map (fun raw => read_session_retention (Some raw) (payload_policy payload base))
                            (str_field "sessionRetention" payload))
                   (option_map tk_session_retention base)) SrKeep)
    (or_default (option_map tk_created_at base) now) now None.
Definition task_from_payload (fresh : string) (now : i64) (payload : json) (base : option Task)
  : string + Task :=
  match required_field "name" payload (option_map tk_name base) with inl e => inl e | inr name =>
  match required_field "prompt" payload (option_map tk_prompt base) with inl e => inl e | inr prompt =>
  match required_field "cwd" payload (option_map tk_cwd base) with inl e => inl e | inr cwd =>
  match timezone_from_payload payload base with inl e => inl e | inr timezone =>
      let prompt_changed := match base with Some t => negb (tk_prompt t =?s prompt) | None => true end in
      let task := payload_task fresh now payload base name prompt cwd timezone in
      let task :=
        if bool_decide (tk_trigger_kind task = TrSchedule)
        then task <| tk_next_due_at := next_due task (i64_sub now 1) |> else task in
      inr (if prompt_changed
           then task <| tk_prompt_version :=
                          or_default (option_map (fun t => i64_add (tk_prompt_version t) 1) base) 1 |>
           else task)
  end end end end.

(** * Commands *)

(** What a command leaves: its reply, whether the panel was told, whether the
    tick was woken, and the database. *)
Record Handled := mkHandled { hd_reply : Reply; hd_emitted : bool; hd_woken : bool; hd_db : Db }.
Definition answer (reply : Reply) (db : Db) : Handled := mkHandled reply false false db.
Definition written (woken : bool) (r : (string + Task) * Db) : Handled :=
  match r with
  | (inl e, db) => answer (refused e) db
  | (inr task, db) => mkHandled (accepted (task_detail_view task db)) true woken db
  end.

Definition remote_create_task (fresh : string) (now : i64) (payload : json) (db : Db) : (string + Task) * Db :=
  match task_from_payload fresh now payload None with
  | inl e => (inl e, db)
  | inr task =>
      match insert_task task db with
      | inl e => (inl (store_error_text e), db)
      | inr db => (inr task, db)
      end
  end.
Definition remote_update_task (fresh : string * string) (now now' : i64) (id : string) (payload : json) (db : Db)
  : (string + Task) * Db :=
  match get_task id db with
  | None => (inl "task not found", db)
  | Some existing =>
      let incoming_prompt := or_default (str_field "prompt" payload) (tk_prompt existing) in
      let revisions :=
        prompt_change_revisions fresh existing (list_revisions (tk_id existing) db) incoming_prompt "user" None now in
      match task_from_payload "" now' payload (Some existing) with
      | inl e => (inl e, db)
      | inr task =>
          match insert_revisions revisions db with
          | (Some e, db) => (inl (store_error_text e), db)
          | (None, db) =>
              match update_task task db with
              | inl e => (inl (store_error_text e), db)
              | inr db => (inr task, db)
              end
          end
      end
  end.

(** [fresh] and [now] are what the command draws and reads, in its order. *)
Definition remote_execute (fresh : string * string) (now now' : i64) (cmd : IncomingCmd) (db : Db) : Handled :=
  let type := cmd_type cmd in
  let id := cmd_task_id cmd in
  if type =?s "list_tasks" then
    answer (accepted (JObj [("tasks", JArr (List.map (fun t => task_list_view t db) (list_tasks false db)))])) db
  else if type =?s "get_task" then
    answer (match get_task id db with
            | Some task => accepted (task_detail_view task db)
            | None => refused "task not found"
            end) db
  else if type =?s "create_task" then written false (remote_create_task (fst fresh) now (cmd_task cmd) db)
  else if type =?s "update_task" then written false (remote_update_task fresh now now' id (cmd_task cmd) db)
  else if type =?s "delete_task" then
    match rewrite_task id (deleted_task now now') db with
    | (inl e, db) => answer (refused e) db
    | (inr _, db) => mkHandled (accepted (JObj [])) true false db
    end
  else if type =?s "set_task_enabled" then
    written false (rewrite_task id (fun task => apply_task_enabled task (cmd_enabled cmd) now) db)
  else if (type =?s "set_task_dep") || (type =?s "remove_task_dep") then
    answer (refused "task dependencies have been removed; a task now runs on its own schedule or on demand") db
  else if type =?s "run_task" then written true (rewrite_task id (requested_task now now' "phone") db)
  else if type =?s "list_task_runs" then
    let limit := if 0 <? cmd_limit cmd then cmd_limit cmd else 20 in
    answer (accepted (JObj [("runs", JArr (List.map run_summary_view (list_runs_for_task id limit db)))])) db
  else if type =?s "list_task_deps" then answer (accepted (JObj [("deps", JArr [])])) db
  else if type =?s "list_task_revisions" then
    answer (accepted (JObj [("revisions", JArr (List.map revision_json (list_revisions id db)))])) db
  else if type =?s "apply_task_revision" then
    written false (accept_revision fresh now now' id (cmd_revision_id cmd) db)
  else answer (refused ("Unsupported task command: " +:+ type)) db.
End Remote.
