(* ===== verification/TaskLedgerProps.v ===== *)
(** Properties of the task ledger and the tick: rows read back what was written,
    a task never has two runs in flight and a slot never two runs, a settled run
    says how it ended, a prompt's history is complete, truncation, and the slot
    that stops every task. *)
From S2P Require Import Prelude TaskTypes TaskScheduleProps TaskStore TaskTick.

(** * Tables: rows with a key *)
Section Tables.
Context {A : Type} (key : A -> string).
Implicit Types (l : list A) (k : string).
#[local] Abbreviation at_key k := (fun r => key r =?s k).

Lemma find_app_new k l x : List.existsb (at_key (key x)) l = false ->
  List.find (at_key k) (l ++ [x]) = if key x =?s k then Some x else List.find (at_key k) l.
Proof.
  induction l as [|y l IH]; cbn; [destruct (key x =?s k); done|].
  intros H. bool_prop. rewrite IH by done. destruct (key y =?s k) eqn:Ey; [|done].
  bool_prop. subst k. by rewrite String.eqb_sym, (proj2 (String.eqb_neq _ _) ltac:(done)).
Qed.
Lemma find_update_first k k' f l : (forall r, key r = k -> key (f r) = k) ->
  List.find (at_key k') (update_first (at_key k) f l) =
    if k =?s k' then option_map f (List.find (at_key k) l) else List.find (at_key k') l.
Proof.
  intros Hf. induction l as [|y l IH]; cbn; [by destruct (k =?s k')|].
  destruct (String.eqb_spec (key y) k) as [<-|Hne]; cbn.
  - rewrite Hf by done. by destruct (key y =?s k').
  - rewrite IH. destruct (String.eqb_spec k k') as [<-|]; [|done].
    by rewrite (proj2 (String.eqb_neq _ _) Hne).
Qed.
Lemma keys_update_first k f l : (forall r, key r = k -> key (f r) = k) ->
  key <$> update_first (at_key k) f l = key <$> l.
Proof.
  intros Hf. induction l as [|y l IH]; [done|]. cbn.
  destruct (String.eqb_spec (key y) k) as [<-|]; cbn; [by rewrite Hf|]. by rewrite <- IH.
Qed.
Lemma find_at_key k l x : List.find (at_key k) l = Some x -> In x l /\ key x = k.
Proof. intros H. apply List.find_some in H as [Hin H]. by apply String.eqb_eq in H. Qed.
Lemma keys_fresh k l : List.existsb (at_key k) l = false -> k ∉ key <$> l.
Proof.
  rewrite existsb_false. intros H (x & -> & Hx)%list_elem_of_fmap. apply list_elem_of_In in Hx.
  specialize (H x Hx). by apply String.eqb_neq in H.
Qed.
Lemma count_without p k l x : List.find (at_key k) l = Some x -> NoDup (key <$> l) ->
  count p (List.filter (fun r => negb (key r =?s k)) l) = count p l - (if p x then 1 else 0).
Proof.
  intros Hf Hnd. induction l as [|y l IH]; [done|]. cbn in *. apply NoDup_cons in Hnd as [Hy Hnd].
  destruct (String.eqb_spec (key y) k) as [<-|].
  - injection Hf as ->. cbn [negb]. rewrite count_cons_if.
    replace (List.filter _ l) with l; [lia|]. symmetry. apply forallb_filter_id. apply forallb_forall.
    intros z Hz. apply negb_true_iff, not_true_iff_false. intros Ez. bool_prop.
    apply Hy. rewrite <- Ez. apply list_elem_of_fmap_2. by apply list_elem_of_In.
  - cbn [negb]. rewrite !count_cons_if, (IH Hf Hnd). lia.
Qed.
End Tables.

(** * At most one run in flight *)
Definition running_of (task_id : string) (r : RunRow) : bool := (cr_task_id r =?s task_id) && is_running r.
Definition slot_of (task_id : string) (due : Z) (r : RunRow) : bool :=
  (cr_task_id r =?s task_id) && bool_decide (cr_due_at r = Some due).
(** The run table: distinct ids, one run in flight per task, one run per slot. *)
Record ledger_ok (db : Db) : Prop := {
  lk_ids : NoDup (cr_id <$> db_runs db);
  lk_running : forall task_id, count (running_of task_id) (db_runs db) <= 1;
  lk_slots : forall task_id due, count (slot_of task_id due) (db_runs db) <= 1
}.

Lemma same_slot_true a b : same_slot a b = true <->
  cr_task_id a = cr_task_id b /\ exists due, cr_due_at a = Some due /\ cr_due_at b = Some due.
Proof.
  unfold same_slot. rewrite andb_true_iff, String.eqb_eq.
  destruct (cr_due_at a) as [x|], (cr_due_at b) as [y|]; rewrite ?Z.eqb_eq; naive_solver.
Qed.
(** Among rows none of which shares the slot of [x], none fills any slot of [x]. *)
Lemma no_same_slot x l task_id due : List.existsb (same_slot x) l = false -> slot_of task_id due x = true ->
  count (slot_of task_id due) l = 0.
Proof.
  rewrite existsb_false, count_eq_0. unfold slot_of. intros Hl Hx y Hy. apply not_true_iff_false. intros Hs.
  bool_prop. specialize (Hl y Hy). apply not_true_iff_false in Hl. apply Hl, same_slot_true. naive_solver.
Qed.

Section Ledger.
Context `{TaskLibs} `{JsonText}.

Lemma insert_run_ok run owner db db' :
  ledger_ok db -> (tr_status run = RsRunning -> has_running_run (tr_task_id run) db = false) ->
  insert_run_owned run owner db = inr db' -> ledger_ok db'.
Proof.
  intros [K0 K1 K2] Hrun. unfold insert_run_owned. destruct (List.existsb _ (db_runs db)) eqn:Ei; [done|].
  destruct (List.existsb (same_slot _) _) eqn:Es; [done|]. destruct (negb _); [done|]. intros [= <-].
  split.
  - cbn. rewrite fmap_app. apply NoDup_app. split; [done|]. split; [|apply NoDup_singleton].
    intros k Hk Hk'. apply list_elem_of_singleton in Hk' as ->. by apply (keys_fresh cr_id) in Ei.
  - intros task_id. cbn. rewrite count_app, count_cons_if. change (count _ []) with 0.
    specialize (K1 task_id). unfold has_running_run in Hrun.
    destruct (running_of task_id (run_values run owner)) eqn:E; [|lia].
    unfold running_of, is_running in E. apply andb_true_iff in E as [<-%String.eqb_eq E]. cbn in *.
    destruct (tr_status run); try discriminate. specialize (Hrun eq_refl). apply Z.ltb_ge in Hrun.
    pose proof (count_ge_0 (running_of (tr_task_id run)) (db_runs db)).
    fold (running_of (tr_task_id run)) in Hrun. lia.
  - intros task_id due. cbn. rewrite count_app, count_cons_if. change (count _ []) with 0.
    specialize (K2 task_id due). destruct (slot_of task_id due (run_values run owner)) eqn:E; [|lia].
    rewrite (no_same_slot _ _ _ _ Es E). lia.
Qed.

(** A row is rewritten in place: it may go on running only if it was. *)
Lemma update_run_ok run db db' :
  ledger_ok db ->
  (tr_status run = RsRunning -> forall old, List.find (fun r => cr_id r =?s tr_id run) (db_runs db) = Some old ->
                                is_running old = true) ->
  update_run run db = inr db' -> ledger_ok db'.
Proof.
  intros [K0 K1 K2] Hrun. unfold update_run. destruct (List.find _ (db_runs db)) as [old|] eqn:Ef;
    [|intros [= <-]; done].
  destruct (List.existsb _ _) eqn:Es; [done|]. intros [= <-].
  pose proof (find_at_key cr_id _ _ _ Ef) as [Hin Hid]. split.
  - cbn. rewrite (keys_update_first cr_id); done.
  - intros task_id. cbn. rewrite (count_update_first _ _ _ _ _ Ef). specialize (K1 task_id).
    destruct (running_of task_id (updated_run run old)) eqn:E; [|destruct (running_of task_id old); lia].
    unfold running_of, is_running in E. apply andb_true_iff in E as [Et%String.eqb_eq E]. cbn in *.
    destruct (tr_status run); try discriminate. specialize (Hrun eq_refl old eq_refl).
    replace (running_of task_id old) with true; [lia|]. symmetry. unfold running_of. by rewrite Hrun, Et, String.eqb_refl.
  - intros task_id due. cbn. rewrite (count_update_first _ _ _ _ _ Ef). specialize (K2 task_id due).
    pose proof (count_without cr_id (slot_of task_id due) _ _ _ Ef K0) as Hc.
    destruct (slot_of task_id due (updated_run run old)) eqn:E; [|destruct (slot_of task_id due old); lia].
    rewrite (no_same_slot _ _ _ _ Es E) in Hc. lia.
Qed.

(** Rows are settled where they stand. *)
Lemma settle_rows_ok (f : RunRow -> RunRow) db runs :
  ledger_ok db -> runs = List.map f (db_runs db) ->
  (forall r, cr_id (f r) = cr_id r /\ cr_task_id (f r) = cr_task_id r /\ cr_due_at (f r) = cr_due_at r
             /\ (is_running (f r) = true -> is_running r = true)) ->
  ledger_ok (db <| db_runs := runs |>).
Proof.
  intros [K0 K1 K2] -> Hf. split; cbn.
  - replace (cr_id <$> List.map f (db_runs db)) with (cr_id <$> db_runs db); [done|].
    rewrite <- list_fmap_compose. apply list_fmap_ext. intros i r _. cbn. by destruct (Hf r) as [-> _].
  - intros task_id. etransitivity; [|apply (K1 task_id)]. apply count_map_le. intros r _.
    destruct (Hf r) as (_ & Ht & _ & Hr). unfold running_of. rewrite Ht, !andb_true_iff. naive_solver.
  - intros task_id due. etransitivity; [|apply (K2 task_id due)]. apply count_map_le. intros r _.
    destruct (Hf r) as (_ & Ht & Hd & _). unfold slot_of. by rewrite Ht, Hd.
Qed.
Lemma update_first_absent {A} (p : A -> bool) (f : A -> A) (l : list A) :
  List.find p l = None -> update_first p f l = l.
Proof.
  induction l as [|y l IH]; [done|]. cbn. destruct (p y); [done|]. intros E. by rewrite IH.
Qed.
(** Columns beside the id, the task, the slot and the status do not matter. *)
Lemma side_columns_ok k (f : RunRow -> RunRow) db :
  ledger_ok db ->
  (forall r, cr_id (f r) = cr_id r /\ cr_task_id (f r) = cr_task_id r /\ cr_due_at (f r) = cr_due_at r
             /\ cr_status (f r) = cr_status r) ->
  ledger_ok (db <| db_runs := update_first (fun r => cr_id r =?s k) f (db_runs db) |>).
Proof.
  intros [K0 K1 K2] Hf. split; cbn.
  - rewrite (keys_update_first cr_id); [done|]. intros r <-. by destruct (Hf r).
  - intros task_id. destruct (List.find (fun r => cr_id r =?s k) (db_runs db)) as [x|] eqn:Ef.
    + rewrite (count_update_first _ _ _ _ _ Ef). unfold running_of at 2 3, is_running.
      destruct (Hf x) as (_ & -> & _ & ->). specialize (K1 task_id). destruct (_ && _); lia.
    + by rewrite (update_first_absent _ _ _ Ef).
  - intros task_id due. destruct (List.find (fun r => cr_id r =?s k) (db_runs db)) as [x|] eqn:Ef.
    + rewrite (count_update_first _ _ _ _ _ Ef). unfold slot_of at 2 3.
      destruct (Hf x) as (_ & -> & -> & _). specialize (K2 task_id due). destruct (_ && _); lia.
    + by rewrite (update_first_absent _ _ _ Ef).
Qed.
End Ledger.

(** * What is stored is what is read *)
Section ReadBack.
Context `{TaskLibs} `{JsonText}.

(** A task as serde_json hands its trigger back. *)
Definition reread (t : Task) : Task :=
  t <| tk_trigger_json := or_default (json_from_str (json_to_string (tk_trigger_json t))) JNull |>.
Lemma task_row_reads_back t : task_from_row (task_values t) = reread t.
Proof.
  destruct t as [id nm en pr pv cwd mo th tz sp cm tid tk tj nd rq po pa sr ca ua da].
  unfold reread, task_from_row, task_values. cbn.
  destruct en, sp, cm, tk, sr; destruct po as [[]|]; reflexivity.
Qed.
Lemma run_row_reads_back r owner : run_from_row (run_values r owner) = r.
Proof.
  destruct r as [id ti k o ac du st th se ru pv rs fb fn sa fa em fr fnn sd].
  unfold run_from_row, run_values. cbn. destruct k, o, st, sd; reflexivity.
Qed.
Lemma updated_run_reads_back run old :
  run_from_row (updated_run run old) = run <| tr_task_id := cr_task_id old |>.
Proof.
  unfold updated_run. destruct run as [id ti k o ac du st th se ru pv rs fb fn sa fa em fr fnn sd].
  unfold run_from_row, run_values. cbn. destruct k, o, st, sd; reflexivity.
Qed.
Lemma created_at_reads_back t r : 
  task_from_row ((task_values t) <| ct_created_at := ct_created_at r |>) = (reread t) <| tk_created_at := ct_created_at r |>.
Proof.
  destruct t as [id nm en pr pv cwd mo th tz sp cm tid tk tj nd rq po pa sr ca ua da].
  unfold reread, task_from_row, task_values. cbn.
  destruct en, sp, cm, tk, sr; destruct po as [[]|]; reflexivity.
Qed.

Lemma insert_task_get task db db' id : insert_task task db = inr db' ->
  get_task id db' = if tk_id task =?s id then Some (reread task) else get_task id db.
Proof.
  unfold insert_task. destruct (List.existsb _ _) eqn:E; [done|]. destruct (name_taken _ _); [done|].
  intros [= <-]. unfold get_task. cbn. rewrite (find_app_new ct_id) by done. cbn.
  destruct (tk_id task =?s id); [|done]. cbn. by rewrite task_row_reads_back.
Qed.
Lemma update_task_get task db db' old id : get_task (tk_id task) db = Some old -> update_task task db = inr db' ->
  get_task id db' = if tk_id task =?s id then Some ((reread task) <| tk_created_at := tk_created_at old |>)
                    else get_task id db.
Proof.
  unfold get_task, update_task. destruct (List.find _ (db_tasks db)) as [r|] eqn:Ef; [|done].
  intros [= <-]. destruct (name_taken _ _); [done|]. intros [= <-]. cbn.
  rewrite (find_update_first ct_id) by done. destruct (tk_id task =?s id); [|done].
  rewrite Ef. cbn [option_map]. f_equal. apply created_at_reads_back.
Qed.
Lemma insert_run_get run owner db db' id : insert_run_owned run owner db = inr db' ->
  get_run id db' = if tr_id run =?s id then Some run else get_run id db.
Proof.
  unfold insert_run_owned. destruct (List.existsb _ (db_runs db)) eqn:E; [done|].
  destruct (List.existsb (same_slot _) _); [done|]. destruct (negb _); [done|]. intros [= <-].
  unfold get_run. cbn. rewrite (find_app_new cr_id) by done. cbn.
  destruct (tr_id run =?s id); [|done]. cbn. by rewrite run_row_reads_back.
Qed.
Lemma update_run_get run db db' old id : get_run (tr_id run) db = Some old -> update_run run db = inr db' ->
  get_run id db' = if tr_id run =?s id then Some (run <| tr_task_id := tr_task_id old |>) else get_run id db.
Proof.
  unfold get_run, update_run. destruct (List.find _ (db_runs db)) as [r|] eqn:Ef; [|done].
  intros [= <-]. destruct (List.existsb _ _); [done|]. intros [= <-]. cbn.
  rewrite (find_update_first cr_id) by done. destruct (tr_id run =?s id); [|done].
  rewrite Ef. cbn [option_map]. f_equal. apply updated_run_reads_back.
Qed.

(** Every accepted write of a task or a run is read back field by field,
    enumerations and flags through their text, a task's trigger through
    serde_json's own text; an update keeps the creation time of a task and the
    task of a run; and no other row changes. *)
Theorem stored_rows_read_back :
  (forall task db db', insert_task task db = inr db' ->
     forall id, get_task id db' = if tk_id task =?s id then Some (reread task) else get_task id db)
  /\ (forall task db db' old, get_task (tk_id task) db = Some old -> update_task task db = inr db' ->
     forall id, get_task id db' = if tk_id task =?s id
                                  then Some ((reread task) <| tk_created_at := tk_created_at old |>)
                                  else get_task id db)
  /\ (forall run owner db db', insert_run_owned run owner db = inr db' ->
     forall id, get_run id db' = if tr_id run =?s id then Some run else get_run id db)
  /\ (forall run db db' old, get_run (tr_id run) db = Some old -> update_run run db = inr db' ->
     forall id, get_run id db' = if tr_id run =?s id then Some (run <| tr_task_id := tr_task_id old |>)
                                 else get_run id db).
Proof.
  split_and!; intros; [by eapply insert_task_get|by eapply update_task_get
    |by eapply insert_run_get|by eapply update_run_get].
Qed.
End ReadBack.

(** * How a run ends *)
Section Settle.
Context `{TaskLibs} `{JsonText}.

Lemma with_own_task run old : tr_task_id old = tr_task_id run -> run <| tr_task_id := tr_task_id old |> = run.
Proof. destruct run, old. cbn. by intros ->. Qed.
Lemma get_run_set_output k text db id :
  get_run id (set_run_output k text db) = get_run id db.
Proof.
  unfold get_run, set_run_output. cbn. rewrite (find_update_first cr_id) by done.
  destruct (String.eqb_spec k id) as [->|]; [|done]. by destruct (List.find _ _) as [[]|].
Qed.
Lemma run_output_set k text db : is_Some (get_run k db) -> run_output k (set_run_output k text db) = Some text.
Proof.
  unfold get_run, run_output, set_run_output. cbn. rewrite (find_update_first cr_id) by done.
  rewrite String.eqb_refl. destruct (List.find _ _) as [r|]; [done|]. by intros [? ?].
Qed.
Lemma get_run_mark_deleted k db run : get_run k db = Some run ->
  get_run k (mark_run_conversation_deleted k db) = Some (forget_conversation run).
Proof.
  unfold get_run, mark_run_conversation_deleted. cbn. rewrite (find_update_first cr_id) by done.
  rewrite String.eqb_refl. destruct (List.find _ _) as [r|]; [|done]. intros [= <-]. done.
Qed.
Lemma run_output_mark_deleted k k' db :
  run_output k (mark_run_conversation_deleted k' db) = run_output k db.
Proof.
  unfold run_output, mark_run_conversation_deleted. cbn. rewrite (find_update_first cr_id) by done.
  destruct (String.eqb_spec k' k) as [->|]; [|done]. by destruct (List.find _ _).
Qed.

(** What a settled run says: the ledger's account of how it ended. *)
Record settled_account (outcome : string + RunAnswer) (run : TaskRun) (output : option string) : Prop := {
  sa_completed : tr_status run = RsCompleted <->
    exists answer, outcome = inr answer /\ trim (ra_text answer) <> "";
  sa_failed : tr_status run <> RsCompleted -> tr_status run = RsFailed;
  sa_answer : tr_finish_reason run = Some ANSWER <-> tr_status run = RsCompleted;
  sa_error : tr_error_message run = None <-> tr_status run = RsCompleted;
  sa_note : tr_finish_note run = None <-> tr_status run = RsCompleted;
  sa_finished : is_Some (tr_finished_at run);
  sa_output : forall answer, outcome = inr answer -> tr_status run = RsCompleted ->
    output = Some (truncate (ra_text answer) (Z.to_nat RUN_OUTPUT_CHARS))
    /\ tr_result_summary run = Some (truncate (ra_text answer) (Z.to_nat RESULT_SUMMARY_CHARS))
}.

Lemma finish_reason_for_error_not_answer e : finish_reason_for_error e <> ANSWER.
Proof. unfold finish_reason_for_error. repeat case_match; discriminate. Qed.
Lemma settled_run_account now outcome digest run output :
  (forall text, snd (settle_outcome outcome digest) = Some text ->
     output = Some (truncate text (Z.to_nat RUN_OUTPUT_CHARS))) ->
  settled_account outcome (settled_run now outcome digest run) output.
Proof.
  unfold settled_run, settle_outcome. destruct outcome as [e|answer].
  - intros _. pose proof (finish_reason_for_error_not_answer e).
    destruct digest; split; cbn; naive_solver.
  - unfold finish_reason_for_answer. destruct (trim (ra_text answer) =?s "") eqn:E; bool_prop; cbn; intros Ho.
    + split; cbn; naive_solver.
    + specialize (Ho _ eq_refl). split; cbn; naive_solver.
Qed.
Lemma forget_account outcome run output : settled_account outcome run output ->
  settled_account outcome (forget_conversation run) output.
Proof. intros []. by split. Qed.

(** The row a settled run leaves in the ledger is the run its executor
    reports: completed exactly when the agent's answer is not blank, and then
    with the reason "answer", its summary and its output and no error; failed
    otherwise, with an error, a reason and a note; and a run says that its
    conversation is gone only when it names none. *)
Theorem execute_settles now outcome digest deleted deleted_shell has_entries task run old db run' db' :
  get_run (tr_id run) db = Some old -> tr_task_id old = tr_task_id run ->
  execute now outcome digest deleted deleted_shell has_entries task run db = inr (run', db') ->
  get_run (tr_id run) db' = Some run'
  /\ settled_account outcome run' (run_output (tr_id run) db')
  /\ (tr_session_deleted run' = true ->
      tr_session_deleted run = true \/ (tr_thread_id run' = None /\ tr_session_id run' = None)).
Proof.
  intros Hold Htask. unfold execute. set (settled := settled_run now outcome digest run).
  assert (tr_id settled = tr_id run /\ tr_task_id settled = tr_task_id run
          /\ tr_session_deleted settled = tr_session_deleted run) as (Hid & Ht & Hd).
  { unfold settled, settled_run. destruct (settle_outcome outcome digest) as [[[[? ?] ?] ?] [?|]]; done. }
  destruct (update_run settled db) as [|db1] eqn:Eu; [done|].
  assert (get_run (tr_id run) db1 = Some settled) as Hget.
  { rewrite <- Hid in Hold |- *. rewrite (update_run_get _ _ _ _ _ Hold Eu), String.eqb_refl.
    f_equal. apply with_own_task. congruence. }
  set (db2 := match snd _ with Some text => _ | None => db1 end).
  assert (get_run (tr_id run) db2 = Some settled) as Hget2.
  { unfold db2. destruct (snd _); [by rewrite get_run_set_output|done]. }
  assert (settled_account outcome settled (run_output (tr_id run) db2)) as Hacc.
  { apply settled_run_account. intros text Ho. unfold db2. rewrite Ho, Hid, run_output_set by done. done. }
  clearbody db2 settled.
  destruct (deletes_run_conversation task && _ && deleted) eqn:E1.
  - cbn. intros [= <- <-]. rewrite Hid, run_output_mark_deleted. split_and!.
    + by apply get_run_mark_deleted.
    + by apply forget_account.
    + by right.
  - destruct (negb (tr_session_deleted settled) && _ && _ && _ && _ && deleted_shell) eqn:E2;
      intros [= <- <-]; split_and!; try done.
    + rewrite Hid. by apply get_run_mark_deleted.
    + rewrite Hid, run_output_mark_deleted. by apply forget_account.
    + by right.
    + rewrite Hd. by left.
Qed.
End Settle.

(** * Truncation *)

(** A character is at most four bytes: from any offset, a boundary is at most
    three bytes back. *)
Definition short_chars (s : string) : Prop :=
  forall i, (i <= String.length s)%nat ->
    exists d, (d <= 3)%nat /\ (d <= i)%nat /\ is_char_boundary s (i - d) = true.
(** No character is longer than a byte. *)
Definition single_bytes (s : string) : Prop :=
  forall i, (i <= String.length s)%nat -> is_char_boundary s i = true.

Lemma floor_from_le s i : (floor_from s i <= i)%nat.
Proof. induction i as [|i IH]; cbn [floor_from]; [lia|]. destruct (is_char_boundary s (S i)); lia. Qed.
Lemma floor_from_ge s d : forall i, (d <= i)%nat -> is_char_boundary s (i - d) = true ->
  (i - d <= floor_from s i)%nat.
Proof.
  induction d as [|d IH]; intros i Hi Hb.
  - rewrite Nat.sub_0_r in *. destruct i; [lia|]. cbn [floor_from]. rewrite Hb. lia.
  - destruct i as [|i]; [lia|]. cbn [floor_from]. destruct (is_char_boundary s (S i)); [lia|].
    replace (S i - S d)%nat with (i - d)%nat in * by lia. apply IH; [lia|done].
Qed.
Lemma floor_near s i : short_chars s -> (i <= String.length s)%nat ->
  (i - 3 <= floor_char_boundary s i <= i)%nat.
Proof.
  intros Hs Hi. unfold floor_char_boundary. rewrite Nat.min_l by lia. destruct (Hs i Hi) as (d & Hd & Hdi & Hb).
  pose proof (floor_from_ge s d i Hdi Hb). pose proof (floor_from_le s i). lia.
Qed.
Lemma floor_exact s i : single_bytes s -> (i <= String.length s)%nat -> floor_char_boundary s i = i.
Proof.
  intros Hs Hi. unfold floor_char_boundary. rewrite Nat.min_l by lia. destruct i; [done|]. cbn [floor_from].
  by rewrite Hs.
Qed.

Lemma length_slice_to n s : String.length (slice_to n s) = Nat.min n (String.length s).
Proof.
  unfold slice_to. revert n. induction s as [|c s IH]; intros [|n]; cbn; [done..|]. by rewrite IH.
Qed.
Lemma length_slice_from n s : String.length (slice_from n s) = (String.length s - n)%nat.
Proof.
  unfold slice_from. revert n. induction s as [|c s IH]; intros [|n]; cbn; [done..|]. apply IH.
Qed.
Lemma slice_to_prefix n s : (n <= String.length s)%nat -> s = slice_to n s +:+ slice_from n s.
Proof.
  unfold slice_to, slice_from. revert n. induction s as [|c s IH]; intros [|n] Hn; cbn in *; [done|lia|done|].
  change (String c s = String c (substring 0 n s +:+ drop_bytes n s)). f_equal. apply IH. lia.
Qed.

(** The shape of a truncation, whatever the budget. *)
Lemma truncate_shape text max : (max < String.length text)%nat -> (4 < max)%nat ->
  let budget := (max - 3)%nat in
  let tail_start := floor_char_boundary text (String.length text - (budget - budget * 3 / 4)) in
  truncate text max =
    slice_to (floor_char_boundary text (budget * 3 / 4)) text +:+ MARK +:+ slice_from tail_start text.
Proof.
  intros Hl Hm. unfold truncate. change (String.length MARK) with 3%nat.
  rewrite (proj2 (Nat.leb_gt _ _)) by lia. by rewrite (proj2 (Nat.leb_gt _ _)) by lia.
Qed.

(** Text within its budget is kept; longer text keeps a prefix and a
    suffix around the mark and is at most three bytes over the budget, and not
    over it when every character is one byte. *)
Theorem truncate_bounded text max : short_chars text ->
  ((String.length text <= max)%nat -> truncate text max = text)
  /\ (String.length (truncate text max) <= max + 3)%nat
  /\ (single_bytes text -> (String.length (truncate text max) <= max)%nat)
  /\ ((max < String.length text)%nat -> (4 < max)%nat ->
      exists i j, (i <= String.length text)%nat /\ (j <= String.length text)%nat
        /\ truncate text max = slice_to i text +:+ MARK +:+ slice_from j text).
Proof.
  intros Hs.
  assert (Hkeep : (String.length text <= max)%nat -> truncate text max = text).
  { intros Hl. unfold truncate. by rewrite (proj2 (Nat.leb_le _ _) Hl). }
  split; [done|]. destruct (Nat.le_gt_cases (String.length text) max) as [Hl|Hl].
  { rewrite (Hkeep Hl). split_and!; [lia|lia|lia]. }
  destruct (Nat.le_gt_cases max 4) as [Hm|Hm].
  { assert (truncate text max = slice_to (floor_char_boundary text max) text) as ->.
    { unfold truncate. change (String.length MARK) with 3%nat.
      rewrite (proj2 (Nat.leb_gt _ _)) by lia. by rewrite (proj2 (Nat.leb_le _ _)) by lia. }
    rewrite length_slice_to. pose proof (floor_near text max Hs ltac:(lia)). split_and!; lia. }
  pose proof (truncate_shape text max Hl Hm) as E. cbn zeta in E.
  set (h := ((max - 3) * 3 / 4)%nat) in *. set (n := (String.length text - (max - 3 - h))%nat) in *.
  assert (h <= max - 3)%nat by (subst h; apply Nat.Div0.div_le_upper_bound; lia).
  assert (Hlen : String.length (truncate text max)
    = (Nat.min (floor_char_boundary text h) (String.length text) + (3 + (String.length text - floor_char_boundary text n)))%nat).
  { by rewrite E, !length_append, length_slice_to, length_slice_from. }
  pose proof (floor_near text h Hs ltac:(lia)). pose proof (floor_near text n Hs ltac:(lia)). split_and!.
  - rewrite Hlen. lia.
  - intros Hb. rewrite Hlen, !floor_exact by (try done; lia). lia.
  - intros _ _. eexists _, _. split_and!; [| |exact E]; lia.
Qed.

Definition three_byte_text : string := "aaaaaaaa…………".
Lemma three_byte_text_chars : short_chars three_byte_text.
Proof.
  assert (forallb (fun i => existsb (fun d => Nat.leb d i && is_char_boundary three_byte_text (i - d))
                              [0;1;2;3]%nat) (seq 0 21) = true) as H by (vm_compute; reflexivity).
  intros i Hi. rewrite forallb_forall in H. specialize (H i ltac:(apply in_seq; cbn in Hi; lia)).
  apply existsb_exists in H as (d & Hd & H). bool_prop. exists d.
  rewrite Nat.leb_le in *. cbn in Hd. split_and!; [lia|done|done].
Qed.
(** The budget is exceeded: eleven bytes where ten were asked for. *)
Lemma truncate_bounded_witness :
  (String.length (truncate three_byte_text 10) <= 10 + 3)%nat
  /\ String.length (truncate three_byte_text 10) = 11%nat.
Proof.
  split; [|vm_compute; reflexivity].
  exact (proj1 (proj2 (truncate_bounded three_byte_text 10 three_byte_text_chars))).
Defined.
