(* ===== verification/TaskSystem.v ===== *)
(** The task system: the host, its executors and its clients as a step
    relation, and the invariant that no task ever has two runs in flight and no
    slot two runs.

    A step is one write the source makes under its own database transaction, or
    a sequence of writes of one run's row.  The candidate a claim carries, the
    conversations, the answers and the clients' writes are arbitrary. *)
From stdpp Require Import relations.
From S2P Require Import Prelude TaskTypes TaskScheduleProps TaskStore TaskTick TaskLedgerProps.

(** * The system *)
Inductive Stage := Claimed | Opened (failure : option string) | Settled.
Record Executor := mkExecutor { ex_task : Task; ex_run : TaskRun; ex_stage : Stage }.
Record TaskSystem := mkSystem { ts_host : Host; ts_execs : list Executor }.

Definition ex_id (ex : Executor) : string := tr_id (ex_run ex).

Section System.
Context `{TaskLibs} `{JsonText} `{DriverText}.

(** [InterruptedTask] writes what it can. *)
Definition interrupted (now : i64) (id : string) (db : Db) : Db :=
  match interrupt now id db with inl _ => db | inr db => db end.

Inductive step : TaskSystem -> TaskSystem -> Prop :=
| step_reap now h execs :
    step (mkSystem h execs) (mkSystem (snd (reap_orphaned_runs now h)) execs)
| step_claim fresh now task reason run h h' execs :
    has_running_run (tk_id task) (h_db h) = false ->
    claim fresh now task reason h = (inr run, h') ->
    step (mkSystem h execs)
         (mkSystem (h' <| h_live ::= fun live => {[ tr_id run ]} ∪ live |>)
            (execs ++ [mkExecutor task run Claimed]))
| step_claim_refused fresh now task reason e h h' execs :
    has_running_run (tk_id task) (h_db h) = false ->
    claim fresh now task reason h = (inl e, h') ->
    step (mkSystem h execs) (mkSystem h' execs)
| step_open get_thread created now i task run e run' db' h execs :
    execs !! i = Some (mkExecutor task run Claimed) ->
    open_run get_thread created now task run (h_db h) = (e, run', db') ->
    step (mkSystem h execs)
         (mkSystem (h <| h_db := db' |>) (<[i := mkExecutor task run' (Opened e)]> execs))
| step_settle now i task run failure outcome digest deleted deleted_shell has_entries run' db' h execs :
    execs !! i = Some (mkExecutor task run (Opened failure)) ->
    (forall e, failure = Some e -> outcome = inl e) ->
    execute now outcome digest deleted deleted_shell has_entries task run (h_db h) = inr (run', db') ->
    step (mkSystem h execs)
         (mkSystem (h <| h_db := db' |>) (<[i := mkExecutor task run' Settled]> execs))
| step_drop now i ex h execs :
    execs !! i = Some ex ->
    step (mkSystem h execs)
         (mkSystem (h <| h_db := interrupted now (ex_id ex) (h_db h) |>
                      <| h_live ::= fun live => live ∖ {[ ex_id ex ]} |>)
            (delete i execs))
| step_restart now (reconciled : bool) owner h execs :
    step (mkSystem h execs)
         (mkSystem (mkHost (if reconciled then snd (mark_interrupted_runs now (h_db h)) else h_db h) owner ∅) [])
| step_client db' h execs :
    (exists task, insert_task task (h_db h) = inr db' \/ update_task task (h_db h) = inr db')
    \/ (exists rev, insert_revision rev (h_db h) = inr db') ->
    step (mkSystem h execs) (mkSystem (h <| h_db := db' |>) execs).

(** * The invariant *)
Definition row_of (id : string) (db : Db) : option RunRow := List.find (fun r => cr_id r =?s id) (db_runs db).

Definition run_ids (db : Db) : list string := cr_id <$> db_runs db.

(** An executor that has not settled carries a running row of its host. *)
Definition carried (h : Host) (ex : Executor) : Prop :=
  ex_id ex ∈ h_live h /\ ex_id ex ∈ run_ids (h_db h)
  /\ (ex_stage ex <> Settled ->
      tr_status (ex_run ex) = RsRunning
      /\ exists r, row_of (ex_id ex) (h_db h) = Some r /\ is_running r = true
                   /\ cr_owner r = Some (h_owner h)).
Record system_ok (s : TaskSystem) : Prop := {
  so_ledger : ledger_ok (h_db (ts_host s));
  so_ids : NoDup (ex_id <$> ts_execs s);
  so_carried : forall ex, ex ∈ ts_execs s -> carried (ts_host s) ex
}.

(** A write that leaves the rows of the unsettled executors alone. *)
Lemma carried_frame h h' ex :
  ex_id ex ∈ h_live h' -> ex_id ex ∈ run_ids (h_db h') -> h_owner h' = h_owner h ->
  (ex_stage ex <> Settled -> row_of (ex_id ex) (h_db h') = row_of (ex_id ex) (h_db h)) ->
  carried h ex -> carried h' ex.
Proof.
  intros Hl Hi Ho Hr (_ & _ & Hc). split_and!; [done..|]. intros Hs. rewrite (Hr Hs), Ho. by apply Hc.
Qed.

Lemma row_of_update k id f runs : (forall r, cr_id r = k -> cr_id (f r) = k) -> k <> id ->
  List.find (fun r => cr_id r =?s id) (update_first (fun r => cr_id r =?s k) f runs)
  = List.find (fun r => cr_id r =?s id) runs.
Proof. intros Hf Hne. rewrite (find_update_first cr_id) by done. by rewrite (proj2 (String.eqb_neq _ _) Hne). Qed.

(** A write to the row [k] alone. *)
Definition touches_only (k : string) (db db' : Db) : Prop :=
  run_ids db' = run_ids db /\ forall id, id <> k -> row_of id db' = row_of id db.

(** [update_run] on its own row. *)
Lemma update_run_row run db db' id : update_run run db = inr db' ->
  row_of id db' = if tr_id run =?s id then option_map (updated_run run) (row_of id db) else row_of id db.
Proof.
  unfold update_run, row_of. destruct (List.find _ (db_runs db)) as [old|] eqn:Ef.
  - destruct (List.existsb _ _); [done|]. intros [= <-]. cbn. rewrite (find_update_first cr_id) by done.
    by destruct (String.eqb_spec (tr_id run) id) as [->|].
  - intros [= <-]. destruct (String.eqb_spec (tr_id run) id) as [<-|]; [|done]. by rewrite Ef.
Qed.

Lemma update_run_touches run db db' : update_run run db = inr db' -> touches_only (tr_id run) db db'.
Proof.
  intros Hu. split.
  - revert Hu. unfold update_run, run_ids. repeat case_match; intros [= <-]; [|done]. cbn.
    by apply (keys_update_first cr_id).
  - intros id Hne. rewrite (update_run_row _ _ _ id Hu). by rewrite (proj2 (String.eqb_neq _ _)) by congruence.
Qed.
Lemma touches_trans k a b c : touches_only k a b -> touches_only k b c -> touches_only k a c.
Proof.
  intros [Iab Hab] [Ibc Hbc]. split; [congruence|]. intros id Hne. by rewrite (Hbc id Hne), (Hab id Hne).
Qed.

(** ** Clients touch no run *)
Lemma insert_task_runs task db db' : insert_task task db = inr db' -> db_runs db' = db_runs db.
Proof. unfold insert_task. repeat case_match; intros [= <-]; done. Qed.
Lemma update_task_runs task db db' : update_task task db = inr db' -> db_runs db' = db_runs db.
Proof. unfold update_task. repeat case_match; intros [= <-]; done. Qed.
Lemma insert_revision_runs rev db db' : insert_revision rev db = inr db' -> db_runs db' = db_runs db.
Proof. unfold insert_revision. repeat case_match; intros [= <-]; done. Qed.

Lemma ledger_ok_runs db db' : db_runs db' = db_runs db -> ledger_ok db -> ledger_ok db'.
Proof. intros E [H1' H2' H3']. split; by rewrite E. Qed.
Lemma row_of_runs id db db' : db_runs db' = db_runs db -> row_of id db' = row_of id db.
Proof. unfold row_of. by intros ->. Qed.
Lemma touches_runs k db db' : db_runs db' = db_runs db -> touches_only k db db'.
Proof. intros E. unfold touches_only, run_ids, row_of. by rewrite E. Qed.

(** ** The claim *)
Lemma insert_run_row run owner db db' id : insert_run_owned run owner db = inr db' ->
  (tr_id run ∉ run_ids db)
  /\ row_of id db' = (if tr_id run =?s id then Some (run_values run owner) else row_of id db).
Proof.
  unfold insert_run_owned. destruct (List.existsb _ (db_runs db)) eqn:E; [done|].
  destruct (List.existsb (same_slot _) _); [done|]. destruct (negb _); [done|]. intros [= <-]. split.
  - by apply (keys_fresh cr_id).
  - unfold row_of. cbn. by rewrite (find_app_new cr_id) by done.
Qed.

Lemma claim_inv fresh now task reason h res h' : claim fresh now task reason h = (res, h') ->
  let run := claimed_run fresh now task reason in
  (h' = h /\ exists e, res = inl e)
  \/ exists db1, insert_run_owned run (Some (h_owner h)) (h_db h) = inr db1
       /\ db_runs (h_db h') = db_runs db1 /\ h_owner h' = h_owner h /\ h_live h' = h_live h
       /\ (forall started, res = inr started -> started = run).
Proof.
  unfold claim. set (run := claimed_run fresh now task reason). cbn zeta.
  destruct (insert_run_owned run (Some (h_owner h)) (h_db h)) as [e|db1] eqn:Ei.
  - intros [= <- <-]. left. eauto.
  - cbn. destruct (update_task _ db1) as [e|db2] eqn:Eu; intros [= <- <-]; right; exists db1; cbn;
      split_and!; try done; [by eapply update_task_runs|by intros ? [= <-]].
Qed.
Lemma claimed_run_fields fresh now task reason :
  tr_status (claimed_run fresh now task reason) = RsRunning
  /\ tr_task_id (claimed_run fresh now task reason) = tk_id task.
Proof. unfold claimed_run. by destruct reason. Qed.

(** A claim keeps the ledger, and the rows that were there. *)
Lemma claim_keeps fresh now task reason h res h' :
  has_running_run (tk_id task) (h_db h) = false -> ledger_ok (h_db h) ->
  claim fresh now task reason h = (res, h') ->
  ledger_ok (h_db h') /\ h_owner h' = h_owner h /\ h_live h' = h_live h
  /\ run_ids (h_db h) ⊆ run_ids (h_db h')
  /\ (forall id, is_Some (row_of id (h_db h)) -> row_of id (h_db h') = row_of id (h_db h)).
Proof.
  intros Hr Hok Hc. destruct (claim_inv _ _ _ _ _ _ _ Hc) as [[-> _]|(db1 & Hi & Eruns & Ho & Hl & _)]; [done|].
  destruct (claimed_run_fields fresh now task reason) as [Hs Ht].
  split_and!; [|done|done| |].
  - apply (ledger_ok_runs _ _ Eruns). eapply insert_run_ok; [done| |done]. intros _. by rewrite Ht.
  - unfold run_ids. rewrite Eruns. revert Hi. unfold insert_run_owned. repeat case_match; intros [= <-].
    cbn. rewrite fmap_app. set_solver.
  - intros id [r Hrow]. rewrite (row_of_runs id _ _ Eruns).
    destruct (insert_run_row _ _ _ _ id Hi) as [Hfresh ->].
    destruct (String.eqb_spec (tr_id (claimed_run fresh now task reason)) id) as [<-|]; [|done].
    exfalso. apply Hfresh. apply (find_at_key cr_id) in Hrow as [Hin <-].
    apply list_elem_of_fmap_2. by apply list_elem_of_In.
Qed.
Lemma claim_granted fresh now task reason h run h' : claim fresh now task reason h = (inr run, h') ->
  tr_status run = RsRunning /\ (tr_id run ∉ run_ids (h_db h))
  /\ row_of (tr_id run) (h_db h') = Some (run_values run (Some (h_owner h))).
Proof.
  intros Hc. destruct (claim_inv _ _ _ _ _ _ _ Hc) as [[_ [? ?]]|(db1 & Hi & Eruns & _ & _ & Hrun)]; [done|].
  rewrite (Hrun run eq_refl) in *. split; [apply claimed_run_fields|].
  rewrite (row_of_runs _ _ _ Eruns). destruct (insert_run_row _ _ _ _ (tr_id (claimed_run fresh now task reason)) Hi) as [? ->].
  by rewrite String.eqb_refl.
Qed.

(** ** Opening *)
Lemma update_run_running run db db' r : ledger_ok db -> row_of (tr_id run) db = Some r -> is_running r = true ->
  tr_status run = RsRunning -> update_run run db = inr db' ->
  ledger_ok db' /\ exists r', row_of (tr_id run) db' = Some r' /\ is_running r' = true /\ cr_owner r' = cr_owner r.
Proof.
  intros Hok Hr Hrun Hs Hu. split.
  - eapply update_run_ok; [done| |done]. intros _ old Hold. unfold row_of in Hr. by rewrite Hr in Hold; injection Hold as <-.
  - rewrite (update_run_row _ _ _ (tr_id run) Hu), String.eqb_refl, Hr. eexists. split; [done|].
    unfold is_running. cbn. by rewrite Hs.
Qed.
Lemma open_run_keeps get_thread created now task run db e run' db' r :
  ledger_ok db -> row_of (tr_id run) db = Some r -> is_running r = true -> tr_status run = RsRunning ->
  open_run get_thread created now task run db = (e, run', db') ->
  ledger_ok db' /\ tr_id run' = tr_id run /\ tr_status run' = RsRunning
  /\ (exists r', row_of (tr_id run) db' = Some r' /\ is_running r' = true /\ cr_owner r' = cr_owner r)
  /\ touches_only (tr_id run) db db'.
Proof.
  intros Hok Hr Hrun Hs. unfold open_run.
  assert (forall (ids : string + string * string) db1, db_runs db1 = db_runs db ->
    match ids with
    | inl e => (Some e, run, db1)
    | inr (thread_id, session_id) =>
        let run := run <| tr_thread_id := Some thread_id |> <| tr_session_id := Some session_id |> in
        match update_run run db1 with
        | inl e => (Some (store_error_text e), run, db1)
        | inr db => (None, run, db)
        end
    end = (e, run', db') ->
    ledger_ok db' /\ tr_id run' = tr_id run /\ tr_status run' = RsRunning
    /\ (exists r', row_of (tr_id run) db' = Some r' /\ is_running r' = true /\ cr_owner r' = cr_owner r)
    /\ touches_only (tr_id run) db db') as Hmain.
  { intros ids db1 E1. pose proof (ledger_ok_runs _ _ E1 Hok) as Hok1.
    assert (forall id, row_of id db1 = row_of id db) as Hrows by (intros; by apply row_of_runs).
    destruct ids as [err|[tid sid]].
    - intros [= <- <- <-]. split_and!; [done..|exists r; rewrite Hrows; done|by apply touches_runs].
    - cbn zeta. destruct (update_run _ db1) as [err|db2] eqn:Eu; intros [= <- <- <-].
      + split_and!; [done..|exists r; rewrite Hrows; done|by apply touches_runs].
      + destruct (update_run_running (run <| tr_thread_id := Some tid |> <| tr_session_id := Some sid |>) db1 db2 r
                    Hok1 ltac:(cbn; by rewrite Hrows) Hrun Hs Eu) as [? ?].
        split_and!; [done..|]. eapply touches_trans; [by apply (touches_runs _ db db1)|].
        exact (update_run_touches _ _ _ Eu). }
  destruct (tk_session_policy task); [by apply Hmain|].
  destruct (bound_thread get_thread task) as [err|[ids|]]; [by apply (Hmain (inl err))|by apply (Hmain (inr ids))|].
  destruct created as [err|ids]; [by apply (Hmain (inl err))|].
  destruct (bind_task_thread now task (fst ids) db) as [err|db1] eqn:Eb.
  - by apply (Hmain (inl (store_error_text err))).
  - apply (Hmain (inr ids)). by eapply update_task_runs.
Qed.

(** ** Settling *)

Lemma update_run_settles run db db' : ledger_ok db -> tr_status run <> RsRunning -> update_run run db = inr db' ->
  ledger_ok db'.
Proof. intros Hok Hs Hu. eapply update_run_ok; [done| |done]. by intros. Qed.

Lemma side_write_keeps k (f : RunRow -> RunRow) db :
  (forall r, cr_id (f r) = cr_id r /\ cr_task_id (f r) = cr_task_id r /\ cr_due_at (f r) = cr_due_at r
             /\ cr_status (f r) = cr_status r) ->
  let db' := db <| db_runs := update_first (fun r => cr_id r =?s k) f (db_runs db) |> in
  (ledger_ok db -> ledger_ok db') /\ touches_only k db db'.
Proof.
  intros Hf db'. split; [intros Hok; by apply side_columns_ok|]. split.
  { unfold run_ids, db'. cbn. apply (keys_update_first cr_id). intros r <-. by destruct (Hf r). }
  intros id Hne. unfold row_of, db'. cbn.
  apply row_of_update; [|congruence]. intros r <-. by destruct (Hf r).
Qed.
Lemma set_run_output_keeps k text db :
  (ledger_ok db -> ledger_ok (set_run_output k text db)) /\ touches_only k db (set_run_output k text db).
Proof. by apply side_write_keeps. Qed.
Lemma mark_deleted_keeps k db :
  (ledger_ok db -> ledger_ok (mark_run_conversation_deleted k db))
  /\ touches_only k db (mark_run_conversation_deleted k db).
Proof. by apply side_write_keeps. Qed.

Lemma settled_run_fields now outcome digest run :
  tr_id (settled_run now outcome digest run) = tr_id run
  /\ tr_status (settled_run now outcome digest run) <> RsRunning.
Proof.
  unfold settled_run. destruct (settle_outcome outcome digest) as [[[[st err] reason] note] output] eqn:E.
  assert (st <> RsRunning) as Hst.
  { revert E. unfold settle_outcome. repeat case_match; intros [= <- <- <- <- <-]; done. }
  by destruct output.
Qed.
Lemma execute_keeps now outcome digest deleted deleted_shell has_entries task run db run' db' :
  ledger_ok db ->
  execute now outcome digest deleted deleted_shell has_entries task run db = inr (run', db') ->
  ledger_ok db' /\ tr_id run' = tr_id run /\ touches_only (tr_id run) db db'.
Proof.
  intros Hok. unfold execute. destruct (settled_run_fields now outcome digest run) as [Hid Hst].
  set (settled := settled_run now outcome digest run) in *.
  destruct (update_run settled db) as [|db1] eqn:Eu; [done|].
  pose proof (update_run_settles _ _ _ Hok Hst Eu) as Hok1.
  pose proof (update_run_touches _ _ _ Eu) as Ht1. rewrite Hid in Ht1.
  set (db2 := match snd _ with Some text => _ | None => db1 end).
  assert (ledger_ok db2 /\ touches_only (tr_id run) db db2) as [Hok2 Ht2].
  { unfold db2. destruct (snd _) as [text|]; [|done]. rewrite Hid.
    destruct (set_run_output_keeps (tr_id run) (truncate text (Z.to_nat RUN_OUTPUT_CHARS)) db1) as [Hs Ht].
    split; [by apply Hs|by eapply touches_trans]. }
  clearbody db2 settled. destruct (mark_deleted_keeps (tr_id run) db2) as [Hs Ht].
  destruct (deletes_run_conversation task && _ && deleted).
  - cbn. intros [= <- <-]. rewrite Hid. split_and!; [by apply Hs|done|by eapply touches_trans].
  - destruct (negb (tr_session_deleted settled) && _ && _ && _ && _ && deleted_shell); intros [= <- <-].
    + cbn. rewrite Hid. split_and!; [by apply Hs|done|by eapply touches_trans].
    + done.
Qed.

Lemma get_run_id id db run : get_run id db = Some run -> tr_id run = id.
Proof.
  unfold get_run. destruct (List.find _ _) as [r|] eqn:Ef; [|done]. intros [= <-].
  by apply (find_at_key cr_id) in Ef as [_ <-].
Qed.
Lemma interrupted_keeps now id db : ledger_ok db ->
  ledger_ok (interrupted now id db) /\ touches_only id db (interrupted now id db).
Proof.
  intros Hok. unfold interrupted, interrupt. destruct (get_run id db) as [run|] eqn:Eg; [|done].
  apply get_run_id in Eg as <-. destruct (bool_decide _); [|done].
  destruct (update_run _ db) as [|db'] eqn:Eu; [done|]. split.
  - eapply update_run_settles; [done| |exact Eu]. done.
  - exact (update_run_touches _ _ _ Eu).
Qed.

(** ** Reaping *)
Lemma failed_run_keeps (p : RunRow -> bool) now error reason note db : ledger_ok db ->
  ledger_ok (db <| db_runs := List.map (fun r => if p r then failed_run now error reason note r else r) (db_runs db) |>).
Proof. intros Hok. eapply settle_rows_ok; [done|done|]. intros r. cbn beta. by destruct (p r). Qed.
Lemma find_map_other (p : RunRow -> bool) (f : RunRow -> RunRow) id runs :
  (forall r, cr_id (f r) = cr_id r) -> (forall r, p r = true -> cr_id r <> id) ->
  List.find (fun r => cr_id r =?s id) (List.map (fun r => if p r then f r else r) runs)
  = List.find (fun r => cr_id r =?s id) runs.
Proof.
  intros Hf Hp. induction runs as [|r runs IH]; [done|]. cbn. rewrite IH.
  destruct (p r) eqn:E; [|done]. rewrite Hf. by rewrite (proj2 (String.eqb_neq _ _) (Hp r E)).
Qed.
Lemma reap_running_run_keeps id now error reason note db : ledger_ok db ->
  let db' := snd (reap_running_run id now error reason note db) in ledger_ok db' /\ touches_only id db db'.
Proof.
  intros Hok. split; [by apply failed_run_keeps|]. split.
  { unfold run_ids, reap_running_run. cbn. rewrite <- list_fmap_compose. apply list_fmap_ext. intros i r _. cbn.
    by destruct (_ && _). }
  intros id' Hne. unfold row_of, reap_running_run. cbn.
  apply find_map_other; [done|]. intros r [->%String.eqb_eq _]%andb_true_iff. done.
Qed.
Lemma reap_each_keeps now rows : forall h, ledger_ok (h_db h) ->
  let h' := snd (reap_each now rows h) in
  ledger_ok (h_db h') /\ h_owner h' = h_owner h /\ h_live h' = h_live h
  /\ run_ids (h_db h') = run_ids (h_db h)
  /\ (forall id, (forall owner, In (id, owner) rows -> orphaned h id owner = false) ->
       row_of id (h_db h') = row_of id (h_db h)).
Proof.
  induction rows as [|[id owner] rows IH]; intros h Hok; [done|]. cbn [reap_each].
  destruct (orphaned h id owner) eqn:Eo; cbn [negb].
  - destruct (reap_running_run_keeps id now ORPHANED_RUN_ERROR INTERRUPTED ORPHANED_RUN_NOTE (h_db h) Hok) as [Hok1 [Hi1 Ht]].
    destruct (reap_running_run _ _ _ _ _ _) as [changed db1]. cbn in Hok1, Hi1, Ht.
    specialize (IH (h <| h_db := db1 |>) Hok1) as (Hok2 & Ho & Hl & Hi & Hr).
    destruct (reap_each now rows _) as [reaped h2]. cbn in *. split_and!; [done..|congruence|].
    intros id' Hid'. rewrite Hr; [|intros owner' Hin; exact (Hid' owner' (or_intror Hin))].
    apply Ht. intros ->. rewrite (Hid' owner (or_introl eq_refl)) in Eo. done.
  - specialize (IH h Hok) as (Hok2 & Ho & Hl & Hi & Hr). split_and!; try done.
    intros id' Hid'. apply Hr. intros owner' Hin. exact (Hid' owner' (or_intror Hin)).
Qed.

Lemma in_running_run_owners id owner db : In (id, owner) (running_run_owners db) ->
  exists r, In r (db_runs db) /\ is_running r = true /\ cr_id r = id /\ cr_owner r = owner.
Proof.
  unfold running_run_owners. rewrite in_map_iff. intros (r & [= <- <-] & Hin). exists r.
  rewrite in_app_iff, in_sort_by_key, !filter_In in Hin. naive_solver.
Qed.
Lemma row_of_in db r : NoDup (cr_id <$> db_runs db) -> In r (db_runs db) -> row_of (cr_id r) db = Some r.
Proof.
  unfold row_of. generalize (db_runs db). intros runs. induction runs as [|x runs IH]; [done|].
  cbn. intros [Hx Hnd]%NoDup_cons [->|Hin]; [by rewrite String.eqb_refl|].
  destruct (String.eqb_spec (cr_id x) (cr_id r)) as [E|]; [|by apply IH].
  exfalso. apply Hx. rewrite E. apply list_elem_of_fmap_2. by apply list_elem_of_In.
Qed.
Lemma carried_not_orphaned h ex owner : ledger_ok (h_db h) -> carried h ex -> ex_stage ex <> Settled ->
  In (ex_id ex, owner) (running_run_owners (h_db h)) -> orphaned h (ex_id ex) owner = false.
Proof.
  intros Hok (Hl & _ & Hc) Hs Hin. destruct (Hc Hs) as (_ & r & Hr & _ & Hown).
  apply in_running_run_owners in Hin as (r' & Hin & _ & Hid & <-).
  pose proof (row_of_in _ _ (lk_ids _ Hok) Hin) as Hr'. rewrite Hid, Hr in Hr'. injection Hr' as <-.
  rewrite Hown. unfold orphaned. by rewrite String.eqb_refl, bool_decide_eq_true_2 by done.
Qed.
End System.
