(* ===== verification/TaskSystemClaims.v ===== *)
(** Properties of the task system: every step keeps the invariant, so no
    interleaving gives a task two runs in flight or a slot two runs; the tick is
    a sequence of steps; and the claimed task a new conversation writes back,
    whose slot then stops every tick. *)
From stdpp Require Import relations.
From S2P Require Import Prelude TaskTypes TaskScheduleProps TaskStore TaskTick TaskLedgerProps TaskSystem.

Section Preservation.
Context `{TaskLibs} `{JsonText} `{DriverText}.

Lemma ids_insert i ex ex' (execs : list Executor) : execs !! i = Some ex -> ex_id ex' = ex_id ex ->
  ex_id <$> <[i:=ex']> execs = ex_id <$> execs.
Proof.
  intros Hi He. rewrite list_fmap_insert, He. apply list_insert_id. by rewrite list_lookup_fmap, Hi.
Qed.
Lemma other_executor i j ex ex2 (execs : list Executor) : NoDup (ex_id <$> execs) ->
  execs !! i = Some ex -> execs !! j = Some ex2 -> i <> j -> ex_id ex2 <> ex_id ex.
Proof.
  intros Hnd Hi Hj Hne E. apply Hne. eapply (NoDup_lookup (ex_id <$> execs) i j (ex_id ex)); [done|..];
    rewrite list_lookup_fmap; [by rewrite Hi|by rewrite Hj; cbn; rewrite E].
Qed.
Lemma replaced_executor i ex ex' ex2 (execs : list Executor) : NoDup (ex_id <$> execs) ->
  execs !! i = Some ex -> ex2 ∈ <[i:=ex']> execs -> ex2 = ex' \/ (ex2 ∈ execs /\ ex_id ex2 <> ex_id ex).
Proof.
  intros Hnd Hi (j & Hj)%list_elem_of_lookup.
  destruct (decide (i = j)) as [<-|Hne].
  - rewrite list_lookup_insert_eq in Hj by (by eapply lookup_lt_Some). injection Hj as <-. by left.
  - rewrite list_lookup_insert_ne in Hj by done. right. split; [by eapply list_elem_of_lookup_2|].
    by eapply other_executor.
Qed.
Lemma removed_executor i ex ex2 (execs : list Executor) : NoDup (ex_id <$> execs) ->
  execs !! i = Some ex -> ex2 ∈ delete i execs -> ex2 ∈ execs /\ ex_id ex2 <> ex_id ex.
Proof.
  intros Hnd Hi (j & Hj)%list_elem_of_lookup.
  destruct (decide (j < i)%nat).
  - rewrite list_lookup_delete_lt in Hj by lia. split; [by eapply list_elem_of_lookup_2|].
    eapply other_executor; [done..|lia].
  - rewrite list_lookup_delete_ge in Hj by lia. split; [by eapply list_elem_of_lookup_2|].
    eapply other_executor; [done..|lia].
Qed.

(** A write to one executor's row, under the same owner and registry. *)
Lemma step_own_row h execs i ex ex' db' :
  system_ok (mkSystem h execs) -> execs !! i = Some ex -> ex_id ex' = ex_id ex ->
  ledger_ok db' -> touches_only (ex_id ex) (h_db h) db' ->
  (ex_stage ex' <> Settled -> tr_status (ex_run ex') = RsRunning
     /\ exists r, row_of (ex_id ex) db' = Some r /\ is_running r = true /\ cr_owner r = Some (h_owner h)) ->
  system_ok (mkSystem (h <| h_db := db' |>) (<[i := ex']> execs)).
Proof.
  intros [Hok Hnd Hc] Hi Hid Hok' Ht Hnew. cbn in *. split; cbn; [done|by rewrite (ids_insert _ _ _ _ Hi Hid)|].
  intros ex2 [->|[Hin Hne]]%(replaced_executor _ _ _ _ _ Hnd Hi).
  - destruct (Hc ex (list_elem_of_lookup_2 _ _ _ Hi)) as (Hl & Hr & _). split_and!; rewrite Hid; [done| |exact Hnew].
    cbn. by rewrite (proj1 Ht).
  - apply (carried_frame h); [by apply Hc| |done| |by apply Hc].
    + cbn. rewrite (proj1 Ht). by apply Hc.
    + intros _. by apply Ht.
Qed.
Lemma step_all_rows h h' execs :
  system_ok (mkSystem h execs) -> ledger_ok (h_db h') -> h_owner h' = h_owner h -> h_live h' = h_live h ->
  run_ids (h_db h) ⊆ run_ids (h_db h') ->
  (forall ex, ex ∈ execs -> ex_stage ex <> Settled -> row_of (ex_id ex) (h_db h') = row_of (ex_id ex) (h_db h)) ->
  system_ok (mkSystem h' execs).
Proof.
  intros [Hok Hnd Hc] Hok' Ho Hl Hi Hr. cbn in *. split; cbn; [done..|]. intros ex Hin.
  apply (carried_frame h); [rewrite Hl; by apply Hc|by apply Hi, Hc|done|by apply Hr|by apply Hc].
Qed.

Lemma unsettled_row h execs i ex : system_ok (mkSystem h execs) -> execs !! i = Some ex -> ex_stage ex <> Settled ->
  tr_status (ex_run ex) = RsRunning
  /\ exists r, row_of (ex_id ex) (h_db h) = Some r /\ is_running r = true /\ cr_owner r = Some (h_owner h).
Proof. intros [_ _ Hc] Hi Hs. exact (proj2 (proj2 (Hc ex (list_elem_of_lookup_2 _ _ _ Hi))) Hs). Qed.

Lemma claim_step_ok fresh now task reason run h h' execs :
  system_ok (mkSystem h execs) -> has_running_run (tk_id task) (h_db h) = false ->
  claim fresh now task reason h = (inr run, h') ->
  system_ok (mkSystem (h' <| h_live ::= fun live => {[ tr_id run ]} ∪ live |>)
               (execs ++ [mkExecutor task run Claimed])).
Proof.
  intros [Hok Hnd Hc] Hrun Hcl. cbn in *.
  destruct (claim_keeps _ _ _ _ _ _ _ Hrun Hok Hcl) as (Hok' & Ho & Hl & Hids & Hrows).
  destruct (claim_granted _ _ _ _ _ _ _ Hcl) as (Hs & Hnone & Hrow).
  assert (forall ex, ex ∈ execs -> carried (h' <| h_live ::= fun live => {[ tr_id run ]} ∪ live |>) ex) as Hold.
  { intros ex Hin. apply (carried_frame h); [cbn; rewrite Hl; apply elem_of_union_r, Hc, Hin|by apply Hids, Hc|done| |by apply Hc].
    intros Hst. destruct (Hc ex Hin) as (_ & _ & Hx). destruct (Hx Hst) as (_ & r & Hr & _). cbn. apply Hrows. by exists r. }
  split; cbn; [done| |].
  - rewrite fmap_app. apply NoDup_app. split; [done|]. split; [|apply NoDup_singleton].
    intros k (ex & -> & Hin)%list_elem_of_fmap Hk. cbn in Hk. apply list_elem_of_singleton in Hk.
    apply Hnone. change (ex_id ex = tr_id run) in Hk. rewrite <- Hk. by apply Hc.
  - intros ex [Hin|Hin]%elem_of_app; [by apply Hold|]. apply list_elem_of_singleton in Hin as ->.
    split_and!; [cbn; set_solver| |].
    + apply (find_at_key cr_id) in Hrow as [Hin Hid]. cbn. unfold ex_id. cbn. rewrite <- Hid at 1.
      apply list_elem_of_fmap_2. by apply list_elem_of_In.
    + intros _. split; [done|]. exists (run_values run (Some (h_owner h))).
      split_and!; [done| |cbn; by rewrite Ho]. unfold is_running. cbn. by rewrite Hs.
Qed.

Lemma drop_step_ok now i ex h execs : system_ok (mkSystem h execs) -> execs !! i = Some ex ->
  system_ok (mkSystem (h <| h_db := interrupted now (ex_id ex) (h_db h) |>
                         <| h_live ::= fun live => live ∖ {[ ex_id ex ]} |>) (delete i execs)).
Proof.
  intros [Hok Hnd Hc] Hi. cbn in *. destruct (interrupted_keeps now (ex_id ex) (h_db h) Hok) as [Hok' [Hids Ht]].
  split; cbn; [done| |].
  - rewrite list_fmap_delete. eapply sublist_NoDup; [exact Hnd|apply sublist_delete].
  - intros ex2 [Hin Hne]%(removed_executor _ _ _ _ Hnd Hi).
    apply (carried_frame h); [|cbn; rewrite Hids; by apply Hc|done|intros _; by apply Ht|by apply Hc].
    cbn. destruct (Hc ex2 Hin) as [Hl _]. set_solver.
Qed.
Lemma restart_step_ok now (reconciled : bool) owner h execs : system_ok (mkSystem h execs) ->
  system_ok (mkSystem (mkHost (if reconciled then snd (mark_interrupted_runs now (h_db h)) else h_db h) owner ∅) []).
Proof.
  intros [Hok _ _]. cbn in *. split; cbn; [|apply NoDup_nil_2|by intros ? ?%not_elem_of_nil].
  destruct reconciled; [|done]. by apply failed_run_keeps.
Qed.
Lemma reap_step_ok now h execs : system_ok (mkSystem h execs) ->
  system_ok (mkSystem (snd (reap_orphaned_runs now h)) execs).
Proof.
  intros Hs. pose proof Hs as [Hok _ Hc]. cbn in *.
  destruct (reap_each_keeps now (running_run_owners (h_db h)) h Hok) as (Hok' & Ho & Hl & Hi & Hr).
  eapply step_all_rows; [done..| |].
  - unfold reap_orphaned_runs. by rewrite Hi.
  - intros ex Hin Hst. apply Hr. intros owner Hown. exact (carried_not_orphaned h ex owner Hok (Hc ex Hin) Hst Hown).
Qed.

Lemma step_ok s s' : step s s' -> system_ok s -> system_ok s'.
Proof.
  intros Hst Hs. destruct Hst as [now h execs|fresh now task reason run h h' execs Hr Hcl
    |fresh now task reason e h h' execs Hr Hcl|get_thread created now i task run e run' db' h execs Hi Ho
    |now i task run failure outcome digest deleted deleted_shell has_entries run' db' h execs Hi Hf He
    |now i ex h execs Hi|now reconciled owner h execs|db' h execs Hcl].
  - by apply reap_step_ok.
  - by eapply claim_step_ok.
  - destruct (claim_keeps _ _ _ _ _ _ _ Hr (so_ledger _ Hs) Hcl) as (Hok' & Ho & Hl & Hids & Hrows).
    eapply step_all_rows; [done..|]. intros ex Hin Hst. apply Hrows.
    destruct (so_carried _ Hs ex Hin) as (_ & _ & Hx). destruct (Hx Hst) as (_ & r & Hrow & _). by exists r.
  - destruct (unsettled_row _ _ _ _ Hs Hi ltac:(done)) as (Hrs & r & Hrow & Hrun & Hown).
    destruct (open_run_keeps _ _ _ _ _ _ _ _ _ r (so_ledger _ Hs) Hrow Hrun Hrs Ho)
      as (Hok' & Hid & Hrs' & (r' & Hrow' & Hrun' & Hown') & Ht).
    eapply step_own_row; [done|exact Hi|done..|]. intros _. split; [done|]. exists r'. split_and!; [done..|congruence].
  - destruct (execute_keeps _ _ _ _ _ _ _ _ _ _ _ (so_ledger _ Hs) He) as (Hok' & Hid & Ht).
    eapply step_own_row; [done|exact Hi|done..|]. done.
  - by eapply drop_step_ok.
  - by eapply restart_step_ok.
  - assert (db_runs db' = db_runs (h_db h)) as E.
    { destruct Hcl as [[task [Hq|Hq]]|[rev Hq]];
        [by eapply insert_task_runs|by eapply update_task_runs|by eapply insert_revision_runs]. }
    eapply step_all_rows; [done| |done|done| |]; cbn.
    + eapply ledger_ok_runs; [done|]. apply (so_ledger _ Hs).
    + unfold run_ids. by rewrite E.
    + intros ex _ _. by apply row_of_runs.
Qed.

(** A fresh installation: tasks, and no runs. *)
Definition started (s : TaskSystem) : Prop := db_runs (h_db (ts_host s)) = [] /\ ts_execs s = [].
Lemma started_ok s : started s -> system_ok s.
Proof.
  destruct s as [h execs]. intros [Hr He]. cbn in *. subst execs. split; cbn.
  - split; rewrite Hr; [apply NoDup_nil_2|..]; intros; change (0 <= 1); lia.
  - apply NoDup_nil_2.
  - by intros ? ?%not_elem_of_nil.
Qed.
Lemma task_reachable_ok s s' : started s -> rtc step s s' -> system_ok s'.
Proof. intros Hs%started_ok Hr. induction Hr; [done|]. eauto using step_ok. Qed.

(** C3: whatever the interleaving of ticks, executors, restarts and clients,
    a task never has two runs in flight and a slot never two runs, and an
    executor at work carries a running row of its own host, which reaping
    leaves alone. *)
Theorem one_run_at_a_time s s' : started s -> rtc step s s' ->
  (forall task_id, count (running_of task_id) (db_runs (h_db (ts_host s'))) <= 1)
  /\ (forall task_id due, count (slot_of task_id due) (db_runs (h_db (ts_host s'))) <= 1)
  /\ (forall ex, ex ∈ ts_execs s' -> ex_stage ex <> Settled -> exists r,
        row_of (ex_id ex) (h_db (ts_host s')) = Some r /\ is_running r = true
        /\ forall now, row_of (ex_id ex) (h_db (snd (reap_orphaned_runs now (ts_host s')))) = Some r).
Proof.
  intros Hs Hr. pose proof (task_reachable_ok _ _ Hs Hr) as [Hok Hnd Hc]. split_and!; [apply Hok..|].
  intros ex Hin Hst. destruct (Hc ex Hin) as (_ & _ & Hx). destruct (Hx Hst) as (_ & r & Hrow & Hrun & _).
  exists r. split_and!; [done..|]. intros now.
  destruct (reap_each_keeps now (running_run_owners (h_db (ts_host s'))) (ts_host s') Hok) as (_ & _ & _ & _ & Hkeep).
  unfold reap_orphaned_runs. rewrite Hkeep; [done|]. intros owner Hown.
  exact (carried_not_orphaned _ ex owner Hok (Hc ex Hin) Hst Hown).
Qed.
End Preservation.

(** * The tick *)
Section TickClaims.
Context `{TaskLibs} `{JsonText} `{DriverText}.

Lemma running_rows_grow task_id db db' : db_runs db `prefix_of` db_runs db' ->
  has_running_run task_id db = true -> has_running_run task_id db' = true.
Proof.
  unfold has_running_run. intros [rows ->]. rewrite count_app, !Z.ltb_lt.
  pose proof (count_ge_0 (fun r => (cr_task_id r =?s task_id) && is_running r) rows). lia.
Qed.
Lemma claim_grows fresh now task reason h res h' : claim fresh now task reason h = (res, h') ->
  db_runs (h_db h) `prefix_of` db_runs (h_db h')
  /\ forall run, res = inr run -> has_running_run (tk_id task) (h_db h') = true.
Proof.
  intros Hc. pose proof (claimed_run_fields fresh now task reason) as [Hs Ht].
  destruct (claim_inv _ _ _ _ _ _ _ Hc) as [[-> [e ->]]|(db1 & Hi & Eruns & _)]; [done|].
  assert (db_runs db1 = db_runs (h_db h) ++ [run_values (claimed_run fresh now task reason) (Some (h_owner h))]) as E.
  { revert Hi. unfold insert_run_owned. repeat case_match; intros [= <-]. done. }
  split; [rewrite Eruns, E; by eexists|]. intros run _. unfold has_running_run. rewrite Eruns, E, count_app, count_cons_if.
  cbn. rewrite Ht, String.eqb_refl, Hs. apply Z.ltb_lt. change (count _ []) with 0.
  pose proof (count_ge_0 (fun r => (cr_task_id r =?s tk_id task) && is_running r) (db_runs (h_db h))). cbn. lia.
Qed.

(** No stop request is observed up to and including the [i]th candidate. *)
Definition unstopped (envs : list (string * i64 * bool)) (i : nat) : Prop :=
  forall j, (j <= i)%nat -> exists fresh now, envs !! j = Some (fresh, now, false).
Lemma unstopped_tail env envs i : unstopped (env :: envs) (S i) -> unstopped envs i.
Proof. intros Hst j Hj. apply (Hst (S j)). lia. Qed.

Lemma claim_each_steps cands : forall envs h execs,
  let '(e, runs, h') := claim_each envs cands h in
  db_runs (h_db h) `prefix_of` db_runs (h_db h')
  /\ (exists fresh_execs, rtc step (mkSystem h execs) (mkSystem h' (execs ++ fresh_execs))
        /\ List.map ex_run fresh_execs = runs /\ forall ex, In ex fresh_execs -> ex_stage ex = Claimed)
  /\ (e = None -> forall i task reason, cands !! i = Some (task, reason) -> unstopped envs i ->
      has_running_run (tk_id task) (h_db h') = true).
Proof.
  induction cands as [|[task reason] cands IH]; intros envs h execs.
  { destruct envs; cbn; (split_and!; [done|exists []; by rewrite app_nil_r|done]). }
  destruct envs as [|[[fresh now] stopping] envs].
  { cbn. split_and!; [done|exists []; by rewrite app_nil_r|]. intros _ i t r _ Hst.
    by destruct (Hst 0%nat) as (? & ? & ?); [lia|]. }
  cbn [claim_each]. destruct stopping.
  { split_and!; [done|exists []; by rewrite app_nil_r|]. intros _ i t r _ Hst.
    by destruct (Hst 0%nat) as (? & ? & ?); [lia|]. }
  destruct (has_running_run (tk_id task) (h_db h)) eqn:Er.
  { specialize (IH envs h execs). destruct (claim_each envs cands h) as [[e runs] h'].
    destruct IH as (Hp & Hs & Hall). split_and!; [done..|]. intros He [|i] t r Hi Hst.
    - injection Hi as <- <-. by eapply running_rows_grow.
    - eapply (Hall He i); [exact Hi|by eapply unstopped_tail]. }
  destruct (claim fresh now task reason h) as [[e|run] h1] eqn:Ec; destruct (claim_grows _ _ _ _ _ _ _ Ec) as [Hp1 Hr1].
  { split_and!; [done| |done]. exists []. rewrite app_nil_r. split_and!; [|done..].
    eapply rtc_l; [by eapply step_claim_refused|done]. }
  set (h2 := h1 <| h_live ::= _ |>). specialize (IH envs h2 (execs ++ [mkExecutor task run Claimed])).
  destruct (claim_each envs cands h2) as [[e runs] h']. destruct IH as (Hp & (fs & Hs & Hruns & Hcl) & Hall).
  split_and!.
  - by etransitivity.
  - exists (mkExecutor task run Claimed :: fs). split_and!; [|cbn; by rewrite Hruns|by intros ex [<-|Hin]; auto].
    eapply rtc_l; [by apply step_claim with (now := now) (fresh := fresh) (reason := reason) (h := h) (h' := h1)|].
    by rewrite <- app_assoc in Hs.
  - intros He [|i] t r Hi Hst.
    + injection Hi as <- <-. eapply running_rows_grow; [exact Hp|]. by apply (Hr1 run).
    + eapply (Hall He i); [exact Hi|by eapply unstopped_tail].
Qed.

(** C25: a tick is a sequence of steps of the system that starts one executor
    for each run it claims; and a tick that ends without an error leaves with a
    run in flight every task that was due after the reaping and that it reached
    before it observed a stop request (each entry of [envs] holds, besides the
    new run's id and the clock, whether a stop was observed before that task);
    so a tick that observes none starts everything that is due. *)
Theorem tick_starts_what_is_due now envs h execs :
  let '(e, runs, h') := tick now envs h in
  (exists fresh_execs, rtc step (mkSystem h execs) (mkSystem h' (execs ++ fresh_execs))
     /\ List.map ex_run fresh_execs = runs /\ forall ex, In ex fresh_execs -> ex_stage ex = Claimed)
  /\ (e = None -> forall i task reason,
      candidates now (h_db (snd (reap_orphaned_runs now h))) !! i = Some (task, reason) -> unstopped envs i ->
      has_running_run (tk_id task) (h_db h') = true).
Proof.
  unfold tick. set (h1 := snd (reap_orphaned_runs now h)).
  pose proof (claim_each_steps (candidates now (h_db h1)) envs h1 execs) as Hc.
  destruct (claim_each envs _ h1) as [[e runs] h']. destruct Hc as (_ & (fs & Hs & Hruns) & Hall).
  split; [|exact Hall]. exists fs. split; [|exact Hruns]. eapply rtc_l; [apply (step_reap now)|exact Hs].
Qed.
End TickClaims.

(** * The slot that comes back *)
Section Slot.
Context `{TaskLibs} `{JsonText} `{DriverText}.

Definition slot_filled (task_id : string) (due : i64) (db : Db) : Prop :=
  exists r, In r (db_runs db) /\ cr_task_id r = task_id /\ cr_due_at r = Some due.

Lemma filled_slot_refuses run owner db due : slot_filled (tr_task_id run) due db -> tr_due_at run = Some due ->
  exists e, insert_run_owned run owner db = inl e.
Proof.
  intros (r & Hin & Ht & Hd) Hdue. unfold insert_run_owned.
  destruct (List.existsb (fun _ => _) _); [eauto|]. 
  assert (List.existsb (same_slot (run_values run owner)) (db_runs db) = true) as ->; [|eauto].
  apply existsb_exists. exists r. split; [done|]. apply same_slot_true. cbn. eauto.
Qed.
(** A tick that reaches a task whose slot is filled ends there. *)
Lemma filled_slot_ends_tick task due h fresh now envs cands :
  slot_filled (tk_id task) due (h_db h) -> tk_next_due_at task = Some due ->
  has_running_run (tk_id task) (h_db h) = false ->
  exists e, claim_each ((fresh, now, false) :: envs) ((task, Schedule) :: cands) h = (Some e, [], h).
Proof.
  intros Hf Hd Hr. cbn [claim_each]. rewrite Hr. unfold claim.
  destruct (filled_slot_refuses (claimed_run fresh now task Schedule) (Some (h_owner h)) (h_db h) due Hf Hd) as [e ->].
  by exists e.
Qed.

(** The rows of [db'] are those of [db], in place, under the same tasks and slots. *)
Definition same_slots (db db' : Db) : Prop :=
  forall task_id due, slot_filled task_id due db -> slot_filled task_id due db'.
Lemma same_slots_update p (f : RunRow -> RunRow) db db' :
  db_runs db' = update_first p f (db_runs db) ->
  (forall r, List.find p (db_runs db) = Some r -> cr_task_id (f r) = cr_task_id r /\ cr_due_at (f r) = cr_due_at r) ->
  same_slots db db'.
Proof.
  intros E Hf task_id due (r & Hin & Ht & Hd). unfold slot_filled. rewrite E. clear E.
  induction (db_runs db) as [|x rows IH]; [done|]. cbn in *. destruct (p x) eqn:Ep.
  - destruct Hin as [->|Hin]; [|by exists r; split; [right|]].
    destruct (Hf r eq_refl) as [Et Ed]. exists (f r). rewrite Et, Ed. split; [by left|done].
  - destruct Hin as [->|Hin]; [by exists r; split; [left|]|].
    destruct (IH Hf Hin) as (r' & Hin' & Hr'). exists r'. split; [by right|done].
Qed.
Lemma same_slots_trans a b c : same_slots a b -> same_slots b c -> same_slots a c.
Proof. unfold same_slots. eauto. Qed.
Lemma same_slots_runs db db' : db_runs db' = db_runs db -> same_slots db db'.
Proof. unfold same_slots, slot_filled. by intros ->. Qed.

Definition due_kept (due : option i64) (id : string) (db : Db) : Prop :=
  forall r, row_of id db = Some r -> cr_due_at r = due.
Lemma update_run_slots run db db' : due_kept (tr_due_at run) (tr_id run) db -> update_run run db = inr db' ->
  db_tasks db' = db_tasks db /\ same_slots db db' /\ due_kept (tr_due_at run) (tr_id run) db'.
Proof.
  intros Hd Hu. split_and!.
  - revert Hu. unfold update_run. repeat case_match; by intros [= <-].
  - revert Hu. unfold update_run. destruct (List.find _ (db_runs db)) as [old|] eqn:Ef;
      [|by intros [= <-] task_id due].
    destruct (List.existsb _ _); [done|]. intros [= <-]. eapply same_slots_update; [done|]. intros r Hr. cbn.
    split; [done|]. symmetry. apply Hd. exact Hr.
  - intros r. rewrite (update_run_row _ _ _ (tr_id run) Hu), String.eqb_refl.
    destruct (row_of _ _) as [old|]; [|done]. by intros [= <-].
Qed.
Lemma side_write_slots k (f : RunRow -> RunRow) db :
  (forall r, cr_task_id (f r) = cr_task_id r /\ cr_due_at (f r) = cr_due_at r) ->
  same_slots db (db <| db_runs := update_first (fun r => cr_id r =?s k) f (db_runs db) |>).
Proof. intros Hf. eapply same_slots_update; [done|]. intros r _. apply Hf. Qed.
Lemma execute_slots now outcome digest deleted deleted_shell has_entries task run db run' db' :
  due_kept (tr_due_at run) (tr_id run) db ->
  execute now outcome digest deleted deleted_shell has_entries task run db = inr (run', db') ->
  db_tasks db' = db_tasks db /\ same_slots db db'.
Proof.
  intros Hd. unfold execute. set (settled := settled_run now outcome digest run).
  assert (tr_id settled = tr_id run /\ tr_due_at settled = tr_due_at run) as [Hid Hdue].
  { unfold settled, settled_run. by destruct (settle_outcome outcome digest) as [[[[? ?] ?] ?] [?|]]. }
  destruct (update_run settled db) as [|db1] eqn:Eu; [done|].
  destruct (update_run_slots settled db db1 ltac:(by rewrite Hid, Hdue) Eu) as (Ht & Hs & _).
  set (db2 := match snd _ with Some text => _ | None => db1 end).
  assert (db_tasks db2 = db_tasks db /\ same_slots db db2) as [Ht2 Hs2].
  { unfold db2. destruct (snd _) as [text|]; [|done]. split; [done|].
    eapply same_slots_trans; [done|]. by apply side_write_slots. }
  clearbody db2 settled.
  assert (same_slots db (mark_run_conversation_deleted (tr_id settled) db2)) as Hm.
  { eapply same_slots_trans; [done|]. by apply side_write_slots. }
  destruct (deletes_run_conversation task && _ && deleted); [by cbn; intros [= <- <-]|].
  by destruct (negb (tr_session_deleted settled) && _ && _ && _ && _ && deleted_shell); intros [= <- <-].
Qed.

Lemma claim_schedule_granted fresh now task run h h' old : get_task (tk_id task) (h_db h) = Some old ->
  claim fresh now task Schedule h = (inr run, h') ->
  tr_task_id run = tk_id task /\ tr_due_at run = tk_next_due_at task
  /\ is_Some (get_task (tk_id task) (h_db h')).
Proof.
  intros Hget. unfold claim. destruct (insert_run_owned _ _ (h_db h)) as [|dbi] eqn:Ei; [done|]. cbn.
  destruct (update_task _ dbi) as [|dbu] eqn:Eu; [done|]. intros [= <- <-]. split_and!; [done..|]. cbn.
  assert (get_task (tk_id task) dbi = Some old) as Hgi.
  { revert Ei. unfold insert_run_owned. repeat case_match; intros [= <-]. exact Hget. }
  rewrite (update_task_get (claimed_task now task Schedule) dbi dbu old (tk_id task) Hgi Eu).
  cbn. by rewrite String.eqb_refl.
Qed.
Lemma bind_task_thread_get now task thread_id db db' old : get_task (tk_id task) db = Some old ->
  bind_task_thread now task thread_id db = inr db' ->
  exists task', get_task (tk_id task) db' = Some task' /\ tk_next_due_at task' = tk_next_due_at task
    /\ tk_pending_request_at task' = tk_pending_request_at task.
Proof.
  intros Hget Hb. unfold bind_task_thread in Hb. set (bound := _ <| tk_updated_at := now |>) in Hb.
  eexists. split.
  - rewrite (update_task_get bound db db' old (tk_id task) Hget Hb). cbn. by rewrite String.eqb_refl.
  - done.
Qed.
(** The first run of a task that keeps one conversation. *)
Lemma open_run_binds get_thread ids now task run db run' db' :
  tk_session_policy task = SpExisting -> tk_thread_id task = None ->
  open_run get_thread (inr ids) now task run db = (None, run', db') ->
  exists bound, bind_task_thread now task (fst ids) db = inr bound /\ update_run run' bound = inr db'
    /\ tr_id run' = tr_id run /\ tr_due_at run' = tr_due_at run.
Proof.
  intros Hpol Hth. unfold open_run, bound_thread. rewrite Hpol, Hth.
  destruct (bind_task_thread now task (fst ids) db) as [|bound] eqn:Eb; [done|]. destruct ids as [tid sid].
  destruct (update_run _ bound) as [|dbr] eqn:Er; [done|]. intros [= <- <-]. by exists bound.
Qed.

(** C38: the executor of a scheduled run that opens its task's conversation
    writes the task back as it was before the claim: once the run has settled
    the task is due at the slot that run fills, and every tick that reaches it
    ends with an error before any later task. *)
Theorem new_conversation_replays_the_slot fresh now now1 now2 task run h h1 due get_thread ids run1 db1
    outcome digest deleted deleted_shell has_entries run2 db2 :
  tk_session_policy task = SpExisting -> tk_thread_id task = None -> tk_next_due_at task = Some due ->
  is_Some (get_task (tk_id task) (h_db h)) ->
  claim fresh now task Schedule h = (inr run, h1) ->
  open_run get_thread (inr ids) now1 task run (h_db h1) = (None, run1, db1) ->
  execute now2 outcome digest deleted deleted_shell has_entries task run1 db1 = inr (run2, db2) ->
  (exists task', get_task (tk_id task) db2 = Some task' /\ tk_next_due_at task' = Some due
     /\ tk_pending_request_at task' = tk_pending_request_at task)
  /\ slot_filled (tk_id task) due db2
  /\ (forall h' task' fresh' now' envs cands, slot_filled (tk_id task) due (h_db h') ->
        has_running_run (tk_id task) (h_db h') = false -> tk_id task' = tk_id task ->
        tk_next_due_at task' = Some due ->
        exists e, claim_each ((fresh', now', false) :: envs) ((task', Schedule) :: cands) h' = (Some e, [], h')).
Proof.
  intros Hpol Hth Hdue [old0 Hget] Hcl Hop Hex.
  destruct (claim_schedule_granted _ _ _ _ _ _ _ Hget Hcl) as (Hrt & Hrd & [old1 Hget1]).
  destruct (claim_granted _ _ _ _ _ _ _ Hcl) as (_ & _ & Hrow1).
  destruct (open_run_binds _ _ _ _ _ _ _ _ Hpol Hth Hop) as (bound & Eb & Er & Hid & Hd1).
  pose proof (update_task_runs _ _ _ Eb) as Hbr.
  assert (due_kept (tr_due_at run1) (tr_id run1) bound) as Hk.
  { rewrite Hid, Hd1. intros r. rewrite (row_of_runs _ _ _ Hbr), Hrow1. by intros [= <-]. }
  destruct (update_run_slots _ _ _ Hk Er) as (Htasks & Hslots & Hkept).
  destruct (execute_slots _ _ _ _ _ _ _ _ _ _ _ Hkept Hex) as [Htasks2 Hslots2]. split_and!.
  - destruct (bind_task_thread_get _ _ _ _ _ _ Hget1 Eb) as (task' & Hget' & Hd' & Hp'). exists task'.
    rewrite Hd', Hdue. split; [|done]. unfold get_task in *. by rewrite Htasks2, Htasks.
  - apply Hslots2, Hslots. exists (run_values run (Some (h_owner h))).
    unfold row_of in Hrow1. apply List.find_some in Hrow1 as [Hin _]. rewrite Hbr. split; [done|].
    cbn. by rewrite Hrt, Hrd.
  - intros h' task' fresh' now' envs cands Hf Hr Hid' Hd'.
    apply (filled_slot_ends_tick task' due); [by rewrite Hid'|done|by rewrite Hid'].
Qed.
End Slot.

(** * Concrete runs *)
Definition daily (time : string) : json := JObj [("mode", JStr "daily"); ("time", JStr time)].
Definition demo_json : JsonText := {|
  json_to_string := fun j => match j with JObj [_; (_, JStr t)] => t | _ => "" end;
  json_from_str := fun s => Some (daily s)
|}.
Definition demo_text : DriverText := {| constraint_text := fun _ => "constraint failed" |}.
#[local] Existing Instances demo_libs demo_json demo_text.

(** Two tasks that keep one conversation each, due one second apart. *)
Definition first_task : Task :=
  (demo_task (daily "09:00")) <| tk_id := "tsk_a" |> <| tk_name := "a" |> <| tk_session_policy := SpExisting |>
    <| tk_next_due_at := Some 1000 |>.
Definition second_task : Task :=
  first_task <| tk_id := "tsk_b" |> <| tk_name := "b" |> <| tk_next_due_at := Some 2000 |>.
Definition demo_db : Db := mkDb [task_values first_task; task_values second_task] [] [].
Definition demo_host : Host := mkHost demo_db "41:x" ∅.
Definition claimed_demo := claim "1" 1500 first_task Schedule demo_host.
Definition demo_run : TaskRun := claimed_run "1" 1500 first_task Schedule.
Definition opened_demo :=
  open_run (fun _ => inr None) (inr ("thread", "session")) 1600 first_task demo_run (h_db (snd claimed_demo)).
Definition open_demo_run : TaskRun := Eval vm_compute in snd (fst opened_demo).
Definition open_demo_db : Db := Eval vm_compute in snd opened_demo.
Definition settled_demo :=
  execute 1700 (inr (mkRunAnswer "done" None)) None false false (Some true) first_task open_demo_run open_demo_db.
Definition settled_demo_run : TaskRun :=
  Eval vm_compute in match settled_demo with inr (run, _) => run | inl _ => demo_run end.
Definition settled_demo_db : Db :=
  Eval vm_compute in match settled_demo with inr (_, db) => db | inl _ => demo_db end.

Lemma one_run_at_a_time_witness :
  exists s, rtc step (mkSystem demo_host []) s /\ List.length (ts_execs s) = 1%nat
    /\ count (running_of "tsk_a") (db_runs (h_db (ts_host s))) <= 1.
Proof.
  assert (rtc step (mkSystem demo_host [])
    (mkSystem ((snd claimed_demo) <| h_live ::= fun live => {[ tr_id demo_run ]} ∪ live |>)
       ([] ++ [mkExecutor first_task demo_run Claimed]))) as Hs.
  { eapply rtc_l; [|done]. apply (step_claim "1" 1500 first_task Schedule); vm_compute; reflexivity. }
  eexists. split; [exact Hs|]. split; [reflexivity|].
  apply (proj1 (one_run_at_a_time (mkSystem demo_host []) _ (conj eq_refl eq_refl) Hs)).
Defined.

Lemma stored_rows_read_back_witness :
  exists db, insert_task first_task (mkDb [] [] []) = inr db /\ get_task "tsk_a" db = Some first_task.
Proof.
  exists (mkDb [task_values first_task] [] []). split; [vm_compute; reflexivity|].
  rewrite (proj1 stored_rows_read_back first_task (mkDb [] [] []) (mkDb [task_values first_task] [] [])
             ltac:(vm_compute; reflexivity) "tsk_a").
  reflexivity.
Defined.

Lemma execute_settles_witness :
  get_run (tr_id open_demo_run) settled_demo_db = Some settled_demo_run
  /\ tr_status settled_demo_run = RsCompleted.
Proof.
  destruct (execute_settles 1700 (inr (mkRunAnswer "done" None)) None false false (Some true) first_task
              open_demo_run open_demo_run open_demo_db settled_demo_run settled_demo_db) as (Hg & Ha & _).
  - vm_compute. reflexivity.
  - reflexivity.
  - vm_compute. reflexivity.
  - split; [exact Hg|]. apply (sa_completed _ _ _ Ha). exists (mkRunAnswer "done" None).
    split; [done|]. vm_compute. discriminate.
Defined.

Lemma new_conversation_replays_the_slot_witness :
  slot_filled (tk_id first_task) 1000 settled_demo_db
  /\ fst (tick 9000 [("2", 9000, false); ("3", 9000, false)] (mkHost settled_demo_db "41:x" ∅))
     = (Some (DriverError UniqueRunsSlot), []).
Proof.
  split; [|vm_compute; reflexivity].
  apply (new_conversation_replays_the_slot "1" 1500 1600 1700 first_task demo_run demo_host (snd claimed_demo)
           1000 (fun _ => inr None) ("thread", "session") open_demo_run open_demo_db
           (inr (mkRunAnswer "done" None)) None false false (Some true) settled_demo_run settled_demo_db).
  1-3: reflexivity.
  1: vm_compute; eauto.
  all: vm_compute; reflexivity.
Defined.
