(* ===== verification/TaskFormProps.v ===== *)
(** Properties of the task form and the phone's commands: the history of a
    task's prompt is complete and any version can be put back in force; an edit
    refused for its name freezes the prompt; the phone's edit and the desktop's
    are the same edit, except that the phone's revives a deleted task. *)
From S2P Require Import Prelude TaskTypes TaskScheduleProps TaskStore TaskTick TaskService TaskRemote TaskLedgerProps TaskSystem TaskSystemClaims.

(** * The history of a prompt *)
Definition revs_of (task_id : string) (db : Db) : list PromptRevision :=
  List.filter (fun r => rv_task_id r =?s task_id) (db_revisions db).
(** Versions are distinct, up to the task's own; the row of that version carries
    the prompt in force, and no other row is active. *)
Record history_ok (task : Task) (db : Db) : Prop := {
  ho_upto : forall r, In r (revs_of (tk_id task) db) -> rv_version r <= tk_prompt_version task;
  ho_current : forall r, In r (revs_of (tk_id task) db) -> rv_version r = tk_prompt_version task ->
    rv_prompt r = tk_prompt task;
  ho_active : forall r, In r (revs_of (tk_id task) db) -> rv_status r = REVISION_STATUS_ACTIVE ->
    rv_version r = tk_prompt_version task;
  ho_real : forall r, In r (revs_of (tk_id task) db) -> rv_status r <> LEGACY_PROPOSED_STATUS;
  ho_distinct : NoDup (rv_version <$> revs_of (tk_id task) db)
}.
Definition version_fits (task : Task) : Prop := 0 <= tk_prompt_version task < i64_max.

Section History.
Context `{TaskLibs} `{JsonText} `{DriverText}.

Lemma i64_add_one v : 0 <= v < i64_max -> i64_add v 1 = v + 1.
Proof. unfold i64_add, i64_wrap, i64_max. intros. rewrite Z.mod_small; lia. Qed.

Lemma in_list_revisions r task_id db : In r (list_revisions task_id db) <-> In r (revs_of task_id db).
Proof. apply in_sort_by_key. Qed.
Lemma in_revs_of r task_id db : In r (revs_of task_id db) <-> In r (db_revisions db) /\ rv_task_id r = task_id.
Proof. unfold revs_of. by rewrite filter_In, String.eqb_eq. Qed.
Lemma recorded_iff task db : history_ok task db ->
  is_recorded task (list_revisions (tk_id task) db) = true
  <-> exists r, In r (revs_of (tk_id task) db) /\ rv_version r = tk_prompt_version task.
Proof.
  intros Hok. unfold is_recorded. rewrite existsb_exists. split.
  - intros (r & Hin & Hr). apply in_list_revisions in Hin. bool_prop. eauto.
  - intros (r & Hin & Hv). exists r. split; [by apply in_list_revisions|].
    rewrite Hv, Z.eqb_refl. cbn. apply negb_true_iff, String.eqb_neq. by apply (ho_real _ _ Hok).
Qed.

Lemma demote_fields rev r : rv_id (demote rev r) = rv_id r /\ rv_task_id (demote rev r) = rv_task_id r
  /\ rv_version (demote rev r) = rv_version r /\ rv_prompt (demote rev r) = rv_prompt r
  /\ (rv_status (demote rev r) = rv_status r \/ rv_status (demote rev r) = REVISION_STATUS_SUPERSEDED).
Proof. unfold demote. destruct (_ && _ && _); split_and!; cbn; auto. Qed.
Lemma filter_demote rev task_id l :
  List.filter (fun r => rv_task_id r =?s task_id) (List.map (demote rev) l)
  = List.map (demote rev) (List.filter (fun r => rv_task_id r =?s task_id) l).
Proof.
  induction l as [|r l IH]; [done|]. cbn. destruct (demote_fields rev r) as (_ & -> & _).
  destruct (_ =?s _); cbn; by rewrite IH.
Qed.

(** What an accepted change of a prompt adds to the history. *)
Definition replaced_row (fresh : string * string) (task : Task) (now : i64) (history : list PromptRevision)
  : list PromptRevision :=
  if is_recorded task history then []
  else [mkRevision (new_revision_id (fst fresh)) (tk_id task) (tk_prompt_version task)
          (tk_prompt task) REVISION_SOURCE_SUPERSEDED REVISION_STATUS_SUPERSEDED None None None now].
Definition active_row (fresh : string * string) (task : Task) (new_prompt source : string) (reason : option string)
    (now : i64) : PromptRevision :=
  mkRevision (new_revision_id (snd fresh)) (tk_id task) (i64_add (tk_prompt_version task) 1)
    new_prompt source REVISION_STATUS_ACTIVE reason None None now.
Lemma prompt_change_rows fresh task history new_prompt source reason now : new_prompt <> tk_prompt task ->
  prompt_change_revisions fresh task history new_prompt source reason now
  = replaced_row fresh task now history ++ [active_row fresh task new_prompt source reason now].
Proof.
  intros Hne. unfold prompt_change_revisions. rewrite (proj2 (String.eqb_neq _ _) Hne).
  unfold replaced_row. by destruct (is_recorded task history).
Qed.

Lemma insert_revision_rows rev db db' : insert_revision rev db = inr db' ->
  db_tasks db' = db_tasks db /\ db_runs db' = db_runs db
  /\ db_revisions db' = (if rv_status rev =?s REVISION_STATUS_ACTIVE
                         then List.map (demote rev) (db_revisions db ++ [rev]) else db_revisions db ++ [rev]).
Proof. unfold insert_revision. repeat case_match; intros [= <-]; split_and!; done. Qed.
Lemma change_inserts fresh task new_prompt source reason now db db' : new_prompt <> tk_prompt task ->
  let history := list_revisions (tk_id task) db in
  let row := active_row fresh task new_prompt source reason now in
  insert_revisions (prompt_change_revisions fresh task history new_prompt source reason now) db = (None, db') ->
  db_tasks db' = db_tasks db
  /\ db_revisions db' = List.map (demote row) (db_revisions db ++ replaced_row fresh task now history ++ [row]).
Proof.
  intros Hne history row. rewrite prompt_change_rows by done. fold row. unfold replaced_row.
  destruct (is_recorded task history); cbn [app insert_revisions].
  - destruct (insert_revision row db) as [|db1] eqn:E; [done|]. intros [= <-].
    apply insert_revision_rows in E as (Ht & _ & Hr). by rewrite Ht, Hr.
  - set (old := mkRevision _ _ _ _ _ _ _ _ _ _). destruct (insert_revision old db) as [|db1] eqn:E1; [done|].
    destruct (insert_revision row db1) as [|db2] eqn:E2; [done|]. intros [= <-].
    apply insert_revision_rows in E1 as (Ht1 & _ & Hr1). apply insert_revision_rows in E2 as (Ht2 & _ & Hr2).
    cbn [old rv_status] in Hr1. change (REVISION_STATUS_SUPERSEDED =?s REVISION_STATUS_ACTIVE) with false in Hr1.
    by rewrite Ht2, Ht1, Hr2, Hr1, <- app_assoc.
Qed.
Lemma change_revs fresh task new_prompt source reason now db db' : new_prompt <> tk_prompt task ->
  let history := list_revisions (tk_id task) db in
  let row := active_row fresh task new_prompt source reason now in
  insert_revisions (prompt_change_revisions fresh task history new_prompt source reason now) db = (None, db') ->
  revs_of (tk_id task) db'
  = List.map (demote row) (revs_of (tk_id task) db ++ replaced_row fresh task now history ++ [row]).
Proof.
  intros Hne history row Hi. unfold revs_of. rewrite (proj2 (change_inserts _ _ _ _ _ _ _ _ Hne Hi)), filter_demote.
  f_equal. rewrite !List.filter_app. f_equal. fold history row. unfold replaced_row.
  by destruct (is_recorded task history); cbn; rewrite ?String.eqb_refl.
Qed.

(** A task whose prompt was changed, and its history. *)
Record recorded_change (task task' : Task) (db db' : Db) : Prop := {
  rc_version : tk_prompt_version task' = tk_prompt_version task + 1;
  rc_history : history_ok task' db';
  rc_replaced : exists r, In r (revs_of (tk_id task) db') /\ rv_version r = tk_prompt_version task
                          /\ rv_prompt r = tk_prompt task;
  rc_in_force : exists r, In r (revs_of (tk_id task) db') /\ rv_version r = tk_prompt_version task'
                          /\ rv_prompt r = tk_prompt task' /\ rv_status r = REVISION_STATUS_ACTIVE;
  rc_kept : forall r, In r (revs_of (tk_id task) db) -> exists r', In r' (revs_of (tk_id task) db')
              /\ rv_id r' = rv_id r /\ rv_version r' = rv_version r /\ rv_prompt r' = rv_prompt r
}.

Lemma in_replaced_row r fresh task now history : In r (replaced_row fresh task now history) ->
  rv_version r = tk_prompt_version task /\ rv_prompt r = tk_prompt task /\ rv_status r = REVISION_STATUS_SUPERSEDED
  /\ is_recorded task history = false.
Proof. unfold replaced_row. destruct (is_recorded task history); [done|]. by intros [<-|[]]. Qed.
Lemma demote_older rev r : rv_task_id r = rv_task_id rev -> rv_version r < rv_version rev ->
  rv_status (demote rev r) <> REVISION_STATUS_ACTIVE.
Proof.
  intros Ht Hv. unfold demote. rewrite Ht, String.eqb_refl, (proj2 (Z.ltb_lt _ _) Hv). cbn.
  destruct (rv_status r =?s "active") eqn:E; cbn; [done|]. by apply String.eqb_neq in E.
Qed.

(** The versions of the new history. *)
Lemma change_versions fresh task new_prompt source reason now db : history_ok task db -> version_fits task ->
  let history := list_revisions (tk_id task) db in
  let row := active_row fresh task new_prompt source reason now in
  rv_version row = tk_prompt_version task + 1
  /\ (forall r, In r (revs_of (tk_id task) db ++ replaced_row fresh task now history) ->
       rv_task_id r = tk_id task /\ rv_version r <= tk_prompt_version task /\ rv_status r <> LEGACY_PROPOSED_STATUS
       /\ (rv_version r = tk_prompt_version task -> rv_prompt r = tk_prompt task))
  /\ NoDup (rv_version <$> (revs_of (tk_id task) db ++ replaced_row fresh task now history ++ [row]))
  /\ (exists r, In r (revs_of (tk_id task) db ++ replaced_row fresh task now history)
       /\ rv_version r = tk_prompt_version task).
Proof.
  intros Hok Hfit history row. assert (rv_version row = tk_prompt_version task + 1) as Hv by (by apply i64_add_one).
  assert (forall r, In r (revs_of (tk_id task) db ++ replaced_row fresh task now history) ->
       rv_task_id r = tk_id task /\ rv_version r <= tk_prompt_version task /\ rv_status r <> LEGACY_PROPOSED_STATUS
       /\ (rv_version r = tk_prompt_version task -> rv_prompt r = tk_prompt task)) as Hall.
  { intros r [Hin|Hin]%in_app_iff.
    - split_and!; [by apply in_revs_of in Hin as [_ ?]|by apply (ho_upto _ _ Hok)|by apply (ho_real _ _ Hok)|
                  by apply (ho_current _ _ Hok)].
    - pose proof (in_replaced_row _ _ _ _ _ Hin) as (Hv' & Hp & -> & _). rewrite Hv', Hp. split_and!; [|lia|done..].
      revert Hin. unfold replaced_row. destruct (is_recorded task history); [done|]. by intros [<-|[]]. }
  split_and!; [done|done| |].
  - rewrite app_assoc, fmap_app. apply NoDup_app. split_and!.
    + rewrite fmap_app. apply NoDup_app. split_and!; [apply Hok| |].
      * intros v (r & -> & Hin)%list_elem_of_fmap (r' & Hvv & Hin')%list_elem_of_fmap.
        apply list_elem_of_In in Hin, Hin'. apply in_replaced_row in Hin' as (Hv' & _ & _ & Hnot).
        apply not_true_iff_false in Hnot. apply Hnot, recorded_iff; [done|]. exists r. split; [done|congruence].
      * unfold replaced_row. destruct (is_recorded task history); [apply NoDup_nil_2|apply NoDup_singleton].
    + intros v (r & -> & Hin)%list_elem_of_fmap Hv'. apply list_elem_of_singleton in Hv'.
      apply list_elem_of_In in Hin. destruct (Hall r Hin) as (_ & Hle & _). lia.
    + apply NoDup_singleton.
  - destruct (is_recorded task history) eqn:E.
    + apply recorded_iff in E as (r & Hin & Hr); [|done]. exists r. split; [|done]. apply in_app_iff. by left.
    + eexists. split; [apply in_app_iff; right; unfold replaced_row; rewrite E; by left|]. done.
Qed.

Lemma change_recorded fresh task new_prompt source reason now db db1 db' task' :
  history_ok task db -> version_fits task -> new_prompt <> tk_prompt task ->
  insert_revisions (prompt_change_revisions fresh task (list_revisions (tk_id task) db) new_prompt source reason now) db
    = (None, db1) -> db_revisions db' = db_revisions db1 ->
  tk_id task' = tk_id task -> tk_prompt task' = new_prompt ->
  tk_prompt_version task' = i64_add (tk_prompt_version task) 1 ->
  recorded_change task task' db db'.
Proof.
  intros Hok Hfit Hne Hi Hsame Hid Hp Hver. rewrite i64_add_one in Hver by done.
  pose proof (change_revs _ _ _ _ _ _ _ _ Hne Hi) as Hrevs. cbn zeta in Hrevs.
  assert (revs_of (tk_id task) db' = revs_of (tk_id task) db1) as Hdb by (unfold revs_of; by rewrite Hsame).
  rewrite <- Hdb in Hrevs. clear Hdb.
  destruct (change_versions fresh task new_prompt source reason now db Hok Hfit) as (Hrow & Hall & Hnd & Hex).
  set (row := active_row fresh task new_prompt source reason now) in *.
  set (old := revs_of (tk_id task) db ++ replaced_row fresh task now (list_revisions (tk_id task) db)) in *.
  assert (Hin' : forall r', In r' (revs_of (tk_id task) db') <->
    r' = demote row row \/ exists r, In r old /\ r' = demote row r).
  { intros r'. rewrite Hrevs, app_assoc. fold old. rewrite in_map_iff. setoid_rewrite in_app_iff. split.
    - intros (r & <- & [Hin|[<-|[]]]); eauto.
    - intros [->|(r & Hin & ->)]; [exists row|exists r]; split; auto; right; by left. }
  assert (Hself : demote row row = row).
  { unfold demote. rewrite Z.ltb_irrefl, andb_false_r. done. }
  rewrite Hself in Hin'. split.
  - done.
  - split; rewrite Hid.
    + intros r' [->|(r & Hin & ->)]%Hin'; [lia|]. destruct (demote_fields row r) as (_ & _ & -> & _).
      specialize (Hall r Hin). lia.
    + intros r' [->|(r & Hin & ->)]%Hin'; [done|]. destruct (demote_fields row r) as (_ & _ & -> & _).
      specialize (Hall r Hin). lia.
    + intros r' [->|(r & Hin & ->)]%Hin'; [congruence|]. intros Hact. exfalso. revert Hact.
      specialize (Hall r Hin). apply demote_older; [apply Hall|lia].
    + intros r' [->|(r & Hin & ->)]%Hin'; [done|]. destruct (demote_fields row r) as (_ & _ & _ & _ & [->| ->]); [|done].
      by apply Hall.
    + rewrite Hrevs, <- list_fmap_compose. erewrite list_fmap_ext; [exact Hnd|]. intros i r _. cbn.
      by destruct (demote_fields row r) as (_ & _ & -> & _).
  - destruct Hex as (r & Hin & Hv). exists (demote row r). destruct (demote_fields row r) as (_ & _ & -> & -> & _).
    split_and!; [apply Hin'; eauto|done|]. by apply Hall.
  - exists row. split_and!; [apply Hin'; by left|congruence|done|done].
  - intros r Hin. exists (demote row r). destruct (demote_fields row r) as (-> & _ & -> & -> & _).
    split_and!; [|done..]. apply Hin'. right. exists r. split; [apply in_app_iff; by left|done].
Qed.

Lemma get_task_id id db task : get_task id db = Some task -> tk_id task = id.
Proof.
  unfold get_task. destruct (List.find _ _) as [r|] eqn:Ef; [|done]. intros [= <-].
  by apply (find_at_key ct_id) in Ef as [_ <-].
Qed.
Lemma update_task_revisions task db db' : update_task task db = inr db' -> db_revisions db' = db_revisions db.
Proof. unfold update_task. repeat case_match; intros [= <-]; done. Qed.
Lemma last_change fresh task history new_prompt source reason now : new_prompt <> tk_prompt task ->
  last (prompt_change_revisions fresh task history new_prompt source reason now)
  = Some (active_row fresh task new_prompt source reason now).
Proof. intros Hne. rewrite prompt_change_rows by done. apply last_snoc. Qed.

(** An accepted edit of a prompt, from the form or by putting an earlier
    version back in force, raises the version by one and keeps the history
    complete: distinct versions, one active row, which carries the prompt in
    force; the replaced prompt and every earlier one can still be read. *)
Theorem prompt_edits_are_recorded id db task : get_task id db = Some task -> history_ok task db -> version_fits task ->
  (forall fresh now now' now'' input view db', in_prompt input <> tk_prompt task ->
     svc_update_task fresh now now' now'' id input db = (inr view, db') ->
     exists task', get_task id db' = Some task' /\ tk_prompt task' = in_prompt input
                   /\ recorded_change task task' db db')
  /\ (forall fresh now now' revision_id task1 db', accept_revision fresh now now' id revision_id db = (inr task1, db') ->
       exists r, In r (revs_of id db) /\ rv_id r = revision_id
         /\ (rv_prompt r = tk_prompt task /\ db' = db
             \/ exists task', get_task id db' = Some task' /\ tk_prompt task' = rv_prompt r
                              /\ recorded_change task task' db db')).
Proof.
  intros Hget Hok Hfit. pose proof (get_task_id _ _ _ Hget) as Hid. split.
  - intros fresh now now' now'' input view db' Hne. unfold svc_update_task.
    rewrite Hget, (proj2 (String.eqb_neq _ _) Hne). cbn [negb].
    destruct (edited_timezone input task) as [|tz]; [done|]. rewrite last_change by done.
    destruct (insert_revisions _ db) as [[e|] db1] eqn:Ei; [done|]. set (task' := _ <| tk_prompt_version := _ |>).
    destruct (update_task task' db1) as [|db2] eqn:Eu; [done|]. intros [= _ <-].
    pose proof (change_inserts _ _ _ _ _ _ _ _ Hne Ei) as [Ht _].
    assert (get_task (tk_id task') db1 = Some task) as Hget1.
    { unfold get_task. rewrite Ht. unfold get_task in Hget. rewrite <- Hid in Hget. exact Hget. }
    eexists. split; [rewrite (update_task_get _ _ _ task id Hget1 Eu); cbn; rewrite Hid, String.eqb_refl; reflexivity|].
    split; [done|]. eapply change_recorded; [exact Hok|done|exact Hne|exact Ei| |done|done|done].
    by eapply update_task_revisions.
  - intros fresh now now' revision_id task1 db'. unfold accept_revision. rewrite Hget.
    destruct (List.find _ (list_revisions id db)) as [r|] eqn:Ef; [|done].
    apply List.find_some in Ef as [Hin Hr]. apply in_list_revisions in Hin. bool_prop. rewrite <- Hid in Hin.
    destruct (decide (rv_prompt r = tk_prompt task)) as [He|Hne].
    { unfold prompt_change_revisions at 1. rewrite He, String.eqb_refl. cbn. intros [= <- <-]. exists r.
      rewrite <- Hid. split_and!; [done..|]. by left. }
    rewrite <- Hid. rewrite last_change by done.
    destruct (insert_revisions _ db) as [[e|] db1] eqn:Ei; [done|]. set (task' := _ <| tk_updated_at := _ |>).
    destruct (update_task task' db1) as [|db2] eqn:Eu; [done|]. intros [= <- <-]. exists r.
    split_and!; [done..|]. right.
    pose proof (change_inserts _ _ _ _ _ _ _ _ Hne Ei) as [Ht _].
    assert (get_task (tk_id task') db1 = Some task) as Hget1.
    { unfold get_task. rewrite Ht. unfold get_task in Hget. rewrite <- Hid in Hget. exact Hget. }
    eexists. split; [rewrite (update_task_get _ _ _ task (tk_id task) Hget1 Eu); cbn; rewrite String.eqb_refl; reflexivity|].
    split; [done|]. eapply change_recorded; [exact Hok|done|exact Hne|exact Ei| |done|done|done].
    by eapply update_task_revisions.
Qed.

(** ** A refused edit *)
Lemma insert_revision_accepted rev db : task_exists (rv_task_id rev) db = true ->
  rv_id rev ∉ (rv_id <$> db_revisions db) ->
  (forall r, In r (revs_of (rv_task_id rev) db) -> rv_version r <> rv_version rev) ->
  exists db', insert_revision rev db = inr db'.
Proof.
  intros Ht Hid Hv. unfold insert_revision. rewrite Ht.
  assert (List.existsb (fun r => rv_id r =?s rv_id rev) (db_revisions db) = false) as ->.
  { apply existsb_false. intros r Hin. apply String.eqb_neq. intros E. apply Hid. rewrite <- E.
    apply list_elem_of_fmap_2. by apply list_elem_of_In. }
  assert (List.existsb (fun r => (rv_task_id r =?s rv_task_id rev) && (rv_version r =? rv_version rev))
            (db_revisions db) = false) as ->; [|by eexists].
  apply existsb_false. intros r Hin. apply not_true_iff_false. intros [Et%String.eqb_eq Ev%Z.eqb_eq]%andb_true_iff.
  by apply (Hv r); [apply in_revs_of|].
Qed.
Lemma insert_revision_refused rev db r : In r (db_revisions db) -> rv_task_id r = rv_task_id rev ->
  rv_version r = rv_version rev -> exists e, insert_revision rev db = inl e.
Proof.
  intros Hin Ht Hv. unfold insert_revision. destruct (List.existsb _ (db_revisions db)); [eauto|].
  assert (List.existsb (fun r => (rv_task_id r =?s rv_task_id rev) && (rv_version r =? rv_version rev))
            (db_revisions db) = true) as ->; [|eauto].
  apply existsb_exists. exists r. split; [done|]. by rewrite Ht, Hv, String.eqb_refl, Z.eqb_refl.
Qed.
Lemma task_exists_get id db task : get_task id db = Some task -> task_exists id db = true.
Proof.
  unfold get_task, task_exists. destruct (List.find _ _) as [r|] eqn:Ef; [|done]. intros _.
  apply List.find_some in Ef as [Hin Hr]. apply existsb_exists. eauto.
Qed.

(** The rows of a change are accepted when their ids are new. *)
Lemma change_accepted fresh task new_prompt source reason now db :
  get_task (tk_id task) db = Some task -> history_ok task db -> version_fits task -> new_prompt <> tk_prompt task ->
  NoDup (new_revision_id (fst fresh) :: new_revision_id (snd fresh) :: (rv_id <$> db_revisions db)) ->
  exists db', insert_revisions (prompt_change_revisions fresh task (list_revisions (tk_id task) db)
                                  new_prompt source reason now) db = (None, db').
Proof.
  intros Hget Hok Hfit Hne [Hf1 [Hf2 _]%NoDup_cons]%NoDup_cons. rewrite prompt_change_rows by done.
  destruct (change_versions fresh task new_prompt source reason now db Hok Hfit) as (Hrow & Hall & _ & _).
  pose proof (task_exists_get _ _ _ Hget) as Hex.
  assert (forall r, In r (revs_of (tk_id task) db) -> rv_version r <= tk_prompt_version task) as Hle by apply Hok.
  set (row := active_row fresh task new_prompt source reason now) in *.
  unfold replaced_row in *. destruct (is_recorded task (list_revisions (tk_id task) db)) eqn:Er; cbn [app insert_revisions].
  - destruct (insert_revision_accepted row db) as [db1 ->]; [done|done| |eauto].
    intros r Hin%Hle. lia.
  - set (old := mkRevision _ _ _ _ _ _ _ _ _ _) in *.
    destruct (insert_revision_accepted old db) as [db1 E1]; [done|by intros Hin; apply Hf1; right| |].
    { intros r Hin Hv. apply not_true_iff_false in Er. apply Er, recorded_iff; eauto. }
    rewrite E1. destruct (insert_revision_rows _ _ _ E1) as (Ht1 & _ & Hr1).
    change (rv_status old =?s REVISION_STATUS_ACTIVE) with false in Hr1. cbn in Hr1.
    destruct (insert_revision_accepted row db1) as [db2 ->]; [| | |eauto].
    + unfold task_exists. by rewrite Ht1.
    + rewrite Hr1, fmap_app. intros [Hin|E%list_elem_of_singleton]%elem_of_app; [by apply Hf2|].
      apply Hf1. change (new_revision_id (snd fresh) = new_revision_id (fst fresh)) in E. rewrite E. by left.
    + intros r. unfold revs_of. rewrite Hr1, List.filter_app, in_app_iff. intros [Hin%Hle|Hin]; [lia|].
      apply filter_In in Hin as [[<-|[]] _]. cbn [old rv_version]. lia.
Qed.

Lemma update_task_name_taken task db old : get_task (tk_id task) db = Some old -> tk_deleted_at task = None ->
  List.existsb (fun r => (ct_name r =?s tk_name task) && is_live_task r)
    (List.filter (fun r => negb (ct_id r =?s tk_id task)) (db_tasks db)) = true ->
  exists existing_id, update_task task db = inl (TaskNameTaken (tk_name task) existing_id).
Proof.
  intros Hget Hdel Hname. unfold update_task, get_task in *. destruct (List.find _ (db_tasks db)) as [r|]; [|done].
  unfold name_taken, is_live_task at 1. cbn. rewrite Hdel, bool_decide_eq_true_2, Hname by done. cbn. eauto.
Qed.

(** An edit of a live task that changes its prompt and asks for a name
    another live task holds is refused after the new version has entered the
    history: the task keeps its old prompt, the history says the new one is in
    force, and from then on every edit of the prompt is refused. *)
Theorem refused_edit_freezes_the_prompt id db task input timezone fresh now now' now'' :
  get_task id db = Some task -> history_ok task db -> version_fits task -> tk_deleted_at task = None ->
  in_prompt input <> tk_prompt task -> edited_timezone input task = inr timezone ->
  List.existsb (fun r => (ct_name r =?s in_name input) && is_live_task r)
    (List.filter (fun r => negb (ct_id r =?s id)) (db_tasks db)) = true ->
  NoDup (new_revision_id (fst fresh) :: new_revision_id (snd fresh) :: (rv_id <$> db_revisions db)) ->
  exists existing_id db',
    svc_update_task fresh now now' now'' id input db = (inl (fmt_name_taken (in_name input) existing_id), db')
    /\ get_task id db' = Some task
    /\ (exists r, In r (revs_of id db') /\ rv_status r = REVISION_STATUS_ACTIVE /\ rv_prompt r = in_prompt input)
    /\ (forall fresh now now' now'' input', in_prompt input' <> tk_prompt task ->
          exists message, svc_update_task fresh now now' now'' id input' db' = (inl message, db')).
Proof.
  intros Hget Hok Hfit Hdel Hne Htz Hname Hnd. pose proof (get_task_id _ _ _ Hget) as Hid. subst id.
  destruct (change_accepted fresh task (in_prompt input) "user" None now db Hget Hok Hfit Hne Hnd) as [db' Ei].
  pose proof (change_inserts _ _ _ _ _ _ _ _ Hne Ei) as [Ht _].
  assert (get_task (tk_id task) db' = Some task) as Hget' by (unfold get_task in *; by rewrite Ht).
  destruct (change_recorded fresh task (in_prompt input) "user" None now db db' db'
              (task <| tk_prompt := in_prompt input |> <| tk_prompt_version := i64_add (tk_prompt_version task) 1 |>)
              Hok Hfit Hne Ei eq_refl ltac:(done) ltac:(done) ltac:(done)) as [_ Hok' (old & Hold & Hov & _) (r & Hr & Hrv & Hrp & Hra) _].
  cbn in Hrv, Hrp. 
  unfold svc_update_task at 1. rewrite Hget, (proj2 (String.eqb_neq _ _) Hne). cbn [negb].
  rewrite Htz, Ei, last_change by done. set (task' := _ <| tk_prompt_version := _ |>).
  destruct (update_task_name_taken task' db' task Hget' Hdel) as [existing_id ->]; [by rewrite Ht|].
  exists existing_id, db'. split_and!; [done|done|by exists r|].
  intros f n n' n'' input' Hne'. unfold svc_update_task. rewrite Hget', (proj2 (String.eqb_neq _ _) Hne'). cbn [negb].
  destruct (edited_timezone input' task) as [msg|tz]; [by exists msg|]. rewrite prompt_change_rows by done.
  assert (is_recorded task (list_revisions (tk_id task) db') = true) as Hrec.
  { unfold is_recorded. apply existsb_exists. exists old. split; [by apply in_list_revisions|].
    rewrite Hov, Z.eqb_refl. cbn. apply negb_true_iff, String.eqb_neq. by apply (ho_real _ _ Hok'). }
  unfold replaced_row. rewrite Hrec. cbn [app insert_revisions].
  destruct (insert_revision_refused (active_row f task (in_prompt input') "user" None n) db' r) as [e ->];
    [by apply in_revs_of in Hr as [? _]|by apply in_revs_of in Hr as [_ ?]|done|]. eauto.
Qed.
End History.

(** * The phone and the desktop *)
Section Phone.
Context `{TaskLibs} `{JsonText} `{DriverText}.

(** A form that states every field, as the desktop and as the phone send it. *)
Record Form := mkForm {
  fm_name : string; fm_prompt : string; fm_cwd : string;
  fm_model_id : option string; fm_thinking_level : option string;
  fm_timezone : string; fm_session_policy : string; fm_conversation_mode : string;
  fm_session_retention : string; fm_trigger_kind : string; fm_trigger : json; fm_enabled : bool
}.
Definition form_input (f : Form) : TaskInput :=
  mkTaskInput (fm_name f) (fm_prompt f) (fm_cwd f) (fm_model_id f) (fm_thinking_level f) (Some (fm_timezone f))
    (Some (fm_session_policy f)) (Some (fm_conversation_mode f)) (Some (fm_session_retention f))
    (Some (fm_trigger_kind f)) (Some (fm_trigger f)) (Some (fm_enabled f)).
Definition form_payload (f : Form) : json :=
  JObj [("name", JStr (fm_name f)); ("prompt", JStr (fm_prompt f)); ("cwd", JStr (fm_cwd f));
        ("modelId", json_str (fm_model_id f)); ("thinkingLevel", json_str (fm_thinking_level f));
        ("timezone", JStr (fm_timezone f)); ("sessionPolicy", JStr (fm_session_policy f));
        ("conversationMode", JStr (fm_conversation_mode f));
        ("sessionRetention", JStr (fm_session_retention f)); ("triggerKind", JStr (fm_trigger_kind f));
        ("trigger", fm_trigger f); ("enabled", JBool (fm_enabled f))].

(** What the desktop writes for a form, the revisions apart. *)
Definition form_task (now : i64) (f : Form) (timezone : option string) (task : Task) : Task :=
  let t := (edited_task (form_input f) task) <| tk_timezone := timezone |> <| tk_updated_at := now |> in
  t <| tk_next_due_at := if bool_decide (tk_trigger_kind t = TrSchedule)
                         then next_due t (i64_sub now 1) else None |>.
Lemma form_payload_task now f task : tk_deleted_at task = None ->
  task_from_payload "" now (form_payload f) (Some task) =
    match edited_timezone (form_input f) task with
    | inl e => inl e
    | inr timezone =>
        inr (if negb (tk_prompt task =?s fm_prompt f)
             then (form_task now f timezone task) <| tk_prompt_version := i64_add (tk_prompt_version task) 1 |>
             else form_task now f timezone task)
    end.
Proof.
  intros Hdel. destruct f as [nm pr cwd [model|] [thinking|] tz policy mode retention kind trigger enabled];
    destruct task; cbn in Hdel; subst;
    unfold task_from_payload, required_field, edited_timezone, parse_timezone_field; cbn -[resolve_zone];
    (destruct (resolve_zone (Some tz)) as [e|name]; [done|]);
    unfold payload_task, form_task, edited_task, payload_policy; cbn;
    destruct (read_trigger_kind (Some kind)), (_ =?s pr); reflexivity.
Qed.

(** What a client is told: the view of the task, or why not. *)
Definition phone_view (r : (string + Task) * Db) : (string + TaskView) * Db :=
  match r with
  | (inl e, db) => (inl e, db)
  | (inr task, db) => (inr (task_view task db), db)
  end.

Lemma insert_revisions_tasks rows : forall db e db', insert_revisions rows db = (e, db') -> db_tasks db' = db_tasks db.
Proof.
  induction rows as [|row rows IH]; intros db e db'; cbn [insert_revisions]; [by intros [= _ <-]|].
  destruct (insert_revision row db) as [|db1] eqn:E; [by intros [= _ <-]|]. intros Hi.
  rewrite (IH _ _ _ Hi). by apply insert_revision_rows in E as [-> _].
Qed.
Lemma task_from_payload_fields fresh now payload base made :
  task_from_payload fresh now payload (Some base) = inr made -> tk_id made = tk_id base /\ tk_deleted_at made = None.
Proof.
  unfold task_from_payload. repeat (case_match; [done|]). intros [= <-].
  destruct (bool_decide _), (negb _); done.
Qed.

(** A form that states every field is the same edit of a live task from
    the phone as from the desktop: the same rows are written or the same error
    is given, and the same task is shown. *)
Theorem phone_edit_is_desktop_edit fresh now now' id f db :
  (forall task, get_task id db = Some task -> tk_deleted_at task = None) ->
  phone_view (remote_update_task fresh now now' id (form_payload f) db)
  = svc_update_task fresh now now' now' id (form_input f) db.
Proof.
  intros Hlive. unfold remote_update_task, svc_update_task.
  destruct (get_task id db) as [task|] eqn:Hget; [|done]. specialize (Hlive task eq_refl).
  rewrite form_payload_task by done.
  change (or_default (str_field "prompt" (form_payload f)) (tk_prompt task)) with (fm_prompt f).
  change (in_prompt (form_input f)) with (fm_prompt f). rewrite (String.eqb_sym (tk_prompt task)).
  destruct (edited_timezone (form_input f) task) as [e|timezone]; [done|]. fold (form_task now' f timezone task).
  destruct (String.eqb_spec (fm_prompt f) (tk_prompt task)) as [He|Hne]; cbn [negb].
  - unfold prompt_change_revisions. rewrite He, String.eqb_refl. cbn [insert_revisions last].
    destruct (update_task _ db); done.
  - rewrite last_change by done.
    destruct (insert_revisions _ db) as [[e|] db1]; [done|].
    change (rv_version _) with (i64_add (tk_prompt_version task) 1).
    destruct (update_task _ db1); done.
Qed.

(** on a deleted task the two differ: an accepted edit of the desktop
    leaves it deleted, and any accepted edit of the phone brings it back. *)
Theorem phone_edit_revives_deleted fresh now now' id db task deleted_at :
  get_task id db = Some task -> tk_deleted_at task = Some deleted_at ->
  (forall payload task' db', remote_update_task fresh now now' id payload db = (inr task', db') ->
     exists stored, get_task id db' = Some stored /\ tk_deleted_at stored = None)
  /\ (forall input view db', svc_update_task fresh now now' now' id input db = (inr view, db') ->
     exists stored, get_task id db' = Some stored /\ tk_deleted_at stored = Some deleted_at).
Proof.
  intros Hget Hdel. pose proof (get_task_id _ _ _ Hget) as <-.
  assert (forall rows db1, insert_revisions rows db = (None, db1) -> get_task (tk_id task) db1 = Some task) as Hkeep.
  { intros rows db1 Hi. unfold get_task in *. by rewrite (insert_revisions_tasks _ _ _ _ Hi). }
  split.
  - intros payload task' db'. unfold remote_update_task. rewrite Hget.
    destruct (task_from_payload "" now' payload (Some task)) as [|made] eqn:Em; [done|].
    destruct (insert_revisions _ db) as [[e|] db1] eqn:Ei; [done|].
    destruct (update_task made db1) as [|db2] eqn:Eu; [done|]. intros [= <- <-].
    destruct (task_from_payload_fields _ _ _ _ _ Em) as [Hid Hnone].
    specialize (Hkeep _ _ Ei). rewrite <- Hid in Hkeep |- *.
    eexists. split; [rewrite (update_task_get _ _ _ _ (tk_id made) Hkeep Eu), String.eqb_refl; reflexivity|exact Hnone].
  - intros input view db'. unfold svc_update_task. rewrite Hget.
    destruct (edited_timezone input task) as [|timezone]; [done|].
    destruct (insert_revisions _ db) as [[e|] db1] eqn:Ei; [done|].
    set (made := match last _ with Some _ => _ | None => _ end).
    assert (tk_id made = tk_id task /\ tk_deleted_at made = Some deleted_at) as [Hid Hd].
    { unfold made. by destruct (last _). }
    destruct (update_task made db1) as [|db2] eqn:Eu; [done|]. intros [= <- <-].
    specialize (Hkeep _ _ Ei). rewrite <- Hid in Hkeep |- *.
    eexists. split; [rewrite (update_task_get _ _ _ _ (tk_id made) Hkeep Eu), String.eqb_refl; reflexivity|exact Hd].
Qed.
End Phone.

(** * Concrete edits *)
#[local] Existing Instances demo_libs demo_json demo_text.
Definition demo_form (name : string) : Form :=
  mkForm name "do it better" "/w" None (Some "high") "Asia/Shanghai" "new" "chat" "delete" "schedule" (daily "10:00") true.
Lemma empty_history_ok task db : revs_of (tk_id task) db = [] -> history_ok task db.
Proof. intros E. split; rewrite E; try done. apply NoDup_nil_2. Qed.
Definition demo_ids : string * string := ("x", "y").
Definition live_task : Task := first_task <| tk_thread_id := Some "thread" |>.
Definition dead_task : Task := live_task <| tk_deleted_at := Some 900 |>.
Definition live_db : Db := Eval vm_compute in mkDb [task_values live_task; task_values second_task] [] [].
Definition dead_db : Db := Eval vm_compute in mkDb [task_values dead_task; task_values second_task] [] [].
Definition edited_db : Db :=
  Eval vm_compute in snd (svc_update_task demo_ids 3000 3001 3002 "tsk_a" (form_input (demo_form "c")) live_db).
Definition edited_view : option TaskView :=
  Eval vm_compute in match fst (svc_update_task demo_ids 3000 3001 3002 "tsk_a" (form_input (demo_form "c")) live_db) with
                     | inr view => Some view | inl _ => None end.

Lemma prompt_edits_are_recorded_witness :
  exists task', get_task "tsk_a" edited_db = Some task' /\ tk_prompt task' = "do it better"
                /\ recorded_change live_task task' live_db edited_db.
Proof.
  assert (get_task "tsk_a" live_db = Some live_task) as Hget by (vm_compute; reflexivity).
  assert (history_ok live_task live_db) as Hok by (by apply empty_history_ok).
  assert (version_fits live_task) as Hfit by done.
  destruct edited_view as [view|] eqn:Ev; [|vm_compute in Ev; discriminate].
  apply (proj1 (prompt_edits_are_recorded "tsk_a" live_db live_task Hget Hok Hfit)
           demo_ids 3000 3001 3002 (form_input (demo_form "c")) view edited_db); [discriminate|].
  revert Ev. vm_compute. by intros [= <-].
Defined.

Lemma refused_edit_freezes_the_prompt_witness :
  exists existing_id db',
    svc_update_task demo_ids 3000 3001 3002 "tsk_a" (form_input (demo_form "b")) live_db
      = (inl (fmt_name_taken "b" existing_id), db')
    /\ get_task "tsk_a" db' = Some live_task.
Proof.
  destruct (refused_edit_freezes_the_prompt "tsk_a" live_db live_task (form_input (demo_form "b"))
              (Some "Asia/Shanghai") demo_ids 3000 3001 3002) as (existing_id & db' & Hr & Hget & _).
  1: vm_compute; reflexivity.
  1: by apply empty_history_ok.
  1: done.
  1: reflexivity.
  1: discriminate.
  1-2: vm_compute; reflexivity.
  1: apply NoDup_cons; split; [|apply NoDup_cons; split; [|apply NoDup_nil_2]]; by intros Hin%list_elem_of_In; repeat destruct Hin as [Hin|Hin].
  by exists existing_id, db'.
Defined.

Lemma phone_edit_is_desktop_edit_witness :
  phone_view (remote_update_task demo_ids 3000 3001 "tsk_a" (form_payload (demo_form "c")) live_db)
  = svc_update_task demo_ids 3000 3001 3001 "tsk_a" (form_input (demo_form "c")) live_db
  /\ tk_deleted_at live_task = None.
Proof.
  split; [|reflexivity]. apply phone_edit_is_desktop_edit. intros task Hget.
  vm_compute in Hget. injection Hget as <-. reflexivity.
Defined.

Lemma phone_edit_revives_deleted_witness :
  exists stored, get_task "tsk_a" (snd (remote_update_task demo_ids 3000 3001 "tsk_a" (JObj []) dead_db)) = Some stored
                 /\ tk_deleted_at stored = None.
Proof.
  destruct (remote_update_task demo_ids 3000 3001 "tsk_a" (JObj []) dead_db) as [[e|task'] db'] eqn:E;
    [vm_compute in E; discriminate|].
  assert (get_task "tsk_a" dead_db = Some dead_task) as Hget by (vm_compute; reflexivity).
  exact (proj1 (phone_edit_revives_deleted demo_ids 3000 3001 "tsk_a" dead_db dead_task 900 Hget eq_refl)
           (JObj []) task' db' E).
Defined.
