(* ===== verification/SandboxPaths.v ===== *)
(** Paths at the sandbox boundary (sandbox/paths.rs, the home directories of
    utils/mod.rs and packages/rpc/src/home.rs), as a Linux build compiles them:
    expanding [~], lexical normalisation, canonicalising a path that may not
    exist, and containment by components.  A path is its UTF-8 text;
    [std::path] is the model of WorkspaceGuard.  The file system, the
    environment and the platform's home directory are parameters. *)
From S2P Require Import Prelude WorkspaceGuard.

(** [Option::is_some_and] and [Result]'s shape for the module. *)
Definition is_some_and {A} (o : option A) (p : A -> bool) : bool :=
  match o with Some x => p x | None => false end.

(** * Home directories *)
Definition home_dir_from (home userprofile system_home : option string) : option string :=
  match List.find (fun path => negb (path =?s "") && is_absolute path)
          (omap id [home; userprofile]) with
  | Some path => Some path
  | None => system_home
  end.
Definition future_home_override_from (raw : option string) : option string :=
  match raw with
  | Some path => if negb (path =?s "") && is_absolute path then Some path else None
  | None => None
  end.
Definition future_home_from (override_dir home : option string) : option string :=
  match override_dir with
  | Some dir => Some dir
  | None => option_map (fun home => path_push home ".future") home
  end.

(** [rest.trim_start_matches(is_separator)] *)
Fixpoint trim_separators (s : string) : string :=
  match s with
  | String "/" r => trim_separators r
  | _ => s
  end.
Definition expand_tilde_with_home (path : string) (home : option string) : string :=
  match home with
  | None => path
  | Some home =>
      if path =?s "~" then home
      else match strip_prefix "~" path with
           | Some rest => if starts_with "/" rest then path_push home (trim_separators rest) else path
           | None => path
           end
  end.

(** * Lexical normalisation *)
Definition normalize_lexically (path : string) : string :=
  path_of (List.fold_left normalize_step (components path) []).

(** * Containment *)
(** [path.iter()] *)
Definition path_iter (path : string) : list string := List.map as_os_str (components path).
Definition component_eq (a b : string) : bool := a =?s b.
Definition path_within (path root : string) : bool :=
  let path_parts := path_iter path in
  let root_parts := path_iter root in
  if (List.length path_parts <? List.length root_parts)%nat then false
  else forallb (fun '(a, b) => component_eq a b) (List.combine path_parts root_parts).

(** * The host: environment variables, the platform profile and the file
    system ([Path::canonicalize]) *)
Class SandboxHost := {
  HOME : option string;
  USERPROFILE : option string;
  dirs_home_dir : option string;
  FUTURE_HOME : option string;
  temp_dir : string;
  canonicalize : string -> option string
}.

Section Host.
Context `{SandboxHost}.

Definition home_dir_opt : option string := home_dir_from HOME USERPROFILE dirs_home_dir.
Definition future_home_override : option string := future_home_override_from FUTURE_HOME.
Definition future_home_opt : option string := future_home_from future_home_override home_dir_opt.

Definition expand_tilde (path : string) : string := expand_tilde_with_home path home_dir_opt.
Definition resolve_against (base path : string) : string :=
  let expanded := expand_tilde path in
  if is_absolute expanded then expanded else path_push base expanded.

(** The loop of [canonicalize_lenient]: the ancestor is a path by its reversed
    components, and [remainder] holds the names below it, the outermost
    first. *)
Fixpoint nearest_ancestor (ancestor : list Component) (remainder : list string) : option string :=
  match ancestor with
  | [] | RootDir :: _ => None
  | c :: parent =>
      let remainder := match c with Normal name => name :: remainder | _ => remainder end in
      match canonicalize (path_of (List.rev parent)) with
      | Some canonical => Some (List.fold_left path_push remainder canonical)
      | None => nearest_ancestor parent remainder
      end
  end.
Definition canonicalize_lenient (path : string) : string :=
  let path := normalize_lexically path in
  match canonicalize path with
  | Some canonical => canonical
  | None => default path (nearest_ancestor (List.rev (components path)) [])
  end.
Definition canonicalize_existing (path : string) : option string := canonicalize path.

Definition within_any_root (base candidate : string) (roots : list string) : bool :=
  let resolved := canonicalize_lenient (resolve_against base candidate) in
  existsb (path_within resolved) roots.
End Host.

(** * Containment is the prefix order on components *)
Lemma combine_eq_prefix (l k : list string) : (List.length k <= List.length l)%nat ->
  forallb (fun '(a, b) => component_eq a b) (List.combine l k) = true <-> k `prefix_of` l.
Proof.
  revert l. induction k as [|b k IH]; intros [|a l]; cbn.
  - intros _. split; [intros _; apply prefix_nil|done].
  - intros _. split; [intros _; apply prefix_nil|done].
  - lia.
  - intros Hl. rewrite andb_true_iff, IH by lia. unfold component_eq. rewrite String.eqb_eq.
    split; [intros [-> Hk]; by apply prefix_cons|].
    intros Hk. split; [symmetry; by eapply prefix_cons_inv_1|by eapply prefix_cons_inv_2].
Qed.
Lemma path_within_prefix path root :
  path_within path root = true <-> path_iter root `prefix_of` path_iter path.
Proof.
  unfold path_within. destruct (Nat.ltb_spec (List.length (path_iter path)) (List.length (path_iter root))) as [Hl|Hl].
  - split; [done|]. intros Hp%prefix_length. lia.
  - by apply combine_eq_prefix.
Qed.
Lemma path_within_refl path : path_within path path = true.
Proof. by apply path_within_prefix. Qed.
Lemma path_within_trans a b c : path_within a b = true -> path_within b c = true -> path_within a c = true.
Proof. rewrite !path_within_prefix. intros Hab Hbc. by etransitivity. Qed.
(** Two roots of one path are nested. *)
Lemma path_within_comparable p a b : path_within p a = true -> path_within p b = true ->
  path_within a b = true \/ path_within b a = true.
Proof.
  rewrite !path_within_prefix. intros Ha Hb.
  destruct (prefix_weak_total _ _ _ Ha Hb); [by right|by left].
Qed.
Lemma path_eq_within a b : path_eq a b = true -> path_within a b = true.
Proof.
  unfold path_eq. rewrite bool_decide_eq_true. intros E. apply path_within_prefix.
  unfold path_iter. by rewrite E.
Qed.
Lemma path_eq_sym a b : path_eq a b = path_eq b a.
Proof. apply bool_decide_ext. naive_solver. Qed.
Lemma path_eq_refl a : path_eq a a = true.
Proof. by apply bool_decide_eq_true. Qed.

(** The text of a component determines it. *)
Definition component_of (s : string) : Component :=
  if s =?s "/" then RootDir else if s =?s "." then CurDir else if s =?s ".." then ParentDir else Normal s.
Lemma split_on_head c s p : In p (split_on c s) ->
  match p with EmptyString => True | String a _ => a <> c end.
Proof.
  revert p. induction s as [|a s IH]; intros p; cbn.
  - by intros [<-|[]].
  - destruct (Ascii.eqb_spec a c) as [->|Hne]; [intros [<-|Hp]; [done|by apply IH]|].
    destruct (split_on c s) as [|q qs]; [by intros [<-|[]]|].
    intros [<-|Hp]; [done|]. apply IH. by right.
Qed.
Lemma piece_components_text head pieces c :
  (forall p, In p pieces -> p <> "/") -> In c (piece_components head pieces) -> component_of (as_os_str c) = c.
Proof.
  revert head. induction pieces as [|p pieces IH]; intros head Hp; cbn; [done|].
  assert (Hr : forall q, In q pieces -> q <> "/") by (intros q Hq; apply Hp; by right).
  destruct (String.eqb_spec p ""); [by apply IH|].
  destruct (String.eqb_spec p "."); [destruct head; [intros [<-|Hc]; [done|]|intros Hc]; by eapply IH|].
  intros [<-|Hc]; [|by eapply IH]. destruct (String.eqb_spec p ".."); [done|]. unfold component_of. cbn.
  rewrite (proj2 (String.eqb_neq p "/")) by (apply Hp; by left).
  by rewrite !(proj2 (String.eqb_neq p _)) by done.
Qed.
Lemma components_text path c : In c (components path) -> component_of (as_os_str c) = c.
Proof.
  assert (Hp : forall p, In p (split_on "/" path) -> p <> "/").
  { intros p Hp%split_on_head. by destruct p as [|a p]; [|intros [= -> _]]. }
  unfold components. destruct (is_absolute path); [intros [<-|Hc]; [done|]|intros Hc];
    by eapply piece_components_text.
Qed.
Lemma path_iter_eq a b : path_iter a = path_iter b -> path_eq a b = true.
Proof.
  intros E. apply bool_decide_eq_true.
  assert (forall path, List.map component_of (path_iter path) = components path) as Hc.
  { intros path. unfold path_iter. rewrite List.map_map. rewrite <- (List.map_id (components path)) at 2.
    apply List.map_ext_in. apply components_text. }
  by rewrite <- (Hc a), <- (Hc b), E.
Qed.
(** Of two roots of a path, those of one depth are one. *)
Lemma path_within_same_depth p a b : path_within p a = true -> path_within p b = true ->
  List.length (components a) = List.length (components b) -> path_eq a b = true.
Proof.
  rewrite !path_within_prefix. intros Ha Hb Hl. apply path_iter_eq.
  assert (El : List.length (path_iter a) = List.length (path_iter b)).
  { unfold path_iter. by rewrite !List.length_map. }
  destruct Ha as [x Ex], Hb as [y Ey]. rewrite Ex in Ey. by apply app_inj_1 in Ey as [-> _].
Qed.
Lemma path_within_depth p a : path_within p a = true ->
  (List.length (components a) <= List.length (components p))%nat.
Proof.
  intros Hl%path_within_prefix%prefix_length. unfold path_iter in Hl. by rewrite !List.length_map in Hl.
Qed.

Example within_is_component_aware :
  (path_within "/repo/ab" "/repo/a", path_within "/repo/a/sub/" "/repo/a", path_within "/repo" "/repo/a")
  = (false, true, false).
Proof. reflexivity. Qed.
Example normalises : normalize_lexically "/a/./b/../../../c" = "/c".
Proof. reflexivity. Qed.
Example tilde : expand_tilde_with_home "~//x" (Some "/home/u") = "/home/u/x".
Proof. reflexivity. Qed.
