(* ===== verification/SandboxRules.v ===== *)
(** The approval rules (sandbox/rules.rs) and the resolved sandbox
    (sandbox/mod.rs): operations, matchers and their globs, the rule file, the
    built-in layers, the rule set with its shared session rules, evaluation,
    single-command grants and the snapshot the sandbox compilers read.  The
    model is the Linux build.  The [regex] crate, [serde_json]'s text parser,
    the file system and the environment are parameters; logging is not
    modelled. *)
From S2P Require Import Prelude WorkspaceGuard SandboxPaths.

(** * Operations, access and verdicts *)
Inductive Op := OpRead | OpWrite.
Inductive Access := Read | Write | Both.
#[export] Instance Op_eq_dec : EqDecision Op.
Proof. solve_decision. Defined.
#[export] Instance Access_eq_dec : EqDecision Access.
Proof. solve_decision. Defined.
Definition access_parse (value : string) : Access :=
  if value =?s "read" then Read else if value =?s "write" then Write else Both.
Definition covers (self : Access) (op : Op) : bool :=
  match self, op with
  | Both, _ | Read, OpRead | Write, OpWrite => true
  | _, _ => false
  end.
Definition covers_read (self : Access) : bool :=
  match self with Read | Both => true | Write => false end.
Definition covers_write (self : Access) : bool :=
  match self with Write | Both => true | Read => false end.

Inductive Decision := Ask | Allow | Deny.
#[export] Instance Decision_eq_dec : EqDecision Decision.
Proof. solve_decision. Defined.
Definition decision_parse (value : string) : option Decision :=
  if value =?s "ask" then Some Ask
  else if value =?s "allow" then Some Allow
  else if value =?s "deny" then Some Deny
  else None.
Definition is_deny (d : Decision) : bool := match d with Deny => true | _ => false end.
Definition is_allow (d : Decision) : bool := match d with Allow => true | _ => false end.

Inductive RuleLayer := Override | Execution | Guard | Session | Workspace | User.
#[export] Instance RuleLayer_eq_dec : EqDecision RuleLayer.
Proof. solve_decision. Defined.

Inductive RuleMatcherSnapshot :=
| SLiteral (path : string)
| SSubtree (lexical canonical : string)
| SGlob (pattern : string).
Record RuleSnapshot := mkRuleSnapshot {
  sn_matcher : RuleMatcherSnapshot; sn_access : Access; sn_decision : Decision
}.
Record RuleLayerSnapshot := mkRuleLayerSnapshot { sl_layer : RuleLayer; sl_rules : list RuleSnapshot }.
Record RuleSetSnapshot := mkRuleSetSnapshot {
  ss_workspace : string;
  ss_temp_roots : list string;
  ss_layers : list RuleLayerSnapshot;
  ss_resolution_errors : list string
}.

(** * Globs *)
Definition has_glob (pattern : string) : bool :=
  existsb (fun c => Ascii.eqb c "*" || Ascii.eqb c "?") (list_ascii_of_string pattern).

Definition MAX_RULE_PATTERN_BYTES : usize := 4096.
Definition str_len (s : string) : usize := Z.of_nat (String.length s).
Definition rule_pattern_rejection (pattern : string) : option string :=
  if MAX_RULE_PATTERN_BYTES <? str_len pattern
  then Some ("rule pattern is " +:+ show (str_len pattern) +:+ " bytes, over the "
             +:+ show MAX_RULE_PATTERN_BYTES
             +:+ "-byte limit; the rule is refused rather than compiled")
  else None.

(** The loop of [build_glob_regex]. *)
Definition any_text : string := "(.|" +:+ newline +:+ ")*".
Definition regex_meta (c : string) : bool :=
  bool_decide (c ∈ ["."; "+"; "("; ")"; "|"; "["; "]"; "{"; "}"; "^"; "$"; "\"]).
Fixpoint glob_body (cs : list string) : string :=
  match cs with
  | [] => ""
  | c :: r =>
      if c =?s "*" then
        match r with
        | d :: r2 =>
            if d =?s "*" then
              any_text +:+
              match r2 with
              | e :: r3 => if e =?s "/" then glob_body r3 else glob_body r2
              | [] => ""
              end
            else "[^/]*" +:+ glob_body r
        | [] => "[^/]*"
        end
      else if c =?s "?" then "[^/]" +:+ glob_body r
      else if regex_meta c then "\" +:+ c +:+ glob_body r
      else c +:+ glob_body r
  end.
Definition glob_regex_text (glob : string) : string := "^" +:+ glob_body (chars glob) +:+ "$".

(** [std::fs::read_to_string] *)
Inductive FileRead := Contents (text : string) | NotFound | Unreadable (error : string).

(** The [regex] crate ([RegexBuilder::build] with its [expect], on patterns
    short enough to compile; [Regex::new]; [regex::escape]), [serde_json]'s
    parser of JSON text, and the rule files. *)
Class RuleLib := {
  Regex : Type;
  regex_build : string -> Regex;
  regex_new : string -> Regex + string;
  regex_escape : string -> string;
  is_match : Regex -> string -> bool;
  json_from_str : string -> option json;
  read_to_string : string -> FileRead
}.

(** * The rule file, as [serde] derives it *)
Record RawRule := mkRawRule {
  raw_path : option string; raw_access : option string; raw_action : option string
}.
Definition de_option_string (v : json) : option (option string) :=
  match v with
  | JNull => Some None
  | JStr s => Some (Some s)
  | _ => None
  end.
(** A field of a map: a repeated one is an error. *)
Definition de_field (name : string) (fields : list (string * json)) : option (option json) :=
  match List.filter (fun f => fst f =?s name) fields with
  | [] => Some None
  | [(_, v)] => Some (Some v)
  | _ => None
  end.
Definition de_string_field (name : string) (fields : list (string * json)) : option (option string) :=
  v ← de_field name fields; match v with Some v => de_option_string v | None => Some None end.
Definition de_raw_rule (v : json) : option RawRule :=
  match v with
  | JObj fields =>
      path ← de_string_field "path" fields;
      access ← de_string_field "access" fields;
      action ← de_string_field "action" fields;
      Some (mkRawRule path access action)
  | JArr [p; a; d] =>
      path ← de_option_string p;
      access ← de_option_string a;
      action ← de_option_string d;
      Some (mkRawRule path access action)
  | _ => None
  end.
Definition de_rules (v : json) : option (list RawRule) :=
  match v with JArr l => mapM de_raw_rule l | _ => None end.
Definition de_rule_file (v : json) : option (list RawRule) :=
  match v with
  | JObj fields =>
      v ← de_field "rules" fields; match v with Some v => de_rules v | None => Some [] end
  | JArr [] => Some []
  | JArr [v] => de_rules v
  | _ => None
  end.

(** * The built-in paths *)
Definition HOME_SECRETS : list string :=
  [".ssh"; ".gnupg"; ".npmrc"; ".pypirc"; ".cargo/credentials"; ".cargo/credentials.toml";
   ".gem/credentials"; ".netrc"; ".git-credentials"; ".env"; ".aws"; ".azure"; ".config/gcloud";
   ".terraform.d"; ".kube/config"; ".docker/config.json"; ".config/gh"; "Library/Keychains"].
Definition WORKSPACE_SECRETS : list string :=
  [".env"; ".env.*"; "**/*.pem"; "**/*.key"; "**/*.p12"; "**/id_rsa*"].

(** * Single-command file targets (sandbox/file_request.rs) *)
Inductive WriteScope := File | SubtreeScope.
#[export] Instance WriteScope_eq_dec : EqDecision WriteScope.
Proof. solve_decision. Defined.
Record FileTarget := mkFileTarget { ft_path : string; ft_scope : WriteScope; ft_access : Access }.

Section Rules.
Context `{SandboxHost} `{RuleLib}.

(** * Rules *)
Inductive Matcher :=
| Literal (target : string)
| Subtree (lexical canonical : string)
| Glob (pattern : string) (regex : Regex).
Record PathRule := mkPathRule { pr_matcher : Matcher; pr_access : Access; pr_decision : Decision }.

Definition matcher_covers (m : Matcher) (path : string) : bool :=
  match m with
  | Literal target => path_eq path target
  | Subtree lexical canonical => path_within path lexical || path_within path canonical
  | Glob _ regex => is_match regex path
  end.
Definition rule_matches (self : PathRule) (path : string) (op : Op) : bool :=
  if negb (covers (pr_access self) op) then false else matcher_covers (pr_matcher self) path.

Definition absolutize (base raw : string) : string :=
  let expanded := expand_tilde raw in
  if is_absolute expanded then expanded else path_push base expanded.

Definition build_glob_regex (glob : string) : Regex := regex_build (glob_regex_text glob).
(** The loop that splits a pattern at its first component with a wildcard. *)
Fixpoint split_glob (cs : list Component) (prefix : string) : string * string :=
  match cs with
  | [] => (prefix, "")
  | c :: r =>
      if has_glob (as_os_str c) then (prefix, path_of cs)
      else split_glob r (path_push prefix (as_os_str c))
  end.
Definition compile_matcher (abs_pattern : string) : Matcher :=
  if negb (has_glob abs_pattern) then
    let lexical := abs_pattern in Subtree lexical (canonicalize_lenient lexical)
  else
    let '(prefix, rest) := split_glob (components abs_pattern) "" in
    let full := path_push (canonicalize_lenient prefix) rest in
    Glob full (build_glob_regex full).
Definition rule_new (abs_pattern : string) (access : Access) (decision : Decision) : PathRule :=
  {| pr_matcher := compile_matcher abs_pattern; pr_access := access; pr_decision := decision |}.

(** * Rule files *)
Definition known_access (access : string) : bool :=
  bool_decide (access ∈ ["read"; "write"; "both"]).
(** The closure of [filter_map]: the rule, or why it is ignored. *)
Definition parse_raw_rule (workspace : string) (index : usize) (raw : RawRule) : PathRule + string :=
  let ignored reason := inr ("approval rule " +:+ show (index + 1) +:+ " ignored: " +:+ reason) in
  let access := to_ascii_lowercase (trim (default "both" (raw_access raw))) in
  let action := to_ascii_lowercase (trim (default "" (raw_action raw))) in
  match raw_path raw, decision_parse action with
  | Some path, Some decision =>
      if (path =?s "") || negb (known_access access)
      then ignored "missing path or invalid access/action"
      else match rule_pattern_rejection path with
           | Some reason => ignored reason
           | None => inl (rule_new (absolutize workspace path) (access_parse access) decision)
           end
  | _, _ => ignored "missing path or invalid access/action"
  end.
Fixpoint parse_raw_rules (workspace : string) (index : usize) (raws : list RawRule)
    (errors : list string) : list PathRule * list string :=
  match raws with
  | [] => ([], errors)
  | raw :: r =>
      match parse_raw_rule workspace index raw with
      | inl rule =>
          let '(rules, errors) := parse_raw_rules workspace (index + 1) r errors in (rule :: rules, errors)
      | inr error => parse_raw_rules workspace (index + 1) r (errors ++ [error])
      end
  end.
Definition parse_rule_file_diagnostics (contents workspace : string) (errors : list string)
  : option (list PathRule) * list string :=
  match json_from_str contents ≫= de_rule_file with
  | None => (None, errors)
  | Some raws =>
      let '(rules, errors) := parse_raw_rules workspace 0 raws errors in (Some rules, errors)
  end.
Definition parse_rule_file (contents workspace : string) : option (list PathRule) :=
  fst (parse_rule_file_diagnostics contents workspace []).
Definition load_rule_file_diagnostics (path workspace : string) (errors : list string)
  : (list PathRule + string) * list string :=
  match read_to_string path with
  | Contents contents =>
      match parse_rule_file_diagnostics contents workspace errors with
      | (Some rules, errors) => (inl rules, errors)
      | (None, errors) => (inr ("malformed rule file: " +:+ path), errors)
      end
  | NotFound => (inl [], errors)
  | Unreadable error => (inr ("unreadable rule file " +:+ path +:+ ": " +:+ error), errors)
  end.

(** * Built-in layers *)
Definition state_roots (home : option string) : list string :=
  omap (option_map (fun home => path_push home ".future")) [home]
  ++ omap id [future_home_override].
Definition builtin_overrides (workspace : string) (home : option string) : list PathRule :=
  rule_new (path_push workspace ".future/approval_rule.json") Write Deny
  :: List.map (fun root => rule_new (path_push root "approval_rule.json") Write Deny) (state_roots home)
  ++ List.flat_map (fun cred => List.map (fun root => rule_new (path_push root cred) Both Deny)
                                  (state_roots home))
       ["agent/models.json"; "agent-app/models.json"].
Definition builtin_guards (workspace : string) (home : option string) : list PathRule :=
  match home with
  | Some home => List.map (fun rel => rule_new (path_push home rel) Both Ask) HOME_SECRETS
  | None => []
  end
  ++ List.map (fun pat => rule_new (absolutize workspace pat) Both Ask) WORKSPACE_SECRETS.
Definition temp_roots : list string :=
  let root := canonicalize_lenient temp_dir in
  let slash_tmp := canonicalize_lenient "/tmp" in
  if existsb (path_eq slash_tmp) [root] then [root] else [root; slash_tmp].

(** * The rule set

    Session rules are behind a shared handle ([Arc<Mutex<Vec<PathRule>>>]): a
    rule set holds the handle, the rules are in the store. *)
Definition SessionRules : Type := nat.
Definition SessionStore : Type := list (list PathRule).
Definition session_lock (st : SessionStore) (h : SessionRules) : list PathRule := default [] (st !! h).
(** [Arc::new(Mutex::new(rules))] *)
Definition session_alloc (st : SessionStore) (rules : list PathRule) : SessionStore * SessionRules :=
  (st ++ [rules], List.length st).
Definition session_push (st : SessionStore) (h : SessionRules) (rule : PathRule) : SessionStore :=
  <[h := session_lock st h ++ [rule]]> st.

Record RuleSet := mkRuleSet {
  rs_workspace : string;
  rs_temp_roots : list string;
  rs_overrides : list PathRule;
  rs_guards : list PathRule;
  rs_execution : list PathRule;
  rs_session : SessionRules;
  rs_workspace_rules : list PathRule;
  rs_user_rules : list PathRule;
  rs_resolution_errors : list string
}.
#[export] Instance eta_rule_set : Eta RuleSet := fun r =>
  mkRuleSet (rs_workspace r) (rs_temp_roots r) (rs_overrides r) (rs_guards r) (rs_execution r)
    (rs_session r) (rs_workspace_rules r) (rs_user_rules r) (rs_resolution_errors r).

Definition loaded (result : (list PathRule + string) * list string) : list PathRule * list string :=
  match result with
  | (inl rules, errors) => (rules, errors)
  | (inr error, errors) => ([], errors ++ [error])
  end.
Definition resolve_impl (workspace : string) (home user_rule_file : option string)
    (session : SessionRules) : RuleSet :=
  let workspace := canonicalize_lenient workspace in
  let '(workspace_rules, errors) :=
    loaded (load_rule_file_diagnostics (path_push workspace ".future/approval_rule.json") workspace []) in
  let '(user_rules, errors) :=
    match user_rule_file with
    | Some file => loaded (load_rule_file_diagnostics file workspace errors)
    | None => ([], errors)
    end in
  {| rs_workspace := workspace;
     rs_temp_roots := temp_roots;
     rs_overrides := builtin_overrides workspace home;
     rs_guards := builtin_guards workspace home;
     rs_execution := [];
     rs_session := session;
     rs_workspace_rules := workspace_rules;
     rs_user_rules := user_rules;
     rs_resolution_errors := errors |}.
Definition resolve_with_session (workspace : string) (session : SessionRules) : RuleSet :=
  resolve_impl workspace home_dir_opt
    (option_map (fun h => path_push h "approval_rule.json") future_home_opt) session.
Definition resolve (st : SessionStore) (workspace : string) : SessionStore * RuleSet :=
  let '(st, session) := session_alloc st [] in (st, resolve_with_session workspace session).

Definition profile_layers (st : SessionStore) (rs : RuleSet) : list (list PathRule) :=
  [rs_overrides rs; rs_execution rs; rs_guards rs; session_lock st (rs_session rs);
   rs_workspace_rules rs; rs_user_rules rs].

(** The loops of [evaluate]: the first layer with a rule that matches, and its
    first such rule. *)
Fixpoint first_verdict (layers : list (list PathRule)) (path : string) (op : Op) : option Decision :=
  match layers with
  | [] => None
  | layer :: rest =>
      match List.find (fun rule => rule_matches rule path op) layer with
      | Some rule => Some (pr_decision rule)
      | None => first_verdict rest path op
      end
  end.
Definition fallback (rs : RuleSet) (path : string) (op : Op) : Decision :=
  match op with
  | OpRead => Allow
  | OpWrite =>
      if path_within path (rs_workspace rs) || existsb (path_within path) (rs_temp_roots rs)
      then Allow else Ask
  end.
Definition evaluate (st : SessionStore) (rs : RuleSet) (path : string) (op : Op) : Decision :=
  default (fallback rs path op) (first_verdict (profile_layers st rs) path op).

Definition explicitly_denied (st : SessionStore) (rs : RuleSet) (path : string) (op : Op) : bool :=
  existsb (fun rule => is_deny (pr_decision rule) && rule_matches rule path op)
    (List.concat (profile_layers st rs)).
Definition is_secret_path (rs : RuleSet) (path : string) : bool :=
  existsb (fun rule => rule_matches rule path OpRead || rule_matches rule path OpWrite) (rs_guards rs).

Definition target_rule (target : FileTarget) : PathRule :=
  {| pr_matcher := match ft_scope target with
                   | File => Literal (ft_path target)
                   | SubtreeScope => Subtree (ft_path target) (ft_path target)
                   end;
     pr_access := ft_access target;
     pr_decision := Allow |}.
Definition with_execution_grants (st : SessionStore) (rs : RuleSet) (targets : list FileTarget)
  : SessionStore * RuleSet :=
  let '(st', session) := session_alloc st (session_lock st (rs_session rs)) in
  let rules := rs <| rs_session := session |> in
  if is_empty targets then (st', rules)
  else (st', rules <| rs_overrides ::= fun overrides => overrides ++
                       List.flat_map (List.filter (fun rule => is_deny (pr_decision rule)))
                         (profile_layers st rs) |>
                   <| rs_execution := List.map target_rule targets |>).

Definition add_session_rule (st : SessionStore) (rs : RuleSet) (abs_pattern : string)
    (access : Access) (decision : Decision) : SessionStore * bool :=
  match rule_pattern_rejection abs_pattern with
  | Some _ => (st, false)
  | None => (session_push st (rs_session rs) (rule_new abs_pattern access decision), true)
  end.
Definition push_session_allow (st : SessionStore) (session : SessionRules)
    (workspace raw_pattern : string) (access : Access) : SessionStore * bool :=
  match rule_pattern_rejection raw_pattern with
  | Some _ => (st, false)
  | None => (session_push st session (rule_new (absolutize workspace raw_pattern) access Allow), true)
  end.

Definition matcher_snapshot (m : Matcher) : RuleMatcherSnapshot :=
  match m with
  | Literal path => SLiteral path
  | Subtree lexical canonical => SSubtree lexical canonical
  | Glob pattern _ => SGlob pattern
  end.
Definition rule_snapshot (rule : PathRule) : RuleSnapshot :=
  {| sn_matcher := matcher_snapshot (pr_matcher rule);
     sn_access := pr_access rule; sn_decision := pr_decision rule |}.
Definition snapshot (st : SessionStore) (rs : RuleSet) : RuleSetSnapshot :=
  {| ss_workspace := rs_workspace rs;
     ss_temp_roots := rs_temp_roots rs;
     ss_layers := List.map (fun '(rules, layer) => mkRuleLayerSnapshot layer (List.map rule_snapshot rules))
                    (List.combine (profile_layers st rs)
                       [Override; Execution; Guard; Session; Workspace; User]);
     ss_resolution_errors := rs_resolution_errors rs |}.
End Rules.
Arguments mkPathRule {_} _ _ _.
