(* ===== verification/GlobScan.v ===== *)
(** The bounded scan that expands glob rules before a sandboxed command
    (sandbox/linux/glob_scan.rs): compiled patterns, pruning, and the shared
    walk with its budget.  Directory walking ([walkdir]), the clock and
    cancellation are parameters: a walk is the tree of the entries it would
    yield, and the n-th check of the budget reads the n-th sample. *)
From S2P Require Import Prelude WorkspaceGuard SandboxPaths SandboxRules.

Definition MAX_MATCHES : usize := 2048.
Definition MAX_DEPTH : usize := 64.
Definition MAX_PATTERNS : usize := 256.
Definition MAX_RESULT_BYTES : usize := 4 * 1024 * 1024.
(** [Duration]s are nanoseconds. *)
Definition SCAN_TIME : Z := 30 * nanos_per_sec.

(** * [Path]'s order: by components *)
Definition component_rank (c : Component) : nat :=
  match c with RootDir => 0 | CurDir => 1 | ParentDir => 2 | Normal _ => 3 end.
Definition component_compare (a b : Component) : comparison :=
  match a, b with
  | Normal x, Normal y => String.compare x y
  | _, _ => Nat.compare (component_rank a) (component_rank b)
  end.
Fixpoint components_compare (a b : list Component) : comparison :=
  match a, b with
  | [], [] => Eq
  | [], _ :: _ => Lt
  | _ :: _, [] => Gt
  | x :: a, y :: b => match component_compare x y with Eq => components_compare a b | c => c end
  end.
Definition path_compare (a b : string) : comparison := components_compare (components a) (components b).

(** [BTreeSet<PathBuf>::insert]: whether the path was new, and the set. *)
Fixpoint path_set_insert (x : string) (l : list string) : bool * list string :=
  match l with
  | [] => (true, [x])
  | y :: r => match path_compare x y with
              | Lt => (true, x :: l)
              | Eq => (false, l)
              | Gt => let '(fresh, r) := path_set_insert x r in (fresh, y :: r)
              end
  end.

Record ScanError := mkScanError {
  se_code : string;
  se_phase : string;
  se_root : string;
  se_pattern : string;
  se_visited : usize;
  se_matches : usize;
  se_elapsed_ms : Z;
  se_detail : string
}.
(** [checks] counts the samples of the clock and of [cancelled] so far. *)
Record Budget := mkBudget {
  bg_duration : Z;
  bg_phase : string;
  bg_visited : usize;
  bg_matches : usize;
  bg_bytes : usize;
  bg_checks : nat
}.
#[export] Instance eta_budget : Eta Budget := fun b =>
  mkBudget (bg_duration b) (bg_phase b) (bg_visited b) (bg_matches b) (bg_bytes b) (bg_checks b).

(** What a walk yields: an entry with what lies below it, or an error. *)
Inductive FileType := RegularFile | Directory | Symlink.
#[export] Instance FileType_eq_dec : EqDecision FileType.
Proof. solve_decision. Defined.
#[warnings="-register-all"]
Inductive Walk :=
| WalkEntry (path : string) (file_type : FileType) (below : list Walk)
| WalkError (error : string).

(** [std::fs::symlink_metadata] and [std::fs::metadata] *)
Inductive Stat := StatNotFound | StatError (error : string) | StatIs (file_type : FileType).

Class ScanHost := {
  walk_dir : string -> Walk;
  symlink_metadata : string -> Stat;
  metadata : string -> Stat;
  canonicalize_error : string -> string;
  cancelled : nat -> bool;
  elapsed : nat -> Z
}.

Section Scan.
Context `{SandboxHost} `{RuleLib} `{ScanHost}.

Definition budget_error (b : Budget) (code root pattern detail : string) : ScanError :=
  {| se_code := code; se_phase := bg_phase b; se_root := root; se_pattern := pattern;
     se_visited := bg_visited b; se_matches := bg_matches b;
     se_elapsed_ms := elapsed (bg_checks b) / nanos_per_milli; se_detail := detail |}.
Definition check (b : Budget) (root pattern : string) : Budget + ScanError :=
  if cancelled (bg_checks b)
  then inr (budget_error b "glob_scan_cancelled" root pattern "command aborted before execution")
  else if bg_duration b <=? elapsed (bg_checks b)
  then inr (budget_error b "glob_scan_timeout" root pattern
              ("shared_scan_budget_ms=" +:+ show (bg_duration b / nanos_per_milli)))
  else inl (b <| bg_checks ::= S |>).

(** * Patterns *)
Fixpoint scan_body (cs : list string) : string :=
  match cs with
  | [] => ""
  | c :: r =>
      if c =?s "*" then
        match r with
        | d :: r2 =>
            if d =?s "*" then
              "(?s:.*)" +:+
              match r2 with
              | e :: r3 => if e =?s "/" then scan_body r3 else scan_body r2
              | [] => ""
              end
            else "[^/]*" +:+ scan_body r
        | [] => "[^/]*"
        end
      else if c =?s "?" then "[^/]" +:+ scan_body r
      else regex_escape c +:+ scan_body r
  end.
Definition scan_regex_text (pattern : string) : string := "\A" +:+ scan_body (chars pattern) +:+ "\z".
Definition scan_compile_matcher (pattern : string) : Regex + string := regex_new (scan_regex_text pattern).

Record Pattern := mkPattern {
  pt_text : string;
  pt_matcher : Regex;
  pt_prefixes : list Regex;
  pt_recursive : bool;
  pt_depth : usize
}.
(** The loop over the parts: a matcher for each prefix before the first [**]. *)
Fixpoint compile_prefixes (parts : list string) (prefix : string) : list Regex + string :=
  match parts with
  | [] => inl []
  | part :: r =>
      if str_contains "**" part then inl []
      else
        let prefix := path_push prefix part in
        match scan_compile_matcher prefix with
        | inr e => inr e
        | inl re => match compile_prefixes r prefix with
                    | inl prefixes => inl (re :: prefixes)
                    | inr e => inr e
                    end
        end
  end.
Definition relative_parts (root path : string) : list string :=
  drop (List.length (path_iter root)) (path_iter path).
Definition pattern_compile (text root : string) : Pattern + string :=
  let parts := relative_parts root text in
  match compile_prefixes parts "" with
  | inr e => inr e
  | inl prefixes =>
      match scan_compile_matcher text with
      | inr e => inr e
      | inl matcher =>
          inl {| pt_text := text; pt_matcher := matcher; pt_prefixes := prefixes;
                 pt_recursive := existsb (str_contains "**") parts; pt_depth := len parts |}
      end
  end.
Definition can_descend (self : Pattern) (relative : list string) (depth : usize) : bool :=
  if negb (pt_recursive self) && (pt_depth self <=? depth) then false
  else if depth =? 0 then true
  else
    let checked := Z.min depth (len (pt_prefixes self)) in
    if checked =? 0 then true
    else
      let prefix := List.fold_left path_push (take (Z.to_nat checked) relative) "" in
      match pt_prefixes self !! Z.to_nat (checked - 1) with
      | Some re => is_match re prefix
      | None => false
      end.

Definition scan_root (pattern : string) : string :=
  (fix go cs root := match cs with
     | [] => root
     | c :: r => if has_glob (as_os_str c) then root else go r (path_push root (as_os_str c))
     end) (components pattern) "".

(** * The walk *)
Definition Matches : Type := gmap string (list string).
Record ScanState := mkScanState {
  sc_budget : Budget;
  sc_results : Matches;
  sc_unique : list string
}.
#[export] Instance eta_scan_state : Eta ScanState := fun s =>
  mkScanState (sc_budget s) (sc_results s) (sc_unique s).
Definition checked (s : ScanState) (root pattern : string) : ScanState + ScanError :=
  match check (sc_budget s) root pattern with
  | inl b => inl (s <| sc_budget := b |>)
  | inr e => inr e
  end.

(** The loop over [paths]: the entry, and the target of a symlink. *)
Fixpoint insert_matches (root text : string) (paths : list string) (s : ScanState)
  : ScanState + ScanError :=
  match paths with
  | [] => inl s
  | path :: r =>
      let '(fresh, matches) := path_set_insert path (default [] (sc_results s !! text)) in
      if negb fresh then insert_matches root text r s
      else
        let unique := snd (path_set_insert path (sc_unique s)) in
        let b := (sc_budget s) <| bg_bytes ::= fun n => n + (str_len path + str_len text) |>
                             <| bg_matches := len unique |> in
        let s := mkScanState b (<[text := matches]> (sc_results s)) unique in
        if (MAX_MATCHES <? bg_matches b) || (MAX_RESULT_BYTES <? bg_bytes b)
        then inr (budget_error b (if MAX_MATCHES <? bg_matches b then "glob_scan_match_limit"
                                  else "glob_scan_result_bytes_limit") root text
                    ("unique_limit=" +:+ show MAX_MATCHES +:+ ", snapshot_bytes=" +:+ show (bg_bytes b)
                     +:+ ", byte_limit=" +:+ show MAX_RESULT_BYTES))
        else insert_matches root text r s
  end.
(** The loop over the patterns of a group, for one entry. *)
Fixpoint match_patterns (root path : string) (ty : FileType) (depth : usize)
    (patterns : list Pattern) (s : ScanState) : ScanState + ScanError :=
  match patterns with
  | [] => inl s
  | p :: r =>
      match checked s root (pt_text p) with
      | inr e => inr e
      | inl s =>
          if (negb (pt_recursive p) && negb (depth =? pt_depth p)) || negb (is_match (pt_matcher p) path)
          then match_patterns root path ty depth r s
          else
            match (match ty with
                   | Symlink => match canonicalize path with
                                | Some target => inl [path; target]
                                | None => inr (budget_error (sc_budget s) "glob_scan_io_error" root
                                                 (pt_text p) (canonicalize_error path))
                                end
                   | _ => inl [path]
                   end) with
            | inr e => inr e
            | inl paths =>
                match insert_matches root (pt_text p) paths s with
                | inr e => inr e
                | inl s => match_patterns root path ty depth r s
                end
            end
      end
  end.
(** One round of the loop for each entry, in walk order; [context] names the
    group. *)
Fixpoint walk_entry (root context : string) (patterns : list Pattern) (depth : usize)
    (w : Walk) (s : ScanState) {struct w} : ScanState + ScanError :=
  let fix walk_all (ws : list Walk) (s : ScanState) : ScanState + ScanError :=
    match ws with
    | [] => inl s
    | w :: r => match walk_entry root context patterns (depth + 1) w s with
                | inl s => walk_all r s
                | inr e => inr e
                end
    end in
  match checked s root context with
  | inr e => inr e
  | inl s =>
      match w with
      | WalkError error => inr (budget_error (sc_budget s) "glob_scan_io_error" root context error)
      | WalkEntry path ty below =>
          let s := s <| sc_budget ::= set_field bg_visited (fun n => n + 1) |> in
          match checked s root context with
          | inr e => inr e
          | inl s =>
              if (depth =? 0) && bool_decide (ty = Symlink)
              then inr (budget_error (sc_budget s) "glob_scan_io_error" root context
                          "static scan root became a symlink")
              else
                match match_patterns root path ty depth patterns s with
                | inr e => inr e
                | inl s =>
                    match ty with
                    | Directory =>
                        let relative := relative_parts root path in
                        match List.find (fun p => can_descend p relative depth) patterns with
                        | None => inl s
                        | Some p =>
                            if MAX_DEPTH <=? depth
                            then inr (budget_error (sc_budget s) "glob_scan_depth_limit" root (pt_text p)
                                        ("depth=" +:+ show depth +:+ ", limit=" +:+ show MAX_DEPTH))
                            else walk_all below s
                        end
                    | _ => inl s
                    end
                end
          end
      end
  end.

(** * The scan *)
Definition Groups : Type := list (string * list Pattern).
(** [groups.entry(root).or_default().push(compiled)] *)
Fixpoint group_push (root : string) (p : Pattern) (groups : Groups) : Groups :=
  match groups with
  | [] => [(root, [p])]
  | (r, ps) :: rest =>
      match path_compare root r with
      | Lt => (root, [p]) :: groups
      | Eq => (r, ps ++ [p]) :: rest
      | Gt => (r, ps) :: group_push root p rest
      end
  end.
Fixpoint compile_groups (patterns : list string) (b : Budget) (groups : Groups) (results : Matches)
  : (Budget * Groups * Matches) + ScanError :=
  match patterns with
  | [] => inl (b, groups, results)
  | text :: r =>
      let root := scan_root text in
      match check b root text with
      | inr e => inr e
      | inl b =>
          match results !! text with
          | Some _ => compile_groups r b groups results
          | None =>
              if MAX_PATTERNS <=? Z.of_nat (size results)
              then inr (budget_error b "glob_scan_pattern_limit" root text ("limit=" +:+ show MAX_PATTERNS))
              else match pattern_compile text root with
                   | inr error => inr (budget_error b "glob_scan_pattern_invalid" root text error)
                   | inl p => compile_groups r b (group_push root p groups) (<[text := []]> results)
                   end
          end
      end
  end.
Definition group_context (patterns : list Pattern) : string :=
  (match patterns with p :: _ => pt_text p | [] => "" end)
  +:+ " [shared root: " +:+ show (len patterns) +:+ " rules]".
Definition scan_group (root : string) (patterns : list Pattern) (s : ScanState)
  : ScanState + ScanError :=
  let context := group_context patterns in
  match checked s root context with
  | inr e => inr e
  | inl s =>
      match symlink_metadata root with
      | StatNotFound => inl s
      | StatError error => inr (budget_error (sc_budget s) "glob_scan_io_error" root context error)
      | StatIs _ =>
          match walk_entry root context patterns 0 (walk_dir root) s with
          | inr e => inr e
          | inl s =>
              (* the check before the walker's end, and the one after the loop *)
              match checked s root context with
              | inr e => inr e
              | inl s => checked s root context
              end
          end
      end
  end.
Fixpoint scan_groups (groups : Groups) (s : ScanState) : ScanState + ScanError :=
  match groups with
  | [] => inl s
  | (root, patterns) :: r =>
      match scan_group root patterns s with inl s => scan_groups r s | inr e => inr e end
  end.
Definition scan_with_budget (patterns : list string) (phase : string) (duration : Z)
  : (Matches * usize) + ScanError :=
  match compile_groups patterns (mkBudget duration phase 0 0 0 0) [] ∅ with
  | inr e => inr e
  | inl (b, groups, results) =>
      match scan_groups groups (mkScanState b results []) with
      | inr e => inr e
      | inl s => inl (sc_results s, bg_visited (sc_budget s))
      end
  end.
Definition scan (patterns : list string) (phase : string) : Matches + ScanError :=
  match scan_with_budget patterns phase SCAN_TIME with
  | inl (results, _) => inl results
  | inr e => inr e
  end.
End Scan.
