(* ===== verification/SandboxPlan.v ===== *)
(** The Linux mount plan (sandbox/linux/plan.rs): the memoised glob matcher,
    first-match tests on a rule snapshot, and the compilation of a snapshot
    into the paths to mount.  File metadata and directory walks come from
    GlobScan's host; the serialisation and the hash of the policy digest are
    parameters. *)
From S2P Require Import Prelude WorkspaceGuard SandboxPaths SandboxRules GlobScan.

Inductive LinuxSandboxPlanError :=
| RuleLayerUnavailable (error : string)
| UnsafePath (path : string)
| UnsupportedMatcher (pattern : string)
| GlobScanFailed (error : ScanError)
| MountLimit
| UnsupportedAccessCombination (path : string)
| MissingReopen (path : string)
| PathInspection (path detail : string)
| PolicySerialization (error : string).

Record GlobSnapshot := mkGlobSnapshot { gs_pattern : string; gs_matches : list string }.
Record LinuxSandboxPlan := mkPlan {
  pl_writable_roots : list string;
  pl_read_only_paths : list string;
  pl_unreadable_paths : list string;
  pl_reopened_paths : list string;
  pl_reopened_read_only_paths : list string;
  pl_omitted_missing_protected_paths : list string;
  pl_unsupported_dynamic_globs : list string;
  pl_glob_snapshots : list GlobSnapshot;
  pl_policy_digest : string
}.

Definition REQUEST_VERSION : Z := 3.
Definition MAX_BWRAP_ARGS : usize := 9000.
Definition MAX_MOUNTS : usize := (MAX_BWRAP_ARGS - 32) / 4.

(** * [glob_matches]: recursion on two positions, with a memo table *)
Definition Memo : Type := gmap (nat * nat) bool.
Definition char_at (l : list string) (i : nat) : string := default "" (l !! i).
(** [a || b], where each side reads and writes the memo. *)
Definition memo_or (a b : Memo -> bool * Memo) (m : Memo) : bool * Memo :=
  let '(r, m) := a m in if r then (true, m) else b m.
Definition memo_and (g : bool) (a : Memo -> bool * Memo) (m : Memo) : bool * Memo :=
  if g then a m else (false, m).
Fixpoint matches_from (p v : list string) (fuel : nat) (pi vi : nat) (memo : Memo) : bool * Memo :=
  match fuel with
  | O => (false, memo)
  | S fuel =>
      match memo !! (pi, vi) with
      | Some result => (result, memo)
      | None =>
          let more := (vi <? List.length v)%nat in
          let '(result, memo) :=
            if (pi =? List.length p)%nat then ((vi =? List.length v)%nat, memo)
            else if char_at p pi =?s "*" then
              if (pi + 1 <? List.length p)%nat && (char_at p (pi + 1) =?s "*") then
                let next := if (pi + 2 <? List.length p)%nat && (char_at p (pi + 2) =?s "/")
                            then (pi + 3)%nat else (pi + 2)%nat in
                memo_or (matches_from p v fuel next vi)
                  (memo_and more (matches_from p v fuel pi (vi + 1))) memo
              else
                memo_or (matches_from p v fuel (pi + 1) vi)
                  (memo_and (more && negb (char_at v vi =?s "/")) (matches_from p v fuel pi (vi + 1)))
                  memo
            else if char_at p pi =?s "?" then
              memo_and (more && negb (char_at v vi =?s "/")) (matches_from p v fuel (pi + 1) (vi + 1)) memo
            else
              memo_and (more && (char_at p pi =?s char_at v vi))
                (matches_from p v fuel (pi + 1) (vi + 1)) memo in
          (result, <[(pi, vi) := result]> memo)
      end
  end.
(** Each call moves one of the positions forward. *)
Definition glob_matches (pattern path : string) : bool :=
  let pattern := chars pattern in
  let value := chars path in
  fst (matches_from pattern value (S (List.length pattern + List.length value)) 0 0 ∅).

(** * First-match tests *)
Definition access_overlap (left right : Access) : bool :=
  match right with
  | Read => covers_read left
  | Write | Both => covers_write left
  end.
Definition snapshot_covers (m : RuleMatcherSnapshot) (path : string) : bool :=
  match m with
  | SLiteral target => path_eq path target
  | SSubtree lexical canonical => path_within path lexical || path_within path canonical
  | SGlob pattern => glob_matches pattern path
  end.
Definition rule_blocks (rule : RuleSnapshot) (path : string) (access : Access) : bool :=
  if is_allow (sn_decision rule) || negb (access_overlap (sn_access rule) access) then false
  else snapshot_covers (sn_matcher rule) path.
Definition snapshot_matches (rule : RuleSnapshot) (path : string) (access : Access) : bool :=
  access_overlap (sn_access rule) access && snapshot_covers (sn_matcher rule) path.

(** A rule with its layer and its index in it. *)
Record FlatRule := mkFlat {
  fl_priority : nat; fl_rule_index : nat; fl_layer : RuleLayer; fl_rule : RuleSnapshot
}.
Definition flatten (layers : list RuleLayerSnapshot) : list FlatRule :=
  List.concat (imap (fun priority layer =>
    imap (fun rule_index rule => mkFlat priority rule_index (sl_layer layer) rule) (sl_rules layer))
    layers).
Definition position_lt (p i p' i' : nat) : bool := (p <? p')%nat || ((p =? p')%nat && (i <? i')%nat).

Definition effective_blocked (rules : list FlatRule) (path : string) (access : Access) : bool :=
  match List.find (fun f => snapshot_matches (fl_rule f) path access) rules with
  | Some f => negb (is_allow (sn_decision (fl_rule f)))
  | None => false
  end.
Definition matched_by_earlier_rule (rules : list FlatRule) (priority rule_index : nat)
    (path : string) (access : Access) : bool :=
  existsb (fun f => position_lt (fl_priority f) (fl_rule_index f) priority rule_index
                    && snapshot_matches (fl_rule f) path access) rules.
Definition protected_by_later_rule (rules : list FlatRule) (priority rule_index : nat)
    (path : string) (access : Access) : bool :=
  existsb (fun f => position_lt priority rule_index (fl_priority f) (fl_rule_index f)
                    && rule_blocks (fl_rule f) path access) rules.

(** * Path lists *)
(** The loop of [normalize_roots]. *)
Fixpoint drop_nested (paths normalized : list string) : list string :=
  match paths with
  | [] => normalized
  | path :: r =>
      drop_nested r (if existsb (path_within path) normalized then normalized else normalized ++ [path])
  end.
Definition component_count (path : string) : usize := len (components path).
Definition normalize_roots (paths : list string) : list string :=
  drop_nested (sort_by_key component_count paths) [].
Fixpoint insert_path (x : string) (l : list string) : list string :=
  match l with
  | [] => [x]
  | y :: r => match path_compare x y with Gt => y :: insert_path x r | _ => x :: l end
  end.
(** [Vec::dedup]: each run of equal elements keeps its first. *)
Fixpoint dedup_adjacent {A} (same : A -> A -> bool) (prev : option A) (l : list A) : list A :=
  match l with
  | [] => []
  | x :: r =>
      match prev with
      | Some y => if same y x then dedup_adjacent same prev r else x :: dedup_adjacent same (Some x) r
      | None => x :: dedup_adjacent same (Some x) r
      end
  end.
Definition normalize_exact (paths : list string) : list string :=
  dedup_adjacent path_eq None (List.fold_right insert_path [] paths).
Definition contains_path (paths : list string) (path : string) : bool := existsb (path_eq path) paths.

Definition has_parent_dir (path : string) : bool :=
  existsb (fun c => bool_decide (c = ParentDir)) (components path).
Definition validate_absolute (path : string) : unit + LinuxSandboxPlanError :=
  if negb (is_absolute path) || has_parent_dir path then inr (UnsafePath path) else inl tt.
Definition validate_glob (pattern : string) : unit + LinuxSandboxPlanError :=
  match validate_absolute pattern with
  | inr e => inr e
  | inl _ =>
      if existsb (fun c => bool_decide (c ∈ ["["; "]"; "{"; "}"]%char)) (list_ascii_of_string pattern)
      then inr (UnsupportedMatcher pattern) else inl tt
  end.
(** [for x in l { f(x)? }] *)
Fixpoint try_each {A} (f : A -> unit + LinuxSandboxPlanError) (l : list A)
  : unit + LinuxSandboxPlanError :=
  match l with
  | [] => inl tt
  | x :: r => match f x with inl _ => try_each f r | inr e => inr e end
  end.

(** [serde_json::to_vec] of a snapshot, and the hex digest of [sha2::Sha256]. *)
Class DigestLib := {
  serde_json_to_vec : RuleSetSnapshot -> string + string;
  sha256_hex : string -> string
}.

Section Plan.
Context `{SandboxHost} `{RuleLib} `{ScanHost} `{DigestLib}.

Definition policy_digest (snapshot : RuleSetSnapshot) : string + LinuxSandboxPlanError :=
  match serde_json_to_vec snapshot with
  | inl digest_input => inl (sha256_hex digest_input)
  | inr error => inr (PolicySerialization error)
  end.

Definition mount_path_exists (path : string) : bool + LinuxSandboxPlanError :=
  match symlink_metadata path with
  | StatNotFound => inl false
  | StatError e => inr (PathInspection path e)
  | StatIs Symlink =>
      match metadata path with
      | StatIs _ => inl true
      | StatNotFound => inr (PathInspection path "entity not found")
      | StatError e => inr (PathInspection path e)
      end
  | StatIs _ => inl true
  end.

Definition expand_globs (patterns : list string) (phase : string)
  : Matches + LinuxSandboxPlanError :=
  match try_each validate_glob patterns with
  | inr e => inr e
  | inl _ => match scan patterns phase with
             | inl matches => inl matches
             | inr e => inr (GlobScanFailed e)
             end
  end.

(** The vectors the compilation fills. *)
Record PlanPaths := mkPaths {
  pp_writable_roots : list string;
  pp_read_only : list string;
  pp_unreadable : list string;
  pp_reopened : list string;
  pp_reopened_read_only : list string;
  pp_missing_protected : list string
}.
#[export] Instance eta_plan_paths : Eta PlanPaths := fun p =>
  mkPaths (pp_writable_roots p) (pp_read_only p) (pp_unreadable p) (pp_reopened p)
    (pp_reopened_read_only p) (pp_missing_protected p).

Definition apply_allow (flattened : list FlatRule) (f : FlatRule) (path : string) (out : PlanPaths)
  : PlanPaths + LinuxSandboxPlanError :=
  let rule := fl_rule f in
  let earlier := matched_by_earlier_rule flattened (fl_priority f) (fl_rule_index f) path in
  let later := protected_by_later_rule flattened (fl_priority f) (fl_rule_index f) path in
  let read_blocked := effective_blocked flattened path Read in
  if covers_write (sn_access rule) && negb (earlier Write) then
    if read_blocked then inr (UnsupportedAccessCombination path)
    else if later Write then
      match mount_path_exists path with
      | inr e => inr e
      | inl false => inr (MissingReopen path)
      | inl true => inl (out <| pp_reopened ::= fun l => l ++ [path] |>)
      end
    else inl (out <| pp_writable_roots ::= fun l => l ++ [path] |>)
  else if covers_read (sn_access rule) && negb (earlier Read) && later Read then
    match mount_path_exists path with
    | inr e => inr e
    | inl false => inr (MissingReopen path)
    | inl true => inl (out <| pp_reopened_read_only ::= fun l => l ++ [path] |>)
    end
  else inl out.
Definition apply_block (flattened : list FlatRule) (f : FlatRule) (path : string) (out : PlanPaths)
  : PlanPaths + LinuxSandboxPlanError :=
  let rule := fl_rule f in
  let earlier := matched_by_earlier_rule flattened (fl_priority f) (fl_rule_index f) path in
  let blocks_read := covers_read (sn_access rule) && negb (earlier Read) in
  let blocks_write := covers_write (sn_access rule) && negb (earlier Write) in
  if negb blocks_read && negb blocks_write then inl out
  else
    match mount_path_exists path with
    | inr e => inr e
    | inl false => inl (out <| pp_missing_protected ::= fun l => l ++ [path] |>)
    | inl true =>
        if blocks_read then inl (out <| pp_unreadable ::= fun l => l ++ [path] |>)
        else inl (out <| pp_read_only ::= fun l => l ++ [path] |>)
    end.
Definition apply_rule (flattened : list FlatRule) (f : FlatRule) (path : string) (out : PlanPaths)
  : PlanPaths + LinuxSandboxPlanError :=
  match sn_decision (fl_rule f) with
  | Allow => apply_allow flattened f path out
  | Ask | Deny => apply_block flattened f path out
  end.
Fixpoint apply_paths (flattened : list FlatRule) (f : FlatRule) (paths : list string) (out : PlanPaths)
  : PlanPaths + LinuxSandboxPlanError :=
  match paths with
  | [] => inl out
  | path :: r => match apply_rule flattened f path out with
                 | inl out => apply_paths flattened f r out
                 | inr e => inr e
                 end
  end.

(** The paths a rule names, in the loop of [compile_with_cancel]. *)
Definition rule_paths (expanded : Matches) (m : RuleMatcherSnapshot)
  : list string + LinuxSandboxPlanError :=
  match m with
  | SLiteral path =>
      match validate_absolute path with inl _ => inl [path] | inr e => inr e end
  | SSubtree lexical canonical =>
      match validate_absolute lexical with
      | inr e => inr e
      | inl _ => match validate_absolute canonical with
                 | inr e => inr e
                 | inl _ => inl (normalize_exact [lexical; canonical])
                 end
      end
  | SGlob pattern => inl (default [] (expanded !! pattern))
  end.
Fixpoint apply_rules (flattened : list FlatRule) (expanded : Matches) (rules : list FlatRule)
    (out : PlanPaths) : PlanPaths + LinuxSandboxPlanError :=
  match rules with
  | [] => inl out
  | f :: r =>
      match rule_paths expanded (sn_matcher (fl_rule f)) with
      | inr e => inr e
      | inl paths => match apply_paths flattened f paths out with
                     | inl out => apply_rules flattened expanded r out
                     | inr e => inr e
                     end
      end
  end.
Definition rule_pattern (f : FlatRule) : option string :=
  match sn_matcher (fl_rule f) with SGlob pattern => Some pattern | _ => None end.

(** What follows the loop. *)
Definition finish_plan (snapshot : RuleSetSnapshot) (patterns : list string) (expanded : Matches)
    (out : PlanPaths) : LinuxSandboxPlan + LinuxSandboxPlanError :=
  let writable_roots := normalize_roots (pp_writable_roots out) in
  let read_only_paths := normalize_exact (pp_read_only out) in
  let unreadable_paths := normalize_exact (pp_unreadable out) in
  let reopened_paths := normalize_exact (pp_reopened out) in
  let reopened_read_only_paths := normalize_exact (pp_reopened_read_only out) in
  let missing := normalize_exact (pp_missing_protected out) in
  let read_only_paths :=
    List.filter (fun path => negb (contains_path unreadable_paths path)
                             && negb (contains_path missing path)) read_only_paths in
  let unreadable_paths := List.filter (fun path => negb (contains_path missing path)) unreadable_paths in
  let globs := dedup_adjacent String.eqb None (sort_strings patterns) in
  let snapshots := dedup_adjacent (fun a b => gs_pattern a =?s gs_pattern b) None
    (sort_by_string gs_pattern
       (List.map (fun p => mkGlobSnapshot p (default [] (expanded !! p))) patterns)) in
  let mount_count := len writable_roots + len read_only_paths + len unreadable_paths
                     + len reopened_paths + len reopened_read_only_paths in
  if MAX_MOUNTS <? mount_count then inr MountLimit
  else match policy_digest snapshot with
       | inr e => inr e
       | inl digest =>
           inl {| pl_writable_roots := writable_roots;
                  pl_read_only_paths := read_only_paths;
                  pl_unreadable_paths := unreadable_paths;
                  pl_reopened_paths := reopened_paths;
                  pl_reopened_read_only_paths := reopened_read_only_paths;
                  pl_omitted_missing_protected_paths := missing;
                  pl_unsupported_dynamic_globs := globs;
                  pl_glob_snapshots := snapshots;
                  pl_policy_digest := digest |}
       end.
Definition base_paths (snapshot : RuleSetSnapshot) : PlanPaths :=
  mkPaths (ss_workspace snapshot :: ss_temp_roots snapshot) [] [] [] [] [].
Definition compile_with_cancel (snapshot : RuleSetSnapshot) : LinuxSandboxPlan + LinuxSandboxPlanError :=
  match ss_resolution_errors snapshot with
  | error :: _ => inr (RuleLayerUnavailable error)
  | [] =>
      match try_each validate_absolute (ss_workspace snapshot :: ss_temp_roots snapshot) with
      | inr e => inr e
      | inl _ =>
          let flattened := flatten (ss_layers snapshot) in
          let patterns := omap rule_pattern flattened in
          match expand_globs patterns "pre_launch" with
          | inr e => inr e
          | inl expanded =>
              match apply_rules flattened expanded flattened (base_paths snapshot) with
              | inr e => inr e
              | inl out => finish_plan snapshot patterns expanded out
              end
          end
      end
  end.
Definition write_half (layer : RuleLayerSnapshot) : RuleLayerSnapshot :=
  mkRuleLayerSnapshot (sl_layer layer)
    (List.map (fun rule => mkRuleSnapshot (sn_matcher rule) Write (sn_decision rule))
       (List.filter (fun rule => negb (bool_decide (sn_access rule = Read))) (sl_rules layer))).
Definition compile_with_read_protection (snapshot : RuleSetSnapshot) (read_protection : bool)
  : LinuxSandboxPlan + LinuxSandboxPlanError :=
  if read_protection then compile_with_cancel snapshot
  else compile_with_cancel
         (mkRuleSetSnapshot (ss_workspace snapshot) (ss_temp_roots snapshot)
            (List.map write_half (ss_layers snapshot)) (ss_resolution_errors snapshot)).
Definition compile (snapshot : RuleSetSnapshot) : LinuxSandboxPlan + LinuxSandboxPlanError :=
  compile_with_cancel snapshot.
End Plan.

Example matches_recursively :
  (glob_matches "/w/**/*.pem" "/w/a/b.pem", glob_matches "/w/*.pem" "/w/a/b.pem",
   glob_matches "/w/**/*.pem" "/w/b.pem", glob_matches "/w/?.k" "/w/a.k") = (true, false, true, true).
Proof. vm_compute. reflexivity. Qed.
