(* ===== verification/SandboxShell.v ===== *)
(** Running a shell command under the approval rules: the helper request
    (sandbox/linux/request.rs), its mounts (sandbox/linux/runner.rs), the
    resolved sandbox and its tiers (sandbox/mod.rs), and single-command file
    permissions (sandbox/file_request.rs).  The probe of the host, the shell,
    the executable, JSON and hashing are parameters. *)
From S2P Require Import Prelude WorkspaceGuard SandboxPaths SandboxRules GlobScan SandboxPlan.

(** * The backend's receipt *)
Record BwrapIdentity := mkIdentity {
  bi_device : u64; bi_inode : u64; bi_size : u64; bi_modified_nanos : Z
}.
Record LinuxSandboxCapabilities := mkCapabilities {
  cap_write_protection : bool;
  cap_read_protection : bool;
  cap_user_namespace : bool;
  cap_pid_namespace : bool;
  cap_ipc_namespace : bool;
  cap_read_only_root : bool;
  cap_fresh_proc : bool;
  cap_minimal_dev : bool;
  cap_capability_drop : bool;
  cap_network_isolation : bool;
  cap_dynamic_glob_protection : bool
}.
Inductive LinuxSandboxProbeCode :=
| Available | AvailableWriteOnly | PlatformNotLinux | BinaryMissing | PathRejected | BinaryInvalid
| VersionUnreadable | VersionTooOld | RequiredFeatureMissing | UserNamespaceDisabled
| ProcMountRestricted | ProbeTimeout | ProbeFailed | BinaryIdentityChanged.
Record LinuxSandboxProbe := mkProbe {
  pb_available : bool;
  pb_code : LinuxSandboxProbeCode;
  pb_path : option string;
  pb_version : option string;
  pb_identity : option BwrapIdentity;
  pb_capabilities : option LinuxSandboxCapabilities;
  pb_expires_at_unix_ms : option Z;
  pb_diagnostic : option string
}.
Inductive SandboxBackendReceipt :=
| BackendUnavailable
| MacosSeatbelt (executable : string)
| LinuxBubblewrap (probe : LinuxSandboxProbe)
| WindowsRestricted.
Definition receipt_is_available (self : SandboxBackendReceipt) : bool :=
  match self with BackendUnavailable => false | _ => true end.

(** * The helper request *)
Inductive HelperPhase := Outer | Inner.
Inductive MountKind := Writable | ReadOnly | Unreadable | MissingProtected.
#[export] Instance MountKind_eq_dec : EqDecision MountKind.
Proof. solve_decision. Defined.
Record MountRequest := mkMount {
  mt_source : string;
  mt_target : string;
  mt_kind : MountKind;
  mt_expected : option BwrapIdentity;
  mt_source_fd : option i32
}.
Record LinuxSandboxRequest := mkRequest {
  rq_version : Z;
  rq_phase : HelperPhase;
  rq_bwrap_path : string;
  rq_bwrap_identity : BwrapIdentity;
  rq_cwd : string;
  rq_argv : list string;
  rq_mounts : list MountRequest;
  rq_glob_snapshots : list GlobSnapshot;
  rq_omitted_missing_protected_paths : list string;
  rq_policy_digest : string;
  rq_status_fd : option i32;
  rq_report_fd : option i32
}.
Inductive RequestError :=
| TooLarge
| InvalidJson (error : string)
| UnsupportedVersion (version : Z)
| TooManyMounts
| UnsupportedMissingMount
| InvalidArgv
| UnsafeRequestPath (path : string)
| InvalidFd
| DuplicateFd
| InvalidDigest.
Definition MAX_REQUEST_BYTES : usize := 8 * 1024 * 1024.
Definition MAX_ARG_BYTES : usize := 96 * 1024.

Definition has_nul (s : string) : bool :=
  existsb (fun c => Ascii.eqb c zero) (list_ascii_of_string s).
Definition validate_path (path : string) : unit + RequestError :=
  if negb (is_absolute path) || has_nul path || has_parent_dir path
  then inr (UnsafeRequestPath path) else inl tt.
Fixpoint validate_paths (paths : list string) : unit + RequestError :=
  match paths with
  | [] => inl tt
  | p :: r => match validate_path p with inl _ => validate_paths r | inr e => inr e end
  end.
Definition is_hexdigit (c : ascii) : bool :=
  is_ascii_digit c
  || ((97 <=? byte_code (ascii_lower c))%N && (byte_code (ascii_lower c) <=? 102)%N).

(** The loop over the mounts; [fds] is the set of descriptors so far. *)
Definition mount_fd (fds : list i32) (m : MountRequest) : list i32 + RequestError :=
  match mt_source_fd m with
  | None => inl fds
  | Some fd => if fd <? 3 then inr InvalidFd
               else if bool_decide (fd ∈ fds) then inr DuplicateFd else inl (fd :: fds)
  end.
Definition phase_fd (phase : HelperPhase) (m : MountRequest) : unit + RequestError :=
  match phase with
  | Outer => if bool_decide (is_Some (mt_source_fd m)) || bool_decide (is_Some (mt_expected m))
             then inr InvalidFd else inl tt
  | Inner => if bool_decide (mt_source_fd m = None) || negb (bool_decide (is_Some (mt_expected m)))
             then inr InvalidFd else inl tt
  end.
Fixpoint validate_mounts (phase : HelperPhase) (mounts : list MountRequest) (fds : list i32)
  : unit + RequestError :=
  match mounts with
  | [] => inl tt
  | m :: r =>
      match mt_kind m with
      | MissingProtected => inr UnsupportedMissingMount
      | _ =>
          match validate_paths [mt_source m; mt_target m] with
          | inr e => inr e
          | inl _ =>
              match mount_fd fds m with
              | inr e => inr e
              | inl fds => match phase_fd phase m with
                           | inr e => inr e
                           | inl _ => validate_mounts phase r fds
                           end
              end
          end
      end
  end.
Definition report_fds (self : LinuxSandboxRequest) : list i32 + RequestError :=
  match rq_report_fd self with
  | None => inl []
  | Some fd => match rq_phase self with
               | Outer => if fd <? 5 then inr InvalidFd else inl [fd]
               | Inner => inr InvalidFd
               end
  end.
Definition status_fds (self : LinuxSandboxRequest) (fds : list i32) : list i32 + RequestError :=
  match rq_phase self, rq_status_fd self with
  | Outer, None => inl fds
  | Inner, Some fd => if 3 <=? fd then inl (fd :: fds) else inr InvalidFd
  | _, _ => inr InvalidFd
  end.
Definition bad_glob_snapshot (s : GlobSnapshot) : bool :=
  (MAX_MOUNTS <? len (gs_matches s)) || negb (is_absolute (gs_pattern s))
  || existsb (fun path => negb (is_absolute path)) (gs_matches s).
Definition argv_bytes (argv : list string) : usize :=
  List.fold_left (fun n arg => n + str_len arg) argv 0.
Definition validate (self : LinuxSandboxRequest) : unit + RequestError :=
  if negb (rq_version self =? REQUEST_VERSION) then inr (UnsupportedVersion (rq_version self))
  else match validate_paths [rq_bwrap_path self; rq_cwd self] with
  | inr e => inr e
  | inl _ =>
  if MAX_MOUNTS <? len (rq_mounts self) then inr TooManyMounts
  else if (MAX_MOUNTS <? len (rq_glob_snapshots self))
          || existsb bad_glob_snapshot (rq_glob_snapshots self) then inr TooManyMounts
  else if MAX_MOUNTS <? len (rq_omitted_missing_protected_paths self) then inr TooManyMounts
  else match validate_paths (rq_omitted_missing_protected_paths self) with
  | inr e => inr e
  | inl _ =>
  if is_empty (rq_argv self) || (MAX_ARG_BYTES <? argv_bytes (rq_argv self))
     || existsb has_nul (rq_argv self) then inr InvalidArgv
  else if negb (str_len (rq_policy_digest self) =? 64)
          || negb (forallb is_hexdigit (list_ascii_of_string (rq_policy_digest self))) then inr InvalidDigest
  else match report_fds self with
  | inr e => inr e
  | inl fds =>
      match status_fds self fds with
      | inr e => inr e
      | inl fds => validate_mounts (rq_phase self) (rq_mounts self) fds
      end
  end end end.

(** * The mounts of a plan *)
Definition extend_mounts (mounts : list MountRequest) (paths : list string) (kind : MountKind)
  : list MountRequest :=
  mounts ++ List.map (fun path => mkMount path path kind None None) paths.
Definition plan_mounts (plan : LinuxSandboxPlan) : list MountRequest :=
  let mounts := extend_mounts [] (pl_writable_roots plan) Writable in
  let mounts := extend_mounts mounts (pl_read_only_paths plan) ReadOnly in
  let mounts := extend_mounts mounts (pl_unreadable_paths plan) Unreadable in
  let mounts := extend_mounts mounts (pl_reopened_read_only_paths plan) ReadOnly in
  let mounts := extend_mounts mounts (pl_reopened_paths plan) Writable in
  sort_by_key (fun mount => component_count (mt_target mount)) mounts.

Inductive ShellBackend := PlainBackend | SeatbeltBackend | BubblewrapBackend.
Record PreparedShell := mkShell {
  sh_program : string;
  sh_args : list string;
  sh_backend : ShellBackend;
  sh_policy_digest : option string;
  sh_request : option LinuxSandboxRequest
}.
Inductive ShellError :=
| PlanFailed (error : LinuxSandboxPlanError)
| InvalidProbeReceipt
| CurrentExecutable (error : string)
| InvalidRequest (error : RequestError).

(** The agent's host process: the shell ([unix_shell]), the executable, the
    size of a request as JSON, [Path::metadata] and the displayed version. *)
Record Inode := mkInode { in_is_file : bool; in_is_dir : bool; in_dev : u64; in_ino : u64 }.
Class ShellHost := {
  unix_shell : string;
  current_exe : string + string;
  VERSION : string;
  request_json_len : LinuxSandboxRequest -> usize + string;
  inode_of : string -> Inode + string;
  platform_backend_receipt : SandboxBackendReceipt
}.

(** * Tiers and policies *)
Inductive SandboxTier := Off | Manual | Sandbox.
#[export] Instance SandboxTier_eq_dec : EqDecision SandboxTier.
Proof. solve_decision. Defined.
Definition tier_parse (value : string) : SandboxTier :=
  if value =?s "off" then Off else if value =?s "sandbox" then Sandbox else Manual.
Definition tier_as_str (self : SandboxTier) : string :=
  match self with Off => "off" | Manual => "manual" | Sandbox => "sandbox" end.
Record SandboxPolicy := mkPolicy { sp_tier : SandboxTier; sp_model_reviewer : bool }.
Definition policy_from_mode (mode : string) : SandboxPolicy :=
  {| sp_tier := tier_parse (if mode =?s "auto" then "sandbox" else mode);
     sp_model_reviewer := mode =?s "auto" |}.
Definition policy_mode (self : SandboxPolicy) : string :=
  if sp_model_reviewer self then "auto" else tier_as_str (sp_tier self).
Definition effective_tier (requested : SandboxTier) (receipt : SandboxBackendReceipt) : SandboxTier :=
  if bool_decide (requested = Sandbox) && negb (receipt_is_available receipt) then Manual else requested.

Section Sandbox.
Context `{SandboxHost} `{RuleLib} `{ScanHost} `{DigestLib} `{ShellHost}.

Definition shell_invocation (command : string) : string * list string := (unix_shell, ["-c"; command]).
Definition plain (command : string) : PreparedShell :=
  let '(program, args) := shell_invocation command in
  mkShell program args PlainBackend None None.
Definition shell_argv (command : string) : list string :=
  let '(program, args) := shell_invocation command in program :: args.

(** [executable.file_stem()]: the last component up to its last dot, unless
    the dot leads. *)
Fixpoint before_last_dot (s : string) : option string :=
  match s with
  | EmptyString => None
  | String c r =>
      match before_last_dot r with
      | Some stem => Some (String c stem)
      | None => if Ascii.eqb c "." then Some "" else None
      end
  end.
Definition file_stem (path : string) : option string :=
  match last (components path) with
  | Some (Normal name) =>
      Some (match before_last_dot name with Some (String _ _ as stem) => stem | _ => name end)
  | _ => None
  end.
Definition helper_args (executable encoded : string) : list string :=
  let is_unified := is_some_and (file_stem executable)
                      (fun name => to_ascii_lowercase name =?s "future") in
  (if is_unified then ["agent"] else [])
  ++ ["--linux-sandbox-helper"; encoded; "--linux-sandbox-host-version"; VERSION].

(** [LinuxSandboxRequest::to_json_bytes] *)
Definition to_json_bytes (request : LinuxSandboxRequest) : unit + RequestError :=
  match validate request with
  | inr e => inr e
  | inl _ => match request_json_len request with
             | inr e => inr (InvalidJson e)
             | inl n => if MAX_REQUEST_BYTES <? n then inr TooLarge else inl tt
             end
  end.
Definition probe_capability (probe : LinuxSandboxProbe) (f : LinuxSandboxCapabilities -> bool) : bool :=
  is_some_and (pb_capabilities probe) f.
Definition plan_request (bwrap_path : string) (ident : BwrapIdentity) (plan : LinuxSandboxPlan)
    (command cwd : string) : LinuxSandboxRequest :=
  {| rq_version := REQUEST_VERSION;
     rq_phase := Outer;
     rq_bwrap_path := bwrap_path;
     rq_bwrap_identity := ident;
     rq_cwd := cwd;
     rq_argv := shell_argv command;
     rq_mounts := plan_mounts plan;
     rq_glob_snapshots := pl_glob_snapshots plan;
     rq_omitted_missing_protected_paths := pl_omitted_missing_protected_paths plan;
     rq_policy_digest := pl_policy_digest plan;
     rq_status_fd := None;
     rq_report_fd := None |}.
(** [runner::prepare] *)
Definition runner_prepare (probe : LinuxSandboxProbe) (plan : LinuxSandboxPlan) (command cwd : string)
  : PreparedShell + ShellError :=
  match pb_path probe, pb_identity probe with
  | Some bwrap_path, Some ident =>
      if negb (pb_available probe) || negb (probe_capability probe cap_write_protection)
         || (negb (is_empty (pl_unreadable_paths plan)) && negb (probe_capability probe cap_read_protection))
      then inr InvalidProbeReceipt
      else
        let request := plan_request bwrap_path ident plan command cwd in
        match to_json_bytes request with
        | inr e => inr (InvalidRequest e)
        | inl _ =>
            match current_exe with
            | inr e => inr (CurrentExecutable e)
            | inl executable =>
                inl (mkShell executable (helper_args executable "fd:3") BubblewrapBackend
                       (Some (pl_policy_digest plan)) (Some request))
            end
        end
  | _, _ => inr InvalidProbeReceipt
  end.

(** * The resolved sandbox *)
Record ResolvedSandbox := mkSandbox {
  sb_tier : SandboxTier;
  sb_backend_receipt : SandboxBackendReceipt;
  sb_workspace : string;
  sb_rules : RuleSet
}.
#[export] Instance eta_sandbox : Eta ResolvedSandbox := fun s =>
  mkSandbox (sb_tier s) (sb_backend_receipt s) (sb_workspace s) (sb_rules s).
Definition sandbox_of (policy : SandboxPolicy) (rules : RuleSet) : ResolvedSandbox :=
  let backend_receipt := platform_backend_receipt in
  {| sb_tier := effective_tier (sp_tier policy) backend_receipt;
     sb_backend_receipt := backend_receipt;
     sb_workspace := rs_workspace rules;
     sb_rules := rules |}.
Definition sandbox_resolve (st : SessionStore) (policy : SandboxPolicy) (workspace : string)
  : SessionStore * ResolvedSandbox :=
  let '(st, rules) := resolve st workspace in (st, sandbox_of policy rules).
Definition sandbox_resolve_with_session (policy : SandboxPolicy) (workspace : string)
    (session : SessionRules) : ResolvedSandbox :=
  sandbox_of policy (resolve_with_session workspace session).
Definition disabled (st : SessionStore) (workspace : string) : SessionStore * ResolvedSandbox :=
  let '(st, rules) := resolve st workspace in
  (st, mkSandbox Off BackendUnavailable (rs_workspace rules) rules).
Definition enabled (self : ResolvedSandbox) : bool := negb (bool_decide (sb_tier self = Off)).
Definition wraps_shell (self : ResolvedSandbox) : bool :=
  bool_decide (sb_tier self = Sandbox) && receipt_is_available (sb_backend_receipt self).
Definition shell_needs_approval (self : ResolvedSandbox) : bool := enabled self && negb (wraps_shell self).
Definition sandbox_is_secret_path (self : ResolvedSandbox) (path : string) : bool :=
  is_secret_path (sb_rules self) (canonicalize_lenient path).
Definition sandbox_evaluate (st : SessionStore) (self : ResolvedSandbox) (path : string) (op : Op)
  : Decision :=
  if negb (enabled self) then Allow
  else evaluate st (sb_rules self) (canonicalize_lenient path) op.
Definition write_allowed (st : SessionStore) (self : ResolvedSandbox) (candidate : string) : bool :=
  is_allow (sandbox_evaluate st self (resolve_against (sb_workspace self) candidate) OpWrite).
Definition add_session_allow (st : SessionStore) (self : ResolvedSandbox) (abs_pattern : string) (op : Op)
  : SessionStore * bool :=
  add_session_rule st (sb_rules self) abs_pattern
    (match op with OpRead => Read | OpWrite => Write end) Allow.
Definition linux_read_protection (self : ResolvedSandbox) : bool :=
  match sb_backend_receipt self with
  | LinuxBubblewrap probe => probe_capability probe cap_read_protection
  | _ => false
  end.
(** [prepare_shell_for_cwd]: the Linux branch. *)
Definition prepare_shell_for_cwd (st : SessionStore) (self : ResolvedSandbox) (command : string)
    (escalated : bool) (cwd : string) : PreparedShell + ShellError :=
  if negb escalated && wraps_shell self then
    match sb_backend_receipt self with
    | LinuxBubblewrap probe =>
        match compile_with_read_protection (snapshot st (sb_rules self)) (linux_read_protection self) with
        | inr e => inr (PlanFailed e)
        | inl plan => runner_prepare probe plan command cwd
        end
    | _ => inl (plain command)
    end
  else inl (plain command).

(** * Single-command file permissions *)
Record WritePermissionRequest := mkPermission {
  wr_path : string; wr_scope : WriteScope; wr_reason : string
}.
Record AdditionalPermissions := mkPermissions {
  ad_read : list WritePermissionRequest; ad_write : list WritePermissionRequest
}.
Record PermissionBinding := mkBinding {
  bd_command_hash : string;
  bd_cwd : string;
  bd_policy_digest : string;
  bd_identities : list (u64 * u64);
  bd_targets : list FileTarget
}.
Record PreparedPermissions := mkPrepared {
  pm_binding : PermissionBinding; pm_targets : list FileTarget; pm_sandbox : ResolvedSandbox
}.
Record ApprovedPermissions := mkApproved {
  ap_request_id : string; ap_invocation_id : string; ap_binding : PermissionBinding
}.
Definition same_target (a b : FileTarget) : bool :=
  path_eq (ft_path a) (ft_path b) && bool_decide (ft_scope a = ft_scope b)
  && bool_decide (ft_access a = ft_access b).
Definition needs_approval (self : PreparedPermissions) : bool := negb (is_empty (pm_targets self)).
Definition approved_receipt (self : PreparedPermissions) (request_id invocation_id : string)
  : ApprovedPermissions := mkApproved request_id invocation_id (pm_binding self).
Definition list_same {A} (same : A -> A -> bool) (l k : list A) : bool :=
  bool_decide (List.length l = List.length k) && forallb (fun '(a, b) => same a b) (List.combine l k).
Definition same_binding (a b : PermissionBinding) : bool :=
  (bd_command_hash a =?s bd_command_hash b) && path_eq (bd_cwd a) (bd_cwd b)
  && (bd_policy_digest a =?s bd_policy_digest b)
  && bool_decide (bd_identities a = bd_identities b)
  && list_same same_target (bd_targets a) (bd_targets b).
Definition receipt_matches (self : PreparedPermissions) (receipt : ApprovedPermissions) : bool :=
  negb (ap_request_id receipt =?s "") && same_binding (pm_binding self) (ap_binding receipt).

Definition MAX_REASON_CHARS : usize := 240.
Definition parent_is_none (path : string) : bool :=
  match last (components path) with None | Some RootDir => true | _ => false end.
Definition forbidden_char (c : ascii) : bool :=
  Ascii.eqb c zero || bool_decide (c ∈ ["*"; "?"; "["; "]"]%char).
(** One round of the loop over the requests: what is refused, what needs no
    grant, and the target to ask for. *)
Definition resolve_target (st : SessionStore) (sandbox : ResolvedSandbox) (home : option string)
    (access : Access) (op : Op) (request : WritePermissionRequest)
  : option (FileTarget * (u64 * u64)) + string :=
  if is_blank (wr_path request) || existsb forbidden_char (list_ascii_of_string (wr_path request))
  then inr "file permission path must be a nonempty literal path without wildcards"
  else if is_blank (wr_reason request) || (MAX_REASON_CHARS <? Z.of_nat (char_count (wr_reason request)))
  then inr "file permission reason must contain 1..240 characters"
  else
    match canonicalize_existing (resolve_against (sb_workspace sandbox) (wr_path request)) with
    | None => inr ("permission target must exist: " +:+ wr_path request
                   +:+ ". To create a file, request subtree access to its existing parent directory")
    | Some path =>
        if parent_is_none path || is_some_and home (fun home => path_eq home path)
        then inr "filesystem and home roots cannot be granted"
        else
          match inode_of path with
          | inr e => inr e
          | inl inode =>
              if match wr_scope request with File => negb (in_is_file inode) | SubtreeScope => false end
              then inr "file scope requires an existing regular file"
              else if match wr_scope request with SubtreeScope => negb (in_is_dir inode) | File => false end
              then inr "subtree scope requires an existing directory"
              else if explicitly_denied st (sb_rules sandbox) path op
              then inr ("file permission is denied by policy: " +:+ path)
              else match sandbox_evaluate st sandbox path op with
                   | Deny => inr ("file permission is denied by policy: " +:+ path)
                   | Allow => inl None
                   | Ask => inl (Some (mkFileTarget path (wr_scope request) access,
                                       (in_dev inode, in_ino inode)))
                   end
          end
    end.
Fixpoint resolve_targets (st : SessionStore) (sandbox : ResolvedSandbox) (home : option string)
    (requests : list (WritePermissionRequest * (Access * Op)))
    (targets : list FileTarget) (identities : list (u64 * u64))
  : (list FileTarget * list (u64 * u64)) + string :=
  match requests with
  | [] => inl (targets, identities)
  | (request, (access, op)) :: r =>
      match resolve_target st sandbox home access op request with
      | inr e => inr e
      | inl None => resolve_targets st sandbox home r targets identities
      | inl (Some (target, inode)) =>
          if existsb (same_target target) targets then resolve_targets st sandbox home r targets identities
          else if existsb (fun other => path_eq (ft_path other) (ft_path target)
                                        && negb (bool_decide (ft_scope other = ft_scope target))) targets
          then inr "conflicting file permission scopes"
          else resolve_targets st sandbox home r (targets ++ [target]) (identities ++ [inode])
      end
  end.
Definition plan_error_text (e : LinuxSandboxPlanError) : string :=
  match e with
  | RuleLayerUnavailable error => "approval rule layer could not be loaded: " +:+ error
  | UnsafePath path => "sandbox rule contains an unsafe path: " +:+ path
  | UnsupportedMatcher pattern => "sandbox rule matcher is unsupported: " +:+ pattern
  | GlobScanFailed e =>
      se_code e +:+ ": phase=" +:+ se_phase e +:+ ", root=" +:+ se_root e +:+ ", pattern="
      +:+ se_pattern e +:+ ", visited=" +:+ show (se_visited e) +:+ ", matches=" +:+ show (se_matches e)
      +:+ ", elapsed_ms=" +:+ show (se_elapsed_ms e) +:+ "; " +:+ se_detail e
  | MountLimit => "sandbox mount plan exceeds the bounded helper request limit"
  | UnsupportedAccessCombination path =>
      "sandbox rule combination cannot be enforced safely at " +:+ path
  | MissingReopen path => "sandbox cannot reopen a protected path that does not exist: " +:+ path
  | PathInspection path detail => "sandbox path inspection failed at " +:+ path +:+ ": " +:+ detail
  | PolicySerialization error => "sandbox policy could not be serialized: " +:+ error
  end.
(** [file_request::prepare] on Linux; the store holds the frozen session
    rules after it. *)
Definition permissions_prepare (st : SessionStore) (sandbox : ResolvedSandbox) (command : string)
    (permissions : AdditionalPermissions) : SessionStore * (PreparedPermissions + string) :=
  if negb (wraps_shell sandbox)
  then (st, inr "additional_permissions requires an active OS sandbox; use a normal command for the current approval tier")
  else
    let '(st, rules) := with_execution_grants st (sb_rules sandbox) [] in
    let sandbox := sandbox <| sb_rules := rules |> in
    let snapshot := SandboxRules.snapshot st rules in
    match ss_resolution_errors snapshot with
    | error :: _ => (st, inr ("approval rule layer could not be loaded: " +:+ error))
    | [] =>
    if 8 <? len (ad_read permissions) + len (ad_write permissions)
    then (st, inr "additional_permissions accepts at most 8 file targets in total")
    else
      let home := option_map canonicalize_lenient home_dir_opt in
      let requests := List.map (fun r => (r, (Read, OpRead))) (ad_read permissions)
                      ++ List.map (fun r => (r, (Write, OpWrite))) (ad_write permissions) in
      match resolve_targets st sandbox home requests [] [] with
      | inr e => (st, inr e)
      | inl (targets, identities) =>
          match policy_digest snapshot with
          | inr e => (st, inr (plan_error_text e))
          | inl digest =>
              let '(st, granted) := with_execution_grants st rules targets in
              let binding := mkBinding (sha256_hex command) (sb_workspace sandbox) digest identities targets in
              let prepared := mkPrepared binding targets (sandbox <| sb_rules := granted |>) in
              match compile_with_read_protection (SandboxRules.snapshot st granted)
                      (linux_read_protection sandbox) with
              | inr e => (st, inr (plan_error_text e))
              | inl plan =>
                  if existsb (fun target =>
                       existsb (fun root => negb (path_eq root (ft_path target))
                                            && path_within (ft_path target) root)
                         (pl_unreadable_paths plan)) targets
                  then (st, inr "Linux cannot grant a child path inside an unreadable directory with this mount backend; use the approved read/write/edit tool for the specific file")
                  else (st, inl prepared)
              end
          end
      end
    end.
End Sandbox.
