(* ===== verification/GlobProps.v ===== *)
(** Globs: what a pattern means, and that the three matchers of the sandbox
    agree on it: the regular expression of the rule engine
    ([build_glob_regex]), the memoised matcher of the mount plan
    ([glob_matches]) and the expression of the pre-launch scan
    ([scan_compile_matcher]).  The [regex] crate is a hypothesis: what its
    documentation says of the fragment these sources write, with a concrete
    instance. *)
From S2P Require Import Prelude WorkspaceGuard SandboxPaths SandboxRules GlobScan SandboxPlan.

(** * What a glob means *)
Inductive GlobAtom := Char (c : string) | OneChar | InSegment | Across.
#[export] Instance GlobAtom_eq_dec : EqDecision GlobAtom.
Proof. solve_decision. Defined.
Fixpoint glob_atoms (cs : list string) : list GlobAtom :=
  match cs with
  | [] => []
  | c :: r =>
      if c =?s "*" then
        match r with
        | d :: r2 =>
            if d =?s "*" then
              Across :: match r2 with
                        | e :: r3 => if e =?s "/" then glob_atoms r3 else glob_atoms r2
                        | [] => []
                        end
            else InSegment :: glob_atoms r
        | [] => [InSegment]
        end
      else if c =?s "?" then OneChar :: glob_atoms r
      else Char c :: glob_atoms r
  end.
Inductive glob_spec : list GlobAtom -> list string -> Prop :=
| gs_nil : glob_spec [] []
| gs_char c a v : glob_spec a v -> glob_spec (Char c :: a) (c :: v)
| gs_one c a v : c <> "/" -> glob_spec a v -> glob_spec (OneChar :: a) (c :: v)
| gs_segment_end a v : glob_spec a v -> glob_spec (InSegment :: a) v
| gs_segment_more c a v : c <> "/" -> glob_spec (InSegment :: a) v -> glob_spec (InSegment :: a) (c :: v)
| gs_across_end a v : glob_spec a v -> glob_spec (Across :: a) v
| gs_across_more c a v : glob_spec (Across :: a) v -> glob_spec (Across :: a) (c :: v).
Create HintDb glob_db.
#[export] Hint Constructors glob_spec : glob_db.

(** The meaning, decided. *)
Fixpoint glob_specb (a : list GlobAtom) : list string -> bool :=
  match a with
  | [] => is_empty
  | Char c :: a => fun v => match v with d :: v => (c =?s d) && glob_specb a v | [] => false end
  | OneChar :: a => fun v => match v with d :: v => negb (d =?s "/") && glob_specb a v | [] => false end
  | InSegment :: a =>
      fix go v := glob_specb a v || match v with d :: v => negb (d =?s "/") && go v | [] => false end
  | Across :: a =>
      fix go v := glob_specb a v || match v with _ :: v => go v | [] => false end
  end.
Lemma glob_specb_segment a v : glob_specb (InSegment :: a) v
  = glob_specb a v || match v with d :: v => negb (d =?s "/") && glob_specb (InSegment :: a) v | [] => false end.
Proof. by destruct v. Qed.
Lemma glob_specb_across a v : glob_specb (Across :: a) v
  = glob_specb a v || match v with _ :: v => glob_specb (Across :: a) v | [] => false end.
Proof. by destruct v. Qed.
Lemma glob_specb_spec a : forall v, glob_specb a v = true <-> glob_spec a v.
Proof.
  induction a as [|x a IH]; intros v.
  - destruct v; split; intros E; (constructor || done || inversion E).
  - destruct x.
    + destruct v; cbn; [split; [done|inversion 1]|]. rewrite andb_true_iff, String.eqb_eq, IH.
      split; [intros [<- ?]; eauto with glob_db|inversion 1; auto].
    + destruct v; cbn; [split; [done|inversion 1]|].
      rewrite andb_true_iff, negb_true_iff, String.eqb_neq, IH.
      split; [intros []; eauto with glob_db|inversion 1; auto].
    + induction v as [|d v IHv]; rewrite glob_specb_segment.
      * rewrite orb_false_r, IH. split; [eauto with glob_db|inversion 1; auto].
      * rewrite orb_true_iff, andb_true_iff, negb_true_iff, String.eqb_neq, IH, IHv.
        split; [intros [|[]]; eauto with glob_db|inversion 1; auto].
    + induction v as [|d v IHv]; rewrite glob_specb_across.
      * rewrite orb_false_r, IH. split; [eauto with glob_db|inversion 1; auto].
      * rewrite orb_true_iff, IH, IHv. split; [intros []; eauto with glob_db|inversion 1; auto].
Qed.

(** * The memoised matcher *)
Section Memoised.
Variables p v : list string.
(** What a call at two positions is about. *)
Definition rest_matches (pi vi : nat) : bool := glob_specb (glob_atoms (drop pi p)) (drop vi v).
Definition memo_ok (m : Memo) : Prop := forall pi vi r, m !! (pi, vi) = Some r -> r = rest_matches pi vi.
Definition gives (b : bool) (f : Memo -> bool * Memo) : Prop :=
  forall m, memo_ok m -> fst (f m) = b /\ memo_ok (snd (f m)).

Lemma gives_or a b f g : gives a f -> (a = false -> gives b g) -> gives (a || b) (memo_or f g).
Proof.
  intros Hf Hg m Hm. unfold memo_or. destruct (Hf m Hm) as [E Ok]. destruct (f m) as [r m']. cbn in *. subst.
  destruct a; [by split|]. by apply Hg.
Qed.
Lemma gives_and (g : bool) b f : (g = true -> gives b f) -> gives (g && b) (memo_and g f).
Proof. intros Hf m Hm. unfold memo_and. destruct g; [by apply Hf|by split]. Qed.

Lemma drop_at {A} (l : list A) i x : l !! i = Some x -> drop i l = x :: drop (S i) l.
Proof. intros Hx. by rewrite (drop_S l x i Hx). Qed.
Lemma at_more vi : (vi < List.length v)%nat -> drop vi v = char_at v vi :: drop (S vi) v.
Proof.
  intros Hv. destruct (lookup_lt_is_Some_2 v vi Hv) as [x Hx].
  rewrite (drop_at _ _ _ Hx). unfold char_at. by rewrite Hx.
Qed.
End Memoised.
Arguments at_more : clear implicits.

(** The equation of a call, without the table. *)
Definition step_value (p v : list string) (pi vi : nat) : bool :=
  let more := (vi <? List.length v)%nat in
  if (pi =? List.length p)%nat then (vi =? List.length v)%nat
  else if char_at p pi =?s "*" then
    if (pi + 1 <? List.length p)%nat && (char_at p (pi + 1) =?s "*") then
      let next := if (pi + 2 <? List.length p)%nat && (char_at p (pi + 2) =?s "/")
                  then (pi + 3)%nat else (pi + 2)%nat in
      rest_matches p v next vi || (more && rest_matches p v pi (vi + 1))
    else rest_matches p v (pi + 1) vi
         || (more && negb (char_at v vi =?s "/") && rest_matches p v pi (vi + 1))
  else if char_at p pi =?s "?" then
    more && negb (char_at v vi =?s "/") && rest_matches p v (pi + 1) (vi + 1)
  else more && (char_at p pi =?s char_at v vi) && rest_matches p v (pi + 1) (vi + 1).
Lemma rest_more (v : list string) vi : drop vi v = (if (vi <? List.length v)%nat then char_at v vi :: drop (vi + 1) v else []).
Proof.
  destruct (Nat.ltb_spec vi (List.length v)) as [Hv|Hv]; [|by apply drop_ge].
  rewrite Nat.add_1_r. by apply at_more.
Qed.
(** The atoms from a position on. *)
Lemma glob_atoms_at p pi : (pi < List.length p)%nat ->
  glob_atoms (drop pi p)
  = if char_at p pi =?s "*" then
      if (pi + 1 <? List.length p)%nat && (char_at p (pi + 1) =?s "*") then
        Across :: glob_atoms (drop (if (pi + 2 <? List.length p)%nat && (char_at p (pi + 2) =?s "/")
                                    then pi + 3 else pi + 2)%nat p)
      else InSegment :: glob_atoms (drop (pi + 1) p)
    else (if char_at p pi =?s "?" then OneChar else Char (char_at p pi)) :: glob_atoms (drop (pi + 1) p).
Proof.
  intros Hp. rewrite (rest_more p pi), (proj2 (Nat.ltb_lt _ _) Hp). cbn [glob_atoms].
  destruct (char_at p pi =?s "*"); [|by destruct (char_at p pi =?s "?")].
  rewrite (rest_more p (pi + 1)). destruct (pi + 1 <? List.length p)%nat; [|done]. cbn [andb].
  destruct (char_at p (pi + 1) =?s "*"); [|done]. f_equal.
  replace (pi + 1 + 1)%nat with (pi + 2)%nat by lia.
  destruct (pi + 2 <? List.length p)%nat eqn:L; cbn [andb];
    rewrite (rest_more p (pi + 2)), L; [|done].
  replace (pi + 2 + 1)%nat with (pi + 3)%nat by lia.
  destruct (char_at p (pi + 2) =?s "/"); [done|].
  rewrite (rest_more p (pi + 2)), L. by replace (pi + 2 + 1)%nat with (pi + 3)%nat by lia.
Qed.
Lemma step_value_ok p v pi vi : (pi <= List.length p)%nat -> (vi <= List.length v)%nat ->
  step_value p v pi vi = rest_matches p v pi vi.
Proof.
  intros Hp Hv. unfold step_value. destruct (Nat.eqb_spec pi (List.length p)) as [->|Hne].
  - unfold rest_matches. rewrite drop_all. destruct (Nat.eqb_spec vi (List.length v)) as [->|Hvi].
    + by rewrite drop_all.
    + by rewrite at_more by lia.
  - unfold rest_matches. rewrite (glob_atoms_at p pi) by lia.
    destruct (char_at p pi =?s "*"); [destruct (_ && (char_at p (pi + 1) =?s "*"))|].
    + rewrite (glob_specb_across _ (drop vi v)), (rest_more v vi). by destruct (vi <? List.length v)%nat.
    + rewrite (glob_specb_segment _ (drop vi v)), (rest_more v vi).
      destruct (vi <? List.length v)%nat; [|done]. by rewrite andb_true_l.
    + rewrite (rest_more v vi).
      destruct (char_at p pi =?s "?"); cbn [glob_specb]; by destruct (vi <? List.length v)%nat.
Qed.

Lemma matches_from_gives p v fuel : forall pi vi,
  (pi <= List.length p)%nat -> (vi <= List.length v)%nat ->
  (List.length p - pi + (List.length v - vi) < fuel)%nat ->
  gives p v (rest_matches p v pi vi) (matches_from p v fuel pi vi).
Proof.
  induction fuel as [|fuel IH]; intros pi vi Hp Hv Hf m Hm; [lia|]. cbn [matches_from].
  destruct (m !! (pi, vi)) as [r|] eqn:E; [split; [by apply Hm|done]|].
  match goal with |- context [let '(_, _) := ?b in _] => set (body := b) end.
  assert (Hb : fst body = rest_matches p v pi vi /\ memo_ok p v (snd body)).
  { rewrite <- step_value_ok by done. unfold body, step_value. clear body. revert m Hm E.
    destruct (Nat.eqb_spec pi (List.length p)); [by split|].
    destruct (char_at p pi =?s "*"); [destruct (_ && (char_at p (pi + 1) =?s "*")) eqn:E2|].
    all: intros m Hm _; revert m Hm.
    - destruct (_ && (char_at p (pi + 2) =?s "/")) eqn:E3;
        bool_prop; repeat match goal with X : (_ <? _)%nat = true |- _ => apply Nat.ltb_lt in X end;
        (apply gives_or; [apply IH; lia|intros _; apply gives_and; intros ?%Nat.ltb_lt; apply IH; lia]).
    - apply gives_or; [apply IH; lia|intros _]. apply gives_and. intros [Hl%Nat.ltb_lt _]%andb_true_iff.
      apply IH; lia.
    - destruct (char_at p pi =?s "?"); apply gives_and;
        intros [Hl%Nat.ltb_lt _]%andb_true_iff; apply IH; lia. }
  destruct body as [r m']. cbn [fst snd] in *. destruct Hb as [-> Ok]. split; [done|].
  intros pi' vi' r'. destruct (decide ((pi', vi') = (pi, vi))) as [[= -> ->]|Hne].
  - unfold Memo in *. rewrite lookup_insert_eq. by intros [= <-].
  - unfold Memo in *. rewrite lookup_insert_ne by congruence. apply Ok.
Qed.

(** The matcher of the mount plan decides the glob, whatever the table holds on
    the way, and the fuel is enough. *)
Lemma glob_matches_specb pattern path :
  glob_matches pattern path = glob_specb (glob_atoms (chars pattern)) (chars path).
Proof.
  unfold glob_matches.
  destruct (matches_from_gives (chars pattern) (chars path)
              (S (List.length (chars pattern) + List.length (chars path))) 0 0
              ltac:(lia) ltac:(lia) ltac:(lia) ∅) as [-> _]; [|done].
  intros ? ? ? [=].
Qed.

(** * Regular expressions

    The fragment the sources write, with its usual meaning on characters. *)
Inductive Re :=
| RLit (c : string)
| RNotSlash
| RDot
| RAny
| RAlt (a b : Re)
| RStar (a : Re).
Inductive in_re : Re -> list string -> Prop :=
| ir_lit c : in_re (RLit c) [c]
| ir_not_slash c : c <> "/" -> in_re RNotSlash [c]
| ir_dot c : c <> newline -> in_re RDot [c]
| ir_any c : in_re RAny [c]
| ir_left a b v : in_re a v -> in_re (RAlt a b) v
| ir_right a b v : in_re b v -> in_re (RAlt a b) v
| ir_stop a : in_re (RStar a) []
| ir_again a u v : in_re a u -> in_re (RStar a) v -> in_re (RStar a) (u ++ v).
Inductive in_seq : list Re -> list string -> Prop :=
| is_nil : in_seq [] []
| is_cons r rs u v : in_re r u -> in_seq rs v -> in_seq (r :: rs) (u ++ v).
#[export] Hint Constructors in_re in_seq : glob_db.

(** Concrete syntax: what [build_glob_regex] and [scan_compile_matcher] write. *)
Definition across_re : Re := RStar (RAlt RDot (RLit newline)).
Definition engine_re (a : GlobAtom) : Re :=
  match a with
  | Char c => RLit c
  | OneChar => RNotSlash
  | InSegment => RStar RNotSlash
  | Across => across_re
  end.
Definition scan_re (a : GlobAtom) : Re :=
  match a with Across => RStar RAny | a => engine_re a end.
Fixpoint re_text (escape : string -> string) (r : Re) : string :=
  match r with
  | RLit c => escape c
  | RNotSlash => "[^/]"
  | RDot => "."
  | RAny => "(?s:.)"
  | RAlt a b => "(" +:+ re_text escape a +:+ "|" +:+ re_text escape b +:+ ")"
  | RStar RAny => "(?s:.*)"
  | RStar a => re_text escape a +:+ "*"
  end.
Definition seq_text (escape : string -> string) (rs : list Re) : string :=
  of_chars (List.map (re_text escape) rs).
Definition backslash_escape (c : string) : string := if regex_meta c then "\" +:+ c else c.

(** One UTF-8 character. *)
Definition is_char (c : string) : bool :=
  match c with
  | EmptyString => false
  | String b r => negb (is_continuation b) && forallb is_continuation (list_ascii_of_string r)
  end.
Definition utf8 (s : string) : bool := forallb is_char (chars s).
Definition plain_char (c : string) : bool := is_char c && negb (c =?s "*") && negb (c =?s "?").
Definition plain_atom (a : GlobAtom) : bool := match a with Char c => plain_char c | _ => true end.

(** What the [regex] crate documents of these expressions: an anchored
    sequence matches the texts of its language. *)
Class RegexLaws `{RuleLib} := {
  build_law : forall atoms s, forallb plain_atom atoms = true ->
    is_match (regex_build ("^" +:+ seq_text backslash_escape (List.map engine_re atoms) +:+ "$")) s = true
    <-> in_seq (List.map engine_re atoms) (chars s);
  new_law : forall atoms, forallb plain_atom atoms = true ->
    exists re, regex_new ("\A" +:+ seq_text regex_escape (List.map scan_re atoms) +:+ "\z") = inl re
      /\ forall s, is_match re s = true <-> in_seq (List.map scan_re atoms) (chars s)
}.

(** ** The expressions written denote the glob *)
Lemma star_class (r : Re) (P : string -> Prop) : (forall v, in_re r v <-> exists c, v = [c] /\ P c) ->
  forall v, in_re (RStar r) v <-> Forall P v.
Proof.
  intros Hr v. split.
  - remember (RStar r) as s eqn:Es. induction 1 as [| | | | | | |a u v Hu _ Hv IH]; try done.
    injection Es as ->. apply Hr in Hu as (c & -> & Hc). cbn. constructor; [done|]. by apply IH.
  - induction 1 as [|c v Hc _ IH]; [constructor|].
    change (c :: v) with ([c] ++ v). constructor; [apply Hr; eauto|done].
Qed.
Lemma across_re_all v : in_re across_re v.
Proof.
  apply (star_class _ (fun _ => True)); [|by apply Forall_true].
  intros u. split.
  - intros Hu. inversion Hu as [| | | |? ? ? Ha|? ? ? Ha| |]; inversion Ha; eauto.
  - intros (c & -> & _). destruct (decide (c = newline)) as [->|]; eauto with glob_db.
Qed.
Lemma star_any_all v : in_re (RStar RAny) v.
Proof.
  apply (star_class _ (fun _ => True)); [|by apply Forall_true].
  intros u. split; [inversion 1; eauto|]. intros (c & -> & _). constructor.
Qed.
Lemma segment_re v : in_re (RStar RNotSlash) v <-> Forall (fun c => c <> "/") v.
Proof.
  apply star_class. intros u. split; [inversion 1; eauto|]. intros (c & -> & ?). by constructor.
Qed.
Lemma in_seq_cons_iff r rs v : in_seq (r :: rs) v <-> exists u w, v = u ++ w /\ in_re r u /\ in_seq rs w.
Proof. split; [inversion 1; eauto 6|]. intros (u & w & -> & ? & ?). by constructor. Qed.

Lemma spec_segment_iff a v : glob_spec (InSegment :: a) v
  <-> exists u w, v = u ++ w /\ Forall (fun c => c <> "/") u /\ glob_spec a w.
Proof.
  split.
  - remember (InSegment :: a) as s eqn:Es. induction 1 as [| | |a' v' Hw _|c a' v' Hc Hw IH| |]; try done.
    + injection Es as ->. exists [], v'. auto.
    + injection Es as ->. destruct (IH eq_refl) as (u & w & -> & Hu & Hw').
      exists (c :: u), w. eauto.
  - intros (u & w & -> & Hu & Hw). induction Hu; cbn; eauto with glob_db.
Qed.
Lemma spec_across_iff a v : glob_spec (Across :: a) v <-> exists u w, v = u ++ w /\ glob_spec a w.
Proof.
  split.
  - remember (Across :: a) as s eqn:Es. induction 1 as [| | | | |a' v' Hw _|c a' v' Hw IH]; try done.
    + injection Es as ->. exists [], v'. auto.
    + injection Es as ->. destruct (IH eq_refl) as (u & w & -> & Hw'). exists (c :: u), w. eauto.
  - intros (u & w & -> & Hw). induction u; cbn; eauto with glob_db.
Qed.
Lemma seq_of_glob (re : GlobAtom -> Re) :
  (forall c, re (Char c) = RLit c) -> re OneChar = RNotSlash -> re InSegment = RStar RNotSlash ->
  (forall v, in_re (re Across) v) ->
  forall a v, in_seq (List.map re a) v <-> glob_spec a v.
Proof.
  intros Hc H1 Hs Ha. induction a as [|x a IH]; intros v.
  - split; inversion 1; constructor.
  - cbn [List.map]. rewrite in_seq_cons_iff. setoid_rewrite IH. destruct x as [c| | |].
    + rewrite Hc. split.
      * intros (u & w & -> & Hu & Hw). inversion Hu. by constructor.
      * inversion 1; subst. eexists [c], _. eauto with glob_db.
    + rewrite H1. split.
      * intros (u & w & -> & Hu & Hw). inversion Hu. by constructor.
      * inversion 1; subst. eexists [_], _. eauto with glob_db.
    + rewrite Hs, spec_segment_iff. by setoid_rewrite segment_re.
    + rewrite spec_across_iff. naive_solver.
Qed.
Lemma engine_seq a v : in_seq (List.map engine_re a) v <-> glob_spec a v.
Proof. apply seq_of_glob; [done..|apply across_re_all]. Qed.
Lemma scan_seq a v : in_seq (List.map scan_re a) v <-> glob_spec a v.
Proof. apply seq_of_glob; [done..|apply star_any_all]. Qed.

(** ** The text the loops write is the text of these expressions *)
Lemma of_chars_cons x l : of_chars (x :: l) = x +:+ of_chars l.
Proof. destruct l; [symmetry; apply append_nil_r|done]. Qed.
Lemma seq_text_cons escape r rs : seq_text escape (r :: rs) = re_text escape r +:+ seq_text escape rs.
Proof. unfold seq_text. cbn [List.map]. apply of_chars_cons. Qed.

(** Induction for the loops, which consume up to three characters a round. *)
Lemma glob_ind (P : list string -> Prop) :
  P [] ->
  (forall c r, (c =?s "*") = false -> P r -> P (c :: r)) ->
  P ["*"] ->
  (forall d r, (d =?s "*") = false -> P (d :: r) -> P ("*" :: d :: r)) ->
  P ["*"; "*"] ->
  (forall r, P r -> P ("*" :: "*" :: "/" :: r)) ->
  (forall e r, (e =?s "/") = false -> P (e :: r) -> P ("*" :: "*" :: e :: r)) ->
  forall cs, P cs.
Proof.
  intros H1 H2 H3 H4 H5 H6 H7 cs.
  induction cs as [cs IH] using (induction_ltof1 _ (@List.length string)); unfold ltof in IH.
  destruct cs as [|c r]; [done|].
  destruct (c =?s "*") eqn:Ec; [|apply H2, IH; cbn; auto with lia].
  apply String.eqb_eq in Ec as ->. destruct r as [|d r]; [done|].
  destruct (d =?s "*") eqn:Ed; [|apply H4, IH; cbn; auto with lia].
  apply String.eqb_eq in Ed as ->. destruct r as [|e r]; [done|].
  destruct (e =?s "/") eqn:Ee; [|apply H7, IH; cbn; auto with lia].
  apply String.eqb_eq in Ee as ->. apply H6, IH. cbn. lia.
Qed.
Lemma engine_text cs :
  glob_body cs = seq_text backslash_escape (List.map engine_re (glob_atoms cs)).
Proof.
  induction cs as [|c r Hc IH| |d r Hd IH| |r IH|e r He IH] using glob_ind; try done.
  - cbn [glob_body glob_atoms]. rewrite Hc, IH. unfold backslash_escape.
    destruct (c =?s "?") eqn:E; cbn [List.map engine_re]; rewrite seq_text_cons; [done|].
    cbn [re_text]. unfold backslash_escape. by destruct (regex_meta c).
  - cbn [glob_body glob_atoms] in *. change ("*" =?s "*") with true. cbv iota. rewrite Hd in *.
    cbn [List.map engine_re]. by rewrite seq_text_cons, IH.
  - cbn [glob_body glob_atoms] in *. change ("*" =?s "*") with true. change ("/" =?s "/") with true.
    cbv iota. cbn [List.map engine_re]. by rewrite seq_text_cons, IH.
  - cbn [glob_body glob_atoms] in *. change ("*" =?s "*") with true. cbv iota. rewrite He.
    cbn [List.map engine_re]. by rewrite seq_text_cons, IH.
Qed.
Lemma scan_text `{RuleLib} cs :
  scan_body cs = seq_text regex_escape (List.map scan_re (glob_atoms cs)).
Proof.
  induction cs as [|c r Hc IH| |d r Hd IH| |r IH|e r He IH] using glob_ind; try done.
  - cbn [scan_body glob_atoms]. rewrite Hc, IH.
    destruct (c =?s "?") eqn:E; cbn [List.map scan_re engine_re]; by rewrite seq_text_cons.
  - cbn [scan_body glob_atoms] in *. change ("*" =?s "*") with true. cbv iota. rewrite Hd in *.
    cbn [List.map scan_re engine_re]. by rewrite seq_text_cons, IH.
  - cbn [scan_body glob_atoms] in *. change ("*" =?s "*") with true. change ("/" =?s "/") with true.
    cbv iota. cbn [List.map scan_re]. by rewrite seq_text_cons, IH.
  - cbn [scan_body glob_atoms] in *. change ("*" =?s "*") with true. cbv iota. rewrite He.
    cbn [List.map scan_re]. by rewrite seq_text_cons, IH.
Qed.
Lemma plain_atoms cs : forallb is_char cs = true -> forallb plain_atom (glob_atoms cs) = true.
Proof.
  induction cs as [|c r Hc IH| |d r Hd IH| |r IH|e r He IH] using glob_ind; try done.
  - cbn [glob_atoms forallb]. intros [Hi Hr]%andb_true_iff. rewrite Hc.
    destruct (c =?s "?") eqn:E; cbn [forallb plain_atom]; [by apply IH|].
    unfold plain_char. rewrite Hi, Hc, E. by apply IH.
  - cbn [glob_atoms forallb] in *. change ("*" =?s "*") with true. cbv iota. rewrite Hd in *. exact IH.
  - cbn [glob_atoms forallb] in *. change ("*" =?s "*") with true. cbv iota. rewrite He. exact IH.
Qed.

(** The expression of the rule engine, and the plan's matcher. *)
Lemma engine_regex_spec `{RegexLaws} (glob path : string) : utf8 glob = true ->
  is_match (build_glob_regex glob) path = true <-> glob_spec (glob_atoms (chars glob)) (chars path).
Proof.
  intros Hu%plain_atoms. unfold build_glob_regex, glob_regex_text. rewrite engine_text.
  by rewrite (build_law _ path Hu), engine_seq.
Qed.
Lemma glob_matches_spec glob path :
  glob_matches glob path = true <-> glob_spec (glob_atoms (chars glob)) (chars path).
Proof. by rewrite glob_matches_specb, glob_specb_spec. Qed.
Lemma glob_matches_engine `{RegexLaws} (glob path : string) : utf8 glob = true ->
  glob_matches glob path = is_match (build_glob_regex glob) path.
Proof. intros Hu. apply eq_true_iff_eq. by rewrite glob_matches_spec, engine_regex_spec. Qed.

(** C28: The three matchers of the sandbox give a glob one meaning: the expression
    the rule engine compiles, the plan's memoised matcher and the scan's
    expression all accept exactly the paths of [glob_spec]. *)
Theorem glob_matchers_agree `{RegexLaws} (glob path : string) : utf8 glob = true ->
  (is_match (build_glob_regex glob) path = true <-> glob_spec (glob_atoms (chars glob)) (chars path))
  /\ glob_matches glob path = is_match (build_glob_regex glob) path
  /\ exists re, scan_compile_matcher glob = inl re /\ is_match re path = glob_matches glob path.
Proof.
  intros Hu. split; [by apply engine_regex_spec|split; [by apply glob_matches_engine|]].
  unfold scan_compile_matcher, scan_regex_text. rewrite scan_text.
  destruct (new_law _ (plain_atoms _ Hu)) as (re & -> & Hre). exists re. split; [done|].
  apply eq_true_iff_eq. by rewrite Hre, scan_seq, glob_matches_spec.
Qed.

(** * A concrete regular-expression library *)
Fixpoint strip_list (p l : list string) : option (list string) :=
  match p, l with
  | [], _ => Some l
  | a :: p, b :: l => if a =?s b then strip_list p l else None
  | _ :: _, [] => None
  end.
(** Reading the fragment back, one expression a round. *)
Definition read_item (cs : list string) : option (GlobAtom * list string) :=
  match strip_list ["("; "."; "|"; newline; ")"; "*"] cs with
  | Some r => Some (Across, r)
  | None =>
  match strip_list ["("; "?"; "s"; ":"; "."; "*"; ")"] cs with
  | Some r => Some (Across, r)
  | None =>
  match strip_list ["["; "^"; "/"; "]"; "*"] cs with
  | Some r => Some (InSegment, r)
  | None =>
  match strip_list ["["; "^"; "/"; "]"] cs with
  | Some r => Some (OneChar, r)
  | None =>
      match cs with
      | c :: r => if c =?s "\" then match r with d :: r => Some (Char d, r) | [] => None end
                  else Some (Char c, r)
      | [] => None
      end
  end end end end.
Fixpoint read_items (fuel : nat) (stop cs : list string) : option (list GlobAtom) :=
  match fuel with
  | O => None
  | S fuel =>
      if bool_decide (cs = stop) then Some []
      else match read_item cs with
           | Some (a, r) => option_map (cons a) (read_items fuel stop r)
           | None => None
           end
  end.
Definition read_regex (start stop : list string) (text : string) : option (list GlobAtom) :=
  match strip_list start (chars text) with
  | Some r => read_items (S (List.length r)) stop r
  | None => None
  end.
Definition demo_match (re : option (list GlobAtom)) (s : string) : bool :=
  match re with Some atoms => glob_specb atoms (chars s) | None => false end.
Definition demo_rule_lib (json : string -> option json) (files : string -> FileRead) : RuleLib := {|
  Regex := option (list GlobAtom);
  regex_build := read_regex ["^"] ["$"];
  regex_new := fun text => match read_regex ["\"; "A"] ["\"; "z"] text with
                           | Some atoms => inl (Some atoms)
                           | None => inr "unreadable expression"
                           end;
  regex_escape := backslash_escape;
  is_match := demo_match;
  json_from_str := json;
  read_to_string := files
|}.

(** ** Characters of concatenated texts *)
Lemma chars_of_char c : is_char c = true -> chars c = [c].
Proof.
  destruct c as [|b r]; [done|]. cbn [is_char]. intros [_ Hr]%andb_true_iff.
  revert b. induction r as [|d r IH]; [done|]. intros b. rewrite chars_cons. cbn in Hr.
  apply andb_true_iff in Hr as [-> Hr]. by rewrite (IH Hr d).
Qed.
Lemma char_starts c t : is_char c = true -> starts_char (c +:+ t).
Proof. destruct c as [|b r]; [done|]. cbn. by intros [?%negb_true_iff _]%andb_true_iff. Qed.

(** ** Reading back what was written *)
Definition lit_chars (c : string) : list string := if regex_meta c then ["\"; c] else [c].
Definition item_chars (across : list string) (a : GlobAtom) : list string :=
  match a with
  | Char c => lit_chars c
  | OneChar => ["["; "^"; "/"; "]"]
  | InSegment => ["["; "^"; "/"; "]"; "*"]
  | Across => across
  end.
Definition across_texts : list (list string) :=
  [["("; "."; "|"; newline; ")"; "*"]; ["("; "?"; "s"; ":"; "."; "*"; ")"]].

Lemma lit_text_chars c t : is_char c = true -> starts_char t ->
  chars (backslash_escape c +:+ t) = lit_chars c ++ chars t /\ starts_char (backslash_escape c +:+ t).
Proof.
  intros Hc Ht. unfold backslash_escape, lit_chars. destruct (regex_meta c).
  - split; [|done]. rewrite append_assoc, chars_app by (by apply char_starts).
    by rewrite chars_app, (chars_of_char c).
  - split; [|by apply char_starts]. by rewrite chars_app, (chars_of_char c).
Qed.
Lemma plain_atom_char c : plain_atom (Char c) = true -> is_char c = true /\ c <> "*" /\ c <> "?".
Proof. cbn. unfold plain_char. intros E. bool_prop. auto. Qed.

Lemma seq_chars (re : GlobAtom -> Re) across t :
  (forall c, re (Char c) = RLit c) -> re OneChar = RNotSlash -> re InSegment = RStar RNotSlash ->
  (forall t, starts_char t -> chars (re_text backslash_escape (re Across) +:+ t) = across ++ chars t
             /\ starts_char (re_text backslash_escape (re Across) +:+ t)) ->
  starts_char t -> forall atoms, forallb plain_atom atoms = true ->
  chars (seq_text backslash_escape (List.map re atoms) +:+ t)
  = List.concat (List.map (item_chars across) atoms) ++ chars t
  /\ starts_char (seq_text backslash_escape (List.map re atoms) +:+ t).
Proof.
  intros Hc H1 Hs Ha Ht. induction atoms as [|a atoms IH]; [done|].
  cbn [forallb List.map List.concat]. intros [Hp Hr]%andb_true_iff. destruct (IH Hr) as [E S].
  rewrite seq_text_cons, append_assoc, <- app_assoc, <- E. destruct a as [c| | |].
  - rewrite Hc. cbn [re_text item_chars]. apply plain_atom_char in Hp as (Hp & _). by apply lit_text_chars.
  - rewrite H1. cbn [re_text item_chars]. by rewrite chars_app.
  - rewrite Hs. cbn [re_text item_chars]. rewrite append_assoc. split; [|done].
    by rewrite chars_app, chars_app.
  - by apply Ha.
Qed.

Lemma read_lit c r : c <> "*" -> c <> "?" -> read_item (lit_chars c ++ r) = Some (Char c, r).
Proof.
  intros H1 H2. unfold lit_chars. destruct (regex_meta c) eqn:E; [done|].
  unfold regex_meta in E. apply bool_decide_eq_false in E.
  assert (forall x, x ∈ ["."; "+"; "("; ")"; "|"; "["; "]"; "{"; "}"; "^"; "$"; "\"] -> (x =?s c) = false) as Hne.
  { intros x Hx. apply String.eqb_neq. by intros ->. }
  cbn [List.app]. unfold read_item. cbn [strip_list].
  rewrite !(Hne "("), !(Hne "[") by (apply list_elem_of_In; cbn; tauto).
  rewrite (String.eqb_sym c), (Hne "\") by (apply list_elem_of_In; cbn; tauto). done.
Qed.
Lemma read_atom across a r : across ∈ across_texts -> plain_atom a = true -> head r <> Some "*" ->
  read_item (item_chars across a ++ r) = Some (a, r).
Proof.
  intros Hac Hp Hh. destruct a as [c| | |]; cbn [item_chars].
  - apply plain_atom_char in Hp as (_ & H1 & H2). by apply read_lit.
  - destruct r as [|x r]; [done|].
    assert (Hx : ("*" =?s x) = false) by (apply String.eqb_neq; intros <-; by apply Hh).
    unfold read_item. cbn [strip_list List.app].
    change ("(" =?s "[") with false. change ("[" =?s "[") with true. change ("^" =?s "^") with true.
    change ("/" =?s "/") with true. change ("]" =?s "]") with true. cbv iota. by rewrite Hx.
  - done.
  - unfold across_texts in Hac. rewrite !elem_of_cons in Hac.
    destruct Hac as [-> | [-> | Hac]]; [done|done|]. by apply elem_of_nil in Hac.
Qed.

Lemma item_chars_head across a r : across ∈ across_texts -> plain_atom a = true ->
  item_chars across a <> [] /\ head (item_chars across a ++ r) <> Some "*".
Proof.
  intros Hac Hp. destruct a as [c| | |]; cbn [item_chars]; [|done|done|].
  - apply plain_atom_char in Hp as (_ & H1 & _). unfold lit_chars.
    destruct (regex_meta c); (split; [done|]); [done|]. cbn. congruence.
  - unfold across_texts in Hac. rewrite !elem_of_cons in Hac.
    destruct Hac as [-> | [-> | Hac]]; [done|done|]. by apply elem_of_nil in Hac.
Qed.
(** The stop of an expression is not the start of an item of it. *)
Lemma read_items_written across stop atoms : across ∈ across_texts ->
  head stop <> Some "*" -> (forall a r, plain_atom a = true -> r <> [] -> item_chars across a ++ r <> stop) ->
  stop <> [] -> forallb plain_atom atoms = true ->
  forall fuel, (List.length atoms < fuel)%nat ->
  read_items fuel stop (List.concat (List.map (item_chars across) atoms) ++ stop) = Some atoms.
Proof.
  intros Hac Hh Hne Hs Hp. induction atoms as [|a atoms IH]; intros [|fuel] Hf; cbn in Hf; try lia.
  - cbn. by rewrite bool_decide_eq_true_2.
  - cbn [forallb] in Hp. apply andb_true_iff in Hp as [Ha Hp].
    cbn [read_items List.map List.concat]. rewrite <- app_assoc.
    rewrite bool_decide_eq_false_2.
    2:{ apply Hne; [done|]. intros [_ E]%List.app_eq_nil. done. }
    rewrite read_atom; [by rewrite IH by (done || lia)|done|done|].
    destruct atoms as [|b atoms]; [done|]. cbn [List.map List.concat]. rewrite <- app_assoc.
    cbn in Hp. apply andb_true_iff in Hp as [Hb _]. by apply item_chars_head.
Qed.
Lemma items_length across atoms : across ∈ across_texts -> forallb plain_atom atoms = true ->
  (List.length atoms <= List.length (List.concat (List.map (item_chars across) atoms)))%nat.
Proof.
  intros Hac. induction atoms as [|a atoms IH]; cbn; [done|]. intros [Ha Hp]%andb_true_iff.
  rewrite length_app. specialize (IH Hp). destruct (item_chars_head across a [] Hac Ha) as [Hn _].
  destruct (item_chars across a); [done|]. cbn. lia.
Qed.
Lemma read_regex_written across start stop text atoms : across ∈ across_texts ->
  head stop <> Some "*" -> (forall a r, plain_atom a = true -> r <> [] -> item_chars across a ++ r <> stop) ->
  stop <> [] -> forallb plain_atom atoms = true ->
  chars text = start ++ List.concat (List.map (item_chars across) atoms) ++ stop ->
  read_regex start stop text = Some atoms.
Proof.
  intros Hac Hh Hne Hs Hp E. unfold read_regex. rewrite E.
  assert (forall l, strip_list start (start ++ l) = Some l) as ->.
  { intros l. clear. induction start as [|x start IH]; [done|]. cbn. by rewrite String.eqb_refl. }
  apply read_items_written; try done. rewrite length_app.
  pose proof (items_length across atoms Hac Hp). lia.
Qed.

Lemma item_not_stop across a r stop : across ∈ across_texts -> plain_atom a = true -> r <> [] ->
  stop ∈ [["$"]; ["\"; "z"]] -> item_chars across a ++ r <> stop.
Proof.
  intros Hac Ha Hr Hs E. destruct (item_chars_head across a [] Hac Ha) as [Hn _].
  destruct r as [|y r]; [done|]. rewrite !elem_of_cons in Hs.
  destruct Hs as [-> | [-> | Hs]]; [| |by apply elem_of_nil in Hs].
  - destruct (item_chars across a) as [|x [|]]; try done.
  - destruct a as [c| | |]; cbn [item_chars] in *; try done.
    + unfold lit_chars in *. destruct (regex_meta c) eqn:Em; [done|]. by injection E as -> _.
    + unfold across_texts in Hac. rewrite !elem_of_cons in Hac.
      destruct Hac as [-> | [-> | Hac]]; [done|done|]. by apply elem_of_nil in Hac.
Qed.

#[export] Instance demo_regex_laws json files : @RegexLaws (demo_rule_lib json files).
Proof.
  split.
  - intros atoms s Hp. cbn [is_match regex_build demo_rule_lib].
    assert (Hac : ["("; "."; "|"; newline; ")"; "*"] ∈ across_texts) by (apply list_elem_of_In; cbn; auto).
    destruct (seq_chars engine_re _ "$" ltac:(done) ltac:(done) ltac:(done)
                ltac:(intros t Ht; change (re_text backslash_escape (engine_re Across)) with any_text;
                      rewrite chars_app by done; by split) ltac:(done) atoms Hp) as [E St].
    rewrite (read_regex_written _ _ _ _ atoms Hac); try done.
    + cbn. by rewrite glob_specb_spec, engine_seq.
    + intros a r Ha Hr. apply (item_not_stop _ _ _ _ Hac Ha Hr). apply list_elem_of_In. cbn. auto.
    + by rewrite chars_app, E.
  - intros atoms Hp. cbn [is_match regex_new regex_escape demo_rule_lib].
    assert (Hac : ["("; "?"; "s"; ":"; "."; "*"; ")"] ∈ across_texts) by (apply list_elem_of_In; cbn; auto).
    destruct (seq_chars scan_re _ "\z" ltac:(done) ltac:(done) ltac:(done)
                ltac:(intros t Ht; change (re_text backslash_escape (scan_re Across)) with "(?s:.*)";
                      rewrite chars_app by done; by split) ltac:(done) atoms Hp) as [E St].
    rewrite (read_regex_written _ _ _ _ atoms Hac); try done.
    + exists (Some atoms). split; [done|]. intros s. cbn. by rewrite glob_specb_spec, scan_seq.
    + intros a r Ha Hr. apply (item_not_stop _ _ _ _ Hac Ha Hr). apply list_elem_of_In. cbn. auto.
    + by rewrite chars_app, E.
Qed.

Definition demo_lib : RuleLib := demo_rule_lib (fun _ => None) (fun _ => NotFound).
Lemma glob_matchers_agree_witness :
  @is_match demo_lib (@build_glob_regex demo_lib "/w/**/*.pem") "/w/a/b.pem" = true
  /\ exists re, @scan_compile_matcher demo_lib "/w/**/*.pem" = inl re
       /\ @is_match demo_lib re "/w/a/b.pem" = glob_matches "/w/**/*.pem" "/w/a/b.pem".
Proof.
  destruct (@glob_matchers_agree demo_lib _ "/w/**/*.pem" "/w/a/b.pem" eq_refl) as (_ & _ & E).
  split; [vm_compute; reflexivity|exact E].
Defined.

(** [**/] swallows its separator, so a name glued to the rest matches too. *)
Lemma double_star_glues_names : glob_matches "/w/**/gen" "/w/secretgen" = true.
Proof. vm_compute. reflexivity. Qed.
