(* ===== verification/AbsPaths.v ===== *)
(** Absolute paths as lists of names: what [path_push], [components] and the
    characters of a path are on paths with no repeated separator, no [.] and no
    [..]. *)
From S2P Require Import Prelude WorkspaceGuard SandboxPaths GlobProps.

(** A path spelled as its components are pushed: no repeated or trailing
    separator, no [.]. *)
Definition normal (path : string) : Prop := path_of (components path) = path.
Lemma normal_eq a b : normal a -> normal b -> path_eq a b = true -> a = b.
Proof. unfold normal. intros Ha Hb E%bool_decide_eq_true. congruence. Qed.

Definition normalb (p : string) : bool := path_of (components p) =?s p.
Lemma normalb_ok q : normalb q = true <-> normal q.
Proof. apply String.eqb_eq. Qed.

(** A file name. *)
Fixpoint no_slash (s : string) : bool :=
  match s with EmptyString => true | String c r => negb (Ascii.eqb c "/") && no_slash r end.
Definition plain_name (n : string) : bool :=
  negb (n =?s "") && negb (n =?s ".") && negb (n =?s "..") && no_slash n.
Definition slashed (names : list string) : string :=
  List.fold_right (fun n out => "/" +:+ (n +:+ out)) "" names.
(** The absolute path with these names. *)
Definition abs_path (names : list string) : string := if is_empty names then "/" else slashed names.

Lemma slashed_app a b : slashed (a ++ b) = slashed a +:+ slashed b.
Proof.
  induction a as [|n a IH]; [done|]. cbn [slashed List.fold_right app].
  fold (slashed (a ++ b)) (slashed a). by rewrite IH, !append_assoc.
Qed.
Lemma slash_absolute x : is_absolute (String "/" x) = true.
Proof. by destruct x. Qed.
Lemma abs_path_absolute names : is_absolute (abs_path names) = true.
Proof.
  unfold abs_path. destruct names as [|n names]; [done|]. exact (slash_absolute (n +:+ slashed names)).
Qed.

(** * Pushing names *)
Lemma ends_with_slash_app a b : b <> "" -> ends_with_slash (a +:+ b) = ends_with_slash b.
Proof.
  intros Hb. induction a as [|c a IH]; [done|]. change (String c a +:+ b) with (String c (a +:+ b)).
  cbn [ends_with_slash]. rewrite IH. destruct a as [|d a]; [|done].
  change ("" +:+ b) with b. by destruct b.
Qed.
Lemma no_slash_end n : n <> "" -> no_slash n = true -> ends_with_slash n = false.
Proof.
  induction n as [|c n IH]; [done|]. cbn. intros _ [Hc Hn]%andb_true_iff.
  destruct n as [|d n]; [by apply negb_true_iff|]. by apply IH.
Qed.
Lemma plain_name_parts n : plain_name n = true ->
  n <> "" /\ n <> "." /\ n <> ".." /\ no_slash n = true.
Proof. unfold plain_name. rewrite !andb_true_iff, !negb_true_iff, !String.eqb_neq. naive_solver. Qed.
Lemma plain_relative n : no_slash n = true -> is_absolute n = false.
Proof.
  unfold is_absolute, starts_with. destruct n as [|c n]; [done|]. cbn [no_slash String.prefix].
  intros [Hc%negb_true_iff _]%andb_true_iff. apply Ascii.eqb_neq in Hc.
  destruct (ascii_dec "/" c) as [<-|]; [done|]. done.
Qed.
Lemma slashed_end names : Forall (fun n => plain_name n = true) names -> names <> [] ->
  ends_with_slash (slashed names) = false /\ slashed names <> "".
Proof.
  intros Hn. destruct names as [|n names _] using rev_ind; [done|]. intros _.
  apply Forall_app in Hn as [_ Hn]. apply Forall_cons in Hn as [(Hn & _ & _ & Hs)%plain_name_parts _].
  rewrite slashed_app. cbn [slashed List.fold_right]. rewrite append_nil_r.
  assert ("/" +:+ n <> "") by done. split.
  - rewrite ends_with_slash_app by done. rewrite ends_with_slash_app by done. by apply no_slash_end.
  - by destruct (slashed names).
Qed.
Lemma push_name names n : Forall (fun n => plain_name n = true) names -> plain_name n = true ->
  path_push (abs_path names) n = abs_path (names ++ [n]).
Proof.
  intros Hns (Hn & _ & _ & Hs)%plain_name_parts. unfold path_push. rewrite plain_relative by done.
  destruct names as [|m names].
  - change (abs_path ([] ++ [n])) with ("/" +:+ (n +:+ "")). by rewrite append_nil_r.
  - destruct (slashed_end (m :: names) Hns) as [He Hne]; [done|].
    change (abs_path (m :: names)) with (slashed (m :: names)).
    change (abs_path ((m :: names) ++ [n])) with (slashed ((m :: names) ++ [n])).
    rewrite (proj2 (String.eqb_neq _ _) Hne), He, slashed_app. cbn [orb slashed List.fold_right].
    by rewrite append_nil_r.
Qed.
Lemma push_names below : forall names, Forall (fun n => plain_name n = true) names ->
  Forall (fun n => plain_name n = true) below ->
  List.fold_left path_push below (abs_path names) = abs_path (names ++ below).
Proof.
  induction below as [|n below IH]; intros names Hn Hb; cbn; [by rewrite app_nil_r|].
  apply Forall_cons in Hb as [Hb Hbs]. rewrite push_name by done.
  rewrite IH; [by rewrite <- app_assoc|apply Forall_app; auto|done].
Qed.
Lemma path_of_names names : Forall (fun n => plain_name n = true) names ->
  path_of (RootDir :: List.map Normal names) = abs_path names.
Proof.
  intros Hn. unfold path_of. cbn [List.fold_left as_os_str].
  change (path_push "" "/") with (abs_path []).
  change (abs_path names) with (abs_path ([] ++ names)).
  rewrite <- (push_names names []) by done. clear Hn. generalize (abs_path []) as out.
  induction names as [|n names IH]; intros out; [done|]. cbn. apply IH.
Qed.

(** * Components *)
Lemma split_on_no_slash n t : no_slash n = true ->
  split_on "/" (n +:+ t) = match split_on "/" t with p :: ps => (n +:+ p) :: ps | [] => [n] end.
Proof.
  intros Hn. induction n as [|c n IH]; cbn in Hn.
  - change ("" +:+ t) with t. assert (split_on "/" t <> []) as He.
    { destruct t as [|a t]; [done|]. cbn. destruct (Ascii.eqb a "/"); [done|]. by destruct (split_on "/" t). }
    destruct (split_on "/" t); [done|]. done.
  - apply andb_true_iff in Hn as [Hc%negb_true_iff Hn].
    change (String c n +:+ t) with (String c (n +:+ t)). cbn [split_on]. rewrite Hc, IH by done.
    by destruct (split_on "/" t).
Qed.
Lemma split_slashed names : Forall (fun n => plain_name n = true) names ->
  split_on "/" (slashed names) = "" :: names.
Proof.
  induction 1 as [|n names Hn Hns IH]; [done|]. cbn [slashed List.fold_right]. fold (slashed names).
  change ("/" +:+ (n +:+ slashed names)) with (String "/" (n +:+ slashed names)). cbn [split_on].
  change (Ascii.eqb "/" "/") with true. cbv iota. apply plain_name_parts in Hn as (_ & _ & _ & Hs).
  rewrite split_on_no_slash, IH by done. by rewrite append_nil_r.
Qed.
Lemma pieces_plain names : Forall (fun n => plain_name n = true) names ->
  piece_components false names = List.map Normal names.
Proof.
  induction 1 as [|n names Hn Hns IH]; [done|]. apply plain_name_parts in Hn as (H1 & H2 & H3 & _).
  cbn. rewrite !(proj2 (String.eqb_neq _ _)) by done. by rewrite IH.
Qed.
Lemma components_names names : Forall (fun n => plain_name n = true) names ->
  components (abs_path names) = RootDir :: List.map Normal names.
Proof.
  intros Hn. unfold components. rewrite abs_path_absolute. f_equal.
  unfold abs_path. destruct names as [|n names]; [done|]. cbn [is_empty].
  rewrite split_slashed by done. change (piece_components false ("" :: n :: names))
    with (piece_components false (n :: names)). by apply pieces_plain.
Qed.
Lemma path_iter_names names : Forall (fun n => plain_name n = true) names ->
  path_iter (abs_path names) = "/" :: names.
Proof.
  intros Hn. unfold path_iter. rewrite components_names by done. cbn. f_equal.
  rewrite List.map_map. cbn. apply List.map_id.
Qed.
Lemma abs_path_normal names : Forall (fun n => plain_name n = true) names -> normal (abs_path names).
Proof. intros Hn. unfold normal. by rewrite components_names, path_of_names. Qed.
Lemma abs_path_inj a b : Forall (fun n => plain_name n = true) a -> Forall (fun n => plain_name n = true) b ->
  abs_path a = abs_path b -> a = b.
Proof. intros Ha Hb E. apply (f_equal path_iter) in E. rewrite !path_iter_names in E by done. congruence. Qed.

(** A normal absolute path without [..] is one of these. *)
Lemma split_no_slash c s p : In p (split_on c s) -> c = "/"%char -> no_slash p = true.
Proof.
  intros Hp ->. revert p Hp. induction s as [|a s IH]; intros p; cbn; [by intros [<-|[]]|].
  destruct (Ascii.eqb a "/") eqn:E; [intros [<-|Hp]; [done|by apply IH]|].
  destruct (split_on "/" s) as [|q qs]; [intros [<-|[]]; cbn; by rewrite E|].
  intros [<-|Hp]; [|apply IH; by right]. cbn. rewrite E. apply IH. by left.
Qed.
Lemma pieces_names pieces : (forall p, In p pieces -> no_slash p = true) ->
  ~ In ParentDir (piece_components false pieces) ->
  exists names, piece_components false pieces = List.map Normal names /\ Forall (fun n => plain_name n = true) names.
Proof.
  induction pieces as [|p pieces IH]; intros Hp Hn; cbn in *; [by exists []|].
  assert (Hps : forall q, In q pieces -> no_slash q = true) by (intros q Hq; apply Hp; by right).
  destruct (String.eqb_spec p "") as [|H1]; [by apply IH|].
  destruct (String.eqb_spec p ".") as [|H2]; [by apply IH|].
  destruct (String.eqb_spec p "..") as [|H3]; [exfalso; apply Hn; by left|].
  destruct IH as (names & -> & Hns); [done|intros Hi; apply Hn; by right|].
  exists (p :: names). split; [done|]. constructor; [|done]. unfold plain_name.
  rewrite !(proj2 (String.eqb_neq _ _)) by done. rewrite (Hp p) by by left. done.
Qed.
Lemma absolute_names path : normal path -> is_absolute path = true -> ~ In ParentDir (components path) ->
  exists names, path = abs_path names /\ Forall (fun n => plain_name n = true) names.
Proof.
  unfold normal, components. intros Hn Ha Hp. rewrite Ha in *.
  destruct (pieces_names (split_on "/" path)) as (names & E & Hns).
  - intros p Hi. by eapply split_no_slash.
  - intros Hi. apply Hp. by right.
  - exists names. split; [|done]. rewrite E in Hn. by rewrite path_of_names in Hn.
Qed.

(** What lies at or above such a path. *)
Lemma components_of_iter path : components path = List.map component_of (path_iter path).
Proof.
  unfold path_iter. rewrite List.map_map. rewrite <- (List.map_id (components path)) at 1.
  symmetry. apply List.map_ext_in. apply components_text.
Qed.
Lemma component_of_name n : plain_name n = true -> component_of n = Normal n.
Proof.
  intros (_ & H2 & H3 & Hs)%plain_name_parts. unfold component_of.
  destruct (String.eqb_spec n "/") as [->|]; [done|]. by rewrite !(proj2 (String.eqb_neq _ _)).
Qed.
Lemma within_names names q : Forall (fun n => plain_name n = true) names -> normal q ->
  path_within (abs_path names) q = true ->
  q = "" \/ exists above below, names = above ++ below /\ q = abs_path above.
Proof.
  intros Hn Hq Hw. apply path_within_prefix in Hw as [below E]. rewrite path_iter_names in E by done.
  unfold normal in Hq. rewrite components_of_iter in Hq. destruct (path_iter q) as [|r above].
  - by left.
  - injection E as <- E. right. exists above, below. split; [done|]. rewrite <- Hq.
    rewrite E in Hn. apply Forall_app in Hn as [Hn _]. rewrite <- path_of_names by done. f_equal.
    cbn. f_equal. apply List.map_ext_in. intros n Hi. apply component_of_name.
    rewrite List.Forall_forall in Hn. by apply Hn.
Qed.

(** * Characters *)
(** The characters of the names, each after a separator. *)
Definition slashed_chars (names : list string) : list string :=
  List.concat (List.map (fun n => "/" :: chars n) names).
Lemma utf8_starts n : utf8 n = true -> starts_char n.
Proof.
  destruct n as [|b n]; [done|]. unfold utf8.
  destruct (chars_nonempty b n) as (x & xs & ->). cbn [forallb is_char starts_char].
  by intros [[Hb%negb_true_iff _]%andb_true_iff _]%andb_true_iff.
Qed.
Lemma slashed_starts names : starts_char (slashed names).
Proof. by destruct names. Qed.
Lemma chars_slashed names : Forall (fun n => utf8 n = true) names ->
  chars (slashed names) = slashed_chars names.
Proof.
  induction 1 as [|n names Hn _ IH]; [done|]. cbn [slashed List.fold_right]. fold (slashed names).
  rewrite (chars_app "/" (n +:+ slashed names)).
  - rewrite chars_app by apply slashed_starts. by rewrite IH.
  - destruct n; [apply slashed_starts|]. by apply utf8_starts in Hn.
Qed.
Lemma chars_names names : Forall (fun n => utf8 n = true) names -> names <> [] ->
  chars (abs_path names) = slashed_chars names.
Proof. intros Hu Hn. unfold abs_path. destruct names; [done|]. by apply chars_slashed. Qed.
(** A name has no separator among its characters. *)
Lemma chars_no_slash n : no_slash n = true -> Forall (fun c => c <> "/") (chars n).
Proof.
  induction n as [|c n IH]; cbn [no_slash]; [constructor|]. intros [Hc%negb_true_iff Hn]%andb_true_iff.
  specialize (IH Hn). apply Ascii.eqb_neq in Hc.
  assert (Hh : forall x, String c x <> "/") by (intros x [= ? _]; done).
  rewrite chars_cons. destruct n as [|d n]; [by repeat constructor|].
  destruct (is_continuation d); [|by constructor].
  destruct (chars_nonempty d n) as (x & xs & E). rewrite E in *.
  apply Forall_cons in IH as []. by constructor.
Qed.
