(* ===== verification/GlobScanProps.v ===== *)
(** The pre-launch scan against a listing of the file system: pruning, depth
    filters, grouping by root and the shared walk lose no match and add none,
    and a scan that succeeds stayed within its bounds. *)
From S2P Require Import Prelude WorkspaceGuard SandboxPaths SandboxRules GlobScan SandboxPlan GlobProps AbsPaths.

(** * Globs of whole paths, name by name *)
Fixpoint across_free (cs : list string) : bool :=
  match cs with
  | [] => true
  | c :: r => negb ((c =?s "*") && match r with d :: _ => d =?s "*" | [] => false end) && across_free r
  end.
Lemma atoms_app a b : across_free a = true -> head b <> Some "*" ->
  glob_atoms (a ++ b) = glob_atoms a ++ glob_atoms b.
Proof.
  intros Ha Hb. revert Ha. induction a as [|c r Hc IH| |d r Hd IH| |r IH|e r He IH] using glob_ind; try done.
  - cbn [app glob_atoms across_free]. rewrite Hc. cbn [andb negb]. intros Hr. rewrite (IH Hr).
    by destruct (c =?s "?").
  - intros _. cbn [app glob_atoms]. change ("*" =?s "*") with true. cbv iota.
    destruct b as [|x b]; [done|]. destruct (String.eqb_spec x "*") as [->|]; [done|]. done.
  - intros Hr. change (("*" :: d :: r) ++ b) with ("*" :: d :: (r ++ b)).
    assert (E : glob_atoms ("*" :: d :: (r ++ b)) = InSegment :: glob_atoms (d :: (r ++ b))) by (cbn; by rewrite Hd).
    rewrite E. change (d :: (r ++ b)) with ((d :: r) ++ b). rewrite IH.
    + cbn. by rewrite Hd.
    + cbn in Hr |- *. by rewrite Hd in *.
Qed.
Lemma glob_spec_app a b u w : glob_spec a u -> glob_spec b w -> glob_spec (a ++ b) (u ++ w).
Proof. intros Ha Hb. induction Ha; cbn; eauto with glob_db. Qed.
Lemma glob_spec_app_inv a b v : glob_spec (a ++ b) v -> exists u w, v = u ++ w /\ glob_spec a u /\ glob_spec b w.
Proof.
  revert v. induction a as [|x a IH]; intros v; [exists [], v; eauto with glob_db|].
  change ((x :: a) ++ b) with (x :: (a ++ b)). destruct x as [c| | |].
  - inversion 1 as [|? ? v' Hv| | | | |]; subst. destruct (IH _ Hv) as (u & w & -> & Hu & Hw).
    exists (c :: u), w. eauto with glob_db.
  - inversion 1 as [| |c ? v' Hc Hv| | | |]; subst. destruct (IH _ Hv) as (u & w & -> & Hu & Hw).
    exists (c :: u), w. eauto with glob_db.
  - rewrite spec_segment_iff. intros (u1 & v' & -> & Hs & Hv). destruct (IH _ Hv) as (u & w & -> & Hu & Hw).
    exists (u1 ++ u), w. rewrite app_assoc. split_and!; [done| |done]. apply spec_segment_iff. eauto.
  - rewrite spec_across_iff. intros (u1 & v' & -> & Hv). destruct (IH _ Hv) as (u & w & -> & Hu & Hw).
    exists (u1 ++ u), w. rewrite app_assoc. split_and!; [done| |done]. apply spec_across_iff. eauto.
Qed.

(** A pattern name without [**] matches within one name. *)
Lemma local_spec p v : no_slash p = true -> across_free (chars p) = true ->
  glob_spec (glob_atoms (chars p)) v -> Forall (fun c => c <> "/") v.
Proof.
  intros Hs%chars_no_slash. revert v.
  induction (chars p) as [|c r Hc IH| |d r Hd IH| |r IH|e r He IH] using glob_ind; intros v Ha Hv; try done.
  - inversion Hv. constructor.
  - cbn [glob_atoms across_free] in *. rewrite Hc in *. cbn [andb negb] in Ha.
    apply Forall_cons in Hs as [Hc' Hs].
    destruct (c =?s "?"); inversion Hv; subst; constructor; eauto.
  - cbn in Hv. apply spec_segment_iff in Hv as (u & w & -> & Hu & Hw). inversion Hw. by rewrite app_nil_r.
  - cbn [glob_atoms across_free] in *. change ("*" =?s "*") with true in *. rewrite Hd in *. cbn [andb negb] in Ha.
    apply Forall_cons in Hs as [_ Hs]. apply spec_segment_iff in Hv as (u & w & -> & Hu & Hw).
    apply Forall_app. split; [done|]. by apply IH.
Qed.
Lemma slash_split (u w u' w' : list string) : u ++ w = u' ++ w' ->
  Forall (fun c => c <> "/") u -> Forall (fun c => c <> "/") u' ->
  (w = [] \/ head w = Some "/") -> (w' = [] \/ head w' = Some "/") -> u = u' /\ w = w'.
Proof.
  revert u'. induction u as [|c u IH]; intros [|c' u'] E Hu Hu' Hw Hw'.
  - done.
  - cbn in E. subst w. apply Forall_cons in Hu' as [Hc _]. destruct Hw as [|[= ->]]; done.
  - cbn in E. subst w'. apply Forall_cons in Hu as [Hc _]. destruct Hw' as [|[= ->]]; done.
  - injection E as -> E. apply Forall_cons in Hu as [_ Hu], Hu' as [_ Hu'].
    destruct (IH u' E Hu Hu' Hw Hw') as [-> ->]. done.
Qed.
Lemma slashed_head names : slashed_chars names = [] \/ head (slashed_chars names) = Some "/".
Proof. destruct names; [by left|by right]. Qed.

(** What a pattern of names matches, name by name up to its first [**]. *)
Definition name_matches (p n : string) : Prop := glob_spec (glob_atoms (chars p)) (chars n).
Definition local_name (p : string) : bool := no_slash p && across_free (chars p).
Lemma slashed_chars_cons p parts : slashed_chars (p :: parts) = "/" :: chars p ++ slashed_chars parts.
Proof. done. Qed.
Lemma atoms_slash r : glob_atoms ("/" :: r) = Char "/" :: glob_atoms r.
Proof. done. Qed.
Lemma atoms_slashed p parts : across_free (chars p) = true ->
  glob_atoms (slashed_chars (p :: parts)) = Char "/" :: glob_atoms (chars p) ++ glob_atoms (slashed_chars parts).
Proof.
  intros Hp. rewrite slashed_chars_cons, atoms_slash.
  f_equal. apply atoms_app; [done|]. destruct (slashed_head parts) as [E|E]; [by rewrite E|]. by rewrite E.
Qed.
Lemma names_match local more : forall names, Forall (fun p => local_name p = true) local ->
  Forall (fun n => no_slash n = true) names ->
  glob_spec (glob_atoms (slashed_chars (local ++ more))) (slashed_chars names) ->
  exists above below, names = above ++ below /\ Forall2 name_matches local above
    /\ glob_spec (glob_atoms (slashed_chars more)) (slashed_chars below).
Proof.
  induction local as [|p local IH]; intros names Hl Hn Hm; [by exists [], names|].
  apply Forall_cons in Hl as [[Hs Ha]%andb_true_iff Hl].
  change ((p :: local) ++ more) with (p :: (local ++ more)) in Hm. rewrite atoms_slashed in Hm by done.
  destruct names as [|n names]; [inversion Hm|]. apply Forall_cons in Hn as [Hn Hns].
  rewrite slashed_chars_cons in Hm. inversion Hm as [|? ? ? Hv| | | | |]; subst.
  apply glob_spec_app_inv in Hv as (u & w & E & Hu & Hw). symmetry in E.
  apply slash_split in E as [-> ->]; [|exact (local_spec p u Hs Ha Hu)|by apply chars_no_slash| |apply slashed_head].
  - destruct (IH names Hl Hns Hw) as (above & below & -> & Hf & Hb).
    exists (n :: above), below. split_and!; [done|by constructor|done].
  - destruct (slashed_head (local ++ more)) as [Eh|Eh].
    + rewrite Eh in Hw. inversion Hw. by left.
    + right. destruct (slashed_chars (local ++ more)) as [|c r]; [done|]. injection Eh as ->.
      rewrite atoms_slash in Hw. by inversion Hw.
Qed.
Lemma names_match_back local above : Forall (fun p => local_name p = true) local ->
  Forall2 name_matches local above ->
  glob_spec (glob_atoms (slashed_chars local)) (slashed_chars above).
Proof.
  intros Hl Hf. induction Hf as [|p n local above Hp Hf IH]; [constructor|].
  apply Forall_cons in Hl as [[Hs Ha]%andb_true_iff Hl]. rewrite atoms_slashed by done.
  rewrite slashed_chars_cons. constructor. apply glob_spec_app; [done|auto].
Qed.

(** ** Names without [**] *)
Lemma across_free_chars p : str_contains "**" p = false -> across_free (chars p) = true.
Proof.
  induction p as [|c p IH]; [done|]. intros [Hc Hp]%orb_false_iff. specialize (IH Hp).
  rewrite chars_cons. destruct p as [|d p]; [cbn; by rewrite andb_false_r|].
  destruct (is_continuation d).
  - destruct (chars_nonempty d p) as (x & xs & E). rewrite E in *. cbn [across_free].
    rewrite (proj2 (String.eqb_neq (String c (String d x)) "*")) by done. cbn [andb negb].
    cbn [across_free] in IH. by apply andb_true_iff in IH as [_ IH].
  - cbn [across_free]. rewrite IH, andb_true_r. apply negb_true_iff, andb_false_iff.
    destruct (String.eqb_spec (String c "") "*") as [[= ->]|]; [right|by left].
    destruct (chars_nonempty d p) as (x & xs & ->). apply String.eqb_neq. intros [= -> ->].
    cbn in Hc. by destruct p.
Qed.
Lemma no_glob_local n : no_slash n = true -> has_glob n = false -> local_name n = true.
Proof.
  intros Hs Hg. unfold local_name. rewrite Hs. apply across_free_chars.
  clear Hs. unfold has_glob in Hg. induction n as [|c n IH]; [done|]. cbn [list_ascii_of_string existsb] in Hg.
  apply orb_false_iff in Hg as [[Hc _]%orb_false_iff Hg]. cbn [str_contains]. rewrite (IH Hg), orb_false_r.
  cbn [String.prefix]. apply Ascii.eqb_neq in Hc. by destruct (ascii_dec "*" c) as [<-|].
Qed.

(** * What a pattern is compiled to *)
(** The names before the first wildcard, and the ones from it on. *)
Fixpoint root_names (names : list string) : list string :=
  match names with
  | [] => []
  | n :: r => if has_glob n then [] else n :: root_names r
  end.
Definition pattern_names (names : list string) : list string := drop (List.length (root_names names)) names.
Fixpoint local_parts (parts : list string) : list string :=
  match parts with
  | [] => []
  | p :: r => if str_contains "**" p then [] else p :: local_parts r
  end.
Lemma names_split names : root_names names ++ pattern_names names = names.
Proof.
  induction names as [|n names IH]; [done|]. unfold pattern_names in *. cbn.
  destruct (has_glob n); [done|]. cbn. by rewrite IH.
Qed.
Lemma root_names_plain names : Forall (fun n => has_glob n = false) (root_names names).
Proof. induction names as [|n names IH]; cbn; [done|]. destruct (has_glob n) eqn:E; by constructor. Qed.
Lemma local_parts_split parts : exists more, parts = local_parts parts ++ more
  /\ (existsb (str_contains "**") parts = false -> more = []).
Proof.
  induction parts as [|p parts (more & E & Hm)]; [by exists []|]. cbn. destruct (str_contains "**" p) eqn:Ep.
  - by exists (p :: parts).
  - exists more. split; [cbn; by f_equal|done].
Qed.
Lemma local_parts_free parts : Forall (fun p => str_contains "**" p = false) (local_parts parts).
Proof. induction parts as [|p parts IH]; cbn; [done|]. destruct (str_contains "**" p) eqn:E; by constructor. Qed.

(** A relative path. *)
Definition rel_path (names : list string) : string := List.fold_left path_push names "".
Lemma push_slashed names : forall out, Forall (fun n => plain_name n = true) names ->
  out <> "" -> ends_with_slash out = false -> List.fold_left path_push names out = out +:+ slashed names.
Proof.
  induction names as [|n names IH]; intros out Hn Ho He; [cbn; by rewrite append_nil_r|].
  apply Forall_cons in Hn as [(Hne & _ & _ & Hs)%plain_name_parts Hn]. cbn [List.fold_left].
  assert (E : path_push out n = out +:+ ("/" +:+ n)).
  { unfold path_push. rewrite plain_relative by done. by rewrite (proj2 (String.eqb_neq _ _) Ho), He. }
  rewrite E, IH.
  - cbn [slashed List.fold_right]. by rewrite !append_assoc.
  - done.
  - by destruct out.
  - rewrite ends_with_slash_app by done. rewrite ends_with_slash_app by done. by apply no_slash_end.
Qed.
Lemma rel_path_cons n names : Forall (fun n => plain_name n = true) (n :: names) ->
  rel_path (n :: names) = n +:+ slashed names.
Proof.
  intros [(Hne & _ & _ & Hs)%plain_name_parts Hn]%Forall_cons. unfold rel_path. cbn [List.fold_left].
  assert (E : path_push "" n = n) by (unfold path_push; by rewrite plain_relative by done).
  rewrite E, push_slashed; [done..|by apply no_slash_end].
Qed.
Lemma rel_path_chars names : Forall (fun n => plain_name n = true) names -> Forall (fun n => utf8 n = true) names ->
  names <> [] -> "/" :: chars (rel_path names) = slashed_chars names.
Proof.
  intros Hp Hu Hn. destruct names as [|n names]; [done|]. rewrite rel_path_cons by done.
  apply Forall_cons in Hu as [Hun Hu]. rewrite chars_app by apply slashed_starts.
  by rewrite chars_slashed.
Qed.
Lemma utf8_slashed names : Forall (fun n => utf8 n = true) names -> forallb is_char (slashed_chars names) = true.
Proof.
  induction 1 as [|n names Hn _ IH]; [done|]. rewrite slashed_chars_cons. cbn [forallb].
  unfold utf8 in Hn. by rewrite forallb_app, IH, Hn.
Qed.

Lemma scan_root_names names : Forall (fun n => plain_name n = true) names ->
  scan_root (abs_path names) = abs_path (root_names names).
Proof.
  intros Hn. unfold scan_root. rewrite components_names by done. cbn [as_os_str].
  change (has_glob "/") with false. cbv iota. change (path_push "" "/") with (abs_path []).
  rewrite <- (app_nil_l (root_names names)). assert (Ha : Forall (fun n => plain_name n = true) []) by done.
  revert Ha. generalize (@nil string) as above. induction Hn as [|n names Hn Hns IH]; intros above Ha; cbn.
  - by rewrite app_nil_r.
  - change (existsb _ (list_ascii_of_string n)) with (has_glob n).
    destruct (has_glob n); [by rewrite app_nil_r|]. rewrite push_name by done.
    rewrite IH by (apply Forall_app; auto). by rewrite <- app_assoc.
Qed.
Lemma relative_names above below : Forall (fun n => plain_name n = true) (above ++ below) ->
  relative_parts (abs_path above) (abs_path (above ++ below)) = below.
Proof.
  intros Hn. unfold relative_parts. apply Forall_app in Hn as Hn'. destruct Hn' as [Ha _].
  rewrite !path_iter_names by done. cbn [List.length drop]. apply drop_app_length.
Qed.

Section Pruning.
Context `{RegexLaws}.

Lemma compiled_matches text re : utf8 text = true -> scan_compile_matcher text = inl re ->
  forall s, is_match re s = glob_matches text s.
Proof.
  intros Hu E s. destruct (glob_matchers_agree text s Hu) as (_ & _ & re' & E' & Hm). congruence.
Qed.
(** The prefixes are matchers of the pattern's first names. *)
Lemma prefixes_compiled parts : forall above prefixes,
  compile_prefixes parts (rel_path above) = inl prefixes ->
  List.length prefixes = List.length (local_parts parts)
  /\ forall i re, prefixes !! i = Some re ->
       scan_compile_matcher (rel_path (above ++ take (S i) (local_parts parts))) = inl re.
Proof.
  induction parts as [|p parts IH]; intros above prefixes; cbn [compile_prefixes local_parts].
  { by intros [= <-]. }
  destruct (str_contains "**" p); [by intros [= <-]|].
  assert (E : path_push (rel_path above) p = rel_path (above ++ [p])).
  { unfold rel_path. by rewrite List.fold_left_app. }
  rewrite E. destruct (scan_compile_matcher (rel_path (above ++ [p]))) as [re|] eqn:Ec; [|done].
  destruct (compile_prefixes parts (rel_path (above ++ [p]))) as [rest|] eqn:Er; [|done].
  intros [= <-]. destruct (IH _ _ Er) as [Hl Hre]. split; [cbn; by rewrite Hl|].
  intros [|i] re' Hi; cbn in Hi.
  - by injection Hi as <-.
  - apply Hre in Hi. by rewrite <- app_assoc in Hi.
Qed.

(** ** A pattern and the paths below its root *)
Variables names : list string.
Hypothesis Hplain : Forall (fun n => plain_name n = true) names.
Hypothesis Hutf8 : Forall (fun n => utf8 n = true) names.
Let roots := root_names names.
Let parts := pattern_names names.
Hypothesis Hparts : parts <> [].
Variable p : Pattern.
Hypothesis Hcompiled : pattern_compile (abs_path names) (scan_root (abs_path names)) = inl p.

Lemma names_are : names = roots ++ parts.
Proof. symmetry. apply names_split. Qed.
Lemma plain_roots : Forall (fun n => plain_name n = true) roots.
Proof. pose proof Hplain as Hp. rewrite names_are in Hp. by apply Forall_app in Hp as []. Qed.
Lemma plain_parts : Forall (fun n => plain_name n = true) parts.
Proof. pose proof Hplain as Hp. rewrite names_are in Hp. by apply Forall_app in Hp as []. Qed.
Lemma utf8_roots : Forall (fun n => utf8 n = true) roots.
Proof. pose proof Hutf8 as Hp. rewrite names_are in Hp. by apply Forall_app in Hp as []. Qed.
Lemma utf8_parts : Forall (fun n => utf8 n = true) parts.
Proof. pose proof Hutf8 as Hp. rewrite names_are in Hp. by apply Forall_app in Hp as []. Qed.
Lemma utf8_pattern : utf8 (abs_path names) = true.
Proof.
  unfold utf8. rewrite chars_names; [by apply utf8_slashed|done|].
  rewrite names_are. intros E. apply app_eq_nil in E as []. by apply Hparts.
Qed.
Lemma local_names : Forall (fun q => local_name q = true) (local_parts parts).
Proof.
  assert (Hs : Forall (fun n => plain_name n = true) (local_parts parts)).
  { destruct (local_parts_split parts) as (more & E & _). pose proof plain_parts as Hp. rewrite E in Hp.
    by apply Forall_app in Hp as []. }
  pose proof (local_parts_free parts) as Hf. apply Forall_forall. intros q Hq.
  rewrite Forall_forall in Hs, Hf. unfold local_name.
  destruct (plain_name_parts q (Hs q Hq)) as (_ & _ & _ & ->). apply across_free_chars, Hf, Hq.
Qed.
Lemma root_locals : Forall (fun q => local_name q = true) roots.
Proof.
  apply Forall_forall. intros q Hq. apply no_glob_local.
  - by apply plain_name_parts, (proj1 (Forall_forall _ _) plain_roots).
  - by apply (proj1 (Forall_forall _ _) (root_names_plain names)).
Qed.
Lemma compiled_parts : pt_text p = abs_path names
  /\ pt_recursive p = existsb (str_contains "**") parts /\ pt_depth p = len parts
  /\ (forall s, is_match (pt_matcher p) s = glob_matches (abs_path names) s)
  /\ List.length (pt_prefixes p) = List.length (local_parts parts)
  /\ forall i re, pt_prefixes p !! i = Some re ->
       scan_compile_matcher (rel_path (take (S i) (local_parts parts))) = inl re.
Proof.
  revert Hcompiled. unfold pattern_compile. rewrite scan_root_names by done. fold roots.
  assert (Er : relative_parts (abs_path roots) (abs_path names) = parts).
  { rewrite names_are at 1. apply relative_names. by rewrite <- names_are. }
  rewrite Er. destruct (compile_prefixes parts "") as [prefixes|] eqn:Ep; [|done].
  destruct (scan_compile_matcher (abs_path names)) as [re|] eqn:Em; [|done]. intros [= <-]. cbn.
  destruct (prefixes_compiled parts [] prefixes Ep) as [Hl Hre]. split_and!; [done..| |done|done].
  by apply compiled_matches; [apply utf8_pattern|].
Qed.

(** The names of a matching path, against the pattern's. *)
Lemma matching_names below : Forall (fun n => plain_name n = true) below -> Forall (fun n => utf8 n = true) below ->
  roots ++ below <> [] -> glob_matches (abs_path names) (abs_path (roots ++ below)) = true ->
  exists above rest more, below = above ++ rest /\ parts = local_parts parts ++ more
    /\ Forall2 name_matches (local_parts parts) above
    /\ (existsb (str_contains "**") parts = false -> more = [] /\ rest = []).
Proof.
  intros Hb Hub Hne Hm. destruct (local_parts_split parts) as (more & Em & Hmore).
  apply glob_matches_spec in Hm. rewrite (chars_names (roots ++ below)) in Hm;
    [|by apply Forall_app; split; [apply utf8_roots|]|done].
  rewrite chars_names in Hm; [|done|rewrite names_are; intros E; apply app_eq_nil in E as []; by apply Hparts].
  rewrite names_are, Em, app_assoc in Hm.
  apply names_match in Hm as (above & rest & E & Hf & Hr).
  - apply Forall2_app_inv_l in Hf as (a1 & a2 & H1 & H2 & ->).
    apply Forall2_length in H1. rewrite <- app_assoc in E. apply app_inj_1 in E as [-> ->]; [|done].
    exists a2, rest, more. split_and!; [done..|]. intros Hx. specialize (Hmore Hx). subst more.
    split; [done|]. destruct rest; [done|]. inversion Hr.
  - apply Forall_app. split; [apply root_locals|apply local_names].
  - apply Forall_app. split; [eapply Forall_impl; [apply plain_roots|]|eapply Forall_impl; [apply Hb|]];
      intros n Hn; by apply (plain_name_parts n Hn).
Qed.

(** A pattern without [**] only matches at its own depth. *)
Lemma matching_depth below : Forall (fun n => plain_name n = true) below -> Forall (fun n => utf8 n = true) below ->
  roots ++ below <> [] -> glob_matches (abs_path names) (abs_path (roots ++ below)) = true ->
  pt_recursive p = false -> len below = pt_depth p.
Proof.
  intros Hb Hub Hne Hm. destruct compiled_parts as (_ & -> & -> & _). intros Hx.
  destruct (matching_names below Hb Hub Hne Hm) as (above & rest & more & -> & E & Hf & Hr).
  destruct (Hr Hx) as [-> ->]. rewrite app_nil_r in *. rewrite E. unfold len. f_equal.
  symmetry. by apply Forall2_length in Hf.
Qed.
(** No directory above a matching path is pruned. *)
Lemma matching_descends below k : Forall (fun n => plain_name n = true) below ->
  Forall (fun n => utf8 n = true) below -> roots ++ below <> [] ->
  glob_matches (abs_path names) (abs_path (roots ++ below)) = true ->
  (k < List.length below)%nat -> can_descend p (take k below) (Z.of_nat k) = true.
Proof.
  intros Hb Hub Hne Hm Hk. unfold can_descend.
  destruct compiled_parts as (_ & Hrec & Hdepth & _ & Hl & Hre).
  destruct (negb (pt_recursive p) && _) eqn:E1.
  { apply andb_true_iff in E1 as [Hx%negb_true_iff Hd]. pose proof (matching_depth below Hb Hub Hne Hm Hx) as Hd'.
    unfold len in Hd'. lia. }
  destruct (Z.of_nat k =? 0) eqn:E2; [done|].
  unfold len. destruct (Z.min _ _ =? 0) eqn:E3; [done|]. rewrite Hl in *.
  set (c := Nat.min k (List.length (local_parts parts))).
  assert (Hc : Z.min (Z.of_nat k) (Z.of_nat (List.length (local_parts parts))) = Z.of_nat c) by lia.
  rewrite Hc in *. replace (Z.to_nat (Z.of_nat c - 1)) with (c - 1)%nat by lia. rewrite Nat2Z.id.
  destruct (pt_prefixes p !! (c - 1)%nat) as [re|] eqn:Ei.
  2:{ apply lookup_ge_None in Ei. lia. }
  apply Hre in Ei. replace (S (c - 1)) with c in Ei by lia.
  destruct (matching_names below Hb Hub Hne Hm) as (above & rest & more & -> & E & Hf & _).
  rewrite take_take, Nat.min_l by lia. pose proof (Forall2_length _ _ _ Hf) as Hlen.
  rewrite take_app_le by lia. fold (rel_path (take c above)).
  pose proof plain_parts as Hpp. pose proof utf8_parts as Hup. rewrite E in Hpp, Hup.
  apply Forall_app in Hpp as [Hpp _], Hup as [Hup _], Hb as [Hb _], Hub as [Hub _].
  assert (Hpt : take c (local_parts parts) <> []).
  { intros En. apply (f_equal List.length) in En. rewrite length_take in En. cbn in En. lia. }
  assert (Hat : take c above <> []).
  { intros En. apply (f_equal List.length) in En. rewrite length_take in En. cbn in En. lia. }
  assert (Hpc := rel_path_chars _ (Forall_take _ c _ Hpp) (Forall_take _ c _ Hup) Hpt).
  assert (Hac := rel_path_chars _ (Forall_take _ c _ Hb) (Forall_take _ c _ Hub) Hat).
  rewrite (compiled_matches _ _) with (2 := Ei).
  - apply glob_matches_spec.
    pose proof (names_match_back _ _ (Forall_take _ c _ local_names) (Forall2_take _ _ _ c Hf)) as Hs.
    rewrite <- Hpc, <- Hac, atoms_slash in Hs. by inversion Hs.
  - unfold utf8. pose proof (utf8_slashed _ (Forall_take _ c _ Hup)) as Hu. rewrite <- Hpc in Hu.
    by apply andb_true_iff in Hu as [_ Hu].
Qed.
End Pruning.

(** * Sets of paths *)
Lemma component_compare_eq a b : component_compare a b = Eq -> a = b.
Proof.
  destruct a, b; cbn; try done. intros E. f_equal. by apply String.compare_eq_iff.
Qed.
Lemma path_compare_eq a b : path_compare a b = Eq -> path_eq a b = true.
Proof.
  unfold path_compare. intros E. apply bool_decide_eq_true. revert E.
  generalize (components b) as y. induction (components a) as [|c x IH]; intros [|d y]; cbn; try done.
  destruct (component_compare c d) eqn:E; try done. apply component_compare_eq in E as ->.
  intros Exy. by rewrite (IH y Exy).
Qed.
Lemma contains_path_in l q : In q l -> contains_path l q = true.
Proof. intros Hq. apply List.existsb_exists. exists q. split; [done|apply path_eq_refl]. Qed.
Lemma path_set_insert_ok x l : let '(fresh, l') := path_set_insert x l in
  (forall y, In y l' <-> In y l \/ (fresh = true /\ y = x)) /\ contains_path l' x = true
  /\ List.length l' = (List.length l + if fresh then 1 else 0)%nat.
Proof.
  induction l as [|y l IH]; cbn.
  - split_and!; [naive_solver| |done]. by rewrite path_eq_refl.
  - destruct (path_compare x y) eqn:E.
    + split_and!; [naive_solver| |cbn; lia]. cbn. by rewrite path_compare_eq.
    + split_and!; [naive_solver| |cbn; lia]. cbn. by rewrite path_eq_refl.
    + destruct (path_set_insert x l) as [fresh l']. destruct IH as (Hi & Hc & Hl). split_and!.
      * intros z. cbn. rewrite Hi. tauto.
      * cbn. unfold contains_path in Hc. by rewrite Hc, orb_true_r.
      * cbn. by rewrite Hl.
Qed.

(** * What a step of the walk adds *)
Section Walks.
Context `{SandboxHost} `{RegexLaws} `{ScanHost}.

Definition results (s : ScanState) (t : string) : list string := default [] (sc_results s !! t).
Definition found (s : ScanState) (t q : string) : Prop := contains_path (results s t) q = true.
(** A step adds paths of [R] only, and forgets nothing. *)
Record adds (R : string -> string -> Prop) (s s' : ScanState) : Prop := {
  ad_sound : forall t q, In q (results s' t) -> In q (results s t) \/ R t q;
  ad_keeps : forall t q, In q (results s t) -> In q (results s' t);
  ad_keys : forall t, is_Some (sc_results s !! t) -> is_Some (sc_results s' !! t)
}.
Definition complete (R : string -> string -> Prop) (s : ScanState) : Prop := forall t q, R t q -> found s t q.

Lemma found_keeps R s s' t q : adds R s s' -> found s t q -> found s' t q.
Proof.
  intros [_ Hk _]. unfold found, contains_path. rewrite !List.existsb_exists. naive_solver.
Qed.
Lemma adds_same (R : string -> string -> Prop) s s' : sc_results s' = sc_results s -> adds R s s'.
Proof. intros E. split; unfold results; rewrite E; auto. Qed.
Lemma adds_trans (R1 R2 R : string -> string -> Prop) s1 s2 s3 : adds R1 s1 s2 -> adds R2 s2 s3 ->
  (forall t q, R1 t q -> R t q) -> (forall t q, R2 t q -> R t q) -> adds R s1 s3.
Proof.
  intros [S1 K1 D1] [S2 K2 D2] F1 F2. split; [|auto|auto].
  intros t q Hq. destruct (S2 t q Hq) as [Hq'|]; [|auto]. destruct (S1 t q Hq'); auto.
Qed.
Lemma complete_keeps R C s s' : adds R s s' -> complete C s -> complete C s'.
Proof. intros Ha Hc t q Hr. by eapply found_keeps, Hc. Qed.
Lemma checked_same s root pattern s' : checked s root pattern = inl s' -> sc_results s' = sc_results s.
Proof. unfold checked. destruct (check _ _ _); [|done]. by intros [= <-]. Qed.

Lemma insert_matches_ok root text paths : forall s s', insert_matches root text paths s = inl s' ->
  adds (fun t q => t = text /\ In q paths) s s' /\ forall q, In q paths -> found s' text q.
Proof.
  induction paths as [|path paths IH]; intros s s'; cbn [insert_matches].
  { intros [= <-]. split; [by apply adds_same|done]. }
  pose proof (path_set_insert_ok path (results s text)) as Hi. unfold results in Hi.
  destruct (path_set_insert path _) as [fresh matches]. destruct Hi as (Hin & Hc & _).
  destruct fresh; cbn [negb].
  - set (s1 := mkScanState _ _ _). destruct (_ || _); [done|]. intros E.
    assert (R1 : results s1 text = matches) by (unfold results, s1, Matches in *; cbn; by rewrite lookup_insert_eq).
    assert (R2 : forall t, t <> text -> results s1 t = results s t).
    { intros t Ht. unfold results, s1, Matches in *. cbn. by rewrite lookup_insert_ne. }
    assert (A1 : adds (fun t q => t = text /\ q = path) s s1).
    { split.
      - intros t q. destruct (decide (t = text)) as [->|Ht]; [|rewrite R2 by done; auto].
        rewrite R1, Hin. unfold results. naive_solver.
      - intros t q. destruct (decide (t = text)) as [->|Ht]; [|by rewrite R2].
        rewrite R1, Hin. auto.
      - intros t Ht. unfold s1, Matches in *. cbn. destruct (decide (t = text)) as [->|Hne].
        + rewrite lookup_insert_eq. eauto.
        + by rewrite lookup_insert_ne. }
    destruct (IH _ _ E) as [A2 C2]. split.
    { eapply adds_trans; [exact A1|exact A2|..].
      - intros t q [-> ->]. split; [done|by left].
      - intros t q [-> Hq]. split; [done|by right]. }
    intros q [<-|Hq]; [|by apply C2]. eapply found_keeps; [exact A2|]. unfold found. by rewrite R1.
  - intros E. destruct (IH _ _ E) as [A2 C2].
    split.
    { eapply adds_trans; [by apply (adds_same (fun _ _ => False))|exact A2|done|].
      intros t q [-> Hq]. split; [done|by right]. }
    intros q [<-|Hq]; [|by apply C2]. eapply found_keeps; [exact A2|].
    unfold found, results, contains_path in *. rewrite List.existsb_exists in *.
    destruct Hc as (y & Hy & Ey). exists y. split; [|done]. apply Hin in Hy as [Hy|[]]; done.
Qed.

(** The paths an entry stands for: its own, and where a symbolic link leads. *)
Definition target (path : string) (ty : FileType) (q : string) : Prop :=
  q = path \/ (ty = Symlink /\ canonicalize path = Some q).
Definition at_depth (p : Pattern) (depth : usize) : bool := pt_recursive p || (depth =? pt_depth p).
Definition hit (patterns : list Pattern) (path : string) (ty : FileType) (depth : usize) (t q : string) : Prop :=
  exists p, In p patterns /\ pt_text p = t /\ at_depth p depth = true
    /\ is_match (pt_matcher p) path = true /\ target path ty q.
Lemma match_patterns_ok root path ty depth patterns : forall s s',
  match_patterns root path ty depth patterns s = inl s' ->
  adds (hit patterns path ty depth) s s' /\ complete (hit patterns path ty depth) s'.
Proof.
  induction patterns as [|p patterns IH]; intros s s'; cbn [match_patterns].
  { intros [= <-]. split; [by apply adds_same|]. intros t q (p & [] & _). }
  destruct (checked s root (pt_text p)) as [s1|] eqn:Ec; [|done].
  pose proof (adds_same (fun _ _ => False) _ _ (checked_same _ _ _ _ Ec)) as A1.
  assert (Hskip : negb (pt_recursive p) && negb (depth =? pt_depth p) = negb (at_depth p depth)).
  { unfold at_depth. by destruct (pt_recursive p). }
  rewrite Hskip. destruct (negb _ || negb _) eqn:Es.
  - intros E. destruct (IH _ _ E) as [A2 C2].
    assert (Hno : forall t q, hit (p :: patterns) path ty depth t q -> hit patterns path ty depth t q).
    { intros t q (p' & [<-|Hp] & Ht & Hd & Hm & Hq); [|by exists p'].
      apply orb_true_iff in Es as [Es%negb_true_iff|Es%negb_true_iff]; congruence. }
    split.
    + eapply adds_trans; [exact A1|exact A2|done|]. intros t q (p' & Hp & ?). exists p'. split; [by right|done].
    + intros t q Hh. by apply C2, Hno.
  - apply orb_false_iff in Es as [Hd%negb_false_iff Hm%negb_false_iff].
    destruct (match ty with Symlink => _ | _ => _ end) as [paths|] eqn:Ep; [|done].
    assert (Hpaths : forall q, In q paths <-> target path ty q).
    { unfold target. intros q. destruct ty.
      1,2: injection Ep as <-; cbn; naive_solver.
      destruct (canonicalize path) as [c|]; [|done]. injection Ep as <-. cbn. naive_solver. }
    destruct (insert_matches root (pt_text p) paths s1) as [s2|] eqn:Ei; [|done].
    destruct (insert_matches_ok _ _ _ _ _ Ei) as [A2 C2]. intros E. destruct (IH _ _ E) as [A3 C3]. split.
    + eapply adds_trans; [|exact A3| |].
      * eapply (adds_trans _ _ (hit (p :: patterns) path ty depth)); [exact A1|exact A2|done|].
        intros t q [-> Hq]. exists p. rewrite <- Hpaths. split_and!; [by left|done..].
      * done.
      * intros t q (p' & Hp & ?). exists p'. split; [by right|done].
    + intros t q (p' & [<-|Hp] & <- & Hd' & Hm' & Hq); [|by apply C3; exists p'].
      eapply found_keeps; [exact A3|]. by apply C2, Hpaths.
Qed.

(** * A whole walk *)
(** What a walk lists, without any pruning: itself, and what is below a
    directory. *)
Inductive listed : Walk -> string -> FileType -> Prop :=
| listed_here path ty below : listed (WalkEntry path ty below) path ty
| listed_below path below w path' ty : In w below -> listed w path' ty ->
    listed (WalkEntry path Directory below) path' ty.
(** The entries below a path carry the path with a name pushed. *)
Fixpoint tree (path : string) (w : Walk) {struct w} : Prop :=
  match w with
  | WalkError _ => True
  | WalkEntry p _ below =>
      p = path
      /\ (fix all ws := match ws with
          | [] => True
          | w :: r => (exists name, plain_name name = true /\ utf8 name = true /\ tree (path_push path name) w) /\ all r
          end) below
  end.
Lemma tree_below path p ty below w : tree path (WalkEntry p ty below) -> In w below ->
  p = path /\ exists name, plain_name name = true /\ utf8 name = true /\ tree (path_push path name) w.
Proof.
  intros [-> Hb] Hw. split; [done|]. induction below as [|w' below IH]; [done|]. destruct Hb as [Hn Hb].
  destruct Hw as [<-|Hw]; [done|by apply IH].
Qed.
Definition walk_each (root context : string) (patterns : list Pattern) (depth : usize) :=
  fix walk_all (ws : list Walk) (s : ScanState) : ScanState + ScanError :=
    match ws with
    | [] => inl s
    | w :: r => match walk_entry root context patterns depth w s with
                | inl s => walk_all r s
                | inr e => inr e
                end
    end.
Lemma walk_entry_listing root context patterns depth path ty below s s' :
  walk_entry root context patterns depth (WalkEntry path ty below) s = inl s' ->
  exists s1 s2, sc_results s1 = sc_results s /\ match_patterns root path ty depth patterns s1 = inl s2
    /\ match ty with
       | Directory =>
           match List.find (fun p => can_descend p (relative_parts root path) depth) patterns with
           | None => s' = s2
           | Some _ => walk_each root context patterns (depth + 1) below s2 = inl s'
           end
       | _ => s' = s2
       end.
Proof.
  change (walk_entry root context patterns depth (WalkEntry path ty below) s)
    with (match checked s root context with
          | inr e => inr e
          | inl s =>
              let s := s <| sc_budget ::= set_field bg_visited (fun n => n + 1) |> in
              match checked s root context with
              | inr e => inr e
              | inl s =>
                  if (depth =? 0) && bool_decide (ty = Symlink)
                  then inr (budget_error (sc_budget s) "glob_scan_io_error" root context
                              "static scan root became a symlink")
                  else
                    match match_patterns root path ty depth patterns s with
                    | inr e => inr e
                    | inl s =>
                        match ty with
                        | Directory =>
                            match List.find (fun p => can_descend p (relative_parts root path) depth) patterns with
                            | None => inl s
                            | Some p =>
                                if MAX_DEPTH <=? depth
                                then inr (budget_error (sc_budget s) "glob_scan_depth_limit" root (pt_text p)
                                            ("depth=" +:+ show depth +:+ ", limit=" +:+ show MAX_DEPTH))
                                else walk_each root context patterns (depth + 1) below s
                            end
                        | _ => inl s
                        end
                    end
              end
          end).
  destruct (checked s root context) as [s0|] eqn:E0; [|done]. cbv zeta.
  destruct (checked (s0 <| sc_budget ::= _ |>) root context) as [s1|] eqn:E1; [|done].
  destruct (_ && _); [done|]. destruct (match_patterns root path ty depth patterns s1) as [s2|] eqn:E2; [|done].
  intros E. exists s1, s2. split_and!; [|done|].
  - apply checked_same in E0, E1. by rewrite E1, <- E0.
  - destruct ty; [by injection E| |by injection E].
    destruct (List.find _ patterns); [|by injection E]. by destruct (MAX_DEPTH <=? depth).
Qed.

(** Induction over the tree of a walk. *)
Lemma Walk_tree_ind (P : Walk -> Prop) : (forall e, P (WalkError e)) ->
  (forall path ty below, (forall w, In w below -> P w) -> P (WalkEntry path ty below)) -> forall w, P w.
Proof.
  intros He Hw. fix IH 1. intros [path ty below|e]; [|apply He]. apply Hw.
  induction below as [|w below IHb]; [intros w' []|]. intros w' [<-|Hw']; [apply IH|exact (IHb w' Hw')].
Qed.

(** The patterns of one group: compiled from texts with the same root. *)
Definition group_pattern (roots : list string) (p : Pattern) : Prop :=
  exists names, Forall (fun n => plain_name n = true) names /\ Forall (fun n => utf8 n = true) names
    /\ pattern_names names <> [] /\ root_names names = roots
    /\ pattern_compile (abs_path names) (scan_root (abs_path names)) = inl p.

(** A listed path below the group's root has names below it. *)
Lemma listed_names w : forall path above p' ty, tree path w ->
  Forall (fun n => plain_name n = true) above -> path = abs_path above -> listed w p' ty ->
  exists below, p' = abs_path (above ++ below) /\ Forall (fun n => plain_name n = true) below
    /\ Forall (fun n => utf8 n = true) below.
Proof.
  induction w as [e|p ty below IH] using Walk_tree_ind; intros path above p' ty' Ht Ha -> Hl.
  { inversion Hl. }
  inversion Hl as [|? ? w ? ? Hw Hl']; subst.
  - destruct Ht as [-> _]. exists []. by rewrite app_nil_r.
  - destruct (tree_below _ _ _ _ w Ht Hw) as (-> & name & Hn & Hu & Ht').
    destruct (IH w Hw (path_push (abs_path above) name) (above ++ [name]) p' ty' Ht') as (rest & -> & Hr & Hur).
    + apply Forall_app. auto.
    + by apply push_name.
    + done.
    + exists (name :: rest). rewrite <- app_assoc. split_and!; [done|by constructor|by constructor].
Qed.

Section OneGroup.
Variables (roots : list string) (patterns : list Pattern).
Hypothesis Hroots : Forall (fun n => plain_name n = true) roots.
Hypothesis Hgroup : forall p, In p patterns -> group_pattern roots p.

(** What the walk should find: every listed path a pattern matches, whatever
    its depth; only a pattern with [**] is asked about the root of the file
    system. *)
Definition expected (w : Walk) (t q : string) : Prop :=
  exists p path ty, In p patterns /\ pt_text p = t /\ listed w path ty
    /\ (path <> "/" \/ pt_recursive p = true)
    /\ is_match (pt_matcher p) path = true /\ target path ty q.

Lemma walk_each_ok context depth (R C : Walk -> string -> string -> Prop) ws : forall s s',
  (forall w s s', In w ws -> walk_entry (abs_path roots) context patterns depth w s = inl s' ->
     adds (R w) s s' /\ complete (C w) s') ->
  walk_each (abs_path roots) context patterns depth ws s = inl s' ->
  adds (fun t q => exists w, In w ws /\ R w t q) s s'
  /\ complete (fun t q => exists w, In w ws /\ C w t q) s'.
Proof.
  induction ws as [|w ws IH]; intros s s' Hw; cbn [walk_each].
  { intros [= <-]. split; [by apply adds_same|]. by intros t q (w & [] & _). }
  destruct (walk_entry _ _ _ _ w s) as [s1|] eqn:E; [|done]. intros E'.
  destruct (Hw w s s1 (or_introl eq_refl) E) as [A1 C1].
  destruct (IH s1 s') as [A2 C2]; [intros w' z z' Hi; apply Hw; by right|done|]. split.
  - eapply adds_trans; [exact A1|exact A2|..]; cbn.
    + intros t q Hr. exists w. auto.
    + intros t q (w' & Hi & Hr). exists w'. auto.
  - intros t q (w' & [<-|Hi] & Hc); [|by apply C2; exists w'].
    eapply found_keeps; [exact A2|]. by apply C1.
Qed.

Lemma pattern_at_depth p below : In p patterns ->
  Forall (fun n => plain_name n = true) below -> Forall (fun n => utf8 n = true) below ->
  roots ++ below <> [] -> is_match (pt_matcher p) (abs_path (roots ++ below)) = true ->
  at_depth p (len below) = true.
Proof.
  intros Hp Hb Hub Hne Hm.
  destruct (Hgroup p Hp) as (names & Hn & Hu & Hps & <- & Hc).
  destruct (compiled_parts names Hn Hu Hps p Hc) as (_ & _ & _ & Hmm & _). rewrite Hmm in Hm.
  unfold at_depth. destruct (pt_recursive p) eqn:Er; [done|]. apply Z.eqb_eq.
  by apply (matching_depth names Hn Hu Hps p Hc below).
Qed.
Lemma pattern_descends p below k : In p patterns ->
  Forall (fun n => plain_name n = true) below -> Forall (fun n => utf8 n = true) below ->
  roots ++ below <> [] -> is_match (pt_matcher p) (abs_path (roots ++ below)) = true ->
  (k < List.length below)%nat -> can_descend p (take k below) (Z.of_nat k) = true.
Proof.
  intros Hp Hb Hub Hne Hm. destruct (Hgroup p Hp) as (names & Hn & Hu & Hps & <- & Hc).
  destruct (compiled_parts names Hn Hu Hps p Hc) as (_ & _ & _ & Hmm & _). rewrite Hmm in Hm.
  by apply (matching_descends names Hn Hu Hps p Hc below k).
Qed.

Lemma walk_entry_ok context w : forall above s s', tree (abs_path (roots ++ above)) w ->
  Forall (fun n => plain_name n = true) above -> Forall (fun n => utf8 n = true) above ->
  walk_entry (abs_path roots) context patterns (len above) w s = inl s' ->
  adds (expected w) s s' /\ complete (expected w) s'.
Proof.
  induction w as [e|path ty below IH] using Walk_tree_ind; intros above s s' Ht Ha Hua.
  { cbn. by destruct (checked _ _ _). }
  intros E. apply walk_entry_listing in E as (s1 & s2 & E1 & E2 & E).
  apply match_patterns_ok in E2 as [A2 C2].
  assert (Hpath : path = abs_path (roots ++ above)) by apply Ht.
  assert (Hall : Forall (fun n => plain_name n = true) (roots ++ above)) by (apply Forall_app; auto).
  (* the entry itself *)
  assert (Hhere : forall p, In p patterns -> is_match (pt_matcher p) path = true ->
    at_depth p (len above) = true <-> path <> "/" \/ pt_recursive p = true).
  { intros p Hp Hm. split.
    - unfold at_depth. intros [Hr|Hd%Z.eqb_eq]%orb_true_iff; [by right|left]. rewrite Hpath. intros En.
      change "/" with (abs_path []) in En. apply abs_path_inj in En; [|done|done].
      apply app_eq_nil in En as [_ ->]. destruct (Hgroup p Hp) as (names & Hn & Hu & Hps & _ & Hc).
      destruct (compiled_parts names Hn Hu Hps p Hc) as (_ & _ & Hd' & _). rewrite Hd' in Hd.
      unfold len in Hd. by destruct (pattern_names names).
    - intros [Hne|Hr]; [|unfold at_depth; by rewrite Hr]. subst path.
      apply (pattern_at_depth p above); try done. intros En. by rewrite En in Hne. }
  assert (A : adds (expected (WalkEntry path ty below)) s s2).
  { eapply adds_trans; [by apply (adds_same (fun _ _ => False))|exact A2|done|].
    intros t q (p & Hp & Et & Hd & Hm & Hq). exists p, path, ty.
    split_and!; [done..|constructor|by apply Hhere|done|done]. }
  assert (C : complete (fun t q => exists p, In p patterns /\ pt_text p = t
                          /\ (path <> "/" \/ pt_recursive p = true) /\ is_match (pt_matcher p) path = true /\ target path ty q) s2).
  { intros t q (p & Hp & Et & Hne & Hm & Hq). apply C2. exists p. split_and!; [done..| |done|done]. by apply Hhere. }
  assert (Hlist : forall t q, expected (WalkEntry path ty below) t q ->
    (exists p, In p patterns /\ pt_text p = t /\ (path <> "/" \/ pt_recursive p = true)
       /\ is_match (pt_matcher p) path = true /\ target path ty q)
    \/ (ty = Directory /\ (exists w, In w below /\ expected w t q)
        /\ exists p rest, In p patterns /\ rest <> [] /\ Forall (fun n => plain_name n = true) (above ++ rest)
             /\ Forall (fun n => utf8 n = true) (above ++ rest)
             /\ is_match (pt_matcher p) (abs_path (roots ++ above ++ rest)) = true)).
  { intros t q (p & path' & ty' & Hp & Et & Hl & Hne & Hm & Hq).
    inversion Hl as [|? ? w ? ? Hw Hl']; subst; [left; by exists p|]. right. split; [done|]. split.
    - exists w. split; [done|]. by exists p, path', ty'.
    - destruct (tree_below _ _ _ _ w Ht Hw) as (_ & name & Hn & Hu & Ht').
      destruct (listed_names w _ ((roots ++ above) ++ [name]) path' ty' Ht') as (rest & -> & Hr & Hur).
      + apply Forall_app. auto.
      + by apply push_name.
      + done.
      + exists p, (name :: rest). rewrite <- !app_assoc in Hm.
        split_and!; [done|done|apply Forall_app; auto|apply Forall_app; auto|done]. }
  destruct ty.
  - subst s'. split; [done|]. intros t q [Hx|[[=] _]]%Hlist. by apply C.
  - destruct (List.find _ patterns) as [d|] eqn:Ef.
    + apply (walk_each_ok context (len above + 1) expected expected) in E as [A3 C3].
      * split.
        -- eapply adds_trans; [exact A|exact A3|done|].
           intros t q (w & Hw & p & path' & ty' & Hp & Et & Hl & Hne & Hm & Hq). exists p, path', ty'.
           split_and!; [done..|by eapply listed_below|done|done|done].
        -- intros t q [Hx|(_ & Hx & _)]%Hlist; [|by apply C3].
           eapply found_keeps; [exact A3|]. by apply C.
      * intros w z z' Hw Ez. destruct (tree_below _ _ _ _ w Ht Hw) as (-> & name & Hn & Hu & Ht').
        rewrite push_name, <- app_assoc in Ht' by done. apply (IH w Hw (above ++ [name])); try done.
        -- apply Forall_app; auto.
        -- apply Forall_app; auto.
        -- replace (len (above ++ [name])) with (len above + 1); [done|].
           unfold len. rewrite List.length_app. cbn. lia.
    + subst s'. split; [done|].
      intros t q [Hx|(_ & _ & p & rest & Hp & Hne & Hn & Hu & Hm)]%Hlist; [by apply C|]. exfalso.
      assert (Hd : can_descend p (take (List.length above) (above ++ rest)) (Z.of_nat (List.length above)) = true).
      { apply pattern_descends; try done.
        - intros En. apply app_eq_nil in En as [_ En]. apply app_eq_nil in En as []. done.
        - rewrite List.length_app. destruct rest; [done|]. cbn. lia. }
      rewrite take_app_length in Hd.
      pose proof (List.find_none _ _ Ef p Hp) as Hf. cbn in Hf. rewrite Hpath, relative_names in Hf by done.
      unfold len in Hf. congruence.
  - subst s'. split; [done|]. intros t q [Hx|[[=] _]]%Hlist. by apply C.
Qed.
End OneGroup.
End Walks.

(** * Groups *)
(** A pattern the scan is asked about: absolute, normal, with a wildcard. *)
Definition scannable (text : string) : Prop :=
  exists names, text = abs_path names /\ Forall (fun n => plain_name n = true) names
    /\ Forall (fun n => utf8 n = true) names /\ pattern_names names <> [].

Section Groups.
Context `{SandboxHost} `{RegexLaws} `{ScanHost}.

Definition group_ok (g : string * list Pattern) : Prop :=
  exists roots, Forall (fun n => plain_name n = true) roots /\ fst g = abs_path roots
    /\ forall p, In p (snd g) -> group_pattern roots p.
Definition in_groups (groups : Groups) (p : Pattern) : Prop := exists g, In g groups /\ In p (snd g).
Lemma group_push_ok root p groups :
  (forall q, in_groups (group_push root p groups) q <-> q = p \/ in_groups groups q)
  /\ ((exists roots, Forall (fun n => plain_name n = true) roots /\ root = abs_path roots /\ group_pattern roots p) ->
      Forall group_ok groups -> Forall group_ok (group_push root p groups)).
Proof.
  unfold in_groups. induction groups as [|[r ps] groups [IHi IHo]]; cbn [group_push].
  - split; [cbn; naive_solver|]. intros (roots & Hr & -> & Hp) _. constructor; [|done].
    exists roots. split_and!; [done..|]. cbn. by intros q [<-|[]].
  - destruct (path_compare root r) eqn:E.
    + split.
      * intros q. split.
        -- intros (g & [<-|Hg] & Hq); [|right; exists g; cbn; auto]. cbn in Hq.
           apply in_app_iff in Hq as [Hq|[<-|[]]]; [|by left]. right. exists (r, ps). cbn. auto.
        -- intros [->|(g & [<-|Hg] & Hq)].
           ++ exists (r, ps ++ [p]). cbn. rewrite in_app_iff. cbn. auto.
           ++ exists (r, ps ++ [p]). cbn in *. rewrite in_app_iff. auto.
           ++ exists g. cbn. auto.
      * intros (roots & Hr & -> & Hp) [(roots' & Hr' & Er & Hps) Hgs]%Forall_cons. cbn in Er, Hps. constructor; [|done].
        apply path_compare_eq in E. apply normal_eq in E; [|by apply abs_path_normal|rewrite Er; by apply abs_path_normal].
        rewrite Er in E. apply abs_path_inj in E as ->; [|done..].
        exists roots'. split_and!; [done..|]. cbn. intros q [Hq|[<-|[]]]%in_app_iff; auto.
    + split.
      * intros q. cbn [In]. split.
        -- intros (g & [<-|Hg] & Hq); [|right; exists g; auto]. cbn in Hq. destruct Hq as [<-|[]]. by left.
        -- intros [->|(g & Hg & Hq)]; [exists (root, [p]); cbn; auto|exists g; cbn; auto].
      * intros (roots & Hr & -> & Hp) Hgs. constructor; [|done].
        exists roots. split_and!; [done..|]. cbn. by intros q [<-|[]].
    + split.
      * intros q. specialize (IHi q). split.
        -- intros (g & [<-|Hg] & Hq); [right; exists (r, ps); cbn; auto|].
           destruct (proj1 IHi (ex_intro _ g (conj Hg Hq))) as [|(g' & Hg' & Hq')]; [auto|].
           right. exists g'. cbn. auto.
        -- intros Hq. destruct Hq as [->|(g & [<-|Hg] & Hq)].
           ++ destruct (proj2 IHi (or_introl eq_refl)) as (g' & Hg' & Hq'). exists g'. cbn. auto.
           ++ exists (r, ps). cbn. auto.
           ++ destruct (proj2 IHi (or_intror (ex_intro _ g (conj Hg Hq)))) as (g' & Hg' & Hq'). exists g'. cbn. auto.
      * intros Hp [Hg Hgs]%Forall_cons. constructor; [done|]. by apply IHo.
Qed.

(** What the first loop leaves: every text is a key with no path yet, and has
    its pattern in a group. *)
Record compiled (groups : Groups) (results : gmap string (list string)) : Prop := {
  co_groups : Forall group_ok groups;
  co_empty : forall t l, results !! t = Some l -> l = [];
  co_keys : forall t, is_Some (results !! t) -> exists p, in_groups groups p /\ pt_text p = t
}.
Lemma compile_groups_ok patterns : forall b groups results b' groups' results',
  (forall t, In t patterns -> scannable t) -> compiled groups results ->
  compile_groups patterns b groups results = inl (b', groups', results') ->
  compiled groups' results' /\ (forall t, is_Some (results !! t) \/ In t patterns -> is_Some (results' !! t)).
Proof.
  unfold Matches in *.
  induction patterns as [|text patterns IH]; intros b groups results b' groups' results' Hs Hc;
    cbn [compile_groups]; unfold Matches in *.
  { intros [= <- <- <-]. split; [done|]. by intros t [|[]]. }
  destruct (check b (scan_root text) text) as [b1|]; [|done].
  assert (Hs' : forall t, In t patterns -> scannable t) by (intros t Ht; apply Hs; by right).
  destruct (results !! text) as [l|] eqn:El.
  - intros E. destruct (IH _ _ _ _ _ _ Hs' Hc E) as [Hc' Hk]. split; [done|].
    intros t [Ht|[<-|Ht]]; apply Hk; [by left|left; by rewrite El|by right].
  - destruct (MAX_PATTERNS <=? _); [done|].
    destruct (pattern_compile text (scan_root text)) as [p|] eqn:Ep; [|done].
    intros E. destruct (Hs text (or_introl eq_refl)) as (names & -> & Hn & Hu & Hps).
    destruct (compiled_parts names Hn Hu Hps p Ep) as (Etext & _).
    destruct (group_push_ok (scan_root (abs_path names)) p groups) as [Gi Go].
    destruct Hc as [C1 C2 C3].
    assert (Hc1 : compiled (group_push (scan_root (abs_path names)) p groups) (<[abs_path names:=[]]> results)).
    { split.
      - apply Go; [|done]. exists (root_names names). split_and!.
        + pose proof (names_are names) as En. rewrite En in Hn. by apply Forall_app in Hn as [].
        + by apply scan_root_names.
        + by exists names.
      - intros t l. destruct (decide (t = abs_path names)) as [->|Hne].
        + rewrite lookup_insert_eq. by intros [= <-].
        + rewrite lookup_insert_ne by done. apply C2.
      - intros t. destruct (decide (t = abs_path names)) as [->|Hne].
        + intros _. exists p. split; [|done]. apply Gi. by left.
        + rewrite lookup_insert_ne by done. intros Ht. destruct (C3 t Ht) as (q & Hq & Eq).
          exists q. split; [|done]. apply Gi. by right. }
    destruct (IH _ _ _ _ _ _ Hs' Hc1 E) as [Hc' Hk].
    split; [done|]. intros t [Ht|[<-|Ht]]; apply Hk.
    + left. destruct (decide (t = abs_path names)) as [->|Hne]; [rewrite lookup_insert_eq; eauto|].
      by rewrite lookup_insert_ne.
    + left. rewrite lookup_insert_eq. eauto.
    + by right.
Qed.

(** ** The walks of all groups *)
(** What [walkdir] documents: the paths of a walk are the root's with names
    pushed. *)
Class WalkLaws := {
  walk_law : forall roots, Forall (fun n => plain_name n = true) roots ->
    tree (abs_path roots) (walk_dir (abs_path roots));
  canonicalize_law : forall p q, canonicalize p = Some q -> normal q
}.
Context `{WalkLaws}.
Definition expected_in (g : string * list Pattern) (t q : string) : Prop :=
  symlink_metadata (fst g) <> StatNotFound /\ expected (snd g) (walk_dir (fst g)) t q.
Lemma scan_group_ok g s s' : group_ok g -> scan_group (fst g) (snd g) s = inl s' ->
  adds (expected_in g) s s' /\ complete (expected_in g) s'.
Proof.
  destruct g as [root ps]. intros (roots & Hr & Er & Hps) E. cbn in *. subst root. revert E. unfold scan_group.
  destruct (checked s _ _) as [s1|] eqn:E1; [|done]. apply checked_same in E1.
  destruct (symlink_metadata (abs_path roots)) as [|e|ty] eqn:Em; [|done|].
  - intros [= <-]. split; [by apply adds_same|]. intros t q [Hne _]. cbn in Hne. congruence.
  - destruct (walk_entry _ _ ps 0 _ s1) as [s2|] eqn:Ew; [|done].
    destruct (checked s2 _ _) as [s3|] eqn:E3; [|done]. apply checked_same in E3.
    intros E4%checked_same.
    destruct (walk_entry_ok roots ps Hr Hps (group_context ps) (walk_dir (abs_path roots)) [] s1 s2) as [A C].
    + rewrite app_nil_r. by apply walk_law.
    + done.
    + done.
    + exact Ew.
    + assert (Es : sc_results s' = sc_results s2) by congruence. split.
      * assert (A1 : adds (fun _ _ => False) s s1) by by apply adds_same.
        assert (A3 : adds (fun _ _ => False) s2 s') by by apply adds_same.
        assert (A2 : adds (expected ps (walk_dir (abs_path roots))) s1 s')
          by (eapply adds_trans; [exact A|exact A3|auto|done]).
        eapply adds_trans; [exact A1|exact A2|done|].
        intros t q Hx. unfold expected_in. cbn. split; [congruence|done].
      * intros t q [_ Hx]. unfold found, results. rewrite Es. by apply C.
Qed.
Lemma scan_groups_ok groups : forall s s', Forall group_ok groups -> scan_groups groups s = inl s' ->
  adds (fun t q => exists g, In g groups /\ expected_in g t q) s s'
  /\ complete (fun t q => exists g, In g groups /\ expected_in g t q) s'.
Proof.
  induction groups as [|g groups IH]; intros s s' Hg; cbn [scan_groups].
  { intros [= <-]. split; [by apply adds_same|]. by intros t q (g & [] & _). }
  apply Forall_cons in Hg as [Hg Hgs]. destruct g as [root ps].
  destruct (scan_group root ps s) as [s1|] eqn:E; [|done]. intros E'.
  destruct (scan_group_ok _ _ _ Hg E) as [A1 C1]. destruct (IH _ _ Hgs E') as [A2 C2]. split.
  - eapply adds_trans; [exact A1|exact A2|..]; cbn.
    + intros t q Hx. eauto.
    + intros t q (g & Hi & Hx). eauto.
  - intros t q (g & [<-|Hi] & Hx); [|by apply C2; eauto].
    eapply found_keeps; [exact A2|]. by apply C1.
Qed.

(** What a listing of the file system has for a pattern. *)
Definition matches_on_disk (text q : string) : Prop :=
  exists path ty, symlink_metadata (scan_root text) <> StatNotFound
    /\ listed (walk_dir (scan_root text)) path ty
    /\ (path <> "/" \/ existsb (str_contains "**") (path_iter text) = true)
    /\ glob_matches text path = true /\ target path ty q.

Lemma recursive_names names : Forall (fun n => plain_name n = true) names ->
  existsb (str_contains "**") (pattern_names names) = existsb (str_contains "**") (path_iter (abs_path names)).
Proof.
  intros Hn. rewrite path_iter_names by done. cbn [existsb]. change (str_contains "**" "/") with false. cbn [orb].
  rewrite <- (names_split names) at 2. rewrite List.existsb_app.
  assert (E : existsb (str_contains "**") (root_names names) = false); [|by rewrite E].
  apply existsb_false. intros n Hi. pose proof (root_names_plain names) as Hr. rewrite List.Forall_forall in Hr.
  specialize (Hr n Hi). clear -Hr. induction n as [|c n IH]; [done|].
  cbn [has_glob list_ascii_of_string existsb] in Hr. unfold has_glob in Hr.
  apply orb_false_iff in Hr as [[Hc _]%orb_false_iff Hr]. cbn [str_contains]. rewrite (IH Hr), orb_false_r.
  cbn [String.prefix]. apply Ascii.eqb_neq in Hc. by destruct (ascii_dec "*" c) as [<-|].
Qed.
Lemma expected_matches g p t q : group_ok g -> In p (snd g) -> pt_text p = t ->
  (exists path ty, listed (walk_dir (fst g)) path ty /\ (path <> "/" \/ pt_recursive p = true)
     /\ is_match (pt_matcher p) path = true /\ target path ty q) /\ symlink_metadata (fst g) <> StatNotFound
  <-> matches_on_disk t q.
Proof.
  intros (roots & Hr & Er & Hps) Hp <-. destruct (Hps p Hp) as (names & Hn & Hu & Hne & <- & Hc).
  destruct (compiled_parts names Hn Hu Hne p Hc) as (-> & Erec & _ & Hm & _).
  unfold matches_on_disk. rewrite <- recursive_names, <- Erec, scan_root_names, <- Er by done.
  setoid_rewrite Hm. split.
  - intros [(path & ty & Hl & Hs & Hmm & Ht) Hex]. by exists path, ty.
  - intros (path & ty & Hex & Hl & Hs & Hmm & Ht). split; [|done]. by exists path, ty.
Qed.
Lemma target_normal path ty q : normal path -> target path ty q -> normal q.
Proof. intros Hn [->|[_ Hc]]; [done|by eapply canonicalize_law]. Qed.

Lemma root_names_ok names : Forall (fun n => plain_name n = true) names ->
  Forall (fun n => plain_name n = true) (root_names names).
Proof. intros Hn. pose proof (names_are names) as En. rewrite En in Hn. by apply Forall_app in Hn as []. Qed.
Lemma on_disk_normal text q : scannable text -> matches_on_disk text q -> normal q.
Proof.
  intros (names & -> & Hn & Hu & Hne) (path & ty & _ & Hl & _ & _ & Ht).
  eapply target_normal; [|exact Ht]. rewrite scan_root_names in Hl by done.
  pose proof (root_names_ok names Hn) as Hr.
  destruct (listed_names _ _ (root_names names) path ty (walk_law _ Hr) Hr eq_refl Hl) as (below & -> & Hb & _).
  apply abs_path_normal, Forall_app. auto.
Qed.
(** A pattern's matches lie below its root: a name without a wildcard matches
    itself only. *)
Lemma of_chars_chars s : of_chars (chars s) = s.
Proof.
  induction s as [|c s IH]; [done|]. rewrite chars_cons. destruct s as [|d s]; [done|].
  destruct (is_continuation d); [|by rewrite of_chars_cons, IH].
  destruct (chars_nonempty d s) as (x & xs & E). rewrite E in IH |- *. rewrite !of_chars_cons in *.
  by rewrite <- IH.
Qed.
Lemma literal_atoms r : has_glob r = false -> glob_atoms (chars r) = List.map Char (chars r).
Proof.
  intros Hg. assert (Hc : Forall (fun c => c <> "*" /\ c <> "?") (chars r)).
  { revert Hg. induction r as [|b r IH]; [constructor|]. cbn [has_glob list_ascii_of_string existsb].
    unfold has_glob. cbn [list_ascii_of_string existsb]. intros [[N1 N2]%orb_false_iff Hr]%orb_false_iff.
    apply Ascii.eqb_neq in N1, N2. specialize (IH Hr). rewrite chars_cons.
    assert (Hb : forall x, String b x <> "*" /\ String b x <> "?") by (intros x; split; intros [= ? _]; done).
    destruct r as [|d r]; [constructor; [apply Hb|done]|].
    destruct (is_continuation d); [|constructor; [apply Hb|done]].
    destruct (chars_nonempty d r) as (x & xs & E). rewrite E in *. apply Forall_cons in IH as [_ IH].
    constructor; [apply Hb|done]. }
  induction Hc as [|c cs [N1 N2] _ IH]; [done|]. cbn [glob_atoms List.map].
  by rewrite !(proj2 (String.eqb_neq _ _)), IH.
Qed.
Lemma glob_below_root text names : scannable text -> Forall (fun n => plain_name n = true) names ->
  Forall (fun n => utf8 n = true) names -> names <> [] -> glob_matches text (abs_path names) = true ->
  path_within (abs_path names) (scan_root text) = true.
Proof.
  intros (pattern & -> & Hn & Hu & Hne) Hp Hup Hne' Hm. rewrite scan_root_names by done.
  apply path_within_prefix. rewrite !path_iter_names by (by apply root_names_ok || done).
  apply prefix_cons. apply glob_matches_spec in Hm.
  rewrite !chars_names in Hm; [|done|done|done|intros ->; by apply Hne].
  rewrite (names_are pattern) in Hm. apply names_match in Hm as (above & rest & -> & Hf & _).
  - exists rest. f_equal. pose proof (root_names_plain pattern) as Hr. clear -Hf Hr. induction Hf as [|r n roots above Hrn _ IH]; [done|].
    apply Forall_cons in Hr as [Hr Hrs]. f_equal; [|by apply IH].
    unfold name_matches in Hrn. rewrite literal_atoms in Hrn by done.
    rewrite <- (of_chars_chars n), <- (of_chars_chars r). f_equal. revert Hrn. generalize (chars n) as v.
    induction (chars r) as [|c cs IHc]; intros v Hv; inversion Hv; [done|]. f_equal. by apply IHc.
  - apply root_locals; done.
  - eapply Forall_impl; [apply Hp|]. intros n Hx. by apply (plain_name_parts n Hx).
Qed.

(** C29: A scan that succeeds gives for every pattern exactly the paths of the file
    system the pattern matches, with the places symbolic links among them lead
    to: what pruning, the depth filter and the sharing of walks leave out
    matches nothing. *)
Theorem scan_finds_what_is_there patterns phase found text :
  (forall t, In t patterns -> scannable t) -> scan patterns phase = inl found -> In text patterns ->
  exists paths, found !! text = Some paths /\ forall q, In q paths <-> matches_on_disk text q.
Proof.
  intros Hs E Hin. revert E. unfold scan, scan_with_budget.
  destruct (compile_groups _ _ _ _) as [[[b groups] results0]|] eqn:Ec; [|done].
  destruct (scan_groups _ _) as [s|] eqn:Eg; [|done]. intros [= <-].
  assert (C0 : compiled [] ∅) by (split; [done|done|by intros t [x [=]]]).
  destruct (compile_groups_ok _ _ _ _ _ _ _ Hs C0 Ec) as [[Cg Ce Ck] Hk].
  destruct (scan_groups_ok _ _ _ Cg Eg) as [[As Ak Ad] C].
  assert (Hkey : is_Some (results0 !! text)) by (apply Hk; by right).
  destruct (Ad text Hkey) as [paths Epaths]. exists paths. split; [done|].
  assert (Er : results s text = paths) by (unfold results; by rewrite Epaths).
  assert (Hsound : forall q, In q paths -> matches_on_disk text q).
  { intros q Hq. rewrite <- Er in Hq. apply As in Hq as [Hq|(g & Hg & Hex & p & path & ty & Hp & Et & Hr)].
    - unfold results in Hq. cbn in Hq. destruct Hkey as [l El]. rewrite El in Hq.
      by rewrite (Ce _ _ El) in Hq.
    - rewrite List.Forall_forall in Cg. apply (expected_matches g p text q (Cg g Hg) Hp Et).
      split; [|done]. by exists path, ty. }
  intros q. split; [apply Hsound|]. intros Hq.
  destruct (Ck text Hkey) as (p & (g & Hg & Hp) & Et). pose proof Cg as Cg'. rewrite List.Forall_forall in Cg'.
  apply (expected_matches g p text q (Cg' g Hg) Hp Et) in Hq as Hx. destruct Hx as [(path & ty & Hx) Hex].
  assert (Hf : found s text q).
  { apply C. exists g. split; [done|]. split; [done|]. by exists p, path, ty. }
  unfold found in Hf. rewrite Er in Hf. apply List.existsb_exists in Hf as (y & Hy & Ey).
  replace q with y; [done|]. symmetry. apply normal_eq; [by eapply on_disk_normal; [apply Hs|]|by eapply on_disk_normal; [apply Hs|apply Hsound]|done].
Qed.
End Groups.
