(* ===== verification/SandboxRulesProps.v ===== *)
(** What the approval rules guarantee: how a rule set changes while a session
    runs, that the built-in denials and guards survive every rule and grant a
    user can add, what a single-command grant does to every access, and that a
    rule file never loses an entry in silence. *)
From stdpp Require Import relations.
From S2P Require Import Prelude WorkspaceGuard SandboxPaths SandboxRules.

Lemma find_app {A} (p : A -> bool) l k :
  List.find p (l ++ k) = match List.find p l with Some x => Some x | None => List.find p k end.
Proof. induction l as [|x l IH]; [done|]. cbn. by destruct (p x). Qed.
Lemma find_some_exists {A} (p : A -> bool) l : bool_decide (is_Some (List.find p l)) = existsb p l.
Proof. induction l as [|x l IH]; [done|]. cbn. by destruct (p x). Qed.

Lemma existsb_map {A B} (f : A -> B) (p : B -> bool) l : existsb p (List.map f l) = existsb (fun x => p (f x)) l.
Proof. induction l as [|x l IH]; [done|]. cbn. by rewrite IH. Qed.

Section Rules.
Context `{SandboxHost} `{RuleLib}.
Implicit Types (st : SessionStore) (rs : RuleSet) (layers : list (list PathRule)).

(** * First match *)
Lemma first_verdict_app l k path op :
  first_verdict (l ++ k) path op
  = match first_verdict l path op with Some d => Some d | None => first_verdict k path op end.
Proof.
  induction l as [|layer l IH]; [done|]. cbn. by destruct (List.find _ layer).
Qed.
Lemma first_verdict_concat layers path op :
  first_verdict layers path op = first_verdict [List.concat layers] path op.
Proof.
  induction layers as [|layer layers IH]; [done|]. cbn in *. rewrite IH, find_app.
  by destruct (List.find _ layer).
Qed.
(** The verdict is that of the first rule that matches, in layer order. *)
Lemma first_verdict_some layers path op d :
  first_verdict layers path op = Some d
  <-> exists before rule after, List.concat layers = before ++ rule :: after
        /\ rule_matches rule path op = true /\ pr_decision rule = d
        /\ forall r, In r before -> rule_matches r path op = false.
Proof.
  rewrite first_verdict_concat. cbn. generalize (List.concat layers) as rules. intros rules. split.
  - destruct (List.find _ rules) as [rule|] eqn:E; [|done]. intros [= <-].
    induction rules as [|r rules IH]; [done|]. cbn in E. destruct (rule_matches r path op) eqn:M.
    + injection E as ->. exists [], rule, rules. by split_and!.
    + destruct (IH E) as (before & rule' & after & -> & Hm & Hd & Hb).
      exists (r :: before), rule', after. repeat split; [done|done|].
      intros x [<-|Hx]; auto.
  - intros (before & rule & after & -> & Hm & <- & Hb).
    replace (List.find _ (before ++ rule :: after)) with (Some rule); [done|].
    symmetry. induction before as [|b before IH]; cbn; [by rewrite Hm|].
    rewrite (Hb b) by (by left). apply IH. intros r Hr. apply Hb. by right.
Qed.
Lemma first_verdict_none layers path op :
  first_verdict layers path op = None
  <-> forall r, In r (List.concat layers) -> rule_matches r path op = false.
Proof.
  rewrite first_verdict_concat. cbn. rewrite <- find_none_iff. by destruct (List.find _ _).
Qed.
(** A layer all of one decision gives it, or passes. *)
Lemma uniform_layer d layer rest path op : (forall r, In r layer -> pr_decision r = d) ->
  first_verdict (layer :: rest) path op
  = if existsb (fun r => rule_matches r path op) layer then Some d else first_verdict rest path op.
Proof.
  intros Hd. cbn. destruct (List.find _ layer) as [r|] eqn:E.
  - apply List.find_some in E as [Hi Hm]. rewrite (Hd r Hi).
    assert (existsb (fun r => rule_matches r path op) layer = true) as ->; [|done].
    apply List.existsb_exists. eauto.
  - by rewrite (proj2 (existsb_false _ _) (proj1 (find_none_iff _ _) E)).
Qed.

(** * Session rules *)
Lemma length_session_push st h r : List.length (session_push st h r) = List.length st.
Proof. apply length_insert. Qed.
Lemma session_lock_push_ne st h h' r : h <> h' -> session_lock (session_push st h r) h' = session_lock st h'.
Proof. intros Hne. unfold session_lock, session_push. unfold SessionStore in *. by rewrite list_lookup_insert_ne. Qed.
Lemma session_lock_alloc st rules : session_lock (st ++ [rules]) (List.length st) = rules.
Proof. unfold session_lock, SessionStore in *. by rewrite lookup_app_r, Nat.sub_diag by lia. Qed.
Lemma session_lock_app st rules h : (h < List.length st)%nat -> session_lock (st ++ [rules]) h = session_lock st h.
Proof. intros Hh. unfold session_lock, SessionStore in *. by rewrite lookup_app_l. Qed.
Lemma evaluate_session st st' rs path op :
  session_lock st' (rs_session rs) = session_lock st (rs_session rs) ->
  evaluate st' rs path op = evaluate st rs path op.
Proof. intros E. unfold evaluate, profile_layers. by rewrite E. Qed.

(** * The life of a rule set

    A session resolves a rule set for a run; the client and the tools push
    session rules; a command gets a copy with grants. *)
Section Life.
Variables (workspace : string) (home user_rule_file : option string) (session : SessionRules).
Definition resolved : RuleSet := resolve_impl workspace home user_rule_file session.
Inductive lives : SessionStore -> RuleSet -> Prop :=
| lives_resolve st : (session < List.length st)%nat -> lives st resolved
| lives_push st rs h rule : lives st rs -> lives (session_push st h rule) rs
| lives_alloc st rs rules : lives st rs -> lives (st ++ [rules]) rs
| lives_grant st rs targets :
    lives st rs ->
    lives (fst (with_execution_grants st rs targets)) (snd (with_execution_grants st rs targets)).

(** The invariant: the override layer only denies and keeps the built-in
    denials, the guard layer is the built-in one, grants only allow. *)
Record layered (rs : RuleSet) : Prop := {
  overrides_deny : forall r, In r (rs_overrides rs) -> pr_decision r = Deny;
  overrides_keep : incl (builtin_overrides (canonicalize_lenient workspace) home) (rs_overrides rs);
  guards_builtin : rs_guards rs = builtin_guards (canonicalize_lenient workspace) home;
  execution_allows : forall r, In r (rs_execution rs) -> pr_decision r = Allow
}.
Lemma builtin_overrides_deny w h r : In r (builtin_overrides w h) -> pr_decision r = Deny.
Proof.
  unfold builtin_overrides. cbn [In]. rewrite in_app_iff, in_map_iff, in_flat_map.
  intros [<-|[(? & <- & _)|(cred & _ & Hr)]]; [done|done|].
  by apply in_map_iff in Hr as (? & <- & _).
Qed.
Lemma builtin_guards_ask w h r : In r (builtin_guards w h) -> pr_decision r = Ask /\ pr_access r = Both.
Proof.
  unfold builtin_guards. rewrite in_app_iff. intros [Hr|Hr].
  - destruct h; [|done]. by apply in_map_iff in Hr as (? & <- & _).
  - by apply in_map_iff in Hr as (? & <- & _).
Qed.
Lemma resolved_layers :
  rs_overrides resolved = builtin_overrides (canonicalize_lenient workspace) home
  /\ rs_guards resolved = builtin_guards (canonicalize_lenient workspace) home
  /\ rs_execution resolved = [] /\ rs_session resolved = session.
Proof.
  unfold resolved, resolve_impl. destruct (loaded _) as [ws errs].
  destruct user_rule_file as [file|]; [destruct (loaded _) as [us errs']|]; done.
Qed.
Lemma grants_layers st rs targets :
  let rs' := snd (with_execution_grants st rs targets) in
  rs_guards rs' = rs_guards rs /\ rs_workspace rs' = rs_workspace rs
  /\ rs_temp_roots rs' = rs_temp_roots rs /\ rs_workspace_rules rs' = rs_workspace_rules rs
  /\ rs_user_rules rs' = rs_user_rules rs /\ rs_session rs' = List.length st
  /\ rs_overrides rs' = rs_overrides rs
       ++ (if is_empty targets then [] else
             List.flat_map (List.filter (fun r => is_deny (pr_decision r))) (profile_layers st rs))
  /\ rs_execution rs' = (if is_empty targets then rs_execution rs else List.map target_rule targets)
  /\ fst (with_execution_grants st rs targets) = st ++ [session_lock st (rs_session rs)].
Proof.
  unfold with_execution_grants, session_alloc. destruct (is_empty targets); cbn; rewrite ?app_nil_r; auto 10.
Qed.
Lemma lives_layered st rs : lives st rs -> layered rs.
Proof.
  induction 1 as [st _|st rs h rule _ IH|st rs rules _ IH|st rs targets _ IH]; [|done|done|].
  - destruct resolved_layers as (E1 & E2 & E3 & _). split; [| |done|by rewrite E3]; rewrite E1.
    + apply builtin_overrides_deny.
    + apply List.incl_refl.
  - destruct (grants_layers st rs targets) as (E1 & _ & _ & _ & _ & _ & E2 & E3 & _).
    destruct IH as [Ho Hk Hg He]. split.
    + intros r. rewrite E2, in_app_iff. intros [Hr|Hr]; [auto|]. destruct (is_empty targets); [done|].
      apply in_flat_map in Hr as (layer & _ & Hr). apply List.filter_In in Hr as [_ Hr].
      by destruct (pr_decision r).
    + rewrite E2. intros r Hr. apply in_app_iff. left. by apply Hk.
    + by rewrite E1.
    + intros r. rewrite E3. destruct (is_empty targets); [auto|]. by intros (t & <- & _)%in_map_iff.
Qed.
Lemma lives_session st rs : lives st rs -> (rs_session rs < List.length st)%nat.
Proof.
  induction 1 as [st Hs|st rs h rule _ IH|st rs rules _ IH|st rs targets _ IH].
  - by destruct resolved_layers as (_ & _ & _ & ->).
  - by rewrite length_session_push.
  - rewrite length_app. lia.
  - destruct (grants_layers st rs targets) as (_ & _ & _ & _ & _ & -> & _ & _ & ->).
    rewrite length_app. cbn. lia.
Qed.

(** * The built-in denials and guards *)
(** The files of the application, and the operations denied on them. *)
Definition app_files : list (string * Access) :=
  (path_push (canonicalize_lenient workspace) ".future/approval_rule.json", Write)
  :: List.map (fun root => (path_push root "approval_rule.json", Write)) (state_roots home)
  ++ List.flat_map (fun cred => List.map (fun root => (path_push root cred, Both)) (state_roots home))
       ["agent/models.json"; "agent-app/models.json"].
Lemma app_files_rules : List.map (fun '(file, access) => rule_new file access Deny) app_files
  = builtin_overrides (canonicalize_lenient workspace) home.
Proof.
  unfold app_files, builtin_overrides. cbn. rewrite !List.map_app, !List.map_map. reflexivity.
Qed.
Lemma subtree_matches file access decision path op : has_glob file = false -> covers access op = true ->
  path_within path (canonicalize_lenient file) = true ->
  rule_matches (rule_new file access decision) path op = true.
Proof.
  intros Hg Hc Hp. unfold rule_matches, rule_new, compile_matcher. cbn. rewrite Hg, Hc. cbn.
  by rewrite Hp, orb_true_r.
Qed.
Lemma evaluate_overrides st rs path op : layered rs ->
  evaluate st rs path op
  = if existsb (fun r => rule_matches r path op) (rs_overrides rs) then Deny
    else if existsb (fun r => rule_matches r path op) (rs_execution rs) then Allow
    else default (fallback rs path op)
           (first_verdict [rs_guards rs; session_lock st (rs_session rs); rs_workspace_rules rs;
                           rs_user_rules rs] path op).
Proof.
  intros [Ho _ _ He]. unfold evaluate, profile_layers.
  rewrite (uniform_layer Deny) by done. destruct (existsb _ (rs_overrides rs)); [done|].
  rewrite (uniform_layer Allow) by done. by destruct (existsb _ (rs_execution rs)).
Qed.

(** C32: Whatever rules a session, a workspace or a user adds and whatever a command
    is granted, writing a rule file and touching the model configuration stay
    denied. *)
Theorem app_files_stay_denied st rs file access path op : lives st rs ->
  In (file, access) app_files -> has_glob file = false -> covers access op = true ->
  path_within path (canonicalize_lenient file) = true ->
  evaluate st rs path op = Deny.
Proof.
  intros Hl Hf Hg Hc Hp. pose proof (lives_layered _ _ Hl) as L. rewrite evaluate_overrides by done.
  assert (existsb (fun r => rule_matches r path op) (rs_overrides rs) = true) as ->; [|done].
  apply List.existsb_exists. exists (rule_new file access Deny).
  split; [|by apply subtree_matches]. apply (overrides_keep _ L). rewrite <- app_files_rules.
  apply in_map_iff. by exists (file, access).
Qed.

(** A secret is read or written without asking only through a grant of the
    command at hand. *)
Theorem secrets_need_a_grant st rs path op : lives st rs ->
  is_secret_path rs path = true -> evaluate st rs path op = Allow ->
  existsb (fun r => rule_matches r path op) (rs_execution rs) = true.
Proof.
  intros Hl Hs. pose proof (lives_layered _ _ Hl) as L. rewrite evaluate_overrides by done.
  destruct (existsb _ (rs_overrides rs)); [done|]. destruct (existsb _ (rs_execution rs)); [done|].
  intros E. exfalso. revert E.
  assert (Hg : forall r, In r (rs_guards rs) -> pr_decision r = Ask /\ pr_access r = Both).
  { rewrite (guards_builtin _ L). apply builtin_guards_ask. }
  rewrite (uniform_layer Ask) by (intros r Hr; by apply Hg).
  assert (existsb (fun r => rule_matches r path op) (rs_guards rs) = true) as ->; [|done].
  unfold is_secret_path in Hs. apply List.existsb_exists in Hs as (r & Hr & Hm).
  apply List.existsb_exists. exists r. split; [done|]. unfold rule_matches in *.
  rewrite (proj2 (Hg r Hr)) in *. cbn in *. by rewrite orb_diag in Hm.
Qed.

(** * Single-command grants *)
Lemma denials_collected st rs path op : layered rs ->
  existsb (fun r => rule_matches r path op) (rs_overrides rs)
  || existsb (fun r => rule_matches r path op)
       (List.flat_map (List.filter (fun r => is_deny (pr_decision r))) (profile_layers st rs))
  = explicitly_denied st rs path op.
Proof.
  intros L. apply eq_true_iff_eq. unfold explicitly_denied. rewrite orb_true_iff, !List.existsb_exists.
  setoid_rewrite andb_true_iff. split.
  - intros [(r & Hr & Hm)|(r & Hr & Hm)]; exists r.
    + split; [|split; [by rewrite (overrides_deny _ L r Hr)|done]]. apply in_app_iff. by left.
    + apply in_flat_map in Hr as (layer & Hlay & Hr). apply List.filter_In in Hr as [Hr Hdeny].
      split; [|done]. apply List.in_concat. eauto.
  - intros (r & Hr & Hdeny & Hm). right. exists r. split; [|done].
    apply List.in_concat in Hr as (layer & Hlay & Hr). apply in_flat_map. exists layer.
    split; [done|]. by apply List.filter_In.
Qed.
(** What a command with grants may do: every explicit denial of any layer
    stands, then the granted targets are allowed, and everything else is as
    without the grants. *)
Lemma grants_verdict st rs targets path op : lives st rs -> rs_execution rs = [] ->
  targets <> [] ->
  let '(st', rs') := with_execution_grants st rs targets in
  evaluate st' rs' path op
  = if explicitly_denied st rs path op then Deny
    else if existsb (fun t => rule_matches (target_rule t) path op) targets then Allow
    else evaluate st rs path op.
Proof.
  intros Hl Hx Ht. destruct (with_execution_grants st rs targets) as [st' rs'] eqn:E.
  pose proof (grants_layers st rs targets) as G. pose proof (lives_layered _ _ (lives_grant _ _ targets Hl)) as L'.
  rewrite E in *. cbn [fst snd] in *.
  destruct G as (G1 & G2 & G3 & G4 & G5 & G6 & G7 & G8 & G9).
  assert (is_empty targets = false) as Hne by by apply is_empty_false. rewrite Hne in *.
  pose proof (lives_layered _ _ Hl) as L.
  rewrite (evaluate_overrides st' rs'), (evaluate_overrides st rs) by done.
  rewrite G7, G8, G1, G4, G5, G6, G9, session_lock_alloc, existsb_app, Hx. cbn [existsb].
  rewrite (denials_collected st rs path op L).
  destruct (explicitly_denied st rs path op) eqn:D; [done|].
  rewrite <- (denials_collected st rs path op L) in D.
  apply orb_false_iff in D as [-> _]. rewrite existsb_map.
  destruct (existsb _ targets); [done|]. f_equal. unfold fallback. by rewrite G2, G3.
Qed.
(** The copy is isolated: session rules pushed later reach the live rule set
    and not the command's, and making the copy changes no verdict of the live
    one. *)
Lemma grants_are_isolated st rs targets path op : lives st rs ->
  let '(st', rs') := with_execution_grants st rs targets in
  evaluate st' rs path op = evaluate st rs path op
  /\ forall h rule, (h < List.length st)%nat ->
       evaluate (session_push st' h rule) rs' path op = evaluate st' rs' path op.
Proof.
  intros Hl. destruct (with_execution_grants st rs targets) as [st' rs'] eqn:E.
  pose proof (grants_layers st rs targets) as G. rewrite E in G. cbn [fst snd] in G.
  destruct G as (_ & _ & _ & _ & _ & G6 & _ & _ & ->). split.
  - apply evaluate_session. by apply session_lock_app, lives_session.
  - intros h rule Hh. apply evaluate_session. rewrite G6. apply session_lock_push_ne. lia.
Qed.
End Life.

(** * Rule files *)
(** An entry the layer accepts: it names a path that fits, its access and its
    action. *)
Definition legal_entry (raw : RawRule) (path : string) (access : Access) (decision : Decision) : Prop :=
  raw_path raw = Some path /\ path <> "" /\ str_len path <= MAX_RULE_PATTERN_BYTES
  /\ known_access (to_ascii_lowercase (trim (default "both" (raw_access raw)))) = true
  /\ access = access_parse (to_ascii_lowercase (trim (default "both" (raw_access raw))))
  /\ decision_parse (to_ascii_lowercase (trim (default "" (raw_action raw)))) = Some decision.
Lemma rejection_none path : rule_pattern_rejection path = None <-> str_len path <= MAX_RULE_PATTERN_BYTES.
Proof.
  unfold rule_pattern_rejection. destruct (Z.ltb_spec MAX_RULE_PATTERN_BYTES (str_len path)); split; (done || lia).
Qed.
Lemma parse_raw_rule_inl workspace index raw rule :
  parse_raw_rule workspace index raw = inl rule
  <-> exists path access decision, legal_entry raw path access decision
        /\ rule = rule_new (absolutize workspace path) access decision.
Proof.
  unfold parse_raw_rule, legal_entry. split.
  - destruct (raw_path raw) as [path|]; [|done].
    destruct (decision_parse _) as [decision|] eqn:Ed; [|done].
    destruct (_ || _) eqn:Ep; [done|]. bool_prop.
    destruct (rule_pattern_rejection path) eqn:Er; [done|]. intros [= <-].
    apply rejection_none in Er. naive_solver.
  - intros (path & access & decision & (-> & Hne & Hl & Hk & -> & ->) & ->).
    rewrite (proj2 (String.eqb_neq path "") Hne), Hk. cbn.
    by rewrite (proj2 (rejection_none path) Hl).
Qed.
(** What a list of entries becomes: the legal ones, in order, and one error for
    each of the others. *)
Lemma parse_raw_rules_spec workspace raws : forall index errors,
  let '(rules, errors') := parse_raw_rules workspace index raws errors in
  exists ignored, errors' = errors ++ ignored
    /\ (List.length rules + List.length ignored = List.length raws)%nat
    /\ (forall rule, In rule rules <-> exists raw path access decision, In raw raws
           /\ legal_entry raw path access decision
           /\ rule = rule_new (absolutize workspace path) access decision).
Proof.
  induction raws as [|raw raws IH]; intros index errors; cbn [parse_raw_rules].
  { exists []. rewrite app_nil_r. split_and!; [done|done|]. intros rule. split; [done|]. by intros (? & ? & ? & ? & [] & _). }
  destruct (parse_raw_rule workspace index raw) as [rule|error] eqn:E.
  - specialize (IH (index + 1) errors). destruct (parse_raw_rules _ _ raws errors) as [rules errors'].
    destruct IH as (ignored & -> & Hl & Hr). exists ignored. split_and!; [done|cbn; lia|].
    intros rule'. cbn [In]. rewrite Hr. apply parse_raw_rule_inl in E.
    destruct E as (path & access & decision & Hleg & ->). split.
    + intros [<-|(raw' & ? & ? & ? & ? & ? & ?)]; [exists raw; eauto 10|exists raw'; eauto 10].
    + intros (raw' & path' & access' & decision' & [->|Hin] & Hleg' & ->); [left|right; eauto 10].
      destruct Hleg as (E1 & _ & _ & _ & -> & E2), Hleg' as (E1' & _ & _ & _ & -> & E2'). congruence.
  - specialize (IH (index + 1) (errors ++ [error])).
    destruct (parse_raw_rules _ _ raws (errors ++ [error])) as [rules errors'].
    destruct IH as (ignored & -> & Hl & Hr). exists (error :: ignored). rewrite <- app_assoc.
    split_and!; [done|cbn; lia|]. intros rule. rewrite Hr. split.
    { intros (raw' & ? & ? & ? & ? & ? & ?). exists raw'. cbn. eauto 10. }
    intros (raw' & path & access & decision & [->|Hin] & Hleg & ->); [|eauto 10].
    exfalso. assert (parse_raw_rule workspace index raw' = inl (rule_new (absolutize workspace path) access decision)) as E'.
    { apply parse_raw_rule_inl. eauto 10. }
    congruence.
Qed.

Lemma parse_raw_rules_errors workspace raws : forall index errors,
  incl errors (snd (parse_raw_rules workspace index raws errors)).
Proof.
  induction raws as [|raw raws IH]; intros index errors; cbn; [apply List.incl_refl|].
  destruct (parse_raw_rule workspace index raw) as [rule|error].
  - specialize (IH (index + 1) errors). by destruct (parse_raw_rules _ _ raws errors).
  - eapply List.incl_tran; [|apply IH]. by apply List.incl_appl, List.incl_refl.
Qed.
Lemma parse_raw_rules_bad workspace raws raw index errors : In raw raws ->
  (forall pattern access decision, ~ legal_entry raw pattern access decision) ->
  snd (parse_raw_rules workspace index raws errors) <> [].
Proof.
  intros Hin Hbad. revert index errors. induction raws as [|raw' raws IH]; intros index errors; [done|]. cbn.
  destruct (parse_raw_rule workspace index raw') as [rule|error] eqn:E.
  - destruct Hin as [->|Hin].
    + apply parse_raw_rule_inl in E as (? & ? & ? & Hl & _). by destruct (Hbad _ _ _ Hl).
    + specialize (IH Hin (index + 1) errors). by destruct (parse_raw_rules _ _ raws errors).
  - intros E'. pose proof (parse_raw_rules_errors workspace raws (index + 1) (errors ++ [error]) error) as Hi.
    rewrite E' in Hi. apply Hi, in_app_iff. right. by left.
Qed.

(** A rule file loses nothing in silence.  A file that reads as JSON of the
    right shape gives its legal entries as rules and one error for each other
    entry; a file that does not gives no rule and an error; a missing file gives
    neither. *)
Theorem rule_file_loses_nothing path workspace errors :
  let '(rules, errors') := loaded (load_rule_file_diagnostics path workspace errors) in
  exists ignored, errors' = errors ++ ignored
  /\ match read_to_string path with
     | Contents text =>
         match json_from_str text ≫= de_rule_file with
         | Some raws =>
             (List.length rules + List.length ignored = List.length raws)%nat
             /\ forall rule, In rule rules <-> exists raw pattern access decision, In raw raws
                  /\ legal_entry raw pattern access decision
                  /\ rule = rule_new (absolutize workspace pattern) access decision
         | None => rules = [] /\ List.length ignored = 1%nat
         end
     | NotFound => rules = [] /\ ignored = []
     | Unreadable _ => rules = [] /\ List.length ignored = 1%nat
     end.
Proof.
  unfold load_rule_file_diagnostics. destruct (read_to_string path) as [text| |error].
  - unfold parse_rule_file_diagnostics. destruct (json_from_str text ≫= de_rule_file) as [raws|].
    + pose proof (parse_raw_rules_spec workspace raws 0 errors) as P.
      destruct (parse_raw_rules workspace 0 raws errors) as [rules errors']. cbn.
      destruct P as (ignored & -> & Hl & Hr). eauto.
    + cbn. eexists. split; [reflexivity|done].
  - cbn. exists []. by rewrite app_nil_r.
  - cbn. eexists. split; [reflexivity|done].
Qed.
End Rules.
