(* ===== verification/SandboxPlanProps.v ===== *)
(** The mount plan against the rules it compiles.  A sandboxed command sees the
    mounts of SandboxShell's [plan_mounts] in their order, the last one over a
    path deciding it; the theorem is that whatever a command can then read or
    write, the rule set would have allowed. *)
From stdpp Require Import relations.
From S2P Require Import Prelude WorkspaceGuard SandboxPaths SandboxRules GlobScan SandboxPlan SandboxShell GlobProps AbsPaths GlobScanProps SandboxRulesProps.

(** * Lists *)
Lemma last_filter {A} (p : A -> bool) l m : last l = Some m -> p m = true -> last (List.filter p l) = Some m.
Proof.
  intros Hl Hp. apply last_Some in Hl as (l' & ->). rewrite List.filter_app. cbn. rewrite Hp. apply last_snoc.
Qed.
Lemma filter_filter {A} (p q : A -> bool) l :
  List.filter p (List.filter q l) = List.filter q (List.filter p l).
Proof.
  induction l as [|x l IH]; [done|]. cbn. destruct (p x) eqn:Ep, (q x) eqn:Eq; cbn; rewrite ?Ep, ?Eq, IH; done.
Qed.
Lemma last_app_some {A} (l k : list A) m : last k = Some m -> last (l ++ k) = Some m.
Proof. intros Hk. by rewrite last_app, Hk. Qed.
Lemma last_in {A} (l : list A) m : last l = Some m -> In m l.
Proof. intros (l' & ->)%last_Some. apply in_app_iff. right. by left. Qed.
Lemma last_nonempty {A} (l : list A) x : In x l -> exists m, last l = Some m.
Proof. destruct (last l) eqn:E; [eauto|]. apply last_None in E as ->. done. Qed.
Lemma sorted_last {A} (R : A -> A -> Prop) (l : list A) m x : StronglySorted R l -> last l = Some m ->
  In x l -> x = m \/ R x m.
Proof.
  intros Hs (l' & ->)%last_Some. induction l' as [|y l' IH]; cbn in *; [intuition|].
  apply StronglySorted_inv in Hs as [Hs Hy]. intros [<-|Hx]; [|by apply IH].
  right. rewrite List.Forall_forall in Hy. apply Hy, in_app_iff. right. by left.
Qed.
Lemma StronglySorted_filter {A} (R : A -> A -> Prop) (p : A -> bool) l :
  StronglySorted R l -> StronglySorted R (List.filter p l).
Proof.
  induction 1 as [|x l Hs IH Hx]; cbn; [constructor|]. destruct (p x); [|done]. constructor; [done|].
  rewrite List.Forall_forall in *. intros y [Hy _]%List.filter_In. by apply Hx.
Qed.
(** The last element of a stably sorted list that satisfies a test: one of the
    greatest key, and the last of that key in the original order. *)
Lemma last_sorted_filter {A} (key : A -> Z) (p : A -> bool) l m :
  last (List.filter p (sort_by_key key l)) = Some m ->
  In m l /\ p m = true /\ (forall x, In x l -> p x = true -> key x <= key m)
  /\ last (List.filter (fun x => key x =? key m) (List.filter p l)) = Some m.
Proof.
  intros Hl. pose proof (last_in _ _ Hl) as [Hi Hp]%List.filter_In. split_and!; [|done| |].
  - by apply in_sort_by_key in Hi.
  - intros x Hx Hpx.
    destruct (sorted_last (key_le key) _ m x (StronglySorted_filter _ p _ (sort_by_key_sorted key l)) Hl) as [->|H]; [|lia|done].
    apply List.filter_In. by rewrite in_sort_by_key.
  - rewrite filter_filter, <- (sort_by_key_stable key), filter_filter.
    apply last_filter; [done|]. apply Z.eqb_refl.
Qed.

(** * Flattened rules are in evaluation order *)
Definition before (f g : FlatRule) : Prop :=
  position_lt (fl_priority f) (fl_rule_index f) (fl_priority g) (fl_rule_index g) = true.
Definition flat_layer (n i : nat) (layer : RuleLayerSnapshot) (rules : list RuleSnapshot) : list FlatRule :=
  imap (fun j rule => mkFlat n (i + j) (sl_layer layer) rule) rules.
Definition flatten_from (n : nat) (layers : list RuleLayerSnapshot) : list FlatRule :=
  List.concat (imap (fun k layer => flat_layer (n + k) 0 layer (sl_rules layer)) layers).
Lemma flatten_eq layers : flatten layers = flatten_from 0 layers.
Proof. done. Qed.
Lemma flat_layer_cons n i layer rule rules :
  flat_layer n i layer (rule :: rules) = mkFlat n i (sl_layer layer) rule :: flat_layer n (S i) layer rules.
Proof.
  unfold flat_layer. rewrite imap_cons, Nat.add_0_r. f_equal. apply imap_ext. intros j x _. cbn.
  by rewrite Nat.add_succ_r.
Qed.
Lemma flatten_from_cons n layer layers :
  flatten_from n (layer :: layers) = flat_layer n 0 layer (sl_rules layer) ++ flatten_from (S n) layers.
Proof.
  unfold flatten_from. rewrite imap_cons, Nat.add_0_r. cbn [List.concat]. do 2 f_equal.
  apply imap_ext. intros k x _. cbn. by rewrite Nat.add_succ_r.
Qed.
Lemma flat_layer_in n i layer rules f : In f (flat_layer n i layer rules) ->
  fl_priority f = n /\ (i <= fl_rule_index f)%nat.
Proof.
  revert i. induction rules as [|rule rules IH]; intros i; [done|]. rewrite flat_layer_cons.
  intros [<-|Hf]; [done|]. destruct (IH _ Hf). cbn. split; [done|lia].
Qed.
Lemma flat_layer_sorted n i layer rules : StronglySorted before (flat_layer n i layer rules).
Proof.
  revert i. induction rules as [|rule rules IH]; intros i; [constructor|]. rewrite flat_layer_cons.
  constructor; [done|]. apply List.Forall_forall. intros f (Hp & Hi)%flat_layer_in.
  unfold before, position_lt. cbn [fl_priority fl_rule_index].
  rewrite Hp, Nat.ltb_irrefl, Nat.eqb_refl. apply Nat.ltb_lt. lia.
Qed.
Lemma flatten_from_in n layers f : In f (flatten_from n layers) -> (n <= fl_priority f)%nat.
Proof.
  revert n. induction layers as [|layer layers IH]; intros n; [done|]. rewrite flatten_from_cons, in_app_iff.
  intros [[-> _]%flat_layer_in|Hf%IH]; lia.
Qed.
Lemma StronglySorted_app_lists {A} (R : A -> A -> Prop) l k : StronglySorted R l -> StronglySorted R k ->
  (forall x y, In x l -> In y k -> R x y) -> StronglySorted R (l ++ k).
Proof.
  intros Hl Hk. induction Hl as [|x l Hl IH Hx]; intros Hlk; [done|]. cbn. constructor.
  - apply IH. intros y z Hy Hz. apply Hlk; [by right|done].
  - apply List.Forall_forall. rewrite List.Forall_forall in Hx. intros y [Hy|Hy]%in_app_iff; [auto|].
    apply Hlk; [by left|done].
Qed.
Lemma flatten_from_sorted n layers : StronglySorted before (flatten_from n layers).
Proof.
  revert n. induction layers as [|layer layers IH]; intros n; [constructor|]. rewrite flatten_from_cons.
  apply StronglySorted_app_lists; [apply flat_layer_sorted|apply IH|].
  intros f g (Hf & _)%flat_layer_in Hg%flatten_from_in. unfold before, position_lt.
  apply orb_true_iff. left. apply Nat.ltb_lt. lia.
Qed.
Lemma flatten_rules n layers :
  List.map fl_rule (flatten_from n layers) = List.concat (List.map sl_rules layers).
Proof.
  revert n. induction layers as [|layer layers IH]; intros n; [done|].
  rewrite flatten_from_cons, List.map_app, IH. cbn. f_equal. generalize 0%nat as i.
  induction (sl_rules layer) as [|rule rules IHr]; intros i; [done|]. rewrite flat_layer_cons. cbn. by rewrite IHr.
Qed.

(** * First matches in a flattened list *)
Section First.
Variable F : list FlatRule.
Hypothesis F_sorted : StronglySorted before F.

Definition first (path : string) (access : Access) : option FlatRule :=
  List.find (fun f => snapshot_matches (fl_rule f) path access) F.
Lemma first_is_first path access f g : first path access = Some f -> In g F ->
  snapshot_matches (fl_rule g) path access = true -> g = f \/ before f g.
Proof.
  unfold first. induction F_sorted as [|x l Hs IH Hx]; [done|]. cbn.
  destruct (snapshot_matches (fl_rule x) path access) eqn:E.
  - intros [= <-] [<-|Hg] _; [by left|]. right. rewrite List.Forall_forall in Hx. by apply Hx.
  - intros Hf [->|Hg] Hm; [congruence|]. by apply IH.
Qed.
Lemma first_in path access f : first path access = Some f ->
  In f F /\ snapshot_matches (fl_rule f) path access = true.
Proof. by intros Hf%List.find_some. Qed.
Lemma first_exists path access g : In g F -> snapshot_matches (fl_rule g) path access = true ->
  exists f, first path access = Some f.
Proof.
  intros Hg Hm. destruct (first path access) eqn:E; [eauto|]. exfalso.
  pose proof (proj1 (find_none_iff _ _) E g Hg) as Hn. cbn in Hn. congruence.
Qed.
(** A rule that is not the first is matched by an earlier one. *)
Lemma earlier_of_first path access f g : first path access = Some f -> In g F -> g <> f ->
  snapshot_matches (fl_rule g) path access = true ->
  matched_by_earlier_rule F (fl_priority g) (fl_rule_index g) path access = true.
Proof.
  intros Hf Hg Hne Hm. destruct (first_is_first _ _ _ _ Hf Hg Hm) as [->|Hb]; [done|].
  apply List.existsb_exists. exists f. destruct (first_in _ _ _ Hf) as [Hi Hfm].
  by rewrite Hb, Hfm.
Qed.
Lemma before_irrefl f : ~ before f f.
Proof. unfold before, position_lt. rewrite !Nat.ltb_irrefl, andb_false_r. done. Qed.
Lemma before_asym f g : before f g -> before g f -> False.
Proof.
  unfold before, position_lt. rewrite !orb_true_iff, !andb_true_iff, !Nat.ltb_lt, !Nat.eqb_eq. lia.
Qed.
Lemma first_not_earlier path access f : first path access = Some f ->
  matched_by_earlier_rule F (fl_priority f) (fl_rule_index f) path access = false.
Proof.
  intros Hf. apply existsb_false. intros g Hg. apply andb_false_iff.
  destruct (snapshot_matches (fl_rule g) path access) eqn:Hm; [|by right]. left.
  destruct (first_is_first _ _ _ _ Hf Hg Hm) as [->|Hb].
  - destruct (position_lt _ _ _ _) eqn:E; [|done]. by apply before_irrefl in E.
  - destruct (position_lt (fl_priority g) _ _ _) eqn:E; [|done]. exfalso. by eapply before_asym.
Qed.
Lemma effective_blocked_first path access :
  effective_blocked F path access
  = match first path access with Some f => negb (is_allow (sn_decision (fl_rule f))) | None => false end.
Proof. done. Qed.
End First.

(** * What the compilation collects *)
Section Collect.
Context `{SandboxHost} `{RuleLib} `{ScanHost} `{DigestLib}.
Variables (F : list FlatRule) (expanded : Matches) (base : list string).

Definition names (f : FlatRule) (q : string) : Prop :=
  exists qs, rule_paths expanded (sn_matcher (fl_rule f)) = inl qs /\ In q qs.
Definition earlier (f : FlatRule) (q : string) (access : Access) : bool :=
  matched_by_earlier_rule F (fl_priority f) (fl_rule_index f) q access.
Definition blocks (f : FlatRule) (q : string) (access : Access) : bool :=
  access_overlap (sn_access (fl_rule f)) access && negb (earlier f q access).

(** A rule that opens a path for an access. *)
Definition opens (f : FlatRule) (q : string) (access : Access) : Prop :=
  In f F /\ names f q /\ sn_decision (fl_rule f) = Allow
  /\ access_overlap (sn_access (fl_rule f)) access = true /\ earlier f q access = false.
Definition opens_write (q : string) : Prop :=
  exists f, opens f q Write /\ effective_blocked F q Read = false.
Record provenance (out : PlanPaths) : Prop := {
  pv_writable : forall q, In q (pp_writable_roots out) -> In q base \/ opens_write q;
  pv_reopened : forall q, In q (pp_reopened out) -> opens_write q;
  pv_reopened_ro : forall q, In q (pp_reopened_read_only out) -> exists f, opens f q Read;
  pv_missing : forall q, In q (pp_missing_protected out) -> mount_path_exists q = inl false;
  pv_named : forall q, In q (pp_unreadable out) \/ In q (pp_read_only out) \/ In q (pp_missing_protected out) ->
    exists f, In f F /\ names f q
}.
Definition grows (out out' : PlanPaths) : Prop :=
  incl (pp_unreadable out) (pp_unreadable out') /\ incl (pp_read_only out) (pp_read_only out').
(** A blocking rule got its mount on a path that exists. *)
Definition mounted (f : FlatRule) (q : string) (out : PlanPaths) : Prop :=
  mount_path_exists q = inl true ->
  (blocks f q Read = true -> In q (pp_unreadable out))
  /\ (blocks f q Write = true -> In q (pp_unreadable out) \/ In q (pp_read_only out)).

#[local] Instance grows_preorder : PreOrder grows.
Proof.
  split; [intros out; split; apply List.incl_refl|].
  intros a b c [] []. split; by eapply List.incl_tran.
Qed.
Lemma mounted_grows f q out out' : grows out out' -> mounted f q out -> mounted f q out'.
Proof. intros [Hu Hr] Hm E. destruct (Hm E) as [Br Bw]. split; [auto|]. intros Hb. destruct (Bw Hb); auto. Qed.

Lemma apply_allow_ok f q out out' : provenance out -> In f F -> names f q ->
  sn_decision (fl_rule f) = Allow -> apply_allow F f q out = inl out' -> provenance out' /\ grows out out'.
Proof.
  intros [P1 P2 P3 P4 P5] Hf Hn Hd. unfold apply_allow.
  destruct (covers_write _ && _) eqn:Ew.
  - apply andb_true_iff in Ew as [Hc He%negb_true_iff]. destruct (effective_blocked F q Read) eqn:Er; [done|].
    assert (Ho : opens_write q) by by exists f.
    destruct (protected_by_later_rule _ _ _ _ _).
    + destruct (mount_path_exists q) as [[]|]; [|done|done]. intros [= <-]. split; [|split; apply List.incl_refl].
      split; cbn; auto. intros q' [?|[<-|[]]]%in_app_iff; auto.
    + intros [= <-]. split; [|split; apply List.incl_refl]. split; cbn; auto. intros q' [?|[<-|[]]]%in_app_iff; auto.
  - destruct (covers_read _ && _ && _) eqn:Er.
    + apply andb_true_iff in Er as [[Hc He%negb_true_iff]%andb_true_iff _].
      destruct (mount_path_exists q) as [[]|]; [|done|done]. intros [= <-]. split; [|split; apply List.incl_refl].
      split; cbn; auto. intros q' [?|[<-|[]]]%in_app_iff; [auto|]. by exists f.
    + intros [= <-]. by split; [|split; apply List.incl_refl].
Qed.
Lemma apply_block_ok f q out out' : provenance out -> In f F -> names f q -> apply_block F f q out = inl out' ->
  provenance out' /\ grows out out' /\ mounted f q out'.
Proof.
  intros P Hf Hn. unfold apply_block, mounted, blocks, earlier. cbn [access_overlap].
  set (br := covers_read _ && _). set (bw := covers_write _ && _).
  destruct (br || bw) eqn:Eb.
  2:{ apply orb_false_iff in Eb as [-> ->]. intros [= <-]. by split_and!; [|split; apply List.incl_refl|]. }
  replace (negb br && negb bw) with false by (by destruct br, bw).
  destruct P as [P1 P2 P3 P4 P5]. destruct (mount_path_exists q) as [[]|] eqn:E; [|intros [= <-]|done].
  - destruct br; intros [= <-]; split_and!.
    + split; [done..|]. cbn. intros x. rewrite in_app_iff.
      intros [[?|[<-|[]]]|?]; [apply P5; by left|by exists f|apply P5; by right].
    + split; cbn; [by apply List.incl_appl, List.incl_refl|apply List.incl_refl].
    + intros _. cbn. split; intros _; [|left]; apply in_app_iff; right; by left.
    + split; [done..|]. cbn. intros x. rewrite in_app_iff.
      intros [?|[[?|[<-|[]]]|?]]; [apply P5; by left|apply P5; by right; left|by exists f|apply P5; by right; right].
    + split; cbn; [apply List.incl_refl|by apply List.incl_appl, List.incl_refl].
    + intros _. cbn. split; [done|]. intros _. right. apply in_app_iff. right. by left.
  - split_and!; [split; cbn; [done..| |]|split; apply List.incl_refl|done].
    + intros q' [?|[<-|[]]]%in_app_iff; auto.
    + intros x. rewrite in_app_iff.
      intros [?|[?|[?|[<-|[]]]]]; [apply P5; by left|apply P5; by right; left|apply P5; by right; right|by exists f].
Qed.
Lemma apply_rule_ok f q out out' : provenance out -> In f F -> names f q ->
  apply_rule F f q out = inl out' ->
  provenance out' /\ grows out out' /\ (sn_decision (fl_rule f) <> Allow -> mounted f q out').
Proof.
  intros P Hf Hn. unfold apply_rule. destruct (sn_decision (fl_rule f)) eqn:Ed; intros E.
  - destruct (apply_block_ok _ _ _ _ P Hf Hn E) as (? & ? & ?). auto.
  - destruct (apply_allow_ok _ _ _ _ P Hf Hn Ed E). by split_and!.
  - destruct (apply_block_ok _ _ _ _ P Hf Hn E) as (? & ? & ?). auto.
Qed.
Lemma apply_paths_ok f qs : forall out out', provenance out -> In f F -> (forall q, In q qs -> names f q) ->
  apply_paths F f qs out = inl out' ->
  provenance out' /\ grows out out'
  /\ (sn_decision (fl_rule f) <> Allow -> forall q, In q qs -> mounted f q out').
Proof.
  induction qs as [|q qs IH]; intros out out' P Hf Hn; cbn.
  { intros [= <-]. by split_and!; [|split; apply List.incl_refl|]. }
  destruct (apply_rule F f q out) as [out1|] eqn:E; [|done]. intros E'.
  destruct (apply_rule_ok _ _ _ _ P Hf (Hn q (or_introl eq_refl)) E) as (P1 & G1 & M1).
  destruct (IH _ _ P1 Hf (fun q' Hq => Hn q' (or_intror Hq)) E') as (P2 & G2 & M2).
  split_and!; [done|by etransitivity|]. intros Hd q' [<-|Hq]; [|by apply M2].
  eapply mounted_grows; [exact G2|auto].
Qed.
Lemma apply_rules_ok rules : forall out out', provenance out -> incl rules F ->
  apply_rules F expanded rules out = inl out' ->
  provenance out' /\ grows out out'
  /\ (forall f q, In f rules -> names f q -> sn_decision (fl_rule f) <> Allow -> mounted f q out').
Proof.
  induction rules as [|f rules IH]; intros out out' P Hi; cbn.
  { intros [= <-]. by split_and!; [|split; apply List.incl_refl|]. }
  destruct (rule_paths expanded _) as [qs|] eqn:Ep; [|done].
  destruct (apply_paths F f qs out) as [out1|] eqn:E; [|done]. intros E'.
  assert (Hf : In f F) by (apply Hi; by left).
  destruct (apply_paths_ok f qs out out1 P Hf) as (P1 & G1 & M1); [by intros q Hq; exists qs|done|].
  destruct (IH _ _ P1 (fun g Hg => Hi g (or_intror Hg)) E') as (P2 & G2 & M2).
  split_and!; [done|by etransitivity|]. intros g q [<-|Hg] Hn Hd; [|by apply M2].
  destruct Hn as (qs' & Eq & Hq). rewrite Ep in Eq. injection Eq as <-.
  eapply mounted_grows; [exact G2|auto].
Qed.
(** Every rule names its paths, when the compilation succeeds. *)
Lemma apply_rules_names rules : forall out out' f, apply_rules F expanded rules out = inl out' ->
  In f rules -> exists qs, rule_paths expanded (sn_matcher (fl_rule f)) = inl qs.
Proof.
  induction rules as [|g rules IH]; intros out out' f; cbn; [done|].
  destruct (rule_paths expanded (sn_matcher (fl_rule g))) as [qs|] eqn:Ep; [|done].
  destruct (apply_paths F g qs out) as [out1|]; [|done]. intros E [<-|Hf]; [eauto|by eapply IH].
Qed.
End Collect.

(** * Normalised lists *)
Lemma dedup_incl {A} (same : A -> A -> bool) prev l : incl (dedup_adjacent same prev l) l.
Proof.
  revert prev. induction l as [|x l IH]; intros prev y; cbn; [done|].
  destruct prev as [z|]; [destruct (same z x)|]; cbn; intros Hy; try (destruct Hy as [<-|Hy]); eauto.
  all: right; by eapply IH.
Qed.
Lemma dedup_keeps {A} (same : A -> A -> bool) (Hs : forall x, same x x = true) l : forall prev x, In x l ->
  (exists y, In y (dedup_adjacent same prev l) /\ same y x = true) \/ (exists y, prev = Some y /\ same y x = true).
Proof.
  induction l as [|z l IH]; intros prev x; [done|]. intros Hx. cbn.
  destruct prev as [p|]; [destruct (same p z) eqn:E|].
  - destruct Hx as [->|Hx]; [by right; eauto|]. destruct (IH (Some p) x Hx) as [?|?]; auto.
  - destruct Hx as [->|Hx]; [left; exists x; cbn; auto|].
    destruct (IH (Some z) x Hx) as [(y & Hy & ?)|(y & [= <-] & ?)]; left; [exists y|exists z]; cbn; auto.
  - destruct Hx as [->|Hx]; [left; exists x; cbn; auto|].
    destruct (IH (Some z) x Hx) as [(y & Hy & ?)|(y & [= <-] & ?)]; left; [exists y|exists z]; cbn; auto.
Qed.
Lemma in_insert_path x y l : In y (insert_path x l) <-> y = x \/ In y l.
Proof.
  induction l as [|z l IH]; cbn; [naive_solver|].
  destruct (path_compare x z); cbn; rewrite ?IH; naive_solver.
Qed.
Lemma in_sort_paths y l : In y (List.fold_right insert_path [] l) <-> In y l.
Proof. induction l as [|x l IH]; cbn; [done|]. rewrite in_insert_path, IH. naive_solver. Qed.
Lemma in_normalize_exact l q : (forall x, In x l -> normal x) -> In q (normalize_exact l) <-> In q l.
Proof.
  intros Hn. unfold normalize_exact. split.
  - intros Hq%dedup_incl. by apply in_sort_paths.
  - intros Hq. destruct (dedup_keeps path_eq path_eq_refl (List.fold_right insert_path [] l) None q)
      as [(y & Hy & E)|(y & [=] & _)]; [by apply in_sort_paths|].
    assert (In y l) by (apply dedup_incl in Hy; by apply in_sort_paths).
    rewrite <- (normal_eq y q); auto.
Qed.
Lemma normalize_exact_incl l : incl (normalize_exact l) l.
Proof. intros q Hq%dedup_incl. by apply in_sort_paths. Qed.
Lemma drop_nested_incl l : forall k q, In q (drop_nested l k) -> In q l \/ In q k.
Proof.
  induction l as [|x l IH]; intros k q; cbn; [auto|]. intros [Hq|Hq]%IH; [auto|].
  destruct (existsb _ k); [auto|]. apply in_app_iff in Hq as [?|[<-|[]]]; auto.
Qed.
Lemma normalize_roots_incl l : incl (normalize_roots l) l.
Proof. intros q [Hq|[]]%drop_nested_incl. by apply in_sort_by_key in Hq. Qed.

(** * What a command sees

    [plan_mounts] is the order of the mounts; the last one over a path is what
    the kernel shows there, and a mode-000 mask stops every path below it. *)
Definition over (p : string) (m : MountRequest) : bool := path_within p (mt_target m).
Definition visible (ms : list MountRequest) (p : string) : option MountKind :=
  option_map mt_kind (last (List.filter (over p) ms)).
Definition shell_writes (ms : list MountRequest) (p : string) : Prop := visible ms p = Some Writable.
Definition shell_reads (ms : list MountRequest) (p : string) : Prop :=
  forall a, path_within p a = true -> visible ms a <> Some Unreadable.

Definition mounts_of (kind : MountKind) (paths : list string) : list MountRequest :=
  List.map (fun path => mkMount path path kind None None) paths.
Definition depth (m : MountRequest) : Z := component_count (mt_target m).
Lemma plan_mounts_eq plan : plan_mounts plan = sort_by_key depth
  (mounts_of Writable (pl_writable_roots plan) ++ mounts_of ReadOnly (pl_read_only_paths plan)
   ++ mounts_of Unreadable (pl_unreadable_paths plan) ++ mounts_of ReadOnly (pl_reopened_read_only_paths plan)
   ++ mounts_of Writable (pl_reopened_paths plan)).
Proof. unfold plan_mounts, extend_mounts. cbn [List.app]. by rewrite <- !app_assoc. Qed.
Lemma in_mounts_of kind paths m : In m (mounts_of kind paths) <-> exists q, In q paths /\ m = mkMount q q kind None None.
Proof. unfold mounts_of. rewrite in_map_iff. naive_solver. Qed.

(** The visible mount and the last one among those of its target. *)
Lemma visible_top U p m : last (List.filter (over p) (sort_by_key depth U)) = Some m ->
  In m U /\ over p m = true /\ (forall x, In x U -> over p x = true -> depth x <= depth m)
  /\ forall before after, U = before ++ after ->
       (exists x, In x after /\ over p x = true /\ depth x = depth m) -> In m after.
Proof.
  intros Hl%last_sorted_filter. destruct Hl as (Hi & Ho & Hmax & Hlast). split_and!; [done..|].
  intros bef aft -> (x & Hx & Hox & Hdx). rewrite List.filter_app, List.filter_app in Hlast.
  destruct (last_nonempty (List.filter (fun x => depth x =? depth m) (List.filter (over p) aft)) x) as [m' Hm'].
  { apply List.filter_In. split; [by apply List.filter_In|]. by apply Z.eqb_eq. }
  rewrite last_app, Hm' in Hlast. injection Hlast as <-. apply last_in in Hm'.
  apply List.filter_In in Hm' as [Hm' _]. by apply List.filter_In in Hm' as [? _].
Qed.
Lemma depth_le p m x : over p m = true -> over p x = true -> depth m <= depth x ->
  path_within (mt_target x) (mt_target m) = true.
Proof.
  intros Hm Hx Hd. destruct (path_within_comparable p _ _ Hm Hx) as [Hw|Hw]; [|done].
  apply path_within_depth in Hw as Hl. apply path_eq_within. rewrite path_eq_sym.
  apply (path_within_same_depth p); [done|done|]. unfold depth, component_count, len in Hd. lia.
Qed.
Lemma same_depth_eq p m x : over p m = true -> over p x = true -> depth m = depth x ->
  normal (mt_target m) -> normal (mt_target x) -> mt_target m = mt_target x.
Proof.
  intros Hm Hx Hd Nm Nx. apply normal_eq; [done..|]. apply (path_within_same_depth p); [done|done|].
  unfold depth, component_count, len in Hd. lia.
Qed.

(** * The plan against the first match *)
Section Sound.
Context `{SandboxHost} `{RuleLib} `{!RegexLaws} `{ScanHost} `{!WalkLaws} `{DigestLib}.
Variables (snap : RuleSetSnapshot) (expanded : Matches) (plan : LinuxSandboxPlan) (p : string).
Definition flat : list FlatRule := flatten (ss_layers snap).
Definition roots : list string := ss_workspace snap :: ss_temp_roots snap.
Definition allows (f : FlatRule) : Prop := sn_decision (fl_rule f) = Allow.

(** What the plan can express for a path: only denials use globs, rules name
    normal paths and patterns the scan accepts, a literal rule is about a file,
    the path and what is above it exist, can be inspected and are listed by the
    walks of the directories above them (none is behind a symbolic link), and no
    rule withholds a base writable root as a whole. *)
Record mountable : Prop := {
  mo_allow : forall f, In f flat -> allows f -> rule_pattern f = None;
  mo_normal : forall f, In f flat ->
    match sn_matcher (fl_rule f) with
    | SLiteral q => normal q
    | SSubtree lexical canonical => normal lexical /\ normal canonical
    | SGlob pattern => scannable pattern /\ glob_matches pattern "/" = false
    end;
  mo_roots_normal : forall w, In w roots -> normal w;
  mo_names : exists names, p = abs_path names /\ Forall (fun n => plain_name n = true) names
    /\ Forall (fun n => utf8 n = true) names;
  mo_leaf : forall f q, In f flat -> sn_matcher (fl_rule f) = SLiteral q ->
    path_within p q = true -> path_eq p q = true;
  mo_exists : forall a, normal a -> is_absolute a = true -> path_within p a = true -> mount_path_exists a = inl true;
  mo_listed : forall f pattern q, In f flat -> rule_pattern f = Some pattern -> normal q ->
    path_within p q = true -> path_within q (scan_root pattern) = true ->
    exists ty, listed (walk_dir (scan_root pattern)) q ty;
  mo_roots : forall w, In w roots -> effective_blocked flat w Write = false
}.
Hypothesis Hm : mountable.
Hypothesis Hexp : expand_globs (omap rule_pattern flat) "pre_launch" = inl expanded.
Hypothesis Hplan : compile_with_cancel snap = inl plan.

Lemma mo_path : normal p.
Proof. destruct (mo_names Hm) as (names & -> & Hn & _). by apply abs_path_normal. Qed.
Lemma mo_absolute : is_absolute p = true.
Proof. destruct (mo_names Hm) as (names & -> & _). apply abs_path_absolute. Qed.
Lemma pattern_of f pattern : sn_matcher (fl_rule f) = SGlob pattern <-> rule_pattern f = Some pattern.
Proof. unfold rule_pattern. destruct (sn_matcher (fl_rule f)); naive_solver. Qed.
Lemma patterns_scannable f pattern : In f flat -> rule_pattern f = Some pattern ->
  scannable pattern /\ glob_matches pattern "/" = false.
Proof. intros Hf Hp%pattern_of. pose proof (mo_normal Hm f Hf) as N. by rewrite Hp in N. Qed.
Lemma glob_expanded f pattern q : In f flat -> rule_pattern f = Some pattern ->
  In q (default [] (expanded !! pattern)) <-> matches_on_disk pattern q.
Proof.
  intros Hf Hp. revert Hexp. unfold expand_globs. destruct (try_each _ _); [|done].
  destruct (scan _ _) as [found|] eqn:E; [|done]. intros [= <-].
  destruct (scan_finds_what_is_there (omap rule_pattern flat) "pre_launch" found pattern) as (paths & -> & Hi); [|done| |done].
  - intros t (f' & Hf' & Ht)%list_elem_of_In%list_elem_of_omap. apply list_elem_of_In in Hf'. by apply (patterns_scannable f').
  - apply list_elem_of_In, list_elem_of_omap. exists f. by rewrite list_elem_of_In.
Qed.
(** The scan found every match at or above the path. *)
Lemma glob_scanned f pattern q : In f flat -> rule_pattern f = Some pattern -> normal q ->
  path_within p q = true -> glob_matches pattern q = true -> In q (default [] (expanded !! pattern)).
Proof.
  intros Hf Hp Hq Hw Hg. apply (glob_expanded f pattern q Hf Hp).
  destruct (patterns_scannable f pattern Hf Hp) as [Hs Hr]. destruct (mo_names Hm) as (names & E & Hn & Hu).
  assert (Hw' := Hw). rewrite E in Hw'. destruct (within_names names q Hn Hq Hw') as [->|(above & below & -> & ->)].
  { destruct Hs as (pat & -> & Hpn & Hpu & Hpne). apply glob_matches_spec in Hg. rewrite chars_names in Hg; [|done|by intros ->].
    destruct pat; [done|]. inversion Hg. }
  apply Forall_app in Hn as [Hn _], Hu as [Hu _].
  assert (Hne : above <> []) by (intros ->; cbn in Hg; congruence).
  pose proof (glob_below_root pattern above Hs Hn Hu Hne Hg) as Hroot.
  destruct (mo_listed Hm f pattern _ Hf Hp Hq Hw Hroot) as [ty Hl].
  exists (abs_path above), ty. split_and!; [|done| |done|by left].
  - intros Ex. destruct Hs as (pat & -> & Hpn & _). rewrite scan_root_names in * by done.
    assert (Hx : mount_path_exists (abs_path (root_names pat)) = inl true).
    { apply (mo_exists Hm); [by apply abs_path_normal, root_names_ok|apply abs_path_absolute|by eapply path_within_trans]. }
    unfold mount_path_exists in Hx. by rewrite Ex in Hx.
  - left. intros Ea. rewrite Ea in Hg. congruence.
Qed.

Lemma flat_sorted : StronglySorted before flat.
Proof. exact (flatten_from_sorted 0 (ss_layers snap)). Qed.

Definition collected (out : PlanPaths) : Prop :=
  provenance flat expanded roots out
  /\ (forall f q, In f flat -> names expanded f q -> ~ allows f -> mounted flat f q out)
  /\ (forall f, In f flat -> exists qs, rule_paths expanded (sn_matcher (fl_rule f)) = inl qs)
  /\ finish_plan snap (omap rule_pattern flat) expanded out = inl plan.
Lemma plan_collected : exists out, collected out.
Proof.
  revert Hplan. unfold compile_with_cancel. destruct (ss_resolution_errors snap); [|done].
  destruct (try_each _ _); [|done]. fold flat. rewrite Hexp.
  destruct (apply_rules flat expanded flat (base_paths snap)) as [out|] eqn:E; [|done].
  intros Hf. exists out.
  assert (P : provenance flat expanded roots (base_paths snap)).
  { split; cbn; [by left|done..|]. by intros q [[]|[[]|[]]]. }
  destruct (apply_rules_ok flat expanded roots flat _ _ P (List.incl_refl _) E) as (P1 & _ & M1).
  split_and!; [done|done| |done]. intros f Hin. by eapply apply_rules_names.
Qed.
Lemma finish_fields out : finish_plan snap (omap rule_pattern flat) expanded out = inl plan ->
  incl (pl_writable_roots plan) (pp_writable_roots out)
  /\ pl_reopened_paths plan = normalize_exact (pp_reopened out)
  /\ pl_reopened_read_only_paths plan = normalize_exact (pp_reopened_read_only out)
  /\ pl_unreadable_paths plan
     = List.filter (fun q => negb (contains_path (normalize_exact (pp_missing_protected out)) q))
         (normalize_exact (pp_unreadable out))
  /\ pl_read_only_paths plan
     = List.filter (fun q => negb (contains_path (normalize_exact (pp_unreadable out)) q)
                             && negb (contains_path (normalize_exact (pp_missing_protected out)) q))
         (normalize_exact (pp_read_only out)).
Proof.
  unfold finish_plan. destruct (_ <? _); [done|]. destruct (policy_digest snap); [|done].
  intros [= <-]. cbn. split; [apply normalize_roots_incl|done].
Qed.

(** ** What rules name and cover *)
Lemma names_normal f q : In f flat -> names expanded f q -> normal q.
Proof.
  intros Hf (qs & E & Hq). pose proof (mo_normal Hm f Hf) as N. revert E. unfold rule_paths.
  destruct (sn_matcher (fl_rule f)) as [path|lexical canonical|pattern] eqn:Em.
  - destruct (validate_absolute path); [|done]. intros [= <-]. by destruct Hq as [<-|[]].
  - destruct (validate_absolute lexical); [|done]. destruct (validate_absolute canonical); [|done].
    intros [= <-]. apply normalize_exact_incl in Hq. destruct N. by destruct Hq as [<-|[<-|[]]].
  - intros [= <-]. apply pattern_of in Em. apply (glob_expanded f pattern q Hf Em) in Hq.
    eapply on_disk_normal; [apply N|exact Hq].
Qed.
Lemma names_covered f q : rule_pattern f = None -> names expanded f q ->
  snapshot_covers (sn_matcher (fl_rule f)) q = true.
Proof.
  unfold rule_pattern, rule_paths. intros Hg (qs & E & Hq). revert E. unfold rule_paths.
  destruct (sn_matcher (fl_rule f)) as [path|lexical canonical|pattern]; [| |done]; cbn [snapshot_covers].
  - destruct (validate_absolute path); [|done]. intros [= <-]. destruct Hq as [<-|[]]. apply path_eq_refl.
  - destruct (validate_absolute lexical); [|done]. destruct (validate_absolute canonical); [|done].
    intros [= <-]. apply normalize_exact_incl in Hq.
    destruct Hq as [<-|[<-|[]]]; rewrite path_within_refl; [done|apply orb_true_r].
Qed.
(** An allow of a path above covers the path. *)
Lemma allow_covers_below f t access : In f flat -> allows f -> path_within p t = true ->
  snapshot_matches (fl_rule f) t access = true -> snapshot_matches (fl_rule f) p access = true.
Proof.
  intros Hf Ha Hw. pose proof (mo_allow Hm f Hf Ha) as Hg. unfold snapshot_matches, rule_pattern in *.
  rewrite !andb_true_iff. intros [Hov Hc]. split; [done|]. revert Hc.
  destruct (sn_matcher (fl_rule f)) as [q|lexical canonical|] eqn:E; [| |done]; cbn.
  - intros Hq. apply (mo_leaf Hm f q Hf E). by eapply path_within_trans, path_eq_within.
  - rewrite !orb_true_iff. intros [Hl|Hl]; [left|right]; by eapply path_within_trans.
Qed.
(** So the first match of a path above, when it allows, is no later than a
    blocking first match of the path. *)
Lemma allow_above_first f r t access : first flat t access = Some f -> allows f ->
  first flat p access = Some r -> ~ allows r -> path_within p t = true ->
  snapshot_matches (fl_rule r) t access = true -> False.
Proof.
  intros Hf Ha Hr Hb Hw Hrt. destruct (first_in _ _ _ _ Hf) as [Hif Hmf]. destruct (first_in _ _ _ _ Hr) as [Hir _].
  pose proof (allow_covers_below _ _ _ Hif Ha Hw Hmf) as Hmp.
  destruct (first_is_first _ flat_sorted _ _ _ _ Hr Hif Hmp) as [->|B1]; [done|].
  destruct (first_is_first _ flat_sorted _ _ _ _ Hf Hir Hrt) as [->|B2]; [done|].
  by eapply before_asym.
Qed.

(** ** Where a blocked path is mounted *)
Record blocked_at (r : FlatRule) (access : Access) (b : string) (f : FlatRule) : Prop := {
  ba_normal : normal b;
  ba_above : path_within p b = true;
  ba_exists : mount_path_exists b = inl true;
  ba_first : first flat b access = Some f;
  ba_blocks : ~ allows f;
  ba_names : names expanded f b;
  ba_below : forall t, normal t -> path_within p t = true -> path_within t b = true ->
    snapshot_matches (fl_rule r) t access = true
}.
Lemma path_exists : mount_path_exists p = inl true.
Proof. apply (mo_exists Hm); [apply mo_path|apply mo_absolute|apply path_within_refl]. Qed.
Lemma blocked_here r access : first flat p access = Some r -> ~ allows r -> names expanded r p ->
  blocked_at r access p r.
Proof.
  intros Hr Hb Hn. split; [apply mo_path|apply path_within_refl|apply path_exists|done..|].
  intros t Ht Hpt Htp. rewrite (normal_eq t p); [by apply (first_in _ _ _ _ Hr)|done|apply mo_path|].
  apply (path_within_same_depth p); [done|apply path_within_refl|].
  apply path_within_depth in Hpt, Htp. lia.
Qed.
Lemma validated_absolute q u : validate_absolute q = inl u -> is_absolute q = true.
Proof. unfold validate_absolute. by destruct (is_absolute q). Qed.
Lemma subtree_names r lexical canonical b qs : In r flat ->
  sn_matcher (fl_rule r) = SSubtree lexical canonical ->
  rule_paths expanded (sn_matcher (fl_rule r)) = inl qs -> In b [lexical; canonical] ->
  names expanded r b /\ normal b /\ is_absolute b = true.
Proof.
  intros Hir E Eq Hb. pose proof (mo_normal Hm r Hir) as N. rewrite E in N.
  assert (Hn : forall x, In x [lexical; canonical] -> normal x) by (by intros x [<-|[<-|[]]]; apply N).
  revert Eq. rewrite E. cbn [rule_paths].
  destruct (validate_absolute lexical) eqn:El; [|done]. destruct (validate_absolute canonical) eqn:Ec; [|done].
  intros [= <-]. split_and!; [|by apply Hn|].
  - exists (normalize_exact [lexical; canonical]). rewrite E. cbn [rule_paths]. rewrite El, Ec.
    split; [done|]. by apply in_normalize_exact.
  - destruct Hb as [<-|[<-|[]]]; by eapply validated_absolute.
Qed.
Lemma blocked_somewhere r access out : collected out -> first flat p access = Some r -> ~ allows r ->
  exists b f, blocked_at r access b f.
Proof.
  intros (_ & _ & Hpaths & _) Hr Hb. destruct (first_in _ _ _ _ Hr) as [Hir Hmr].
  destruct (Hpaths r Hir) as [qs Eq]. unfold snapshot_matches in Hmr. apply andb_true_iff in Hmr as [Hov Hcov].
  destruct (sn_matcher (fl_rule r)) as [q|lexical canonical|pattern] eqn:E; cbn in Hcov.
  - exists p, r. apply blocked_here; [done..|]. exists qs. rewrite E. split; [done|]. revert Eq. cbn.
    destruct (validate_absolute q); [|done]. intros [= <-]. left. symmetry.
    pose proof (mo_normal Hm r Hir) as N. rewrite E in N. apply normal_eq; [apply mo_path|done..].
  - assert (Hb' : exists b, In b [lexical; canonical] /\ path_within p b = true).
    { apply orb_true_iff in Hcov as [Hc|Hc]; [exists lexical|exists canonical]; cbn; auto. }
    destruct Hb' as (b & Hin & Hpb). rewrite <- E in Eq.
    destruct (subtree_names r _ _ b qs Hir E Eq Hin) as (Hn & Hnb & Habs).
    assert (Hx : mount_path_exists b = inl true) by by apply (mo_exists Hm).
    assert (Hsub : forall t, path_within t b = true -> snapshot_matches (fl_rule r) t access = true).
    { intros t Ht. unfold snapshot_matches. rewrite E, Hov. cbn.
      destruct Hin as [<-|[<-|[]]]; rewrite Ht; [done|apply orb_true_r]. }
    destruct (first_exists flat b access r Hir (Hsub b (path_within_refl b))) as [f Hf].
    destruct (first_in _ _ _ _ Hf) as [Hif Hmf].
    assert (Hbf : ~ allows f).
    { intros Ha. eapply allow_above_first; eauto. apply Hsub, path_within_refl. }
    exists b, f. split; [done..| |intros t _ _ Ht; by apply Hsub].
    unfold snapshot_matches in Hmf. apply andb_true_iff in Hmf as [Hovf Hcf].
    destruct (Hpaths f Hif) as [qs' Eq'].
    destruct (sn_matcher (fl_rule f)) as [q|l c|pattern] eqn:Ef; cbn in Hcf.
    + exists qs'. rewrite Ef. split; [done|]. revert Eq'. cbn. destruct (validate_absolute q); [|done].
      intros [= <-]. left. symmetry. pose proof (mo_normal Hm f Hif) as N. rewrite Ef in N. by apply normal_eq.
    + assert (Hfp : snapshot_matches (fl_rule f) p access = true).
      { unfold snapshot_matches. rewrite Ef, Hovf. cbn. apply orb_true_iff in Hcf as [Hc|Hc];
          rewrite (path_within_trans _ _ _ Hpb Hc); [done|apply orb_true_r]. }
      destruct (first_is_first _ flat_sorted _ _ _ _ Hr Hif Hfp) as [->|B1]; [done|].
      destruct (first_is_first _ flat_sorted _ _ _ _ Hf Hir (Hsub b (path_within_refl b))) as [->|B2]; [done|].
      by destruct (before_asym _ _ B1 B2).
    + exists qs'. rewrite Ef. split; [done|]. cbn in Eq'. injection Eq' as <-.
      apply (glob_scanned f); try done. by apply pattern_of.
  - exists p, r. apply blocked_here; [done..|]. exists qs. rewrite E. split; [done|]. cbn in Eq.
    injection Eq as <-. apply (glob_scanned r); try done; [by apply pattern_of|apply mo_path|apply path_within_refl].
Qed.

(** ** The mount of a blocked path *)
Lemma normal_lists out : collected out ->
  (forall q, In q (pp_unreadable out) -> normal q) /\ (forall q, In q (pp_read_only out) -> normal q)
  /\ (forall q, In q (pp_missing_protected out) -> normal q)
  /\ (forall q, In q (pp_writable_roots out) -> normal q) /\ (forall q, In q (pp_reopened out) -> normal q)
  /\ (forall q, In q (pp_reopened_read_only out) -> normal q).
Proof.
  intros ([P1 P2 P3 _ P5] & _).
  assert (Hnf : forall q, (exists f, In f flat /\ names expanded f q) -> normal q).
  { intros q (f & Hf & Hn). by eapply names_normal. }
  assert (Hw : forall q, opens_write flat expanded q -> normal q).
  { intros q (f & (Hf & Hn & _) & _). by eapply names_normal. }
  split_and!; intros q Hq.
  - apply Hnf, P5. by left.
  - apply Hnf, P5. by right; left.
  - apply Hnf, P5. by right; right.
  - destruct (P1 q Hq); [by apply (mo_roots_normal Hm)|by apply Hw].
  - by apply Hw, P2.
  - destruct (P3 q Hq) as (f & Hf & Hn & _). by eapply names_normal.
Qed.
Lemma not_missing out b : collected out -> normal b -> mount_path_exists b = inl true ->
  contains_path (normalize_exact (pp_missing_protected out)) b = false.
Proof.
  intros Hc Hn He. destruct (normal_lists out Hc) as (_ & _ & Nm & _). apply existsb_false.
  intros q Hq%normalize_exact_incl. destruct (path_eq b q) eqn:E; [|done].
  rewrite <- (normal_eq b q Hn (Nm q Hq) E) in Hq. destruct Hc as ([_ _ _ P4 _] & _).
  by rewrite (P4 b Hq) in He.
Qed.
Lemma blocked_mount out r access b f : collected out -> blocked_at r access b f ->
  match access with
  | Read => In b (pl_unreadable_paths plan)
  | _ => In b (pl_unreadable_paths plan) \/ In b (pl_read_only_paths plan)
  end.
Proof.
  intros Hc [Hn Hab He Hf Hbf Hnames _]. pose proof Hc as (_ & Hmnt & _ & Hfin).
  pose proof (finish_fields out Hfin) as (_ & _ & _ & Eu & Er).
  destruct (normal_lists out Hc) as (Nu & Nr & _). destruct (first_in _ _ _ _ Hf) as [Hif Hmf].
  assert (Hbl : blocks flat f b access = true).
  { unfold blocks, earlier. unfold snapshot_matches in Hmf. apply andb_true_iff in Hmf as [-> _].
    by rewrite (first_not_earlier flat flat_sorted b access f Hf). }
  assert (Hu : In b (pp_unreadable out) -> In b (pl_unreadable_paths plan)).
  { intros Hb. rewrite Eu. apply List.filter_In. rewrite (not_missing out b Hc Hn He).
    by rewrite in_normalize_exact. }
  destruct (Hmnt f b Hif Hnames Hbf He) as [Mr Mw].
  assert (Hw : blocks flat f b Write = true -> In b (pl_unreadable_paths plan) \/ In b (pl_read_only_paths plan)).
  { intros Hb. destruct (Mw Hb) as [Hb'|Hb']; [left; auto|].
    destruct (contains_path (normalize_exact (pp_unreadable out)) b) eqn:Ec.
    - left. apply Hu. apply List.existsb_exists in Ec as (q & Hq%normalize_exact_incl & E).
      by rewrite (normal_eq b q Hn (Nu q Hq) E).
    - right. rewrite Er. apply List.filter_In. rewrite Ec, (not_missing out b Hc Hn He).
      by rewrite in_normalize_exact. }
  destruct access; auto.
Qed.
(** No rule reopens a path whose first match blocks. *)
Lemma opens_against_first a f b access : first flat b access = Some f -> ~ allows f ->
  opens flat expanded a b access -> False.
Proof.
  intros Hf Hb (Ha & Hn & Hal & Hov & He).
  assert (Hma : snapshot_matches (fl_rule a) b access = true).
  { unfold snapshot_matches. rewrite Hov. by apply names_covered; [apply (mo_allow Hm)|]. }
  assert (Hne : a <> f) by (by intros ->).
  unfold earlier in He. by rewrite (earlier_of_first flat flat_sorted b access f a Hf Ha Hne Hma) in He.
Qed.
Lemma opens_write_against a b r : first flat p Write = Some r -> ~ allows r ->
  path_within p b = true -> snapshot_matches (fl_rule r) b Write = true ->
  opens flat expanded a b Write -> False.
Proof.
  intros Hr Hb Hw Hrb Ho. destruct (first_exists flat b Write r (proj1 (first_in _ _ _ _ Hr)) Hrb) as [g Hg].
  destruct (decide (allows g)) as [Ha|Hna]; [by eapply allow_above_first|by eapply opens_against_first].
Qed.

(** * The theorem *)
Lemma shell_write_not_blocked : shell_writes (plan_mounts plan) p -> effective_blocked flat p Write = false.
Proof.
  intros Hs. rewrite effective_blocked_first. destruct (first flat p Write) as [r|] eqn:Hr; [|done].
  destruct (decide (allows r)) as [->|Hb]; [done|]. exfalso.
  destruct plan_collected as [out Hc].
  destruct (blocked_somewhere r Write out Hc Hr Hb) as (b & f & Hat).
  pose proof (blocked_mount out r Write b f Hc Hat) as Hbm. destruct Hat as [Hn Hab Hex Hf Hbf Hnames Hbelow].
  pose proof Hc as ([P1 P2 _ _ _] & _ & _ & Hfin). pose proof (finish_fields out Hfin) as (Ew & Ere & _).
  destruct (normal_lists out Hc) as (_ & _ & _ & Nw & Nre & _).
  unfold shell_writes, visible in Hs. rewrite plan_mounts_eq in Hs.
  destruct (last (List.filter (over p) (sort_by_key depth _))) as [m|] eqn:El; [|done]. cbn in Hs. injection Hs as Hk.
  apply visible_top in El as (Hin & Hover & Hmax & Hlast).
  assert (Hmb : exists mb, In mb (mounts_of ReadOnly (pl_read_only_paths plan)
                  ++ mounts_of Unreadable (pl_unreadable_paths plan)) /\ mt_target mb = b).
  { destruct Hbm as [Hu|Hro]; [exists (mkMount b b Unreadable None None)|exists (mkMount b b ReadOnly None None)];
      (split; [|done]); apply in_app_iff; [right|left]; apply in_mounts_of; eauto. }
  destruct Hmb as (mb & Hmb & Htb).
  assert (Hob : over p mb = true) by (unfold over; by rewrite Htb).
  set (rest := mounts_of ReadOnly (pl_read_only_paths plan) ++ mounts_of Unreadable (pl_unreadable_paths plan)
     ++ mounts_of ReadOnly (pl_reopened_read_only_paths plan) ++ mounts_of Writable (pl_reopened_paths plan)) in *.
  assert (Hmbr : In mb rest) by (unfold rest; rewrite app_assoc; apply in_app_iff; by left).
  (* the visible mount is a base root or a path some rule opens, and the blocking rule covers it *)
  assert (Ht : In m (mounts_of Writable (pl_reopened_paths plan)) \/ In m (mounts_of Writable (pl_writable_roots plan))).
  { apply in_app_iff in Hin as [Hin|Hin]; [by right|left]. unfold rest in Hin.
    rewrite !in_app_iff in Hin. destruct Hin as [Hin|[Hin|[Hin|Hin]]]; [..|done];
      apply in_mounts_of in Hin as (? & _ & ->); done. }
  assert (Htn : normal (mt_target m)).
  { destruct Ht as [Ht|Ht]; apply in_mounts_of in Ht as (q & Hq & ->); cbn.
    - rewrite Ere in Hq. by apply Nre, normalize_exact_incl.
    - by apply Nw, Ew. }
  assert (Hdb : depth mb <= depth m) by (apply Hmax; [apply in_app_iff; by right|done]).
  assert (Hwb : path_within (mt_target m) b = true) by (rewrite <- Htb; by apply (depth_le p)).
  assert (Hrt : snapshot_matches (fl_rule r) (mt_target m) Write = true) by by apply Hbelow.
  assert (Hopen : In m (mounts_of Writable (pl_reopened_paths plan)) -> False).
  { intros Hre. apply in_mounts_of in Hre as (q & Hq & Em). rewrite Ere in Hq. apply normalize_exact_incl in Hq.
    destruct (P2 q Hq) as (a & Ha & _). rewrite Em in Hrt, Hover.
    exact (opens_write_against a q r Hr Hb Hover Hrt Ha). }
  destruct Ht as [Ht|Ht]; [by apply Hopen|]. apply in_mounts_of in Ht as (q & Hq & Em).
  rewrite Em in Hrt, Hover. cbn in Hrt. unfold over in Hover. cbn in Hover.
  destruct (P1 q (Ew q Hq)) as [Hroot|(a & Ha & _)]; [|exact (opens_write_against a q r Hr Hb Hover Hrt Ha)].
  pose proof (mo_roots Hm q Hroot) as Hrb. rewrite effective_blocked_first in Hrb.
  destruct (first_exists flat q Write r (proj1 (first_in _ _ _ _ Hr)) Hrt) as [g Hg]. rewrite Hg in Hrb.
  eapply (allow_above_first g r q Write); eauto. unfold allows. by destruct (sn_decision (fl_rule g)).
Qed.
Lemma shell_read_not_blocked : shell_reads (plan_mounts plan) p -> effective_blocked flat p Read = false.
Proof.
  intros Hs. rewrite effective_blocked_first. destruct (first flat p Read) as [r|] eqn:Hr; [|done].
  destruct (decide (allows r)) as [->|Hb]; [done|]. exfalso.
  destruct plan_collected as [out Hc].
  destruct (blocked_somewhere r Read out Hc Hr Hb) as (b & f & Hat).
  pose proof (blocked_mount out r Read b f Hc Hat) as Hbm. cbn in Hbm. destruct Hat as [Hn Hab Hex Hf Hbf Hnames Hbelow].
  pose proof Hc as ([_ P2 P3 _ _] & _ & _ & Hfin). pose proof (finish_fields out Hfin) as (_ & Ere & Err & _).
  destruct (normal_lists out Hc) as (_ & _ & _ & _ & Nre & Nrr).
  apply (Hs b Hab). unfold visible. rewrite plan_mounts_eq.
  set (U := _ ++ _). pose (mb := mkMount b b Unreadable None None).
  assert (Hmb : In mb (mounts_of Unreadable (pl_unreadable_paths plan))) by (apply in_mounts_of; eauto).
  assert (HmbU : In mb U) by (unfold U; rewrite !in_app_iff; auto).
  assert (Hob : over b mb = true) by apply path_within_refl.
  destruct (last_nonempty (List.filter (over b) (sort_by_key depth U)) mb) as [m El].
  { apply List.filter_In. by rewrite in_sort_by_key. }
  rewrite El. cbn. f_equal. apply visible_top in El as (_ & Hover & Hmax & Hlast).
  assert (Hd : depth mb = depth m).
  { pose proof (Hmax mb HmbU Hob). apply path_within_depth in Hover. unfold depth, component_count, len, mb in *.
    cbn [mt_target] in *. lia. }
  unfold U in Hlast. rewrite app_assoc in Hlast.
  assert (Hin : In m (mounts_of Unreadable (pl_unreadable_paths plan)
     ++ mounts_of ReadOnly (pl_reopened_read_only_paths plan) ++ mounts_of Writable (pl_reopened_paths plan))).
  { eapply Hlast; [reflexivity|]. exists mb. rewrite in_app_iff. auto. }
  assert (Hq : forall q, normal q -> mt_target m = q -> q = b).
  { intros q Nq Eq. rewrite <- Eq. symmetry. apply (same_depth_eq b mb m); [done..|by rewrite Eq]. }
  rewrite !in_app_iff in Hin. destruct Hin as [Hin|[Hin|Hin]]; apply in_mounts_of in Hin as (q & Hin & Em); rewrite Em in *; [done|..].
  - exfalso. rewrite Err in Hin. apply normalize_exact_incl in Hin. pose proof (Hq q (Nrr q Hin) eq_refl) as ->.
    destruct (P3 b Hin) as (a & Ha). by eapply opens_against_first.
  - exfalso. rewrite Ere in Hin. apply normalize_exact_incl in Hin. pose proof (Hq q (Nre q Hin) eq_refl) as ->.
    destruct (P2 b Hin) as (a & _ & Hrb). rewrite effective_blocked_first, Hf in Hrb.
    apply Hbf. unfold allows. by destruct (sn_decision (fl_rule f)).
Qed.
(** A writable path without a rule is in a base root. *)
Lemma shell_write_unruled : shell_writes (plan_mounts plan) p -> first flat p Write = None ->
  existsb (path_within p) roots = true.
Proof.
  intros Hs Hnone. destruct plan_collected as [out Hc].
  pose proof Hc as ([P1 P2 _ _ _] & _ & _ & Hfin). pose proof (finish_fields out Hfin) as (Ew & Ere & _).
  unfold shell_writes, visible in Hs. rewrite plan_mounts_eq in Hs.
  destruct (last (List.filter (over p) (sort_by_key depth _))) as [m|] eqn:El; [|done]. cbn in Hs. injection Hs as Hk.
  apply visible_top in El as (Hin & Hover & _).
  assert (Hopen : forall q, opens_write flat expanded q -> path_within p q = true -> False).
  { intros q (a & (Ha & Hn & Hal & Hov & _) & _) Hw.
    assert (Hmp : snapshot_matches (fl_rule a) p Write = true).
    { apply (allow_covers_below a q); [done..|]. unfold snapshot_matches. rewrite Hov.
      by apply names_covered; [apply (mo_allow Hm)|]. }
    destruct (first_exists flat p Write a Ha Hmp). congruence. }
  rewrite !in_app_iff in Hin. destruct Hin as [Hin|[Hin|[Hin|[Hin|Hin]]]];
    apply in_mounts_of in Hin as (q & Hq & ->); try done; unfold over in Hover; cbn in Hover.
  - destruct (P1 q (Ew q Hq)) as [Hroot|Ho]; [|by destruct (Hopen q Ho)]. apply List.existsb_exists. eauto.
  - rewrite Ere in Hq. apply normalize_exact_incl in Hq. by destruct (Hopen q (P2 q Hq)).
Qed.
End Sound.

(** * The rules and their snapshot give the same verdicts *)
Section Agree.
Context `{SandboxHost} `{RuleLib} `{!RegexLaws} `{ScanHost} `{!WalkLaws} `{DigestLib}.

Definition access_of (op : Op) : Access := match op with OpRead => Read | OpWrite => Write end.
(** A glob rule keeps the expression of its pattern; every rule the code builds
    does. *)
Definition compiled_rule (r : PathRule) : Prop :=
  match pr_matcher r with
  | Glob pattern regex => regex = build_glob_regex pattern /\ utf8 pattern = true
  | _ => True
  end.
Lemma snapshot_matches_rule r path op : compiled_rule r ->
  snapshot_matches (rule_snapshot r) path (access_of op) = rule_matches r path op.
Proof.
  unfold compiled_rule, snapshot_matches, rule_matches, rule_snapshot. cbn.
  assert (access_overlap (pr_access r) (access_of op) = covers (pr_access r) op) as -> by by destruct (pr_access r), op.
  intros Hc. destruct (covers _ op); [cbn|done].
  destruct (pr_matcher r) as [q|l c|pattern regex]; cbn; [done..|]. destruct Hc as [-> Hu].
  by apply glob_matches_engine.
Qed.
Lemma first_verdict_flat st rs path op :
  (forall r, In r (List.concat (profile_layers st rs)) -> compiled_rule r) ->
  first_verdict (profile_layers st rs) path op
  = option_map (fun f => sn_decision (fl_rule f)) (first (flat (snapshot st rs)) path (access_of op)).
Proof.
  intros Hc. rewrite first_verdict_concat. cbn [first_verdict].
  assert (E : List.map fl_rule (flat (snapshot st rs)) = List.map rule_snapshot (List.concat (profile_layers st rs))).
  { unfold flat. rewrite flatten_eq, flatten_rules. unfold snapshot, profile_layers. cbn.
    by rewrite !List.map_app. }
  revert Hc E. unfold first. generalize (flat (snapshot st rs)) as F.
  induction (List.concat (profile_layers st rs)) as [|r rules IH]; intros [|f F] Hc; try done.
  intros [= Ef E]. cbn. rewrite Ef, snapshot_matches_rule by (apply Hc; by left).
  destruct (rule_matches r path op); [cbn; by rewrite Ef|]. apply IH; [|done].
  intros r' Hr. apply Hc. by right.
Qed.

Lemma plan_expanded snap plan : compile_with_cancel snap = inl plan ->
  exists expanded, expand_globs (omap rule_pattern (flat snap)) "pre_launch" = inl expanded.
Proof.
  unfold compile_with_cancel. destruct (ss_resolution_errors snap); [|done]. destruct (try_each _ _); [|done].
  fold (flat snap). destruct (expand_globs _ _) as [expanded|]; [eauto|done].
Qed.

(** C7: Where the rules can be mounted, a sandboxed command gets no access to a
    path which the approval rules would not have given it: what the mounts of a
    successfully compiled plan let it write there, the rule set allows to write,
    and what they let it read, the rule set allows to read.  The rules are ones
    this code compiled ([compiled_rule]: a glob carries the regex of its own
    pattern, which is UTF-8).  That they can be mounted at the path is
    [mountable], all eight parts of it: no allow or read grant is a glob; the
    rules' paths are normal and their globs can be walked and do not match "/";
    the writable roots are normal; the path is absolute, normal and UTF-8; a
    literal rule at or above the path names the path itself; everything from the
    path up to the root exists; the walk of a glob's scan root lists what lies at
    or above the path; no writable root is itself denied for writing.  Without
    them the claim is false: a denial above the workspace is undone by the
    workspace's own mount ([a_denial_above_the_workspace_is_lost], against the
    last part) and an allow by a glob opens whole subtrees
    ([a_glob_allow_opens_subtrees], against the first). *)
Theorem shell_stays_within_the_rules st rs plan path :
  (forall r, In r (List.concat (profile_layers st rs)) -> compiled_rule r) ->
  compile_with_cancel (snapshot st rs) = inl plan ->
  mountable (snapshot st rs) path ->
  (shell_writes (plan_mounts plan) path -> evaluate st rs path OpWrite = Allow)
  /\ (shell_reads (plan_mounts plan) path -> evaluate st rs path OpRead = Allow).
Proof.
  intros Hc Hplan Hm. destruct (plan_expanded _ _ Hplan) as [expanded Hexp]. unfold evaluate. rewrite !first_verdict_flat by done. cbn [access_of]. split; intros Hs.
  - pose proof (shell_write_not_blocked _ _ _ _ Hm Hexp Hplan Hs) as Hb. rewrite effective_blocked_first in Hb.
    destruct (first _ path Write) as [f|] eqn:Ef; cbn.
    + by destruct (sn_decision (fl_rule f)).
    + pose proof (shell_write_unruled _ _ _ _ Hm Hexp Hplan Hs Ef) as Hr. cbn in Hr. by rewrite Hr.
  - pose proof (shell_read_not_blocked _ _ _ _ Hm Hexp Hplan Hs) as Hb. rewrite effective_blocked_first in Hb.
    destruct (first _ path Read) as [f|] eqn:Ef; cbn; [|done]. by destruct (sn_decision (fl_rule f)).
Qed.

(** * Refusals *)
(** A rule file with an entry that is no rule stops every sandboxed command:
    nothing is compiled from the rest of it. *)
Theorem a_bad_entry_stops_the_shell st workspace home file session text raws raw protection :
  read_to_string file = Contents text -> json_from_str text ≫= de_rule_file = Some raws ->
  In raw raws -> (forall pattern access decision, ~ legal_entry raw pattern access decision) ->
  exists error, compile_with_read_protection
    (snapshot st (resolve_impl workspace home (Some file) session)) protection
    = inr (RuleLayerUnavailable error).
Proof.
  intros Hread Hjson Hin Hbad.
  assert (He : rs_resolution_errors (resolve_impl workspace home (Some file) session) <> []).
  { unfold resolve_impl. destruct (loaded (load_rule_file_diagnostics (path_push _ _) _ _)) as [wr errs].
    unfold load_rule_file_diagnostics, parse_rule_file_diagnostics. rewrite Hread, Hjson.
    pose proof (parse_raw_rules_spec (canonicalize_lenient workspace) raws 0 errs) as P.
    pose proof (parse_raw_rules_bad (canonicalize_lenient workspace) raws raw 0 errs Hin Hbad) as B.
    destruct (parse_raw_rules _ _ raws errs) as [rules errs']. cbn in *. exact B. }
  unfold compile_with_read_protection, compile_with_cancel.
  destruct protection; cbn [ss_resolution_errors snapshot];
    (destruct (rs_resolution_errors _) as [|error errors]; [done|by exists error]).
Qed.
End Agree.
