(* ===== verification/SandboxShellProps.v ===== *)
(** Single-command file permissions: what a prepared request grants. *)
From S2P Require Import Prelude WorkspaceGuard SandboxPaths SandboxRules GlobScan SandboxPlan SandboxShell SandboxRulesProps.

Section Permissions.
Context `{SandboxHost} `{RuleLib} `{ScanHost} `{DigestLib} `{ShellHost}.
Variables (workspace : string) (home user_rule_file : option string) (session : SessionRules).

Definition op_of (access : Access) : Op := match access with Read => OpRead | _ => OpWrite end.
(** A target the rules prompt for, at a place that can be granted. *)
Definition asked (st : SessionStore) (sb : ResolvedSandbox) (t : FileTarget) : Prop :=
  sandbox_evaluate st sb (ft_path t) (op_of (ft_access t)) = Ask
  /\ explicitly_denied st (sb_rules sb) (ft_path t) (op_of (ft_access t)) = false
  /\ parent_is_none (ft_path t) = false
  /\ exists inode, inode_of (ft_path t) = inl inode
       /\ match ft_scope t with File => in_is_file inode | SubtreeScope => in_is_dir inode end = true.

Lemma resolve_target_asked st sb host_home access request t id :
  access <> Both ->
  resolve_target st sb host_home access (op_of access) request = inl (Some (t, id)) -> asked st sb t.
Proof.
  intros Hacc. unfold resolve_target. destruct (is_blank _ || _); [done|]. destruct (is_blank _ || _); [done|].
  destruct (canonicalize_existing _) as [path|]; [|done].
  destruct (parent_is_none path || _) eqn:Ep; [done|]. destruct (inode_of path) as [inode|] eqn:Ei; [|done].
  destruct (match wr_scope request with File => _ | _ => _ end) eqn:Ef; [done|].
  destruct (match wr_scope request with File => _ | _ => _ end) eqn:Ed in |- *; [done|].
  destruct (explicitly_denied _ _ _ _) eqn:Ex; [done|].
  destruct (sandbox_evaluate st sb path (op_of access)) eqn:Ee; [|done|done]. intros [= <- _].
  apply orb_false_iff in Ep as [Ep _]. unfold asked. cbn. split_and!; [done..|].
  exists inode. split; [done|]. destruct (wr_scope request); by apply negb_false_iff.
Qed.
Lemma resolve_targets_asked st sb host_home requests : forall targets ids targets' ids',
  (forall r a o, In (r, (a, o)) requests -> a <> Both /\ o = op_of a) ->
  (forall t, In t targets -> asked st sb t) ->
  resolve_targets st sb host_home requests targets ids = inl (targets', ids') ->
  (forall t, In t targets' -> asked st sb t)
  /\ (List.length targets' <= List.length targets + List.length requests)%nat.
Proof.
  induction requests as [|[request [access op]] requests IH]; intros targets ids targets' ids' Hr Ht; cbn.
  { intros [= <- <-]. split; [done|lia]. }
  destruct (Hr request access op (or_introl eq_refl)) as [Hacc ->].
  assert (Hr' : forall r a o, In (r, (a, o)) requests -> a <> Both /\ o = op_of a) by (intros r a o Hin; apply (Hr r a o); by right).
  destruct (resolve_target _ _ _ _ _ _) as [[[t id]|]|e] eqn:E; [| |done].
  - destruct (existsb (same_target t) targets).
    + intros E'. destruct (IH _ _ _ _ Hr' Ht E'). split; [done|lia].
    + destruct (existsb _ targets); [done|]. intros E'.
      destruct (IH (targets ++ [t]) (ids ++ [id]) targets' ids' Hr') as [Ha Hl]; [|done|].
      * intros t' [Hin|[<-|[]]]%in_app_iff; [by apply Ht|]. by eapply resolve_target_asked.
      * rewrite length_app in Hl. cbn in Hl. split; [done|lia].
  - intros E'. destruct (IH _ _ _ _ Hr' Ht E'). split; [done|lia].
Qed.

(** Freezing the session rules moves no verdict. *)
Lemma frozen_sandbox st sb path op : (rs_session (sb_rules sb) < List.length st)%nat ->
  let '(st', rules) := with_execution_grants st (sb_rules sb) [] in
  evaluate st' rules path op = evaluate st (sb_rules sb) path op
  /\ explicitly_denied st' rules path op = explicitly_denied st (sb_rules sb) path op
  /\ rs_execution rules = rs_execution (sb_rules sb).
Proof.
  intros Hs. unfold with_execution_grants, session_alloc. cbn. unfold evaluate, explicitly_denied, profile_layers.
  cbn. by rewrite session_lock_alloc.
Qed.

(** C19: A prepared request grants what was asked for and nothing else: it has at
    most eight targets, each one a path the rules prompt for and no rule denies;
    in the prepared sandbox every explicit denial stands, the targets are
    allowed, and every other access is decided as before. *)
Theorem prepared_grants_are_exact st sb command permissions st' prepared path op :
  lives workspace home user_rule_file session st (sb_rules sb) -> rs_execution (sb_rules sb) = [] ->
  permissions_prepare st sb command permissions = (st', inl prepared) ->
  len (pm_targets prepared) <= 8
  /\ (forall t, In t (pm_targets prepared) -> asked st sb t)
  /\ evaluate st' (sb_rules (pm_sandbox prepared)) path op
     = if is_empty (pm_targets prepared) then evaluate st (sb_rules sb) path op
       else if explicitly_denied st (sb_rules sb) path op then Deny
       else if existsb (fun t => rule_matches (target_rule t) path op) (pm_targets prepared) then Allow
       else evaluate st (sb_rules sb) path op.
Proof.
  intros Hl Hx. pose proof (lives_session _ _ _ _ _ _ Hl) as Hs.
  pose proof (fun path op => frozen_sandbox st sb path op Hs) as Hfz.
  pose proof (lives_grant _ _ _ _ _ _ [] Hl) as Hl'.
  unfold permissions_prepare. destruct (negb (wraps_shell sb)); [done|].
  destruct (with_execution_grants st (sb_rules sb) []) as [st1 rules] eqn:Efz.
  set (sb1 := set_field sb_rules (fun _ => rules) sb).
  destruct (ss_resolution_errors _); [|done].
  destruct (Z.ltb_spec 8 (len (ad_read permissions) + len (ad_write permissions))) as [|Hlen]; [done|].
  set (requests := _ ++ _). set (host_home := option_map _ _).
  destruct (resolve_targets st1 sb1 host_home requests [] []) as [[targets ids]|] eqn:Et; [|done].
  destruct (policy_digest _) as [digest|]; [|done].
  destruct (with_execution_grants st1 rules targets) as [st2 granted] eqn:Eg.
  destruct (compile_with_read_protection _ _) as [plan|]; [|done]. destruct (existsb _ targets); [done|].
  intros [= <- <-]. cbn [pm_targets pm_sandbox sb_rules].
  destruct (resolve_targets_asked st1 sb1 host_home requests [] [] targets ids) as [Hask Hcount]; [|done|done|].
  { unfold requests. intros r a o [Hin|Hin]%in_app_iff; by apply in_map_iff in Hin as (? & [= _ <- <-] & _). }
  split_and!.
  - unfold requests in Hcount. rewrite length_app, !List.length_map in Hcount. unfold len in *. cbn in Hcount. lia.
  - intros t Hin. destruct (Hask t Hin) as (E1 & E2 & E3 & E4). unfold asked, sandbox_evaluate, enabled in *.
    cbn [sb1 sb_tier sb_rules set_field] in E1, E2. unfold sb1 in E1, E2. cbn in E1, E2.
    destruct (Hfz (ft_path t) (op_of (ft_access t))) as (_ & D & _). rewrite <- D.
    destruct (Hfz (canonicalize_lenient (ft_path t)) (op_of (ft_access t))) as (V & _ & _). rewrite <- V. done.
  - match goal with |- evaluate _ ?x _ _ = _ => change x with granted end. destruct (Hfz path op) as (V & D & X).
    rewrite <- V, <- D. destruct (is_empty targets) eqn:Ee.
    + apply is_empty_true in Ee as ->. pose proof (frozen_sandbox st1 sb1 path op) as F.
      change (sb_rules sb1) with rules in F. rewrite Eg in F. apply F.
      exact (lives_session _ _ _ _ _ _ Hl').
    + pose proof (grants_verdict workspace home user_rule_file session st1 rules targets path op) as G.
      rewrite Eg in G. apply G; [exact Hl'|by rewrite X|by apply is_empty_false].
Qed.
End Permissions.
