(* ===== verification/SandboxClaims.v ===== *)
(** The sandbox at work on one machine: a home, a workspace in it and a user
    rule file; a vendored directory the user protects and a session reopens in
    part; a single-command permission to read one secret.  And what the rules and
    the plans do where they surprise. *)
From S2P Require Import Prelude WorkspaceGuard SandboxPaths SandboxRules GlobScan SandboxPlan SandboxShell GlobProps AbsPaths GlobScanProps SandboxRulesProps SandboxPlanProps SandboxShellProps.

(** * Rules *)
Section Rules.
(** Every normal path exists and is its own canonical form. *)
Definition demo_host : SandboxHost := {|
  HOME := Some "/home/u"; USERPROFILE := None; dirs_home_dir := None; FUTURE_HOME := None;
  temp_dir := "/tmp"; canonicalize := fun path => if normalb path then Some path else None
|}.
(** The user allows everything under [/], and has an entry that is no rule. *)
Definition user_rules_json : json :=
  JObj [("rules", JArr [JObj [("path", JStr "/"); ("access", JStr "both"); ("action", JStr "allow")];
                        JObj [("path", JStr "/srv"); ("action", JStr "denied")]])].
Definition demo_rules : RuleLib :=
  demo_rule_lib (fun text => if text =?s "user rules" then Some user_rules_json else None)
    (fun path => if path =?s "/home/u/.future/approval_rule.json" then Contents "user rules" else NotFound).
#[local] Existing Instance demo_host.
#[local] Existing Instance demo_rules.

Definition demo_session : SessionStore := [[]].
Definition demo_set : RuleSet :=
  resolved "/home/u/ws" (Some "/home/u") (Some "/home/u/.future/approval_rule.json") 0%nat.
Definition demo_lives (st : SessionStore) (rs : RuleSet) : Prop :=
  lives "/home/u/ws" (Some "/home/u") (Some "/home/u/.future/approval_rule.json") 0%nat st rs.
Lemma demo_set_lives : demo_lives demo_session demo_set.
Proof. apply lives_resolve. cbn. lia. Defined.
Example the_bad_entry_is_reported : List.length (rs_resolution_errors demo_set) = 1%nat.
Proof. vm_compute. reflexivity. Qed.
Example the_broad_rule_allows : evaluate demo_session demo_set "/etc/hosts" OpWrite = Allow.
Proof. vm_compute. reflexivity. Qed.

Lemma app_files_stay_denied_witness :
  evaluate demo_session demo_set "/home/u/.future/agent/models.json" OpRead = Deny.
Proof.
  refine (app_files_stay_denied _ _ _ _ _ _ "/home/u/.future/agent/models.json" Both
            "/home/u/.future/agent/models.json" OpRead demo_set_lives _ eq_refl eq_refl _).
  - vm_compute. tauto.
  - vm_compute. reflexivity.
Defined.

Definition env_target : FileTarget := mkFileTarget "/home/u/ws/.env" File Read.
Definition granted_store : SessionStore := fst (with_execution_grants demo_session demo_set [env_target]).
Definition granted_set : RuleSet := snd (with_execution_grants demo_session demo_set [env_target]).
Lemma granted_lives : demo_lives granted_store granted_set.
Proof. apply lives_grant, demo_set_lives. Defined.
Lemma secrets_need_a_grant_witness :
  evaluate demo_session demo_set "/home/u/ws/.env" OpRead = Ask
  /\ existsb (fun r => rule_matches r "/home/u/ws/.env" OpRead) (rs_execution granted_set) = true.
Proof.
  split; [vm_compute; reflexivity|].
  refine (secrets_need_a_grant _ _ _ _ _ _ "/home/u/ws/.env" OpRead granted_lives _ _);
    vm_compute; reflexivity.
Defined.
(** * Where the rules surprise *)
(** A session allow shadows a user denial, until a command is granted something
    else: the copy promotes the shadowed denial. *)
Definition denied_json : json :=
  JObj [("rules", JArr [JObj [("path", JStr "/home/u/ws/dist"); ("access", JStr "write"); ("action", JStr "deny")]])].
Definition denying_rules : RuleLib :=
  demo_rule_lib (fun _ => Some denied_json)
    (fun path => if path =?s "/home/u/.future/approval_rule.json" then Contents "" else NotFound).
Lemma a_grant_revives_shadowed_denials :
  let resolved := @resolve_impl demo_host denying_rules "/home/u/ws" (Some "/home/u")
                    (Some "/home/u/.future/approval_rule.json") 0%nat in
  let st := fst (@push_session_allow demo_host denying_rules [[]] 0%nat "/home/u/ws" "dist" Write) in
  let granted := @with_execution_grants denying_rules st resolved [env_target] in
  @evaluate denying_rules st resolved "/home/u/ws/dist/x" OpWrite = Allow
  /\ @evaluate denying_rules (fst granted) (snd granted) "/home/u/ws/dist/x" OpWrite = Deny.
Proof. vm_compute. split; reflexivity. Qed.

(** A home directory with a wildcard character in its name turns the guard on a
    directory into an exact pattern, and its contents lose the guard. *)
Lemma a_wildcard_home_unguards_its_secrets :
  let rs := resolve_impl "/w" (Some "/home/a*b") None 0%nat in
  evaluate demo_session rs "/home/a*b/.ssh" OpRead = Ask
  /\ evaluate demo_session rs "/home/a*b/.ssh/id_rsa" OpRead = Allow.
Proof. vm_compute. split; reflexivity. Qed.
End Rules.

(** * The mount plan *)
Section Plan.
(** * Checking [mountable] *)
(** The paths at and above a path. *)
Definition at_and_above (p : string) : list string :=
  List.map (fun n => path_of (take n (components p))) (seq 0 (S (List.length (components p)))).
Lemma above_listed p a : normal a -> path_within p a = true -> In a (at_and_above p).
Proof.
  intros Hn Hw. unfold at_and_above. apply in_map_iff. exists (List.length (components a)).
  split; [|apply List.in_seq; apply path_within_depth in Hw; lia].
  rewrite <- Hn. f_equal. apply path_within_prefix in Hw as [k Ek].
  assert (E : components p = components a ++ List.map component_of k).
  { by rewrite !components_of_iter, Ek, List.map_app. }
  rewrite E, Hn. rewrite take_app_le by done. by rewrite firstn_all.
Qed.

Definition exists_here (files : list (string * FileType)) (path : string) : Stat :=
  match List.find (fun f => fst f =?s path) files with
  | Some (_, ty) => StatIs ty
  | None => StatNotFound
  end.
Definition demo_digest : DigestLib := {|
  serde_json_to_vec := fun _ => inl ""; sha256_hex := fun _ => "digest"
|}.
Definition demo_scan (files : list (string * FileType)) (walk : string -> Walk) : ScanHost := {|
  walk_dir := walk; symlink_metadata := exists_here files; metadata := exists_here files;
  canonicalize_error := fun _ => ""; cancelled := fun _ => false; elapsed := fun _ => 0
|}.

Section Check.
Context `{SandboxHost} `{RuleLib} `{DigestLib}.
Variables (files : list (string * FileType)) (walk : string -> Walk).
#[local] Instance scan_here : ScanHost := demo_scan files walk.
(** The entries of a walk, and the names of an absolute path. *)
Fixpoint entries (w : Walk) : list (string * FileType) :=
  match w with
  | WalkError _ => []
  | WalkEntry path ty below =>
      (path, ty) :: match ty with
                    | Directory => (fix all ws := match ws with [] => [] | w :: r => entries w ++ all r end) below
                    | _ => []
                    end
  end.
Lemma entries_listed w path ty : In (path, ty) (entries w) -> listed w path ty.
Proof.
  revert path ty. induction w as [e|p t below IH] using Walk_tree_ind; intros path ty; cbn; [done|].
  intros [[= <- <-]|Hi]; [constructor|]. destruct t; [done| |done].
  assert (Hw : exists w, In w below /\ In (path, ty) (entries w)).
  { clear IH. induction below as [|w below IHb]; [done|]. apply in_app_iff in Hi as [Hi|Hi]; [exists w; cbn; auto|].
    destruct (IHb Hi) as (w' & Hw & Hin). exists w'. cbn. auto. }
  destruct Hw as (w & Hw & Hin). eapply listed_below; [exact Hw|by apply IH].
Qed.
Fixpoint treeb (path : string) (w : Walk) : bool :=
  match w with
  | WalkError _ => true
  | WalkEntry p _ below =>
      (p =?s path)
      && (fix all ws := match ws with
          | [] => true
          | w :: r =>
              let name := match w with WalkEntry q _ _ => List.last (path_iter q) "" | WalkError _ => "x" end in
              plain_name name && utf8 name && treeb (path_push path name) w && all r
          end) below
  end.
Lemma treeb_ok w : forall path, treeb path w = true -> tree path w.
Proof.
  induction w as [e|p ty below IH] using Walk_tree_ind; intros path; cbn; [done|].
  rewrite andb_true_iff, String.eqb_eq. intros [-> Hb]. split; [done|].
  induction below as [|w below IHb]; [done|]. apply andb_true_iff in Hb as [Hw Hb].
  apply andb_true_iff in Hw as [[Hn Hu]%andb_true_iff Hw]. split.
  - eexists. split; [exact Hn|]. split; [exact Hu|]. apply IH; [by left|exact Hw].
  - apply IHb; [|exact Hb]. intros w' Hw'. apply IH. by right.
Qed.
Definition names_of (p : string) : list string := drop 1 (path_iter p).
Definition absoluteb (p : string) : bool :=
  (p =?s abs_path (names_of p)) && forallb (fun n => plain_name n && utf8 n) (names_of p).
Lemma absoluteb_ok p : absoluteb p = true ->
  exists names, p = abs_path names /\ Forall (fun n => plain_name n = true) names
    /\ Forall (fun n => utf8 n = true) names.
Proof.
  unfold absoluteb. rewrite andb_true_iff, String.eqb_eq, List.forallb_forall. intros [E Hn].
  exists (names_of p). split; [done|]. rewrite !List.Forall_forall.
  split; intros n Hi; by apply Hn, andb_true_iff in Hi as [].
Qed.
Definition scannableb (pattern : string) : bool :=
  absoluteb pattern && negb (is_empty (pattern_names (names_of pattern))).
Lemma scannableb_ok pattern : scannableb pattern = true -> scannable pattern.
Proof.
  unfold scannableb. rewrite andb_true_iff. intros [Ha Hp]. destruct (absoluteb_ok _ Ha) as (names & E & Hn & Hu).
  exists names. split_and!; [done..|]. intros Ep. subst pattern. unfold names_of in Hp.
  rewrite path_iter_names in Hp by done. change (drop 1 ("/" :: names)) with names in Hp. by rewrite Ep in Hp.
Qed.
Definition check_rule (snap : RuleSetSnapshot) (p : string) (f : FlatRule) : bool :=
  (negb (is_allow (sn_decision (fl_rule f))) || bool_decide (rule_pattern f = None))
  && match sn_matcher (fl_rule f) with
     | SLiteral q => normalb q && (negb (path_within p q) || path_eq p q)
     | SSubtree lexical canonical => normalb lexical && normalb canonical
     | SGlob pattern =>
         scannableb pattern && negb (glob_matches pattern "/")
         && forallb (fun a => negb (path_within a (scan_root pattern))
                              || existsb (fun e => fst e =?s a) (entries (walk (scan_root pattern))))
              (at_and_above p)
     end.
Definition check_mountable (snap : RuleSetSnapshot) (p : string) : bool :=
  forallb (check_rule snap p) (flat snap)
  && forallb (fun w => normalb w && negb (effective_blocked (flat snap) w Write)) (roots snap)
  && absoluteb p
  && forallb (fun a => match mount_path_exists a with inl true => true | _ => false end)
       (List.filter (fun a => normalb a && is_absolute a) (at_and_above p)).
Lemma check_mountable_ok snap p : check_mountable snap p = true -> mountable snap p.
Proof.
  unfold check_mountable. rewrite !andb_true_iff, !List.forallb_forall.
  intros [[[Hr Hw] Hp] He]. unfold check_rule in Hr.
  assert (Hf : forall f, In f (flat snap) -> _) by (intros f Hf; exact (Hr f Hf)).
  split.
  - intros f Hin Ha. specialize (Hf f Hin). apply andb_true_iff in Hf as [Hf _].
    unfold allows in Ha. rewrite Ha in Hf. by apply bool_decide_eq_true in Hf.
  - intros f Hin. specialize (Hf f Hin). apply andb_true_iff in Hf as [_ Hf].
    destruct (sn_matcher (fl_rule f)) as [q|l c|pattern].
    + apply andb_true_iff in Hf as [Hf _]. by apply normalb_ok.
    + apply andb_true_iff in Hf as [Hl Hc]. by split; apply normalb_ok.
    + apply andb_true_iff in Hf as [[Hs Hg%negb_true_iff]%andb_true_iff _]. split; [by apply scannableb_ok|done].
  - intros w Hin. specialize (Hw w Hin). apply andb_true_iff in Hw as [Hw _]. by apply normalb_ok.
  - by apply absoluteb_ok.
  - intros f q Hin E Hpq. specialize (Hf f Hin). apply andb_true_iff in Hf as [_ Hf]. rewrite E in Hf.
    apply andb_true_iff in Hf as [_ Hf]. by rewrite Hpq in Hf.
  - intros a Hn Ha Hpa'. specialize (He a). rewrite List.filter_In, andb_true_iff, normalb_ok in He.
    specialize (He (conj (above_listed p a Hn Hpa') (conj Hn Ha))).
    by destruct (mount_path_exists a) as [[]|].
  - intros f pattern q Hin Hpat Hn Hpq Hroot. specialize (Hf f Hin). apply andb_true_iff in Hf as [_ Hf].
    apply pattern_of in Hpat. rewrite Hpat in Hf. apply andb_true_iff in Hf as [_ Hf].
    rewrite List.forallb_forall in Hf. specialize (Hf q (above_listed p q Hn Hpq)). rewrite Hroot in Hf.
    apply List.existsb_exists in Hf as ([q' ty] & Hi & Eq%String.eqb_eq). cbn in Eq. subst q'. exists ty. by apply entries_listed.
  - intros w Hin. specialize (Hw w Hin). apply andb_true_iff in Hw as [_ Hw]. by apply negb_true_iff.
Qed.
End Check.

(** * A machine *)
Definition machine_files : list (string * FileType) :=
  [("/", Directory); ("/home", Directory); ("/home/u", Directory); ("/home/u/.ssh", Directory);
   ("/home/u/ws", Directory); ("/home/u/ws/.env", RegularFile); ("/home/u/ws/k.pem", RegularFile);
   ("/home/u/ws/vendor", Directory); ("/home/u/ws/vendor/lib", RegularFile);
   ("/home/u/ws/vendor/ok", Directory); ("/home/u/ws/vendor/ok/x", RegularFile); ("/tmp", Directory);
   ("/srv", Directory); ("/srv/ok1", Directory); ("/srv/ok1/x", RegularFile)].
Definition machine_walk (root : string) : Walk :=
  if root =?s "/home/u/ws" then
    WalkEntry "/home/u/ws" Directory
      [WalkEntry "/home/u/ws/.env" RegularFile []; WalkEntry "/home/u/ws/k.pem" RegularFile [];
       WalkEntry "/home/u/ws/vendor" Directory
         [WalkEntry "/home/u/ws/vendor/lib" RegularFile [];
          WalkEntry "/home/u/ws/vendor/ok" Directory [WalkEntry "/home/u/ws/vendor/ok/x" RegularFile []]]]
  else if root =?s "/srv" then
    WalkEntry "/srv" Directory [WalkEntry "/srv/ok1" Directory [WalkEntry "/srv/ok1/x" RegularFile []]]
  else WalkError "no such directory".
#[local] Instance machine : ScanHost := demo_scan machine_files machine_walk.
#[local] Existing Instance demo_host.
#[local] Existing Instance demo_digest.
(** Its walks carry names, and its file system resolves to normal paths. *)
#[local] Instance machine_laws : WalkLaws.
Proof.
  split.
  - intros roots _. cbn. unfold machine_walk.
    destruct (String.eqb_spec (abs_path roots) "/home/u/ws") as [->|]; [by apply treeb_ok|].
    destruct (String.eqb_spec (abs_path roots) "/srv") as [->|]; [by apply treeb_ok|done].
  - cbn. intros p q. destruct (normalb p) eqn:E; [|done]. intros [= <-]. by apply normalb_ok.
Qed.

Definition user_rule (path access action : string) : json :=
  JObj [("path", JStr path); ("access", JStr access); ("action", JStr action)].
Definition rules_with (entries : list json) : RuleLib :=
  demo_rule_lib (fun _ => Some (JObj [("rules", JArr entries)]))
    (fun path => if path =?s "/home/u/.future/approval_rule.json" then Contents "" else NotFound).

(** The user protects [vendor] against writes; the session reopens [vendor/ok]. *)
Definition vendor_lib : RuleLib := rules_with [user_rule "/home/u/ws/vendor" "write" "deny"].
Definition vendor_rules : @RuleSet vendor_lib :=
  Eval vm_compute in @resolve_impl demo_host vendor_lib "/home/u/ws" (Some "/home/u")
    (Some "/home/u/.future/approval_rule.json") 0%nat.
Definition vendor_store : @SessionStore vendor_lib :=
  Eval vm_compute in fst (@push_session_allow demo_host vendor_lib [[]] 0%nat "/home/u/ws" "vendor/ok" Both).
Definition vendor_snapshot : RuleSetSnapshot :=
  Eval vm_compute in @snapshot vendor_lib vendor_store vendor_rules.
Definition empty_plan : LinuxSandboxPlan := mkPlan [] [] [] [] [] [] [] [] "".
Definition plan_of (lib : RuleLib) (snap : RuleSetSnapshot) : LinuxSandboxPlan :=
  match @compile_with_cancel demo_host lib machine demo_digest snap with inl p => p | inr _ => empty_plan end.
Definition vendor_plan : LinuxSandboxPlan := Eval vm_compute in plan_of vendor_lib vendor_snapshot.
Example vendor_plan_mounts :
  (pl_read_only_paths vendor_plan, pl_reopened_paths vendor_plan, pl_unreadable_paths vendor_plan)
  = (["/home/u/ws/vendor"], ["/home/u/ws/vendor/ok"], ["/home/u/.ssh"; "/home/u/ws/.env"; "/home/u/ws/k.pem"]).
Proof. reflexivity. Qed.
Ltac rules_compiled := intros r Hr; cbn in Hr; repeat (destruct Hr as [<-|Hr]; [vm_compute; auto|]); destruct Hr.
Lemma vendor_compiled r : In r (List.concat (@profile_layers vendor_lib vendor_store vendor_rules)) ->
  @compiled_rule vendor_lib r.
Proof. revert r. rules_compiled. Defined.
Lemma shell_stays_within_the_rules_witness :
  visible (plan_mounts vendor_plan) "/home/u/ws/vendor/ok/x" = Some Writable
  /\ visible (plan_mounts vendor_plan) "/home/u/ws/vendor/lib" = Some ReadOnly
  /\ @evaluate vendor_lib vendor_store vendor_rules "/home/u/ws/vendor/ok/x" OpWrite = Allow.
Proof.
  assert (Hv : visible (plan_mounts vendor_plan) "/home/u/ws/vendor/ok/x" = Some Writable) by (vm_compute; reflexivity).
  split; [exact Hv|]. split; [vm_compute; reflexivity|].
  refine (proj1 (@shell_stays_within_the_rules demo_host vendor_lib _ machine machine_laws demo_digest vendor_store
    vendor_rules vendor_plan "/home/u/ws/vendor/ok/x" vendor_compiled _ _) Hv).
  - vm_compute. reflexivity.
  - refine (check_mountable_ok machine_files machine_walk _ _ _). vm_compute. reflexivity.
Defined.
(** Two patterns share the walk of the workspace. *)
Definition scanned : list string := ["/home/u/ws/.env.*"; "/home/u/ws/**/*.pem"].
Definition scan_result : Matches :=
  Eval vm_compute in match @scan demo_host vendor_lib machine scanned "pre_launch" with inl found => found | inr _ => ∅ end.
Lemma scan_finds_what_is_there_witness :
  matches_on_disk "/home/u/ws/**/*.pem" "/home/u/ws/k.pem"
  /\ ~ matches_on_disk "/home/u/ws/**/*.pem" "/home/u/ws/.env".
Proof.
  destruct (@scan_finds_what_is_there demo_host vendor_lib _ machine machine_laws scanned "pre_launch" scan_result
              "/home/u/ws/**/*.pem") as (paths & E & Hp).
  - intros t [<-|[<-|[]]]; apply scannableb_ok; vm_compute; reflexivity.
  - vm_compute. reflexivity.
  - right. left. reflexivity.
  - vm_compute in E. injection E as <-. split.
    + apply Hp. left. reflexivity.
    + intros Hx. apply Hp in Hx as [Hx|[]]. discriminate Hx.
Defined.
Lemma a_bad_entry_stops_the_shell_witness :
  exists error, @compile_with_read_protection demo_host demo_rules machine demo_digest
    (snapshot [[]] (@resolve_impl demo_host demo_rules "/home/u/ws" (Some "/home/u")
       (Some "/home/u/.future/approval_rule.json") 0%nat)) true = inr (RuleLayerUnavailable error).
Proof.
  refine (@a_bad_entry_stops_the_shell demo_host demo_rules machine demo_digest [[]] "/home/u/ws" (Some "/home/u")
    "/home/u/.future/approval_rule.json" 0%nat "user rules" _ (mkRawRule (Some "/srv") None (Some "denied")) true
    eq_refl eq_refl _ _).
  - right. left. reflexivity.
  - intros pattern access decision (_ & _ & _ & _ & _ & E). discriminate E.
Defined.

(** * Plans that differ from the rules *)
(** What a plan gives and the rules say, on one machine. *)
Definition verdicts (lib : RuleLib) (p : string) : option MountKind * Decision :=
  let rs := @resolve_impl demo_host lib "/home/u/ws" (Some "/home/u")
              (Some "/home/u/.future/approval_rule.json") 0%nat in
  (visible (plan_mounts (plan_of lib (@snapshot lib [[]] rs))) p, @evaluate lib [[]] rs p OpWrite).
(** A rule that covers the workspace from above loses to the workspace's own
    mount: the rules deny the write, the sandbox lets it through. *)
Lemma a_denial_above_the_workspace_is_lost :
  verdicts (rules_with [user_rule "/home" "write" "deny"]) "/home/u/ws/vendor/lib" = (Some Writable, Deny).
Proof. vm_compute. reflexivity. Qed.
(** An allow of the names directly under a directory opens the whole of each:
    the rules would ask, the sandbox lets the write through. *)
Lemma a_glob_allow_opens_subtrees :
  verdicts (rules_with [user_rule "/srv/*" "write" "allow"]) "/srv/ok1/x" = (Some Writable, Ask).
Proof. vm_compute. reflexivity. Qed.
(** The other way round: a read-only allow over a broader prompt mounts its path
    read-only although an earlier rule allows to write it. *)
Lemma a_read_allow_withholds_writes :
  verdicts (rules_with [user_rule "/home/u/ws" "write" "allow"; user_rule "/home/u/ws/vendor" "read" "allow";
                        user_rule "/home/u/ws/vendor" "both" "ask"]) "/home/u/ws/vendor/lib"
  = (Some ReadOnly, Allow).
Proof. vm_compute. reflexivity. Qed.
End Plan.

(** * A permission for one command *)
Section Permission.
Definition probe : LinuxSandboxProbe := {|
  pb_available := true; pb_code := Available; pb_path := Some "/usr/bin/bwrap"; pb_version := None;
  pb_identity := Some (mkIdentity 1 2 3 4);
  pb_capabilities := Some (mkCapabilities true true true true true true true true true false false);
  pb_expires_at_unix_ms := None; pb_diagnostic := None
|}.
Definition demo_shell : ShellHost := {|
  unix_shell := "bash"; current_exe := inl "/opt/future"; VERSION := "1";
  request_json_len := fun _ => inl 1000;
  inode_of := fun path => match exists_here machine_files path with
                          | StatIs RegularFile => inl (mkInode true false 1 2)
                          | StatIs _ => inl (mkInode false true 1 2)
                          | _ => inr "not found"
                          end;
  platform_backend_receipt := LinuxBubblewrap probe
|}.
#[local] Existing Instance demo_host.
#[local] Existing Instance machine.
#[local] Existing Instance demo_digest.
#[local] Existing Instance demo_shell.
Definition plain_lib : RuleLib := rules_with [].
#[local] Existing Instance plain_lib.

Definition plain_set : RuleSet :=
  resolved "/home/u/ws" (Some "/home/u") (Some "/home/u/.future/approval_rule.json") 0%nat.
Definition plain_sandbox : ResolvedSandbox := mkSandbox Sandbox (LinuxBubblewrap probe) "/home/u/ws" plain_set.
Definition env_request : AdditionalPermissions :=
  mkPermissions [mkPermission ".env" File "the test reads its settings"] [].
(** The targets of a successful preparation. *)
Definition targets_of (outcome : SessionStore * (PreparedPermissions + string)) : option (list FileTarget) :=
  match snd outcome with inl prepared => Some (pm_targets prepared) | inr _ => None end.
Lemma env_targets : targets_of (permissions_prepare [[]] plain_sandbox "cat .env" env_request) = Some [env_target].
Proof. vm_compute. reflexivity. Qed.
Lemma prepared_grants_are_exact_witness :
  exists st' prepared, permissions_prepare [[]] plain_sandbox "cat .env" env_request = (st', inl prepared)
    /\ evaluate [[]] plain_set "/home/u/ws/.env" OpRead = Ask
    /\ evaluate st' (sb_rules (pm_sandbox prepared)) "/home/u/ws/.env" OpRead = Allow.
Proof.
  pose proof env_targets as T.
  destruct (permissions_prepare [[]] plain_sandbox "cat .env" env_request) as [st' [prepared|e]] eqn:E; [|discriminate T].
  injection T as T. exists st', prepared. split; [reflexivity|]. split; [vm_compute; reflexivity|].
  assert (Hl : lives "/home/u/ws" (Some "/home/u") (Some "/home/u/.future/approval_rule.json") 0%nat [[]] plain_set)
    by (apply lives_resolve; cbn; lia).
  assert (Hx : rs_execution plain_set = []) by (vm_compute; reflexivity).
  destruct (prepared_grants_are_exact _ _ _ _ [[]] plain_sandbox "cat .env" env_request _ _
              "/home/u/ws/.env" OpRead Hl Hx E) as (_ & _ & V).
  rewrite V, T. vm_compute. reflexivity.
Defined.
End Permission.
