(* ===== verification/SessionEntry.v ===== *)
(** The journal lines of a session and the messages of the model
    (session/entry.rs, types/mod.rs): content blocks with the JSON they are
    written as and read from, agent messages, session entries and their
    constructors.  Fresh ids and the current instant are arguments. *)
From S2P Require Import Prelude Json.

(** * Tool calls *)
Record ToolCallFn := mkFn { fn_name : string; fn_arguments : Value }.
Record ToolCall := mkCall { tc_id : string; tc_call_type : string; tc_function : ToolCallFn }.
Record AgentToolCall := mkAgentCall {
  atc_id : string;
  atc_name : string;
  atc_args : Value;
  atc_provider_metadata : Map
}.

(** * Content blocks *)
Record ImageUrlData := mkImage { iu_url : option string }.
Inductive ContentBlock :=
| Text (text : string)
| Image (image_url : ImageUrlData)
| Reasoning (text : string) (provider_metadata : Map)
| ToolCallBlock (id name : string) (args : Value) (provider_metadata : Map)
| ToolResult (tool_call_id content : string) (is_error : bool).

(** [Serialize for ImageUrlData] and [Deserialize for ImageUrlData]: an object
    with an optional address (a one-element sequence reads as that struct), or
    the address itself. *)
Definition image_to_value (i : ImageUrlData) : Value :=
  match iu_url i with
  | Some url => VObject [("url", VString url)]
  | None => VObject []
  end.
Definition option_string_from (v : Value) : option (option string) :=
  match v with
  | VNull => Some None
  | VString s => Some (Some s)
  | _ => None
  end.
Definition image_from_value (v : Value) : option ImageUrlData :=
  match v with
  | VObject o =>
      match map_get "url" o with
      | None => Some (mkImage None)
      | Some u => option_map mkImage (option_string_from u)
      end
  | VArray [u] => option_map mkImage (option_string_from u)
  | VString s => Some (mkImage (Some s))
  | _ => None
  end.

(** [Serialize for ContentBlock] *)
Definition metadata_field (m : Map) : Map :=
  match m with [] => [] | _ => [("provider_metadata", VObject m)] end.
Definition block_to_value (b : ContentBlock) : Value :=
  match b with
  | Text text => VObject [("type", VString "text"); ("text", VString text)]
  | Image image_url => VObject [("type", VString "image_url"); ("image_url", image_to_value image_url)]
  | Reasoning text provider_metadata =>
      VObject ([("type", VString "reasoning"); ("text", VString text)] ++ metadata_field provider_metadata)
  | ToolCallBlock id name args provider_metadata =>
      VObject ([("type", VString "tool_call"); ("id", VString id); ("name", VString name); ("args", args)]
               ++ metadata_field provider_metadata)
  | ToolResult tool_call_id content is_error =>
      VObject ([("type", VString "tool_result"); ("tool_call_id", VString tool_call_id);
                ("content", VString content)]
               ++ if is_error then [("is_error", VBool is_error)] else [])
  end.

(** [ContentBlockVisitor::visit_map]: an entry of a known key must have the
    key's type; the type of the block is decided when all are read. *)
Definition field {A} (read : Value -> option A) (key : string) (o : Map) : option (option A) :=
  match map_get key o with
  | None => Some None
  | Some v => option_map Some (read v)
  end.
Definition block_from_value (v : Value) : option ContentBlock :=
  o ← as_object v;
  typ ← field as_str "type" o;
  text ← field as_str "text" o;
  image_url ← field image_from_value "image_url" o;
  tool_call_id ← field as_str "tool_call_id" o;
  content ← field as_str "content" o;
  is_error ← field as_bool "is_error" o;
  id ← field as_str "id" o;
  name ← field as_str "name" o;
  provider_metadata ← field as_object "provider_metadata" o;
  let typ := default "" typ in
  Some (if typ =?s "text" then Text (default "" text)
        else if typ =?s "image_url" then Image (default (mkImage None) image_url)
        else if typ =?s "reasoning" then Reasoning (default "" text) (default [] provider_metadata)
        else if typ =?s "tool_call" then
          ToolCallBlock (default "" id) (default "" name) (default VNull (map_get "args" o))
            (default [] provider_metadata)
        else if typ =?s "tool_result" then
          ToolResult (default "" tool_call_id) (default "" content) (default false is_error)
        else Text (default "" text)).
(** [serde_json::from_value::<Vec<ContentBlock>>] *)
Definition blocks_from_value (v : Value) : option (list ContentBlock) :=
  as_array v ≫= mapM block_from_value.

Definition is_text_block (b : ContentBlock) : bool := match b with Text _ => true | _ => false end.
Definition is_reasoning_block (b : ContentBlock) : bool :=
  match b with Reasoning _ _ => true | _ => false end.
Definition is_tool_call_block (b : ContentBlock) : bool :=
  match b with ToolCallBlock _ _ _ _ => true | _ => false end.
Definition is_tool_result_block (b : ContentBlock) : bool :=
  match b with ToolResult _ _ _ => true | _ => false end.
Definition block_text (b : ContentBlock) : option string :=
  match b with Text text => Some text | _ => None end.
Definition block_reasoning (b : ContentBlock) : option string :=
  match b with Reasoning text _ => Some text | _ => None end.
Definition block_call (b : ContentBlock) : option AgentToolCall :=
  match b with
  | ToolCallBlock id name args provider_metadata => Some (mkAgentCall id name args provider_metadata)
  | _ => None
  end.
Definition block_result_id (b : ContentBlock) : option string :=
  match b with ToolResult tool_call_id _ _ => Some tool_call_id | _ => None end.

(** * Messages *)
Record AgentMessage := mkMessage {
  am_role : string;
  am_content : list ContentBlock;
  am_name : string;
  am_tool_args : string;
  am_metadata : option Map
}.
#[export] Instance eta_AgentMessage : Eta AgentMessage := fun m =>
  mkMessage (am_role m) (am_content m) (am_name m) (am_tool_args m) (am_metadata m).
Definition JOURNAL_ENTRY_ID_KEY : string := "_future_journal_entry_id".
Definition STREAM_BLOCKS_KEY : string := "_future_stream_blocks".
Definition STREAM_EPOCH_KEY : string := "_future_stream_epoch".

Definition model_content (m : AgentMessage) : list ContentBlock := am_content m.
Definition reasoning_text (m : AgentMessage) : string :=
  String.concat "" (omap block_reasoning (am_content m)).
Definition tool_calls (m : AgentMessage) : list AgentToolCall := omap block_call (am_content m).
Definition tool_call_id (m : AgentMessage) : string := default "" (head (omap block_result_id (am_content m))).
Definition has_tool_calls (m : AgentMessage) : bool := List.existsb is_tool_call_block (am_content m).
Definition metadata_get (key : string) (m : AgentMessage) : option Value := am_metadata m ≫= map_get key.
Definition journal_entry_id (m : AgentMessage) : option string :=
  id ← (metadata_get JOURNAL_ENTRY_ID_KEY m ≫= as_str);
  if id =?s "" then None else Some id.
(** [metadata.get_or_insert_with(Map::new).insert(key, value)] *)
Definition metadata_insert (key : string) (value : Value) (metadata : option Map) : option Map :=
  Some (map_insert key value (default [] metadata)).

(** * Entries *)
Definition ENTRY_TYPE_USER := "user".
Definition ENTRY_TYPE_ASSISTANT := "assistant".
Definition ENTRY_TYPE_TOOL := "tool".
Definition ENTRY_TYPE_SYSTEM := "system".
Definition ENTRY_TYPE_COMPACTION := "compaction".
Definition ENTRY_TYPE_SESSION_INFO := "session_info".
Definition ENTRY_TYPE_RUN_STARTED := "run_started".
Definition ENTRY_TYPE_RUN_TERMINAL := "run_terminal".
Definition ENTRY_TYPE_RUN_STOP_REQUESTED := "run_stop_requested".

Record SessionEntry := mkEntry {
  se_id : string;
  se_entry_type : string;
  se_role : string;
  se_content : option Value;
  se_tool_calls : list ToolCall;
  se_timestamp : Z;
  se_tool_call_id : string;
  se_name : string;
  se_tool_args : string;
  se_thinking : string;
  se_meta : option Value
}.
#[export] Instance eta_SessionEntry : Eta SessionEntry := fun e =>
  mkEntry (se_id e) (se_entry_type e) (se_role e) (se_content e) (se_tool_calls e) (se_timestamp e)
    (se_tool_call_id e) (se_name e) (se_tool_args e) (se_thinking e) (se_meta e).
Definition has_type (entry_type : string) (e : SessionEntry) : bool := se_entry_type e =?s entry_type.

Section Constructors.
Variables (generated : string) (now : Z).
Definition blank_entry (entry_type role : string) (content : option Value) : SessionEntry :=
  mkEntry generated entry_type role content [] now "" "" "" "" None.
Definition new_user (role : string) (content : Value) : SessionEntry :=
  blank_entry ENTRY_TYPE_USER role (Some content).
Definition new_assistant (content : Value) (calls : list ToolCall) : SessionEntry :=
  (blank_entry ENTRY_TYPE_ASSISTANT "assistant" (Some content)) <| se_tool_calls := calls |>.
Definition new_tool (call_id content : string) : SessionEntry :=
  (blank_entry ENTRY_TYPE_TOOL "tool" (Some (VString content))) <| se_tool_call_id := call_id |>.
Definition session_info (content : Value) : SessionEntry :=
  blank_entry ENTRY_TYPE_SESSION_INFO ENTRY_TYPE_SYSTEM (Some content).
Definition run_started_with_sequence (run_id : string) (epoch : u64) (run_sequence : option u64) : SessionEntry :=
  blank_entry ENTRY_TYPE_RUN_STARTED ENTRY_TYPE_SYSTEM
    (Some (VObject ([("run_id", VString run_id); ("epoch", json_u64 epoch)]
                    ++ match run_sequence with
                       | Some sequence => [("run_sequence", json_u64 sequence)]
                       | None => []
                       end))).
Definition run_started (run_id : string) (epoch : u64) : SessionEntry :=
  run_started_with_sequence run_id epoch None.

(** [StreamTruncation]: how far a run had come when its stream broke off. *)
Record StreamTruncation := mkTruncation {
  st_turns_so_far : Z;
  st_output_len : Z;
  st_tool_calls_so_far : Z;
  st_detected_by : string
}.
Definition truncation_to_value (t : StreamTruncation) : Value :=
  VObject [("turns_so_far", json_i64 (st_turns_so_far t)); ("output_len", json_i64 (st_output_len t));
           ("tool_calls_so_far", json_i64 (st_tool_calls_so_far t));
           ("detected_by", VString (st_detected_by t))].
Definition run_terminal_with_truncation (run_id state : string) (run_tokens run_duration_ms : Z)
    (error : option string) (truncation : option StreamTruncation) : SessionEntry :=
  blank_entry ENTRY_TYPE_RUN_TERMINAL ENTRY_TYPE_SYSTEM
    (Some (VObject ([("run_id", VString run_id); ("state", VString state);
                     ("run_tokens", json_i64 run_tokens); ("run_duration_ms", json_i64 run_duration_ms)]
                    ++ match error with Some error => [("error", VString error)] | None => [] end
                    ++ match truncation with
                       | Some t => [("truncation", truncation_to_value t)]
                       | None => []
                       end))).
Definition run_terminal (run_id state : string) (run_tokens run_duration_ms : Z) (error : option string)
    : SessionEntry :=
  run_terminal_with_truncation run_id state run_tokens run_duration_ms error None.
Definition run_stop_requested (run_id : string) : SessionEntry :=
  (run_terminal run_id "cancelled" 0 0 None)
    <| se_entry_type := ENTRY_TYPE_RUN_STOP_REQUESTED |>
    <| se_content := Some (VObject [("run_id", VString run_id)]) |>
    <| se_meta := Some (VObject [("run_id", VString run_id)]) |>.
End Constructors.
