(* ===== verification/RunJournal.v ===== *)
(** Run markers in a session's journal (session/run_journal.rs) and the
    transactions that write them (session/manager/mod.rs,
    session/sqlite_store/transcript.rs).  A journal is the list of its entries
    in the order of their positions. *)
From S2P Require Import Prelude Json SessionEntry.

Definition RUN_STATE_COMPLETED := "completed".
Definition RUN_STATE_ERROR := "error".
Definition RUN_STATE_CANCELLED := "cancelled".
Definition RUN_STATE_INCOMPLETE := "incomplete".
Definition RUN_STATE_INTERRUPTED_BY_RESTART := "interrupted_by_restart".

Definition is_run_marker (entry_type : string) : bool :=
  (entry_type =?s ENTRY_TYPE_RUN_STARTED) || (entry_type =?s ENTRY_TYPE_RUN_TERMINAL)
  || (entry_type =?s ENTRY_TYPE_RUN_STOP_REQUESTED).

(** [entry.content.as_ref().and_then(|c| c.get("run_id")).and_then(|v| v.as_str())] *)
Definition marker_run (e : SessionEntry) : option string := (se_content e ≫= get "run_id") ≫= as_str.

(** * Reading the markers *)
Definition track_run (open : option string) (e : SessionEntry) : option string :=
  if has_type ENTRY_TYPE_RUN_STARTED e then
    match marker_run e with Some run_id => Some run_id | None => open end
  else if has_type ENTRY_TYPE_RUN_TERMINAL e then
    match marker_run e with
    | Some run_id => if bool_decide (open = Some run_id) then None else open
    | None => open
    end
  else open.
Definition find_unterminated_run (entries : list SessionEntry) : option string :=
  List.fold_left track_run entries None.

Definition terminal_of (run_id : string) (e : SessionEntry) : bool :=
  has_type ENTRY_TYPE_RUN_TERMINAL e && bool_decide (marker_run e = Some run_id).
Definition find_run_terminal (entries : list SessionEntry) (run_id : string) : option Value :=
  List.find (terminal_of run_id) (rev entries) ≫= se_content.

(** [v["run_id"] == run] on the content of a stop marker *)
Definition stop_of (run_id : string) (e : SessionEntry) : bool :=
  has_type ENTRY_TYPE_RUN_STOP_REQUESTED e
  && match se_content e with Some v => is_str run_id (index "run_id" v) | None => false end.
Definition latest_start (entries : list SessionEntry) : option SessionEntry :=
  List.find (has_type ENTRY_TYPE_RUN_STARTED) (rev entries).
Definition resumable_terminal (terminal : Value) : bool :=
  is_str RUN_STATE_INTERRUPTED_BY_RESTART (index "state" terminal)
  && match as_str (index "interruption_cause" terminal) with
     | Some cause => (cause =?s "system_shutdown") || (cause =?s "outcome_unknown")
     | None => false
     end.
Definition find_resumable_run (entries : list SessionEntry) : option string :=
  latest ← latest_start entries;
  run ← marker_run latest;
  if List.existsb (stop_of run) entries then None
  else match find_run_terminal entries run with
       | None => Some run
       | Some terminal => if resumable_terminal terminal then Some run else None
       end.

Definition sequence_step (acc : u64 * u64) (e : SessionEntry) : u64 * u64 :=
  let '(started_count, max_sequence) := acc in
  if is_run_marker (se_entry_type e) then
    (if has_type ENTRY_TYPE_RUN_STARTED e then u64_sat_add started_count 1 else started_count,
     match (se_content e ≫= get "run_sequence") ≫= as_u64 with
     | Some sequence => Z.max max_sequence sequence
     | None => max_sequence
     end)
  else acc.
Definition next_run_sequence (entries : list SessionEntry) : u64 :=
  let '(started_count, max_sequence) := List.fold_left sequence_step entries (0, 0) in
  Z.max (u64_sat_add (Z.max max_sequence started_count) 1) 1.

(** * The rows a format-2 session reads *)

(** [read_run_marker_headers]: the markers of the run of the latest start, the
    last of each type, in journal order.  The [run_id] column of a marker is
    the [run_id] of its content; a start without one selects nothing. *)
Definition last_of_type (entry_type run_id : string) (entries : list SessionEntry) : option nat :=
  fst <$> last (List.filter (fun x => has_type entry_type (snd x)
                                       && bool_decide (marker_run (snd x) = Some run_id))
                 (imap pair entries)).
Definition read_run_marker_headers (entries : list SessionEntry) : list SessionEntry :=
  match latest_start entries ≫= marker_run with
  | None => []
  | Some run_id =>
      let positions := omap (fun entry_type => last_of_type entry_type run_id entries)
        [ENTRY_TYPE_RUN_STARTED; ENTRY_TYPE_RUN_TERMINAL; ENTRY_TYPE_RUN_STOP_REQUESTED] in
      List.map snd (List.filter (fun x => bool_decide (fst x ∈ positions)) (imap pair entries))
  end.
(** A session written before format 2 reads all its markers. *)
Definition read_all_markers (entries : list SessionEntry) : list SessionEntry :=
  List.filter (fun e => is_run_marker (se_entry_type e)) entries.
Inductive StorageFormat := Legacy | Canonical.
Definition read_markers (format : StorageFormat) (entries : list SessionEntry) : list SessionEntry :=
  match format with
  | Legacy => read_all_markers entries
  | Canonical => read_run_marker_headers entries
  end.
Definition unterminated_run_id (format : StorageFormat) (entries : list SessionEntry) : option string :=
  find_unterminated_run (read_markers format entries).
Definition resumable_run_id (format : StorageFormat) (entries : list SessionEntry) : option string :=
  find_resumable_run (read_markers format entries).

(** * Writing the markers

    The ids and instants of the entries written are arguments. *)
Definition append_run_start (format : StorageFormat) (stamp : string * Z) (user started : SessionEntry)
    (entries : list SessionEntry) : list SessionEntry :=
  let closing :=
    match unterminated_run_id format entries with
    | Some run => [run_terminal (fst stamp) (snd stamp) run RUN_STATE_INTERRUPTED_BY_RESTART 0 0 None]
    | None => []
    end in
  entries ++ closing ++ [user; started].

(** Returns the content of the terminal that stands. *)
Definition settle_run_if_unfinished (stamp : string * Z) (run_id state reason : string)
    (entries : list SessionEntry) : Value * list SessionEntry :=
  match List.find (terminal_of run_id) (rev entries) with
  | Some previous => (default VNull (se_content previous), entries)
  | None =>
      let terminal := run_terminal (fst stamp) (snd stamp) run_id state 0 0 (Some reason) in
      (default VNull (se_content terminal), entries ++ [terminal])
  end.

(** [value[key] = v] on an object *)
Definition set_field_of (key : string) (v content : Value) : Value :=
  match content with VObject o => VObject (map_insert key v o) | other => other end.
(** One session of [reconcile_user_stops_on_start] (sessions before format 2). *)
Definition reconcile_user_stop (stamp : string * Z) (entries : list SessionEntry) : list SessionEntry :=
  let markers := read_all_markers entries in
  match latest_start markers ≫= marker_run with
  | None => entries
  | Some run =>
      if List.existsb (stop_of run) markers then
        let previous := find_run_terminal markers run in
        if match previous with
           | Some v => negb (is_str RUN_STATE_INTERRUPTED_BY_RESTART (index "state" v))
           | None => false
           end
        then entries
        else
          let terminal := run_terminal (fst stamp) (snd stamp) run RUN_STATE_CANCELLED 0 0 None in
          let content := match previous with Some v => Some v | None => se_content terminal end in
          let content := option_map (fun c =>
            set_field_of "interruption_cause" (VString "user_stop")
              (set_field_of "error" (VString "Stopped by user before recovery")
                 (set_field_of "state" (VString RUN_STATE_CANCELLED) c))) content in
          entries ++ [terminal <| se_content := content |>]
      else entries
  end.
