(* ===== verification/RunJournalProps.v ===== *)
(** Run markers: the bounded read of a format-2 session decides as the whole
    journal does; at most one run is open in any journal the manager writes;
    run sequences are not used twice. *)
From S2P Require Import Prelude Json SessionEntry RunJournal.

Abbreviation is_start := (has_type ENTRY_TYPE_RUN_STARTED).
Abbreviation is_terminal_marker := (has_type ENTRY_TYPE_RUN_TERMINAL).
Definition starts_run (run_id : string) (e : SessionEntry) : bool :=
  is_start e && bool_decide (marker_run e = Some run_id).

Lemma has_type_is t e : has_type t e = true <-> se_entry_type e = t.
Proof. apply String.eqb_eq. Qed.
Lemma terminal_no_start e : is_terminal_marker e = true -> is_start e = false.
Proof. rewrite has_type_is. unfold has_type. by intros ->. Qed.
Lemma terminal_of_no_start run e : terminal_of run e = true -> is_start e = false.
Proof. unfold terminal_of. intros [H _]%andb_true_iff. by apply terminal_no_start. Qed.
Lemma start_no_terminal e : is_start e = true -> is_terminal_marker e = false.
Proof. rewrite has_type_is. unfold has_type. by intros ->. Qed.
Lemma stop_of_spec run e :
  stop_of run e = has_type ENTRY_TYPE_RUN_STOP_REQUESTED e && bool_decide (marker_run e = Some run).
Proof.
  unfold stop_of, marker_run, is_str, index. f_equal. destruct (se_content e) as [v|]; cbn; [|by rewrite bool_decide_false].
  by destruct (get "run_id" v).
Qed.

(** * Splitting a journal at its last start *)
Lemma find_rev_split {A} (p : A -> bool) l : match List.find p (rev l) with
  | Some x => exists a b, l = a ++ x :: b /\ p x = true /\ existsb p b = false
  | None => existsb p l = false
  end.
Proof.
  induction l as [|x l IH] using rev_ind; [done|]. rewrite rev_unit. cbn. destruct (p x) eqn:P.
  - by exists l, [].
  - destruct (List.find p (rev l)) as [y|].
    + destruct IH as (a & b & -> & Hy & Hb). exists a, (b ++ [x]). rewrite <- List.app_assoc.
      rewrite existsb_app, Hb. cbn. by rewrite P.
    + rewrite existsb_app, IH. cbn. by rewrite P.
Qed.
Lemma latest_start_split l : match latest_start l with
  | Some s => exists a b, l = a ++ s :: b /\ is_start s = true /\ existsb is_start b = false
  | None => existsb is_start l = false
  end.
Proof. apply find_rev_split. Qed.

(** Behind the last start only terminals of the open run matter. *)
Lemma track_no_start l : forall open, existsb is_start l = false ->
  List.fold_left track_run l open
  = match open with Some run => if existsb (terminal_of run) l then None else Some run | None => None end.
Proof.
  induction l as [|e l IH]; intros open H; cbn in *; [by destruct open|].
  apply orb_false_iff in H as [He H]. rewrite IH by done. unfold track_run. rewrite He.
  destruct open as [run|].
  - unfold terminal_of at 2. destruct (is_terminal_marker e); cbn; [|done].
    destruct (marker_run e) as [run'|] eqn:M; cbn.
    + case_bool_decide as D; case_bool_decide as D'; cbn; congruence.
    + by rewrite bool_decide_false.
  - destruct (is_terminal_marker e); [|done]. by destruct (marker_run e).
Qed.
Lemma unterminated_at a s b run : is_start s = true -> marker_run s = Some run -> existsb is_start b = false ->
  find_unterminated_run (a ++ s :: b) = if existsb (terminal_of run) b then None else Some run.
Proof.
  intros Hs Hr Hb. unfold find_unterminated_run. rewrite List.fold_left_app. cbn. rewrite track_no_start by done.
  unfold track_run. by rewrite Hs, Hr.
Qed.
Lemma unterminated_none l : existsb is_start l = false -> find_unterminated_run l = None.
Proof. intros H. unfold find_unterminated_run. by rewrite track_no_start. Qed.

(** * The bounded read *)

(** The last element that satisfies [p], with what surrounds it. *)
Lemma last_filter_find {A} (p : A -> bool) l : last (List.filter p l) = List.find p (rev l).
Proof.
  induction l as [|x l IH] using rev_ind; [done|]. rewrite rev_unit, List.filter_app. cbn.
  destruct (p x); [by rewrite last_snoc|]. by rewrite List.app_nil_r.
Qed.
Definition marker_of (entry_type run_id : string) (e : SessionEntry) : bool :=
  has_type entry_type e && bool_decide (marker_run e = Some run_id).
Lemma last_of_type_spec entry_type run l i : last_of_type entry_type run l = Some i ->
  exists e, l !! i = Some e /\ marker_of entry_type run e = true
    /\ last (List.filter (fun x => marker_of entry_type run (snd x)) (imap pair l)) = Some (i, e).
Proof.
  unfold last_of_type. fold (marker_of entry_type run).
  destruct (last _) as [[j e]|] eqn:E; cbn; intros [= ->]. exists e.
  assert (H : In (i, e) (List.filter (fun x => marker_of entry_type run (snd x)) (imap pair l))).
  { apply last_Some in E as [l' E]. unfold marker_of. rewrite E. apply in_app_iff. right. by left. }
  apply filter_In in H as [H Hm]. apply in_imap_pair in H. done.
Qed.
Lemma map_last {A B} (f : A -> B) l : last (List.map f l) = option_map f (last l).
Proof. exact (fmap_last f l). Qed.
Section Selected.
Variables (entries : list SessionEntry) (run : string).
Let types := [ENTRY_TYPE_RUN_STARTED; ENTRY_TYPE_RUN_TERMINAL; ENTRY_TYPE_RUN_STOP_REQUESTED].
Let positions := omap (fun entry_type => last_of_type entry_type run entries) types.
Definition select_rows : list SessionEntry :=
  List.map snd (List.filter (fun x => bool_decide (fst x ∈ positions)) (imap pair entries)).

Lemma in_positions i : i ∈ positions <-> exists t, In t types /\ last_of_type t run entries = Some i.
Proof.
  unfold positions. rewrite list_elem_of_omap. split; intros (t & H & ?); exists t; (split; [|done]);
    by apply list_elem_of_In.
Qed.
(** For each marker type the rows end in the marker the journal ends in. *)
Lemma select_last entry_type : In entry_type types ->
  List.find (marker_of entry_type run) (rev select_rows) = List.find (marker_of entry_type run) (rev entries).
Proof.
  intros Ht. rewrite <- !last_filter_find. unfold select_rows.
  assert (Hsnd : forall z : list (nat * SessionEntry), List.filter (marker_of entry_type run) (List.map snd z)
            = List.map snd (List.filter (fun x => marker_of entry_type run (snd x)) z)).
  { induction z as [|[i e] z IH]; cbn; [done|]. destruct (marker_of entry_type run e); cbn; by rewrite IH. }
  assert (Hid : entries = List.map snd (imap pair entries)).
  { change (entries = snd <$> imap pair entries). rewrite fmap_imap, (imap_ext _ (const id)) by done.
    by rewrite imap_const, list_fmap_id. }
  set (q := fun x : nat * SessionEntry => marker_of entry_type run (snd x)) in *.
  rewrite Hsnd. transitivity (last (List.map snd (List.filter q (imap pair entries))));
    [|rewrite <- Hsnd; by rewrite <- Hid]. rewrite !map_last. f_equal.
  destruct (last (List.filter q (imap pair entries))) as [[i e]|] eqn:E.
  - assert (Hi : last_of_type entry_type run entries = Some i).
    { change (fst <$> last (List.filter q (imap pair entries)) = Some i). by rewrite E. }
    set (rows := List.filter q (List.filter _ (imap pair entries))).
    assert (Hin : In (i, e) rows).
    { destruct (last_of_type_spec _ _ _ _ Hi) as (e' & He & Hm & E'). fold q in E'. rewrite E in E'.
      injection E' as <-. apply filter_In. split; [|exact Hm]. apply filter_In. split; [by apply in_imap_pair|].
      apply bool_decide_eq_true, in_positions. eauto. }
    assert (Hall : forall x, In x rows -> x = (i, e)).
    { intros [j y] Hx. apply filter_In in Hx as [Hx Hq]. apply filter_In in Hx as [Hx Hp].
      apply bool_decide_eq_true, in_positions in Hp as (t & _ & Hj). cbn in Hj.
      destruct (last_of_type_spec _ _ _ _ Hj) as (y' & Hy & Hm & E'). apply in_imap_pair in Hx.
      rewrite Hy in Hx. injection Hx as ->. unfold q, marker_of in Hq, Hm. cbn in Hq.
      apply andb_true_iff in Hq as [Hq _], Hm as [Hm _]. apply has_type_is in Hq, Hm. subst t. rewrite Hq in *.
      rewrite Hi in Hj. injection Hj as <-. fold q in E'. rewrite E in E'. by injection E' as ->. }
    destruct (last rows) as [x|] eqn:Ex; [|by apply last_None in Ex; rewrite Ex in Hin].
    apply last_Some in Ex as [rows' Ex]. f_equal. apply Hall. rewrite Ex. apply in_app_iff. right. by left.
  - apply last_None in E. apply last_None. apply filter_nil_iff. intros x Hx. apply filter_In in Hx as [Hx _].
    by apply (proj1 (filter_nil_iff q _) E).
Qed.
Lemma select_in e : In e select_rows -> In e entries.
Proof.
  unfold select_rows. rewrite in_map_iff. intros ([i e'] & <- & H). apply filter_In in H as [H _].
  apply in_imap_pair in H. by apply list_elem_of_lookup_2, list_elem_of_In in H.
Qed.
(** The rows before and behind the last start. *)
Lemma select_split a s b : entries = a ++ s :: b -> marker_of ENTRY_TYPE_RUN_STARTED run s = true ->
  existsb is_start b = false ->
  exists a' b', select_rows = a' ++ s :: b' /\ existsb is_start b' = false
    /\ existsb (terminal_of run) b' = existsb (terminal_of run) b.
Proof.
  intros E Hs Hb. set (shifted := imap (fun n => pair (List.length a + S n)%nat) b).
  assert (Hz : imap pair entries = imap pair a ++ (List.length a, s) :: shifted).
  { rewrite E, imap_app. cbn [imap]. by rewrite Nat.add_0_r. }
  assert (Hin : forall x, In x shifted -> In (snd x) b).
  { intros [j y] Hy. apply list_elem_of_In, elem_of_lookup_imap in Hy as (k & x & [= -> ->] & Hx).
    by apply list_elem_of_lookup_2, list_elem_of_In in Hx. }
  assert (Hp : List.length a ∈ positions).
  { apply in_positions. exists ENTRY_TYPE_RUN_STARTED. split; [by left|].
    unfold last_of_type. rewrite Hz, List.filter_app. cbn [List.filter snd]. unfold marker_of in Hs. rewrite Hs.
    rewrite (proj2 (filter_nil_iff _ shifted)); [by rewrite last_snoc|].
    intros y Hy. rewrite existsb_false in Hb. by rewrite (Hb _ (Hin y Hy)). }
  unfold select_rows. rewrite Hz, List.filter_app, List.map_app. cbn [List.filter fst].
  rewrite bool_decide_true by done. cbn [List.map snd]. eexists _, _. split; [done|].
  assert (Hsub : forall e, In e (List.map snd (List.filter (fun x => bool_decide (x.1 ∈ positions)) shifted)) -> In e b).
  { intros e He. apply in_map_iff in He as (x & <- & He). apply filter_In in He as [He _]. auto. }
  split; [rewrite existsb_false in Hb |- *; auto|]. apply eq_iff_eq_true. rewrite !List.existsb_exists. split.
  { intros (e & He & Ht). eauto. }
  intros (t & Ht & Hmt). set (q := fun x : nat * SessionEntry => terminal_of run (snd x)).
  apply list_elem_of_In, list_elem_of_lookup in Ht as (k & Hk).
  assert (Hlast : is_Some (last (List.filter q shifted))).
  { apply last_is_Some. intros Hnil. rewrite filter_nil_iff in Hnil.
    specialize (Hnil ((List.length a + S k)%nat, t)). cbn in Hnil. unfold q in Hnil. cbn in Hnil.
    rewrite Hnil in Hmt; [done|]. apply list_elem_of_In, elem_of_lookup_imap. eauto. }
  destruct Hlast as [[i e] Hlast].
  assert (Hie : In (i, e) (List.filter q shifted)).
  { apply last_Some in Hlast as [l' ->]. apply in_app_iff. right. by left. }
  apply filter_In in Hie as [Hie Hq]. exists e. split; [|done]. apply in_map_iff. exists (i, e). split; [done|].
  apply filter_In. split; [done|]. apply bool_decide_eq_true, in_positions.
  exists ENTRY_TYPE_RUN_TERMINAL. split; [right; by left|].
  change (fst <$> last (List.filter q (imap pair entries)) = Some i). rewrite Hz, List.filter_app, last_app. cbn.
  destruct (q (List.length a, s)); [rewrite last_cons|]; by rewrite Hlast.
Qed.
End Selected.

Lemma find_rev_none {A} (p : A -> bool) l : List.find p (rev l) = None <-> existsb p l = false.
Proof. rewrite find_none_iff, existsb_false. by setoid_rewrite <- in_rev. Qed.
Lemma find_rev_at {A} (p : A -> bool) a x b : p x = true -> existsb p b = false ->
  List.find p (rev (a ++ x :: b)) = Some x.
Proof.
  intros Hx Hb. rewrite rev_app_distr. cbn [rev]. rewrite <- List.app_assoc. cbn [app].
  assert (Hr : existsb p (rev b) = false).
  { rewrite existsb_false in Hb |- *. intros y Hy. apply Hb. by apply in_rev. }
  induction (rev b) as [|y l IH]; cbn in *; [by rewrite Hx|]. apply orb_false_iff in Hr as [-> Hr]. auto.
Qed.
Lemma existsb_ext {A} (p q : A -> bool) : (forall x, p x = q x) -> forall l, existsb p l = existsb q l.
Proof. intros H l. induction l as [|x l IH]; cbn; [done|]. by rewrite H, IH. Qed.
Lemma existsb_find_rev {A} (p : A -> bool) l : existsb p l = bool_decide (is_Some (List.find p (rev l))).
Proof.
  pose proof (find_rev_none p l) as H. destruct (List.find p (rev l)) as [x|].
  - rewrite bool_decide_true by done. destruct (existsb p l); [done|]. discriminate (proj2 H eq_refl).
  - rewrite bool_decide_false by (by intros [? ?]). by apply H.
Qed.
Lemma marker_of_start run e : marker_of ENTRY_TYPE_RUN_STARTED run e = true -> is_start e = true.
Proof. by intros [H _]%andb_true_iff. Qed.

Lemma selected_rows_decide entries :
  (forall s, latest_start entries = Some s -> is_Some (marker_run s)) ->
  unterminated_run_id Canonical entries = find_unterminated_run entries
  /\ resumable_run_id Canonical entries = find_resumable_run entries.
Proof.
  intros Hnamed. unfold unterminated_run_id, resumable_run_id. cbn [read_markers]. unfold read_run_marker_headers.
  pose proof (latest_start_split entries) as Hsplit. destruct (latest_start entries) as [s|] eqn:L; cbn [mbind option_bind].
  2:{ split; [by rewrite !unterminated_none|]. unfold find_resumable_run. by rewrite L. }
  destruct (Hnamed s eq_refl) as [run Hr]. rewrite Hr. clear Hnamed.
  change (List.map snd _) with (select_rows entries run).
  destruct Hsplit as (a & b & E & Hs & Hb).
  assert (Hm : marker_of ENTRY_TYPE_RUN_STARTED run s = true) by (unfold marker_of; by rewrite Hs, Hr, bool_decide_true).
  destruct (select_split entries run a s b E Hm Hb) as (a' & b' & E' & Hbn & Hbt).
  split; [by rewrite E', E, !(unterminated_at _ s _ run), Hbt|].
  unfold find_resumable_run. rewrite L, E'. unfold latest_start. rewrite find_rev_at by done.
  cbn [mbind option_bind]. rewrite Hr. cbn [mbind option_bind]. rewrite <- E'. unfold find_run_terminal.
  change (terminal_of run) with (marker_of ENTRY_TYPE_RUN_TERMINAL run).
  rewrite (select_last entries run ENTRY_TYPE_RUN_TERMINAL) by (right; by left).
  replace (existsb (stop_of run) (select_rows entries run)) with (existsb (stop_of run) entries); [done|].
  rewrite !(existsb_ext (stop_of run) (marker_of ENTRY_TYPE_RUN_STOP_REQUESTED run)) by apply stop_of_spec.
  rewrite !existsb_find_rev, (select_last entries run); [done|]. right. right. by left.
Qed.
(** A format-2 session reads only the last start, terminal and stop marker
    of its latest run; which run is unterminated and which may be resumed comes
    out as from the whole journal, however many runs it holds, provided the
    latest start names its run. *)
Theorem bounded_marker_read_agrees entries :
  (forall s, latest_start entries = Some s -> is_Some (marker_run s)) ->
  unterminated_run_id Canonical entries = find_unterminated_run entries
  /\ resumable_run_id Canonical entries = find_resumable_run entries.
Proof. apply selected_rows_decide. Qed.

(** * Journals the manager writes *)
Lemma read_all_unterminated l : find_unterminated_run (read_all_markers l) = find_unterminated_run l.
Proof.
  unfold find_unterminated_run, read_all_markers. generalize (@None string) as open.
  induction l as [|e l IH]; intros open; [done|]. cbn [List.filter List.fold_left].
  destruct (is_run_marker (se_entry_type e)) eqn:M; cbn [List.fold_left]; rewrite IH; [done|]. f_equal.
  unfold is_run_marker in M. rewrite !orb_false_iff in M. destruct M as [[M1 M2] _].
  unfold track_run, has_type. by rewrite M1, M2.
Qed.

Inductive journal_step (format : StorageFormat) : list SessionEntry -> list SessionEntry -> Prop :=
| step_content j e : is_run_marker (se_entry_type e) = false -> journal_step format j (j ++ [e])
| step_run_start j stamp user started run :
    is_run_marker (se_entry_type user) = false -> is_start started = true -> marker_run started = Some run ->
    journal_step format j (append_run_start format stamp user started j)
| step_commit j terminal : is_terminal_marker terminal = true -> journal_step format j (j ++ [terminal])
| step_stop j stamp run : journal_step format j (j ++ [run_stop_requested (fst stamp) (snd stamp) run])
| step_settle j stamp run state reason :
    journal_step format j (snd (settle_run_if_unfinished stamp run state reason j))
| step_reconcile j stamp : journal_step format j (reconcile_user_stop stamp j).

Record runs_in_order (j : list SessionEntry) : Prop := {
  ro_named s : In s j -> is_start s = true -> is_Some (marker_run s);
  ro_settled a s b run : j = a ++ s :: b -> is_start s = true -> marker_run s = Some run ->
    existsb is_start b = true -> existsb (terminal_of run) b = true
}.
Lemma reading_agrees format j : runs_in_order j -> unterminated_run_id format j = find_unterminated_run j.
Proof.
  intros HI. destruct format; [apply read_all_unterminated|]. apply selected_rows_decide.
  intros s Ls. apply find_some in Ls as [Ls Hst]. apply HI; [by apply in_rev|done].
Qed.
Lemma in_order_snoc j e : is_start e = false -> runs_in_order j -> runs_in_order (j ++ [e]).
Proof.
  intros He [N S]. split.
  - intros s Hs. apply in_app_iff in Hs as [Hs|[<-|[]]]; [auto|congruence].
  - intros a s b run E Hs Hr Hb. destruct b as [|x b _] using rev_ind; [done|].
    assert (E' : (a ++ s :: b) ++ [x] = j ++ [e]) by (rewrite E, <- List.app_assoc; done).
    apply app_inj_tail in E' as [<- ->]. rewrite existsb_app in Hb |- *. cbn in Hb. rewrite He, !orb_false_r in Hb.
    by rewrite (S a s b run eq_refl Hs Hr Hb).
Qed.
Lemma in_order_start j s run : is_start s = true -> marker_run s = Some run -> find_unterminated_run j = None ->
  runs_in_order j -> runs_in_order (j ++ [s]).
Proof.
  intros Hs Hr Hnone [N S]. split.
  - intros x Hx. apply in_app_iff in Hx as [Hx|[<-|[]]]; [auto|eauto].
  - intros a x b run' E Hx Hxr Hb. destruct b as [|y b _] using rev_ind; [done|].
    assert (E' : (a ++ x :: b) ++ [y] = j ++ [s]) by (rewrite E, <- List.app_assoc; done).
    apply app_inj_tail in E' as [<- ->]. rewrite existsb_app. apply orb_true_iff. left.
    destruct (existsb is_start b) eqn:B; [by apply (S a x b run')|].
    rewrite (unterminated_at a x b run' Hx Hxr B) in Hnone. by destruct (existsb (terminal_of run') b).
Qed.
Lemma run_terminal_run stamp run state tokens ms error :
  marker_run (run_terminal (fst stamp) (snd stamp) run state tokens ms error) = Some run.
Proof. done. Qed.
Lemma in_order_step format j j' : journal_step format j j' -> runs_in_order j -> runs_in_order j'.
Proof.
  intros Hstep HI. destruct Hstep as [j e He|j stamp user started run Hu Hs Hr|j t Ht|j stamp run|j stamp run state reason|j stamp].
  - apply in_order_snoc; [|done]. unfold is_run_marker in He. apply orb_false_iff in He as [He _].
    by apply orb_false_iff in He as [He _].
  - unfold append_run_start.
    rewrite reading_agrees by done. set (closing := match find_unterminated_run j with Some r => _ | None => _ end).
    assert (Hc : runs_in_order (j ++ closing) /\ find_unterminated_run (j ++ closing) = None).
    { subst closing. destruct (find_unterminated_run j) as [r|] eqn:E.
      - split; [by apply in_order_snoc|]. unfold find_unterminated_run in *.
        rewrite List.fold_left_app, E. cbn. by rewrite bool_decide_true.
      - by rewrite List.app_nil_r. }
    assert (Hu' : is_start user = false).
    { unfold is_run_marker in Hu. apply orb_false_iff in Hu as [Hu _]. by apply orb_false_iff in Hu as [Hu _]. }
    assert (Hut : is_terminal_marker user = false).
    { unfold is_run_marker in Hu. apply orb_false_iff in Hu as [Hu _]. by apply orb_false_iff in Hu as [_ Hu]. }
    destruct Hc as [Hc Hn]. rewrite List.app_assoc.
    replace ((j ++ closing) ++ [user; started]) with (((j ++ closing) ++ [user]) ++ [started])
      by (by rewrite <- !List.app_assoc).
    apply (in_order_start _ _ run); [done|done| |by apply in_order_snoc].
    unfold find_unterminated_run in *. rewrite List.fold_left_app, Hn. cbn. unfold track_run. by rewrite Hu', Hut.
  - apply in_order_snoc; [by apply terminal_no_start|done].
  - by apply in_order_snoc.
  - unfold settle_run_if_unfinished. destruct (List.find _ _); [done|]. by apply in_order_snoc.
  - unfold reconcile_user_stop. destruct (latest_start _ ≫= marker_run) as [run|]; [|done].
    destruct (List.existsb _ _); [|done]. cbn zeta.
    destruct (match find_run_terminal _ _ with Some v => _ | None => _ end); [done|]. by apply in_order_snoc.
Qed.

(** C12: whatever order runs start, commit, stop, settle and are reconciled in,
    a journal has at most one run without a terminal behind its start, and
    reading the markers, in either format, finds that run. *)
Theorem at_most_one_run_is_open format j :
  rtc (journal_step format) [] j ->
  (forall a s b run, j = a ++ s :: b -> is_start s = true -> marker_run s = Some run ->
     existsb (terminal_of run) b = false ->
     existsb is_start b = false /\ unterminated_run_id format j = Some run)
  /\ (forall run, unterminated_run_id format j = Some run ->
      exists a s b, j = a ++ s :: b /\ is_start s = true /\ marker_run s = Some run
        /\ existsb (terminal_of run) b = false).
Proof.
  intros Hreach. assert (HI : runs_in_order j).
  { assert (H0 : runs_in_order []) by (split; [by intros ? []|by intros [] ? ? ?]).
    revert H0. induction Hreach as [|j1 j2 j3 Hstep _ IH]; [done|]. intros H. eapply IH, in_order_step; eauto. }
  rewrite reading_agrees by done. split.
  - intros a s b run E Hs Hr Hb. assert (Hbs : existsb is_start b = false).
    { destruct (existsb is_start b) eqn:B; [|done]. by rewrite (ro_settled j HI a s b run E Hs Hr B) in Hb. }
    split; [done|]. rewrite E, (unterminated_at a s b run Hs Hr Hbs). by rewrite Hb.
  - intros run Hf. pose proof (latest_start_split j) as L. destruct (latest_start j) as [s|].
    + destruct L as (a & b & E & Hs & Hb). destruct (ro_named j HI s) as [r Hr]; [rewrite E; apply in_app_iff; right; by left|done|].
      rewrite E, (unterminated_at a s b r Hs Hr Hb) in Hf.
      destruct (existsb (terminal_of r) b) eqn:T; [done|]. injection Hf as ->. eauto 8.
    + by rewrite unterminated_none in Hf.
Qed.

(** * Run sequences *)
Lemma sequence_fold l : forall count best, 0 <= count <= u64_max ->
  let '(count', best') := List.fold_left sequence_step l (count, best) in
  0 <= count' <= u64_max /\ best <= best' /\ Z.min u64_max (count + len (List.filter is_start l)) <= count'
  /\ forall e n, In e l -> is_run_marker (se_entry_type e) = true ->
       (se_content e ≫= get "run_sequence") ≫= as_u64 = Some n -> n <= best'.
Proof.
  induction l as [|e l IH]; intros count best Hc; cbn [List.fold_left].
  - unfold len. cbn. split_and!; [lia|lia|lia|lia|done].
  - cbn [sequence_step]. destruct (is_run_marker (se_entry_type e)) eqn:M.
    + set (count1 := if is_start e then _ else _). set (best1 := match _ with Some _ => _ | None => _ end).
      assert (Hc1 : 0 <= count1 <= u64_max /\ Z.min u64_max (count + len (List.filter is_start (e :: l)))
                    <= Z.min u64_max (count1 + len (List.filter is_start l))).
      { subst count1. cbn [List.filter]. unfold u64_sat_add, u64_max in *.
        pose proof (len_nonneg (List.filter is_start l)). destruct (is_start e); unfold len in *; cbn [List.length]; lia. }
      assert (Hb1 : best <= best1 /\ forall n, (se_content e ≫= get "run_sequence") ≫= as_u64 = Some n -> n <= best1).
      { subst best1. destruct (_ ≫= as_u64) as [n|]; split; try done; try lia. intros n' [= <-]. lia. }
      specialize (IH count1 best1). destruct (List.fold_left sequence_step l (count1, best1)) as [c b].
      destruct IH as (I1 & I2 & I3 & I4); [lia|]. split_and!; [lia|lia|lia|lia|].
      intros x n [<-|Hx] Hm Hn; [|eauto]. destruct Hb1 as [_ Hb1]. specialize (Hb1 n Hn). lia.
    + specialize (IH count best Hc). destruct (List.fold_left sequence_step l (count, best)) as [c b].
      destruct IH as (I1 & I2 & I3 & I4). assert (Hs : is_start e = false).
      { unfold is_run_marker in M. rewrite !orb_false_iff in M. by destruct M as [[M _] _]. }
      cbn [List.filter]. rewrite Hs. split_and!; try lia. intros x n [<-|Hx] Hm; [congruence|eauto].
Qed.
(** The sequence of the next run is beyond every sequence the markers
    record and beyond the number of runs the journal started, until the counter
    is at its limit, where it stays. *)
Theorem next_run_sequence_is_fresh entries :
  let next := next_run_sequence entries in
  1 <= next /\
  (next = u64_max \/
   len (List.filter is_start entries) < next
   /\ forall e n, In e entries -> is_run_marker (se_entry_type e) = true ->
        (se_content e ≫= get "run_sequence") ≫= as_u64 = Some n -> n < next).
Proof.
  cbn zeta. unfold next_run_sequence. pose proof (sequence_fold entries 0 0) as H.
  destruct (List.fold_left sequence_step entries (0, 0)) as [count best].
  destruct H as (H1 & H2 & H3 & H4); [unfold u64_max; lia|].
  split; [lia|]. unfold u64_sat_add, u64_max in *.
  destruct (decide (Z.max best count + 1 <= 18446744073709551615)); [right|left; lia].
  split; [lia|]. intros e n He Hm Hn. specialize (H4 e n He Hm Hn). lia.
Qed.
