(* ===== verification/SessionRepair.v ===== *)
(** Healing a loaded session (session/repair.rs, [Manager::load] in
    session/manager/loading.rs): empty assistant entries are dropped, tool
    results that repeat an id are dropped, late results are moved behind the
    assistant that called, and calls without a result get a placeholder.  A
    vector is a list; an index is a [nat]. *)
From S2P Require Import Prelude Json SessionEntry.

Definition TOOL_LOST_PLACEHOLDER_PREFIX : string := "[Tool execution lost —".
Definition interrupted_tool_placeholder (name : string) : string :=
  TOOL_LOST_PLACEHOLDER_PREFIX +:+ " the Agent was interrupted after this " +:+ name
  +:+ " call was issued and before its result was recorded, so whether it ran is unknown. Check whether it took effect before running it again]".

(** * Empty assistants *)
Definition empty_assistant (e : SessionEntry) : bool :=
  has_type ENTRY_TYPE_ASSISTANT e && bool_decide (se_content e = None) && is_empty (se_tool_calls e).
Definition strip_empty_assistants (entries : list SessionEntry) : list SessionEntry * bool :=
  let kept := List.filter (fun e => negb (empty_assistant e)) entries in
  (kept, negb (List.length kept =? List.length entries)%nat).

(** * Repeated results *)
Definition block_value_text (block : Value) : option string :=
  match get "text" block with
  | Some text => as_str text
  | None => get "content" block ≫= as_str
  end.
Definition entry_text_starts_with (e : SessionEntry) (prefix : string) : bool :=
  match se_content e with
  | Some (VString s) => starts_with prefix s
  | Some (VArray arr) =>
      match head (omap block_value_text arr) with
      | Some text => starts_with prefix text
      | None => false
      end
  | _ => false
  end.
Definition is_placeholder (e : SessionEntry) : bool := entry_text_starts_with e TOOL_LOST_PLACEHOLDER_PREFIX.

Definition keyed_result (e : SessionEntry) : bool :=
  has_type ENTRY_TYPE_TOOL e && negb (se_tool_call_id e =?s "").
(** The loop's state: the entry kept for an id, and the indices to drop. *)
Definition dedupe_step (st : gmap string (nat * SessionEntry) * list nat) (x : nat * SessionEntry)
    : gmap string (nat * SessionEntry) * list nat :=
  let '(kept, drop_idx) := st in
  let '(i, e) := x in
  if keyed_result e then
    match kept !! se_tool_call_id e with
    | None => (<[se_tool_call_id e := (i, e)]> kept, drop_idx)
    | Some (prev, prev_entry) =>
        if is_placeholder prev_entry && negb (is_placeholder e)
        then (<[se_tool_call_id e := (i, e)]> kept, drop_idx ++ [prev])
        else (kept, drop_idx ++ [i])
    end
  else (kept, drop_idx).
Definition dropped_results (entries : list SessionEntry) : list nat :=
  snd (List.fold_left dedupe_step (imap pair entries) (∅, [])).
Definition dedupe_tool_entries (entries : list SessionEntry) : list SessionEntry * bool :=
  let drop_idx := dropped_results entries in
  if is_empty drop_idx then (entries, false)
  else (List.map snd (List.filter (fun x => bool_decide (fst x ∉ drop_idx)) (imap pair entries)), true).

(** * Late results *)
Definition ends_tool_window (entry_type : string) : bool :=
  (entry_type =?s "user") || (entry_type =?s "system") || (entry_type =?s "assistant")
  || (entry_type =?s ENTRY_TYPE_RUN_STARTED) || (entry_type =?s ENTRY_TYPE_RUN_TERMINAL).
Definition is_assistant (e : SessionEntry) : bool := has_type ENTRY_TYPE_ASSISTANT e.
Definition declares (id : string) (e : SessionEntry) : bool :=
  is_assistant e && List.existsb (fun tc => tc_id tc =?s id) (se_tool_calls e).
Definition answers (id : string) (e : SessionEntry) : bool :=
  has_type ENTRY_TYPE_TOOL e && (se_tool_call_id e =?s id).
(** [entry.meta.as_ref().and_then(|m| m.get("run_id"))] *)
Definition meta_run (e : SessionEntry) : option Value := se_meta e ≫= get "run_id".
Definition same_owner (assistant result : SessionEntry) : bool :=
  match meta_run assistant, meta_run result with
  | None, _ | _, None => true
  | Some _, Some _ => option_value_eq (meta_run assistant) (meta_run result)
  end.
(** The inner loop over [j], from the entry at index [j] on. *)
Fixpoint late_result (assistant : SessionEntry) (id : string) (crossed_boundary : bool) (j : nat)
    (rest : list SessionEntry) : option nat :=
  match rest with
  | [] => None
  | next :: rest' =>
      if declares id next then None
      else if answers id next then
        if crossed_boundary && same_owner assistant next then Some j else None
      else late_result assistant id (crossed_boundary || ends_tool_window (se_entry_type next)) (S j) rest'
  end.
(** [Vec::remove] and [Vec::insert] *)
Definition vec_remove (j : nat) (entries : list SessionEntry) : list SessionEntry :=
  take j entries ++ drop (S j) entries.
Definition vec_insert (i : nat) (e : SessionEntry) (entries : list SessionEntry) : list SessionEntry :=
  take i entries ++ e :: drop i entries.
Definition reattach_call (i : nat) (st : list SessionEntry * bool) (call : ToolCall)
    : list SessionEntry * bool :=
  let '(entries, moved) := st in
  if tc_id call =?s "" then st
  else match entries !! i with
       | None => st
       | Some assistant =>
           match late_result assistant (tc_id call) false (S i) (drop (S i) entries) with
           | Some j =>
               match entries !! j with
               | Some result => (vec_insert (S i) result (vec_remove j entries), true)
               | None => st
               end
           | None => st
           end
       end.
Definition reattach_assistant (st : list SessionEntry * bool) (i : nat) : list SessionEntry * bool :=
  match fst st !! i with
  | Some e => if is_assistant e then List.fold_left (reattach_call i) (se_tool_calls e) st else st
  | None => st
  end.
Definition reattach_late_results (entries : list SessionEntry) : list SessionEntry * bool :=
  List.fold_left reattach_assistant (seq 0 (List.length entries)) (entries, false).

(** * Missing results *)
Definition pending_ids (e : SessionEntry) : gset string := list_to_set (List.map tc_id (se_tool_calls e)).
(** The inner loop from index [j]: the ids answered before the window ends, and
    the index of the entry that ends it. *)
Fixpoint answered_in_window (pending matched : gset string) (j : nat) (rest : list SessionEntry)
    : gset string * nat :=
  match rest with
  | [] => (matched, j)
  | next :: rest' =>
      let matched :=
        if has_type ENTRY_TYPE_TOOL next && bool_decide (se_tool_call_id next ∈ pending)
        then {[se_tool_call_id next]} ∪ matched else matched in
      if ends_tool_window (se_entry_type next) then (matched, j)
      else answered_in_window pending matched (S j) rest'
  end.
Definition placeholder_for (entry : SessionEntry) (tc : ToolCall) : SessionEntry :=
  {| se_id := "missing-tool:" +:+ se_id entry +:+ ":" +:+ tc_id tc;
     se_entry_type := ENTRY_TYPE_TOOL;
     se_role := "tool";
     se_content := Some (VString (interrupted_tool_placeholder (fn_name (tc_function tc))));
     se_tool_calls := [];
     se_timestamp := se_timestamp entry;
     se_tool_call_id := tc_id tc;
     se_name := fn_name (tc_function tc);
     se_tool_args := "";
     se_thinking := "";
     se_meta := None |}.
Definition placeholders_for (entry : SessionEntry) (missing : gset string) : list SessionEntry :=
  List.map (placeholder_for entry)
    (List.filter (fun tc => bool_decide (tc_id tc ∈ missing)) (se_tool_calls entry)).
(** The outer loop; [fuel] bounds its rounds, each of which moves [i] on. *)
Fixpoint missing_results (fuel i : nat) (entries : list SessionEntry) : list (nat * list SessionEntry) :=
  match fuel with
  | O => []
  | S fuel =>
      match entries !! i with
      | None => []
      | Some entry =>
          if negb (is_assistant entry) || is_empty (se_tool_calls entry)
          then missing_results fuel (S i) entries
          else
            let '(matched, j) := answered_in_window (pending_ids entry) ∅ (S i) (drop (S i) entries) in
            let missing := pending_ids entry ∖ matched in
            if bool_decide (missing = ∅) then missing_results fuel (S i) entries
            else (S i, placeholders_for entry missing) :: missing_results fuel j entries
      end
  end.
Definition insert_repair (entries : list SessionEntry) (repair : nat * list SessionEntry)
    : list SessionEntry :=
  List.fold_left (fun entries p => vec_insert (fst repair) p entries) (rev (snd repair)) entries.
Definition insert_missing_results (entries : list SessionEntry) : list SessionEntry * bool :=
  let repairs := missing_results (List.length entries) 0 entries in
  let latest_first := sort_by_key (fun r => - Z.of_nat (fst r)) repairs in
  (List.fold_left insert_repair latest_first entries, negb (is_empty repairs)).

Definition repair_dangling_tool_calls (entries : list SessionEntry) : list SessionEntry * bool :=
  if is_empty entries then (entries, false)
  else
    let '(entries, moved) := reattach_late_results entries in
    let '(entries, repaired) := insert_missing_results entries in
    (entries, moved || repaired).

(** [Manager::load] on the decoded entries. *)
Definition heal (entries : list SessionEntry) : list SessionEntry :=
  let entries := fst (strip_empty_assistants entries) in
  let entries := fst (dedupe_tool_entries entries) in
  fst (repair_dangling_tool_calls entries).
