(* ===== verification/SessionRepairProps.v ===== *)
(** The repair of a loaded session: every call of every assistant is answered
    before the conversation goes on, a recorded result is preferred to a
    placeholder wherever the journal holds it, nothing else is lost, and a
    journal as the agent writes it is healed to one a provider accepts. *)
From S2P Require Import Prelude Json SessionEntry SessionRepair.

(** * Tool windows *)
Abbreviation is_tool := (has_type ENTRY_TYPE_TOOL).
Abbreviation boundary := (fun e : SessionEntry => ends_tool_window (se_entry_type e)).
Fixpoint window (l : list SessionEntry) : list SessionEntry :=
  match l with
  | [] => []
  | e :: r => if boundary e then [] else e :: window r
  end.
Definition result_ids (l : list SessionEntry) : list string :=
  List.map se_tool_call_id (List.filter is_tool l).
Definition call_ids (e : SessionEntry) : list string := List.map tc_id (se_tool_calls e).
Definition other_entries (l : list SessionEntry) : list SessionEntry :=
  List.filter (fun e => negb (is_tool e)) l.

Lemma has_type_eq t e : has_type t e = true <-> se_entry_type e = t.
Proof. apply String.eqb_eq. Qed.
Lemma assistant_boundary e : is_assistant e = true -> boundary e = true.
Proof. unfold is_assistant. rewrite has_type_eq. by intros ->. Qed.
Lemma tool_no_boundary e : is_tool e = true -> boundary e = false.
Proof. rewrite has_type_eq. by intros ->. Qed.
Lemma tool_no_assistant e : is_tool e = true -> is_assistant e = false.
Proof. unfold is_assistant, has_type. rewrite String.eqb_eq. by intros ->. Qed.
Lemma answers_tool id e : answers id e = true -> is_tool e = true /\ se_tool_call_id e = id.
Proof. unfold answers. rewrite andb_true_iff, String.eqb_eq. done. Qed.
Lemma declares_assistant id e : declares id e = true <-> is_assistant e = true /\ In id (call_ids e).
Proof.
  unfold declares, call_ids. rewrite andb_true_iff, List.existsb_exists, in_map_iff.
  split; intros [? (tc & A & B)]; split; try done; exists tc.
  - by apply String.eqb_eq in B.
  - by rewrite String.eqb_eq.
Qed.
Lemma answers_no_declares id id' e : answers id e = true -> declares id' e = false.
Proof.
  intros H. apply answers_tool in H as [H _]. unfold declares. by rewrite tool_no_assistant.
Qed.

Lemma window_app_free m l : existsb boundary m = false -> window (m ++ l) = m ++ window l.
Proof.
  induction m as [|e m IH]; [done|]. cbn. rewrite orb_false_iff. intros [-> H]. f_equal. by apply IH.
Qed.
Lemma window_app_bound m l : existsb boundary m = true -> window (m ++ l) = window m.
Proof.
  induction m as [|e m IH]; [done|]. cbn. destruct (ends_tool_window (se_entry_type e)); [done|]. cbn.
  intros H. f_equal. by apply IH.
Qed.
Lemma window_in e l : In e (window l) -> In e l.
Proof.
  induction l as [|x l IH]; [done|]. cbn. destruct (ends_tool_window (se_entry_type x)); [done|].
  intros [->|H]; auto.
Qed.
Lemma result_ids_app l l' : result_ids (l ++ l') = result_ids l ++ result_ids l'.
Proof. unfold result_ids. by rewrite List.filter_app, List.map_app. Qed.
Lemma result_ids_perm l l' : l ≡ₚ l' -> result_ids l ≡ₚ result_ids l'.
Proof. intros H. by apply Permutation_map, filter_perm. Qed.
Lemma in_result_ids id l : In id (result_ids l) <-> exists e, In e l /\ answers id e = true.
Proof.
  unfold result_ids. rewrite in_map_iff. split.
  - intros (e & <- & He). apply filter_In in He as [He Ht]. exists e. split; [done|].
    unfold answers. by rewrite Ht, String.eqb_refl.
  - intros (e & He & Ha). apply answers_tool in Ha as [Ht <-]. exists e. rewrite filter_In. auto.
Qed.
Lemma other_entries_app l l' : other_entries (l ++ l') = other_entries l ++ other_entries l'.
Proof. apply List.filter_app. Qed.

(** * Missing results *)

(** The reference: behind each assistant, a placeholder for each call its
    window does not answer. *)
Definition unanswered (e : SessionEntry) (rest : list SessionEntry) : list ToolCall :=
  List.filter (fun tc => negb (existsb (String.eqb (tc_id tc)) (result_ids (window rest)))) (se_tool_calls e).
Definition fills (e : SessionEntry) (rest : list SessionEntry) : list SessionEntry :=
  if is_assistant e then List.map (placeholder_for e) (unanswered e rest) else [].
Fixpoint fill (l : list SessionEntry) : list SessionEntry :=
  match l with
  | [] => []
  | e :: r => e :: fills e r ++ fill r
  end.
(** The insertions this takes, by index. *)
Fixpoint gaps (i : nat) (l : list SessionEntry) : list (nat * list SessionEntry) :=
  match l with
  | [] => []
  | e :: r => match fills e r with [] => gaps (S i) r | ps => (S i, ps) :: gaps (S i) r end
  end.

Lemma existsb_eqb_in id l : existsb (String.eqb id) l = true <-> In id l.
Proof.
  rewrite List.existsb_exists. split.
  - intros (x & Hx & E). apply String.eqb_eq in E. by subst.
  - intros H. exists id. by rewrite String.eqb_refl.
Qed.
Lemma answered_spec pending : forall rest matched j,
  answered_in_window pending matched j rest
  = (matched ∪ (pending ∩ list_to_set (result_ids (window rest))), j + List.length (window rest))%nat.
Proof.
  induction rest as [|e r IH]; intros matched j; cbn.
  - f_equal; [set_solver|lia].
  - destruct (ends_tool_window (se_entry_type e)) eqn:B.
    + replace (is_tool e) with false; cbn.
      * f_equal; [set_solver|lia].
      * symmetry. apply not_true_is_false. intros Ht. apply tool_no_boundary in Ht. congruence.
    + rewrite IH. unfold result_ids. cbn. destruct (is_tool e); cbn.
      * f_equal; [|lia]. case_bool_decide; set_solver.
      * f_equal. lia.
Qed.

Lemma placeholders_fills e rest : is_assistant e = true ->
  placeholders_for e (pending_ids e ∖ (∅ ∪ (pending_ids e ∩ list_to_set (result_ids (window rest)))))
  = fills e rest.
Proof.
  intros He. unfold fills, placeholders_for, unanswered. rewrite He. f_equal. apply filter_ext_In.
  intros tc Htc. assert (Hp : tc_id tc ∈ pending_ids e).
  { unfold pending_ids. apply elem_of_list_to_set, list_elem_of_In, in_map_iff. eauto. }
  case_bool_decide as D; symmetry.
  - rewrite negb_true_iff. apply not_true_is_false. rewrite existsb_eqb_in, <- list_elem_of_In.
    apply elem_of_difference in D as [_ D]. intros H. apply D. set_solver.
  - rewrite negb_false_iff, existsb_eqb_in, <- list_elem_of_In.
    destruct (decide (tc_id tc ∈ result_ids (window rest))) as [|N]; [done|]. destruct D. set_solver.
Qed.
Lemma fills_nil_iff e rest : is_assistant e = true ->
  pending_ids e ∖ (∅ ∪ (pending_ids e ∩ list_to_set (result_ids (window rest)))) = ∅ <-> fills e rest = [].
Proof.
  intros He. rewrite <- placeholders_fills by done. unfold placeholders_for. split.
  - intros ->. rewrite (proj2 (filter_nil_iff _ _)); [done|]. intros tc _. by case_bool_decide.
  - intros H. apply map_eq_nil in H. apply set_eq. intros id. split; [|set_solver].
    intros Hd. exfalso. assert (Hp : id ∈ pending_ids e) by set_solver.
    unfold pending_ids in Hp. apply elem_of_list_to_set, list_elem_of_In, in_map_iff in Hp as (tc & <- & Htc).
    rewrite filter_nil_iff in H. specialize (H tc Htc). by case_bool_decide.
Qed.
Lemma fills_no_calls e rest : se_tool_calls e = [] -> fills e rest = [].
Proof. unfold fills, unanswered. intros ->. by destruct (is_assistant e). Qed.

Lemma gaps_free : forall m i l, existsb boundary m = false ->
  gaps i (m ++ l) = gaps (i + List.length m) l.
Proof.
  induction m as [|e m IH]; intros i l; cbn; [by rewrite Nat.add_0_r|].
  rewrite orb_false_iff. intros [B H]. unfold fills.
  destruct (is_assistant e) eqn:A; [apply assistant_boundary in A; congruence|].
  rewrite IH by done. f_equal. lia.
Qed.
Lemma window_split l : exists rest, l = window l ++ rest /\ existsb boundary (window l) = false.
Proof.
  induction l as [|e l (rest & E & B)]; [by exists []|]. cbn.
  destruct (ends_tool_window (se_entry_type e)) eqn:Be; [by exists (e :: l)|].
  exists rest. cbn. rewrite Be. split; [by f_equal|done].
Qed.
Lemma missing_gaps entries : forall fuel i, (List.length entries - i <= fuel)%nat ->
  missing_results fuel i entries = gaps i (drop i entries).
Proof.
  induction fuel as [|fuel IH]; intros i Hf; cbn.
  - rewrite drop_ge by lia. done.
  - destruct (entries !! i) as [e|] eqn:E.
    2:{ apply lookup_ge_None in E. by rewrite drop_ge. }
    pose proof (lookup_lt_Some _ _ _ E) as Hi.
    rewrite (drop_S _ _ _ E). cbn.
    destruct (is_assistant e) eqn:A; cbn.
    2:{ unfold fills. rewrite A. apply IH. lia. }
    destruct (se_tool_calls e) as [|tc calls] eqn:C.
    { rewrite fills_no_calls by done. apply IH. lia. }
    rewrite <- C. clear C tc calls. cbn [is_empty]. rewrite answered_spec.
    destruct (window_split (drop (S i) entries)) as (rest & Er & Bw).
    assert (Hjump : gaps (S i) (drop (S i) entries)
                    = missing_results fuel (S i + List.length (window (drop (S i) entries))) entries).
    { rewrite IH by lia. rewrite Er at 1. rewrite gaps_free by done. f_equal.
      rewrite <- drop_drop. rewrite Er at 2. by rewrite drop_app_length. }
    destruct (se_tool_calls e) as [|tc calls] eqn:C.
    { cbn. rewrite fills_no_calls by done. apply IH. lia. }
    cbn [is_empty]. case_bool_decide as D.
    + apply fills_nil_iff in D; [|done]. rewrite D. apply IH. lia.
    + rewrite placeholders_fills by done. rewrite <- Hjump.
      destruct (fills e (drop (S i) entries)) eqn:F; [|done]. destruct D. by apply fills_nil_iff.
Qed.

Lemma vec_insert_app front l e : vec_insert (List.length front) e (front ++ l) = front ++ e :: l.
Proof. unfold vec_insert. by rewrite take_app_length, drop_app_length. Qed.
Lemma insert_repair_app ps : forall front l,
  insert_repair (front ++ l) (List.length front, ps) = front ++ ps ++ l.
Proof.
  unfold insert_repair. cbn [fst snd]. induction ps as [|p ps IH] using rev_ind; intros front l; [done|].
  rewrite rev_unit. cbn [List.fold_left]. rewrite vec_insert_app, IH, <- List.app_assoc. done.
Qed.
Lemma insert_gaps : forall l front,
  List.fold_right (fun repair entries => insert_repair entries repair) (front ++ l)
    (gaps (List.length front) l) = front ++ fill l.
Proof.
  induction l as [|e l IH]; intros front; [done|]. cbn [gaps fill].
  specialize (IH (front ++ [e])). rewrite length_app in IH. cbn in IH. rewrite Nat.add_1_r in IH.
  rewrite <- !List.app_assoc in IH. cbn in IH.
  destruct (fills e l) as [|p ps] eqn:F; cbn [List.fold_right]; [exact IH|].
  rewrite IH. replace (front ++ e :: fill l) with ((front ++ [e]) ++ fill l) by (by rewrite <- List.app_assoc).
  replace (S (List.length front)) with (List.length (front ++ [e])) by (rewrite length_app; cbn; lia).
  rewrite insert_repair_app, <- List.app_assoc. done.
Qed.
Lemma gaps_ascending : forall l i,
  StronglySorted (fun x y => fst x < fst y)%nat (gaps i l)
  /\ Forall (fun x => i < fst x)%nat (gaps i l).
Proof.
  induction l as [|e l IH]; intros i; cbn; [repeat constructor|].
  destruct (IH (S i)) as [Hs Hf].
  assert (Hf' : Forall (fun x => i < fst x)%nat (gaps (S i) l))
    by (eapply Forall_impl; [exact Hf|]; cbn; lia).
  destruct (fills e l); [done|]. split; constructor; cbn; [done| |lia|done].
  eapply Forall_impl; [exact Hf|]. cbn. lia.
Qed.
Lemma insert_by_key_last {A} (key : A -> Z) x l :
  Forall (fun y => key y < key x) l -> insert_by_key key x l = l ++ [x].
Proof.
  induction 1 as [|y l Hy Hl IH]; [done|]. cbn. rewrite (proj2 (Z.leb_gt _ _)) by done. by f_equal.
Qed.
Lemma sort_ascending {A} (l : list (nat * A)) : StronglySorted (fun x y => fst x < fst y)%nat l ->
  sort_by_key (fun r => - Z.of_nat (fst r)) l = rev l.
Proof.
  induction 1 as [|x l Hs IH Hx]; [done|]. unfold sort_by_key in *. cbn. rewrite IH.
  apply insert_by_key_last, Forall_rev. eapply Forall_impl; [exact Hx|]. cbn. lia.
Qed.
Lemma insert_missing_fill entries : fst (insert_missing_results entries) = fill entries.
Proof.
  unfold insert_missing_results. cbn. rewrite missing_gaps by lia. rewrite drop_0.
  rewrite sort_ascending by apply gaps_ascending.
  rewrite <- (rev_involutive (gaps 0 entries)) at 1.
  rewrite <- List.fold_left_rev_right, rev_involutive, rev_involutive.
  apply (insert_gaps entries []).
Qed.

(** * Late results *)

(** An entry that neither declares nor answers a call. *)
Definition clear_of (id : string) (x : SessionEntry) : bool := negb (declares id x) && negb (answers id x).
Lemma late_result_at e id r : forall mid b j tail, forallb (clear_of id) mid = true -> answers id r = true ->
  late_result e id b j (mid ++ r :: tail)
  = if (b || existsb boundary mid) && same_owner e r then Some (j + List.length mid)%nat else None.
Proof.
  induction mid as [|x mid IH]; intros b j tail Hm Hr; cbn.
  - rewrite (answers_no_declares id id r Hr), Hr. rewrite orb_false_r, Nat.add_0_r. done.
  - cbn in Hm. apply andb_true_iff in Hm as [Hx Hm]. unfold clear_of in Hx.
    apply andb_true_iff in Hx as [Hd Ha]. apply negb_true_iff in Hd, Ha.
    rewrite Hd, Ha, IH by done. rewrite orb_assoc, Nat.add_succ_r. done.
Qed.
Lemma late_result_inv e id : forall l b j k, late_result e id b j l = Some k ->
  exists mid r tail, l = mid ++ r :: tail /\ k = (j + List.length mid)%nat
    /\ forallb (clear_of id) mid = true /\ answers id r = true
    /\ b || existsb boundary mid = true /\ same_owner e r = true.
Proof.
  induction l as [|x l IH]; intros b j k; cbn; [done|].
  destruct (declares id x) eqn:Hd; [done|]. destruct (answers id x) eqn:Ha.
  - destruct (b && same_owner e x) eqn:B; [|done]. intros [= <-]. apply andb_true_iff in B as [-> Ho].
    exists [], x, l. cbn. rewrite Nat.add_0_r. done.
  - intros H. apply IH in H as (mid & r & tail & -> & -> & Hm & Hr & Hb & Ho).
    exists (x :: mid), r, tail. cbn. rewrite Nat.add_succ_r, orb_assoc. unfold clear_of at 1. by rewrite Hd, Ha.
Qed.

(** The reference: behind each assistant, the late results of its calls. *)
Definition pull (e : SessionEntry) (l : list SessionEntry) (call : ToolCall) : list SessionEntry :=
  if tc_id call =?s "" then l
  else match late_result e (tc_id call) false 0 l with
       | Some j => match l !! j with Some r => r :: vec_remove j l | None => l end
       | None => l
       end.
Definition pulls (e : SessionEntry) (l : list SessionEntry) : list SessionEntry :=
  if is_assistant e then List.fold_left (pull e) (se_tool_calls e) l else l.
Fixpoint attach (n : nat) (l : list SessionEntry) : list SessionEntry :=
  match n, l with
  | S n, e :: r => e :: attach n (pulls e r)
  | _, _ => l
  end.

(** What one pull does. *)
Lemma pull_spec e l call :
  pull e l call = l \/
  exists mid r tail, l = mid ++ r :: tail /\ pull e l call = r :: mid ++ tail
    /\ forallb (clear_of (tc_id call)) mid = true /\ answers (tc_id call) r = true
    /\ existsb boundary mid = true /\ tc_id call <> "".
Proof.
  unfold pull. destruct (String.eqb_spec (tc_id call) ""); [by left|].
  destruct (late_result e (tc_id call) false 0 l) as [k|] eqn:E; [|by left]. right.
  apply late_result_inv in E as (mid & r & tail & -> & -> & Hm & Hr & Hb & _). cbn in *.
  exists mid, r, tail. rewrite list_lookup_middle by done. split_and!; try done.
  unfold vec_remove. rewrite take_app_length. f_equal. f_equal.
  replace (S (List.length mid)) with (List.length mid + 1)%nat by lia.
  rewrite <- drop_drop, drop_app_length. done.
Qed.
Lemma pull_at e call mid r tail :
  tc_id call <> "" -> forallb (clear_of (tc_id call)) mid = true -> answers (tc_id call) r = true ->
  same_owner e r = true ->
  pull e (mid ++ r :: tail) call = if existsb boundary mid then r :: mid ++ tail else mid ++ r :: tail.
Proof.
  intros Hid Hm Hr Ho. unfold pull. rewrite (proj2 (String.eqb_neq _ _) Hid).
  rewrite late_result_at by done. cbn. rewrite Ho, andb_true_r. destruct (existsb boundary mid); [|done].
  rewrite list_lookup_middle by done. unfold vec_remove. rewrite take_app_length.
  replace (S (List.length mid)) with (List.length mid + 1)%nat by lia.
  rewrite <- drop_drop, drop_app_length. done.
Qed.

Lemma vec_remove_app front l j : vec_remove (List.length front + j) (front ++ l) = front ++ vec_remove j l.
Proof.
  unfold vec_remove. rewrite take_app_add', <- Nat.add_succ_r, drop_app_add', List.app_assoc by done. done.
Qed.
Lemma late_result_shift e id l : forall b i j,
  late_result e id b (i + j) l = Nat.add i <$> late_result e id b j l.
Proof.
  induction l as [|x l IH]; intros b i j; cbn; [done|]. destruct (declares id x); [done|].
  destruct (answers id x); [by destruct (b && same_owner e x)|]. by rewrite <- Nat.add_succ_r, IH.
Qed.
Lemma reattach_call_pull front e r m call :
  exists m', reattach_call (List.length front) (front ++ e :: r, m) call = (front ++ e :: pull e r call, m').
Proof.
  unfold reattach_call, pull. destruct (tc_id call =?s ""); [eauto|].
  rewrite list_lookup_middle by done.
  replace (front ++ e :: r) with ((front ++ [e]) ++ r) by (by rewrite <- List.app_assoc).
  assert (Hl : S (List.length front) = List.length (front ++ [e])) by (rewrite length_app; cbn; lia).
  rewrite Hl, drop_app_length.
  rewrite <- (Nat.add_0_r (List.length (front ++ [e]))), late_result_shift, Nat.add_0_r.
  destruct (late_result e (tc_id call) false 0 r) as [k|] eqn:E; cbn [fmap option_fmap option_map].
  - rewrite lookup_app_r by lia. replace (_ + k - _)%nat with k by lia.
    destruct (r !! k) as [x|] eqn:Ex.
    + rewrite vec_remove_app, vec_insert_app, <- List.app_assoc. eauto.
    + rewrite <- List.app_assoc. eauto.
  - rewrite <- List.app_assoc. eauto.
Qed.
Lemma reattach_calls_pull calls : forall front e r m,
  exists m', List.fold_left (reattach_call (List.length front)) calls (front ++ e :: r, m)
             = (front ++ e :: List.fold_left (pull e) calls r, m').
Proof.
  induction calls as [|c calls IH]; intros front e r m; cbn [List.fold_left]; [eauto|].
  destruct (reattach_call_pull front e r m c) as (m' & ->). apply IH.
Qed.
Lemma pull_perm e l call : pull e l call ≡ₚ l.
Proof.
  destruct (pull_spec e l call) as [->|(mid & r & tail & -> & -> & _)]; [done|].
  by rewrite Permutation_middle.
Qed.
Lemma pulls_perm e l : pulls e l ≡ₚ l.
Proof.
  unfold pulls. destruct (is_assistant e); [|done]. generalize (se_tool_calls e). intros calls.
  revert l. induction calls as [|c calls IH]; intros l; cbn; [done|]. by rewrite IH, pull_perm.
Qed.
Lemma reattach_attach : forall n front l m, n = List.length l ->
  exists m', List.fold_left reattach_assistant (seq (List.length front) n) (front ++ l, m)
             = (front ++ attach n l, m').
Proof.
  induction n as [|n IH]; intros front l m Hn; destruct l as [|e r]; try done; cbn; [eauto|].
  injection Hn as Hn.
  assert (exists m', reattach_assistant (front ++ e :: r, m) (List.length front) = (front ++ e :: pulls e r, m'))
    as (m' & ->).
  { unfold reattach_assistant, pulls. cbn [fst]. rewrite list_lookup_middle by done.
    destruct (is_assistant e); [apply reattach_calls_pull|eauto]. }
  specialize (IH (front ++ [e]) (pulls e r) m'). rewrite length_app in IH. cbn in IH.
  rewrite Nat.add_1_r, <- !List.app_assoc in IH. apply IH.
  by rewrite (Permutation_length (pulls_perm e r)).
Qed.
Lemma repair_spec entries :
  fst (repair_dangling_tool_calls entries) = fill (attach (List.length entries) entries).
Proof.
  unfold repair_dangling_tool_calls, reattach_late_results. destruct entries as [|e l]; [done|]. cbn [is_empty].
  destruct (reattach_attach (List.length (e :: l)) [] (e :: l) false eq_refl) as (m & E).
  cbn [List.length app] in E |- *. rewrite E.
  rewrite <- insert_missing_fill. by destruct (insert_missing_results _).
Qed.

(** * What the repair keeps *)
Lemma pull_others e l call : other_entries (pull e l call) = other_entries l.
Proof.
  destruct (pull_spec e l call) as [->|(mid & r & tail & -> & -> & _ & Hr & _)]; [done|].
  apply answers_tool in Hr as [Hr _].
  change (r :: mid ++ tail) with ([r] ++ mid ++ tail). change (r :: tail) with ([r] ++ tail).
  rewrite !other_entries_app. unfold other_entries at 1 4. cbn. by rewrite Hr.
Qed.
Lemma pulls_others e l : other_entries (pulls e l) = other_entries l.
Proof.
  unfold pulls. destruct (is_assistant e); [|done]. generalize (se_tool_calls e). intros calls.
  revert l. induction calls as [|c calls IH]; intros l; cbn; [done|]. by rewrite IH, pull_others.
Qed.
Lemma attach_perm : forall n l, attach n l ≡ₚ l.
Proof.
  induction n as [|n IH]; intros [|e l]; cbn; try done. by rewrite IH, pulls_perm.
Qed.
Lemma attach_others : forall n l, other_entries (attach n l) = other_entries l.
Proof.
  induction n as [|n IH]; intros [|e l]; cbn; try done. unfold other_entries in *. cbn.
  rewrite IH. fold (other_entries (pulls e l)). by rewrite pulls_others.
Qed.
Lemma placeholder_tool e tc : is_tool (placeholder_for e tc) = true.
Proof. done. Qed.
Lemma fills_tools e l : forallb is_tool (fills e l) = true.
Proof.
  unfold fills. destruct (is_assistant e); [|done]. apply forallb_forall. intros x Hx.
  apply in_map_iff in Hx as (tc & <- & _). done.
Qed.
Lemma tools_others l : forallb is_tool l = true -> other_entries l = [].
Proof.
  intros H. apply filter_nil_iff. intros x Hx. rewrite forallb_forall in H. by rewrite H.
Qed.
Lemma tools_no_boundary l : forallb is_tool l = true -> existsb boundary l = false.
Proof.
  intros H. apply existsb_false. intros x Hx. rewrite forallb_forall in H. apply tool_no_boundary. auto.
Qed.
Lemma fill_others l : other_entries (fill l) = other_entries l.
Proof.
  induction l as [|e l IH]; [done|]. cbn [fill].
  change (e :: fills e l ++ fill l) with ([e] ++ fills e l ++ fill l). change (e :: l) with ([e] ++ l).
  rewrite !other_entries_app, IH, (tools_others (fills e l)); [done|apply fills_tools].
Qed.
Lemma window_fill l : window (fill l) = window l.
Proof.
  induction l as [|e l IH]; [done|]. cbn. destruct (ends_tool_window (se_entry_type e)) eqn:B; [done|].
  f_equal. unfold fills. destruct (is_assistant e) eqn:A; [|exact IH].
  apply assistant_boundary in A. congruence.
Qed.
Lemma window_attach : forall n l, window (attach n l) = window l.
Proof.
  induction n as [|n IH]; intros [|e l]; cbn; try done.
  destruct (ends_tool_window (se_entry_type e)) eqn:B; [done|]. rewrite IH. f_equal. unfold pulls.
  destruct (is_assistant e) eqn:A; [|done]. apply assistant_boundary in A. congruence.
Qed.
(** The window behind an assistant after the repair. *)
Lemma window_filled e l : window (fills e l ++ fill l) = fills e l ++ window l.
Proof.
  rewrite window_app_free by (apply tools_no_boundary, fills_tools). by rewrite window_fill.
Qed.

(** * Every call is answered *)
Lemma fill_answers e l tc : is_assistant e = true -> In tc (se_tool_calls e) ->
  In (tc_id tc) (result_ids (window (fills e l ++ fill l))).
Proof.
  intros He Htc. rewrite window_filled, result_ids_app, in_app_iff.
  destruct (existsb (String.eqb (tc_id tc)) (result_ids (window l))) eqn:X.
  - right. by apply existsb_eqb_in.
  - left. apply in_result_ids. exists (placeholder_for e tc). split.
    + unfold fills. rewrite He. apply in_map, filter_In. by rewrite X.
    + unfold answers. rewrite placeholder_tool. cbn. by rewrite String.eqb_refl.
Qed.
Lemma tools_split (ps : list SessionEntry) : forall front pre A post, forallb is_tool ps = true ->
  is_assistant A = true -> ps ++ front = pre ++ A :: post ->
  exists pre', pre = ps ++ pre' /\ front = pre' ++ A :: post.
Proof.
  induction ps as [|p ps IH]; intros front pre A post Hp HA E; [by exists pre|].
  cbn in Hp. apply andb_true_iff in Hp as [Hp Hps]. destruct pre as [|q pre]; cbn in E; injection E as -> E.
  - rewrite tool_no_assistant in HA by done. done.
  - apply IH in E as (pre' & -> & ->); [|done|done]. by exists pre'.
Qed.
Lemma fill_all_answered : forall l pre A post tc, fill l = pre ++ A :: post ->
  is_assistant A = true -> In tc (se_tool_calls A) -> In (tc_id tc) (result_ids (window post)).
Proof.
  induction l as [|e l IH]; intros pre A post tc E HA Htc.
  - by destruct pre.
  - destruct pre as [|x pre]; cbn in E; injection E as -> E.
    + rewrite <- E. by apply fill_answers.
    + apply tools_split in E as (pre' & _ & E); [|apply fills_tools|done]. by eapply IH.
Qed.

(** * Recorded results are found *)

(** [r] is the first entry to answer [id] in [l], before any other declaration
    of [id], and it may be taken across a boundary by the caller [e]. *)
Definition reachable (e : SessionEntry) (id : string) (r : SessionEntry) (l : list SessionEntry) : Prop :=
  exists mid tail, l = mid ++ r :: tail /\ forallb (clear_of id) mid = true
    /\ (existsb boundary mid = true -> same_owner e r = true).
(** It lies in the window of [l]. *)
Definition in_reach (id : string) (r : SessionEntry) (l : list SessionEntry) : Prop :=
  exists mid tail, l = mid ++ r :: tail /\ forallb (clear_of id) mid = true /\ existsb boundary mid = false.

Lemma in_reach_window id r l : answers id r = true -> in_reach id r l -> In r (window l).
Proof.
  intros Hr (mid & tail & -> & _ & Hb). rewrite window_app_free by done. apply in_app_iff. right.
  cbn. apply answers_tool in Hr as [Hr _]. rewrite tool_no_boundary by done. by left.
Qed.
Lemma in_reach_reachable e id r l : in_reach id r l -> reachable e id r l.
Proof. intros (mid & tail & -> & Hm & Hb). exists mid, tail. split_and!; [done|done|]. by rewrite Hb. Qed.

Lemma clear_insert id x m : is_tool x = true -> answers id x = false ->
  forallb (clear_of id) m = true -> forallb (clear_of id) (x :: m) = true.
Proof.
  intros Ht Ha Hm. cbn. rewrite Hm, andb_true_r. unfold clear_of, declares. by rewrite tool_no_assistant, Ha.
Qed.
Lemma answers_other id id' x : answers id x = true -> id <> id' -> answers id' x = false.
Proof.
  intros H Hn. apply answers_tool in H as [Ht <-]. unfold answers. by rewrite Ht, (proj2 (String.eqb_neq _ _)).
Qed.
(** Two ways to split a list at an entry. *)
Lemma split_cases {A} (mid : list A) r tail : forall mid' r' tail', mid ++ r :: tail = mid' ++ r' :: tail' ->
  (mid = mid' /\ r = r' /\ tail = tail')
  \/ (exists m, mid' = mid ++ r :: m /\ tail = m ++ r' :: tail')
  \/ (exists m, mid = mid' ++ r' :: m /\ tail' = m ++ r :: tail).
Proof.
  induction mid as [|x mid IH]; intros [|y mid'] r' tail' E; cbn in E; injection E.
  - intros -> ->. by left.
  - intros -> <-. right. left. eauto.
  - intros <- ->. right. right. eauto.
  - intros E' <-. apply IH in E' as [(-> & -> & ->)|[(m & -> & ->)|(m & -> & ->)]]; [by left|..]; eauto 6.
Qed.
(** A pull for another call does not take the result away. *)
Lemma pull_other_shape e id r l call b :
  answers id r = true -> tc_id call <> id ->
  (exists mid tail, l = mid ++ r :: tail /\ forallb (clear_of id) mid = true /\ existsb boundary mid = b) ->
  exists mid tail, pull e l call = mid ++ r :: tail /\ forallb (clear_of id) mid = true
    /\ existsb boundary mid = b.
Proof.
  intros Hr Hid (mid & tail & -> & Hm & Hb).
  destruct (pull_spec e (mid ++ r :: tail) call) as [->|(mid' & x & tail' & E & -> & _ & Hx & _)];
    [by exists mid, tail|].
  pose proof (answers_other _ _ _ Hx Hid) as Hxa. apply answers_tool in Hx as [Hx _].
  apply split_cases in E as [(_ & -> & _)|[(m & -> & ->)|(m & -> & ->)]].
  - congruence.
  - exists (x :: mid), (m ++ tail'). rewrite <- List.app_assoc. cbn [app].
    split_and!; [done|by apply clear_insert|]. cbn. by rewrite tool_no_boundary.
  - rewrite forallb_app in Hm. cbn in Hm. apply andb_true_iff in Hm as [Hm' Hm].
    apply andb_true_iff in Hm as [_ Hm]. exists (x :: mid' ++ m), tail. cbn [app]. rewrite <- List.app_assoc.
    split_and!; [done| |].
    + apply clear_insert; [done|done|]. by rewrite forallb_app, Hm', Hm.
    + cbn. rewrite tool_no_boundary by done. subst b. rewrite !existsb_app. cbn. by rewrite tool_no_boundary.
Qed.
Lemma pull_keeps_reach e id r l call : answers id r = true ->
  in_reach id r l -> in_reach id r (pull e l call).
Proof.
  intros Hr (mid & tail & -> & Hm & Hb).
  destruct (decide (tc_id call = id)) as [<-|Hn].
  - unfold pull. destruct (tc_id call =?s ""); [by exists mid, tail|].
    rewrite late_result_at, Hb by done. by exists mid, tail.
  - destruct (pull_other_shape e id r (mid ++ r :: tail) call false Hr Hn) as (m & t & -> & ? & ?); [eauto|].
    by exists m, t.
Qed.
Lemma pull_attaches e r l call : answers (tc_id call) r = true -> tc_id call <> "" ->
  reachable e (tc_id call) r l -> in_reach (tc_id call) r (pull e l call).
Proof.
  intros Hr Hid (mid & tail & -> & Hm & Ho). destruct (existsb boundary mid) eqn:Hb.
  - rewrite pull_at, Hb by auto. by exists [], (mid ++ tail).
  - apply pull_keeps_reach; [done|]. by exists mid, tail.
Qed.
Lemma pull_keeps_reachable e e' id r l call : answers id r = true -> tc_id call <> id ->
  reachable e id r l -> reachable e id r (pull e' l call).
Proof.
  intros Hr Hn (mid & tail & -> & Hm & Ho).
  destruct (pull_other_shape e' id r (mid ++ r :: tail) call (existsb boundary mid) Hr Hn)
    as (m & t & -> & Hm' & Hb); [eauto|]. exists m, t. by rewrite Hb.
Qed.
(** All calls of the caller: its own result comes into reach. *)
Lemma pulls_attach e id r l : answers id r = true -> id <> "" -> declares id e = true ->
  reachable e id r l -> in_reach id r (pulls e l).
Proof.
  intros Hr Hid Hd. apply declares_assistant in Hd as [He Hd]. unfold pulls. rewrite He.
  unfold call_ids in Hd. revert l Hd. induction (se_tool_calls e) as [|c calls IH]; intros l Hd Hl; [done|].
  cbn in Hd |- *. assert (Hkeep : in_reach id r (pull e l c) -> in_reach id r (fold_left (pull e) calls (pull e l c))).
  { clear - Hr. generalize (pull e l c). induction calls as [|c' calls IH]; intros l' H; cbn; [done|].
    by apply IH, pull_keeps_reach. }
  destruct (decide (tc_id c = id)) as [<-|Hn].
  - by apply Hkeep, pull_attaches.
  - destruct Hd as [|Hd]; [done|]. apply IH; [done|]. by apply pull_keeps_reachable.
Qed.
(** Calls of an earlier assistant leave the call and its result as they are. *)
Definition called_in (others : list SessionEntry) (A : SessionEntry) (id : string) (r : SessionEntry)
    (l : list SessionEntry) : Prop :=
  exists pre l', l = pre ++ A :: l' /\ other_entries pre = others /\ reachable A id r l'.
Lemma other_entries_tool x l : is_tool x = true -> other_entries (x :: l) = other_entries l.
Proof. unfold other_entries. cbn. by intros ->. Qed.
Lemma pull_passes e A id r l call others : declares id A = true -> answers id r = true ->
  called_in others A id r l -> called_in others A id r (pull e l call).
Proof.
  intros HA Hr (pre & l' & -> & Ho & mid & tail & -> & Hm & Hown).
  pose proof (proj1 (proj1 (declares_assistant _ _) HA)) as HAa.
  destruct (pull_spec e (pre ++ A :: mid ++ r :: tail) call)
    as [->|(mid' & x & tail' & E & -> & Hclear & Hx & _)].
  { exists pre, (mid ++ r :: tail). split_and!; [done|done|]. by exists mid, tail. }
  pose proof (proj1 (answers_tool _ _ Hx)) as Hxt.
  apply split_cases in E as [(_ & -> & _)|[(m & -> & E)|(m & -> & ->)]].
  - rewrite tool_no_assistant in HAa by done. done.
  - assert (Hn : tc_id call <> id).
    { intros <-. rewrite forallb_app in Hclear. cbn in Hclear. apply andb_true_iff in Hclear as [_ Hc].
      apply andb_true_iff in Hc as [Hc _]. unfold clear_of in Hc. by rewrite HA in Hc. }
    pose proof (answers_other _ _ _ Hx Hn) as Hxa.
    exists (x :: pre), (m ++ tail'). rewrite <- List.app_assoc, other_entries_tool by done.
    split_and!; [done|done|].
    apply split_cases in E as [(_ & -> & _)|[(q & -> & ->)|(q & -> & ->)]].
    + congruence.
    + exists mid, (q ++ tail'). rewrite <- List.app_assoc. done.
    + rewrite forallb_app in Hm. cbn in Hm. apply andb_true_iff in Hm as [Hm1 Hm].
      apply andb_true_iff in Hm as [_ Hm2]. exists (m ++ q), tail. rewrite <- List.app_assoc. split; [done|].
      rewrite forallb_app, Hm1, Hm2. split; [done|]. intros Hb. apply Hown. rewrite existsb_app in Hb |- *. cbn.
      rewrite tool_no_boundary by done. done.
  - exists (x :: mid' ++ m), (mid ++ r :: tail). cbn [app]. split; [by rewrite <- List.app_assoc|].
    split; [|by exists mid, tail]. rewrite other_entries_tool by done. subst others.
    by rewrite !other_entries_app, other_entries_tool.
Qed.
Lemma pulls_pass e A id r l others : declares id A = true -> answers id r = true ->
  called_in others A id r l -> called_in others A id r (pulls e l).
Proof.
  intros HA Hr. unfold pulls. destruct (is_assistant e); [|done]. revert l.
  induction (se_tool_calls e) as [|c calls IH]; intros l Hl; cbn; [done|]. by apply IH, pull_passes.
Qed.
Lemma attach_free : forall m n l, existsb boundary m = false ->
  exists k, attach n (m ++ l) = m ++ attach k l.
Proof.
  induction m as [|e m IH]; intros n l; cbn; [eauto|]. rewrite orb_false_iff. intros [Hb Hm].
  destruct n as [|n]; cbn; [by exists O|]. unfold pulls.
  destruct (is_assistant e) eqn:A; [apply assistant_boundary in A; congruence|].
  destruct (IH n l Hm) as (k & ->). eauto.
Qed.
Lemma attach_reach n id r l : in_reach id r l -> answers id r = true -> in_reach id r (attach n l).
Proof.
  intros (mid & tail & -> & Hm & Hb) Hr. destruct (attach_free mid n (r :: tail) Hb) as (k & ->).
  destruct (attach_free [r] k tail) as (k' & E).
  { cbn. by rewrite tool_no_boundary by apply (answers_tool _ _ Hr). }
  cbn [app] in E. rewrite E. by exists mid, (attach k' tail).
Qed.
Lemma attach_reaches A id r : declares id A = true -> answers id r = true -> id <> "" ->
  forall n l others, (List.length l <= n)%nat -> called_in others A id r l ->
  exists pre l', attach n l = pre ++ A :: l' /\ other_entries pre = others /\ in_reach id r l'.
Proof.
  intros HA Hr Hid. induction n as [|n IH]; intros l others Hn Hl.
  { destruct Hl as ([|] & ? & -> & _); cbn in Hn; lia. }
  destruct Hl as ([|e pre] & l' & -> & Ho & Hreach); cbn in Hn |- *.
  - exists [], (attach n (pulls A l')). split_and!; [done|done|]. apply attach_reach; [|done].
    by apply pulls_attach.
  - destruct (IH (pulls e (pre ++ A :: l')) (other_entries pre)) as (pre' & l'' & -> & Ho' & Hr').
    + rewrite (Permutation_length (pulls_perm _ _)). lia.
    + apply pulls_pass; [done|done|]. exists pre, l'. done.
    + exists (e :: pre'), l''. split_and!; [done| |done]. subst others. unfold other_entries in *. cbn.
      by rewrite Ho'.
Qed.
Lemma fill_app_at : forall pre A l, is_assistant A = true ->
  exists pre', fill (pre ++ A :: l) = pre' ++ A :: fills A l ++ fill l /\ other_entries pre' = other_entries pre.
Proof.
  induction pre as [|e pre IH]; intros A l HA; [by exists []|]. cbn [app fill].
  destruct (IH A l HA) as (pre' & -> & Ho). exists (e :: fills e (pre ++ A :: l) ++ pre').
  cbn [app]. rewrite <- List.app_assoc. split; [done|].
  change (e :: fills e (pre ++ A :: l) ++ pre') with ([e] ++ fills e (pre ++ A :: l) ++ pre').
  change (e :: pre) with ([e] ++ pre).
  rewrite !other_entries_app, Ho, (tools_others (fills e _)); [done|apply fills_tools].
Qed.
(** A call whose result is in reach gets no placeholder. *)
Lemma fills_spare A l id r p : answers id r = true -> In r (window l) -> In p (fills A l) -> answers id p = false.
Proof.
  intros Hr Hw Hp. unfold fills in Hp. destruct (is_assistant A); [|done].
  apply in_map_iff in Hp as (tc & <- & Htc). apply filter_In in Htc as [_ Htc].
  unfold answers. rewrite placeholder_tool. cbn. apply String.eqb_neq. intros E. rewrite E in Htc.
  apply negb_true_iff in Htc. apply not_true_iff_false in Htc. apply Htc, existsb_eqb_in, in_result_ids. eauto.
Qed.

(** C20: wherever the journal holds the result of a call, however many turns
    later it was recorded, the repaired session holds that result in the window
    of the call, and no placeholder for it: [A] made the call, [r] is the first
    entry to answer it before another assistant uses the id again, and if a turn
    boundary lies between them neither belongs to another run. *)
Theorem recorded_result_is_used entries before A mid r after id :
  entries = before ++ A :: mid ++ r :: after ->
  declares id A = true -> answers id r = true -> id <> "" ->
  forallb (clear_of id) mid = true ->
  (existsb boundary mid = true -> same_owner A r = true) ->
  exists before' after',
    fst (repair_dangling_tool_calls entries) = before' ++ A :: after'
    /\ other_entries before' = other_entries before
    /\ In r (window after')
    /\ forall p, In p (window after') -> answers id p = true -> In p entries.
Proof.
  intros -> HA Hr Hid Hm Ho. rewrite repair_spec. set (entries := before ++ A :: mid ++ r :: after).
  destruct (attach_reaches A id r HA Hr Hid (List.length entries) entries (other_entries before)) as
    (pre & l' & E & Hpre & Hreach); [lia|exists before, (mid ++ r :: after); split_and!; [done..|by exists mid, after]|].
  rewrite E. pose proof (in_reach_window _ _ _ Hr Hreach) as Hw.
  destruct (fill_app_at pre A l') as (pre' & -> & Hpre'); [exact (proj1 (proj1 (declares_assistant _ _) HA))|].
  exists pre', (fills A l' ++ fill l'). rewrite window_filled. split_and!; [done|congruence| |].
  - apply in_app_iff. by right.
  - intros p Hp Hpa. apply in_app_iff in Hp as [Hp|Hp].
    + by rewrite (fills_spare A l' id r p Hr Hw Hp) in Hpa.
    + apply window_in in Hp. assert (Hin : In p (attach (List.length entries) entries)).
      { rewrite E, in_app_iff. right. by right. }
      apply list_elem_of_In. rewrite <- (attach_perm (List.length entries) entries). by apply list_elem_of_In.
Qed.

(** After the repair every call of every assistant entry is answered before
    the next user, system, assistant or run-marker entry, whatever the journal
    held. *)
Theorem every_call_is_answered entries before A after tc :
  fst (repair_dangling_tool_calls entries) = before ++ A :: after ->
  is_assistant A = true -> In tc (se_tool_calls A) ->
  In (tc_id tc) (result_ids (window after)).
Proof. rewrite repair_spec. apply fill_all_answered. Qed.

(** * Repeated results *)
Definition retained (drop_idx : list nat) (l : list SessionEntry) : list SessionEntry :=
  List.map snd (List.filter (fun x => bool_decide (fst x ∉ drop_idx)) (imap pair l)).
(** What the loop knows after the entries [l]. *)
Record dedupe_inv (l : list SessionEntry) (kept : gmap string (nat * SessionEntry)) (drop_idx : list nat) : Prop := {
  di_kept id i e : kept !! id = Some (i, e) ->
    l !! i = Some e /\ keyed_result e = true /\ se_tool_call_id e = id
    /\ (is_placeholder e = true -> forall e', In e' l -> keyed_result e' = true -> se_tool_call_id e' = id ->
        is_placeholder e' = true);
  di_none id e : kept !! id = None -> In e l -> keyed_result e = true -> se_tool_call_id e <> id;
  di_drop i e : l !! i = Some e ->
    i ∉ drop_idx <-> keyed_result e = false \/ kept !! se_tool_call_id e = Some (i, e);
  di_bound i : i ∈ drop_idx -> (i < List.length l)%nat
}.
Lemma lookup_snoc_cases (l : list SessionEntry) x i e : (l ++ [x]) !! i = Some e ->
  (l !! i = Some e /\ (i < List.length l)%nat) \/ (i = List.length l /\ e = x).
Proof.
  intros H. apply lookup_app_Some in H as [H|[Hle H]].
  - left. split; [done|]. by apply lookup_lt_Some in H.
  - right. apply list_lookup_singleton_Some in H as [? ->]. split; [lia|done].
Qed.
Lemma dedupe_step_inv l x kept drop_idx : dedupe_inv l kept drop_idx ->
  let '(kept', drop_idx') := dedupe_step (kept, drop_idx) (List.length l, x) in
  dedupe_inv (l ++ [x]) kept' drop_idx'.
Proof.
  intros [K N D B]. unfold dedupe_step. set (n := List.length l) in *.
  assert (Hn : (l ++ [x]) !! n = Some x) by (by apply list_lookup_middle).
  assert (Hkn : forall id i e, kept !! id = Some (i, e) -> (i < n)%nat).
  { intros id i e H. apply K in H as [H _]. by apply lookup_lt_Some in H. }
  assert (Hnd : n ∉ drop_idx) by (intros H; apply B in H; lia).
  destruct (keyed_result x) eqn:Kx; [destruct (kept !! se_tool_call_id x) as [[prev pe]|] eqn:E|].
  - pose proof (K _ _ _ E) as (Hp & Hpk & Hpid & Hpp). pose proof (Hkn _ _ _ E) as Hpn.
    destruct (is_placeholder pe && negb (is_placeholder x)) eqn:C.
    + apply andb_true_iff in C as [C1 C2]. apply negb_true_iff in C2. split.
      * intros id i e. rewrite lookup_insert_Some. intros [[<- [= <- <-]]|[Hne H]].
        -- split_and!; try done. congruence.
        -- pose proof (K _ _ _ H) as (H1 & H2 & H3 & H4). split_and!; [by apply lookup_app_l_Some|done|done|].
           intros Hph e' He' Hk He'id. apply in_app_iff in He' as [He'|[<-|[]]]; [eauto|congruence].
      * intros id e. rewrite lookup_insert_None. intros [Hno Hne] He Hk.
        apply in_app_iff in He as [He|[<-|[]]]; [eauto|congruence].
      * intros i e H. rewrite not_elem_of_app, list_elem_of_singleton.
        apply lookup_snoc_cases in H as [[H Hi]|[-> ->]].
        -- rewrite (D _ _ H), lookup_insert_Some. split.
           ++ intros [[Hf|Hf] Hne]; [by left|]. destruct (decide (se_tool_call_id e = se_tool_call_id x)) as [Eq|Ne].
              ** rewrite Eq, E in Hf. injection Hf as <- <-. done.
              ** right. right. done.
           ++ intros [Hf|[[_ [= Hf _]]|[Hne Hf]]]; [|lia|].
              ** split; [by left|]. intros ->. rewrite Hp in H. injection H as ->. congruence.
              ** split; [by right|]. intros ->. rewrite Hp in H. injection H as ->. congruence.
        -- rewrite lookup_insert_eq. split; [by right|]. intros _. split; [done|lia].
      * intros i. rewrite elem_of_app, list_elem_of_singleton, length_app. cbn. intros [H| ->]; [apply B in H|]; lia.
    + split.
      * intros id i e H. pose proof (K _ _ _ H) as (H1 & H2 & H3 & H4).
        split_and!; [by apply lookup_app_l_Some|done|done|].
        intros Hph e' He' Hk He'id. apply in_app_iff in He' as [He'|[<-|[]]]; [eauto|].
        rewrite <- He'id, E in H. injection H as <- <-. rewrite Hph in C. cbn in C. by apply negb_false_iff in C.
      * intros id e Hno He Hk. apply in_app_iff in He as [He|[<-|[]]]; [eauto|congruence].
      * intros i e H. rewrite not_elem_of_app, list_elem_of_singleton.
        apply lookup_snoc_cases in H as [[H Hi]|[-> ->]].
        -- rewrite (D _ _ H). split; [by intros [? _]|]. intros ?. split; [done|lia].
        -- split; [by intros [_ ?]|]. rewrite Kx, E. intros [?|[= -> ->]]; [done|lia].
      * intros i. rewrite elem_of_app, list_elem_of_singleton, length_app. cbn. intros [H| ->]; [apply B in H|]; lia.
  - split.
    + intros id i e. rewrite lookup_insert_Some. intros [[<- [= <- <-]]|[Hne H]].
      * split_and!; try done. intros Hph e' He' Hk He'id. apply in_app_iff in He' as [He'|[<-|[]]]; [|done].
        by destruct (N _ _ E He' Hk).
      * pose proof (K _ _ _ H) as (H1 & H2 & H3 & H4). split_and!; [by apply lookup_app_l_Some|done|done|].
        intros Hph e' He' Hk He'id. apply in_app_iff in He' as [He'|[<-|[]]]; [eauto|congruence].
    + intros id e. rewrite lookup_insert_None. intros [Hno Hne] He Hk.
      apply in_app_iff in He as [He|[<-|[]]]; [eauto|congruence].
    + intros i e H. apply lookup_snoc_cases in H as [[H Hi]|[-> ->]].
      * rewrite (D _ _ H), lookup_insert_Some. split.
        -- intros [Hf|Hf]; [by left|]. right. right. split; [|done]. intros Eq. rewrite <- Eq, E in Hf. done.
        -- intros [Hf|[[_ [= Hf _]]|[Hne Hf]]]; [by left|lia|by right].
      * rewrite lookup_insert_eq. split; [by right|done].
    + intros i H. rewrite length_app. cbn. apply B in H. lia.
  - split.
    + intros id i e H. pose proof (K _ _ _ H) as (H1 & H2 & H3 & H4).
      split_and!; [by apply lookup_app_l_Some|done|done|].
      intros Hph e' He' Hk He'id. apply in_app_iff in He' as [He'|[<-|[]]]; [eauto|congruence].
    + intros id e Hno He Hk. apply in_app_iff in He as [He|[<-|[]]]; [eauto|congruence].
    + intros i e H. apply lookup_snoc_cases in H as [[H Hi]|[-> ->]]; [exact (D _ _ H)|]. split; [by left|done].
    + intros i H. rewrite length_app. cbn. apply B in H. lia.
Qed.
Lemma dedupe_loop l :
  let '(kept, drop_idx) := List.fold_left dedupe_step (imap pair l) (∅, []) in dedupe_inv l kept drop_idx.
Proof.
  induction l as [|x l IH] using rev_ind.
  { cbn. split.
    - intros id i e H. by rewrite lookup_empty in H.
    - by intros id e _ [].
    - intros i e H. by rewrite lookup_nil in H.
    - intros i H. by apply not_elem_of_nil in H. }
  rewrite imap_app, List.fold_left_app. cbn [imap List.fold_left]. rewrite Nat.add_0_r.
  destruct (List.fold_left dedupe_step (imap pair l) (∅, [])) as [kept drop_idx].
  exact (dedupe_step_inv l x kept drop_idx IH).
Qed.

Lemma imap_pair_nodup (l : list SessionEntry) : base.NoDup (imap pair l).
Proof.
  apply (NoDup_fmap_1 fst). rewrite fmap_imap. cbn.
  rewrite (imap_ext _ (fun i _ => i)) by done. rewrite (imap_seq_0 l (fun i => i)), list_fmap_id.
  apply NoDup_seq.
Qed.
Lemma imap_pair_snd (l : list SessionEntry) : List.map snd (imap pair l) = l.
Proof. change (snd <$> imap pair l = l). rewrite fmap_imap. rewrite (imap_ext _ (const id)) by done. by rewrite imap_const, list_fmap_id. Qed.

Lemma filter_map_snd {A B} (q : B -> bool) (z : list (A * B)) :
  List.filter q (List.map snd z) = List.map snd (List.filter (fun x => q (snd x)) z).
Proof. induction z as [|[a b] z IH]; cbn; [done|]. destruct (q b); cbn; by rewrite IH. Qed.
Lemma filter_filter_sub {A} (q p : A -> bool) l : (forall x, In x l -> q x = true -> p x = true) ->
  List.filter q (List.filter p l) = List.filter q l.
Proof.
  induction l as [|x l IH]; intros H; cbn; [done|]. destruct (p x) eqn:P; cbn.
  - rewrite IH; [done|]. intros y Hy. apply H. by right.
  - destruct (q x) eqn:Q; [rewrite (H x) in P; [done|by left|done]|]. apply IH. intros y Hy. apply H. by right.
Qed.
Lemma dedupe_retained l : fst (dedupe_tool_entries l) = retained (dropped_results l) l.
Proof.
  unfold dedupe_tool_entries, retained. destruct (dropped_results l) as [|i d]; [|done]. cbn [is_empty fst].
  rewrite (filter_ext_In _ (fun _ => true)), filter_true; [by rewrite imap_pair_snd|].
  intros x _. by rewrite bool_decide_true by apply not_elem_of_nil.
Qed.
Lemma dedupe_facts l : exists kept, dedupe_inv l kept (dropped_results l).
Proof.
  unfold dropped_results. pose proof (dedupe_loop l) as H.
  destruct (List.fold_left dedupe_step (imap pair l) (∅, [])) as [kept d]. by exists kept.
Qed.
Lemma in_retained d l e : In e (retained d l) <-> exists i, l !! i = Some e /\ i ∉ d.
Proof.
  unfold retained. rewrite in_map_iff. split.
  - intros ([i e'] & <- & H). apply filter_In in H as [H Hd]. apply in_imap_pair in H.
    apply bool_decide_eq_true in Hd. by exists i.
  - intros (i & H & Hd). exists (i, e). split; [done|]. apply filter_In. split; [by apply in_imap_pair|].
    by apply bool_decide_eq_true.
Qed.

(** What is left when repeated results are dropped. *)
Lemma dedupe_others l : other_entries (fst (dedupe_tool_entries l)) = other_entries l.
Proof.
  rewrite dedupe_retained. destruct (dedupe_facts l) as [kept [K N D B]].
  unfold retained, other_entries. rewrite filter_map_snd, filter_filter_sub.
  - by rewrite <- (filter_map_snd (fun e => negb (is_tool e))), imap_pair_snd.
  - intros [i e] He Ht. apply in_imap_pair in He. apply bool_decide_eq_true, (D _ _ He). left.
    apply negb_true_iff in Ht. unfold keyed_result. cbn in Ht. by rewrite Ht.
Qed.
Lemma dedupe_in l e : In e (fst (dedupe_tool_entries l)) -> In e l.
Proof.
  rewrite dedupe_retained, in_retained. intros (i & H & _). by apply list_elem_of_lookup_2, list_elem_of_In in H.
Qed.
Lemma dedupe_unique l :
  base.NoDup (List.map se_tool_call_id (List.filter keyed_result (fst (dedupe_tool_entries l)))).
Proof.
  rewrite dedupe_retained. destruct (dedupe_facts l) as [kept [K N D B]].
  unfold retained. rewrite filter_map_snd, List.map_map.
  apply (NoDup_fmap_2_strong (fun x : nat * SessionEntry => se_tool_call_id (snd x))).
  - intros [i e] [j e'] H H'. rewrite list_elem_of_In in H, H'.
    apply filter_In in H as [H Hk], H' as [H' Hk']. apply filter_In in H as [H Hd], H' as [H' Hd'].
    apply in_imap_pair in H, H'. apply bool_decide_eq_true in Hd, Hd'. cbn in *.
    apply (D _ _ H) in Hd as [?|Hd]; [congruence|]. apply (D _ _ H') in Hd' as [?|Hd']; [congruence|].
    intros E. rewrite E in Hd. congruence.
  - apply NoDup_ListNoDup. do 2 apply List.NoDup_filter. apply NoDup_ListNoDup, imap_pair_nodup.
Qed.
(** A dropped result stands for one that is kept, and a placeholder is kept
    only when the journal has no real result. *)
Lemma dedupe_keeps l e : In e l -> keyed_result e = true ->
  exists e', In e' (fst (dedupe_tool_entries l)) /\ answers (se_tool_call_id e) e' = true
    /\ (is_placeholder e' = true -> is_placeholder e = true).
Proof.
  intros He Hk. rewrite dedupe_retained. destruct (dedupe_facts l) as [kept [K N D B]].
  destruct (kept !! se_tool_call_id e) as [[i e']|] eqn:E; [|by destruct (N _ _ E He Hk)].
  destruct (K _ _ _ E) as (H1 & H2 & H3 & H4). exists e'. split_and!.
  - apply in_retained. exists i. split; [done|]. apply (D _ _ H1). right. congruence.
  - unfold answers. rewrite H3, String.eqb_refl, andb_true_r. by apply andb_true_iff in H2 as [? _].
  - intros Hp. by apply H4.
Qed.
