(* ===== verification/SessionHealProps.v ===== *)
(** A session journal as the agent writes it (every call id used once, every
    result after its call and owned by the same run) is healed on load to a
    conversation a provider accepts: each call answered exactly once, before
    anything else is said, and nothing answered that was not asked.  When a call id is used twice, the
    first real result is the one that is kept. *)
From S2P Require Import Prelude Json SessionEntry SessionRepair SessionRepairProps.

#[local] Arguments result_ids : simpl never.

(** * What a provider accepts

    Entries of other types are not sent ([entries_to_agent_messages]). *)
Definition is_message (e : SessionEntry) : bool :=
  has_type ENTRY_TYPE_USER e || has_type ENTRY_TYPE_SYSTEM e || is_assistant e || is_tool e.
Fixpoint remove_id (id : string) (l : list string) : list string :=
  match l with
  | [] => []
  | x :: r => if x =?s id then r else x :: remove_id id r
  end.
(** [open] are the calls of the last message that wait for their result. *)
Fixpoint accepted (open : list string) (l : list SessionEntry) : bool :=
  match l with
  | [] => is_empty open
  | e :: r =>
      if is_tool e then
        existsb (String.eqb (se_tool_call_id e)) open && accepted (remove_id (se_tool_call_id e) open) r
      else if is_message e then
        is_empty open && accepted (if is_assistant e then call_ids e else []) r
      else accepted open r
  end.

(** * Journals as the agent writes them *)
Definition calls_of (e : SessionEntry) : list string := if is_assistant e then call_ids e else [].
Definition all_calls (l : list SessionEntry) : list string := List.flat_map calls_of l.
Fixpoint called (seen l : list SessionEntry) : Prop :=
  match l with
  | [] => True
  | e :: r =>
      (is_tool e = true -> exists A, In A seen /\ declares (se_tool_call_id e) A = true /\ same_owner A e = true)
      /\ called (seen ++ [e]) r
  end.
Record journal_ok (l : list SessionEntry) : Prop := {
  jo_unique : base.NoDup (all_calls l);
  jo_named : ~ In "" (all_calls l);
  jo_called : called [] l
}.

Lemma calls_of_declares id e : In id (calls_of e) <-> declares id e = true.
Proof.
  rewrite declares_assistant. unfold calls_of. destruct (is_assistant e); cbn; [|easy]. tauto.
Qed.
Lemma all_calls_perm l l' : l ≡ₚ l' -> all_calls l ≡ₚ all_calls l'.
Proof. unfold all_calls. intros H. by rewrite H. Qed.
Lemma called_split seen l : called seen l -> forall a r b, l = a ++ r :: b -> is_tool r = true ->
  exists A, In A (seen ++ a) /\ declares (se_tool_call_id r) A = true /\ same_owner A r = true.
Proof.
  intros H a. revert seen l H. induction a as [|x a IH]; intros seen l H r b -> Hr; cbn in H; destruct H as [H1 H2].
  - rewrite List.app_nil_r. auto.
  - destruct (IH _ _ H2 r b eq_refl Hr) as (A & HA & ?). exists A. rewrite <- List.app_assoc in HA. done.
Qed.

(** Dropping entries that declare nothing. *)
Lemma called_filter {I} (P : I * SessionEntry -> bool) : forall (z : list (I * SessionEntry)) seen seen',
  (forall A id, In A seen -> declares id A = true -> In A seen') ->
  (forall x, In x z -> P x = false -> calls_of (snd x) = []) ->
  called seen (List.map snd z) -> called seen' (List.map snd (List.filter P z)).
Proof.
  induction z as [|[i e] z IH]; intros seen seen' Hs HP Hc; cbn in *; [done|]. destruct Hc as [Hc1 Hc2].
  destruct (P (i, e)) eqn:Pe; cbn.
  - split.
    + intros Ht. destruct (Hc1 Ht) as (A & HA & Hd & Ho). eauto.
    + apply (IH (seen ++ [e])); [|auto|done]. intros A id HA Hd. apply in_app_iff in HA as [HA|HA];
        apply in_app_iff; [left; eauto|by right].
  - apply (IH (seen ++ [e])); [|auto|done]. intros A id HA Hd. apply in_app_iff in HA as [HA|[<-|[]]]; [eauto|].
    apply calls_of_declares in Hd. specialize (HP (i, e) (or_introl eq_refl) Pe). cbn in HP. by rewrite HP in Hd.
Qed.
Lemma all_calls_filter {I} (P : I * SessionEntry -> bool) (z : list (I * SessionEntry)) :
  (forall x, In x z -> P x = false -> calls_of (snd x) = []) ->
  all_calls (List.map snd (List.filter P z)) = all_calls (List.map snd z).
Proof.
  induction z as [|[i e] z IH]; intros HP; cbn; [done|]. unfold all_calls in *.
  destruct (P (i, e)) eqn:Pe; cbn; rewrite IH by (intros; apply HP; [by right|done]); [done|].
  specialize (HP (i, e) (or_introl eq_refl) Pe). cbn in HP. by rewrite HP.
Qed.
Lemma journal_ok_filter {I} (P : I * SessionEntry -> bool) (z : list (I * SessionEntry)) :
  (forall x, In x z -> P x = false -> calls_of (snd x) = []) ->
  journal_ok (List.map snd z) -> journal_ok (List.map snd (List.filter P z)).
Proof.
  intros HP [U N C]. split; [by rewrite all_calls_filter|by rewrite all_calls_filter|].
  by apply (called_filter P z []).
Qed.
Lemma strip_ok l : journal_ok l -> journal_ok (fst (strip_empty_assistants l)).
Proof.
  intros H. unfold strip_empty_assistants. cbn.
  rewrite <- (imap_pair_snd l), filter_map_snd. apply journal_ok_filter; [|by rewrite imap_pair_snd].
  intros [i e] _ He. cbn in *. apply negb_false_iff in He. unfold empty_assistant in He.
  rewrite !andb_true_iff, is_empty_true in He. destruct He as [[HA _] He].
  unfold calls_of, call_ids, is_assistant. by rewrite HA, He.
Qed.
Lemma dedupe_ok l : journal_ok l -> journal_ok (fst (dedupe_tool_entries l)).
Proof.
  intros H. rewrite dedupe_retained. unfold retained. apply journal_ok_filter; [|by rewrite imap_pair_snd].
  intros [i e] He Hd. apply in_imap_pair in He. apply bool_decide_eq_false in Hd.
  destruct (dedupe_facts l) as [kept [K N D B]]. cbn in *. unfold calls_of.
  destruct (is_assistant e) eqn:A; [|done]. exfalso. apply Hd, (D _ _ He). left. unfold keyed_result.
  destruct (is_tool e) eqn:T; [|done]. by rewrite tool_no_assistant in A.
Qed.
Lemma called_named l : journal_ok l -> List.filter keyed_result l = List.filter is_tool l.
Proof.
  intros [U N C]. apply filter_ext_In. intros r Hr. unfold keyed_result. destruct (is_tool r) eqn:T; [|done].
  apply in_split in Hr as (a & b & ->).
  destruct (called_split [] _ C a r b eq_refl T) as (A & HA & Hd & _). cbn in HA |- *.
  apply negb_true_iff, String.eqb_neq. intros E. rewrite E in Hd. apply N.
  apply in_flat_map. exists A. split; [apply in_app_iff; by left|]. by apply calls_of_declares.
Qed.
Lemma dedupe_results_unique l : journal_ok l -> base.NoDup (result_ids (fst (dedupe_tool_entries l))).
Proof.
  intros H. unfold result_ids. rewrite <- called_named by (by apply dedupe_ok). apply dedupe_unique.
Qed.

(** * Settled journals

    Behind every boundary the window answers exactly the calls made there. *)
Fixpoint settled (l : list SessionEntry) : Prop :=
  match l with
  | [] => True
  | e :: r => (boundary e = true -> result_ids (window r) ≡ₚ calls_of e) /\ settled r
  end.
Lemma result_ids_cons_tool e l : is_tool e = true -> result_ids (e :: l) = se_tool_call_id e :: result_ids l.
Proof. unfold result_ids. cbn. by intros ->. Qed.
Lemma result_ids_cons_other e l : is_tool e = false -> result_ids (e :: l) = result_ids l.
Proof. unfold result_ids. cbn. by intros ->. Qed.
Lemma remove_id_perm id l : In id l -> l ≡ₚ id :: remove_id id l.
Proof.
  induction l as [|x l IH]; [done|]. cbn. intros [->|H]; [by rewrite String.eqb_refl|].
  destruct (String.eqb_spec x id) as [->|]; [done|]. rewrite Permutation_swap. constructor. auto.
Qed.
Lemma message_boundary e : is_message e = true -> is_tool e = false -> boundary e = true.
Proof.
  unfold is_message. intros H T. rewrite T, orb_false_r, !orb_true_iff in H. unfold is_assistant in H.
  rewrite !has_type_eq in H. by destruct H as [[-> | ->] | ->].
Qed.
Lemma other_no_assistant e : is_message e = false -> is_assistant e = false.
Proof. unfold is_message. rewrite !orb_false_iff. tauto. Qed.
Lemma settled_accepted l : forall open, settled l -> result_ids (window l) ≡ₚ open -> accepted open l = true.
Proof.
  induction l as [|e l IH]; intros open Hs Ho; cbn in *.
  - by apply Permutation_nil in Ho as ->.
  - destruct Hs as [He Hs]. destruct (is_tool e) eqn:T.
    + rewrite tool_no_boundary in Ho by done. cbv iota in Ho. rewrite result_ids_cons_tool in Ho by done.
      apply andb_true_iff. assert (Hin : In (se_tool_call_id e) open) by (rewrite <- Ho; by left).
      split; [by apply existsb_eqb_in|]. apply IH; [done|].
      rewrite (remove_id_perm _ _ Hin) in Ho. by apply Permutation_cons_inv in Ho.
    + destruct (is_message e) eqn:M.
      * pose proof (message_boundary _ M T) as B. rewrite B in Ho, He. cbn in Ho.
        apply Permutation_nil in Ho as ->. cbn. apply IH; [done|]. by apply He.
      * destruct (ends_tool_window (se_entry_type e)) eqn:B; cbn in *.
        -- apply Permutation_nil in Ho as ->. apply IH; [done|]. rewrite He by done. unfold calls_of.
           by rewrite other_no_assistant.
        -- rewrite result_ids_cons_other in Ho by done. by apply IH.
Qed.
Lemma settled_tools ps l : forallb is_tool ps = true -> settled l -> settled (ps ++ l).
Proof.
  induction ps as [|p ps IH]; [done|]. cbn. intros [Hp Hps]%andb_true_iff Hl. split; [|auto].
  intros B. rewrite tool_no_boundary in B by done. done.
Qed.

(** * The repair settles *)

(** [due S l]: each result of [l] is called for earlier in [l], or is one of
    the results [S] awaited and lies in the window of [l]. *)
Record due (S : list string) (l : list SessionEntry) : Prop := {
  due_calls : base.NoDup (all_calls l);
  due_named : ~ In "" (all_calls l);
  due_results : base.NoDup (result_ids l);
  due_from a r b : l = a ++ r :: b -> is_tool r = true ->
    (In (se_tool_call_id r) S /\ existsb boundary a = false)
    \/ exists A, In A a /\ declares (se_tool_call_id r) A = true /\ same_owner A r = true
}.
Lemma answers_self r : is_tool r = true -> answers (se_tool_call_id r) r = true.
Proof. unfold answers. intros ->. by rewrite String.eqb_refl. Qed.
Lemma result_position id l a r b : base.NoDup (result_ids l) -> l = a ++ r :: b -> answers id r = true ->
  forall a' r' b', l = a' ++ r' :: b' -> answers id r' = true -> a' = a.
Proof.
  intros Hnd -> Hr a' r' b' E Hr'.
  apply answers_tool in Hr as [Ht Hid], Hr' as [Ht' Hid'].
  apply split_cases in E as [(-> & _)|[(m & -> & ->)|(m & -> & ->)]]; [done|exfalso..].
  - rewrite result_ids_app, result_ids_cons_tool, result_ids_app, result_ids_cons_tool in Hnd by done.
    apply NoDup_app in Hnd as (_ & _ & Hnd). apply NoDup_cons in Hnd as [Hnd _]. apply Hnd.
    apply elem_of_app. right. rewrite Hid, Hid'. by left.
  - rewrite <- List.app_assoc in Hnd. cbn in Hnd.
    rewrite result_ids_app, result_ids_cons_tool, result_ids_app, result_ids_cons_tool in Hnd by done.
    apply NoDup_app in Hnd as (_ & _ & Hnd). apply NoDup_cons in Hnd as [Hnd _]. apply Hnd.
    apply elem_of_app. right. rewrite Hid, Hid'. by left.
Qed.
(** In a journal with unique calls and results nothing shadows a result. *)
Lemma unshadowed A id pre mid r b : declares id A = true -> answers id r = true ->
  base.NoDup (all_calls (pre ++ A :: mid ++ r :: b)) -> base.NoDup (result_ids (pre ++ A :: mid ++ r :: b)) ->
  forallb (clear_of id) mid = true.
Proof.
  intros HA Hr Hc Hd. apply forallb_forall. intros x Hx. unfold clear_of. apply andb_true_iff.
  split; apply negb_true_iff, not_true_is_false.
  - intros Hdx. apply calls_of_declares in HA, Hdx. unfold all_calls in Hc. rewrite List.flat_map_app in Hc.
    apply NoDup_app in Hc as (_ & _ & Hc). cbn in Hc. apply NoDup_app in Hc as (_ & Hc & _).
    apply list_elem_of_In in HA. apply (Hc _ HA). rewrite List.flat_map_app. apply elem_of_app. left.
    apply list_elem_of_In, in_flat_map. eauto.
  - intros Hax. apply in_split in Hx as (m1 & m2 & ->).
    assert (E : pre ++ A :: (m1 ++ x :: m2) ++ r :: b = (pre ++ A :: m1) ++ x :: (m2 ++ r :: b))
      by (rewrite <- !List.app_assoc; reflexivity).
    pose proof (result_position id _ _ x _ Hd E Hax (pre ++ A :: m1 ++ x :: m2) r b) as P.
    specialize (P (List.app_assoc pre (A :: m1 ++ x :: m2) (r :: b)) Hr).
    apply (f_equal (@List.length _)) in P. rewrite !length_app in P. cbn in P. rewrite length_app in P. cbn in P. lia.
Qed.

Lemma due_other S e l : is_assistant e = false -> due S (e :: l) -> due (if boundary e then [] else S) l.
Proof.
  intros HA [C N R F]. split.
  - cbn in C. unfold calls_of in C. by rewrite HA in C.
  - intros H. apply N. cbn. apply in_app_iff. by right.
  - destruct (is_tool e) eqn:T; [|by rewrite result_ids_cons_other in R].
    rewrite result_ids_cons_tool in R by done. by apply NoDup_cons in R as [_ R].
  - intros a r b -> Hr. destruct (F (e :: a) r b eq_refl Hr) as [[HS Hb]|(A & [<-|HAin] & Hd & Ho)].
    + cbn in Hb. apply orb_false_iff in Hb as [-> Hb]. by left.
    + apply declares_assistant in Hd as [Hd _]. congruence.
    + right. eauto.
Qed.
Lemma due_assistant S e l : is_assistant e = true -> due S (e :: l) -> due (call_ids e) (pulls e l).
Proof.
  intros HA [C N R F].
  assert (Hperm : pulls e l ≡ₚ l) by apply pulls_perm.
  assert (R' : base.NoDup (result_ids l)).
  { rewrite result_ids_cons_other in R; [done|]. destruct (is_tool e) eqn:T; [|done].
    by rewrite tool_no_assistant in HA. }
  assert (Rp : base.NoDup (result_ids (pulls e l))) by (by rewrite (result_ids_perm _ _ Hperm)).
  split; [| |done|].
  - rewrite (all_calls_perm _ _ Hperm). cbn in C. by apply NoDup_app in C as (_ & _ & C).
  - intros H. apply N. cbn. apply in_app_iff. right. apply list_elem_of_In. rewrite <- (all_calls_perm _ _ Hperm).
    by apply list_elem_of_In.
  - intros a' r b' E Hr. pose proof (answers_self r Hr) as Hra.
    assert (Hin : In r l).
    { apply list_elem_of_In. rewrite <- Hperm, E. apply elem_of_app. right. by left. }
    apply in_split in Hin as (a & b & ->).
    assert (Hnamed : se_tool_call_id r <> "").
    { intros Hn. destruct (F (e :: a) r b eq_refl Hr) as [[_ Hb]|(A & HAin & Hd & _)].
      - cbn in Hb. by rewrite assistant_boundary in Hb.
      - apply N. apply in_flat_map. exists A. split; [|apply calls_of_declares; by rewrite <- Hn].
        destruct HAin as [<-|HAin]; [by left|right; apply in_app_iff; by left]. }
    destruct (F (e :: a) r b eq_refl Hr) as [[_ Hb]|(A & [<-|HAin] & Hd & Ho)].
    + cbn in Hb. by rewrite assistant_boundary in Hb.
    + left. split; [exact (proj2 (proj1 (declares_assistant _ _) Hd))|].
      destruct (pulls_attach e _ r (a ++ r :: b) Hra Hnamed Hd) as (mid & tail & Ep & _ & Hb).
      { exists a, b. split_and!; [done| |done]. by apply (unshadowed e (se_tool_call_id r) [] a r b). }
      by rewrite (result_position _ _ _ _ _ Rp Ep Hra _ _ _ E Hra).
    + right. apply in_split in HAin as (p & q & ->). rewrite <- List.app_assoc in *. cbn in *.
      destruct (pulls_pass e A (se_tool_call_id r) r (p ++ A :: q ++ r :: b) (other_entries p) Hd Hra)
        as (p' & l' & Ep & _ & mid & tail & -> & _ & _).
      { exists p, (q ++ r :: b). split_and!; [done|done|]. exists q, b. split_and!; [done| |done].
        apply (unshadowed A (se_tool_call_id r) p q r b); [done|done| |done]. by apply NoDup_app in C as (_ & _ & C). }
      exists A. split; [|done]. change (A :: mid ++ r :: tail) with ((A :: mid) ++ r :: tail) in Ep.
      rewrite List.app_assoc in Ep. rewrite (result_position _ _ _ _ _ Rp Ep Hra _ _ _ E Hra).
      apply in_app_iff. right. by left.
Qed.

Lemma due_window S l : due S l -> forall id, In id (result_ids (window l)) -> In id S.
Proof.
  intros [_ _ _ F] id H. apply in_result_ids in H as (r & Hr & Ha).
  destruct (window_split l) as (rest & E & Hb). apply in_split in Hr as (a & b & Ew).
  rewrite Ew, <- List.app_assoc in E. cbn in E. apply answers_tool in Ha as [Ht <-].
  destruct (F a r (b ++ rest) E Ht) as [[HS _]|(A & HA & Hd & _)]; [done|].
  exfalso. rewrite Ew, existsb_app in Hb. apply orb_false_iff in Hb as [Hb _].
  rewrite existsb_false in Hb. specialize (Hb A HA). rewrite assistant_boundary in Hb; [done|].
  by apply declares_assistant in Hd as [? _].
Qed.
Lemma fills_ids e l : is_assistant e = true ->
  result_ids (fills e l) = List.filter (fun id => negb (existsb (String.eqb id) (result_ids (window l)))) (call_ids e).
Proof.
  intros HA. unfold fills, unanswered, call_ids, result_ids at 1. rewrite HA.
  induction (se_tool_calls e) as [|tc calls IH]; cbn; [done|].
  destruct (existsb (String.eqb (tc_id tc)) (result_ids (window l))); cbn; [done|]. by rewrite IH.
Qed.
Lemma all_calls_at a A b : base.NoDup (all_calls (a ++ A :: b)) -> is_assistant A = true -> base.NoDup (call_ids A).
Proof.
  unfold all_calls. rewrite List.flat_map_app. intros H HA. apply NoDup_app in H as (_ & _ & H). cbn in H.
  apply NoDup_app in H as (H & _ & _). unfold calls_of in H. by rewrite HA in H.
Qed.
Lemma settle_step e l : is_assistant e = true -> base.NoDup (call_ids e) -> base.NoDup (result_ids (window l)) ->
  (forall id, In id (result_ids (window l)) -> In id (call_ids e)) ->
  result_ids (fills e l ++ window l) ≡ₚ call_ids e.
Proof.
  intros HA Hc Hw Hin. rewrite result_ids_app, fills_ids by done. apply NoDup_Permutation; [|done|].
  - apply NoDup_app. split_and!; [|intros id|done].
    + apply NoDup_ListNoDup. apply List.NoDup_filter. by apply NoDup_ListNoDup.
    + rewrite !list_elem_of_In, filter_In, negb_true_iff. intros [_ Hn] Hid.
      apply existsb_eqb_in in Hid. congruence.
  - intros id. rewrite elem_of_app, !list_elem_of_In, filter_In, negb_true_iff. split; [intros [[? _]|?]; auto|].
    intros H. destruct (existsb (String.eqb id) (result_ids (window l))) eqn:X; [|auto].
    right. by apply existsb_eqb_in.
Qed.
Lemma window_results_unique l : base.NoDup (result_ids l) -> base.NoDup (result_ids (window l)).
Proof.
  destruct (window_split l) as (rest & E & _). rewrite E at 1. rewrite result_ids_app.
  by intros (H & _ & _)%NoDup_app.
Qed.
Lemma repair_settles : forall n S l, (List.length l <= n)%nat -> due S l -> settled (fill (attach n l)).
Proof.
  induction n as [|n IH]; intros S [|e l] Hn Hdue; cbn in Hn; try lia; [done..|]. cbn [attach fill].
  cbn [settled]. rewrite window_filled, window_attach.
  assert (Hn' : (List.length (pulls e l) <= n)%nat) by (rewrite (Permutation_length (pulls_perm e l)); lia).
  assert (Hsplit : settled (fills e (attach n (pulls e l)) ++ fill (attach n (pulls e l)))
                   <-> settled (fill (attach n (pulls e l)))).
  { split; [|apply settled_tools, fills_tools].
    pose proof (fills_tools e (attach n (pulls e l))) as Ht. revert Ht.
    generalize (fills e (attach n (pulls e l))) as ps. induction ps as [|p ps IHp]; [done|].
    cbn. intros [_ Ht]%andb_true_iff [_ H]. auto. }
  destruct (is_assistant e) eqn:HA.
  - pose proof (due_assistant S e l HA Hdue) as Hd. split; [|apply Hsplit; by eapply IH].
    intros _. unfold calls_of. rewrite HA. rewrite <- (window_attach n (pulls e l)).
    apply settle_step; [done| | |].
    + destruct Hdue as [C _ _ _]. by apply (all_calls_at [] e l).
    + rewrite window_attach. apply window_results_unique, Hd.
    + rewrite window_attach. by apply due_window.
  - pose proof (due_other S e l HA Hdue) as Hd. unfold pulls, fills in *. rewrite HA in *.
    split; [|cbn; by eapply IH]. intros B. rewrite B in Hd. unfold calls_of. rewrite HA. cbn.
    destruct (result_ids (window l)) as [|id ids] eqn:W; [done|].
    destruct (due_window [] l Hd id); rewrite W; by left.
Qed.

(** * Loading *)
Lemma filter_comm {A} (f g : A -> bool) l : List.filter f (List.filter g l) = List.filter g (List.filter f l).
Proof.
  induction l as [|x l IH]; [done|]. cbn. destruct (f x) eqn:F, (g x) eqn:G; cbn; rewrite ?F, ?G; congruence.
Qed.
Lemma journal_due l : journal_ok l -> base.NoDup (result_ids l) -> due [] l.
Proof.
  intros [U N C] R. split; [done..|]. intros a r b E Hr. right.
  destruct (called_split [] l C a r b E Hr) as (A & HA & ?). by exists A.
Qed.
Lemma strip_results l : List.filter is_tool (fst (strip_empty_assistants l)) = List.filter is_tool l.
Proof.
  cbn. apply filter_filter_sub. intros e _ T. unfold empty_assistant.
  by rewrite tool_no_assistant.
Qed.
Lemma heal_spec l :
  heal l = fill (attach (List.length (fst (dedupe_tool_entries (fst (strip_empty_assistants l)))))
                   (fst (dedupe_tool_entries (fst (strip_empty_assistants l))))).
Proof. unfold heal. by rewrite repair_spec. Qed.
Lemma fill_in e l : In e l -> In e (fill l).
Proof.
  induction l as [|x l IH]; [done|]. cbn [fill]. intros [->|H]; [by left|]. right. apply in_app_iff. right. auto.
Qed.

(** C8: a journal as the agent writes it is loaded as a conversation that a
    provider accepts: every call answered exactly once, directly behind the
    message that made it, and no result without its call. *)
Theorem healed_session_is_accepted entries :
  journal_ok entries -> accepted [] (heal entries) = true.
Proof.
  intros H. rewrite heal_spec. set (l := fst (dedupe_tool_entries _)).
  assert (Hl : journal_ok l) by (by apply dedupe_ok, strip_ok).
  assert (Hd : due [] l) by (apply journal_due; [done|]; by apply dedupe_results_unique, strip_ok).
  apply settled_accepted; [by eapply repair_settles|]. rewrite window_fill, window_attach.
  destruct (result_ids (window l)) as [|id ids] eqn:W; [done|].
  destruct (due_window [] l Hd id); rewrite W; by left.
Qed.

(** Loading loses nothing: what is not a tool result stays, in its order,
    but for assistant entries without content and calls; a result without an id
    stays; and for every other result one with its id stays, which is a
    placeholder only if it was one.  This holds of any journal. *)
Theorem loading_loses_nothing entries :
  other_entries (heal entries) = List.filter (fun e => negb (empty_assistant e)) (other_entries entries)
  /\ forall r, In r entries -> is_tool r = true ->
     if keyed_result r then
       exists r', In r' (heal entries) /\ answers (se_tool_call_id r) r' = true
         /\ (is_placeholder r' = true -> is_placeholder r = true)
     else In r (heal entries).
Proof.
  rewrite heal_spec. set (s := fst (strip_empty_assistants entries)). set (l := fst (dedupe_tool_entries s)).
  assert (Hkeep : forall e, In e l -> In e (fill (attach (List.length l) l))).
  { intros e He. apply fill_in, list_elem_of_In. rewrite attach_perm. by apply list_elem_of_In. }
  split.
  - rewrite fill_others, attach_others. subst l. rewrite dedupe_others. subst s. apply filter_comm.
  - intros r Hr Ht. assert (Hs : In r s).
    { assert (In r (List.filter is_tool s)) as Hf by (subst s; rewrite strip_results; by apply filter_In).
      by apply filter_In in Hf as [? _]. }
    destruct (keyed_result r) eqn:K.
    + destruct (dedupe_keeps s r Hs K) as (r' & Hr' & Ha & Hp). eauto.
    + apply Hkeep. subst l. rewrite dedupe_retained. destruct (dedupe_facts s) as [kept [_ _ D _]].
      apply list_elem_of_In, list_elem_of_lookup in Hs as (i & Hi). apply in_retained. exists i.
      split; [done|]. apply (D _ _ Hi). by left.
Qed.

(** ** A reused id *)

(** The first result of [id] that is no placeholder is the one that is kept. *)
Lemma dedupe_persists id i r : is_placeholder r = false -> forall zs kept d, kept !! id = Some (i, r) ->
  fst (List.fold_left dedupe_step zs (kept, d)) !! id = Some (i, r).
Proof.
  intros Hp. induction zs as [|[j e] zs IH]; intros kept d Hk; [done|]. cbn [List.fold_left]. unfold dedupe_step at 2.
  destruct (keyed_result e); [|by apply IH].
  destruct (decide (se_tool_call_id e = id)) as [->|Hne].
  - rewrite Hk, Hp. by apply IH.
  - destruct (kept !! se_tool_call_id e) as [[k f]|]; [destruct (_ && _)|]; apply IH; by rewrite ?lookup_insert_ne.
Qed.
Lemma answers_keyed id r : id <> "" -> answers id r = true -> keyed_result r = true.
Proof.
  intros Hid Hr. apply answers_tool in Hr as [Ht <-]. unfold keyed_result. rewrite Ht. cbn.
  by rewrite (proj2 (String.eqb_neq _ _) Hid).
Qed.
Lemma dedupe_first a r b id : id <> "" -> answers id r = true -> is_placeholder r = false ->
  (forall e, In e a -> answers id e = true -> is_placeholder e = true) ->
  exists kept, dedupe_inv (a ++ r :: b) kept (dropped_results (a ++ r :: b))
    /\ kept !! id = Some (List.length a, r).
Proof.
  intros Hid Hr Hp Ha. pose proof (answers_keyed id r Hid Hr) as Hk. apply answers_tool in Hr as Hr'.
  destruct Hr' as [Ht Hi]. unfold dropped_results. pose proof (dedupe_loop (a ++ r :: b)) as H.
  pose proof (dedupe_loop a) as H1. rewrite imap_app in *. rewrite fold_left_app in *. cbn [imap List.fold_left] in *.
  destruct (List.fold_left dedupe_step (imap pair a) (∅, [])) as [kept d]. destruct H1 as [K N _ _].
  assert (Hstep : exists d', dedupe_step (kept, d) (List.length a, r) = (<[id := (List.length a, r)]> kept, d')).
  { unfold dedupe_step. rewrite Hk, Hi. destruct (kept !! id) as [[j e]|] eqn:E; [|by eexists].
    destruct (K _ _ _ E) as (Hj & He & Hie & _). rewrite (Ha e), Hp; [by eexists| |].
    - by apply list_elem_of_lookup_2, list_elem_of_In in Hj.
    - unfold keyed_result in He. apply andb_true_iff in He as [He _]. unfold answers. by rewrite He, Hie, String.eqb_refl. }
  destruct Hstep as [d' Hstep]. unfold compose in *. rewrite Nat.add_0_r in *. rewrite Hstep in *.
  match goal with |- context [List.fold_left dedupe_step ?zs ?st] =>
    pose proof (dedupe_persists id (List.length a) r Hp zs (<[id := (List.length a, r)]> kept) d'
                  (lookup_insert_eq _ _ _)) as P;
    destruct (List.fold_left dedupe_step zs st) as [kept' d''] end.
  by exists kept'.
Qed.
Lemma dedupe_only a r b id : id <> "" -> answers id r = true -> is_placeholder r = false ->
  (forall e, In e a -> answers id e = true -> is_placeholder e = true) ->
  List.filter (answers id) (fst (dedupe_tool_entries (a ++ r :: b))) = [r].
Proof.
  intros Hid Hr Hp Ha. destruct (dedupe_first a r b id Hid Hr Hp Ha) as (kept & [K N D B] & Hk).
  set (l := a ++ r :: b) in *.
  assert (Hall : forall x, In x (List.filter (answers id) (fst (dedupe_tool_entries l))) -> x = r).
  { intros x (Hx & Hax)%filter_In. rewrite dedupe_retained, in_retained in Hx. destruct Hx as (i & Hi & Hd).
    apply (D _ _ Hi) in Hd. rewrite (answers_keyed id x Hid Hax) in Hd. apply answers_tool in Hax as [_ Hix].
    rewrite Hix in Hd. destruct Hd as [?|Hd]; [done|]. rewrite Hk in Hd. by injection Hd as _ ->. }
  assert (Hin : In r (List.filter (answers id) (fst (dedupe_tool_entries l)))).
  { apply filter_In. split; [|done]. rewrite dedupe_retained. apply in_retained. exists (List.length a).
    assert (Hl : l !! List.length a = Some r) by by apply list_lookup_middle. split; [done|]. apply (D _ _ Hl).
    right. apply answers_tool in Hr as [_ ->]. done. }
  pose proof (dedupe_unique l) as Hu.
  assert (Hsub : List.filter (answers id) (fst (dedupe_tool_entries l))
    = List.filter (answers id) (List.filter keyed_result (fst (dedupe_tool_entries l)))).
  { symmetry. apply filter_filter_sub. intros x _. by apply answers_keyed. }
  rewrite Hsub in *. clear Hsub. revert Hu Hall Hin. generalize (List.filter keyed_result (fst (dedupe_tool_entries l))).
  intros ks Hu Hall Hin. assert (Hnd : base.NoDup (List.map se_tool_call_id (List.filter (answers id) ks))).
  { clear Hall Hin. induction ks as [|k ks IH]; [constructor|]. apply NoDup_cons in Hu as [Hk1 Hu]. cbn.
    destruct (answers id k); [|auto]. cbn. apply NoDup_cons. split; [|auto]. intros Hc. apply Hk1.
    apply list_elem_of_In, in_map_iff in Hc as (y & Ey & Hy). apply filter_In in Hy as [Hy _].
    rewrite <- Ey. apply list_elem_of_In. by apply in_map. }
  destruct (List.filter (answers id) ks) as [|x [|y zs]]; [done|by rewrite (Hall x (or_introl eq_refl))|].
  rewrite (Hall x (or_introl eq_refl)), (Hall y (or_intror (or_introl eq_refl))) in Hnd. cbn in Hnd.
  apply NoDup_cons in Hnd as [Hnd _]. exfalso. apply Hnd. left.
Qed.

(** A result stays before an assistant entry it comes before. *)
Definition comes_before (r A : SessionEntry) (l : list SessionEntry) : Prop :=
  exists x z, l = x ++ A :: z /\ In r x.
Lemma pull_before r A e l call : is_tool A = false -> comes_before r A l -> comes_before r A (pull e l call).
Proof.
  intros HA (x & z & E & Hr). destruct (pull_spec e l call) as [->|(mid & t & tail & E' & -> & _ & Ht & _)]; [by exists x, z|].
  apply answers_tool in Ht as [Ht _]. rewrite E in E'.
  apply split_cases in E' as [(_ & <- & _)|[(m & -> & ->)|(m & -> & ->)]]; [congruence|..].
  - exists (t :: x), (m ++ tail). split; [cbn; by rewrite <- List.app_assoc|by right].
  - exists (t :: mid ++ m), z. split; [cbn; by rewrite <- List.app_assoc|]. cbn. rewrite !in_app_iff in *. cbn in Hr. tauto.
Qed.
Lemma pulls_before r A e l : is_tool A = false -> comes_before r A l -> comes_before r A (pulls e l).
Proof.
  intros HA. unfold pulls. destruct (is_assistant e); [|done]. generalize (se_tool_calls e). intros calls.
  revert l. induction calls as [|c calls IH]; intros l H; [done|]. cbn. by apply IH, pull_before.
Qed.
Lemma attach_before r A : is_tool A = false -> forall n l, comes_before r A l -> comes_before r A (attach n l).
Proof.
  intros HA. induction n as [|n IH]; intros [|e l]; cbn [attach]; try done.
  intros ([|e' x] & z & E & Hr); [done|]. injection E as <- ->. destruct Hr as [->|Hr].
  - assert (Hin : In A (attach n (pulls r (x ++ A :: z)))).
    { apply list_elem_of_In. rewrite attach_perm, pulls_perm, elem_of_app. right. left. }
    apply in_split in Hin as (p & q & ->). exists (r :: p), q. split; [done|by left].
  - destruct (IH (pulls e (x ++ A :: z))) as (p & q & -> & Hp); [by apply pulls_before; [|exists x, z]|].
    exists (e :: p), q. split; [done|by right].
Qed.
Lemma placeholder_for_is e tc : is_placeholder (placeholder_for e tc) = true.
Proof. reflexivity. Qed.

Lemma retained_before d a r m A c : List.length a ∉ d -> (List.length (a ++ r :: m)) ∉ d ->
  comes_before r A (retained d (a ++ r :: m ++ A :: c)).
Proof.
  intros Hr HA. unfold retained. replace (a ++ r :: m ++ A :: c) with ((a ++ r :: m) ++ A :: c)
    by (by rewrite <- List.app_assoc).
  rewrite imap_app, List.filter_app, List.map_app. cbn [imap List.filter]. unfold compose. rewrite Nat.add_0_r. cbn [fst].
  rewrite (bool_decide_true (List.length (a ++ r :: m) ∉ d)) by done.
  do 2 eexists. split; [reflexivity|]. apply in_map_iff. exists (List.length a, r). split; [done|].
  apply filter_In. split; [|by apply bool_decide_true]. apply in_imap_pair. by apply list_lookup_middle.
Qed.
(** What is left of a reused id before the repair. *)
Lemma reuse_deduped a r m A c id : id <> "" -> answers id r = true -> is_placeholder r = false ->
  (forall e, In e a -> answers id e = true -> is_placeholder e = true) -> declares id A = true ->
  let l := fst (dedupe_tool_entries (fst (strip_empty_assistants (a ++ r :: m ++ A :: c)))) in
  List.filter (answers id) l = [r] /\ comes_before r A l.
Proof.
  intros Hid Hr Hp Ha HA. unfold strip_empty_assistants. cbn [fst].
  set (f := fun e => negb (empty_assistant e)).
  apply answers_tool in Hr as Ht. destruct Ht as [Ht _]. apply declares_assistant in HA as [HAa HAc].
  assert (fr : f r = true).
  { unfold f, empty_assistant. fold (is_assistant r). by rewrite tool_no_assistant. }
  assert (fA : f A = true).
  { unfold f, empty_assistant, call_ids in *. by destruct (se_tool_calls A); [|rewrite andb_false_r]. }
  assert (E : List.filter f (a ++ r :: m ++ A :: c)
              = List.filter f a ++ r :: List.filter f m ++ A :: List.filter f c).
  { rewrite List.filter_app. cbn. rewrite fr, List.filter_app. cbn. by rewrite fA. }
  cbn zeta. rewrite E. set (a' := List.filter f a).
  assert (Ha' : forall e, In e a' -> answers id e = true -> is_placeholder e = true)
    by (intros e [He _]%filter_In; by apply Ha).
  split; [by apply dedupe_only|]. rewrite dedupe_retained.
  destruct (dedupe_first a' r (List.filter f m ++ A :: List.filter f c) id Hid Hr Hp Ha') as (kept & [K N D B] & Hk).
  apply retained_before.
  - apply (D (List.length a') r); [by apply list_lookup_middle|]. right. by apply answers_tool in Hr as [_ ->].
  - apply (D _ A).
    + change (a' ++ r :: List.filter f m ++ A :: List.filter f c)
        with (a' ++ (r :: List.filter f m) ++ A :: List.filter f c).
      rewrite List.app_assoc. by apply list_lookup_middle.
    + left. unfold keyed_result. destruct (has_type ENTRY_TYPE_TOOL A) eqn:T; [|done].
      by rewrite (tool_no_assistant A T) in HAa.
Qed.
Lemma filter_and {A} (f g : A -> bool) l :
  List.filter (fun x => f x && g x) l = List.filter g (List.filter f l).
Proof. induction l as [|x l IH]; [done|]. cbn. destruct (f x), (g x) eqn:G; cbn; rewrite ?G; by rewrite IH. Qed.
Lemma fill_real (f : SessionEntry -> bool) l : (forall e tc, f (placeholder_for e tc) = false) ->
  List.filter f (fill l) = List.filter f l.
Proof.
  intros Hf. induction l as [|e l IH]; [done|]. cbn [fill].
  change (e :: fills e l ++ fill l) with ([e] ++ fills e l ++ fill l). rewrite !List.filter_app, IH.
  replace (List.filter f (fills e l)) with (@nil SessionEntry); [cbn; by destruct (f e)|].
  symmetry. apply filter_nil_iff. intros x Hx. unfold fills in Hx. destruct (is_assistant e); [|done].
  apply in_map_iff in Hx as (tc & <- & _). apply Hf.
Qed.
Lemma fills_placeholders e l x : In x (fills e l) -> is_placeholder x = true.
Proof.
  unfold fills. destruct (is_assistant e); [|done]. intros (tc & <- & _)%in_map_iff. apply placeholder_for_is.
Qed.

(** C36: ids are taken to be unique in a journal when repeated results are
    dropped, although a later assistant may use an id again: if the journal holds
    a result [r1] of a call [id] that is no placeholder and the first such, and
    an assistant entry [A2] behind it calls with [id] again, then [r1] is the
    only result of [id], but for placeholders, that the loaded conversation
    holds, however many more the journal has, and [A2]'s call is answered by a
    placeholder, which says that nobody knows whether the call ran. *)
Theorem reused_id_loses_its_result entries a r1 m A2 c id :
  entries = a ++ r1 :: m ++ A2 :: c -> id <> "" -> answers id r1 = true -> is_placeholder r1 = false ->
  (forall e, In e a -> answers id e = true -> is_placeholder e = true) -> declares id A2 = true ->
  List.filter (fun e => answers id e && negb (is_placeholder e)) (heal entries) = [r1]
  /\ exists p q tc, heal entries = p ++ A2 :: q /\ In tc (se_tool_calls A2) /\ tc_id tc = id
      /\ In (placeholder_for A2 tc) (window q)
      /\ forall r, In r (window q) -> answers id r = true -> is_placeholder r = true.
Proof.
  intros -> Hid Hr Hp Ha HA.
  destruct (reuse_deduped a r1 m A2 c id Hid Hr Hp Ha HA) as (Honly & Hbefore).
  rewrite heal_spec. set (l := fst (dedupe_tool_entries _)) in *. set (n := List.length l).
  assert (Hperm : List.filter (answers id) (attach n l) ≡ₚ [r1])
    by (rewrite <- Honly; apply filter_perm, attach_perm).
  split.
  - rewrite fill_real by (intros e tc; by rewrite placeholder_for_is, andb_false_r).
    apply Permutation_singleton_r. rewrite filter_and, (filter_perm _ _ _ Hperm). cbn. by rewrite Hp.
  - destruct (attach_before r1 A2) with (n := n) (l := l) as (x & z & E & Hx); [|done|].
    { apply declares_assistant in HA as [HA _]. destruct (is_tool A2) eqn:T; [|done]. by rewrite tool_no_assistant in HA. }
    rewrite E in *. apply declares_assistant in HA as HA'. destruct HA' as [HAa _].
    destruct (fill_app_at x A2 z HAa) as (p & -> & _).
    assert (Hz : forall r, In r z -> answers id r = false).
    { intros r Hrz. destruct (answers id r) eqn:Har; [exfalso|done].
      apply Permutation_length in Hperm. rewrite List.filter_app in Hperm.
      apply in_split in Hx as (x1 & x2 & ->), Hrz as (z1 & z2 & ->). rewrite !length_app in Hperm.
      change (A2 :: z1 ++ r :: z2) with ([A2] ++ z1 ++ [r] ++ z2) in Hperm.
      change (x1 ++ r1 :: x2) with (x1 ++ [r1] ++ x2) in Hperm.
      rewrite !List.filter_app, !length_app in Hperm. cbn in Hperm. rewrite Hr, Har in Hperm. cbn in Hperm. lia. }
    unfold declares in HA. apply andb_true_iff in HA as [_ HA]. apply existsb_exists in HA as (tc & Htc & Heq).
    apply String.eqb_eq in Heq. exists p, (fills A2 z ++ fill z), tc. split_and!; [done..| |]; rewrite window_filled.
    + apply in_app_iff. left. unfold fills. rewrite HAa. apply in_map, filter_In. split; [done|].
      rewrite Heq, negb_true_iff. apply not_true_is_false. rewrite existsb_eqb_in, in_result_ids.
      intros (r & Hrw & Har). apply window_in, Hz in Hrw. congruence.
    + intros r Hrw Har. apply in_app_iff in Hrw as [Hrw|Hrw]; [by eapply fills_placeholders|].
      apply window_in, Hz in Hrw. congruence.
Qed.
