(* ===== verification/Checkpoint.v ===== *)
(** Context checkpoints (session/checkpoint.rs, the types of
    compaction/mod.rs): the entry a checkpoint is stored as, how it is read
    back, and which checkpoint of a journal is in force. *)
From S2P Require Import Prelude Json SessionEntry.

Inductive CompactionTrigger := Automatic | ProviderContextLimit | Manual | ModelContextDownshift.
#[export] Instance CompactionTrigger_eq_dec : EqDecision CompactionTrigger.
Proof. solve_decision. Defined.
Inductive CompactionPhase := PreTurn | MidTurn | Standalone.
#[export] Instance CompactionPhase_eq_dec : EqDecision CompactionPhase.
Proof. solve_decision. Defined.
Inductive CompactionSummaryStatus := Generated | EvidenceOnly.

(** serde's derived code for [Usage], which has a floating-point cost. *)
Class UsageSerde := {
  Usage : Type;
  usage_to_value : Usage -> Value;
  usage_from_value : Value -> option Usage
}.

Section Checkpoints.
Context `{UsageSerde}.

Record CompactionSummaryOutcome := mkOutcome {
  co_status : CompactionSummaryStatus;
  co_fallback_reason : option string;
  co_attempt_usage : list Usage
}.
Record ContextCheckpoint := mkCheckpoint {
  cp_entry_id : string;
  cp_checkpoint_id : string;
  cp_covered_from_entry_id : option string;
  cp_cutoff_entry_id : option string;
  cp_summary : list ContentBlock;
  cp_protected_entry_ids : list string;
  cp_tokens_before : u64;
  cp_tokens_after : u64;
  cp_trigger : CompactionTrigger;
  cp_phase : option CompactionPhase;
  cp_algorithm_version : string;
  cp_summary_outcome : option CompactionSummaryOutcome;
  cp_model : string;
  cp_context_window : u64;
  cp_created_at : Z
}.

(** * serde: unit variants in snake case

    A unit variant is read from its name, or from an object with that single
    key and a null. *)
Definition trigger_as_str (t : CompactionTrigger) : string :=
  match t with
  | Automatic => "automatic"
  | ProviderContextLimit => "provider_context_limit"
  | Manual => "manual"
  | ModelContextDownshift => "model_context_downshift"
  end.
Definition phase_as_str (p : CompactionPhase) : string :=
  match p with PreTurn => "pre_turn" | MidTurn => "mid_turn" | Standalone => "standalone" end.
Definition status_as_str (s : CompactionSummaryStatus) : string :=
  match s with Generated => "generated" | EvidenceOnly => "evidence_only" end.
Definition variant_name (v : Value) : option string :=
  match v with
  | VString s => Some s
  | VObject [(s, VNull)] => Some s
  | _ => None
  end.
Definition trigger_from_value (v : Value) : option CompactionTrigger :=
  s ← variant_name v;
  if s =?s "automatic" then Some Automatic
  else if s =?s "provider_context_limit" then Some ProviderContextLimit
  else if s =?s "manual" then Some Manual
  else if s =?s "model_context_downshift" then Some ModelContextDownshift
  else None.
Definition phase_from_value (v : Value) : option CompactionPhase :=
  s ← variant_name v;
  if s =?s "pre_turn" then Some PreTurn
  else if s =?s "mid_turn" then Some MidTurn
  else if s =?s "standalone" then Some Standalone
  else None.
Definition status_from_value (v : Value) : option CompactionSummaryStatus :=
  s ← variant_name v;
  if s =?s "generated" then Some Generated
  else if s =?s "evidence_only" then Some EvidenceOnly
  else None.

(** [Serialize] and [Deserialize for CompactionSummaryOutcome] *)
Definition outcome_to_value (o : CompactionSummaryOutcome) : Value :=
  VObject ([("status", VString (status_as_str (co_status o)))]
           ++ match co_fallback_reason o with
              | Some reason => [("fallback_reason", VString reason)]
              | None => []
              end
           ++ match co_attempt_usage o with
              | [] => []
              | usage => [("attempt_usage", VArray (List.map usage_to_value usage))]
              end).
Definition outcome_from_value (v : Value) : option CompactionSummaryOutcome :=
  o ← as_object v;
  status ← (map_get "status" o ≫= status_from_value);
  reason ← match map_get "fallback_reason" o with
           | None => Some None
           | Some r => option_string_from r
           end;
  usage ← match map_get "attempt_usage" o with
          | None => Some []
          | Some u => as_array u ≫= mapM usage_from_value
          end;
  Some (mkOutcome status reason usage).

(** * Entries *)
Definition SCHEMA_VERSION : u64 := 3.
Definition json_option_str (s : option string) : Value :=
  match s with Some s => VString s | None => VNull end.
Definition checkpoint_to_entry (c : ContextCheckpoint) : SessionEntry :=
  let content := [
    ("schema_version", json_u64 SCHEMA_VERSION);
    ("checkpoint_id", VString (cp_checkpoint_id c));
    ("covered_from_entry_id", json_option_str (cp_covered_from_entry_id c));
    ("cutoff_entry_id", json_option_str (cp_cutoff_entry_id c));
    ("summary", VArray (List.map block_to_value (cp_summary c)));
    ("tokens_before", json_u64 (cp_tokens_before c));
    ("tokens_after", json_u64 (cp_tokens_after c));
    ("trigger", VString (trigger_as_str (cp_trigger c)));
    ("algorithm_version", VString (cp_algorithm_version c));
    ("model", VString (cp_model c));
    ("context_window", json_u64 (cp_context_window c))] in
  let content := map_insert "protected_entry_ids" (json_strings (cp_protected_entry_ids c)) content in
  let content := match cp_summary_outcome c with
                 | Some outcome => map_insert "summary_outcome" (outcome_to_value outcome) content
                 | None => content
                 end in
  let content := match cp_phase c with
                 | Some phase => map_insert "phase" (VString (phase_as_str phase)) content
                 | None => content
                 end in
  {| se_id := cp_entry_id c;
     se_entry_type := ENTRY_TYPE_COMPACTION;
     se_role := ENTRY_TYPE_SYSTEM;
     se_content := Some (VObject content);
     se_tool_calls := [];
     se_timestamp := cp_created_at c;
     se_tool_call_id := "";
     se_name := "";
     se_tool_args := "";
     se_thinking := "";
     se_meta := None |}.

Definition compaction_entry_to_checkpoint (entry : SessionEntry) : option ContextCheckpoint :=
  content ← (se_content entry ≫= as_object);
  if bool_decide (map_get "schema_version" content ≫= as_u64 <> Some SCHEMA_VERSION) then None
  else
    summary ← (map_get "summary" content ≫= blocks_from_value);
    trigger ← trigger_from_value (default (VString "automatic") (map_get "trigger" content));
    checkpoint_id ← (map_get "checkpoint_id" content ≫= as_str);
    protected_entry_ids ← (map_get "protected_entry_ids" content ≫= value_strings);
    algorithm_version ← (map_get "algorithm_version" content ≫= as_str);
    Some {|
      cp_entry_id := se_id entry;
      cp_checkpoint_id := checkpoint_id;
      cp_covered_from_entry_id := map_get "covered_from_entry_id" content ≫= as_str;
      cp_cutoff_entry_id := map_get "cutoff_entry_id" content ≫= as_str;
      cp_summary := summary;
      cp_protected_entry_ids := protected_entry_ids;
      cp_tokens_before := default 0 (map_get "tokens_before" content ≫= as_u64);
      cp_tokens_after := default 0 (map_get "tokens_after" content ≫= as_u64);
      cp_trigger := trigger;
      cp_phase := map_get "phase" content ≫= phase_from_value;
      cp_algorithm_version := algorithm_version;
      cp_summary_outcome := map_get "summary_outcome" content ≫= outcome_from_value;
      cp_model := default "" (map_get "model" content ≫= as_str);
      cp_context_window := default 0 (map_get "context_window" content ≫= as_u64);
      cp_created_at := se_timestamp entry |}.
Definition entry_to_checkpoint (entry : SessionEntry) : option ContextCheckpoint :=
  if has_type ENTRY_TYPE_COMPACTION entry then compaction_entry_to_checkpoint entry else None.

(** * The checkpoint in force *)
Fixpoint find_index {A} (p : A -> bool) (l : list A) : option nat :=
  match l with
  | [] => None
  | x :: r => if p x then Some O else option_map S (find_index p r)
  end.
Definition index_of_entry (id : string) (entries : list SessionEntry) : option nat :=
  find_index (fun e => se_id e =?s id) entries.
(** An original kept verbatim: its first entry of that id among the user and
    assistant entries. *)
Definition index_of_original (id : string) (entries : list SessionEntry) : option nat :=
  find_index (fun e => (se_id e =?s id) && (has_type ENTRY_TYPE_USER e || has_type ENTRY_TYPE_ASSISTANT e)) entries.
Fixpoint originals_valid (entries : list SessionEntry) (cutoff : nat) (seen ids : list string) : bool :=
  match ids with
  | [] => true
  | id :: rest =>
      bool_decide (id ∉ seen)
      && match index_of_original id entries with
         | Some i => (i <=? cutoff)%nat
         | None => false
         end
      && originals_valid entries cutoff (id :: seen) rest
  end.
Definition checkpoint_is_valid (entries : list SessionEntry) (c : ContextCheckpoint) : bool :=
  match cp_covered_from_entry_id c, cp_cutoff_entry_id c with
  | Some covered_from, Some cutoff =>
      match index_of_entry (cp_entry_id c) entries, index_of_entry covered_from entries,
            index_of_entry cutoff entries with
      | Some checkpoint_index, Some covered_index, Some cutoff_index =>
          (covered_index <=? cutoff_index)%nat && (cutoff_index <? checkpoint_index)%nat
          && originals_valid entries cutoff_index [] (cp_protected_entry_ids c)
      | _, _, _ => false
      end
  | _, _ => false
  end.
Definition latest_context_checkpoint (entries : list SessionEntry) : option ContextCheckpoint :=
  List.find (checkpoint_is_valid entries)
    (omap compaction_entry_to_checkpoint
       (List.filter (has_type ENTRY_TYPE_COMPACTION) (rev entries))).
End Checkpoints.

(** * Round trip *)
Lemma block_read_back b : block_from_value (block_to_value b) = Some b.
Proof.
  destruct b as [text|[[url|]]|text [|kv metadata]|id name args [|kv metadata]|id content []]; reflexivity.
Qed.
Lemma mapM_map_back {A B} (f : A -> B) (g : B -> option A) l : (forall x, g (f x) = Some x) ->
  mapM g (List.map f l) = Some l.
Proof. intros Hfg. induction l as [|x l IH]; [done|]. cbn. rewrite Hfg. cbn. by rewrite IH. Qed.
Lemma blocks_read_back l : blocks_from_value (VArray (List.map block_to_value l)) = Some l.
Proof. unfold blocks_from_value. cbn [as_array mbind option_bind]. apply mapM_map_back, block_read_back. Qed.
Lemma json_option_str_read s : as_str (json_option_str s) = s.
Proof. by destruct s. Qed.

Section RoundTrip.
Context `{UsageSerde}.
Variable usage_read_back : forall u, usage_from_value (usage_to_value u) = Some u.
Lemma outcome_read_back o : outcome_from_value (outcome_to_value o) = Some o.
Proof.
  destruct o as [status [reason|] [|u usage]]; destruct status; cbn;
    rewrite ?usage_read_back; cbn; rewrite ?mapM_map_back by done; reflexivity.
Qed.

(** C35: a checkpoint is read back from its journal entry exactly as it was
    stored, its optional fields and the attempts of its summary included. *)
Theorem checkpoint_round_trip c : fits_u64 (cp_tokens_before c) -> fits_u64 (cp_tokens_after c) ->
  fits_u64 (cp_context_window c) -> entry_to_checkpoint (checkpoint_to_entry c) = Some c.
Proof.
  intros H1 H2 H3. unfold entry_to_checkpoint.
  change (compaction_entry_to_checkpoint (checkpoint_to_entry c) = Some c).
  unfold compaction_entry_to_checkpoint, checkpoint_to_entry. cbv zeta.
  destruct c as [id cid from cutoff summary protected before after trigger phase algorithm outcome model window at_].
  cbn [cp_tokens_before cp_tokens_after cp_context_window] in H1, H2, H3.
  destruct phase as [phase|], outcome as [outcome|];
    cbn -[json_u64 as_u64 blocks_from_value block_to_value outcome_from_value outcome_to_value value_strings json_strings];
    rewrite ?blocks_read_back, ?outcome_read_back, ?value_strings_json, ?json_option_str_read;
    rewrite !as_u64_show by done; destruct trigger; try destruct phase; reflexivity.
Qed.
End RoundTrip.
