(* ===== verification/Compaction.v ===== *)
(** What a session sends in place of its full history (compaction/mod.rs,
    compaction/budget.rs, the token accounting of compaction/semantic.rs): the
    projection of a journal through its checkpoint, the estimate of its cost,
    and the budgets of a request.

    Token counts are [u64]; a sum the source writes with [+] or [sum] wraps, one
    it writes with [saturating_add] saturates. *)
From S2P Require Import Prelude Json SessionEntry Checkpoint.

Definition INTERNAL_ANCHOR_METADATA_KEY : string := "internal_context_anchor".
Definition INTERNAL_CHECKPOINT_METADATA_KEY : string := "internal_context_checkpoint".

(** serde_json's compact text of a value. *)
Class JsonText := json_text : Value -> string.

(** * Budgets *)
Definition MAX_EXPANDED_HISTORY : u64 := 128000.
Definition TARGET_HISTORY : u64 := 32000.
Definition RECENT_HISTORY : u64 := 8000.
Definition trigger_tokens (window : u64) : u64 := u64_sat_mul window 4 / 5.
Definition context_token_budgets (context_window : Z) : Z * Z :=
  let window := Z.max context_window 1 in
  if window <=? 1 then (0, 0)
  else
    let threshold := Z.max (trigger_tokens window) 1 in
    (window - threshold, Z.max (Z.min RECENT_HISTORY (threshold / 4)) 1).

Definition i32_max : Z := 2147483647.
Definition MAX_OUTPUT_TOKENS : Z := 65536.
Definition capped_output_tokens (declared context_window : Z) : Z :=
  let capped := Z.min (Z.max declared 0) MAX_OUTPUT_TOKENS in
  if 0 <? context_window then Z.min capped (context_window / 4) else capped.

Record ContextUsage := mkUsage {
  cu_input_tokens : option u64;
  cu_cached_input_tokens : option u64;
  cu_completion_tokens : option u64;
  cu_reasoning_tokens : option u64;
  cu_estimated_input_tokens : u64;
  cu_context_window : u64;
  cu_fixed_input_tokens : u64;
  cu_output_reserve_tokens : u64
}.
#[export] Instance eta_ContextUsage : Eta ContextUsage := fun u =>
  mkUsage (cu_input_tokens u) (cu_cached_input_tokens u) (cu_completion_tokens u) (cu_reasoning_tokens u)
    (cu_estimated_input_tokens u) (cu_context_window u) (cu_fixed_input_tokens u) (cu_output_reserve_tokens u).

Record ContextManager := mkManager {
  cm_enabled : bool;
  cm_reserve_tokens : Z;
  cm_keep_recent_tokens : Z;
  cm_context_window : Z;
  cm_model : string
}.
Definition cm_window (manager : ContextManager) : u64 := Z.max (cm_context_window manager) 1.

Definition input_limit_for_usage (manager : ContextManager) (usage : ContextUsage) : u64 :=
  let window := cm_window manager in
  let margin := Z.min 2048 (window / 16) in
  let reserve := capped_output_tokens (Z.min (cu_output_reserve_tokens usage) i32_max)
                   (cm_context_window manager) in
  u64_sat_sub (u64_sat_sub window reserve) margin.

(** * Messages *)
Definition metadata_flag (key : string) (m : AgentMessage) : bool :=
  default false (metadata_get key m ≫= as_bool).
Definition is_protected (message : AgentMessage) : bool := metadata_flag INTERNAL_ANCHOR_METADATA_KEY message.
Definition stamp_internal_checkpoint_message (message : AgentMessage) (entry_id : string) : AgentMessage :=
  message <| am_metadata ::= fun metadata =>
    Some (map_insert INTERNAL_CHECKPOINT_METADATA_KEY (VBool true)
            (map_insert JOURNAL_ENTRY_ID_KEY (VString entry_id) (default [] metadata))) |>.
Definition is_written_text (b : ContentBlock) : bool :=
  match b with Text text => negb (is_blank text) | _ => false end.
Definition protected_text (original : AgentMessage) : option AgentMessage :=
  if negb ((am_role original =?s "user") || (am_role original =?s "assistant"))
     || metadata_flag INTERNAL_CHECKPOINT_METADATA_KEY original
  then None
  else
    id ← journal_entry_id original;
    match List.filter is_written_text (am_content original) with
    | [] => None
    | content =>
        Some (mkMessage (am_role original) content "" ""
                (Some (map_insert INTERNAL_ANCHOR_METADATA_KEY (VBool true)
                         (map_insert JOURNAL_ENTRY_ID_KEY (VString id) []))))
    end.

Record ProjectedMessage := mkProjected {
  pm_message : AgentMessage;
  pm_source_entry_ids : list string
}.
Record PromptContext := mkPrompt {
  pc_messages : list ProjectedMessage;
  pc_message_tokens : list u64;
  pc_usage : ContextUsage
}.
#[export] Instance eta_PromptContext : Eta PromptContext := fun p =>
  mkPrompt (pc_messages p) (pc_message_tokens p) (pc_usage p).

(** * Estimates *)
Definition char_code (c : string) : N :=
  match string_bytes c with
  | [b] => b
  | [b0; b1] => ((b0 - 192) * 64 + (b1 - 128))%N
  | [b0; b1; b2] => ((b0 - 224) * 4096 + (b1 - 128) * 64 + (b2 - 128))%N
  | [b0; b1; b2; b3] => ((b0 - 240) * 262144 + (b1 - 128) * 4096 + (b2 - 128) * 64 + (b3 - 128))%N
  | _ => 0%N
  end.
Definition within (lo hi c : N) : bool := (lo <=? c)%N && (c <=? hi)%N.
Definition is_cjk (c : string) : bool :=
  let c := char_code c in
  within 19968 40959 c || within 13312 19903 c || within 12352 12543 c || within 44032 55215 c
  || within 63744 64255 c || within 131072 173791 c.
Definition char_token_quarters (c : string) : u64 :=
  if is_cjk c then 6 else if (char_code c <? 128)%N then 1 else 2.
Definition estimate_text_tokens (text : string) : u64 :=
  let quarters := List.fold_left (fun n c => u64_sat_add n (char_token_quarters c)) (chars text) 0 in
  Z.min (u64_sat_add quarters 3 / 4) i32_max.

(** [iter().sum::<u64>()] *)
Definition u64_sum (l : list u64) : u64 := List.fold_left u64_add l 0.

Section Costs.
Context `{JsonText}.

Definition cost_step (role : string) (acc : u64 * u64 * u64) (block : ContentBlock) : u64 * u64 * u64 :=
  let '(body, images, reasoning) := acc in
  match block with
  | Text text => (u64_sat_add body (estimate_text_tokens text), images, reasoning)
  | Image _ => (body, u64_add images 1, reasoning)
  | ToolResult _ content _ => (u64_sat_add body (estimate_text_tokens content), images, reasoning)
  | Reasoning text _ => (body, images, u64_sat_add reasoning (estimate_text_tokens text))
  | ToolCallBlock _ name args _ =>
      if role =?s "assistant" then
        let body := u64_sat_add body (estimate_text_tokens name) in
        let arguments := match args with VString value => value | other => json_text other end in
        (u64_sat_add body (estimate_text_tokens arguments), images, reasoning)
      else (body, images, reasoning)
  end.
Definition is_image_attachment (a : Value) : bool :=
  bool_decide ((get "kind" a ≫= as_str) = Some "image").
Definition attachments_of (message : AgentMessage) : option (list Value) :=
  metadata_get "attachments" message ≫= as_array.
Definition projected_message_token_costs (message : AgentMessage) : u64 * u64 :=
  let '(body, images, reasoning) := List.fold_left (cost_step (am_role message)) (am_content message) (0, 0, 0) in
  let attachment_images :=
    if images =? 0 then
      match attachments_of message with Some items => count is_image_attachment items | None => 0 end
    else 0 in
  (body, u64_add (u64_add (u64_add body reasoning) 6) (u64_mul (u64_add images attachment_images) 2048)).
Definition projected_message_token_cost (message : AgentMessage) : u64 := snd (projected_message_token_costs message).
Definition projected_token_cost (projected : ProjectedMessage) : u64 :=
  projected_message_token_cost (pm_message projected).

Definition message_token_costs (prompt : PromptContext) : list u64 :=
  if (List.length (pc_message_tokens prompt) =? List.length (pc_messages prompt))%nat
  then pc_message_tokens prompt
  else List.map projected_token_cost (pc_messages prompt).
Definition total_message_tokens (prompt : PromptContext) : u64 := u64_sum (message_token_costs prompt).

(** [tool_text] is the JSON of the tools. *)
Definition set_request_budget (system tool_text : string) (max_output : Z) (prompt : PromptContext) : PromptContext :=
  let fixed := u64_add (estimate_text_tokens system) (estimate_text_tokens tool_text) in
  let messages := total_message_tokens prompt in
  prompt <| pc_usage ::= fun usage => usage
    <| cu_fixed_input_tokens := fixed |>
    <| cu_output_reserve_tokens := Z.max max_output 0 |>
    <| cu_estimated_input_tokens := u64_sat_add fixed messages |> |>.
Definition input_limit (manager : ContextManager) (prompt : PromptContext) : u64 :=
  input_limit_for_usage manager (pc_usage prompt).
Definition effective_trigger (manager : ContextManager) (prompt : PromptContext) : u64 :=
  let configured := u64_sat_sub (cm_window manager) (Z.max (cm_reserve_tokens manager) 0) in
  Z.min configured (input_limit manager prompt).

(** * The projection *)
Context `{UsageSerde}.

(** [AgentMessage::new_user] on one text block. *)
Definition user_text_message (text : string) : AgentMessage := mkMessage "user" [Text text] "" "" None.
Definition summary_message (summary entry_id : string) : AgentMessage :=
  stamp_internal_checkpoint_message (user_text_message ("[Context compaction: " +:+ summary +:+ "]")) entry_id.
Definition has_entry_id (id : string) (m : AgentMessage) : bool := bool_decide (journal_entry_id m = Some id).
Definition project_original (protected : list string) (original : AgentMessage) : option ProjectedMessage :=
  id ← journal_entry_id original;
  if bool_decide (id ∈ protected) then
    message ← protected_text original;
    Some (mkProjected message [default "" (journal_entry_id message)])
  else None.
Definition project_raw (message : AgentMessage) : ProjectedMessage :=
  mkProjected message (match journal_entry_id message with Some id => [id] | None => [] end).
Definition checkpoint_summary_text (c : ContextCheckpoint) : string :=
  String.concat (String "010" "") (omap block_text (cp_summary c)).
Definition projected_messages (messages : list AgentMessage) (checkpoint : option ContextCheckpoint)
    : list ProjectedMessage :=
  let cutoff_index :=
    c ← checkpoint;
    cutoff ← cp_cutoff_entry_id c;
    find_index (has_entry_id cutoff) messages in
  let tail_start := match cutoff_index with Some i => S i | None => O end in
  match checkpoint with
  | Some c =>
      omap (project_original (cp_protected_entry_ids c)) (take tail_start messages)
      ++ let summary := checkpoint_summary_text c in
         if summary =?s "" then []
         else [mkProjected (summary_message summary (cp_entry_id c)) [cp_entry_id c]]
  | None => []
  end
  ++ List.map project_raw (drop tail_start messages).
Definition project_prompt_context (messages : list AgentMessage) (checkpoint : option ContextCheckpoint)
    (input_tokens : option u64) (context_window : u64) : PromptContext :=
  let projected := projected_messages messages checkpoint in
  let costs := List.map (fun p => projected_message_token_costs (pm_message p)) projected in
  {| pc_messages := projected;
     pc_message_tokens := List.map snd costs;
     pc_usage := mkUsage input_tokens None None None
                   (List.fold_left u64_sat_add (List.map fst costs) 0) context_window 0 0 |}.
End Costs.
