(* ===== verification/CompactionPlan.v ===== *)
(** Planning a compaction (compaction/semantic.rs): where the projection is
    cut, which originals are kept verbatim, what budget the rest may use, and
    the checkpoint and prompt that come of it.  The callbacks that report
    progress are left out; the fresh entry id and the instant are arguments. *)
From S2P Require Import Prelude Json SessionEntry Checkpoint Compaction.

Definition TOOL_OUTPUT_LIMIT : nat := 2000.
Definition REASONING_LIMIT : nat := 2000.
Definition MANUAL_RECENT_TAIL_MAX_TOKENS : u64 := 15000.
Definition newline : string := String "010" "".

Inductive ContextError :=
| NoValidBoundary
| InvalidSummary
| SummaryFailed (reason : string)
| Cancelled
| BudgetExceeded (reason : string)
| NoProgress
| PersistenceFailed (reason : string).

Section Plan.
Context `{JsonText}.

(** * The text of a message *)
Definition truncate (value : string) (max_chars : nat) : string :=
  if (char_count value <=? max_chars)%nat then value
  else char_take max_chars value +:+ newline +:+ "[truncated for compaction]".
Definition last_chars (n : nat) (value : string) : string := of_chars (keep_last n (chars value)).
Definition tool_excerpt (value : string) (max_chars : nat) : string :=
  if (char_count value <=? max_chars)%nat then value
  else char_take (max_chars / 2) value +:+ newline
    +:+ "[truncated for compaction] Middle omitted; only head and tail are shown. Missing content is unknown, not evidence of absence. Query the history entry for the full stored output."
    +:+ newline +:+ last_chars (max_chars - max_chars / 2) value.
Definition role_label (role : string) : string :=
  if role =?s "user" then "User"
  else if role =?s "assistant" then "Assistant"
  else if role =?s "tool" then "Tool"
  else if role =?s "system" then "System update"
  else role.
Definition block_line (label : string) (block : ContentBlock) : option string :=
  match block with
  | Text text => if is_blank text then None else Some ("[" +:+ label +:+ "]: " +:+ text)
  | Reasoning text _ =>
      if is_blank text then None else Some ("[Assistant reasoning]: " +:+ truncate text REASONING_LIMIT)
  | Image image_url =>
      let description :=
        match iu_url image_url with
        | Some url => if starts_with "data:" url then "embedded image" else url
        | None => "embedded image"
        end in
      Some ("[Attached image: " +:+ description +:+ "]")
  | ToolCallBlock id name args _ =>
      Some ("[Assistant tool call " +:+ id +:+ "]: " +:+ name +:+ "(" +:+ json_text args +:+ ")")
  | ToolResult tool_call_id content is_error =>
      Some ("[Tool " +:+ (if is_error then "error" else "result") +:+ " " +:+ tool_call_id +:+ "]: "
            +:+ tool_excerpt content TOOL_OUTPUT_LIMIT)
  end.
Definition serialize_message (message : AgentMessage) : string :=
  let text := String.concat newline (omap (block_line (role_label (am_role message))) (am_content message)) in
  if text =?s "" then text
  else match journal_entry_id message with
       | Some id => "[History entry " +:+ id +:+ "]" +:+ newline +:+ text
       | None => text
       end.

Definition strip_suffix_bracket (s : string) : option string :=
  match rev (list_ascii_of_string s) with
  | "]"%char :: r => Some (string_of_list_ascii (rev r))
  | _ => None
  end.
Definition internal_summary_text (text : string) : option string :=
  value ← (strip_prefix "[Context compaction:" text ≫= strip_suffix_bracket);
  let value := trim value in
  if value =?s "" then None else Some value.
Definition internal_summary (message : AgentMessage) : option string :=
  if negb (am_role message =?s "user") || negb (metadata_flag INTERNAL_CHECKPOINT_METADATA_KEY message)
  then None
  else head (omap (fun block => match block with Text text => internal_summary_text text | _ => None end)
               (am_content message)).

(** * Where to cut *)
Definition starts_turn (item : ProjectedMessage) : bool :=
  (am_role (pm_message item) =?s "user") && bool_decide (internal_summary (pm_message item) = None)
  && negb (is_protected (pm_message item)).
Definition user_starts (messages : list ProjectedMessage) : list nat :=
  List.map fst (List.filter (fun x => starts_turn (snd x)) (imap pair messages)).

(** The loop over the messages from the last to the first. *)
Fixpoint fallback_scan (costs : list u64) (keep_recent_tokens : u64) (n index : nat) (retained : u64) (cut : nat)
    : nat :=
  let next := u64_sat_add retained (default 0 (costs !! index)) in
  if (keep_recent_tokens <? next) && (index <? n - 1)%nat then cut
  else match index with
       | O => O
       | S i => fallback_scan costs keep_recent_tokens n i next index
       end.
Definition is_role (role : string) (item : ProjectedMessage) : bool := am_role (pm_message item) =?s role.
Definition calls_tools (item : ProjectedMessage) : bool :=
  is_role "assistant" item && has_tool_calls (pm_message item).
(** The loop that leaves a group of tool results. *)
Fixpoint walk_back (messages : list ProjectedMessage) (cut : nat) : nat :=
  match cut with
  | O => O
  | S c =>
      match messages !! cut, messages !! c with
      | Some item, Some before =>
          if is_role "tool" item then if calls_tools before then c else walk_back messages c else cut
      | _, _ => cut
      end
  end.
Definition fallback_cut (messages : list ProjectedMessage) (costs : list u64) (keep_recent_tokens : u64)
    : option nat :=
  let n := List.length messages in
  if (n <? 2)%nat then None
  else
    let cut := fallback_scan costs keep_recent_tokens n (n - 1) 0 (n - 1) in
    let cut := if (cut =? 0)%nat then 1%nat else cut in
    let cut := walk_back messages cut in
    if ((0 <? cut) && (cut <? n))%nat then Some cut else None.

(** The loop over the turns from the last to the first. *)
Fixpoint retained_turns (costs : list u64) (keep_recent_tokens : u64) (turns : list (nat * nat))
    (retained_tokens : u64) (retained_start : option nat) : option nat :=
  match turns with
  | [] => retained_start
  | (start, end_) :: rest =>
      let turn_tokens := u64_sum (take (end_ - start) (drop start costs)) in
      let next := u64_sat_add retained_tokens turn_tokens in
      if keep_recent_tokens <? next then retained_start
      else retained_turns costs keep_recent_tokens rest next (Some start)
  end.
Definition turn_aware_cut (messages : list ProjectedMessage) (costs : list u64) (keep_recent_tokens : u64)
    (compact_all_when_every_turn_fits : bool) : option nat :=
  let n := List.length messages in
  let starts := user_starts messages in
  match starts with
  | [] =>
      if compact_all_when_every_turn_fits && negb (is_empty messages) && (u64_sum costs <=? keep_recent_tokens)
      then Some n
      else fallback_cut messages costs keep_recent_tokens
  | first :: rest =>
      let turns := zip starts (rest ++ [n]) in
      match retained_turns costs keep_recent_tokens (rev turns) 0 None with
      | Some start =>
          if compact_all_when_every_turn_fits && (first =? start)%nat then Some n
          else if (start =? 0)%nat then fallback_cut messages costs keep_recent_tokens
          else Some start
      | None => fallback_cut messages costs keep_recent_tokens
      end
  end.

(** * The plan *)
Record CompactionPlan := mkPlan {
  pl_removed : list ProjectedMessage;
  pl_retained : list ProjectedMessage;
  pl_protected : list ProjectedMessage;
  pl_target_tokens : u64;
  pl_summary_budget : u64;
  pl_summarized_outputs : nat;
  pl_previous_summary : option string;
  pl_covered_from_entry_id : string;
  pl_cutoff_entry_id : string;
  pl_tokens_before : u64;
  pl_usage : ContextUsage;
  pl_trigger : CompactionTrigger;
  pl_phase : CompactionPhase;
  pl_instructions : option string
}.
#[export] Instance eta_CompactionPlan : Eta CompactionPlan := fun p =>
  mkPlan (pl_removed p) (pl_retained p) (pl_protected p) (pl_target_tokens p) (pl_summary_budget p)
    (pl_summarized_outputs p) (pl_previous_summary p) (pl_covered_from_entry_id p) (pl_cutoff_entry_id p)
    (pl_tokens_before p) (pl_usage p) (pl_trigger p) (pl_phase p) (pl_instructions p).
Inductive PlannedPreparation :=
| PlanUnchanged (prompt : PromptContext)
| PlanCompact (plan : CompactionPlan).

(** The originals of the removed messages, each id once. *)
Fixpoint protected_originals (seen : list string) (removed : list ProjectedMessage) : list ProjectedMessage :=
  match removed with
  | [] => []
  | item :: rest =>
      match protected_text (pm_message item) with
      | Some message =>
          let id := default "" (journal_entry_id message) in
          if bool_decide (id ∈ seen) then protected_originals seen rest
          else mkProjected message [id] :: protected_originals (id :: seen) rest
      | None => protected_originals seen rest
      end
  end.
(** [retain] on the originals from the newest to the oldest: the room left, how
    many outputs are given up, and what stays. *)
Fixpoint retain_originals (newest_first : list ProjectedMessage) (output_room : u64)
    : nat * list ProjectedMessage :=
  match newest_first with
  | [] => (O, [])
  | item :: rest =>
      if is_role "user" item then
        let '(given_up, kept) := retain_originals rest output_room in (given_up, item :: kept)
      else
        let cost := projected_token_cost item in
        if cost <=? output_room then
          let '(given_up, kept) := retain_originals rest (u64_sat_sub output_room cost) in
          (given_up, item :: kept)
        else
          let '(given_up, kept) := retain_originals rest output_room in (S given_up, kept)
  end.
Definition token_total (items : list ProjectedMessage) : u64 := u64_sum (List.map projected_token_cost items).
Definition first_named (ids : list string) : option string := List.find (fun id => negb (id =?s "")) ids.

Definition threshold_gated (trigger : CompactionTrigger) : bool :=
  match trigger with Automatic | ModelContextDownshift => true | _ => false end.
Definition allow_full_active_turn (trigger : CompactionTrigger) (phase : CompactionPhase) : bool :=
  match trigger with
  | Manual => true
  | Automatic | ProviderContextLimit => bool_decide (phase = MidTurn)
  | ModelContextDownshift => false
  end.
Definition compactable (item : ProjectedMessage) : bool :=
  bool_decide (internal_summary (pm_message item) = None) && negb (is_protected (pm_message item))
  && negb (is_blank (serialize_message (pm_message item))).
Definition last_summary (messages : list ProjectedMessage) : option nat :=
  last (List.map fst (List.filter
    (fun x => bool_decide (is_Some (internal_summary (pm_message (snd x))))) (imap pair messages))).

(** What is planned once the cut is known. *)
Definition plan_at (manager : ContextManager) (prompt : PromptContext) (cut : nat) (tokens_before hard_limit : u64)
    (trigger : CompactionTrigger) (phase : CompactionPhase) (custom_instructions : option string)
    (summary_cap : u64) : ContextError + PlannedPreparation :=
  let removed := take cut (pc_messages prompt) in
  let retained := drop cut (pc_messages prompt) in
  let originals := protected_originals [] removed in
  let summary_budget := Z.min (Z.max (cm_window manager / 8) 1) summary_cap in
  let history_room := u64_sat_sub hard_limit (cu_fixed_input_tokens (pc_usage prompt)) in
  let maximum_target := Z.min MAX_EXPANDED_HISTORY (u64_sat_mul history_room 3 / 4) in
  let base_required :=
    u64_sat_add (u64_sat_add (token_total (List.filter (is_role "user") originals ++ retained)) summary_budget) 64 in
  let '(summarized_outputs, kept) := retain_originals (rev originals) (u64_sat_sub maximum_target base_required) in
  let protected := rev kept in
  let required := u64_sat_add (u64_sat_add (token_total (protected ++ retained)) summary_budget) 64 in
  if maximum_target <? required then
    inl (BudgetExceeded ("protected text and recent history need at least " +:+ show required
      +:+ " tokens, but compacted history can use " +:+ show maximum_target
      +:+ "; split large input material or use a new session"))
  else
    match first_named (List.concat (List.map pm_source_entry_ids removed)),
          first_named (rev (List.concat (List.map pm_source_entry_ids removed))) with
    | Some covered_from, Some cutoff =>
        inr (PlanCompact {|
          pl_removed := removed;
          pl_retained := retained;
          pl_protected := protected;
          pl_target_tokens := Z.max (Z.min TARGET_HISTORY maximum_target) required;
          pl_summary_budget := summary_budget;
          pl_summarized_outputs := summarized_outputs;
          pl_previous_summary := head (omap (fun item => internal_summary (pm_message item)) removed);
          pl_covered_from_entry_id := covered_from;
          pl_cutoff_entry_id := cutoff;
          pl_tokens_before := tokens_before;
          pl_usage := pc_usage prompt;
          pl_trigger := trigger;
          pl_phase := phase;
          pl_instructions :=
            s ← custom_instructions;
            let s := trim s in if s =?s "" then None else Some s |})
    | _, _ => inl NoValidBoundary
    end.

Definition plan (manager : ContextManager) (prompt : PromptContext) (trigger : CompactionTrigger)
    (phase : CompactionPhase) (custom_instructions : option string) (summary_cap : u64)
    : ContextError + PlannedPreparation :=
  let messages := pc_messages prompt in
  if is_empty messages then inr (PlanUnchanged prompt)
  else if negb (cm_enabled manager) && bool_decide (trigger = Automatic) then inr (PlanUnchanged prompt)
  else
    let usage := pc_usage prompt in
    let estimated := Z.max (u64_sat_add (total_message_tokens prompt) (cu_fixed_input_tokens usage))
                       (cu_estimated_input_tokens usage) in
    let tokens_before := Z.max estimated (default 0 (cu_input_tokens usage)) in
    let hard_limit := input_limit manager prompt in
    if hard_limit <=? cu_fixed_input_tokens usage then
      inl (BudgetExceeded "system/tools and output reservation leave no input room")
    else
      let threshold :=
        if negb (cm_enabled manager) && bool_decide (trigger = ModelContextDownshift) then hard_limit
        else effective_trigger manager prompt in
      if threshold_gated trigger && (tokens_before <? threshold) then inr (PlanUnchanged prompt)
      else
        let costs := message_token_costs prompt in
        let compact_all := bool_decide (trigger = Manual) in
        let keep := Z.max (cm_keep_recent_tokens manager) 1 in
        let keep_recent_tokens := if compact_all then Z.min keep MANUAL_RECENT_TAIL_MAX_TOKENS else keep in
        let full_turn := allow_full_active_turn trigger phase in
        let boundary :=
          match turn_aware_cut messages costs keep_recent_tokens compact_all with
          | Some cut => Some cut
          | None => if full_turn then Some (List.length messages) else None
          end in
        match boundary with
        | None =>
            if threshold_gated trigger && (tokens_before <=? hard_limit) then inr (PlanUnchanged prompt)
            else inl NoValidBoundary
        | Some cut =>
            let cut := match last_summary messages with Some i => Nat.max cut (S i) | None => cut end in
            let cut := if full_turn && (keep_recent_tokens <? u64_sum (drop cut costs))
                       then List.length messages else cut in
            if (cut =? 0)%nat || (List.length messages <? cut)%nat
               || ((cut =? List.length messages)%nat && negb full_turn)
            then inl NoValidBoundary
            else if negb (List.existsb compactable (take cut messages)) then inr (PlanUnchanged prompt)
            else plan_at manager prompt cut tokens_before hard_limit trigger phase custom_instructions summary_cap
        end.

(** * The result *)
Definition ALGORITHM_DETERMINISTIC : string := "deterministic-evidence-v1".
Definition ALGORITHM_SUMMARIZED : string := "summarized-evidence-v1".
Definition retention_note (n : nat) (algorithm : string) : string :=
  let action := if algorithm =?s ALGORITHM_DETERMINISTIC
                then "omitted from the active context (not summarized)" else "summarized" in
  newline +:+ newline +:+ "[Retention note: " +:+ show (Z.of_nat n) +:+ " older assistant outputs were " +:+ action
  +:+ " to fit. Query original history for their exact text.]".

Context `{UsageSerde}.
Inductive ContextPreparation :=
| Unchanged (prompt : PromptContext)
| Compacted (prompt : PromptContext) (checkpoint : ContextCheckpoint).

Definition finalize (manager : ContextManager) (p : CompactionPlan) (summary algorithm_version summary_model : string)
    (entry_id : string) (now : Z) : ContextError + ContextPreparation :=
  if is_blank summary then inl InvalidSummary
  else
    let summary := if (0 <? pl_summarized_outputs p)%nat
                   then summary +:+ retention_note (pl_summarized_outputs p) algorithm_version else summary in
    let compacted_messages :=
      pl_protected p ++ [mkProjected (summary_message summary entry_id) [entry_id]] ++ pl_retained p in
    let message_tokens := List.map projected_token_cost compacted_messages in
    let history_after := u64_sum message_tokens in
    let tokens_after := u64_sat_add history_after (cu_fixed_input_tokens (pl_usage p)) in
    if (pl_target_tokens p <? history_after) || (input_limit_for_usage manager (pl_usage p) <? tokens_after) then
      inl (BudgetExceeded ("result is " +:+ show history_after +:+ " history tokens (" +:+ show tokens_after
        +:+ " with overhead), exceeding its admitted budget " +:+ show (pl_target_tokens p)))
    else if negb (bool_decide (pl_trigger p = Manual)) && (pl_tokens_before p <=? tokens_after) then inl NoProgress
    else
      let window := cm_window manager in
      inr (Compacted
        {| pc_messages := compacted_messages;
           pc_message_tokens := message_tokens;
           pc_usage := (pl_usage p) <| cu_input_tokens := None |> <| cu_estimated_input_tokens := tokens_after |>
                         <| cu_context_window := window |> |}
        {| cp_entry_id := entry_id;
           cp_checkpoint_id := "cp_" +:+ entry_id;
           cp_covered_from_entry_id := Some (pl_covered_from_entry_id p);
           cp_cutoff_entry_id := Some (pl_cutoff_entry_id p);
           cp_summary := [Text summary];
           cp_protected_entry_ids := List.concat (List.map pm_source_entry_ids (pl_protected p));
           cp_tokens_before := pl_tokens_before p;
           cp_tokens_after := tokens_after;
           cp_trigger := pl_trigger p;
           cp_phase := Some (pl_phase p);
           cp_algorithm_version := algorithm_version;
           cp_summary_outcome := None;
           cp_model := summary_model;
           cp_context_window := window;
           cp_created_at := now |}).
End Plan.
