(* ===== verification/SessionFork.v ===== *)
(** Forking a session (session/fork.rs): where the copied history ends, the new
    names its entries and runs get, and what becomes of its checkpoints.  The
    fresh ids and the instant are arguments. *)
From S2P Require Import Prelude Json SessionEntry RunJournal Checkpoint Compaction Evidence.

Definition CURRENT_SESSION_VERSION : Z := 3.
Record Session := mkSession {
  ss_id : string;
  ss_version : Z;
  ss_cwd : string;
  ss_model : string;
  ss_name : string;
  ss_parent_session_id : string;
  ss_leaf_id : string;
  ss_entries : list SessionEntry;
  ss_created_at : Z;
  ss_updated_at : Z
}.
#[export] Instance eta_Session : Eta Session := fun s =>
  mkSession (ss_id s) (ss_version s) (ss_cwd s) (ss_model s) (ss_name s) (ss_parent_session_id s) (ss_leaf_id s)
    (ss_entries s) (ss_created_at s) (ss_updated_at s).
Definition latest_session_info (entries : list SessionEntry) : option SessionEntry :=
  List.find (has_type ENTRY_TYPE_SESSION_INFO) (rev entries).
Definition get_session_info (s : Session) : option Value := latest_session_info (ss_entries s) ≫= se_content.

(** * The point *)
Inductive ForkPoint :=
| ThroughEntry (entry_id : string)
| ThroughTurn (entry_id : string)
| LatestSettled.
Definition fork_point_from_rpc (mode entry_id : string) : string + ForkPoint :=
  if (mode =?s "") || (mode =?s "through_entry") then
    if entry_id =?s "" then inl "No message selected to fork from. Choose a persisted message."
    else inr (ThroughEntry entry_id)
  else if mode =?s "through_turn" then
    if entry_id =?s "" then inl "No message selected to fork from. Choose a persisted user message."
    else inr (ThroughTurn entry_id)
  else if mode =?s "latest_settled" then inr LatestSettled
  else inl ("Unsupported fork point mode: " +:+ mode).

(** The index of the last element that satisfies [p]. *)
Definition find_last_index {A} (p : A -> bool) (l : list A) : option nat :=
  last (List.map fst (List.filter (fun x => p (snd x)) (imap pair l))).
(** [entries[start..=end]] *)
Definition inclusive (start end_ : nat) (entries : list SessionEntry) : list SessionEntry :=
  take (S end_ - start) (drop start entries).
Definition turn_end (entries : list SessionEntry) (start : nat) : nat :=
  match find_index (has_type ENTRY_TYPE_USER) (drop (S start) entries) with
  | Some k => (S start + k - 1)%nat
  | None => (List.length entries - 1)%nat
  end.
Definition meta_run_str (e : SessionEntry) : option string := (se_meta e ≫= get "run_id") ≫= as_str.
Definition marker_for (entry_type run_id : string) (e : SessionEntry) : bool :=
  has_type entry_type e && bool_decide (marker_run e = Some run_id).
Definition first_started_run (entries : list SessionEntry) : option string :=
  head (omap (fun e => if has_type ENTRY_TYPE_RUN_STARTED e then marker_run e else None) entries).
Definition resolve_cutoff (entries : list SessionEntry) (point : ForkPoint) : string + nat :=
  match point with
  | ThroughEntry entry_id =>
      match index_of_entry entry_id entries with
      | Some i => inr i
      | None => inl "Fork point not found in the parent session"
      end
  | ThroughTurn entry_id =>
      match index_of_entry entry_id entries with
      | None => inl "Fork point not found in the parent session"
      | Some start =>
          match entries !! start with
          | None => inl "Fork point not found in the parent session"
          | Some first =>
              if negb (has_type ENTRY_TYPE_USER first)
              then inl "A through_turn fork point must identify a persisted user message"
              else
                let end_ := turn_end entries start in
                let turn := inclusive start end_ entries in
                let run_id := match meta_run_str first with
                              | Some run_id => Some run_id
                              | None => first_started_run turn
                              end in
                match run_id with
                | Some run_id =>
                    if List.existsb (marker_for ENTRY_TYPE_RUN_STARTED run_id) turn
                       && negb (List.existsb (marker_for ENTRY_TYPE_RUN_TERMINAL run_id) turn)
                    then inl "The selected turn is not settled yet"
                    else inr end_
                | None => inr end_
                end
          end
      end
  | LatestSettled =>
      match find_last_index (has_type ENTRY_TYPE_RUN_TERMINAL) entries with
      | Some index => inr index
      | None =>
          if List.existsb (has_type ENTRY_TYPE_RUN_STARTED) entries
          then inl "Nothing to clone: the session has no settled run"
          else match find_last_index (fun e => negb (has_type ENTRY_TYPE_SESSION_INFO e)) entries with
               | Some index => inr index
               | None => inl "Nothing to clone: the session has no settled history"
               end
      end
  end.

(** * New names *)

(** The ids a fork draws: for the [i]-th copied entry, for the [k]-th run, for
    its metadata entry, and its own. *)
Record FreshIds := mkFresh {
  fi_entry : nat -> string;
  fi_run : nat -> string;
  fi_info : string;
  fi_session : string
}.

Section Fork.
Context `{JsonText} `{UsageSerde}.
Variables (json_parse : string -> option Value) (fresh : FreshIds) (now : Z).

Definition set_origin (parent_id old_id : string) (meta : Value) : Value :=
  match meta with
  | VObject m =>
      VObject (map_insert "fork_origin"
        (VObject [("session_id", VString parent_id); ("entry_id", VString old_id);
                  ("run_id", json_option_str (map_get "run_id" m ≫= as_str))]) m)
  | other => other
  end.
Definition rename_entry (parent_id : string) (i : nat) (e : SessionEntry) : SessionEntry :=
  e <| se_id := fi_entry fresh i |>
    <| se_meta := Some (set_origin parent_id (se_id e) (default (VObject []) (se_meta e))) |>.
Definition rename_entries (parent_id : string) (entries : list SessionEntry) : list SessionEntry :=
  imap (rename_entry parent_id) entries.
Definition id_map (entries : list SessionEntry) : gmap string string :=
  List.fold_left (fun m x => <[se_id (snd x) := fi_entry fresh (fst x)]> m) (imap pair entries) ∅.

(** [run_ids.entry(old).or_insert_with(generate_id)] *)
Definition run_name (run_ids : gmap string string) (old : string) : string * gmap string string :=
  match run_ids !! old with
  | Some new => (new, run_ids)
  | None => let new := fi_run fresh (size run_ids) in (new, <[old := new]> run_ids)
  end.
Definition rename_meta_run (run_ids : gmap string string) (meta : option Value)
    : option Value * gmap string string :=
  match meta with
  | Some (VObject m) =>
      match map_get "run_id" m ≫= as_str with
      | Some old =>
          let '(new, run_ids) := run_name run_ids old in
          (Some (VObject (map_insert "run_id" (VString new) m)), run_ids)
      | None => (meta, run_ids)
      end
  | _ => (meta, run_ids)
  end.
Definition rename_marker_run (parent_id : string) (run_ids : gmap string string) (content : option Value)
    : option Value * gmap string string :=
  match content with
  | Some (VObject m) =>
      match map_get "run_id" m ≫= as_str with
      | Some old =>
          let '(new, run_ids) := run_name run_ids old in
          (Some (VObject (map_insert "source_run_id" (VString old)
                   (map_insert "source_session_id" (VString parent_id)
                      (map_insert "inherited" (VBool true)
                         (map_insert "run_id" (VString new) m))))), run_ids)
      | None => (content, run_ids)
      end
  | _ => (content, run_ids)
  end.
Definition rename_runs_of (parent_id : string) (run_ids : gmap string string) (e : SessionEntry)
    : SessionEntry * gmap string string :=
  let '(meta, run_ids) := rename_meta_run run_ids (se_meta e) in
  let e := e <| se_meta := meta |> in
  if has_type ENTRY_TYPE_RUN_STARTED e || has_type ENTRY_TYPE_RUN_TERMINAL e then
    let '(content, run_ids) := rename_marker_run parent_id run_ids (se_content e) in
    (e <| se_content := content |>, run_ids)
  else (e, run_ids).
Fixpoint rename_runs (parent_id : string) (run_ids : gmap string string) (entries : list SessionEntry)
    : list SessionEntry :=
  match entries with
  | [] => []
  | e :: rest =>
      let '(e, run_ids) := rename_runs_of parent_id run_ids e in
      e :: rename_runs parent_id run_ids rest
  end.

(** * Checkpoints *)
Definition remap_key (ids : gmap string string) (key : string) (content : Map) : option Map :=
  old ← (map_get key content ≫= as_str);
  new ← ids !! old;
  Some (map_insert key (VString new) content).
Definition remap_protected (ids : gmap string string) (content : Map) : option Map :=
  match map_get "protected_entry_ids" content with
  | None => Some content
  | Some protected =>
      values ← as_array protected;
      mapped ← mapM (fun v => old ← as_str v; ids !! old) values;
      Some (map_insert "protected_entry_ids" (json_strings mapped) content)
  end.
Definition remap_summary (ids : gmap string string) (content : Map) : option Map :=
  match map_get "summary" content with
  | None => Some content
  | Some summary =>
      blocks ← blocks_from_value summary;
      blocks ← remap_evidence_references json_parse ids blocks;
      Some (map_insert "summary" (VArray (List.map block_to_value blocks)) content)
  end.
(** What becomes of an entry; [None]: it is dropped. *)
Definition remap_checkpoint (ids : gmap string string) (e : SessionEntry) : option SessionEntry :=
  if negb (has_type ENTRY_TYPE_COMPACTION e) then Some e
  else match se_content e with
       | Some (VObject content) =>
           if bool_decide (map_get "schema_version" content ≫= as_u64 = Some 3) then
             content ← remap_key ids "covered_from_entry_id" content;
             content ← remap_key ids "cutoff_entry_id" content;
             content ← remap_protected ids content;
             content ← remap_summary ids content;
             Some (e <| se_content := Some (VObject content) |>)
           else Some e
       | _ => Some e
       end.

(** * The child *)
Definition info_str (key : string) (info : option Value) : option string := (info ≫= get key) ≫= as_str.
Definition nonempty (s : option string) : option string :=
  match s with Some "" => None | other => other end.
Definition copied_entries (entries : list SessionEntry) (cutoff : nat) : list SessionEntry :=
  List.filter (fun e => negb (has_type ENTRY_TYPE_SESSION_INFO e)) (take (S cutoff) entries).
Definition fork_entries (parent_id : string) (copied : list SessionEntry) : list SessionEntry :=
  omap (remap_checkpoint (id_map copied)) (rename_runs parent_id ∅ (rename_entries parent_id copied)).
Definition build_fork_session_with_mapping (parent : Session) (point : ForkPoint)
    : string + (Session * gmap string string) :=
  match resolve_cutoff (ss_entries parent) point with
  | inl e => inl e
  | inr cutoff =>
      if List.existsb (fun e => negb (has_type ENTRY_TYPE_SESSION_INFO e) && is_blank (se_id e))
           (take (S cutoff) (ss_entries parent))
      then inl "Fork history contains an entry without a persisted identity"
      else
        let copied := copied_entries (ss_entries parent) cutoff in
        let entries := fork_entries (ss_id parent) copied in
        let info := get_session_info parent in
        let thinking_level := default "high" (nonempty (info_str "thinking_level" info)) in
        let model := default (ss_model parent) (nonempty (info_str "model" info)) in
        let created_by := default "tui" (info_str "created_by" info) in
        let parent_name := default (ss_name parent) (nonempty (info_str "session_name" info)) in
        let fork_name := if parent_name =?s "" then "(fork)" else parent_name +:+ " (fork)" in
        let info_entry := blank_entry (fi_info fresh) now ENTRY_TYPE_SESSION_INFO "system"
          (Some (VObject [("cwd", VString (ss_cwd parent)); ("session_name", VString fork_name);
                          ("parent_session_id", VString (ss_id parent)); ("created_by", VString created_by);
                          ("model", VString model); ("thinking_level", VString thinking_level)])) in
        inr ({| ss_id := fi_session fresh;
                ss_version := CURRENT_SESSION_VERSION;
                ss_cwd := ss_cwd parent;
                ss_model := model;
                ss_name := fork_name;
                ss_parent_session_id := ss_id parent;
                ss_leaf_id := "";
                ss_entries := info_entry :: entries;
                ss_created_at := now;
                ss_updated_at := now |}, id_map copied)
  end.
Definition build_fork_session (parent : Session) (point : ForkPoint) : string + Session :=
  match build_fork_session_with_mapping parent point with inl e => inl e | inr (s, _) => inr s end.
End Fork.

(** [set_creation_provenance] *)
Definition provenance_content (created_by creator_id : string) (info : Map) : Map :=
  let info := map_insert "created_by" (VString created_by) info in
  if creator_id =?s "" then map_remove "creator_id" info
  else map_insert "creator_id" (VString creator_id) info.
Fixpoint set_info_provenance (created_by creator_id : string) (entries : list SessionEntry) : list SessionEntry :=
  match entries with
  | [] => []
  | e :: rest =>
      if has_type ENTRY_TYPE_SESSION_INFO e then
        match se_content e with
        | Some (VObject info) => e <| se_content := Some (VObject (provenance_content created_by creator_id info)) |> :: rest
        | _ => entries
        end
      else e :: set_info_provenance created_by creator_id rest
  end.
Definition set_creation_provenance (created_by creator_id : string) (s : Session) : Session :=
  s <| ss_entries ::= set_info_provenance created_by creator_id |>.
