(* ===== verification/CompactionProps.v ===== *)
(** What a compaction commits: the shape of a plan, and the prompt a restart
    rebuilds from the checkpoint. *)
From S2P Require Import Prelude Json SessionEntry Checkpoint Compaction CompactionPlan Evidence.

(** * Lists *)
Lemma find_index_some {A} (p : A -> bool) l i : find_index p l = Some i ->
  exists x, l !! i = Some x /\ p x = true.
Proof.
  revert i. induction l as [|x l IH]; intros i; cbn; [done|]. destruct (p x) eqn:E.
  - intros [= <-]. by exists x.
  - destruct (find_index p l) as [j|]; [|done]. intros [= <-]. by apply IH.
Qed.
Lemma find_index_first {A} (p : A -> bool) l i x : l !! i = Some x -> p x = true ->
  (forall j y, l !! j = Some y -> p y = true -> j = i) -> find_index p l = Some i.
Proof.
  revert i. induction l as [|z l IH]; intros i Hx Hp Hu; [done|]. cbn. destruct (p z) eqn:E.
  - f_equal. exact (Hu O z eq_refl E).
  - destruct i as [|i]; [cbn in Hx; congruence|]. rewrite (IH i); [done|done|done|].
    intros j y Hj Hy. specialize (Hu (S j) y Hj Hy). lia.
Qed.
Lemma find_index_app {A} (p : A -> bool) l r i : find_index p l = Some i -> find_index p (l ++ r) = Some i.
Proof.
  revert i. induction l as [|x l IH]; intros i; cbn; [done|]. destruct (p x); [done|].
  destruct (find_index p l) as [j|]; [|done]. by rewrite (IH j).
Qed.
Lemma omap_sublist {A B} (f g : A -> option B) l : (forall x y, f x = Some y -> g x = Some y) ->
  sublist (omap f l) (omap g l).
Proof.
  intros Hfg. induction l as [|x l IH]; cbn; [constructor|]. destruct (f x) as [y|] eqn:E.
  - rewrite (Hfg x y E). by constructor.
  - destruct (g x); [by apply sublist_cons|done].
Qed.
Lemma omap_cons_some {A B} (f : A -> option B) x y l : f x = Some y -> omap f (x :: l) = y :: omap f l.
Proof. intros E. cbn. by rewrite E. Qed.
Lemma sublist_rev {A} (l k : list A) : sublist l k -> sublist (rev l) (rev k).
Proof.
  induction 1 as [|x l k _ IH|x l k _ IH]; cbn; [constructor| |].
  - by apply sublist_app.
  - by apply sublist_inserts_r.
Qed.

(** * Blank text

    A text with a character that is no white space is not blank. *)
Section Visible.
Variable b : N.
Hypotheses (b_visible : ws1 b = false) (b_ascii : (b < 128)%N).
Lemma strip_ws_keeps width fuel l :
  (forall l, In b l -> In b (drop (width l) l)) -> In b l -> In b (strip_ws width fuel l).
Proof.
  intros Hw. revert l. induction fuel as [|fuel IH]; intros l Hin; cbn; [done|].
  destruct (width l) as [|n] eqn:E; [done|]. apply IH. rewrite <- E. by apply Hw.
Qed.
Lemma ws2_bytes x y : ws2 x y = true -> (128 <= x)%N /\ (128 <= y)%N.
Proof. unfold ws2. rewrite andb_true_iff, orb_true_iff, !N.eqb_eq. lia. Qed.
Lemma ws3_bytes x y z : ws3 x y z = true -> (128 <= x)%N /\ (128 <= y)%N /\ (128 <= z)%N.
Proof. unfold ws3. rewrite !orb_true_iff, !andb_true_iff, !orb_true_iff, !andb_true_iff, !N.eqb_eq, !N.leb_le. lia. Qed.
Ltac no_white :=
  repeat match goal with
  | E : ws2 _ _ = true |- _ => apply ws2_bytes in E
  | E : ws3 _ _ _ = true |- _ => apply ws3_bytes in E
  end; cbn [In drop]; intros Hin;
  repeat match goal with Hor : _ \/ _ |- _ => destruct Hor end; subst; try congruence; try lia; tauto.
Lemma ws_width_keeps l : In b l -> In b (drop (ws_width l) l).
Proof. unfold ws_width. destruct l as [|x [|y [|z l]]]; repeat case_match; no_white. Qed.
Lemma ws_width_rev_keeps l : In b l -> In b (drop (ws_width_rev l) l).
Proof. unfold ws_width_rev. destruct l as [|x [|y [|z l]]]; repeat case_match; no_white. Qed.
Lemma visible_not_blank s : In b (string_bytes s) -> is_blank s = false.
Proof.
  intros Hin. unfold is_blank, trim. set (l := strip_ws ws_width _ _).
  assert (Hl : In b l) by (apply strip_ws_keeps; [apply ws_width_keeps|done]).
  assert (Hr : In b (strip_ws ws_width_rev (List.length l) (rev l))).
  { apply strip_ws_keeps; [apply ws_width_rev_keeps|]. by apply in_rev in Hl. }
  apply in_rev in Hr. by destruct (rev (strip_ws _ _ _)) as [|x r].
Qed.
End Visible.

(** * Anchors *)
Section Anchors.
Lemma metadata_get_insert key key' v m :
  metadata_get key (m <| am_metadata ::= fun md => Some (map_insert key' v (default [] md)) |>)
  = if key' =?s key then Some v else metadata_get key m.
Proof.
  unfold metadata_get. cbn. rewrite map_get_insert. destruct (key' =?s key); [done|].
  by destruct (am_metadata m).
Qed.
Lemma protected_text_spec m a : protected_text m = Some a ->
  journal_entry_id a = journal_entry_id m /\ is_Some (journal_entry_id m)
  /\ am_role a = am_role m /\ am_content a = List.filter is_written_text (am_content m)
  /\ am_content a <> [] /\ metadata_flag INTERNAL_CHECKPOINT_METADATA_KEY a = false
  /\ is_protected a = true /\ (am_role m = "user" \/ am_role m = "assistant")
  /\ metadata_flag INTERNAL_CHECKPOINT_METADATA_KEY m = false.
Proof.
  unfold protected_text. destruct (negb _ || _) eqn:G; [done|]. bool_prop.
  destruct (journal_entry_id m) as [id|] eqn:Hid; [|done]. cbn [mbind option_bind].
  destruct (List.filter is_written_text (am_content m)) as [|b bs] eqn:F; [done|]. intros [= <-].
  assert (Hne : (id =?s "") = false).
  { unfold journal_entry_id in Hid. destruct (mbind as_str (metadata_get JOURNAL_ENTRY_ID_KEY m)) as [s|]; [|done].
    cbn in Hid. destruct (s =?s "") eqn:E; [done|]. by injection Hid as <-. }
  split_and!; try done.
  - unfold journal_entry_id. cbn. by rewrite Hne.
  - by apply orb_true_iff in H as [?%String.eqb_eq|?%String.eqb_eq]; auto.
Qed.
Lemma filter_written_idem l : List.filter is_written_text (List.filter is_written_text l) = List.filter is_written_text l.
Proof.
  induction l as [|b l IH]; cbn; [done|]. destruct (is_written_text b) eqn:E; cbn; [rewrite E|]; congruence.
Qed.
(** The anchor of an anchor is that anchor. *)
Lemma protected_text_idem m a : protected_text m = Some a -> protected_text a = Some a.
Proof.
  intros Hp. destruct (protected_text_spec m a Hp) as (Hid & [id Hm] & Hr & Hc & Hne & Hf & Ha & Hrole & _).
  assert (Ga : negb ((am_role a =?s "user") || (am_role a =?s "assistant"))
               || metadata_flag INTERNAL_CHECKPOINT_METADATA_KEY a = false).
  { rewrite Hf, Hr, orb_false_r. by destruct Hrole as [-> | ->]. }
  unfold protected_text in Hp |- *. rewrite Ga. rewrite Hid, Hm. cbn [mbind option_bind].
  rewrite Hc, filter_written_idem. destruct (negb _ || _); [done|].
  rewrite Hm in Hp. cbn [mbind option_bind] in Hp. by rewrite Hr.
Qed.
End Anchors.

(** * Originals *)
Section Originals.
Context `{JsonText}.
(** What a message keeps of its text when its turn is compacted. *)
Definition anchor (m : AgentMessage) : option ProjectedMessage :=
  option_map (fun a => mkProjected a [default "" (journal_entry_id a)]) (protected_text m).
Definition anchor_of (item : ProjectedMessage) : option ProjectedMessage := anchor (pm_message item).
Definition item_id (item : ProjectedMessage) : string := default "" (journal_entry_id (pm_message item)).

Lemma anchor_spec m a : anchor m = Some a ->
  exists id, journal_entry_id m = Some id /\ journal_entry_id (pm_message a) = Some id
  /\ pm_source_entry_ids a = [id] /\ item_id a = id /\ protected_text m = Some (pm_message a).
Proof.
  unfold anchor. destruct (protected_text m) as [b|] eqn:E; [|done]. intros [= <-].
  destruct (protected_text_spec m b E) as (Hid & [id Hm] & _).
  exists id. unfold item_id. cbn. by rewrite Hid, Hm.
Qed.
Lemma anchor_idem m a : anchor m = Some a -> anchor_of a = Some a.
Proof.
  intros Ha. destruct (anchor_spec m a Ha) as (id & _ & Hid & Hs & _ & Hp).
  unfold anchor_of, anchor. rewrite (protected_text_idem _ _ Hp). cbn. rewrite Hid. destruct a. cbn in *. congruence.
Qed.
Lemma project_original_anchor ids m a : project_original ids m = Some a ->
  anchor m = Some a /\ item_id a ∈ ids.
Proof.
  unfold project_original. destruct (journal_entry_id m) as [id|] eqn:Hid; [|done]. cbn [mbind option_bind].
  case_bool_decide as Hin; [|done]. destruct (protected_text m) as [b|] eqn:E; [|done]. cbn [mbind option_bind].
  intros [= <-]. unfold anchor. rewrite E. split; [done|]. unfold item_id. cbn.
  destruct (protected_text_spec m b E) as (-> & _). by rewrite Hid.
Qed.
Lemma project_original_of_anchor ids m a : anchor m = Some a -> item_id a ∈ ids ->
  project_original ids m = Some a.
Proof.
  intros Ha Hin. destruct (anchor_spec m a Ha) as (id & Hm & Hid & Hs & Hi & Hp).
  unfold project_original. rewrite Hm, Hp. cbn [mbind option_bind].
  rewrite bool_decide_true; [|congruence]. rewrite Hid. cbn. f_equal. destruct a. cbn in *. congruence.
Qed.

(** Originals with distinct ids are the anchors. *)
Lemma protected_originals_cons seen item rest :
  protected_originals seen (item :: rest)
  = match anchor_of item with
    | Some a => if bool_decide (item_id a ∈ seen) then protected_originals seen rest
                else a :: protected_originals (item_id a :: seen) rest
    | None => protected_originals seen rest
    end.
Proof. cbn [protected_originals]. unfold anchor_of, anchor. by destruct (protected_text (pm_message item)). Qed.
Lemma omap_cons_match {A B} (f : A -> option B) x l :
  omap f (x :: l) = match f x with Some y => y :: omap f l | None => omap f l end.
Proof. reflexivity. Qed.
Lemma protected_originals_anchors items : forall seen,
  base.NoDup (List.map item_id (omap anchor_of items)) ->
  (forall a, In a (omap anchor_of items) -> item_id a ∉ seen) ->
  protected_originals seen items = omap anchor_of items.
Proof.
  induction items as [|item items IH]; intros seen Hnd Hseen; [done|].
  rewrite protected_originals_cons. rewrite omap_cons_match in Hnd, Hseen |- *.
  destruct (anchor_of item) as [a|]; [|by apply IH].
  inversion_clear Hnd as [|? ? Hnew Hnd'].
  rewrite bool_decide_false; [|apply Hseen; by left]. f_equal. apply IH; [done|].
  intros b Hb [Heq|Hin]%elem_of_cons.
  - apply Hnew. rewrite <- Heq. by apply list_elem_of_In, List.in_map.
  - apply (Hseen b); [by right|done].
Qed.

(** Giving outputs up keeps the order, and keeps what the user wrote. *)
Lemma retain_originals_sublist l room : sublist (snd (retain_originals l room)) l.
Proof.
  revert room. induction l as [|item l IH]; intros room; cbn; [constructor|].
  destruct (is_role "user" item).
  - specialize (IH room). destruct (retain_originals l room). by constructor.
  - destruct (_ <=? room).
    + specialize (IH (u64_sat_sub room (projected_token_cost item))). destruct (retain_originals l _). by constructor.
    + specialize (IH room). destruct (retain_originals l room). by apply sublist_cons.
Qed.
Lemma retain_originals_users l room item : In item l -> is_role "user" item = true ->
  In item (snd (retain_originals l room)).
Proof.
  revert room. induction l as [|x l IH]; intros room; cbn; [done|].
  destruct (is_role "user" x) eqn:U.
  - specialize (IH room). destruct (retain_originals l room). intros [<-|Hin] Hu; [by left|right; by apply IH].
  - intros [<-|Hin] Hu; [congruence|]. destruct (_ <=? room).
    + specialize (IH (u64_sat_sub room (projected_token_cost x))). destruct (retain_originals l _). right. by apply IH.
    + specialize (IH room). destruct (retain_originals l room). by apply IH.
Qed.
Lemma kept_sublist l room : sublist (rev (snd (retain_originals (rev l) room))) l.
Proof.
  rewrite <- (rev_involutive l) at 2. apply sublist_rev, retain_originals_sublist.
Qed.

(** The originals a checkpoint names are read back from the messages. *)
Lemma anchors_by_id msgs : base.NoDup (omap journal_entry_id msgs) ->
  base.NoDup (List.map item_id (omap anchor msgs)).
Proof.
  intros Hnd. assert (Hs : sublist (List.map item_id (omap anchor msgs)) (omap journal_entry_id msgs)).
  { clear Hnd. induction msgs as [|m msgs IH]; [constructor|]. rewrite !omap_cons_match.
    destruct (anchor m) as [a|] eqn:Ha.
    - destruct (anchor_spec m a Ha) as (id & -> & _ & _ & Hi & _). cbn. rewrite Hi. by constructor.
    - destruct (journal_entry_id m); [by apply sublist_cons|done]. }
  eapply sublist_NoDup; eauto.
Qed.
Lemma sublist_in {A} (l k : list A) x : sublist l k -> In x l -> In x k.
Proof. intros Hs Hx. apply list_elem_of_In. eapply elem_of_submseteq; [by apply list_elem_of_In|by apply sublist_submseteq]. Qed.
Lemma same_id_same (l : list ProjectedMessage) a b : base.NoDup (List.map item_id l) ->
  In a l -> In b l -> item_id a = item_id b -> a = b.
Proof.
  induction l as [|x l IH]; cbn; [done|]. intros Hnd Ha Hb Heq. inversion_clear Hnd as [|? ? Hnew Hnd'].
  assert (Hno : forall y, In y l -> item_id y = item_id x -> False).
  { intros y Hy E. apply Hnew. rewrite <- E. by apply list_elem_of_In, List.in_map. }
  destruct Ha as [->|Ha], Hb as [->|Hb]; auto; exfalso; eauto.
Qed.
Lemma originals_by_name ids msgs : forall kept,
  base.NoDup (List.map item_id (omap anchor msgs)) -> sublist kept (omap anchor msgs) ->
  (forall a, In a (omap anchor msgs) -> item_id a ∈ ids <-> In a kept) ->
  omap (project_original ids) msgs = kept.
Proof.
  induction msgs as [|m msgs IH]; intros kept Hnd Hs Hids; [by apply sublist_nil_r in Hs as ->|].
  rewrite omap_cons_match in Hnd, Hs, Hids |- *. destruct (anchor m) as [a|] eqn:Ha.
  - cbn in Hnd. inversion_clear Hnd as [|? ? Hnew Hnd'].
    assert (Hno : forall b, In b (omap anchor msgs) -> b <> a).
    { intros b Hb ->. apply Hnew. by apply list_elem_of_In, List.in_map. }
    apply sublist_cons_r in Hs as [Hs | (kept' & -> & Hs)].
    + destruct (project_original ids m) as [b|] eqn:Hp.
      * apply project_original_anchor in Hp as [Hab Hin]. rewrite Ha in Hab. injection Hab as <-.
        exfalso. apply (Hno a); [|done]. eapply sublist_in; [done|]. apply Hids; [by left|done].
      * apply IH; [done|done|]. intros b Hb. apply Hids. by right.
    + rewrite (project_original_of_anchor ids m a Ha); [|apply Hids; by left]. f_equal.
      apply IH; [done|done|]. intros b Hb. rewrite Hids by (by right). cbn. specialize (Hno b Hb). naive_solver.
  - destruct (project_original ids m) as [b|] eqn:Hp; [|by apply IH].
    apply project_original_anchor in Hp as [Hab _]. congruence.
Qed.
Lemma originals_read_back msgs kept :
  base.NoDup (omap journal_entry_id msgs) -> sublist kept (omap anchor msgs) ->
  omap (project_original (List.concat (List.map pm_source_entry_ids kept))) msgs = kept.
Proof.
  intros Hnd Hs. apply anchors_by_id in Hnd. apply originals_by_name; [done|done|].
  assert (Hsrc : forall b, In b kept -> pm_source_entry_ids b = [item_id b]).
  { intros b Hb. apply (sublist_in _ _ _ Hs), in_omap in Hb as (m & _ & Hm).
    destruct (anchor_spec m b Hm) as (id & _ & _ & -> & -> & _). done. }
  intros a Ha. rewrite list_elem_of_In, List.in_concat. split.
  - intros (l & Hl & Hin). apply List.in_map_iff in Hl as (b & <- & Hb). rewrite (Hsrc b Hb) in Hin.
    destruct Hin as [Heq|[]]. rewrite <- (same_id_same _ b a Hnd); [done| |done|done]. by eapply sublist_in.
  - intros Hk. exists (pm_source_entry_ids a). split; [by apply List.in_map|]. rewrite (Hsrc a Hk). by left.
Qed.
End Originals.

(** * The shape of a plan *)
Section Plans.
Context `{JsonText}.
Definition originals_kept (removed : list ProjectedMessage) (room : u64) : list ProjectedMessage :=
  rev (snd (retain_originals (rev (protected_originals [] removed)) room)).

Record planned_at (manager : ContextManager) (prompt : PromptContext) (tokens_before : u64)
    (trigger : CompactionTrigger) (summary_cap : u64) (cut : nat) (p : CompactionPlan) : Prop := {
  pa_removed : pl_removed p = take cut (pc_messages prompt);
  pa_retained : pl_retained p = drop cut (pc_messages prompt);
  pa_protected : exists room, pl_protected p = originals_kept (take cut (pc_messages prompt)) room;
  pa_cutoff : first_named (rev (List.concat (List.map pm_source_entry_ids (take cut (pc_messages prompt)))))
              = Some (pl_cutoff_entry_id p);
  pa_usage : pl_usage p = pc_usage prompt;
  pa_trigger : pl_trigger p = trigger;
  pa_before : pl_tokens_before p = tokens_before;
  pa_summary_budget : pl_summary_budget p = Z.min (Z.max (cm_window manager / 8) 1) summary_cap;
  pa_outputs : (pl_summarized_outputs p <= List.length (protected_originals [] (take cut (pc_messages prompt))))%nat;
  pa_fits : let room := u64_sat_sub (input_limit manager prompt) (cu_fixed_input_tokens (pc_usage prompt)) in
            let maximum := Z.min MAX_EXPANDED_HISTORY (u64_sat_mul room 3 / 4) in
            let required := u64_sat_add (u64_sat_add (token_total (pl_protected p ++ pl_retained p))
                                           (pl_summary_budget p)) 64 in
            required <= maximum /\ pl_target_tokens p = Z.max (Z.min TARGET_HISTORY maximum) required
}.
Lemma retain_originals_count l room : (fst (retain_originals l room) <= List.length l)%nat.
Proof.
  revert room. induction l as [|item l IH]; intros room; cbn; [done|].
  destruct (is_role "user" item); [|destruct (_ <=? room)].
  - specialize (IH room). destruct (retain_originals l room). cbn in *. lia.
  - specialize (IH (u64_sat_sub room (projected_token_cost item))). destruct (retain_originals l _). cbn in *. lia.
  - specialize (IH room). destruct (retain_originals l room). cbn in *. lia.
Qed.
Lemma plan_at_compact manager prompt cut tokens_before trigger phase instructions cap p :
  plan_at manager prompt cut tokens_before (input_limit manager prompt) trigger phase instructions cap
  = inr (PlanCompact p) ->
  planned_at manager prompt tokens_before trigger cap cut p.
Proof.
  unfold plan_at. set (removed := take cut (pc_messages prompt)).
  set (originals := protected_originals [] removed). set (room := u64_sat_sub (Z.min MAX_EXPANDED_HISTORY _) _).
  pose proof (retain_originals_count (rev originals) room) as Hcount.
  assert (Hkept : originals_kept removed room = rev (snd (retain_originals (rev originals) room))) by done.
  destruct (retain_originals (rev originals) room) as [given_up kept] eqn:Hr.
  destruct (_ <? _) eqn:Hfit; [done|]. apply Z.ltb_ge in Hfit.
  destruct (first_named _); [|done]. destruct (first_named (rev _)) as [cutoff|] eqn:Hc; [|done].
  intros [= <-]. rewrite length_rev in Hcount. constructor; cbn; try done.
  by exists room.
Qed.

(** Where a compaction cuts: everything, or a turn-aware cut, moved behind the
    last summary. *)
Definition behind_summary (messages : list ProjectedMessage) (cut : nat) : nat :=
  match last_summary messages with Some i => Nat.max cut (S i) | None => cut end.
Definition cut_choice (messages : list ProjectedMessage) (cut : nat) : Prop :=
  (0 < cut <= List.length messages)%nat
  /\ (forall i, last_summary messages = Some i -> (i < cut)%nat)
  /\ (cut = List.length messages
      \/ exists costs keep all c, turn_aware_cut messages costs keep all = Some c /\ cut = behind_summary messages c).
Lemma last_summary_lt messages i : last_summary messages = Some i -> (i < List.length messages)%nat.
Proof.
  unfold last_summary. intros Hl. apply last_Some in Hl as (l & Hl).
  assert (Hin : In i (l ++ [i])) by (apply in_or_app; right; by left).
  rewrite <- Hl in Hin. apply List.in_map_iff in Hin as ([j x] & Heq & Hin). cbn in Heq. subst j.
  apply filter_In in Hin as [Hin _]. apply in_imap_pair in Hin as Hy.
  by apply lookup_lt_Some in Hy.
Qed.
Lemma plan_compact manager prompt trigger phase instructions cap p :
  plan manager prompt trigger phase instructions cap = inr (PlanCompact p) ->
  exists cut tokens_before, cut_choice (pc_messages prompt) cut
    /\ planned_at manager prompt tokens_before trigger cap cut p.
Proof.
  unfold plan. set (M := pc_messages prompt). destruct (is_empty M) eqn:HM; [done|].
  destruct (_ && _); [done|]. destruct (_ <=? _); [done|]. destruct (_ && _); [done|].
  set (keep := if bool_decide (trigger = Manual) then _ else _).
  set (costs := message_token_costs prompt).
  set (boundary := match turn_aware_cut M costs keep (bool_decide (trigger = Manual)) with
                   | Some cut => Some cut
                   | None => if allow_full_active_turn trigger phase then Some (List.length M) else None
                   end).
  destruct boundary as [c|] eqn:Hb; [|by destruct (_ && _)].
  set (c1 := match last_summary M with Some i => Nat.max c (S i) | None => c end).
  set (c2 := if _ && _ then _ else c1).
  match goal with |- (if ?b then _ else _) = _ -> _ => destruct b eqn:Hg; [done|] end.
  match goal with |- (if ?b then _ else _) = _ -> _ => destruct b; [done|] end. intros Hp.
  exists c2. eexists. split; [|by apply plan_at_compact in Hp]. clear Hp. bool_prop.
  apply Nat.eqb_neq in H0. apply Nat.ltb_ge in H2.
  assert (Hlast : forall i, last_summary M = Some i -> (i < c2)%nat).
  { intros i Hi. pose proof (last_summary_lt M i Hi). unfold c2. destruct (_ && _); [done|]. unfold c1. rewrite Hi. lia. }
  split; [lia|]. split; [done|]. unfold c2 in *. destruct (_ && _); [by left|].
  unfold boundary in Hb. destruct (turn_aware_cut _ _ _ _) as [d|] eqn:Hd.
  - injection Hb as ->. right. do 3 eexists. exists c. split; [exact Hd|done].
  - destruct (allow_full_active_turn trigger phase); [|done]. injection Hb as <-. left.
    unfold c1. destruct (last_summary M) as [i|] eqn:Hi; [|done]. apply last_summary_lt in Hi. lia.
Qed.
End Plans.

(** * What staging and committing keep of a plan *)
Section Commits.
Context `{JsonText}.
Record same_plan (p q : CompactionPlan) : Prop := {
  sp_retained : pl_retained q = pl_retained p;
  sp_protected : pl_protected q = pl_protected p;
  sp_target : pl_target_tokens q = pl_target_tokens p;
  sp_summary : pl_summary_budget q = pl_summary_budget p;
  sp_outputs : pl_summarized_outputs q = pl_summarized_outputs p;
  sp_usage : pl_usage q = pl_usage p;
  sp_trigger : pl_trigger q = pl_trigger p
}.
Lemma rebase_plan_spec raw cutoff p q : rebase_plan raw cutoff p = Some q ->
  same_plan p q /\ pl_cutoff_entry_id q = cutoff.
Proof.
  unfold rebase_plan. destruct (List.existsb _ _); [by intros [= <-]|].
  destruct (mbind journal_entry_id (head raw)); [|done]. by intros [= <-].
Qed.
Lemma stage_ready interrupted manager prompt raw trigger phase instructions wants q evidence reserve :
  stage interrupted manager prompt raw trigger phase instructions wants = inr (Ready q evidence reserve) ->
  exists p cutoff,
    plan manager prompt trigger phase instructions (u64_add EVIDENCE_TOKENS (summary_allowance manager wants))
      = inr (PlanCompact p)
    /\ raw_cutoff raw p = Some cutoff
    /\ reserve = u64_sat_sub (summary_allowance manager wants) SUMMARY_SLOT_MARGIN
    /\ build interrupted raw cutoff (pl_instructions p)
         (u64_sat_sub (u64_sat_sub (u64_sat_sub (pl_summary_budget p) (note_tokens p)) reserve) header_reserve)
       = inr evidence
    /\ same_plan p q /\ pl_cutoff_entry_id q = cutoff.
Proof.
  unfold stage. destruct (interrupted AtStart); [done|].
  destruct (plan _ _ _ _ _ _) as [|[|p]] eqn:Hp; [done|done|].
  destruct (raw_cutoff raw p) as [cutoff|] eqn:Hc; [|done].
  destruct (build _ _ _ _ _) as [|e] eqn:Hb; [done|]. destruct (interrupted AfterEvidence); [done|].
  destruct (rebase_plan raw cutoff p) as [r|] eqn:Hr; [|done]. intros [= <- <- <-].
  apply rebase_plan_spec in Hr as [Hs Hcut]. by exists p, cutoff.
Qed.

Context `{UsageSerde}.
Definition committed_text (p : CompactionPlan) (summary algorithm : string) : string :=
  if (0 <? pl_summarized_outputs p)%nat
  then summary +:+ retention_note (pl_summarized_outputs p) algorithm else summary.
(** What a compaction of [p] leaves behind: the prompt and its checkpoint. *)
Record committed (p : CompactionPlan) (ids : list string) (prompt : PromptContext) (c : ContextCheckpoint) : Prop := {
  co_summary : exists summary algorithm, is_blank summary = false
    /\ cp_summary c = [Text (committed_text p summary algorithm)];
  co_entry : In (cp_entry_id c) ids;
  co_cutoff : cp_cutoff_entry_id c = Some (pl_cutoff_entry_id p);
  co_protected : cp_protected_entry_ids c = List.concat (List.map pm_source_entry_ids (pl_protected p));
  co_messages : pc_messages prompt
    = pl_protected p
      ++ [mkProjected (summary_message (checkpoint_summary_text c) (cp_entry_id c)) [cp_entry_id c]]
      ++ pl_retained p
}.
Lemma finalize_compacted manager p summary algorithm model entry_id now prompt c :
  finalize manager p summary algorithm model entry_id now = inr (Compacted prompt c) ->
  committed p [entry_id] prompt c.
Proof.
  unfold finalize. destruct (is_blank summary) eqn:Hb; [done|]. destruct (_ || _); [done|]. destruct (_ && _); [done|].
  intros [= <- <-]. constructor; cbn -[summary_message retention_note]; auto.
  by exists summary, algorithm.
Qed.
Lemma finalize_changes manager p summary algorithm model entry_id now prompt :
  finalize manager p summary algorithm model entry_id now <> inr (Unchanged prompt).
Proof. unfold finalize. by repeat case_match. Qed.
Lemma committed_ids p ids ids' prompt c : (forall x, In x ids -> In x ids') ->
  committed p ids prompt c -> committed p ids' prompt c.
Proof. intros Hi [? ? ? ? ?]. constructor; auto. Qed.
Lemma with_outcome_commits p ids reason usage prepared prompt c :
  (forall prompt c, prepared = Compacted prompt c -> committed p ids prompt c) ->
  with_outcome reason usage prepared = Compacted prompt c -> committed p ids prompt c.
Proof.
  intros Hp. destruct prepared as [|prompt0 c0]; [done|]. intros [= <- <-].
  destruct (Hp prompt0 c0 eq_refl) as [? ? ? ? Hm]. by constructor.
Qed.
(** Either strategy commits the plan it staged. *)
Lemma prepare_commits interrupted manager prompt raw trigger phase instructions entry_id now prompt' c :
  prepare interrupted manager prompt raw trigger phase instructions entry_id now = inr (Compacted prompt' c) ->
  exists q evidence reserve,
    stage interrupted manager prompt raw trigger phase instructions false = inr (Ready q evidence reserve)
    /\ committed q [entry_id] prompt' c.
Proof.
  unfold prepare. destruct (stage _ _ _ _ _ _ _ _) as [|[|q evidence reserve]]; [done|done|].
  intros Hf. exists q, evidence, reserve. split; [done|]. by eapply finalize_compacted.
Qed.
Lemma handoff_commits interrupted manager prompt raw trigger phase instructions provider ids now prompt' c :
  prepare_with_handoff_summary interrupted manager prompt raw trigger phase instructions provider ids now
    = inr (Compacted prompt' c) ->
  exists q evidence reserve,
    stage interrupted manager prompt raw trigger phase instructions (bool_decide (is_Some provider))
      = inr (Ready q evidence reserve)
    /\ committed q [fst ids; snd ids] prompt' c.
Proof.
  unfold prepare_with_handoff_summary.
  destruct (stage _ _ _ _ _ _ _ _) as [|[|q evidence reserve]]; [done|done|].
  intros Hf. exists q, evidence, reserve. split; [done|].
  assert (Hcommit : forall reason usage,
    match finalize manager q (compose HEADER evidence) ALGORITHM_DETERMINISTIC (cm_model manager) (snd ids) now with
    | inl e => inl e
    | inr prepared => inr (with_outcome reason usage prepared)
    end = inr (Compacted prompt' c) -> committed q [fst ids; snd ids] prompt' c).
  { intros reason usage. destruct (finalize _ _ _ _ _ _ _) as [|prepared] eqn:E; [done|]. intros [= Hw].
    eapply with_outcome_commits; [|exact Hw]. intros p0 c0 ->. eapply committed_ids; [|by eapply finalize_compacted].
    intros x [<-|[]]. right. by left. }
  destruct (match provider with Some ask => _ | None => _ end) as [call usage].
  destruct call as [[text| |reason]|]; [|done| |].
  - destruct (interrupted AfterSummary); [done|]. cbn [option_map] in Hf.
    destruct (finalize manager q (summarized_text evidence text) _ _ _ _) as [e|prepared] eqn:E.
    + destruct e; try done; by eapply Hcommit.
    + injection Hf as Hw. eapply with_outcome_commits; [|exact Hw]. intros p0 c0 ->.
      eapply committed_ids; [|by eapply finalize_compacted]. intros x [<-|[]]. by left.
  - destruct (interrupted AfterSummary); [done|]. exact (Hcommit _ _ Hf).
  - destruct (interrupted AfterSummary); [done|]. exact (Hcommit _ _ Hf).
Qed.

(** One compaction that takes effect, by either strategy. *)
Definition compacts_to (interrupted : LoadPoint -> bool) (manager : ContextManager) (raw : list AgentMessage)
    (prompt : PromptContext) (ids : string * string) (prompt' : PromptContext) (c : ContextCheckpoint) : Prop :=
  exists trigger phase instructions now,
    prepare interrupted manager prompt raw trigger phase instructions (fst ids) now = inr (Compacted prompt' c)
    \/ exists provider,
         prepare_with_handoff_summary interrupted manager prompt raw trigger phase instructions provider ids now
         = inr (Compacted prompt' c).
Lemma compacts_staged interrupted manager raw prompt ids prompt' c :
  compacts_to interrupted manager raw prompt ids prompt' c ->
  exists trigger phase instructions wants q evidence reserve,
    stage interrupted manager prompt raw trigger phase instructions wants = inr (Ready q evidence reserve)
    /\ committed q [fst ids; snd ids] prompt' c.
Proof.
  intros (trigger & phase & instructions & now & [Hrun | (provider & Hrun)]).
  - apply prepare_commits in Hrun as (q & e & r & ? & Hq). do 7 eexists. split; [done|].
    eapply committed_ids; [|exact Hq]. intros x [<-|[]]. by left.
  - apply handoff_commits in Hrun as (q & e & r & ? & ?). eauto 10.
Qed.
(** Its plan, and what it commits. *)
Lemma compacts_planned interrupted manager raw prompt ids prompt' c :
  compacts_to interrupted manager raw prompt ids prompt' c ->
  exists p cut tokens_before trigger cap summary,
    cut_choice (pc_messages prompt) cut /\ planned_at manager prompt tokens_before trigger cap cut p
    /\ pc_messages prompt' = pl_protected p ++ [summary] ++ pl_retained p /\ is_role "user" summary = true.
Proof.
  intros Hrun. apply compacts_staged in Hrun as (trigger & phase & instructions & wants & q & e & r & Hs & Hq).
  apply stage_ready in Hs as (p & cutoff & Hplan & _ & _ & _ & [Hr Hpr _ _ _ _ _] & _).
  apply plan_compact in Hplan as (cut & tokens_before & Hcut & Hat).
  do 6 eexists. split; [exact Hcut|]. split; [exact Hat|]. rewrite (co_messages _ _ _ _ Hq), Hr, Hpr. done.
Qed.
End Commits.
