(* ===== verification/RestartProps.v ===== *)
(** The prompt a restart rebuilds from the journal and its checkpoint is the
    prompt the compaction left. *)
From S2P Require Import Prelude Json SessionEntry Checkpoint Compaction CompactionPlan Evidence CadenceProps CompactionProps.

(** * The summary of a checkpoint is recognised *)
Section Restart.
Context `{JsonText}.
Lemma trim_space s : trim (" " +:+ s) = trim s.
Proof. reflexivity. Qed.
Lemma strip_suffix_bracket_app s : strip_suffix_bracket (s +:+ "]") = Some s.
Proof.
  unfold strip_suffix_bracket. assert (Hl : list_ascii_of_string (s +:+ "]") = list_ascii_of_string s ++ ["]"%char]).
  { induction s as [|c s IH]; [done|]. exact (f_equal (cons c) IH). }
  rewrite Hl, rev_unit, rev_involutive, string_of_list_ascii_of_string. done.
Qed.
Lemma summary_message_read s id : is_blank s = false -> internal_summary (summary_message s id) = Some (trim s).
Proof.
  intros Hs. unfold internal_summary.
  assert (Hflag : metadata_flag INTERNAL_CHECKPOINT_METADATA_KEY (summary_message s id) = true) by reflexivity.
  rewrite Hflag. cbn [summary_message user_text_message stamp_internal_checkpoint_message].
  assert (Ht : internal_summary_text ("[Context compaction: " +:+ s +:+ "]") = Some (trim s)).
  { unfold internal_summary_text.
    assert (Hp : strip_prefix "[Context compaction:" ("[Context compaction: " +:+ s +:+ "]") = Some ((" " +:+ s) +:+ "]")).
    { reflexivity. }
    rewrite Hp. cbn [mbind option_bind]. rewrite strip_suffix_bracket_app. cbn [mbind option_bind].
    rewrite trim_space. unfold is_blank in Hs. by rewrite Hs. }
  cbn -[internal_summary_text String.append]. by rewrite Ht.
Qed.

(** * Journals and checkpoints in force *)
Context `{UsageSerde}.
(** Messages as a journal stores them: each under an id of its own. *)
Record journaled (raw : list AgentMessage) : Prop := {
  jr_named : Forall (fun m => is_Some (journal_entry_id m)) raw;
  jr_unique : base.NoDup (omap journal_entry_id raw)
}.
Definition names (raw : list AgentMessage) : list string := omap journal_entry_id raw.
(** A checkpoint that covers a prefix of [raw] and says something about it. *)
Record in_force (raw : list AgentMessage) (c : ContextCheckpoint) : Prop := {
  if_cutoff : exists cutoff, cp_cutoff_entry_id c = Some cutoff /\ In cutoff (names raw);
  if_fresh : ~ In (cp_entry_id c) (names raw);
  if_named : cp_entry_id c <> "";
  if_summary : is_blank (checkpoint_summary_text c) = false
}.

Lemma has_entry_id_iff id m : has_entry_id id m = true <-> journal_entry_id m = Some id.
Proof. unfold has_entry_id. by rewrite bool_decide_eq_true. Qed.
Lemma named_id m id : journal_entry_id m = Some id -> id <> "".
Proof.
  unfold journal_entry_id. destruct (mbind as_str _) as [s|]; [|done]. cbn.
  destruct (String.eqb_spec s ""); [done|]. congruence.
Qed.
Lemma names_lookup raw i m : raw !! i = Some m -> forall id, journal_entry_id m = Some id -> In id (names raw).
Proof.
  intros Hm id Hid. apply in_omap. exists m. split; [|done]. apply list_elem_of_In. by eapply list_elem_of_lookup_2.
Qed.
Lemma unique_position raw i j m m' id : base.NoDup (names raw) ->
  raw !! i = Some m -> raw !! j = Some m' -> journal_entry_id m = Some id -> journal_entry_id m' = Some id -> j = i.
Proof.
  unfold names. revert i j. induction raw as [|x raw IH]; intros i j Hnd Hi Hj Hm Hm'; [done|].
  assert (Hno : forall y k, raw !! k = Some y -> journal_entry_id y = Some id -> journal_entry_id x = Some id -> False).
  { intros y k Hk Hy Hx. rewrite omap_cons_match, Hx in Hnd. inversion_clear Hnd as [|? ? Hnew _].
    apply Hnew, list_elem_of_In. by apply (names_lookup raw k y). }
  assert (Hnd' : base.NoDup (omap journal_entry_id raw)).
  { rewrite omap_cons_match in Hnd. destruct (journal_entry_id x); [by inversion_clear Hnd|done]. }
  destruct i as [|i], j as [|j]; cbn in Hi, Hj; simplify_eq; [done|exfalso; eauto|exfalso; eauto|].
  f_equal. by apply IH.
Qed.
Lemma find_entry raw i m id : journaled raw -> raw !! i = Some m -> journal_entry_id m = Some id ->
  find_index (has_entry_id id) raw = Some i.
Proof.
  intros [_ Hu] Hi Hm. apply (find_index_first _ _ _ m Hi); [by apply has_entry_id_iff|].
  intros j y Hj Hy. apply has_entry_id_iff in Hy. by apply (unique_position raw i j m y id).
Qed.
Lemma not_named raw id : ~ In id (names raw) -> List.existsb (has_entry_id id) raw = false.
Proof.
  intros Hn. apply existsb_false. intros m Hm. destruct (has_entry_id id m) eqn:E; [|done].
  apply has_entry_id_iff in E. exfalso. apply Hn, in_omap. by exists m.
Qed.

(** * The shape of a projection *)

(** A head for the covered part, and the rest as it is. *)
Record shape (raw : list AgentMessage) (covered : nat) (head : list ProjectedMessage) : Prop := {
  sh_covered : (covered <= List.length raw)%nat;
  sh_anchors : sublist (omap anchor_of head) (omap anchor (take covered raw));
  sh_summary : head = [] \/ exists front s id text, head = front ++ [s] /\ internal_summary (pm_message s) = Some text
    /\ pm_source_entry_ids s = [id] /\ ~ In id (names raw) /\ id <> ""
}.
Lemma anchors_of_raw (l : list AgentMessage) : omap anchor_of (List.map project_raw l) = omap anchor l.
Proof. induction l as [|m l IH]; [done|]. cbn [List.map]. rewrite !omap_cons_match, IH. reflexivity. Qed.
Lemma anchors_of_originals ids (l : list AgentMessage) : omap anchor_of (omap (project_original ids) l) = omap (project_original ids) l.
Proof.
  induction l as [|m l IH]; [done|]. rewrite !omap_cons_match. destruct (project_original ids m) as [a|] eqn:E; [|done].
  rewrite omap_cons_match, IH. apply project_original_anchor in E as [Ha _]. by rewrite (anchor_idem m a Ha).
Qed.
Lemma anchor_of_summary text id : anchor_of (mkProjected (summary_message text id) [id]) = None.
Proof. reflexivity. Qed.
Lemma projection_shape raw c : journaled raw -> (forall k, c = Some k -> in_force raw k) ->
  exists covered head, shape raw covered head
    /\ projected_messages raw c = head ++ List.map project_raw (drop covered raw).
Proof.
  intros Hj Hc. destruct c as [c|].
  - destruct (Hc c eq_refl) as [(cutoff & Hcut & Hin) Hfresh Hnamed Hsum].
    apply in_omap in Hin as (m & Hm & Hid). apply list_elem_of_In, list_elem_of_lookup in Hm as [i Hi].
    unfold projected_messages. cbn [mbind option_bind]. rewrite Hcut. cbn [mbind option_bind].
    rewrite (find_entry raw i m cutoff Hj Hi Hid).
    destruct (String.eqb_spec (checkpoint_summary_text c) "") as [E|_]; [by rewrite E in Hsum|].
    exists (S i). eexists. split; [|reflexivity]. constructor.
    + by apply lookup_lt_Some in Hi.
    + rewrite omap_app, anchors_of_originals. cbn [omap list_omap]. rewrite anchor_of_summary, app_nil_r.
      apply omap_sublist. intros x y Hxy. by apply project_original_anchor in Hxy as [? _].
    + right. do 4 eexists. split; [reflexivity|]. cbn [pm_message pm_source_entry_ids].
      rewrite summary_message_read by done. done.
  - exists O, []. split; [|done]. constructor; [lia|constructor|by left].
Qed.

(** * What a plan covers *)
Lemma last_summary_covers (messages : list ProjectedMessage) k x text : messages !! k = Some x ->
  internal_summary (pm_message x) = Some text -> exists i, last_summary messages = Some i /\ (k <= i)%nat.
Proof.
  intros Hk Hs. unfold last_summary. set (p := fun y : nat * ProjectedMessage => bool_decide _).
  assert (Hgen : forall (l : list ProjectedMessage) (off : nat) k, l !! k = Some x ->
    exists i, last (List.map fst (List.filter p (imap (fun j y => ((off + j)%nat, y)) l))) = Some i /\ (off + k <= i)%nat).
  { clear Hk. induction l as [|y l IH] using rev_ind; intros off j Hj; [done|].
    rewrite imap_app, List.filter_app, List.map_app. cbn [imap List.filter].
    destruct (decide (j < List.length l)%nat) as [Hlt|Hge].
    - rewrite lookup_app_l in Hj by done. destruct (IH off j Hj) as (i & Hi & Hle).
      destruct (p _); cbn [List.map]; [|rewrite app_nil_r; by exists i].
      rewrite last_snoc. eexists. split; [reflexivity|]. cbn. lia.
    - rewrite lookup_app_r in Hj by lia. destruct (j - List.length l)%nat eqn:E; [|done]. cbn in Hj. simplify_eq.
      assert (Hp : p ((off + (List.length l + 0))%nat, x) = true).
      { unfold p. cbn. apply bool_decide_eq_true. rewrite Hs. done. }
      rewrite Hp. cbn [List.map]. rewrite last_snoc. eexists. split; [reflexivity|]. cbn. lia. }
  destruct (Hgen messages O k Hk) as (i & Hi & Hle). exists i. split; [|done]. exact Hi.
Qed.
Lemma first_named_last (l : list string) id : id <> "" -> first_named (rev (l ++ [id])) = Some id.
Proof. intros Hid. unfold first_named. rewrite rev_unit. cbn. by destruct (String.eqb_spec id ""). Qed.
Lemma concat_sources_snoc items item :
  List.concat (List.map pm_source_entry_ids (items ++ [item]))
  = List.concat (List.map pm_source_entry_ids items) ++ pm_source_entry_ids item.
Proof. rewrite List.map_app, concat_app. cbn. by rewrite app_nil_r. Qed.

(** The plan covers the first [n] messages: what it keeps of them are anchors
    of theirs, and the cutoff it commits is the last of them. *)
Record covers (raw : list AgentMessage) (p : CompactionPlan) (cutoff : string) (n : nat) : Prop := {
  cv_cutoff : find_index (has_entry_id cutoff) raw = Some (n - 1)%nat;
  cv_named : In cutoff (names raw);
  cv_range : (0 < n <= List.length raw)%nat;
  cv_kept : sublist (pl_protected p) (omap anchor (take n raw));
  cv_rest : pl_retained p = List.map project_raw (drop n raw)
}.
Lemma journaled_at raw i : journaled raw -> (i < List.length raw)%nat ->
  exists m id, raw !! i = Some m /\ journal_entry_id m = Some id.
Proof.
  intros [Hn _] Hi. apply lookup_lt_is_Some in Hi as [m Hm]. exists m.
  rewrite List.Forall_forall in Hn. destruct (Hn m) as [id Hid]; [|by exists id].
  apply list_elem_of_In. by eapply list_elem_of_lookup_2.
Qed.
Lemma raw_cutoff_named raw p id : In id (names raw) -> pl_cutoff_entry_id p = id -> raw_cutoff raw p = Some id.
Proof.
  intros Hin Hp. unfold raw_cutoff. rewrite Hp. apply in_omap in Hin as (m & Hm & Hid).
  replace (List.existsb (has_entry_id id) raw) with true; [done|]. symmetry. apply existsb_exists. exists m.
  by rewrite has_entry_id_iff.
Qed.
Lemma names_take raw n : base.NoDup (names raw) -> base.NoDup (names (take n raw)).
Proof. unfold names. rewrite <- (take_drop n raw) at 1. rewrite omap_app. by intros [? _]%NoDup_app. Qed.
Lemma originals_kept_anchors raw removed room n : base.NoDup (names raw) ->
  sublist (omap anchor_of removed) (omap anchor (take n raw)) ->
  sublist (originals_kept removed room) (omap anchor (take n raw)).
Proof.
  intros Hu Hs. unfold originals_kept. rewrite protected_originals_anchors.
  - etrans; [apply kept_sublist|done].
  - assert (Hnd : base.NoDup (List.map item_id (omap anchor (take n raw)))).
    { by apply anchors_by_id, names_take. }
    eapply sublist_NoDup; [exact Hnd|]. clear Hnd Hu. induction Hs; cbn; [constructor|by constructor|by apply sublist_cons].
  - intros a _. apply not_elem_of_nil.
Qed.
Lemma shape_cut raw covered head cut : shape raw covered head ->
  cut_choice (head ++ List.map project_raw (drop covered raw)) cut -> (List.length head <= cut)%nat.
Proof.
  intros [_ _ Hs] (_ & Hlast & _). destruct Hs as [-> | (front & s & id & text & -> & Hi & _)]; [cbn; lia|].
  destruct (last_summary_covers ((front ++ [s]) ++ List.map project_raw (drop covered raw)) (List.length front) s text)
    as (i & Hl & Hle).
  - rewrite <- app_assoc. cbn. by apply list_lookup_middle.
  - done.
  - specialize (Hlast i Hl). rewrite length_app. cbn. lia.
Qed.
(** The cutoff when the cut is past the head: the id of the last message. *)
Lemma covers_messages raw covered head p n : journaled raw -> shape raw covered head ->
  (covered < n <= List.length raw)%nat ->
  pl_removed p = head ++ List.map project_raw (take (n - covered) (drop covered raw)) ->
  first_named (rev (List.concat (List.map pm_source_entry_ids (pl_removed p)))) = Some (pl_cutoff_entry_id p) ->
  raw_cutoff raw p = Some (pl_cutoff_entry_id p) /\ In (pl_cutoff_entry_id p) (names raw)
  /\ find_index (has_entry_id (pl_cutoff_entry_id p)) raw = Some (n - 1)%nat.
Proof.
  intros Hj _ Hn Hrem Hfirst. destruct (journaled_at raw (n - 1) Hj) as (m & id & Hm & Hid); [lia|].
  assert (Hid' : pl_cutoff_entry_id p = id).
  { rewrite Hrem in Hfirst. replace (n - covered)%nat with (S (n - covered - 1)) in Hfirst by lia.
    erewrite take_S_r in Hfirst by (rewrite lookup_drop; replace (covered + (n - covered - 1))%nat with (n - 1)%nat by lia; exact Hm).
    rewrite (List.map_app project_raw), app_assoc in Hfirst. cbn [List.map] in Hfirst. rewrite concat_sources_snoc in Hfirst.
    unfold project_raw at 2 in Hfirst. rewrite Hid in Hfirst. cbn [pm_source_entry_ids] in Hfirst.
    rewrite first_named_last in Hfirst by (by eapply named_id). congruence. }
  assert (Hin : In id (names raw)) by (by eapply names_lookup).
  rewrite Hid'. split; [by apply raw_cutoff_named|]. split; [done|]. by eapply find_entry.
Qed.
(** The cutoff when the cut is right behind the head: the entry before the
    first message kept. *)
Lemma covers_head raw covered head p cutoff : journaled raw -> shape raw covered head -> head <> [] ->
  (covered <= List.length raw)%nat -> pl_removed p = head ->
  pl_retained p = List.map project_raw (drop covered raw) ->
  first_named (rev (List.concat (List.map pm_source_entry_ids (pl_removed p)))) = Some (pl_cutoff_entry_id p) ->
  raw_cutoff raw p = Some cutoff ->
  (0 < covered)%nat /\ In cutoff (names raw) /\ find_index (has_entry_id cutoff) raw = Some (covered - 1)%nat.
Proof.
  intros Hj [_ _ Hs] Hne Hle Hrem Hret Hfirst Hraw. destruct Hs as [?|(front & s & id & text & Hhead & Hi & Hsrc & Hfresh & Hid)]; [done|].
  assert (Hp : pl_cutoff_entry_id p = id).
  { rewrite Hrem, Hhead, concat_sources_snoc, Hsrc, first_named_last in Hfirst by done. congruence. }
  unfold raw_cutoff in Hraw. rewrite Hp, (not_named raw id Hfresh) in Hraw.
  destruct (List.existsb _ _); [|done]. rewrite Hret in Hraw.
  assert (Hstart : match List.map project_raw (drop covered raw) with
                   | first :: _ => id ← journal_entry_id (pm_message first); find_index (has_entry_id id) raw
                   | [] => Some (List.length raw)
                   end = Some covered).
  { destruct (drop covered raw) as [|m rest] eqn:Hd; cbn [List.map].
    - f_equal. apply (f_equal List.length) in Hd. rewrite length_drop in Hd. cbn in Hd. lia.
    - assert (Hm : raw !! covered = Some m).
      { rewrite <- (Nat.add_0_r covered), <- lookup_drop, Hd. done. }
      destruct (journaled_at raw covered Hj) as (m' & id' & Hm' & Hid'); [by eapply lookup_lt_Some|].
      rewrite Hm in Hm'. injection Hm' as <-. cbn [project_raw pm_message]. rewrite Hid'. cbn [mbind option_bind].
      by eapply find_entry. }
  rewrite Hstart in Hraw. cbn [mbind option_bind] in Hraw. destruct covered as [|i]; [done|].
  destruct (journaled_at raw i Hj) as (m & id' & Hm & Hid'); [lia|]. rewrite Hm in Hraw. cbn [mbind option_bind] in Hraw.
  rewrite Hid' in Hraw. injection Hraw as <-. split; [lia|]. split; [by eapply names_lookup|].
  replace (S i - 1)%nat with i by lia. by eapply find_entry.
Qed.
Lemma plan_covers raw c prompt manager tokens_before trigger cap cut p cutoff :
  journaled raw -> (forall k, c = Some k -> in_force raw k) -> pc_messages prompt = projected_messages raw c ->
  cut_choice (pc_messages prompt) cut -> planned_at manager prompt tokens_before trigger cap cut p ->
  raw_cutoff raw p = Some cutoff -> exists n, covers raw p cutoff n.
Proof.
  intros Hj Hc Hprompt Hcut Hp Hraw. destruct (projection_shape raw c Hj Hc) as (covered & head & Hshape & Hproj).
  rewrite Hprompt, Hproj in Hcut. pose proof (shape_cut _ _ _ _ Hshape Hcut) as Hhead.
  destruct Hcut as ([Hpos Hlen] & _). destruct Hp as [Hrem Hret (room & Hkept) Hfirst _ _ _ _ _ _].
  rewrite Hprompt, Hproj in *. rewrite length_app, length_map, length_drop in Hlen.
  rewrite take_app_ge in * by done. rewrite drop_app_ge in Hret by done.
  set (k := (cut - List.length head)%nat) in *. rewrite <- Hrem in Hfirst.
  rewrite firstn_map in Hrem, Hkept. rewrite skipn_map in Hret.
  exists (covered + k)%nat. destruct Hshape as [Hcov Hanch Hsum] eqn:HS. clear HS.
  assert (Hanchors : sublist (omap anchor_of (head ++ List.map project_raw (take k (drop covered raw))))
                       (omap anchor (take (covered + k) raw))).
  { rewrite omap_app, anchors_of_raw. rewrite <- (take_take_drop raw covered k), omap_app.
    by apply sublist_app. }
  assert (Hrest : drop k (drop covered raw) = drop (covered + k) raw) by apply drop_drop.
  assert (Hcases : raw_cutoff raw p = Some cutoff -> (0 < covered + k)%nat /\ In cutoff (names raw)
                   /\ find_index (has_entry_id cutoff) raw = Some (covered + k - 1)%nat).
  { intros _. destruct (decide (k = 0)%nat) as [Hk|Hk].
    - rewrite Hk in *. cbn [take List.map drop] in *. rewrite app_nil_r in Hrem. rewrite Nat.add_0_r.
      eapply (covers_head raw covered head p); try done.
      intros ->. cbn in Hhead. unfold k in Hk. cbn in Hk. lia.
    - destruct (covers_messages raw covered head p (covered + k)) as (Hr & Hin & Hf); try done; [lia| |].
      + by replace (covered + k - covered)%nat with k by lia.
      + rewrite Hr in Hraw. injection Hraw as <-. split; [lia|done]. }
  destruct (Hcases Hraw) as (H1 & H2 & H3). constructor; [done|done|lia| |by rewrite Hret, Hrest].
  rewrite Hkept. apply originals_kept_anchors; [apply Hj|done].
Qed.

(** * Restarting *)
Lemma committed_text_not_blank p summary algorithm : is_blank summary = false ->
  is_blank (committed_text p summary algorithm) = false.
Proof.
  intros Hb. unfold committed_text. destruct (_ <? _)%nat; [|done]. apply (visible_not_blank 91); [done|done|].
  rewrite string_bytes_app. apply in_or_app. right. unfold retention_note. right. right. by left.
Qed.
Lemma project_later raw later c : (exists cutoff, cp_cutoff_entry_id c = Some cutoff /\ In cutoff (names raw)) ->
  journaled raw ->
  projected_messages (raw ++ later) (Some c) = projected_messages raw (Some c) ++ List.map project_raw later.
Proof.
  intros (cutoff & Hc & Hin) Hj. apply in_omap in Hin as (m & Hm & Hid).
  apply list_elem_of_In, list_elem_of_lookup in Hm as [i Hi].
  pose proof (find_entry raw i m cutoff Hj Hi Hid) as Hf. apply lookup_lt_Some in Hi.
  unfold projected_messages. cbn [mbind option_bind]. rewrite Hc. cbn [mbind option_bind].
  rewrite Hf, (find_index_app _ _ _ _ Hf), take_app_le, drop_app_le, List.map_app by lia.
  by rewrite !app_assoc.
Qed.
Lemma commit_restores raw p n ids prompt c : journaled raw -> covers raw p (pl_cutoff_entry_id p) n ->
  committed p ids prompt c -> (forall id, In id ids -> id <> "" /\ ~ In id (names raw)) ->
  projected_messages raw (Some c) = pc_messages prompt /\ in_force raw c.
Proof.
  intros Hj [Hfind Hin Hrange Hkept Hrest] [(summary & algorithm & Hb & Hs) Hentry Hcut Hprot Hmsgs] Hids.
  destruct (Hids _ Hentry) as [Hnamed Hfresh].
  assert (Htext : checkpoint_summary_text c = committed_text p summary algorithm).
  { unfold checkpoint_summary_text. by rewrite Hs. }
  assert (Hblank : is_blank (checkpoint_summary_text c) = false).
  { rewrite Htext. by apply committed_text_not_blank. }
  split; [|constructor; [by eexists|done|done|done]].
  unfold projected_messages. cbn [mbind option_bind]. rewrite Hcut. cbn [mbind option_bind].
  rewrite Hfind, Hprot. replace (S (n - 1)) with n by lia. rewrite originals_read_back; [|by apply names_take, Hj|exact Hkept].
  destruct (String.eqb_spec (checkpoint_summary_text c) "") as [E|_]; [by rewrite E in Hblank|].
  by rewrite Hmsgs, Hrest, <- app_assoc.
Qed.
Lemma stage_covers interrupted raw c prompt manager trigger phase instructions wants q evidence reserve :
  journaled raw -> (forall k, c = Some k -> in_force raw k) -> pc_messages prompt = projected_messages raw c ->
  stage interrupted manager prompt raw trigger phase instructions wants = inr (Ready q evidence reserve) ->
  exists n, covers raw q (pl_cutoff_entry_id q) n.
Proof.
  intros Hj Hc Hp Hs. apply stage_ready in Hs as (p & cutoff & Hplan & Hraw & _ & _ & Hsame & Hcut).
  apply plan_compact in Hplan as (cut & tokens_before & Hchoice & Hat).
  edestruct (plan_covers raw c prompt manager tokens_before trigger) as [n [Hf Hn Hrange Hk Hrest]]; [done|done|done|exact Hchoice|exact Hat|exact Hraw|].
  destruct Hsame as [Hr Hpr _ _ _ _ _]. exists n. rewrite Hcut. constructor; rewrite ?Hr, ?Hpr; done.
Qed.

(** C5: a session restarted from its journal and the checkpoint of a compaction
    sends what the compacted session was sending: the projection of the
    journal, with whatever it gained since, is the compacted prompt followed by
    the new messages; and that checkpoint can be compacted again. *)
Theorem restart_restores_compacted_prompt interrupted manager raw later c prompt ids prompt' c' :
  journaled raw -> (forall k, c = Some k -> in_force raw k) -> pc_messages prompt = projected_messages raw c ->
  (forall id, In id [fst ids; snd ids] -> id <> "" /\ ~ In id (names raw)) ->
  compacts_to interrupted manager raw prompt ids prompt' c' ->
  projected_messages (raw ++ later) (Some c') = pc_messages prompt' ++ List.map project_raw later
  /\ in_force raw c'.
Proof.
  intros Hj Hc Hp Hids Hrun.
  apply compacts_staged in Hrun as (trigger & phase & instructions & wants & q & evidence & reserve & Hs & Hq).
  apply (stage_covers interrupted raw c prompt) in Hs as [n Hcov]; [|done..].
  destruct (commit_restores raw q n _ prompt' c' Hj Hcov Hq Hids) as [Heq Hin]. split; [|done].
  rewrite project_later, Heq; [done|apply Hin|done].
Qed.
End Restart.
