(* ===== verification/CompactionSafety.v ===== *)
(** What no compaction loses: the words of the user, and the call a tool result
    answers. *)
From S2P Require Import Prelude Json SessionEntry Checkpoint Compaction CompactionPlan Evidence CompactionProps.

Section Safety.
Context `{JsonText}.

(** * The user's words *)

(** The user said [content], recorded as entry [id]. *)
Definition said (messages : list ProjectedMessage) (id : string) (content : list ContentBlock) : Prop :=
  exists item, In item messages /\ is_role "user" item = true
    /\ journal_entry_id (pm_message item) = Some id
    /\ metadata_flag INTERNAL_CHECKPOINT_METADATA_KEY (pm_message item) = false
    /\ List.filter is_written_text (am_content (pm_message item)) = content.
Lemma user_has_anchor item id content : is_role "user" item = true ->
  journal_entry_id (pm_message item) = Some id ->
  metadata_flag INTERNAL_CHECKPOINT_METADATA_KEY (pm_message item) = false ->
  List.filter is_written_text (am_content (pm_message item)) = content -> content <> [] ->
  exists a, anchor_of item = Some a.
Proof.
  intros Hu Hid Hf Hc Hne. unfold anchor_of, anchor, protected_text. unfold is_role in Hu. rewrite Hu, Hf, Hid.
  cbn [orb negb mbind option_bind]. destruct (List.filter _ _); [congruence|]. cbn. by eexists.
Qed.
Lemma kept_users removed room a : In a (protected_originals [] removed) -> is_role "user" a = true ->
  In a (originals_kept removed room).
Proof.
  intros Ha Hu. unfold originals_kept. apply in_rev. rewrite rev_involutive.
  apply retain_originals_users; [|done]. by apply in_rev in Ha.
Qed.
Lemma plan_keeps_words manager prompt tokens_before trigger cap cut p id content :
  base.NoDup (List.map item_id (omap anchor_of (pc_messages prompt))) ->
  planned_at manager prompt tokens_before trigger cap cut p -> content <> [] ->
  said (pc_messages prompt) id content -> said (pl_protected p ++ pl_retained p) id content.
Proof.
  intros Hnd [_ Hret (room & Hkept) _ _ _ _ _ _ _] Hne (item & Hin & Hu & Hid & Hf & Hc).
  rewrite <- (take_drop cut (pc_messages prompt)) in Hin, Hnd. apply in_app_or in Hin as [Hin|Hin].
  - destruct (user_has_anchor item id content Hu Hid Hf Hc Hne) as [a Ha].
    destruct (anchor_spec _ a Ha) as (id' & Hid' & Hida & _ & _ & Hp). rewrite Hid in Hid'. injection Hid' as <-.
    destruct (protected_text_spec _ _ Hp) as (_ & _ & Hrole & Hcont & _ & Hflag & _).
    assert (Hua : is_role "user" a = true) by (unfold is_role in *; by rewrite Hrole).
    exists a. split.
    + apply in_or_app. left. rewrite Hkept. apply kept_users; [|done].
      rewrite protected_originals_anchors.
      * apply in_omap. by exists item.
      * rewrite omap_app, List.map_app in Hnd. by apply NoDup_app in Hnd as [? _].
      * intros b _. apply not_elem_of_nil.
    + rewrite Hcont, filter_written_idem. done.
  - exists item. split; [|done]. apply in_or_app. right. by rewrite Hret.
Qed.
Lemma said_between front middle back id content :
  said (front ++ back) id content -> said (front ++ middle ++ back) id content.
Proof.
  intros (item & Hin & Hrest). exists item. split; [|done]. rewrite !in_app_iff in *. tauto.
Qed.

(** * Calls and results *)

(** Each tool result stands behind the call it answers, with nothing but
    results between. *)
Definition well_grouped (messages : list ProjectedMessage) : Prop :=
  forall i item, messages !! i = Some item -> is_role "tool" item = true ->
    exists j before, i = S j /\ messages !! j = Some before
      /\ (is_role "tool" before = true \/ calls_tools before = true).
Definition no_result_at (messages : list ProjectedMessage) (cut : nat) : Prop :=
  forall item, messages !! cut = Some item -> is_role "tool" item = false.
Lemma other_role a b item : is_role a item = true -> a <> b -> is_role b item = false.
Proof. unfold is_role. intros ->%String.eqb_eq Hab. by apply String.eqb_neq. Qed.
Lemma walk_back_spec messages cut : walk_back messages cut = O \/ no_result_at messages (walk_back messages cut).
Proof.
  induction cut as [|c IH]; [by left|]. cbn [walk_back].
  destruct (messages !! S c) as [item|] eqn:Hi; [|right; intros x Hx; congruence].
  destruct (messages !! c) as [before|] eqn:Hb.
  - destruct (is_role "tool" item) eqn:Ht; [|right; intros x Hx; congruence].
    destruct (calls_tools before) eqn:Hc; [|done]. right. intros x Hx. rewrite Hb in Hx. injection Hx as <-.
    unfold calls_tools in Hc. apply andb_true_iff in Hc as [Hr _]. by eapply other_role.
  - apply lookup_lt_Some in Hi. apply lookup_ge_None in Hb. lia.
Qed.
Lemma fallback_cut_spec messages costs keep cut : fallback_cut messages costs keep = Some cut ->
  no_result_at messages cut.
Proof.
  unfold fallback_cut. destruct (_ <? 2)%nat; [done|].
  set (c := if (_ =? 0)%nat then _ else _). destruct (_ && _) eqn:G; [|done]. intros [= <-].
  apply andb_true_iff in G as [G _]. apply Nat.ltb_lt in G.
  destruct (walk_back_spec messages c) as [E|E]; [|exact E]. exfalso. unfold c in *. lia.
Qed.
Lemma retained_turns_in costs keep turns : forall retained start r,
  retained_turns costs keep turns retained start = Some r -> start = Some r \/ In r (List.map fst turns).
Proof.
  induction turns as [|[s e] turns IH]; intros retained start r; cbn [retained_turns]; [by left|].
  destruct (_ <? _); [by left|]. intros Hr. destruct (IH _ _ _ Hr) as [[= ->]|Hin]; [right; by left|right; by right].
Qed.
Lemma user_starts_spec messages s : In s (user_starts messages) -> no_result_at messages s.
Proof.
  unfold user_starts. intros Hin. apply List.in_map_iff in Hin as ([j x] & Heq & Hin). cbn in Heq. subst j.
  apply filter_In in Hin as [Hin Hs]. apply in_imap_pair in Hin as Hy.
  intros z Hz. rewrite Hy in Hz. injection Hz as <-. unfold starts_turn in Hs. cbn in Hs. bool_prop.
  eapply (other_role "user"); [|done]. unfold is_role. apply String.eqb_eq. done.
Qed.
Lemma turn_aware_cut_spec messages costs keep all cut : turn_aware_cut messages costs keep all = Some cut ->
  no_result_at messages cut.
Proof.
  assert (Hend : no_result_at messages (List.length messages)).
  { intros x Hx. apply lookup_lt_Some in Hx. lia. }
  unfold turn_aware_cut. destruct (user_starts messages) as [|first rest] eqn:Hs.
  - destruct (_ && _); [by intros [= <-]|apply fallback_cut_spec].
  - destruct (retained_turns _ _ _ _ _) as [start|] eqn:Hr; [|apply fallback_cut_spec].
    destruct (_ && _); [by intros [= <-]|]. destruct (_ =? _)%nat; [apply fallback_cut_spec|]. intros [= <-].
    apply user_starts_spec. apply retained_turns_in in Hr as [?|Hin]; [done|].
    rewrite List.map_rev, <- in_rev in Hin. apply List.in_map_iff in Hin as ([a b] & Ha & Hin). cbn in Ha. subst a.
    apply in_combine_l in Hin. by rewrite Hs.
Qed.
Lemma last_summary_spec messages i : last_summary messages = Some i ->
  exists item, messages !! i = Some item /\ is_Some (internal_summary (pm_message item)).
Proof.
  unfold last_summary. intros Hl. apply last_Some in Hl as (l & Hl).
  assert (Hin : In i (l ++ [i])) by (apply in_or_app; right; by left).
  rewrite <- Hl in Hin. apply List.in_map_iff in Hin as ([j x] & Heq & Hin). cbn in Heq. subst j.
  apply filter_In in Hin as [Hin Hs]. apply in_imap_pair in Hin as Hy.
  cbn in Hs. apply bool_decide_eq_true in Hs. by exists x.
Qed.
Lemma summary_is_user item : is_Some (internal_summary (pm_message item)) -> is_role "user" item = true.
Proof.
  unfold internal_summary, is_role. destruct (_ =?s _); [done|]. cbn. by intros [? ?].
Qed.
Lemma cut_leaves_no_result messages cut : well_grouped messages -> cut_choice messages cut ->
  no_result_at messages cut.
Proof.
  intros Hg (_ & _ & [-> | (costs & keep & all & c & Hc & ->)]).
  - intros x Hx. apply lookup_lt_Some in Hx. lia.
  - apply turn_aware_cut_spec in Hc. unfold behind_summary. destruct (last_summary messages) as [i|] eqn:Hl; [|done].
    destruct (Nat.max_spec c (S i)) as [[_ ->]|[_ ->]]; [|done]. intros x Hx.
    destruct (is_role "tool" x) eqn:Ht; [|done]. destruct (Hg _ _ Hx Ht) as (j & before & [= <-] & Hb & Hor).
    apply last_summary_spec in Hl as (s & Hs & His). rewrite Hb in Hs. injection Hs as <-.
    apply summary_is_user in His. destruct Hor as [Hor|Hor].
    + rewrite (other_role "user" "tool") in Hor; done.
    + unfold calls_tools in Hor. by rewrite (other_role "user" "assistant") in Hor.
Qed.
Lemma well_grouped_drop messages cut : well_grouped messages -> no_result_at messages cut ->
  well_grouped (drop cut messages).
Proof.
  intros Hg Hn i item Hi Ht. rewrite lookup_drop in Hi. destruct i as [|i].
  - rewrite Nat.add_0_r in Hi. by rewrite (Hn item Hi) in Ht.
  - destruct (Hg _ _ Hi Ht) as (j & before & Hj & Hb & Hor). exists i, before. split; [done|].
    split; [|done]. rewrite lookup_drop. by replace (cut + i)%nat with j by lia.
Qed.
Lemma well_grouped_app front back : Forall (fun item => is_role "tool" item = false) front ->
  well_grouped back -> well_grouped (front ++ back).
Proof.
  intros Hf Hb i item Hi Ht. apply lookup_app_Some in Hi as [Hi|[Hle Hi]].
  - rewrite List.Forall_forall in Hf. rewrite Hf in Ht; [done|]. apply list_elem_of_In. by eapply list_elem_of_lookup_2.
  - destruct (Hb _ _ Hi Ht) as (j & before & Hj & Hbefore & Hor). exists (List.length front + j)%nat, before.
    split; [lia|]. split; [|done]. rewrite lookup_app_r by lia. by replace (_ + j - _)%nat with j by lia.
Qed.
Lemma kept_are_spoken removed room : Forall (fun item => is_role "tool" item = false) (originals_kept removed room).
Proof.
  apply List.Forall_forall. intros a Ha. unfold originals_kept in Ha. apply in_rev in Ha.
  apply (sublist_in _ _ _ (retain_originals_sublist _ _)) in Ha. apply in_rev in Ha.
  assert (Hfrom : forall seen items, In a (protected_originals seen items) -> exists item, anchor_of item = Some a).
  { intros seen items. revert seen. induction items as [|item items IH]; intros seen; [done|].
    rewrite protected_originals_cons. destruct (anchor_of item) as [b|] eqn:E; [|apply IH].
    case_bool_decide; [apply IH|]. intros [<-|Hin]; [by exists item|by eapply IH]. }
  apply Hfrom in Ha as [item Ha]. destruct (anchor_spec _ a Ha) as (id & _ & _ & _ & _ & Hp).
  apply protected_text_spec in Hp as (_ & _ & Hr & _ & _ & _ & _ & Hrole & _). unfold is_role. rewrite Hr.
  by destruct Hrole as [-> | ->].
Qed.

Context `{UsageSerde}.
(** C10: nothing the user wrote is lost to a compaction: whatever text of the
    user the prompt holds, as a message or as a kept original, the compacted
    prompt holds verbatim, under the same journal entry. *)
Theorem compaction_keeps_the_users_words interrupted manager raw prompt ids prompt' c id content :
  base.NoDup (List.map item_id (omap anchor_of (pc_messages prompt))) ->
  compacts_to interrupted manager raw prompt ids prompt' c ->
  content <> [] -> said (pc_messages prompt) id content -> said (pc_messages prompt') id content.
Proof.
  intros Hnd Hrun Hne Hs.
  apply compacts_planned in Hrun as (p & cut & tokens_before & trigger & cap & summary & _ & Hat & -> & _).
  apply said_between. by eapply plan_keeps_words.
Qed.

(** C22: no compaction parts a tool result from its call: when every result of
    the prompt stands behind the call it answers, so does every result of the
    compacted prompt. *)
Theorem compaction_keeps_results_with_calls interrupted manager raw prompt ids prompt' c :
  well_grouped (pc_messages prompt) -> compacts_to interrupted manager raw prompt ids prompt' c ->
  well_grouped (pc_messages prompt').
Proof.
  intros Hg Hrun.
  apply compacts_planned in Hrun as (p & cut & tokens_before & trigger & cap & summary & Hcut & Hat & -> & Hu).
  destruct Hat as [_ Hret (room & Hkept) _ _ _ _ _ _ _]. rewrite Hkept, Hret, app_assoc. apply well_grouped_app.
  - apply Forall_app. split; [apply kept_are_spoken|]. constructor; [by eapply other_role|constructor].
  - apply well_grouped_drop; [done|by apply cut_leaves_no_result].
Qed.
End Safety.
