(* ===== verification/EvidenceProps.v ===== *)
(** The deterministic evidence always fits the budget its plan admits. *)
From S2P Require Import Prelude Json SessionEntry Checkpoint Compaction CompactionPlan Evidence CompactionProps.

(** * Token estimates of concatenated texts *)
Definition quarters (cs : list string) : Z := List.fold_right (fun c n => char_token_quarters c + n) 0 cs.
Lemma char_quarters_pos c : 1 <= char_token_quarters c.
Proof. unfold char_token_quarters. destruct (is_cjk c); [lia|]. by destruct (_ <? _)%N. Qed.
Lemma quarters_app a b : quarters (a ++ b) = quarters a + quarters b.
Proof. unfold quarters. induction a as [|c a IH]; cbn [List.fold_right app]; lia. Qed.
Lemma quarters_pos cs : 0 <= quarters cs.
Proof.
  unfold quarters. induction cs as [|c cs IH]; cbn [List.fold_right]; [done|].
  pose proof (char_quarters_pos c). lia.
Qed.
Lemma quarters_fold cs : forall n, 0 <= n <= u64_max ->
  List.fold_left (fun n c => u64_sat_add n (char_token_quarters c)) cs n = Z.min u64_max (n + quarters cs).
Proof.
  unfold quarters. induction cs as [|c cs IH]; intros n Hn; cbn [List.fold_left List.fold_right]; [lia|].
  pose proof (char_quarters_pos c). pose proof (quarters_pos cs). unfold quarters in *.
  rewrite IH; unfold u64_sat_add; lia.
Qed.
Lemma estimate_spec s : estimate_text_tokens s = Z.min ((quarters (chars s) + 3) / 4) i32_max.
Proof.
  unfold estimate_text_tokens. rewrite quarters_fold by (unfold u64_max; lia). cbv zeta.
  pose proof (quarters_pos (chars s)). unfold u64_sat_add, u64_max, i32_max.
  Z.div_mod_to_equations. lia.
Qed.
Lemma estimate_bounds s : 0 <= estimate_text_tokens s <= i32_max.
Proof.
  rewrite estimate_spec. pose proof (quarters_pos (chars s)). unfold i32_max. Z.div_mod_to_equations. lia.
Qed.
Lemma estimate_app a b : starts_char b ->
  estimate_text_tokens (a +:+ b) <= estimate_text_tokens a + estimate_text_tokens b.
Proof.
  intros Hb. rewrite !estimate_spec, chars_app, quarters_app by done.
  pose proof (quarters_pos (chars a)). pose proof (quarters_pos (chars b)). unfold i32_max.
  Z.div_mod_to_equations. lia.
Qed.
Lemma estimate_nonempty c r : 1 <= estimate_text_tokens (String c r).
Proof.
  rewrite estimate_spec. destruct (chars_nonempty c r) as (x & xs & ->). unfold quarters. cbn [List.fold_right].
  pose proof (char_quarters_pos (String c x)). pose proof (quarters_pos xs). unfold quarters in *. unfold i32_max.
  Z.div_mod_to_equations. lia.
Qed.

(** * Sums that wrap *)
Definition z_sum (l : list Z) : Z := List.fold_right Z.add 0 l.
Lemma z_sum_app a b : z_sum (a ++ b) = z_sum a + z_sum b.
Proof. unfold z_sum. induction a as [|x a IH]; cbn [List.fold_right app]; lia. Qed.
Lemma u64_sum_spec l : u64_sum l = z_sum l mod 18446744073709551616.
Proof.
  unfold u64_sum. assert (Hgen : forall n, (List.fold_left u64_add l n) mod 18446744073709551616
    = (n + z_sum l) mod 18446744073709551616 /\ (l = [] \/ 0 <= List.fold_left u64_add l n < 18446744073709551616)).
  { unfold z_sum. induction l as [|x l IH]; intros n; cbn [List.fold_left List.fold_right].
    - split; [f_equal; lia|by left].
    - destruct (IH (u64_add n x)) as [E B]. split.
      + rewrite E. unfold u64_add. rewrite Zplus_mod_idemp_l. f_equal. lia.
      + right. destruct B as [->|B]; [|done]. cbn. unfold u64_add. apply Z.mod_pos_bound. lia. }
  destruct (Hgen 0) as [E [->|B]]; [done|]. rewrite <- (Z.mod_small _ _ B), E. f_equal.
Qed.
Lemma u64_sum_range l : 0 <= u64_sum l <= u64_max.
Proof. rewrite u64_sum_spec. unfold u64_max. pose proof (Z.mod_pos_bound (z_sum l) 18446744073709551616). lia. Qed.
(** One more item adds at most its cost. *)
Lemma u64_sum_insert a x b : 0 <= x -> u64_sum (a ++ x :: b) <= u64_sum (a ++ b) + x.
Proof.
  intros Hx. rewrite !u64_sum_spec, !z_sum_app. cbn [z_sum List.fold_right]. fold (z_sum b).
  replace (z_sum a + (x + z_sum b)) with ((z_sum a + z_sum b) + x) by lia.
  rewrite Z.add_mod by lia. set (s := (z_sum a + z_sum b) mod _).
  assert (0 <= s) by (apply Z.mod_pos_bound; lia).
  assert (Hm : x mod 18446744073709551616 <= x) by (apply Z.mod_le; lia).
  pose proof (Z.mod_pos_bound x 18446744073709551616). etrans; [apply Z.mod_le; lia|lia].
Qed.

Section Fits.
Context `{JsonText}.

(** * The cost of the committed summary *)
Lemma summary_cost text id :
  projected_token_cost (mkProjected (summary_message text id) [id])
  = estimate_text_tokens ("[Context compaction: " +:+ text +:+ "]") + 6.
Proof.
  set (t := "[Context compaction: " +:+ text +:+ "]").
  change (projected_token_cost (mkProjected (summary_message text id) [id]))
    with (u64_add (u64_add (u64_add (u64_sat_add 0 (estimate_text_tokens t)) 0) 6) (u64_mul (u64_add 0 0) 2048)).
  pose proof (estimate_bounds t) as Hb. unfold i32_max in Hb.
  assert (Hs : u64_sat_add 0 (estimate_text_tokens t) = estimate_text_tokens t) by (unfold u64_sat_add, u64_max; lia).
  change (u64_mul (u64_add 0 0) 2048) with 0. rewrite Hs. unfold u64_max in *.
  rewrite (u64_add_small (estimate_text_tokens t) 0), Z.add_0_r by (unfold u64_max; lia).
  rewrite (u64_add_small (estimate_text_tokens t) 6) by (unfold u64_max; lia).
  rewrite u64_add_small by (unfold u64_max; lia). lia.
Qed.

(** * The index *)
Lemma select_rows_extends interrupted candidates budget order : forall round selected text result,
  select_rows interrupted candidates budget round selected order text = inr result ->
  exists more, result = text +:+ more.
Proof.
  induction order as [|index rest IH]; intros round selected text result; cbn [select_rows].
  - intros [= <-]. exists "". by rewrite append_nil_r.
  - destruct (interrupted _); [done|]. case_bool_decide; [apply IH|].
    destruct (_ <? 64); [intros [= <-]; exists ""; by rewrite append_nil_r|].
    intros Hr. apply IH in Hr as [more ->]. destruct (mbind _ _) as [line|]; [|by exists more].
    exists (newline +:+ line +:+ more). by rewrite !append_assoc.
Qed.
Lemma build_fits interrupted raw cutoff instructions budget evidence :
  build interrupted raw cutoff instructions budget = inr evidence ->
  (exists rest, evidence = String "C" rest) /\ 1 <= estimate_text_tokens evidence <= budget.
Proof.
  unfold build. destruct (find_index _ _); [|done]. cbv zeta.
  set (text := match instructions with Some note => _ | None => _ end).
  destruct (budget <? estimate_text_tokens text); [done|]. destruct (List.existsb _ _); [done|].
  destruct (select_rows _ _ _ _ _ _ _) as [|e] eqn:Hs; [done|]. destruct (budget <? _) eqn:Hb; [done|].
  intros [= <-]. apply Z.ltb_ge in Hb.
  assert (Hc : exists rest, e = String "C" rest).
  { apply select_rows_extends in Hs as [more ->]. unfold text.
    destruct instructions as [note|]; [destruct (note =?s "")|]; eexists; reflexivity. }
  split; [done|]. split; [|done]. destruct Hc as [rest ->]. apply estimate_nonempty.
Qed.

(** * The budget *)
Lemma committed_estimate evidence note : (exists rest, evidence = String "C" rest) -> starts_char note ->
  estimate_text_tokens ("[Context compaction: " +:+ (compose HEADER evidence +:+ note) +:+ "]")
  <= header_reserve + estimate_text_tokens evidence + estimate_text_tokens note + 8.
Proof.
  intros (rest & ->) Hn. unfold compose. set (evidence := String "C" rest).
  assert (Hassoc : "[Context compaction: " +:+ ((HEADER +:+ newline +:+ evidence) +:+ note) +:+ "]"
    = "[Context compaction: " +:+ (HEADER +:+ (newline +:+ (evidence +:+ (note +:+ "]"))))).
  { by rewrite !append_assoc. }
  rewrite Hassoc. clear Hassoc.
  assert (Hend : starts_char (note +:+ "]")) by (by destruct note).
  pose proof (estimate_app "[Context compaction: " (HEADER +:+ (newline +:+ (evidence +:+ (note +:+ "]"))))) as E1.
  pose proof (estimate_app HEADER (newline +:+ (evidence +:+ (note +:+ "]")))) as E2.
  pose proof (estimate_app newline (evidence +:+ (note +:+ "]"))) as E3.
  pose proof (estimate_app evidence (note +:+ "]") Hend) as E4.
  pose proof (estimate_app note "]") as E5.
  specialize (E1 eq_refl). specialize (E2 eq_refl). specialize (E3 eq_refl). specialize (E5 eq_refl).
  assert (Hh : estimate_text_tokens HEADER + 1 <= header_reserve) by (by vm_compute).
  assert (H1 : estimate_text_tokens "[Context compaction: " = 6) by (by vm_compute).
  assert (H2 : estimate_text_tokens newline = 1) by (by vm_compute).
  assert (H3 : estimate_text_tokens "]" = 1) by (by vm_compute). lia.
Qed.

Context `{UsageSerde}.
(** The evidence of a plan, as the text it is committed as, fits what the plan
    sets aside for it. *)
Lemma evidence_cost p evidence budget reserve id :
  budget = u64_sat_sub (u64_sat_sub (u64_sat_sub (pl_summary_budget p) (note_tokens p)) reserve) header_reserve ->
  0 <= reserve -> (exists rest, evidence = String "C" rest) -> 1 <= estimate_text_tokens evidence <= budget ->
  projected_token_cost (mkProjected
    (summary_message (committed_text p (compose HEADER evidence) ALGORITHM_DETERMINISTIC) id) [id])
  <= pl_summary_budget p + 64.
Proof.
  intros Hb Hr Hc He. rewrite summary_cost. unfold committed_text.
  assert (Hn : 0 <= note_tokens p).
  { unfold note_tokens. destruct (_ <? _)%nat; [|done]. apply estimate_bounds. }
  assert (Hbound : exists note, (if (0 <? pl_summarized_outputs p)%nat
      then compose HEADER evidence +:+ retention_note (pl_summarized_outputs p) ALGORITHM_DETERMINISTIC
      else compose HEADER evidence) = compose HEADER evidence +:+ note
    /\ starts_char note /\ estimate_text_tokens note = note_tokens p).
  { unfold note_tokens. destruct (_ <? _)%nat; [eexists; split; [reflexivity|]; by split|].
    exists "". by rewrite append_nil_r. }
  destruct Hbound as (note & -> & Hs & Hnote). pose proof (committed_estimate evidence note Hc Hs) as Hce.
  assert (0 <= header_reserve) by (by vm_compute). unfold u64_sat_sub in Hb. lia.
Qed.
Lemma sat_fits total budget maximum : 0 <= total -> 0 <= budget -> maximum < u64_max ->
  u64_sat_add (u64_sat_add total budget) 64 <= maximum -> total + budget + 64 <= maximum
  /\ u64_sat_add (u64_sat_add total budget) 64 = total + budget + 64.
Proof. unfold u64_sat_add. lia. Qed.

(** C24: a compaction that was planned cannot fail for space: the prompt with
    the deterministic evidence is within the target the plan admitted and
    within the input limit of the model, so committing it succeeds, or reports
    that an unforced compaction saved nothing. *)
Theorem evidence_always_fits interrupted manager prompt raw trigger phase instructions wants q evidence reserve
    entry_id now :
  stage interrupted manager prompt raw trigger phase instructions wants = inr (Ready q evidence reserve) ->
  finalize manager q (compose HEADER evidence) ALGORITHM_DETERMINISTIC (cm_model manager) entry_id now
    = inl NoProgress /\ trigger <> Manual
  \/ exists prompt' c,
       finalize manager q (compose HEADER evidence) ALGORITHM_DETERMINISTIC (cm_model manager) entry_id now
         = inr (Compacted prompt' c)
       /\ u64_sum (pc_message_tokens prompt') <= pl_target_tokens q <= MAX_EXPANDED_HISTORY
       /\ cu_estimated_input_tokens (pc_usage prompt') <= input_limit manager prompt.
Proof.
  intros Hs. apply stage_ready in Hs as (p & cutoff & Hplan & _ & Hres & Hbuild & [Hret Hprot Htgt Hsum Hout Hus Htr] & _).
  apply plan_compact in Hplan as (cut & tokens_before & _ & Hat).
  destruct Hat as [_ _ _ _ Husage Htrigger _ Hsb _ [Hreq Htarget]].
  apply build_fits in Hbuild as [Hc Hest].
  pose proof (evidence_cost p evidence _ reserve entry_id eq_refl) as Hcost.
  specialize (Hcost ltac:(rewrite Hres; unfold u64_sat_sub; lia) Hc Hest).
  assert (Hbudget : 0 <= pl_summary_budget p).
  { rewrite Hsb. unfold u64_add. pose proof (Z.mod_pos_bound (EVIDENCE_TOKENS + summary_allowance manager wants) 18446744073709551616). lia. }
  pose proof (u64_sum_range (List.map projected_token_cost (pl_protected p ++ pl_retained p))) as Htotal.
  fold (token_total (pl_protected p ++ pl_retained p)) in Htotal.
  set (maximum := Z.min MAX_EXPANDED_HISTORY _) in *.
  assert (Hmax : maximum < u64_max) by (unfold maximum, MAX_EXPANDED_HISTORY, u64_max; lia).
  destruct (sat_fits _ _ _ (proj1 Htotal) Hbudget Hmax Hreq) as [Hfit Heq]. rewrite Heq in Htarget.
  unfold finalize. destruct (is_blank _) eqn:Hblank.
  { assert (Hv : is_blank (compose HEADER evidence) = false); [|congruence].
    apply (visible_not_blank 68); [done|done|]. by left. }
  fold (committed_text q (compose HEADER evidence) ALGORITHM_DETERMINISTIC).
  rewrite List.map_app. cbn [List.map app].
  assert (Htext : committed_text q (compose HEADER evidence) ALGORITHM_DETERMINISTIC
                  = committed_text p (compose HEADER evidence) ALGORITHM_DETERMINISTIC).
  { unfold committed_text. by rewrite Hout. }
  rewrite Htext, Hprot, Hret, Htgt, Hus, Htr, Htrigger, Husage.
  set (cost := projected_token_cost _) in *. set (history := u64_sum _).
  assert (Hhist : history <= token_total (pl_protected p ++ pl_retained p) + cost).
  { unfold history, token_total. rewrite List.map_app. apply u64_sum_insert.
    unfold cost. rewrite summary_cost. pose proof (estimate_bounds ("[Context compaction: " +:+ committed_text p (compose HEADER evidence) ALGORITHM_DETERMINISTIC +:+ "]")). lia. }
  assert (Hroom : maximum <= u64_sat_sub (input_limit manager prompt) (cu_fixed_input_tokens (pc_usage prompt))).
  { unfold maximum. set (room := u64_sat_sub _ _). assert (0 <= room) by (unfold room, u64_sat_sub; lia).
    unfold u64_sat_mul. Z.div_mod_to_equations. lia. }
  assert (Hlimit : history + cu_fixed_input_tokens (pc_usage prompt) <= input_limit manager prompt).
  { unfold u64_sat_sub in Hroom. lia. }
  assert (Hmm : maximum <= MAX_EXPANDED_HISTORY) by (unfold maximum; lia).
  replace (pl_target_tokens p <? history) with false by (symmetry; apply Z.ltb_ge; lia).
  change (input_limit_for_usage manager (pc_usage prompt)) with (input_limit manager prompt).
  set (after := u64_sat_add history _). assert (Hafter : after <= input_limit manager prompt) by (unfold after, u64_sat_add; lia).
  replace (input_limit manager prompt <? after) with false by (symmetry; apply Z.ltb_ge; lia). cbn [orb].
  assert (Hbounds : history <= pl_target_tokens p <= MAX_EXPANDED_HISTORY /\ after <= input_limit manager prompt) by lia.
  case_bool_decide as Hm; cbn [negb andb].
  - right. do 2 eexists. split; [reflexivity|exact Hbounds].
  - destruct (_ <=? _); [by left|]. right. do 2 eexists. split; [reflexivity|exact Hbounds].
Qed.
End Fits.
