(* ===== verification/ForkProps.v ===== *)
(** A fork keeps what its checkpoints say: a checkpoint in force in the parent
    has a copy in the child that is in force there, about the same entries, exactly
    when the references of its evidence can be renamed; otherwise it is left out. *)
From S2P Require Import Prelude Json SessionEntry RunJournal Checkpoint Compaction Evidence SessionFork CompactionProps.

(** * Positions *)
Lemma find_index_refine {A} (p q : A -> bool) l i x : find_index p l = Some i -> l !! i = Some x -> q x = true ->
  find_index (fun x => p x && q x) l = Some i.
Proof.
  revert i. induction l as [|y l IH]; intros i; cbn; [done|]. destruct (p y) eqn:E.
  - intros [= <-] [= ->] Hq. by rewrite Hq.
  - destruct (find_index p l) as [j|]; [|done]. intros [= <-] Hx Hq. cbn in Hx. by rewrite (IH j).
Qed.
Lemma find_index_refined {A} (p q : A -> bool) l i : (forall j k x y, l !! j = Some x -> l !! k = Some y ->
    p x = true -> p y = true -> j = k) ->
  find_index (fun x => p x && q x) l = Some i -> find_index p l = Some i /\ exists x, l !! i = Some x /\ q x = true.
Proof.
  intros Hu Hf. apply find_index_some in Hf as (x & Hx & Hpq). apply andb_true_iff in Hpq as [Hp Hq].
  split; [|by exists x]. apply (find_index_first _ _ _ x Hx Hp). intros j y Hj Hy. by eapply Hu.
Qed.
(** Where [omap] puts what it keeps. *)
Definition rank {A B} (f : A -> option B) (l : list A) (i : nat) : nat := List.length (omap f (take i l)).
Lemma rank_mono {A B} (f : A -> option B) l i j : (i <= j)%nat -> (rank f l i <= rank f l j)%nat.
Proof.
  intros Hij. unfold rank. replace (take i l) with (take i (take j l)) by (rewrite take_take; f_equal; lia).
  rewrite <- (take_drop i (take j l)) at 2. rewrite omap_app, length_app. lia.
Qed.
Lemma rank_strict {A B} (f : A -> option B) l i j x y : (i < j)%nat -> l !! i = Some x -> f x = Some y ->
  (rank f l i < rank f l j)%nat.
Proof.
  intros Hij Hx Hy. pose proof (rank_mono f l (S i) j Hij) as Hle. unfold rank in *.
  rewrite (take_S_r _ _ _ Hx), omap_app, length_app, omap_cons_match, Hy in Hle. cbn in Hle. lia.
Qed.
Lemma find_index_omap {A B} (f : A -> option B) (q : B -> bool) l i x y :
  l !! i = Some x -> f x = Some y -> q y = true ->
  (forall j z w, l !! j = Some z -> f z = Some w -> q w = true -> (i <= j)%nat) ->
  find_index q (omap f l) = Some (rank f l i) /\ omap f l !! rank f l i = Some y.
Proof.
  revert i. induction l as [|z l IH]; intros i Hx Hy Hq Hfirst; [done|]. destruct i as [|i].
  - cbn in Hx. injection Hx as ->. rewrite omap_cons_match, Hy. cbn. by rewrite Hq.
  - destruct (IH i Hx Hy Hq) as [IH1 IH2].
    { intros j w v Hj Hw Hv. specialize (Hfirst (S j) w v Hj Hw Hv). lia. }
    unfold rank in *. cbn [take]. rewrite !omap_cons_match. destruct (f z) as [w|] eqn:Hz; [|done].
    cbn [find_index List.length]. destruct (q w) eqn:Hw; [specialize (Hfirst O z w eq_refl Hz Hw); lia|].
    rewrite IH1. done.
Qed.

(** * Carrying a checkpoint over *)
Definition unique_ids (entries : list SessionEntry) : Prop := base.NoDup (List.map se_id entries).
Lemma unique_at entries i j e f : unique_ids entries -> entries !! i = Some e -> entries !! j = Some f ->
  se_id e = se_id f -> i = j.
Proof.
  intros Hu Hi Hj He. eapply (NoDup_lookup (List.map se_id entries)); [done| |].
  - change (List.map se_id entries) with (se_id <$> entries). by rewrite list_lookup_fmap, Hi.
  - change (List.map se_id entries) with (se_id <$> entries). rewrite list_lookup_fmap, Hj. cbn. by rewrite He.
Qed.
Definition spoken (e : SessionEntry) : bool := has_type ENTRY_TYPE_USER e || has_type ENTRY_TYPE_ASSISTANT e.

(** The entries a checkpoint names. *)
Definition refs `{UsageSerde} (c : ContextCheckpoint) : list string :=
  cp_entry_id c :: option_list (cp_covered_from_entry_id c) ++ option_list (cp_cutoff_entry_id c)
  ++ cp_protected_entry_ids c.
Lemma originals_indexed entries cutoff ids : unique_ids entries -> forall seen,
  originals_valid entries cutoff seen ids = true -> forall id, In id ids ->
  exists i e, index_of_entry id entries = Some i /\ entries !! i = Some e /\ spoken e = true /\ (i <= cutoff)%nat.
Proof.
  intros Hu. induction ids as [|b ids IH]; intros seen; cbn [originals_valid]; [done|].
  rewrite !andb_true_iff. intros [[_ Hb] Hr] id [->|Hin]; [|by eapply IH].
  destruct (index_of_original id entries) as [i|] eqn:E; [|done]. apply Nat.leb_le in Hb.
  apply (find_index_refined (fun e => se_id e =?s id) spoken) in E as [E (e & He & Hs)]; [by exists i, e|].
  intros j k x y Hj Hk Hx%String.eqb_eq Hy%String.eqb_eq. eapply (unique_at entries); [done|done|done|congruence].
Qed.
Lemma valid_refs `{UsageSerde} entries c : unique_ids entries -> checkpoint_is_valid entries c = true ->
  forall id, In id (refs c) -> exists i, index_of_entry id entries = Some i.
Proof.
  intros Hu. unfold checkpoint_is_valid, refs.
  destruct (cp_covered_from_entry_id c) as [from|]; [|done]. destruct (cp_cutoff_entry_id c) as [cutoff|]; [|done].
  destruct (index_of_entry (cp_entry_id c) entries) as [i|] eqn:Ei; [|done].
  destruct (index_of_entry from entries) as [j|] eqn:Ej; [|done].
  destruct (index_of_entry cutoff entries) as [k|] eqn:Ek; [|done].
  rewrite !andb_true_iff. intros [_ Ho] id [<-|[<-|[<-|Hin]]]; eauto.
  destruct (originals_indexed entries k _ Hu [] Ho id Hin) as (n & e & Hn & _). by exists n.
Qed.

Section Carry.
Context `{UsageSerde}.
Variables (l l' : list SessionEntry) (rho : string -> string).
Hypothesis l_unique : unique_ids l.
(** The entry of [l] at [i] is the entry of [l'] at [i']. *)
Definition carried (i i' : nat) (e : SessionEntry) : Prop :=
  l !! i = Some e /\ index_of_entry (rho (se_id e)) l' = Some i'
  /\ exists e', l' !! i' = Some e' /\ se_entry_type e' = se_entry_type e.
Hypothesis in_order : forall i j i' j' e f, carried i i' e -> carried j j' f ->
  ((i <= j)%nat -> (i' <= j')%nat) /\ ((i < j)%nat -> (i' < j')%nat).
Hypothesis rho_injective : forall i j i' j' e f, carried i i' e -> carried j j' f ->
  rho (se_id e) = rho (se_id f) -> se_id e = se_id f.
(** An id that names an entry [l'] has too. *)
Definition carries (id : string) : Prop := exists i i' e, carried i i' e /\ se_id e = id.

Lemma carried_index id i : carries id -> index_of_entry id l = Some i ->
  exists i' e, carried i i' e /\ se_id e = id /\ index_of_entry (rho id) l' = Some i'.
Proof.
  intros (j & j' & e & Hc & He) Hi. pose proof Hc as (Hj & Hr & _). apply find_index_some in Hi as (x & Hx & Hid).
  apply String.eqb_eq in Hid. assert (Hij : j = i) by (eapply (unique_at l); [done|done|done|congruence]).
  subst j. exists j', e. by rewrite <- He.
Qed.
Lemma originals_carried cutoff cutoff' f ids : carried cutoff cutoff' f -> (forall id, In id ids -> carries id) ->
  forall seen, (forall id, In id seen -> carries id) -> originals_valid l cutoff seen ids = true ->
  originals_valid l' cutoff' (List.map rho seen) (List.map rho ids) = true.
Proof.
  intros Hcut. induction ids as [|id ids IH]; intros Hids seen Hseen; cbn [originals_valid List.map]; [done|].
  rewrite !andb_true_iff. intros [[Hnew Horig] Hrest]. apply bool_decide_eq_true in Hnew.
  destruct (index_of_original id l) as [i|] eqn:Hi; [|done]. apply Nat.leb_le in Horig.
  destruct (find_index_refined (fun e => se_id e =?s id) spoken l i) as [Hidx (x & Hx & Hsp)]; [|exact Hi|].
  { intros j k a b Hj Hk Ha%String.eqb_eq Hb%String.eqb_eq. eapply (unique_at l); [done|done|done|congruence]. }
  destruct (carried_index id i (Hids id (or_introl eq_refl)) Hidx) as (i' & e & Hc & He & Hi').
  pose proof Hc as (Hl & _ & e' & He' & Hty). rewrite Hx in Hl. injection Hl as ->.
  assert (Ho : index_of_original (rho id) l' = Some i').
  { apply (find_index_refine (fun e => se_id e =?s rho id) spoken l' i' e' Hi' He').
    unfold spoken, has_type in *. by rewrite Hty. }
  rewrite Ho. split_and!.
  - apply bool_decide_eq_true. intros Hin. apply list_elem_of_In, List.in_map_iff in Hin as (b & Hb & Hbin).
    destruct (Hseen b Hbin) as (j & j' & g & Hg & Hgb). apply Hnew. apply list_elem_of_In.
    replace id with b; [done|]. rewrite <- Hgb, <- He. apply (rho_injective _ _ _ _ _ _ Hg Hc). by rewrite Hgb, He.
  - apply Nat.leb_le. by apply (in_order _ _ _ _ _ _ Hc Hcut).
  - apply (IH (fun b Hb => Hids b (or_intror Hb)) (id :: seen)); [|done].
    intros b [<-|Hb]; [apply Hids; by left|by apply Hseen].
Qed.
(** A checkpoint about [l], renamed, is one about [l']. *)
Lemma valid_carried c c' : checkpoint_is_valid l c = true ->
  cp_entry_id c' = rho (cp_entry_id c) -> cp_covered_from_entry_id c' = rho <$> cp_covered_from_entry_id c ->
  cp_cutoff_entry_id c' = rho <$> cp_cutoff_entry_id c ->
  cp_protected_entry_ids c' = List.map rho (cp_protected_entry_ids c) ->
  (forall id, In id (refs c) -> carries id) -> checkpoint_is_valid l' c' = true.
Proof.
  intros Hv He Hf Ht Hp Hc. unfold checkpoint_is_valid, refs in *. rewrite He, Hf, Ht, Hp.
  destruct (cp_covered_from_entry_id c) as [from|]; [|done]. destruct (cp_cutoff_entry_id c) as [cutoff|]; [|done].
  cbn [fmap option_fmap option_map option_list app] in *.
  destruct (index_of_entry (cp_entry_id c) l) as [i|] eqn:Ei; [|done].
  destruct (index_of_entry from l) as [j|] eqn:Ej; [|done]. destruct (index_of_entry cutoff l) as [k|] eqn:Ek; [|done].
  edestruct carried_index as (i' & e & Hi & _ & ->); [|exact Ei|]; [by apply Hc; left|].
  edestruct carried_index as (j' & f & Hj & _ & ->); [|exact Ej|]; [by apply Hc; right; left|].
  edestruct carried_index as (k' & g & Hk & _ & ->); [|exact Ek|]; [by apply Hc; right; right; left|].
  rewrite !andb_true_iff in *. destruct Hv as [[Hjk%Nat.leb_le Hki%Nat.ltb_lt] Ho]. split_and!.
  - apply Nat.leb_le. by apply (in_order _ _ _ _ _ _ Hj Hk).
  - apply Nat.ltb_lt. by apply (in_order _ _ _ _ _ _ Hk Hi).
  - apply (originals_carried k k' g (cp_protected_entry_ids c) Hk) with (seen := []); [|done|done].
    intros id Hid. apply Hc. by right; right; right.
Qed.
End Carry.

(** * The steps of a fork *)

(** Dropping entries, with new ones in front. *)
Section Keep.
Context `{UsageSerde}.
Variables (l front : list SessionEntry) (keep : SessionEntry -> option SessionEntry).
Hypothesis l_unique : unique_ids l.
Hypothesis keep_same : forall e e', keep e = Some e' -> se_id e' = se_id e /\ se_entry_type e' = se_entry_type e.
Hypothesis front_new : forall e f, In e l -> In f front -> se_id f <> se_id e.
Lemma kept_position i e e' : l !! i = Some e -> keep e = Some e' ->
  index_of_entry (se_id e) (front ++ omap keep l) = Some (List.length front + rank keep l i)%nat
  /\ (front ++ omap keep l) !! (List.length front + rank keep l i)%nat = Some e'.
Proof.
  intros Hi Hk. destruct (find_index_omap keep (fun x => se_id x =?s se_id e) l i e e' Hi Hk) as [Hf Hl].
  - apply String.eqb_eq. by apply keep_same.
  - intros j z w Hj Hz Hw%String.eqb_eq. destruct (keep_same z w Hz) as [Hzw _].
    rewrite (unique_at l i j e z); [done|done|done|done|congruence].
  - split; [|by rewrite lookup_app_r, Nat.add_comm, Nat.add_sub by lia].
    assert (Hfront : forall f, In f front -> (se_id f =?s se_id e) = false).
    { intros f Hin. apply String.eqb_neq, front_new; [|done]. apply list_elem_of_In. by eapply list_elem_of_lookup_2. }
    unfold index_of_entry. clear front_new. induction front as [|x r IH]; cbn [app find_index List.length]; [done|].
    rewrite Hfront by (by left). rewrite IH; [done|]. intros f Hin. apply Hfront. by right.
Qed.
Lemma kept_carried i e e' : l !! i = Some e -> keep e = Some e' ->
  carried l (front ++ omap keep l) id i (List.length front + rank keep l i) e.
Proof.
  intros Hi Hk. destruct (kept_position i e e' Hi Hk) as [Hx Hl]. split; [done|]. split; [done|].
  exists e'. split; [done|]. by apply keep_same in Hk as [_ ?].
Qed.
Lemma carried_kept i i' e : carried l (front ++ omap keep l) id i i' e ->
  (exists e', keep e = Some e') /\ i' = (List.length front + rank keep l i)%nat.
Proof.
  intros (Hi & Hx & _). unfold id in Hx. pose proof Hx as Hx'. apply find_index_some in Hx as (y & Hy & Hid).
  apply String.eqb_eq in Hid. assert (Hin : In y (front ++ omap keep l)) by (apply list_elem_of_In; by eapply list_elem_of_lookup_2).
  apply in_app_or in Hin as [Hin|Hin].
  - exfalso. eapply front_new; [|exact Hin|exact Hid]. apply list_elem_of_In. by eapply list_elem_of_lookup_2.
  - apply in_omap in Hin as (x & Hxl & Hk). apply list_elem_of_In, list_elem_of_lookup in Hxl as [j Hj].
    destruct (keep_same x y Hk) as [Hxy _]. assert (Hij : i = j) by (eapply (unique_at l); [done|done|done|congruence]).
    subst j. rewrite Hi in Hj. injection Hj as <-. split; [by exists y|].
    destruct (kept_position i e y Hi Hk) as [Hx _]. congruence.
Qed.
Lemma keep_in_order i j i' j' e f : carried l (front ++ omap keep l) id i i' e ->
  carried l (front ++ omap keep l) id j j' f -> ((i <= j)%nat -> (i' <= j')%nat) /\ ((i < j)%nat -> (i' < j')%nat).
Proof.
  intros Hi Hj. pose proof Hi as (Hli & _). apply carried_kept in Hi as [(e' & Hk) ->]. apply carried_kept in Hj as [_ ->].
  split; intros Hij.
  - pose proof (rank_mono keep l i j Hij). lia.
  - pose proof (rank_strict keep l i j e e' Hij Hli Hk). lia.
Qed.
Lemma kept_carries e e' : In e l -> keep e = Some e' -> carries l (front ++ omap keep l) id (se_id e).
Proof.
  intros Hin Hk. apply list_elem_of_In, list_elem_of_lookup in Hin as [i Hi]. do 3 eexists.
  split; [by eapply kept_carried|done].
Qed.
Lemma valid_kept c : checkpoint_is_valid l c = true ->
  (forall e, In e l -> In (se_id e) (refs c) -> is_Some (keep e)) ->
  checkpoint_is_valid (front ++ omap keep l) c = true.
Proof.
  intros Hv Hkeep. apply (valid_carried l _ id l_unique keep_in_order) with (c := c); try done.
  - by destruct (cp_covered_from_entry_id c).
  - by destruct (cp_cutoff_entry_id c).
  - by rewrite List.map_id.
  - intros id Hid. destruct (valid_refs l c l_unique Hv id Hid) as [i Hi].
    apply find_index_some in Hi as (e & Hl & He). apply String.eqb_eq in He. subst id.
    assert (Hin : In e l) by (apply list_elem_of_In; by eapply list_elem_of_lookup_2).
    destruct (Hkeep e Hin Hid) as [e' Hk]. by eapply kept_carries.
Qed.
End Keep.

(** Renaming every entry. *)
Section Rename.
Context `{UsageSerde}.
Variables (l l' : list SessionEntry) (rho : string -> string).
Hypotheses (l_unique : unique_ids l) (l'_unique : unique_ids l').
Hypothesis renamed : Forall2 (fun e e' => se_id e' = rho (se_id e) /\ se_entry_type e' = se_entry_type e) l l'.
Lemma renamed_carried i e : l !! i = Some e -> carried l l' rho i i e.
Proof.
  intros Hi. destruct (Forall2_lookup_l _ _ _ _ _ renamed Hi) as (e' & Hi' & Hid & Hty).
  split; [done|]. split; [|by exists e']. unfold index_of_entry. apply (find_index_first _ _ _ e' Hi').
  - by apply String.eqb_eq.
  - intros j y Hj Hy%String.eqb_eq. eapply (unique_at l'); [done|done|done|congruence].
Qed.
Lemma carried_renamed i i' e : carried l l' rho i i' e -> i' = i.
Proof.
  intros (Hi & Hx & _). destruct (renamed_carried i e Hi) as (_ & Hy & _). congruence.
Qed.
Lemma rename_injective i j i' j' e f : carried l l' rho i i' e -> carried l l' rho j j' f ->
  rho (se_id e) = rho (se_id f) -> se_id e = se_id f.
Proof.
  intros Hi Hj Heq. pose proof (carried_renamed _ _ _ Hi) as ->. pose proof (carried_renamed _ _ _ Hj) as ->.
  destruct Hi as (Hi & Hx & _), Hj as (Hj & Hy & _). rewrite Heq in Hx. congruence.
Qed.
Lemma rename_in_order i j i' j' e f : carried l l' rho i i' e -> carried l l' rho j j' f ->
  ((i <= j)%nat -> (i' <= j')%nat) /\ ((i < j)%nat -> (i' < j')%nat).
Proof. intros ->%carried_renamed ->%carried_renamed. done. Qed.
End Rename.

(** [id_map] names each copied entry. *)
Section Names.
Variable fresh : FreshIds.
Definition name_entry (m : gmap string string) (x : nat * SessionEntry) : gmap string string :=
  <[se_id (snd x) := fi_entry fresh (fst x)]> m.
Definition named_from (off : nat) (entries : list SessionEntry) (m : gmap string string) : gmap string string :=
  List.fold_left name_entry (imap (fun j e => ((off + j)%nat, e)) entries) m.
Lemma named_from_cons off x l m : named_from off (x :: l) m = named_from (S off) l (name_entry m (off, x)).
Proof.
  unfold named_from. cbn [imap List.fold_left]. rewrite Nat.add_0_r. f_equal. apply imap_ext.
  intros j y _. cbn. f_equal. lia.
Qed.
Lemma named_from_other entries : forall off m id, (forall e, In e entries -> se_id e <> id) ->
  named_from off entries m !! id = m !! id.
Proof.
  induction entries as [|x l IH]; intros off m id Hid; [done|]. rewrite named_from_cons, IH.
  - unfold name_entry. cbn. apply lookup_insert_ne, Hid. by left.
  - intros e He. apply Hid. by right.
Qed.
Lemma named_from_at entries : forall off m i e, unique_ids entries -> entries !! i = Some e ->
  named_from off entries m !! se_id e = Some (fi_entry fresh (off + i)).
Proof.
  induction entries as [|x l IH]; intros off m i e Hu Hi; [done|]. inversion_clear Hu as [|? ? Hnew Hu'].
  rewrite named_from_cons. destruct i as [|i]; cbn in Hi.
  - injection Hi as ->. rewrite named_from_other, Nat.add_0_r; [apply lookup_insert_eq|].
    intros f Hf Hid. apply Hnew. rewrite <- Hid. by apply list_elem_of_In, List.in_map.
  - rewrite (IH _ _ i e Hu' Hi). do 2 f_equal. lia.
Qed.
Lemma id_map_at entries i e : unique_ids entries -> entries !! i = Some e ->
  id_map fresh entries !! se_id e = Some (fi_entry fresh i).
Proof. exact (named_from_at entries O ∅ i e). Qed.
Lemma id_map_named entries id new : unique_ids entries -> id_map fresh entries !! id = Some new ->
  exists i e, entries !! i = Some e /\ se_id e = id /\ new = fi_entry fresh i.
Proof.
  intros Hu Hid. destruct (List.find (fun e => se_id e =?s id) entries) as [e|] eqn:Hf.
  - apply find_some in Hf as [Hin He%String.eqb_eq]. apply list_elem_of_In, list_elem_of_lookup in Hin as [i Hi].
    exists i, e. rewrite <- He, (id_map_at entries i e Hu Hi) in Hid. by injection Hid as <-.
  - exfalso. pose proof (named_from_other entries O ∅ id) as Hno. change (named_from O entries ∅) with (id_map fresh entries) in Hno.
    rewrite Hno in Hid; [by rewrite lookup_empty in Hid|]. intros e He Heq.
    pose proof (find_none _ _ Hf e He) as Hne. cbn in Hne. rewrite Heq, String.eqb_refl in Hne. done.
Qed.
End Names.

(** What renaming the runs leaves alone. *)
Section Runs.
Variable fresh : FreshIds.
Definition run_type (entry_type : string) : bool :=
  (entry_type =?s ENTRY_TYPE_RUN_STARTED) || (entry_type =?s ENTRY_TYPE_RUN_TERMINAL).
Record renamed_run (e e' : SessionEntry) : Prop := {
  rr_id : se_id e' = se_id e;
  rr_type : se_entry_type e' = se_entry_type e;
  rr_time : se_timestamp e' = se_timestamp e;
  rr_content : run_type (se_entry_type e) = false -> se_content e' = se_content e
}.
Lemma rename_runs_of_spec parent_id run_ids e : renamed_run e (fst (rename_runs_of fresh parent_id run_ids e)).
Proof.
  unfold rename_runs_of. destruct (rename_meta_run _ _ _) as [meta ids].
  assert (Hty : forall t, has_type t (e <| se_meta := meta |>) = (se_entry_type e =?s t)) by done. rewrite !Hty.
  fold (run_type (se_entry_type e)). destruct (run_type (se_entry_type e)) eqn:Hr.
  - destruct (rename_marker_run _ _ _ _) as [content ids']. constructor; cbn; congruence.
  - by constructor.
Qed.
Lemma rename_runs_spec parent_id entries : forall run_ids,
  Forall2 renamed_run entries (rename_runs fresh parent_id run_ids entries).
Proof.
  induction entries as [|e l IH]; intros run_ids; cbn [rename_runs]; [constructor|].
  pose proof (rename_runs_of_spec parent_id run_ids e) as Hs. destruct (rename_runs_of _ _ _ _) as [e' ids].
  by constructor.
Qed.
End Runs.

(** * Checkpoints under new names *)
Section Remapped.
Context `{JsonText} `{UsageSerde}.
Variables (json_parse : string -> option Value) (ids : gmap string string).
Lemma remap_key_spec key content content' : remap_key ids key content = Some content' ->
  exists old new, map_get key content ≫= as_str = Some old /\ ids !! old = Some new
    /\ content' = map_insert key (VString new) content.
Proof.
  unfold remap_key. destruct (map_get key content ≫= as_str) as [old|]; [|done]. cbn [mbind option_bind].
  destruct (ids !! old) as [new|] eqn:Hn; [|done]. intros [= <-]. by exists old, new.
Qed.
Lemma remap_key_some key content old new : map_get key content ≫= as_str = Some old -> ids !! old = Some new ->
  remap_key ids key content = Some (map_insert key (VString new) content).
Proof. unfold remap_key. intros ->. cbn [mbind option_bind]. by intros ->. Qed.
Lemma mapM_renamed l mapped : mapM (fun v => old ← as_str v; ids !! old) (List.map VString l) = Some mapped ->
  mapM (ids !!.) l = Some mapped.
Proof.
  revert mapped. induction l as [|x l IH]; intros mapped; [done|]. cbn. destruct (ids !! x); [|done]. cbn.
  destruct (mapM _ (List.map VString l)) as [r|]; [|done]. by rewrite (IH r eq_refl).
Qed.
Lemma value_strings_array v l : value_strings v = Some l -> v = VArray (List.map VString l).
Proof.
  unfold value_strings. destruct v as [| | | |values|]; try done. cbn [as_array mbind option_bind]. intros Hm. f_equal.
  revert l Hm. induction values as [|x values IH]; intros l; cbn; [by intros [= <-]|].
  destruct x; try done. cbn. destruct (mapM as_str values) as [r|]; [|done]. intros [= <-]. cbn. f_equal. by apply IH.
Qed.
Lemma remap_checkpoint_same e e' : remap_checkpoint json_parse ids e = Some e' ->
  se_id e' = se_id e /\ se_entry_type e' = se_entry_type e.
Proof.
  unfold remap_checkpoint. destruct (negb _); [by intros [= <-]|].
  destruct (se_content e) as [[| | | | |content]|]; try by intros [= <-].
  case_bool_decide; [|by intros [= <-]].
  destruct (remap_key ids _ content) as [k1|]; [|done]. cbn [mbind option_bind].
  destruct (remap_key ids _ k1) as [k2|]; [|done]. cbn [mbind option_bind].
  destruct (remap_protected ids k2) as [k3|]; [|done]. cbn [mbind option_bind].
  destruct (remap_summary json_parse ids k3) as [k4|]; [|done]. by intros [= <-].
Qed.
(** What reading a checkpoint takes, and gives. *)
Record readable (content : Map) (summary : list ContentBlock) (protected : list string) : Prop := {
  rd_schema : map_get "schema_version" content ≫= as_u64 = Some SCHEMA_VERSION;
  rd_summary : map_get "summary" content ≫= blocks_from_value = Some summary;
  rd_trigger : is_Some (trigger_from_value (default (VString "automatic") (map_get "trigger" content)));
  rd_id : is_Some (map_get "checkpoint_id" content ≫= as_str);
  rd_protected : map_get "protected_entry_ids" content ≫= value_strings = Some protected;
  rd_algorithm : is_Some (map_get "algorithm_version" content ≫= as_str)
}.
Record names_of (e : SessionEntry) (content : Map) (summary : list ContentBlock) (protected : list string)
    (c : ContextCheckpoint) : Prop := {
  nm_entry : cp_entry_id c = se_id e;
  nm_covered : cp_covered_from_entry_id c = map_get "covered_from_entry_id" content ≫= as_str;
  nm_cutoff : cp_cutoff_entry_id c = map_get "cutoff_entry_id" content ≫= as_str;
  nm_protected : cp_protected_entry_ids c = protected;
  nm_summary : cp_summary c = summary
}.
Lemma read_content e content summary protected : se_content e = Some (VObject content) ->
  readable content summary protected ->
  exists c, compaction_entry_to_checkpoint e = Some c /\ names_of e content summary protected c.
Proof.
  intros Hc [Hs Hsum [t Ht] [cid Hcid] Hp [a Ha]]. unfold compaction_entry_to_checkpoint. rewrite Hc.
  cbn [mbind option_bind as_object]. rewrite bool_decide_false by (intros Hn; by apply Hn). rewrite Hsum. cbn [mbind option_bind].
  rewrite Ht. cbn [mbind option_bind]. rewrite Hcid. cbn [mbind option_bind]. rewrite Hp. cbn [mbind option_bind].
  rewrite Ha. cbn [mbind option_bind]. eexists. split; [reflexivity|]. by constructor.
Qed.
Lemma content_read e c : compaction_entry_to_checkpoint e = Some c ->
  exists content summary protected, se_content e = Some (VObject content) /\ readable content summary protected
    /\ names_of e content summary protected c.
Proof.
  unfold compaction_entry_to_checkpoint. destruct (se_content e) as [[| | | | |content]|]; try done.
  cbn [mbind option_bind as_object]. case_bool_decide as Hs; [done|].
  destruct (map_get "summary" content ≫= blocks_from_value) as [summary|] eqn:Hsum; [|done]. cbn [mbind option_bind].
  destruct (trigger_from_value _) as [t|] eqn:Ht; [|done]. cbn [mbind option_bind].
  destruct (map_get "checkpoint_id" content ≫= as_str) as [cid|] eqn:Hcid; [|done]. cbn [mbind option_bind].
  destruct (map_get "protected_entry_ids" content ≫= value_strings) as [protected|] eqn:Hp; [|done]. cbn [mbind option_bind].
  destruct (map_get "algorithm_version" content ≫= as_str) as [a|] eqn:Ha; [|done]. cbn [mbind option_bind].
  intros [= <-]. exists content, summary, protected. split; [done|]. split; constructor; rewrite ?Ht, ?Hcid, ?Ha; try done; by eexists.
Qed.
Lemma remap_content e e' c : has_type ENTRY_TYPE_COMPACTION e = true ->
  compaction_entry_to_checkpoint e = Some c -> remap_checkpoint json_parse ids e = Some e' ->
  exists c', compaction_entry_to_checkpoint e' = Some c' /\ cp_entry_id c = se_id e /\ cp_entry_id c' = se_id e'
    /\ (exists old new, cp_covered_from_entry_id c = Some old /\ ids !! old = Some new
         /\ cp_covered_from_entry_id c' = Some new)
    /\ (exists old new, cp_cutoff_entry_id c = Some old /\ ids !! old = Some new /\ cp_cutoff_entry_id c' = Some new)
    /\ mapM (ids !!.) (cp_protected_entry_ids c) = Some (cp_protected_entry_ids c')
    /\ remap_evidence_references json_parse ids (cp_summary c) = Some (cp_summary c').
Proof.
  intros Ht Hread. apply content_read in Hread as (content & summary & protected & Hc & [Hs Hsum Htr Hid Hp Ha] & [He Hf Hk Hpr Hsm]).
  unfold remap_checkpoint. rewrite Ht, Hc. cbn [negb]. rewrite bool_decide_true by done.
  destruct (remap_key ids "covered_from_entry_id" content) as [k1|] eqn:H1; [|done]. cbn [mbind option_bind].
  destruct (remap_key ids "cutoff_entry_id" k1) as [k2|] eqn:H2; [|done]. cbn [mbind option_bind].
  apply remap_key_spec in H1 as (from & from' & Hfrom & Hfrom' & ->).
  apply remap_key_spec in H2 as (cutoff & cutoff' & Hcut & Hcut' & ->). rewrite map_get_insert in Hcut.
  change (String.eqb _ _) with false in Hcut. cbv iota in Hcut.
  set (k2 := map_insert "cutoff_entry_id" _ _).
  assert (Hvp : map_get "protected_entry_ids" k2 = Some (VArray (List.map VString protected))).
  { unfold k2. rewrite !map_get_insert. cbn. destruct (map_get "protected_entry_ids" content) as [vp|]; [|done].
    cbn in Hp. f_equal. by apply value_strings_array. }
  unfold remap_protected. rewrite Hvp. cbn [as_array mbind option_bind].
  destruct (mapM _ (List.map VString protected)) as [mapped|] eqn:Hm; [|done]. cbn [mbind option_bind].
  set (k3 := map_insert "protected_entry_ids" _ k2). unfold remap_summary.
  assert (Hvs : map_get "summary" k3 = map_get "summary" content) by (unfold k3, k2; rewrite !map_get_insert; done).
  rewrite Hvs. destruct (map_get "summary" content) as [vs|]; [|done]. cbn [mbind option_bind] in Hsum. rewrite Hsum.
  cbn [mbind option_bind]. destruct (remap_evidence_references json_parse ids summary) as [blocks|] eqn:Hev; [|done].
  cbn [mbind option_bind]. intros [= <-]. set (k4 := map_insert "summary" _ k3).
  destruct (read_content (e <| se_content := Some (VObject k4) |>) k4 blocks mapped) as (c' & Hc' & [He' Hf' Hk' Hpr' Hsm']).
  - done.
  - constructor; unfold k4, k3, k2; rewrite ?map_get_insert; cbn; rewrite ?map_get_insert; cbn; try done.
    + apply blocks_read_back.
    + apply value_strings_json.
  - exists c'. split; [done|]. split; [done|]. split; [done|]. split; [|split; [|split]].
    + exists from, from'. split; [by rewrite Hf|]. split; [done|]. rewrite Hf'. unfold k4, k3, k2. rewrite !map_get_insert. done.
    + exists cutoff, cutoff'. split; [by rewrite Hk|]. split; [done|]. rewrite Hk'. unfold k4, k3, k2. rewrite !map_get_insert. done.
    + rewrite Hpr, Hpr'. by apply mapM_renamed.
    + by rewrite Hsm, Hsm'.
Qed.
Lemma mapM_renaming l : is_Some (mapM (ids !!.) l) ->
  is_Some (mapM (fun v => old ← as_str v; ids !! old) (List.map VString l)).
Proof.
  induction l as [|x l IH]; [done|]. cbn. intros [m Hm]. destruct (ids !! x) as [y|]; [|done]. cbn in *.
  destruct (mapM _ l) as [m'|] eqn:E; [|done]. destruct IH as [z ->]; by eexists.
Qed.
(** A checkpoint whose entries were copied is dropped exactly when its evidence
    refers to an entry that was not. *)
Lemma remap_total e c from cut : has_type ENTRY_TYPE_COMPACTION e = true ->
  compaction_entry_to_checkpoint e = Some c ->
  cp_covered_from_entry_id c = Some from -> is_Some (ids !! from) ->
  cp_cutoff_entry_id c = Some cut -> is_Some (ids !! cut) ->
  is_Some (mapM (ids !!.) (cp_protected_entry_ids c)) ->
  is_Some (remap_checkpoint json_parse ids e) <-> is_Some (remap_evidence_references json_parse ids (cp_summary c)).
Proof.
  intros Ht Hread Hf [from' Hf'] Hk [cut' Hk'] Hp'.
  apply content_read in Hread as (content & summary & protected & Hc & [Hs Hsum _ _ Hp _] & [_ Nf Nk Np Ns]).
  rewrite Nf in Hf. rewrite Nk in Hk. rewrite Np in Hp'. rewrite Ns.
  unfold remap_checkpoint. rewrite Ht, Hc. cbn [negb]. rewrite bool_decide_true by done.
  rewrite (remap_key_some _ _ _ _ Hf Hf'). cbn [mbind option_bind].
  rewrite (remap_key_some "cutoff_entry_id" _ cut cut') by (rewrite ?map_get_insert; done). cbn [mbind option_bind].
  set (k2 := map_insert "cutoff_entry_id" _ _).
  assert (Hvp : map_get "protected_entry_ids" k2 = Some (VArray (List.map VString protected))).
  { unfold k2. rewrite !map_get_insert. cbn. destruct (map_get "protected_entry_ids" content) as [vp|]; [|done].
    cbn in Hp. f_equal. by apply value_strings_array. }
  unfold remap_protected. rewrite Hvp. cbn [as_array mbind option_bind].
  destruct (mapM_renaming _ Hp') as [mapped ->]. cbn [mbind option_bind].
  set (k3 := map_insert "protected_entry_ids" _ k2). unfold remap_summary.
  assert (Hvs : map_get "summary" k3 = map_get "summary" content) by (unfold k3, k2; rewrite !map_get_insert; done).
  rewrite Hvs. destruct (map_get "summary" content) as [vs|]; [|done]. cbn [mbind option_bind] in Hsum. rewrite Hsum.
  cbn [mbind option_bind]. destruct (remap_evidence_references json_parse ids summary); cbn;
    [by split; eexists|by split; intros [? ?]].
Qed.
End Remapped.

(** * The part a fork copies *)
Lemma find_index_prefix {A} (p : A -> bool) a b i : find_index p (a ++ b) = Some i -> (i < List.length a)%nat ->
  find_index p a = Some i.
Proof.
  revert i. induction a as [|x a IH]; intros i; cbn; [lia|]. destruct (p x); [done|].
  destruct (find_index p (a ++ b)) as [j|]; [|done]. intros [= <-] Hlt. rewrite (IH j); [done|done|lia].
Qed.
Lemma find_index_lt {A} (p : A -> bool) l i : find_index p l = Some i -> (i < List.length l)%nat.
Proof. intros Hf. apply find_index_some in Hf as (x & Hx & _). by apply lookup_lt_Some in Hx. Qed.
Lemma originals_prefix a b cutoff ids : (cutoff < List.length a)%nat -> forall seen,
  originals_valid (a ++ b) cutoff seen ids = true -> originals_valid a cutoff seen ids = true.
Proof.
  intros Hlt. induction ids as [|id ids IH]; intros seen; cbn [originals_valid]; [done|].
  rewrite !andb_true_iff. intros [[Hn Ho] Hr]. destruct (index_of_original id (a ++ b)) as [i|] eqn:E; [|done].
  pose proof Ho as Hle%Nat.leb_le. unfold index_of_original in E. apply find_index_prefix in E; [|lia].
  unfold index_of_original. rewrite E. split_and!; [done|done|by apply IH].
Qed.
Lemma valid_prefix `{UsageSerde} a b c k : checkpoint_is_valid (a ++ b) c = true ->
  index_of_entry (cp_entry_id c) a = Some k -> checkpoint_is_valid a c = true.
Proof.
  unfold checkpoint_is_valid. destruct (cp_covered_from_entry_id c) as [from|]; [|done].
  destruct (cp_cutoff_entry_id c) as [cutoff|]; [|done]. intros Hv Hk. unfold index_of_entry in *.
  rewrite (find_index_app _ _ b k Hk) in Hv. rewrite Hk. apply find_index_lt in Hk.
  destruct (find_index _ (a ++ b)) as [i|] eqn:Ei; [|done].
  destruct (find_index (fun e => se_id e =?s cutoff) (a ++ b)) as [j|] eqn:Ej; [|done].
  rewrite !andb_true_iff in Hv. destruct Hv as [[Hij%Nat.leb_le Hjk%Nat.ltb_lt] Ho].
  rewrite (find_index_prefix _ a b i Ei), (find_index_prefix _ a b j Ej) by lia.
  rewrite !andb_true_iff, Nat.leb_le, Nat.ltb_lt. split; [lia|]. eapply originals_prefix; [lia|exact Ho].
Qed.
Lemma filter_as_omap {A} (p : A -> bool) l : List.filter p l = omap (fun x => if p x then Some x else None) l.
Proof. induction l as [|x l IH]; [done|]. rewrite omap_cons_match. cbn. destruct (p x); by rewrite IH. Qed.
Lemma unique_sublist a b : sublist a b -> unique_ids b -> unique_ids a.
Proof.
  intros Hs Hu. eapply sublist_NoDup; [exact Hu|]. clear Hu.
  induction Hs; cbn; [constructor|by constructor|by apply sublist_cons].
Qed.
Lemma copied_sublist entries cutoff : sublist (copied_entries entries cutoff) entries.
Proof.
  unfold copied_entries. etrans; [|apply (sublist_take entries (S cutoff))].
  induction (take (S cutoff) entries) as [|x l IH]; cbn; [constructor|]. destruct (negb _); by constructor.
Qed.
Definition message_refs `{UsageSerde} (entries : list SessionEntry) (c : ContextCheckpoint) : Prop :=
  forall e, In e entries -> Some (se_id e) = cp_covered_from_entry_id c \/ Some (se_id e) = cp_cutoff_entry_id c ->
    has_type ENTRY_TYPE_COMPACTION e = false /\ has_type ENTRY_TYPE_SESSION_INFO e = false.
Lemma type_excludes s t e : has_type s e = true -> s <> t -> has_type t e = false.
Proof. unfold has_type. intros ->%String.eqb_eq Hst. by apply String.eqb_neq. Qed.
Lemma spoken_type t e : spoken e = true -> t <> ENTRY_TYPE_USER -> t <> ENTRY_TYPE_ASSISTANT -> has_type t e = false.
Proof. unfold spoken. intros [Hu|Ha]%orb_true_iff Hn Hm; eapply type_excludes; eauto. Qed.
(** What a checkpoint names is a message, a kept original, or itself. *)
Lemma ref_cases `{UsageSerde} entries c e : unique_ids entries -> checkpoint_is_valid entries c = true ->
  message_refs entries c -> In e entries -> In (se_id e) (refs c) ->
  se_id e = cp_entry_id c
  \/ has_type ENTRY_TYPE_COMPACTION e = false /\ has_type ENTRY_TYPE_SESSION_INFO e = false.
Proof.
  intros Hu Hv Hm Hin Hr. destruct Hr as [Heq|Hr]; [by left|]. right. unfold checkpoint_is_valid in Hv.
  destruct (cp_covered_from_entry_id c) as [from|] eqn:Ef; [|done]. destruct (cp_cutoff_entry_id c) as [cutoff|] eqn:Ec; [|done].
  cbn [option_list app] in Hr.
  destruct Hr as [Heq|[Heq|Hr]]; [apply (Hm e Hin); left; congruence|apply (Hm e Hin); right; congruence|].
  destruct (index_of_entry (cp_entry_id c) entries); [|done]. destruct (index_of_entry from entries); [|done].
  destruct (index_of_entry cutoff entries) as [k|]; [|done]. apply andb_true_iff in Hv as [_ Ho].
  destruct (originals_indexed entries k _ Hu [] Ho _ Hr) as (i & f & Hi & Hf & Hs & _).
  apply find_index_some in Hi as (f' & Hf' & Hid%String.eqb_eq). rewrite Hf in Hf'. injection Hf' as <-.
  apply list_elem_of_In, list_elem_of_lookup in Hin as [j Hj].
  assert (Hij : i = j) by (eapply (unique_at entries); eauto). subst j. rewrite Hf in Hj. injection Hj as ->.
  split; apply spoken_type; done.
Qed.
Lemma valid_copied `{UsageSerde} entries cutoff e c : unique_ids entries -> checkpoint_is_valid entries c = true ->
  message_refs entries c -> In e (copied_entries entries cutoff) -> se_id e = cp_entry_id c ->
  checkpoint_is_valid (copied_entries entries cutoff) c = true.
Proof.
  intros Hu Hv Hm Hin He. unfold copied_entries in *. set (n := S cutoff) in *. apply filter_In in Hin as [Hin Hty].
  assert (Hun : unique_ids (take n entries)) by (eapply unique_sublist; [apply sublist_take|done]).
  assert (Hvn : checkpoint_is_valid (take n entries) c = true).
  { apply list_elem_of_In, list_elem_of_lookup in Hin as [i Hi].
    apply (valid_prefix (take n entries) (drop n entries) c i); [by rewrite take_drop|].
    apply (find_index_first _ _ _ e Hi); [by apply String.eqb_eq|].
    intros j y Hj Hy%String.eqb_eq. eapply (unique_at (take n entries)); [done|done|done|congruence]. }
  rewrite filter_as_omap. apply (valid_kept (take n entries) []); [done| |by intros ? ? ? []|done|].
  - intros a b Hab. case_match; [|done]. by injection Hab as ->.
  - intros f Hf Hr. assert (Hfe : In f entries) by (eapply sublist_in; [apply (sublist_take _ n)|done]).
    destruct (ref_cases entries c f Hu Hv Hm Hfe Hr) as [Heq|[_ ->]]; [|by eexists].
    replace f with e; [rewrite Hty; by eexists|].
    apply list_elem_of_In, list_elem_of_lookup in Hin as [i Hi], Hf as [j Hj].
    assert (Hij : i = j) by (eapply (unique_at (take n entries)); [done|done|done|congruence]). subst j. congruence.
Qed.

(** * The child *)
Section Child.
Context `{JsonText} `{UsageSerde}.
Variables (json_parse : string -> option Value) (fresh : FreshIds) (now : Z).
(** The ids drawn are new. *)
Record distinct_fresh : Prop := {
  df_entries : forall i j, fi_entry fresh i = fi_entry fresh j -> i = j;
  df_info : forall i, fi_entry fresh i <> fi_info fresh
}.
Definition renamed_entries (parent_id : string) (copied : list SessionEntry) : list SessionEntry :=
  rename_runs fresh parent_id ∅ (rename_entries fresh parent_id copied).
Lemma fork_inv parent point child ids :
  build_fork_session_with_mapping json_parse fresh now parent point = inr (child, ids) ->
  exists cutoff info, let copied := copied_entries (ss_entries parent) cutoff in
    ids = id_map fresh copied /\ se_id info = fi_info fresh
    /\ ss_entries child = info :: omap (remap_checkpoint json_parse ids) (renamed_entries (ss_id parent) copied).
Proof.
  unfold build_fork_session_with_mapping. destruct (resolve_cutoff _ _) as [|cutoff]; [done|].
  destruct (List.existsb _ _); [done|]. intros [= <- <-]. exists cutoff. eexists. cbv zeta. split; [reflexivity|].
  split; [|reflexivity]. reflexivity.
Qed.
Lemma renamed_at parent_id copied i e : copied !! i = Some e ->
  exists r, renamed_entries parent_id copied !! i = Some r /\ se_id r = fi_entry fresh i
    /\ se_entry_type r = se_entry_type e /\ (run_type (se_entry_type e) = false -> se_content r = se_content e).
Proof.
  intros Hi. unfold renamed_entries.
  assert (Hr : rename_entries fresh parent_id copied !! i = Some (rename_entry fresh parent_id i e)).
  { unfold rename_entries. by rewrite list_lookup_imap, Hi. }
  destruct (Forall2_lookup_l _ _ _ _ _ (rename_runs_spec fresh parent_id _ ∅) Hr) as (r & Hr' & [Hid Hty _ Hc]).
  exists r. split; [done|]. split; [exact Hid|]. split; [exact Hty|exact Hc].
Qed.
Lemma renamed_from parent_id copied i r : renamed_entries parent_id copied !! i = Some r ->
  exists e, copied !! i = Some e.
Proof.
  intros Hr. destruct (Forall2_lookup_r _ _ _ _ _ (rename_runs_spec fresh parent_id _ ∅) Hr) as (x & Hx & _).
  unfold rename_entries in Hx. rewrite list_lookup_imap in Hx. destruct (copied !! i) as [e|]; [by exists e|done].
Qed.
Lemma renamed_unique parent_id copied : distinct_fresh -> unique_ids (renamed_entries parent_id copied).
Proof.
  intros [Hinj _]. apply NoDup_alt. intros i j x Hi Hj.
  change (List.map se_id ?l) with (se_id <$> l) in Hi, Hj. rewrite list_lookup_fmap in Hi, Hj.
  destruct (renamed_entries parent_id copied !! i) as [a|] eqn:Ea; [|done].
  destruct (renamed_entries parent_id copied !! j) as [b|] eqn:Eb; [|done].
  destruct (renamed_from _ _ _ _ Ea) as [e He]. destruct (renamed_from _ _ _ _ Eb) as [f Hf].
  destruct (renamed_at parent_id _ _ _ He) as (a' & Ha & Hida & _). destruct (renamed_at parent_id _ _ _ Hf) as (b' & Hb & Hidb & _).
  apply Hinj. cbn in Hi, Hj. congruence.
Qed.
Definition new_name (ids : gmap string string) (id : string) : string := default "" (ids !! id).
Lemma renamed_names parent_id copied : unique_ids copied ->
  Forall2 (fun e e' => se_id e' = new_name (id_map fresh copied) (se_id e) /\ se_entry_type e' = se_entry_type e)
    copied (renamed_entries parent_id copied).
Proof.
  intros Hu. apply Forall2_same_length_lookup_2.
  - unfold renamed_entries. rewrite <- (Forall2_length _ _ _ (rename_runs_spec fresh parent_id _ ∅)).
    unfold rename_entries. by rewrite length_imap.
  - intros i e r He Hr. destruct (renamed_at parent_id copied i e He) as (r' & Hr' & Hid & Hty & _).
    rewrite Hr in Hr'. injection Hr' as <-. unfold new_name. by rewrite (id_map_at fresh copied i e Hu He).
Qed.
Lemma mapM_names ids (l l' : list string) : mapM (ids !!.) l = Some l' -> l' = List.map (new_name ids) l.
Proof.
  revert l'. induction l as [|x l IH]; intros l'; cbn; [by intros [= <-]|]. unfold new_name at 1.
  destruct (ids !! x) as [y|]; [|done]. cbn. destruct (mapM _ l) as [r|]; [|done]. intros [= <-]. by rewrite (IH r).
Qed.

(** The copy of a checkpoint, before and after its references are renamed. *)
Lemma copy_of parent_id copied e e' ids info : distinct_fresh -> unique_ids copied -> In e copied ->
  ids = id_map fresh copied -> se_id info = fi_info fresh ->
  ids !! se_id e = Some (se_id e') ->
  In e' (info :: omap (remap_checkpoint json_parse ids) (renamed_entries parent_id copied)) ->
  exists r, In r (renamed_entries parent_id copied) /\ remap_checkpoint json_parse ids r = Some e'
    /\ se_id r = se_id e' /\ se_entry_type r = se_entry_type e
    /\ (run_type (se_entry_type e) = false -> se_content r = se_content e).
Proof.
  intros Hfresh Hu Hin -> Hinfo Hid [->|Hin'].
  - exfalso. apply list_elem_of_In, list_elem_of_lookup in Hin as [i Hi].
    rewrite (id_map_at fresh copied i e Hu Hi) in Hid. injection Hid as Hid. rewrite Hinfo in Hid.
    by apply (df_info Hfresh i).
  - apply in_omap in Hin' as (r & Hr & Hk). destruct (remap_checkpoint_same _ _ _ _ Hk) as [Hrid Hrty].
    pose proof Hr as Hr'. apply list_elem_of_In, list_elem_of_lookup in Hr as [j Hj].
    apply list_elem_of_In, list_elem_of_lookup in Hin as [i Hi].
    destruct (renamed_at parent_id copied i e Hi) as (r0 & Hr0 & Hid0 & Hty0 & Hc0).
    rewrite (id_map_at fresh copied i e Hu Hi) in Hid. injection Hid as Hid.
    assert (Hij : j = i) by (eapply (unique_at (renamed_entries parent_id copied)); [by apply renamed_unique|done|done|congruence]).
    subst j. rewrite Hj in Hr0. injection Hr0 as <-. exists r. auto.
Qed.
Lemma remap_message ids r : has_type ENTRY_TYPE_COMPACTION r = false -> remap_checkpoint json_parse ids r = Some r.
Proof. unfold remap_checkpoint. by intros ->. Qed.
Lemma child_valid parent_id copied ids c c' r e' info : distinct_fresh -> unique_ids copied ->
  ids = id_map fresh copied -> se_id info = fi_info fresh ->
  checkpoint_is_valid copied c = true -> message_refs copied c ->
  checkpoint_is_valid (renamed_entries parent_id copied) c' = true -> refs c' = List.map (new_name ids) (refs c) ->
  In r (renamed_entries parent_id copied) -> remap_checkpoint json_parse ids r = Some e' ->
  se_id r = new_name ids (cp_entry_id c) ->
  checkpoint_is_valid (info :: omap (remap_checkpoint json_parse ids) (renamed_entries parent_id copied)) c' = true.
Proof.
  intros Hfresh Hu -> Hinfo Hv Hm Hv' Hrefs Hr Hk Hid.
  assert (Hru : unique_ids (renamed_entries parent_id copied)) by by apply renamed_unique.
  apply (valid_kept _ [info]); [done|apply remap_checkpoint_same| |done|].
  - intros x y Hx [<-|[]]. apply list_elem_of_In, list_elem_of_lookup in Hx as [i Hi].
    destruct (renamed_from _ _ _ _ Hi) as [f Hf]. destruct (renamed_at parent_id _ _ _ Hf) as (x' & Hx' & Hxid & _).
    rewrite Hi in Hx'. injection Hx' as <-. rewrite Hxid, Hinfo. intros Heq. by apply (df_info Hfresh i).
  - intros x Hx Href. rewrite Hrefs in Href. apply List.in_map_iff in Href as (id & Hname & Href).
    destruct (valid_refs copied c Hu Hv id Href) as [i Hi]. apply find_index_some in Hi as (f & Hf & Hfid).
    apply String.eqb_eq in Hfid. subst id.
    destruct (renamed_at parent_id copied i f Hf) as (x' & Hx' & Hxid & Hxty & _).
    assert (Hxx : x = x').
    { apply list_elem_of_In, list_elem_of_lookup in Hx as [j Hj].
      assert (Hij : j = i); [|subst j; congruence]. eapply (unique_at (renamed_entries parent_id copied)); [done|done|done|].
      rewrite <- Hname, Hxid. unfold new_name. by rewrite (id_map_at fresh copied i f Hu Hf). }
    subst x'. assert (Hfin : In f copied) by (apply list_elem_of_In; by eapply list_elem_of_lookup_2).
    destruct (ref_cases copied c f Hu Hv Hm Hfin Href) as [Heq|[Hnc _]].
    + replace x with r; [by eexists|]. apply list_elem_of_In, list_elem_of_lookup in Hr as [k Hrk].
      assert (Hik : k = i); [|subst k; congruence]. eapply (unique_at (renamed_entries parent_id copied)); [done|done|done|].
      rewrite Hid, <- Heq, Hxid. unfold new_name. by rewrite (id_map_at fresh copied i f Hu Hf).
    + exists x. apply remap_message. unfold has_type in *. by rewrite Hxty.
Qed.
(** The copy of a checkpoint in force, where it was not dropped. *)
Lemma fork_copy_valid parent point child ids e e' c :
  build_fork_session_with_mapping json_parse fresh now parent point = inr (child, ids) ->
  distinct_fresh -> unique_ids (ss_entries parent) ->
  In e (ss_entries parent) -> entry_to_checkpoint e = Some c ->
  checkpoint_is_valid (ss_entries parent) c = true -> message_refs (ss_entries parent) c ->
  ids !! se_id e = Some (se_id e') -> In e' (ss_entries child) ->
  exists c', entry_to_checkpoint e' = Some c' /\ checkpoint_is_valid (ss_entries child) c' = true
    /\ cp_covered_from_entry_id c' = (cp_covered_from_entry_id c ≫= (ids !!.))
    /\ cp_cutoff_entry_id c' = (cp_cutoff_entry_id c ≫= (ids !!.))
    /\ mapM (ids !!.) (cp_protected_entry_ids c) = Some (cp_protected_entry_ids c')
    /\ remap_evidence_references json_parse ids (cp_summary c) = Some (cp_summary c').
Proof.
  intros Hfork Hfresh Hu Hin Hread Hv Hm Hid Hin'.
  apply fork_inv in Hfork as (cutoff & info & Hids & Hinfo & Hchild). set (copied := copied_entries _ _) in *.
  unfold entry_to_checkpoint in Hread. destruct (has_type ENTRY_TYPE_COMPACTION e) eqn:Hty; [|done].
  assert (Huc : unique_ids copied) by (eapply unique_sublist; [apply copied_sublist|done]).
  assert (Hce : In e copied).
  { rewrite Hids in Hid. destruct (id_map_named fresh copied _ _ Huc Hid) as (i & f & Hi & Hf & _).
    replace e with f; [apply list_elem_of_In; by eapply list_elem_of_lookup_2|].
    assert (Hfp : In f (ss_entries parent)) by (eapply sublist_in; [apply copied_sublist|apply list_elem_of_In; by eapply list_elem_of_lookup_2]).
    apply list_elem_of_In, list_elem_of_lookup in Hfp as [j Hj], Hin as [k Hk].
    assert (Hjk : j = k) by (eapply (unique_at (ss_entries parent)); eauto). subst k. congruence. }
  destruct (content_read e c Hread) as (content & summary & protected & Hcont & Hrd & Hnm).
  assert (Hcid : cp_entry_id c = se_id e) by apply Hnm.
  pose proof (valid_copied _ cutoff e c Hu Hv Hm Hce (eq_sym Hcid)) as Hvc. fold copied in Hvc.
  rewrite Hchild in Hin'. destruct (copy_of (ss_id parent) copied e e' ids info) as (r & Hr & Hk & Hrid & Hrty & Hrc); try done.
  assert (Hrun : run_type (se_entry_type e) = false).
  { unfold has_type in Hty. apply String.eqb_eq in Hty. by rewrite Hty. }
  destruct (read_content r content summary protected) as (c1 & Hc1 & Hn1); [by rewrite Hrc|done|].
  assert (Hrt : has_type ENTRY_TYPE_COMPACTION r = true) by (unfold has_type in *; by rewrite Hrty).
  destruct (remap_content json_parse ids r e' c1 Hrt Hc1 Hk)
    as (c' & Hc' & _ & He' & (from & from' & Hfrom & Hfrom' & Hcf) & (cut & cut' & Hcut & Hcut' & Hcc) & Hprot & Hsum).
  destruct Hn1 as [_ N2 N3 N4 N5], Hnm as [_ M2 M3 M4 M5]. rewrite N2, <- M2 in Hfrom. rewrite N3, <- M3 in Hcut. rewrite N4, <- M4 in Hprot. rewrite N5, <- M5 in Hsum.
  assert (Hvr : checkpoint_is_valid (renamed_entries (ss_id parent) copied) c' = true).
  { pose proof (renamed_names (ss_id parent) copied Huc) as Hren. rewrite <- Hids in Hren.
    assert (Hru : unique_ids (renamed_entries (ss_id parent) copied)) by by apply renamed_unique.
    apply (valid_carried copied _ (new_name ids) Huc (rename_in_order _ _ _ Hru Hren)) with (c := c).
    - apply (rename_injective _ _ _ Hru Hren).
    - done.
    - unfold new_name. by rewrite He', Hcid, Hid.
    - unfold new_name. rewrite Hcf, Hfrom. cbn. by rewrite Hfrom'.
    - unfold new_name. rewrite Hcc, Hcut. cbn. by rewrite Hcut'.
    - by apply mapM_names.
    - intros id Href. destruct (valid_refs copied c Huc Hvc id Href) as [i Hi].
      apply find_index_some in Hi as (f & Hf & Hfid). apply String.eqb_eq in Hfid.
      exists i, i, f. split; [|done]. by apply (renamed_carried copied _ _ Hru Hren). }
  exists c'. split_and!.
  - unfold entry_to_checkpoint, has_type. destruct (remap_checkpoint_same _ _ _ _ Hk) as [_ ->].
    unfold has_type in Hrt. by rewrite Hrt.
  - rewrite Hchild. apply (child_valid (ss_id parent) copied ids c c' r e' info); try done.
    + intros f Hf. apply Hm. eapply sublist_in; [apply copied_sublist|exact Hf].
    + unfold refs, new_name. rewrite He', Hcid, Hcf, Hcc, Hfrom, Hcut. cbn. rewrite Hid, Hfrom', Hcut'. cbn.
      f_equal. f_equal. f_equal. by apply mapM_names.
    + unfold new_name. by rewrite Hrid, Hcid, Hid.
  - rewrite Hcf, Hfrom. cbn. by rewrite Hfrom'.
  - rewrite Hcc, Hcut. cbn. by rewrite Hcut'.
  - done.
  - done.
Qed.
Lemma copied_ref copied c id : unique_ids copied -> checkpoint_is_valid copied c = true -> In id (refs c) ->
  is_Some (id_map fresh copied !! id).
Proof.
  intros Hu Hv Hid. destruct (valid_refs copied c Hu Hv id Hid) as [i Hi].
  apply find_index_some in Hi as (f & Hf & Hfid%String.eqb_eq). rewrite <- Hfid, (id_map_at fresh copied i f Hu Hf).
  by eexists.
Qed.
Lemma mapM_copied (ids : gmap string string) (l : list string) : (forall id, In id l -> is_Some (ids !! id)) ->
  is_Some (mapM (ids !!.) l).
Proof.
  induction l as [|x l IH]; intros Hl; [by eexists|]. cbn. destruct (Hl x (or_introl eq_refl)) as [y ->].
  cbn. destruct IH as [m ->]; [by intros id Hid; apply Hl; right|by eexists].
Qed.
(** A copied entry of the parent, in the child before its references are
    renamed. *)
Lemma fork_copies parent point child ids e c new :
  build_fork_session_with_mapping json_parse fresh now parent point = inr (child, ids) ->
  unique_ids (ss_entries parent) -> In e (ss_entries parent) -> entry_to_checkpoint e = Some c ->
  checkpoint_is_valid (ss_entries parent) c = true -> message_refs (ss_entries parent) c ->
  ids !! se_id e = Some new ->
  exists copied info r, unique_ids copied /\ In e copied /\ ids = id_map fresh copied /\ se_id info = fi_info fresh
    /\ ss_entries child = info :: omap (remap_checkpoint json_parse ids) (renamed_entries (ss_id parent) copied)
    /\ In r (renamed_entries (ss_id parent) copied) /\ se_id r = new
    /\ (is_Some (remap_checkpoint json_parse ids r)
        <-> is_Some (remap_evidence_references json_parse ids (cp_summary c))).
Proof.
  intros Hfork Hu Hin Hread Hv Hm Hid.
  apply fork_inv in Hfork as (cutoff & info & Hids & Hinfo & Hchild). set (copied := copied_entries _ _) in *.
  unfold entry_to_checkpoint in Hread. destruct (has_type ENTRY_TYPE_COMPACTION e) eqn:Hty; [|done].
  assert (Huc : unique_ids copied) by (eapply unique_sublist; [apply copied_sublist|done]).
  pose proof Hid as Hid'. rewrite Hids in Hid'.
  destruct (id_map_named fresh copied _ _ Huc Hid') as (i & f & Hi & Hf & Hnew).
  assert (f = e) as ->.
  { assert (Hfp : In f (ss_entries parent)) by (eapply sublist_in; [apply copied_sublist|apply list_elem_of_In; by eapply list_elem_of_lookup_2]).
    apply list_elem_of_In, list_elem_of_lookup in Hfp as [j Hj], Hin as [k Hk].
    assert (Hjk : j = k) by (eapply (unique_at (ss_entries parent)); eauto). subst k. congruence. }
  assert (Hce : In e copied) by (apply list_elem_of_In; by eapply list_elem_of_lookup_2).
  destruct (content_read e c Hread) as (content & summary & protected & Hcont & Hrd & [He Nf Nk Np Ns]).
  pose proof (valid_copied _ cutoff e c Hu Hv Hm Hce (eq_sym He)) as Hvc. fold copied in Hvc.
  destruct (renamed_at (ss_id parent) copied i e Hi) as (r & Hr & Hrid & Hrty & Hrc).
  assert (Hrun : run_type (se_entry_type e) = false).
  { unfold has_type in Hty. apply String.eqb_eq in Hty. by rewrite Hty. }
  destruct (read_content r content summary protected) as (c1 & Hc1 & [_ Mf Mk Mp Ms]); [by rewrite Hrc|done|].
  exists copied, info, r. split_and!; try done; [apply list_elem_of_In; by eapply list_elem_of_lookup_2|congruence|].
  pose proof Hvc as Hsome. unfold checkpoint_is_valid in Hsome.
  destruct (cp_covered_from_entry_id c) as [from|] eqn:Ef; [|done].
  destruct (cp_cutoff_entry_id c) as [cut|] eqn:Ec; [|done]. clear Hsome.
  assert (Href : forall id, In id (refs c) -> is_Some (ids !! id)) by (rewrite Hids; by intros; eapply copied_ref).
  unfold refs in Href. rewrite Ef, Ec in Href. cbn in Href. rewrite Ns, <- Ms.
  apply (remap_total json_parse ids r c1 from cut); rewrite ?Mf, ?Mk, ?Mp, <- ?Nf, <- ?Nk, <- ?Np; try done; auto.
  - unfold has_type in *. by rewrite Hrty.
  - apply mapM_copied. auto.
Qed.

(** C17: a fork keeps the compactions of its parent: a copied checkpoint that is
    valid in the parent is in the child under its new id, and reads there as a
    checkpoint that is valid in the child and about the copies of the same
    entries (where the coverage starts and ends, which originals are kept, which
    entries the evidence in its summary refers to), unless that evidence refers to
    an entry the fork did not copy (or cannot be read): then, and only then, it is
    left out. *)
Theorem forked_checkpoint_stays_in_force parent point child ids e c new :
  build_fork_session_with_mapping json_parse fresh now parent point = inr (child, ids) ->
  distinct_fresh -> unique_ids (ss_entries parent) ->
  In e (ss_entries parent) -> entry_to_checkpoint e = Some c ->
  checkpoint_is_valid (ss_entries parent) c = true -> message_refs (ss_entries parent) c ->
  ids !! se_id e = Some new ->
  match remap_evidence_references json_parse ids (cp_summary c) with
  | Some summary =>
      exists e' c', In e' (ss_entries child) /\ se_id e' = new /\ entry_to_checkpoint e' = Some c'
        /\ checkpoint_is_valid (ss_entries child) c' = true
        /\ cp_covered_from_entry_id c' = (cp_covered_from_entry_id c ≫= (ids !!.))
        /\ cp_cutoff_entry_id c' = (cp_cutoff_entry_id c ≫= (ids !!.))
        /\ mapM (ids !!.) (cp_protected_entry_ids c) = Some (cp_protected_entry_ids c')
        /\ cp_summary c' = summary
  | None => forall e', In e' (ss_entries child) -> se_id e' <> new
  end.
Proof.
  intros Hfork Hfresh Hu Hin Hread Hv Hm Hid.
  destruct (fork_copies parent point child ids e c new Hfork Hu Hin Hread Hv Hm Hid)
    as (copied & info & r & Huc & Hce & Hids & Hinfo & Hchild & Hr & Hrid & Hiff).
  destruct (remap_evidence_references json_parse ids (cp_summary c)) as [summary|] eqn:Hev.
  - destruct (proj2 Hiff) as [e' He']; [by eexists|].
    destruct (remap_checkpoint_same _ _ _ _ He') as [Hsame _].
    assert (Hin' : In e' (ss_entries child)).
    { rewrite Hchild. right. apply in_omap. by exists r. }
    destruct (fork_copy_valid parent point child ids e e' c Hfork Hfresh Hu Hin Hread Hv Hm)
      as (c' & H1 & H2 & H3 & H4 & H5 & H6); [congruence|done|].
    exists e', c'. split_and!; try done; [congruence|]. rewrite Hev in H6. congruence.
  - intros e' Hin' Hnew. rewrite Hchild in Hin'.
    destruct (copy_of (ss_id parent) copied e e' ids info) as (r' & Hr' & Hk & Hrid' & _); try done; [congruence|].
    assert (r' = r) as ->.
    { apply list_elem_of_In, list_elem_of_lookup in Hr as [i Hi], Hr' as [j Hj].
      assert (Hij : i = j); [|congruence].
      eapply (unique_at (renamed_entries (ss_id parent) copied)); [by apply renamed_unique|done|done|congruence]. }
    destruct (proj1 Hiff) as [? ?]; [by eexists|done].
Qed.
End Child.
