(* ===== verification/SessionClaims.v ===== *)
(** Concrete journals, prompts and checkpoints at which the properties of the
    session family apply. *)
From S2P Require Import Prelude Json SessionEntry RunJournal RunJournalProps SessionRepair SessionRepairProps SessionHealProps Checkpoint Compaction CompactionPlan Evidence SessionFork CompactionProps RestartProps CompactionSafety EvidenceProps ForkProps.

(** * Run markers *)
Definition started_run (run : string) : SessionEntry := run_started ("s-" +:+ run) 10 run 1.
Definition ended_run (run : string) : SessionEntry := run_terminal ("t-" +:+ run) 20 run RUN_STATE_COMPLETED 0 0 None.
Definition user_line (id text : string) : SessionEntry := new_user id 5 "user" (VString text).
Definition two_runs : list SessionEntry :=
  [user_line "u1" "hello"; started_run "r1"; ended_run "r1"; user_line "u2" "again"; started_run "r2"].
Lemma bounded_marker_read_agrees_witness :
  unterminated_run_id Canonical two_runs = Some "r2" /\ find_unterminated_run two_runs = Some "r2"
  /\ resumable_run_id Canonical two_runs = find_resumable_run two_runs.
Proof.
  destruct (bounded_marker_read_agrees two_runs) as [E1 E2].
  - intros s Hs. vm_compute in Hs. injection Hs as <-. by eexists.
  - rewrite E1. split; [reflexivity|]. split; [reflexivity|exact E2].
Defined.

Lemma at_most_one_run_is_open_witness : exists j,
  rtc (journal_step Canonical) [] j
  /\ unterminated_run_id Canonical j = Some "r2" /\ existsb is_start [user_line "u3" "more"] = false.
Proof.
  set (j1 := append_run_start Canonical ("x", 1) (user_line "u1" "hello") (started_run "r1") []).
  set (j2 := append_run_start Canonical ("y", 2) (user_line "u2" "again") (started_run "r2") j1).
  assert (Hreach : rtc (journal_step Canonical) [] (j2 ++ [user_line "u3" "more"])).
  { eapply rtc_l; [by apply (step_run_start Canonical [] ("x", 1) (user_line "u1" "hello") (started_run "r1") "r1")|].
    eapply rtc_l; [by apply (step_run_start Canonical j1 ("y", 2) (user_line "u2" "again") (started_run "r2") "r2")|].
    eapply rtc_l; [by apply (step_content Canonical j2 (user_line "u3" "more"))|apply rtc_refl]. }
  destruct (at_most_one_run_is_open Canonical _ Hreach) as [Hopen _].
  exists (j2 ++ [user_line "u3" "more"]). split; [done|].
  destruct (Hopen [user_line "u1" "hello"; started_run "r1"; run_terminal "y" 2 "r1" RUN_STATE_INTERRUPTED_BY_RESTART 0 0 None; user_line "u2" "again"]
              (started_run "r2") [user_line "u3" "more"] "r2") as [Hs Hu]; [by vm_compute..|]. by split.
Defined.

(** * Repair *)
Definition call_line (id call : string) : SessionEntry :=
  new_assistant id 6 (VString "") [mkCall call "function" (mkFn "read" VNull)].
Definition result_line (id call text : string) : SessionEntry := new_tool id 7 call text.
Definition late_journal : list SessionEntry :=
  [user_line "u1" "read it"; call_line "a1" "c1"; user_line "u2" "well?"; result_line "t1" "c1" "text"].
Lemma recorded_result_is_used_witness : exists before' after',
  fst (repair_dangling_tool_calls late_journal) = before' ++ call_line "a1" "c1" :: after'
  /\ In (result_line "t1" "c1" "text") (window after').
Proof.
  destruct (recorded_result_is_used late_journal [user_line "u1" "read it"] (call_line "a1" "c1")
              [user_line "u2" "well?"] (result_line "t1" "c1" "text") [] "c1")
    as (before' & after' & E & _ & Hin & _); try (by vm_compute).
  exists before', after'. split; [exact E|exact Hin].
Defined.

Lemma healed_session_is_accepted_witness : journal_ok late_journal /\ accepted [] (heal late_journal) = true.
Proof.
  assert (Hok : journal_ok late_journal).
  { constructor.
    - apply NoDup_singleton.
    - intros [E|[]]. discriminate E.
    - cbn. repeat split; try discriminate. intros _. exists (call_line "a1" "c1"). split; [right; by left|]. by split. }
  split; [exact Hok|]. exact (healed_session_is_accepted late_journal Hok).
Defined.

Definition reused_journal : list SessionEntry :=
  [call_line "a1" "c"; result_line "t1" "c" "first"; user_line "u" "again"; call_line "a2" "c";
   result_line "t2" "c" "second"].
Lemma reused_id_loses_its_result_witness :
  List.filter (fun e => answers "c" e && negb (is_placeholder e)) (heal reused_journal) = [result_line "t1" "c" "first"]
  /\ exists p q, heal reused_journal = p ++ call_line "a2" "c" :: q
     /\ forall r, In r (window q) -> answers "c" r = true -> is_placeholder r = true.
Proof.
  destruct (reused_id_loses_its_result reused_journal [call_line "a1" "c"] (result_line "t1" "c" "first")
              [user_line "u" "again"] (call_line "a2" "c") [result_line "t2" "c" "second"] "c")
    as (H1 & p & q & tc & H2 & _ & _ & _ & H3); [reflexivity|discriminate|reflexivity|reflexivity| |reflexivity|].
  - intros e [<-|[]]. discriminate.
  - split; [exact H1|]. exists p, q. split; [exact H2|exact H3].
Defined.

(** * Compaction *)
Definition quoted (s : string) : string := String "034" (s +:+ String "034" "").
Definition demo_json : JsonText := fun v => match v with VString s => quoted s | VNumber n => n | _ => "{}" end.
Definition demo_usage : UsageSerde :=
  {| Usage := unit; usage_to_value := fun _ => VNull; usage_from_value := fun _ => Some tt |}.
#[local] Existing Instance demo_json.
#[local] Existing Instance demo_usage.
Definition message (id role : string) (content : list ContentBlock) : AgentMessage :=
  mkMessage role content "" "" (Some [(JOURNAL_ENTRY_ID_KEY, VString id)]).
Fixpoint long_text (n : nat) : string := match n with O => "" | S n => "fn main() {} " +:+ long_text n end.
Definition demo_raw : list AgentMessage :=
  [message "e1" "user" [Text "fix the parser"];
   message "e2" "assistant" [ToolCallBlock "c1" "read" (VObject [("path", VString "src/lib.rs")]) []];
   message "e3" "tool" [ToolResult "c1" (long_text 80) false];
   message "e4" "assistant" [ToolCallBlock "c2" "read" (VObject [("path", VString "src/main.rs")]) []];
   message "e5" "tool" [ToolResult "c2" "mod parser;" false]].
Definition demo_manager : ContextManager := mkManager true 199990 1 200000 "model".
Definition demo_prompt : PromptContext := project_prompt_context demo_raw None None 200000.
Definition never (p : LoadPoint) : bool := false.
Definition demo_ids : string * string := ("k1", "k2").
Abbreviation demo_run := (prepare never demo_manager demo_prompt demo_raw Automatic PreTurn None (fst demo_ids) 9).
Lemma demo_compacts prompt c : demo_run = inr (Compacted prompt c) ->
  compacts_to never demo_manager demo_raw demo_prompt demo_ids prompt c.
Proof. intros E. exact (ex_intro _ Automatic (ex_intro _ PreTurn (ex_intro _ None (ex_intro _ 9 (or_introl E))))). Qed.
Lemma demo_journaled : journaled demo_raw.
Proof. constructor; [repeat constructor; by eexists|]. vm_compute. apply (bool_decide_unpack (NoDup ["e1"; "e2"; "e3"; "e4"; "e5"])). by vm_compute. Qed.

Lemma restart_restores_compacted_prompt_witness :
  match demo_run with
  | inr (Compacted prompt c) =>
      projected_messages (demo_raw ++ [message "e6" "user" [Text "next"]]) (Some c)
      = pc_messages prompt ++ [project_raw (message "e6" "user" [Text "next"])] /\ in_force demo_raw c
  | _ => False
  end.
Proof.
  destruct demo_run as [|[|prompt c]] eqn:E; [by vm_compute in E..|].
  apply (restart_restores_compacted_prompt never demo_manager demo_raw [message "e6" "user" [Text "next"]] None
           demo_prompt demo_ids prompt c).
  - exact demo_journaled.
  - discriminate.
  - reflexivity.
  - intros id [<-|[<-|[]]]; (split; [done|]); vm_compute; intuition discriminate.
  - by apply demo_compacts.
Defined.

Lemma compaction_keeps_the_users_words_witness :
  match demo_run with
  | inr (Compacted prompt c) => said (pc_messages prompt) "e1" [Text "fix the parser"]
  | _ => False
  end.
Proof.
  destruct demo_run as [|[|prompt c]] eqn:E; [by vm_compute in E..|].
  apply (compaction_keeps_the_users_words never demo_manager demo_raw demo_prompt demo_ids prompt c "e1").
  - vm_compute. apply NoDup_singleton.
  - by apply demo_compacts.
  - done.
  - eexists. split; [by left|]. repeat split.
Defined.

Lemma compaction_keeps_results_with_calls_witness :
  match demo_run with
  | inr (Compacted prompt c) => well_grouped (pc_messages prompt) /\ List.length (pc_messages prompt) = 4%nat
  | _ => False
  end.
Proof.
  destruct demo_run as [|[|prompt c]] eqn:E; [by vm_compute in E..|]. split.
  - apply (compaction_keeps_results_with_calls never demo_manager demo_raw demo_prompt demo_ids prompt c).
    + intros [|[|[|[|[|i]]]]] item Hi Ht; vm_compute in Hi; try discriminate Hi; injection Hi as <-; try discriminate Ht.
      all: do 2 eexists; split; [reflexivity|]; split; [reflexivity|]; by right.
    + by apply demo_compacts.
  - vm_compute in E. by injection E as <- <-.
Defined.

Lemma demo_fits :
  match stage never demo_manager demo_prompt demo_raw Automatic PreTurn None false with
  | inr (Ready p evidence _) =>
      match finalize demo_manager p (compose HEADER evidence) ALGORITHM_DETERMINISTIC (cm_model demo_manager) "k1" 9 with
      | inr (Compacted _ _) => true
      | _ => false
      end
  | _ => false
  end = true.
Proof. by vm_compute. Qed.
Lemma evidence_always_fits_witness :
  match stage never demo_manager demo_prompt demo_raw Automatic PreTurn None false with
  | inr (Ready p evidence reserve) =>
      exists prompt c,
        finalize demo_manager p (compose HEADER evidence) ALGORITHM_DETERMINISTIC (cm_model demo_manager) "k1" 9
          = inr (Compacted prompt c)
        /\ u64_sum (pc_message_tokens prompt) <= pl_target_tokens p
  | _ => False
  end.
Proof.
  destruct (stage never demo_manager demo_prompt demo_raw Automatic PreTurn None false) as [|[|p evidence reserve]] eqn:E;
    [by vm_compute in E..|].
  destruct (evidence_always_fits never demo_manager demo_prompt demo_raw Automatic PreTurn None false p evidence reserve "k1" 9 E)
    as [[Hn _]|(prompt & c & Hf & [Hle _] & _)].
  { exfalso. pose proof demo_fits as Hf. by rewrite E, Hn in Hf. }
  exists prompt, c. split; [exact Hf|exact Hle].
Defined.

(** * Checkpoints *)
Definition demo_checkpoint : ContextCheckpoint :=
  {| cp_entry_id := "k"; cp_checkpoint_id := "cp_k"; cp_covered_from_entry_id := Some "u1";
     cp_cutoff_entry_id := Some "a1"; cp_summary := [Text "what was done"]; cp_protected_entry_ids := ["u1"];
     cp_tokens_before := 9000; cp_tokens_after := 300; cp_trigger := Automatic; cp_phase := Some PreTurn;
     cp_algorithm_version := ALGORITHM_SUMMARIZED;
     cp_summary_outcome := Some (mkOutcome EvidenceOnly (Some "no provider") [tt]);
     cp_model := "model"; cp_context_window := 200000; cp_created_at := 7 |}.
Lemma checkpoint_round_trip_witness : entry_to_checkpoint (checkpoint_to_entry demo_checkpoint) = Some demo_checkpoint.
Proof. apply (checkpoint_round_trip (fun u => match u with tt => eq_refl end)); by vm_compute. Defined.

Fixpoint marks (n : nat) : string := match n with O => "f" | S n => String "x" (marks n) end.
Definition demo_fresh : FreshIds := mkFresh marks (fun n => "r" +:+ marks n) "info" "child".
Lemma demo_distinct : distinct_fresh demo_fresh.
Proof.
  constructor.
  - cbn. induction i as [|i IH]; intros [|j]; cbn; try done. intros [= E]. f_equal. by apply IH.
  - by intros [|i].
Qed.
Definition demo_parent : Session :=
  mkSession "p" 3 "/w" "model" "name" "" ""
    [user_line "u1" "do it"; new_assistant "a1" 6 (VString "done") []; checkpoint_to_entry demo_checkpoint;
     user_line "u2" "more"] 1 2.
Lemma forked_checkpoint_stays_in_force_witness :
  match build_fork_session_with_mapping (fun _ => None) demo_fresh 9 demo_parent (ThroughEntry "u2") with
  | inr (child, ids) =>
      exists e' c', In e' (ss_entries child) /\ se_id e' = "xxf" /\ entry_to_checkpoint e' = Some c'
        /\ checkpoint_is_valid (ss_entries child) c' = true /\ cp_cutoff_entry_id c' = Some "xf"
        /\ cp_summary c' = [Text "what was done"]
  | _ => False
  end.
Proof.
  assert (Hcopy : match build_fork_session_with_mapping (fun _ => None) demo_fresh 9 demo_parent (ThroughEntry "u2") with
                  | inr (child, ids) =>
                      remap_evidence_references (fun _ => None) ids (cp_summary demo_checkpoint) = Some [Text "what was done"]
                      /\ ids !! "k" = Some "xxf" /\ ids !! "a1" = Some "xf"
                  | _ => False
                  end) by (by vm_compute).
  destruct (build_fork_session_with_mapping (fun _ => None) demo_fresh 9 demo_parent (ThroughEntry "u2"))
    as [|[child ids]] eqn:E; [done|]. destruct Hcopy as (Hev & Hk & Ha).
  pose proof (forked_checkpoint_stays_in_force (fun _ => None) demo_fresh 9 demo_parent (ThroughEntry "u2") child ids
              (checkpoint_to_entry demo_checkpoint) demo_checkpoint "xxf" E demo_distinct) as P.
  rewrite Hev in P. destruct P as (e' & c' & H1 & H2 & H3 & H4 & _ & H5 & _ & H6).
  - vm_compute. apply (bool_decide_unpack (NoDup ["u1"; "a1"; "k"; "u2"])). by vm_compute.
  - right; right; by left.
  - by vm_compute.
  - by vm_compute.
  - intros e [<-|[<-|[<-|[<-|[]]]]]; vm_compute; intuition discriminate.
  - exact Hk.
  - exists e', c'. split; [exact H1|]. split; [exact H2|]. split; [exact H3|]. split; [exact H4|].
    split; [rewrite H5; exact Ha|exact H6].
Defined.
