(* ===== verification/RunControl.v ===== *)
(** The lifecycle of a session's run (runtime/run_state.rs).  Every definition
    is one critical section of the control's mutex, the atomic counters it
    touches included; a fresh run id is an argument, logging is left out. *)
From S2P Require Import Prelude.

Definition u64_sub (a b : Z) : Z := (a - b) mod 18446744073709551616.

Inductive RunPhase := Starting | Running | Cancelling | CancellationStuck | PersistenceDegraded | Finalizing.
#[export] Instance RunPhase_eq_dec : EqDecision RunPhase.
Proof. solve_decision. Defined.
Definition run_phase_as_str (p : RunPhase) : string :=
  match p with
  | Starting => "starting"
  | Running => "running"
  | Cancelling => "cancelling"
  | CancellationStuck => "cancellation_stuck"
  | PersistenceDegraded => "persistence_degraded"
  | Finalizing => "finalizing"
  end.

Record RunLease := mkLease { rl_run_id : string; rl_epoch : u64; rl_run_sequence : option u64 }.
#[export] Instance RunLease_eq_dec : EqDecision RunLease.
Proof. solve_decision. Defined.
Record RunSnapshot := mkSnapshot {
  rs_run_id : string;
  rs_epoch : u64;
  rs_run_sequence : option u64;
  rs_phase : RunPhase
}.
Inductive CancellationCause := User | SystemShutdown.
#[export] Instance CancellationCause_eq_dec : EqDecision CancellationCause.
Proof. solve_decision. Defined.

(** A channel and a flag are shared with the run's loop: the record holds their
    names. *)
Record ActiveRun := mkActive {
  ar_lease : RunLease;
  ar_client_request_id : string;
  ar_phase : RunPhase;
  ar_interrupt_tx : option nat;
  ar_interrupt_flag : option nat;
  ar_cancellation : option CancellationCause
}.
#[export] Instance eta_ActiveRun : Eta ActiveRun := fun a =>
  mkActive (ar_lease a) (ar_client_request_id a) (ar_phase a) (ar_interrupt_tx a) (ar_interrupt_flag a)
    (ar_cancellation a).
Record ControlState := mkControl {
  cs_epoch : u64;
  cs_active : option ActiveRun;
  cs_recent_requests : list (string * RunLease)
}.
#[export] Instance eta_ControlState : Eta ControlState := fun s =>
  mkControl (cs_epoch s) (cs_active s) (cs_recent_requests s).
Record RunControl := mkRunControl {
  rc_state : ControlState;
  rc_is_streaming : bool;
  rc_active_tasks : u64;
  rc_stale_epoch_drops : u64;
  rc_persistence_degraded : u64
}.
#[export] Instance eta_RunControl : Eta RunControl := fun c =>
  mkRunControl (rc_state c) (rc_is_streaming c) (rc_active_tasks c) (rc_stale_epoch_drops c)
    (rc_persistence_degraded c).
Definition active_run (c : RunControl) : option ActiveRun := cs_active (rc_state c).
Definition set_active (a : option ActiveRun) (c : RunControl) : RunControl :=
  c <| rc_state ::= fun s => s <| cs_active := a |> |>.

(** The flags that are raised, and the channels a notification was put into. *)
Record Signals := mkSignals { sg_raised : gset nat; sg_sent : gset nat }.
#[export] Instance eta_Signals : Eta Signals := fun s => mkSignals (sg_raised s) (sg_sent s).
Definition try_send (tx : nat) (s : Signals) : Signals := s <| sg_sent ::= fun sent => {[tx]} ∪ sent |>.
Definition store_flag (flag : nat) (s : Signals) : Signals := s <| sg_raised ::= fun raised => {[flag]} ∪ raised |>.

Definition run_control_new (is_streaming : bool) : RunControl :=
  mkRunControl (mkControl 0 None []) is_streaming 0 0 0.

Definition nonempty (value : option string) : option string :=
  match value with Some "" => None | other => other end.
Definition validate_run_id (active_run_id : string) (expected_run_id : option string) : option string :=
  match nonempty expected_run_id with
  | Some expected =>
      if expected =?s active_run_id then None
      else Some ("run `" +:+ expected +:+ "` is no longer active; current run is `" +:+ active_run_id +:+ "`")
  | None => None
  end.
Definition abortable (phase : RunPhase) : bool :=
  match phase with Starting | Running | Cancelling => true | _ => false end.
Definition is_phase (p : RunPhase) (a : ActiveRun) : bool := bool_decide (ar_phase a = p).

(** * Begin *)
Definition already_accepted (s : ControlState) (client_request_id : string) : bool :=
  negb (client_request_id =?s "")
  && (match cs_active s with
      | Some active => (ar_client_request_id active =?s client_request_id)
                       && negb (is_phase CancellationStuck active)
      | None => false
      end
      || List.existsb (fun r => fst r =?s client_request_id) (cs_recent_requests s)).
Definition release_active (c : RunControl) : RunControl :=
  set_active None c <| rc_is_streaming := false |> <| rc_active_tasks ::= fun n => u64_sub n 1 |>.
(** A cancellation-stuck predecessor is released; any other active run refuses. *)
Definition admit_run (c : RunControl) : string + RunControl :=
  match active_run c with
  | Some active =>
      if is_phase CancellationStuck active then inr (release_active c)
      else inl ("agent run " +:+ rl_run_id (ar_lease active) +:+ " is "
                +:+ run_phase_as_str (ar_phase active)
                +:+ "; wait for it to finish before starting another run")
  | None => inr c
  end.
Definition begin_with_sequence (generated : string) (requested_run_id client_request_id : option string)
    (run_sequence : option u64) (c : RunControl) : (string + RunLease) * RunControl :=
  let client_request_id := default "" client_request_id in
  if already_accepted (rc_state c) client_request_id
  then (inl ("client request `" +:+ client_request_id +:+ "` was already accepted"), c)
  else match admit_run c with
       | inl error => (inl error, c)
       | inr c =>
           let epoch := Z.max (u64_add (cs_epoch (rc_state c)) 1) 1 in
           let lease := {| rl_run_id := default generated (nonempty requested_run_id);
                           rl_epoch := epoch;
                           rl_run_sequence := run_sequence |} in
           let active := {| ar_lease := lease;
                            ar_client_request_id := client_request_id;
                            ar_phase := Starting;
                            ar_interrupt_tx := None;
                            ar_interrupt_flag := None;
                            ar_cancellation := None |} in
           (inr lease,
            c <| rc_state ::= fun s => s <| cs_epoch := epoch |> <| cs_active := Some active |> |>
              <| rc_is_streaming := true |> <| rc_active_tasks ::= fun n => u64_add n 1 |>)
       end.
Definition begin_run (generated : string) (requested_run_id client_request_id : option string) (c : RunControl)
    : (string + RunLease) * RunControl :=
  begin_with_sequence generated requested_run_id client_request_id None c.

(** * Cancellation *)
Definition stale (c : RunControl) : bool * RunControl :=
  (false, c <| rc_stale_epoch_drops ::= fun n => u64_add n 1 |>).
Definition holds_lease (lease : RunLease) (c : RunControl) : option ActiveRun :=
  active ← active_run c;
  if bool_decide (ar_lease active = lease) then Some active else None.

Definition install_cancellation (lease : RunLease) (interrupt_tx interrupt_flag : nat) (c : RunControl)
    (s : Signals) : bool * RunControl * Signals :=
  match holds_lease lease c with
  | None => (stale c, s)
  | Some active =>
      let s := match ar_phase active with
               | Cancelling | CancellationStuck => try_send interrupt_tx (store_flag interrupt_flag s)
               | _ => s
               end in
      let active := active <| ar_interrupt_tx := Some interrupt_tx |>
                           <| ar_interrupt_flag := Some interrupt_flag |> in
      let active := if is_phase Starting active then active <| ar_phase := Running |> else active in
      (true, set_active (Some active) c, s)
  end.

Definition snapshot_of (active : ActiveRun) : RunSnapshot :=
  {| rs_run_id := rl_run_id (ar_lease active);
     rs_epoch := rl_epoch (ar_lease active);
     rs_run_sequence := rl_run_sequence (ar_lease active);
     rs_phase := ar_phase active |}.
(** The locked part of [cancel_expected]: what is to be signalled after the
    lock is released, the channel and the flag as they were. *)
Definition cancel_locked (expected_run_id : option string) (system_interruption : bool) (c : RunControl)
    : (string + option (RunSnapshot * option nat * option nat)) * RunControl :=
  match active_run c with
  | None =>
      match nonempty expected_run_id with
      | Some expected => (inl ("run `" +:+ expected +:+ "` is no longer active"), c)
      | None => (inr None, c)
      end
  | Some active =>
      match validate_run_id (rl_run_id (ar_lease active)) expected_run_id with
      | Some error => (inl error, c)
      | None =>
          if negb (abortable (ar_phase active)) then (inr None, c)
          else
            let cause := if system_interruption && negb (bool_decide (ar_cancellation active = Some User))
                         then SystemShutdown else User in
            let active := active <| ar_cancellation := Some cause |> <| ar_phase := Cancelling |> in
            (inr (Some (snapshot_of active, ar_interrupt_tx active, ar_interrupt_flag active)),
             set_active (Some active) c)
      end
  end.
Definition send_interrupt (tx : option nat) (s : Signals) : Signals :=
  match tx with Some tx => try_send tx s | None => s end.
Definition raise_flag (flag : option nat) (s : Signals) : Signals :=
  match flag with Some flag => store_flag flag s | None => s end.
Definition cancel_expected (expected_run_id : option string) (system_interruption : bool) (c : RunControl)
    (s : Signals) : (string + option RunSnapshot) * RunControl * Signals :=
  match cancel_locked expected_run_id system_interruption c with
  | (inl error, c) => (inl error, c, s)
  | (inr None, c) => (inr None, c, s)
  | (inr (Some (snapshot, tx, flag)), c) => (inr (Some snapshot), c, raise_flag flag (send_interrupt tx s))
  end.
Definition abort_expected (expected_run_id : option string) := cancel_expected expected_run_id false.
Definition interrupt_for_shutdown := cancel_expected None true.
Definition cancellation_kind (lease : RunLease) (c : RunControl) : option CancellationCause :=
  active ← holds_lease lease c; ar_cancellation active.

(** * The end of a run *)
Definition set_phase (p : RunPhase) (active : ActiveRun) (c : RunControl) : RunControl :=
  set_active (Some (active <| ar_phase := p |>)) c.
Definition begin_finalizing (lease : RunLease) (c : RunControl) : bool * RunControl :=
  match holds_lease lease c with
  | None => stale c
  | Some active => (true, set_phase Finalizing active c)
  end.
Definition mark_stuck (lease : RunLease) (c : RunControl) : bool * RunControl :=
  match holds_lease lease c with
  | None => (false, c)
  | Some active => (true, set_phase CancellationStuck active c)
  end.
Definition mark_persistence_degraded (lease : RunLease) (c : RunControl) : bool * RunControl :=
  match holds_lease lease c with
  | None => (false, c)
  | Some active =>
      if is_phase PersistenceDegraded active then (true, c)
      else (true, set_phase PersistenceDegraded active c <| rc_persistence_degraded ::= fun n => u64_add n 1 |>)
  end.
Definition RECENT_REQUESTS : nat := 64.
Definition remember (client_request_id : string) (lease : RunLease) (recent : list (string * RunLease))
    : list (string * RunLease) :=
  if client_request_id =?s "" then recent else keep_last RECENT_REQUESTS (recent ++ [(client_request_id, lease)]).
Definition finish (lease : RunLease) (c : RunControl) : bool * RunControl :=
  match holds_lease lease c with
  | None => stale c
  | Some finished =>
      (true, release_active c <| rc_state ::= fun s =>
               s <| cs_recent_requests ::= remember (ar_client_request_id finished) (ar_lease finished) |> |>)
  end.
(** The locked part of [recover_persistence_degraded], which then calls [finish]. *)
Definition recover_locked (lease : RunLease) (c : RunControl) : bool * RunControl :=
  match holds_lease lease c with
  | Some active =>
      if is_phase PersistenceDegraded active then (true, set_phase Finalizing active c) else (false, c)
  | None => (false, c)
  end.
Definition recover_persistence_degraded (lease : RunLease) (c : RunControl) : bool * RunControl :=
  match recover_locked lease c with
  | (true, c) => finish lease c
  | (false, c) => (false, c)
  end.

(** * Reading *)
Definition snapshot (c : RunControl) : option RunSnapshot := snapshot_of <$> active_run c.
Definition is_terminal_unrecoverable (c : RunControl) : bool :=
  match active_run c with
  | Some active => is_phase CancellationStuck active || is_phase PersistenceDegraded active
  | None => false
  end.
Definition request_lease (client_request_id : string) (c : RunControl) : option RunLease :=
  if client_request_id =?s "" then None
  else
    match active_run c with
    | Some active =>
        if ar_client_request_id active =?s client_request_id then Some (ar_lease active)
        else snd <$> List.find (fun r => fst r =?s client_request_id) (cs_recent_requests (rc_state c))
    | None => snd <$> List.find (fun r => fst r =?s client_request_id) (cs_recent_requests (rc_state c))
    end.
Definition active_task_count (c : RunControl) : u64 := rc_active_tasks c.
Definition stale_epoch_drop_count (c : RunControl) : u64 := rc_stale_epoch_drops c.
Definition persistence_degraded_count (c : RunControl) : u64 := rc_persistence_degraded c.
