(* ===== verification/SessionRuntime.v ===== *)
(** The execution runtime of a session (runtime/session_runtime.rs): the control
    of RunControl, the slot of the one task, the timer armed by a cancellation
    and the completions sent.  The system at the end of the file interleaves the
    critical sections of the threads that share a runtime. *)
From S2P Require Import Prelude RunControl.

(** A timer is a task of its own, named by a number.  The [_tx] is whether a
    completion sender is installed. *)
Record SessionRuntime := mkRuntime {
  rt_control : RunControl;
  rt_cancellation_timer : option nat;
  rt_task : option RunLease;
  rt_completion_tx : bool;
  rt_completed : list RunLease
}.
#[export] Instance eta_SessionRuntime : Eta SessionRuntime := fun r =>
  mkRuntime (rt_control r) (rt_cancellation_timer r) (rt_task r) (rt_completion_tx r) (rt_completed r).
Definition runtime_new (is_streaming : bool) : SessionRuntime :=
  mkRuntime (run_control_new is_streaming) None None false [].
Definition set_completion_sender (r : SessionRuntime) : SessionRuntime := r <| rt_completion_tx := true |>.

Section Op.
Context {A : Type}.
(** Runs an operation of the control. *)
Definition on_control (f : RunControl -> A * RunControl) (r : SessionRuntime) : A * SessionRuntime :=
  let '(a, c) := f (rt_control r) in (a, r <| rt_control := c |>).
End Op.

(** * One critical section each *)
Definition slot_error (active : RunLease) : string :=
  "runtime task " +:+ rl_run_id active +:+ " at epoch " +:+ show (rl_epoch active) +:+ " has not exited".
(** [begin] and [begin_scheduled]: the task lock is held throughout. *)
Definition runtime_begin (generated : string) (requested_run_id client_request_id : option string)
    (r : SessionRuntime) : (string + RunLease) * SessionRuntime :=
  match rt_task r with
  | Some active => (inl (slot_error active), r)
  | None => on_control (begin_run generated requested_run_id client_request_id) r
  end.
Definition begin_scheduled (generated requested_run_id client_request_id : string) (run_sequence : u64)
    (r : SessionRuntime) : (string + RunLease) * SessionRuntime :=
  match rt_task r with
  | Some active => (inl (slot_error active), r)
  | None =>
      on_control (begin_with_sequence generated (Some requested_run_id) (Some client_request_id)
                    (Some run_sequence)) r
  end.
Definition has_owned_task (r : SessionRuntime) : bool := bool_decide (is_Some (rt_task r)).
Definition complete (lease : RunLease) (r : SessionRuntime) : SessionRuntime :=
  if rt_completion_tx r then r <| rt_completed ::= fun sent => sent ++ [lease] |> else r.

(** * Cancellation *)
Definition lease_of (snapshot : RunSnapshot) : RunLease :=
  {| rl_run_id := rs_run_id snapshot; rl_epoch := rs_epoch snapshot; rl_run_sequence := rs_run_sequence snapshot |}.
(** [active.run_id == lease.run_id && active.epoch == lease.epoch] *)
Definition snapshot_is (lease : RunLease) (snapshot : RunSnapshot) : bool :=
  (rs_run_id snapshot =?s rl_run_id lease) && (rs_epoch snapshot =? rl_epoch lease).
(** The timer's check after its sleep, and the mark that follows it. *)
Definition timer_due (lease : RunLease) (r : SessionRuntime) : bool :=
  match snapshot (rt_control r) with
  | Some active => snapshot_is lease active && bool_decide (rs_phase active = Cancelling)
  | None => false
  end.
Definition runtime_mark_stuck (lease : RunLease) : SessionRuntime -> bool * SessionRuntime :=
  on_control (mark_stuck lease).
(** Replaces the armed timer; the one it replaces is aborted. *)
Definition arm_timer (timer : nat) (r : SessionRuntime) : option nat * SessionRuntime :=
  (rt_cancellation_timer r, r <| rt_cancellation_timer := Some timer |>).
Definition stop_cancellation_timer (r : SessionRuntime) : option nat * SessionRuntime :=
  (rt_cancellation_timer r, r <| rt_cancellation_timer := None |>).
(** Without other threads: the timer that is armed with its lease, and the one
    that is aborted. *)
Definition request_cancellation (timer : nat) (in_runtime : bool) (expected_run_id : option string)
    (system_interruption : bool) (r : SessionRuntime) (s : Signals)
    : (string + option (RunLease * option nat)) * SessionRuntime * Signals :=
  match cancel_expected expected_run_id system_interruption (rt_control r) s with
  | (inl error, c, s) => (inl error, r <| rt_control := c |>, s)
  | (inr None, c, s) => (inr None, r <| rt_control := c |>, s)
  | (inr (Some snapshot), c, s) =>
      let r := r <| rt_control := c |> in
      if in_runtime
      then let '(previous, r) := arm_timer timer r in (inr (Some (lease_of snapshot, previous)), r, s)
      else (inr None, r, s)
  end.

(** * The end of a run *)
Definition runtime_finish (lease : RunLease) (r : SessionRuntime) : bool * SessionRuntime :=
  if has_owned_task r then (false, r) else on_control (finish lease) r.
Definition runtime_recover (lease : RunLease) (r : SessionRuntime) : bool * SessionRuntime :=
  if has_owned_task r then (false, r)
  else let '(recovered, r) := on_control (recover_persistence_degraded lease) r in
       (recovered, if recovered then complete lease r else r).
Definition faulted (lease : RunLease) (r : SessionRuntime) : bool :=
  match snapshot (rt_control r) with
  | Some active =>
      snapshot_is lease active
      && (bool_decide (rs_phase active = CancellationStuck) || bool_decide (rs_phase active = PersistenceDegraded))
  | None => false
  end.
Definition finish_cancelled_fault (lease : RunLease) (r : SessionRuntime) : bool * SessionRuntime :=
  if has_owned_task r || negb (faulted lease r) then (false, r)
  else let '(finished, r) := on_control (finish lease) r in
       (finished, if finished then complete lease (snd (stop_cancellation_timer r)) else r).

(** * The task *)
Definition spawn (lease : RunLease) (r : SessionRuntime) : (string + unit) * SessionRuntime :=
  match rt_task r with
  | Some active =>
      (inl ("runtime already owns task " +:+ rl_run_id active +:+ " at epoch " +:+ show (rl_epoch active)), r)
  | None => (inr tt, r <| rt_task := Some lease |>)
  end.
Inductive TaskOutcome := Returned | Panicked.
Inductive Verdict := VFinish | VMarkStuck | VLeave.
#[export] Instance Verdict_eq_dec : EqDecision Verdict.
Proof. solve_decision. Defined.
(** What the monitor decides when the task has ended. *)
Definition monitor_verdict (lease : RunLease) (outcome : TaskOutcome) (r : SessionRuntime) : Verdict :=
  match outcome with
  | Panicked => VMarkStuck
  | Returned =>
      match snapshot (rt_control r) with
      | Some active =>
          if snapshot_is lease active
          then match rs_phase active with
               | Finalizing => VFinish
               | CancellationStuck | PersistenceDegraded => VLeave
               | _ => VMarkStuck
               end
          else VLeave
      | None => VLeave
      end
  end.
(** The verdict is carried out and the slot is emptied. *)
Definition monitor_apply (lease : RunLease) (verdict : Verdict) (r : SessionRuntime) : SessionRuntime :=
  let '(completed, r) :=
    match verdict with
    | VFinish => on_control (finish lease) r
    | VMarkStuck => (false, snd (runtime_mark_stuck lease r))
    | VLeave => (false, r)
    end in
  let r := r <| rt_task := None |> in
  if completed then complete lease r else r.
Definition monitor (lease : RunLease) (outcome : TaskOutcome) (r : SessionRuntime) : SessionRuntime :=
  monitor_apply lease (monitor_verdict lease outcome r) r.

(** * Threads
    A runtime is shared by the thread that accepts a prompt (under the session's
    exclusive lock, so there is one at a time), the task of the run, its
    monitor, cancellations, timers and recoveries.  A step is one critical
    section; what a thread has still to do is kept in the state. *)
Inductive Caller :=
| NoCaller
| Accepted (lease : RunLease)
| Finishing (lease : RunLease)     (* the slot was empty, [finish] comes next *)
| RecoverFree (lease : RunLease)   (* the slot was empty, [recover] comes next *)
| Recovering (lease : RunLease).   (* finalizing again, [finish] comes next *)
Inductive Watch :=
| NoWatch
| Running_ (lease : RunLease)
| Ended (lease : RunLease) (outcome : TaskOutcome)
| Decided (lease : RunLease) (verdict : Verdict). (* holds the task lock *)
Inductive Work :=
| CancelSend (snapshot : RunSnapshot) (tx flag : option nat)
| CancelRaise (snapshot : RunSnapshot) (flag : option nat)
| CancelArm (snapshot : RunSnapshot)
| TimerSleeping (timer : nat) (lease : RunLease)
| TimerChecked (lease : RunLease)
| FaultFound (lease : RunLease).   (* holds the task lock, [finish] comes next *)
Record Sys := mkSys {
  sy_runtime : SessionRuntime;
  sy_signals : Signals;
  sy_caller : Caller;
  sy_watch : Watch;
  sy_work : list Work;
  sy_issued : list RunLease
}.
#[export] Instance eta_Sys : Eta Sys := fun s =>
  mkSys (sy_runtime s) (sy_signals s) (sy_caller s) (sy_watch s) (sy_work s) (sy_issued s).
Definition sys_new : Sys :=
  mkSys (runtime_new false) (mkSignals ∅ ∅) NoCaller NoWatch [] [].

Definition is_fault_found (w : Work) : bool := match w with FaultFound _ => true | _ => false end.
(** Some thread holds the task lock between two sections of the control. *)
Definition task_locked (s : Sys) : bool :=
  match sy_watch s with Decided _ _ => true | _ => false end || List.existsb is_fault_found (sy_work s).
(** The thread that executes the run of [lease]. *)
Definition executes (s : Sys) (lease : RunLease) : Prop :=
  sy_caller s = Accepted lease \/ sy_watch s = Running_ lease.
Definition is_timer (timer : nat) (w : Work) : bool :=
  match w with TimerSleeping t _ => (t =? timer)%nat | _ => false end.
(** An aborted timer stops if it still sleeps. *)
Definition abort_timer (timer : option nat) (work : list Work) : list Work :=
  match timer with
  | Some timer => List.filter (fun w => negb (is_timer timer w)) work
  | None => work
  end.

Inductive step : Sys -> Sys -> Prop :=
| step_begin s generated requested client sequence lease r :
    sy_caller s = NoCaller -> task_locked s = false -> rt_task (sy_runtime s) = None ->
    on_control (begin_with_sequence generated requested client sequence) (sy_runtime s) = (inr lease, r) ->
    step s (s <| sy_runtime := r |> <| sy_caller := Accepted lease |> <| sy_issued ::= cons lease |>)
| step_install s lease tx flag ok c signals :
    executes s lease ->
    install_cancellation lease tx flag (rt_control (sy_runtime s)) (sy_signals s) = (ok, c, signals) ->
    step s (s <| sy_runtime ::= fun r => r <| rt_control := c |> |> <| sy_signals := signals |>)
| step_finalizing s lease :
    executes s lease ->
    step s (s <| sy_runtime ::= fun r => snd (on_control (begin_finalizing lease) r) |>)
| step_degraded s lease :
    executes s lease ->
    step s (s <| sy_runtime ::= fun r => snd (on_control (mark_persistence_degraded lease) r) |>)
| step_spawn s lease r :
    sy_caller s = Accepted lease -> task_locked s = false -> spawn lease (sy_runtime s) = (inr tt, r) ->
    step s (s <| sy_runtime := r |> <| sy_caller := NoCaller |> <| sy_watch := Running_ lease |>)
| step_finish_check s lease :
    sy_caller s = Accepted lease -> task_locked s = false -> rt_task (sy_runtime s) = None ->
    step s (s <| sy_caller := Finishing lease |>)
| step_finish s lease :
    sy_caller s = Finishing lease ->
    step s (s <| sy_runtime ::= fun r => snd (on_control (finish lease) r) |> <| sy_caller := NoCaller |>)
| step_recover_check s lease :
    sy_caller s = NoCaller -> task_locked s = false -> rt_task (sy_runtime s) = None ->
    step s (s <| sy_caller := RecoverFree lease |>)
| step_recover s lease ok r :
    sy_caller s = RecoverFree lease -> on_control (recover_locked lease) (sy_runtime s) = (ok, r) ->
    step s (s <| sy_runtime := r |> <| sy_caller := if (ok : bool) then Recovering lease else NoCaller |>)
| step_recovered s lease finished r :
    sy_caller s = Recovering lease -> on_control (finish lease) (sy_runtime s) = (finished, r) ->
    step s (s <| sy_runtime := if (finished : bool) then complete lease r else r |> <| sy_caller := NoCaller |>)
| step_exit s lease outcome :
    sy_watch s = Running_ lease ->
    step s (s <| sy_watch := Ended lease outcome |>)
| step_decide s lease outcome :
    sy_watch s = Ended lease outcome -> task_locked s = false ->
    step s (s <| sy_watch := Decided lease (monitor_verdict lease outcome (sy_runtime s)) |>)
| step_apply s lease verdict :
    sy_watch s = Decided lease verdict ->
    step s (s <| sy_runtime ::= monitor_apply lease verdict |> <| sy_watch := NoWatch |>)
| step_cancel s expected system snapshot tx flag r :
    on_control (cancel_locked expected system) (sy_runtime s) = (inr (Some (snapshot, tx, flag)), r) ->
    step s (s <| sy_runtime := r |> <| sy_work ::= cons (CancelSend snapshot tx flag) |>)
| step_send s w1 w2 snapshot tx flag :
    sy_work s = w1 ++ CancelSend snapshot tx flag :: w2 ->
    step s (s <| sy_signals ::= send_interrupt tx |> <| sy_work := w1 ++ CancelRaise snapshot flag :: w2 |>)
| step_raise s w1 w2 snapshot flag :
    sy_work s = w1 ++ CancelRaise snapshot flag :: w2 ->
    step s (s <| sy_signals ::= raise_flag flag |> <| sy_work := w1 ++ CancelArm snapshot :: w2 |>)
| step_arm s w1 w2 snapshot timer previous r :
    sy_work s = w1 ++ CancelArm snapshot :: w2 -> arm_timer timer (sy_runtime s) = (previous, r) ->
    step s (s <| sy_runtime := r |>
              <| sy_work := TimerSleeping timer (lease_of snapshot) :: abort_timer previous (w1 ++ w2) |>)
| step_no_arm s w1 w2 snapshot :
    sy_work s = w1 ++ CancelArm snapshot :: w2 -> step s (s <| sy_work := w1 ++ w2 |>)
| step_timer_due s w1 w2 timer lease :
    sy_work s = w1 ++ TimerSleeping timer lease :: w2 -> timer_due lease (sy_runtime s) = true ->
    step s (s <| sy_work := w1 ++ TimerChecked lease :: w2 |>)
| step_timer_over s w1 w2 timer lease :
    sy_work s = w1 ++ TimerSleeping timer lease :: w2 -> timer_due lease (sy_runtime s) = false ->
    step s (s <| sy_work := w1 ++ w2 |>)
| step_timer_mark s w1 w2 lease :
    sy_work s = w1 ++ TimerChecked lease :: w2 ->
    step s (s <| sy_runtime ::= fun r => snd (runtime_mark_stuck lease r) |> <| sy_work := w1 ++ w2 |>)
| step_timer_stop s previous r :
    stop_cancellation_timer (sy_runtime s) = (previous, r) ->
    step s (s <| sy_runtime := r |> <| sy_work ::= abort_timer previous |>)
| step_fault s lease :
    task_locked s = false -> rt_task (sy_runtime s) = None -> faulted lease (sy_runtime s) = true ->
    step s (s <| sy_work ::= cons (FaultFound lease) |>)
| step_fault_finish s w1 w2 lease finished r :
    sy_work s = w1 ++ FaultFound lease :: w2 -> on_control (finish lease) (sy_runtime s) = (finished, r) ->
    step s (s <| sy_runtime := if (finished : bool) then complete lease r else r |> <| sy_work := w1 ++ w2 |>).
Abbreviation reachable := (rtc step sys_new).
