(* ===== verification/RunControlProps.v ===== *)
(** The run of a session, whatever its threads do: what the state of the
    runtime says, that a cancellation reaches its run, that a user's stop
    stands, and when the session is free again. *)
From S2P Require Import Prelude RunControl SessionRuntime.

(** * The control *)
Definition active_of (c : RunControl) : option RunLease := ar_lease <$> active_run c.
Record control_ok (c : RunControl) : Prop := {
  co_streaming : rc_is_streaming c = bool_decide (is_Some (active_run c));
  co_tasks : rc_active_tasks c = if rc_is_streaming c then 1 else 0;
  co_epoch : fits_u64 (cs_epoch (rc_state c));
  co_active lease : active_of c = Some lease -> rl_epoch lease = cs_epoch (rc_state c);
  co_recent : (List.length (cs_recent_requests (rc_state c)) <= RECENT_REQUESTS)%nat
}.

Lemma holds_lease_some lease c a : holds_lease lease c = Some a <-> active_run c = Some a /\ ar_lease a = lease.
Proof.
  unfold holds_lease. destruct (active_run c) as [b|]; cbn; [|naive_solver].
  destruct (decide (ar_lease b = lease)); [rewrite bool_decide_true by done|rewrite bool_decide_false by done]; naive_solver.
Qed.
Lemma holds_lease_none lease c : holds_lease lease c = None <-> active_of c <> Some lease.
Proof.
  unfold holds_lease, active_of. destruct (active_run c) as [b|]; cbn; [|naive_solver].
  destruct (decide (ar_lease b = lease)); [rewrite bool_decide_true by done|rewrite bool_decide_false by done]; naive_solver.
Qed.
Lemma active_of_some lease c : active_of c = Some lease <-> exists a, active_run c = Some a /\ ar_lease a = lease.
Proof. unfold active_of. destruct (active_run c); cbn; naive_solver. Qed.

(** What an operation on the active run [a] does to the control: it stays and
    changes to [a'], is released, or nothing happens. *)
Inductive effect (c : RunControl) : RunControl -> Prop :=
| eff_same c' : rc_state c' = rc_state c -> rc_is_streaming c' = rc_is_streaming c ->
    rc_active_tasks c' = rc_active_tasks c -> effect c c'
| eff_change c' a a' : active_run c = Some a -> active_run c' = Some a' -> ar_lease a' = ar_lease a ->
    cs_epoch (rc_state c') = cs_epoch (rc_state c) ->
    cs_recent_requests (rc_state c') = cs_recent_requests (rc_state c) ->
    rc_is_streaming c' = rc_is_streaming c -> rc_active_tasks c' = rc_active_tasks c -> effect c c'
| eff_release c' : is_Some (active_run c) -> active_run c' = None ->
    cs_epoch (rc_state c') = cs_epoch (rc_state c) ->
    (List.length (cs_recent_requests (rc_state c')) <= RECENT_REQUESTS)%nat ->
    rc_is_streaming c' = false -> rc_active_tasks c' = u64_sub (rc_active_tasks c) 1 -> effect c c'.
Lemma effect_ok c c' : effect c c' -> control_ok c -> control_ok c'.
Proof.
  intros E [H1 H2 H3 H4 H5]. destruct E as [c' Es Er Et|c' a a' Ea Ea' El Ee Ec Er Et|c' [a Ea] Ea' Ee Ec Er Et].
  - assert (active_run c' = active_run c) as Ha by (unfold active_run; by rewrite Es).
    split; unfold active_of; rewrite ?Ha, ?Es, ?Er, ?Et; done.
  - split; unfold active_of; rewrite ?Ea', ?Ee, ?Ec, ?Er, ?Et; [|done|done| |done].
    + by rewrite H1, Ea.
    + intros l [= <-]. cbn. rewrite El. apply H4. unfold active_of. by rewrite Ea.
  - rewrite Ea in H1. rewrite H1 in H2. split; unfold active_of; rewrite ?Ea', ?Ee, ?Er, ?Et; [done| |done|done|done].
    by rewrite H2.
Qed.

Lemma keep_last_bound {A} n (l : list A) : (List.length (keep_last n l) <= n)%nat.
Proof. unfold keep_last. rewrite length_drop. lia. Qed.
Lemma remember_bound client lease recent :
  (List.length recent <= RECENT_REQUESTS)%nat -> (List.length (remember client lease recent) <= RECENT_REQUESTS)%nat.
Proof. intros H. unfold remember. case_match; [done|]. apply keep_last_bound. Qed.

Lemma set_phase_effect p a c : active_run c = Some a -> effect c (set_phase p a c).
Proof. intros H. by eapply eff_change. Qed.
Lemma stale_effect c : effect c (snd (stale c)).
Proof. by apply eff_same. Qed.
Lemma finalizing_effect lease c : effect c (snd (begin_finalizing lease c)).
Proof.
  unfold begin_finalizing. destruct (holds_lease lease c) as [a|] eqn:E; [|apply stale_effect].
  apply holds_lease_some in E as [E _]. by apply set_phase_effect.
Qed.
Lemma stuck_effect lease c : effect c (snd (mark_stuck lease c)).
Proof.
  unfold mark_stuck. destruct (holds_lease lease c) as [a|] eqn:E; [|by apply eff_same].
  apply holds_lease_some in E as [E _]. by apply set_phase_effect.
Qed.
Lemma degraded_effect lease c : effect c (snd (mark_persistence_degraded lease c)).
Proof.
  unfold mark_persistence_degraded. destruct (holds_lease lease c) as [a|] eqn:E; [|by apply eff_same].
  apply holds_lease_some in E as [E _]. destruct (is_phase _ a); [by apply eff_same|]. by eapply eff_change.
Qed.
Lemma recover_effect lease c : effect c (snd (recover_locked lease c)).
Proof.
  unfold recover_locked. destruct (holds_lease lease c) as [a|] eqn:E; [|by apply eff_same].
  apply holds_lease_some in E as [E _]. destruct (is_phase _ a); [by apply set_phase_effect|by apply eff_same].
Qed.
Lemma finish_effect lease c : control_ok c -> effect c (snd (finish lease c)).
Proof.
  intros Hok. unfold finish. destruct (holds_lease lease c) as [a|] eqn:E; [|apply stale_effect].
  apply holds_lease_some in E as [E _]. apply eff_release; try done.
  cbn. apply remember_bound, (co_recent _ Hok).
Qed.
Lemma install_effect lease tx flag c s : effect c (snd (fst (install_cancellation lease tx flag c s))).
Proof.
  unfold install_cancellation. destruct (holds_lease lease c) as [a|] eqn:E; [|apply stale_effect].
  apply holds_lease_some in E as [E _]. cbn. case_match; by eapply eff_change.
Qed.
Lemma cancel_effect expected system c : effect c (snd (cancel_locked expected system c)).
Proof.
  unfold cancel_locked. destruct (active_run c) as [a|] eqn:E; [|case_match; by apply eff_same].
  destruct (validate_run_id _ _); [by apply eff_same|]. destruct (negb _); [by apply eff_same|]. by eapply eff_change.
Qed.

(** A new run: nothing was active, or a stuck run was released. *)
Lemma begin_spec generated requested client sequence c lease c' :
  begin_with_sequence generated requested client sequence c = (inr lease, c') ->
  already_accepted (rc_state c) (default "" client) = false
  /\ (forall a, active_run c = Some a -> ar_phase a = CancellationStuck)
  /\ rl_epoch lease = Z.max (u64_add (cs_epoch (rc_state c)) 1) 1
  /\ cs_epoch (rc_state c') = rl_epoch lease
  /\ active_run c' = Some (mkActive lease (default "" client) Starting None None None)
  /\ (control_ok c -> control_ok c').
Proof.
  unfold begin_with_sequence. destruct (already_accepted _ _); [done|].
  unfold admit_run. destruct (active_run c) as [a|] eqn:Ea.
  2: intros [= <- <-]; cbn; split_and!; [done..|].
  1: unfold is_phase at 1; destruct (decide (ar_phase a = CancellationStuck)) as [Hp|];
      [rewrite bool_decide_true by done|by rewrite bool_decide_false by done];
      intros [= <- <-]; cbn; split_and!; [done|naive_solver|done|done|done|].
  all: intros [H1 H2 H3 H4 H5]; rewrite Ea in H1; rewrite H1 in H2.
  all: split; unfold active_of; cbn; [done|by rewrite H2| |naive_solver|done].
  all: unfold u64_add, fits_u64, u64_max.
  all: pose proof (Z.mod_pos_bound (cs_epoch (rc_state c) + 1) 18446744073709551616); lia.
Qed.

(** * What each operation does to the active run *)
Definition with_phase (lease : RunLease) (p : RunPhase) (a : ActiveRun) : ActiveRun :=
  if bool_decide (ar_lease a = lease) then a <| ar_phase := p |> else a.
Lemma with_phase_lease lease p a : ar_lease (with_phase lease p a) = ar_lease a.
Proof. unfold with_phase. by case_bool_decide. Qed.

Lemma finalizing_active lease c :
  active_run (snd (begin_finalizing lease c)) = with_phase lease Finalizing <$> active_run c.
Proof.
  unfold begin_finalizing, holds_lease. destruct (active_run c) as [a|] eqn:E; cbn; [|done].
  unfold with_phase. case_bool_decide; cbn; [done|]. unfold active_run in *. by rewrite <- E.
Qed.
Lemma stuck_active lease c :
  active_run (snd (mark_stuck lease c)) = with_phase lease CancellationStuck <$> active_run c.
Proof.
  unfold mark_stuck, holds_lease. destruct (active_run c) as [a|] eqn:E; cbn; [|done].
  unfold with_phase. case_bool_decide; cbn; [done|]. unfold active_run in *. by rewrite <- E.
Qed.
Lemma degraded_active lease c :
  active_run (snd (mark_persistence_degraded lease c)) = with_phase lease PersistenceDegraded <$> active_run c.
Proof.
  unfold mark_persistence_degraded, holds_lease. destruct (active_run c) as [a|] eqn:E; cbn; [|done].
  unfold with_phase, is_phase. case_bool_decide; cbn; [|done].
  case_bool_decide as Hp; cbn; [|done]. rewrite E. f_equal. destruct a; cbn in *; by subst.
Qed.
Lemma recover_active lease c ok c' : recover_locked lease c = (ok, c') ->
  if ok then exists a, active_run c = Some a /\ ar_lease a = lease /\ ar_phase a = PersistenceDegraded
                       /\ active_run c' = Some (a <| ar_phase := Finalizing |>)
  else c' = c.
Proof.
  unfold recover_locked. destruct (holds_lease lease c) as [a|] eqn:E; [|by intros [= <- <-]].
  apply holds_lease_some in E as [E El]. unfold is_phase.
  case_bool_decide; intros [= <- <-]; [|done]. by exists a.
Qed.
Lemma finish_active lease c :
  active_run (snd (finish lease c)) = if bool_decide (active_of c = Some lease) then None else active_run c.
Proof.
  unfold finish. destruct (holds_lease lease c) as [a|] eqn:E.
  - apply holds_lease_some in E as [E El]. rewrite bool_decide_true; [done|]. apply active_of_some. eauto.
  - apply holds_lease_none in E. by rewrite bool_decide_false.
Qed.
Lemma install_active lease tx flag c s ok c' s' :
  install_cancellation lease tx flag c s = (ok, c', s') ->
  active_run c' = active_run c /\ s' = s
  \/ exists a a', active_run c = Some a /\ ar_lease a = lease /\ active_run c' = Some a'
       /\ ar_lease a' = lease /\ ar_cancellation a' = ar_cancellation a
       /\ ar_phase a' = (if is_phase Starting a then Running else ar_phase a)
       /\ ar_interrupt_tx a' = Some tx /\ ar_interrupt_flag a' = Some flag
       /\ sg_raised s ⊆ sg_raised s' /\ sg_sent s ⊆ sg_sent s'
       /\ (ar_phase a = Cancelling -> flag ∈ sg_raised s' /\ tx ∈ sg_sent s').
Proof.
  unfold install_cancellation. destruct (holds_lease lease c) as [a|] eqn:E.
  - apply holds_lease_some in E as [E El]. intros [= _ <- <-]. right. eexists a, _. split_and!; [done|done|reflexivity|..].
    1-5: unfold is_phase, set_active; cbn; destruct (bool_decide (ar_phase a = Starting)); done.
    + destruct (ar_phase a); cbn; set_solver.
    + destruct (ar_phase a); cbn; set_solver.
    + intros ->. cbn. set_solver.
  - intros [= _ <- <-]. by left.
Qed.
Lemma cancel_active expected system c snapshot tx flag c' :
  cancel_locked expected system c = (inr (Some (snapshot, tx, flag)), c') ->
  exists a, active_run c = Some a /\ abortable (ar_phase a) = true
    /\ tx = ar_interrupt_tx a /\ flag = ar_interrupt_flag a
    /\ exists cause, (ar_cancellation a = Some User -> cause = User) /\ (system = false -> cause = User)
    /\ active_run c' = Some (a <| ar_cancellation := Some cause |> <| ar_phase := Cancelling |>).
Proof.
  unfold cancel_locked. destruct (active_run c) as [a|] eqn:E; [|by destruct (nonempty expected)].
  destruct (validate_run_id _ _); [done|]. destruct (abortable (ar_phase a)) eqn:Ha; cbn; [|done].
  intros [= _ <- <- <-]. exists a. split_and!; [done..|]. eexists. split_and!; [| |done].
  - intros ->. by rewrite bool_decide_true, andb_false_r.
  - by intros ->.
Qed.

(** * The system *)
Definition the_control (s : Sys) : RunControl := rt_control (sy_runtime s).
Definition watched (w : Watch) : option RunLease :=
  match w with NoWatch => None | Running_ l | Ended l _ | Decided l _ => Some l end.
(** Some thread still has the end of the run of [lease] before it. *)
Definition carried (s : Sys) (lease : RunLease) : Prop :=
  sy_caller s = Accepted lease \/ sy_caller s = Finishing lease \/ sy_caller s = Recovering lease
  \/ sy_watch s = Running_ lease \/ (exists outcome, sy_watch s = Ended lease outcome)
  \/ exists verdict, verdict <> VLeave /\ sy_watch s = Decided lease verdict.
Definition faulty (p : RunPhase) : Prop := p = CancellationStuck \/ p = PersistenceDegraded.
Record sys_ok (s : Sys) : Prop := {
  so_control : control_ok (the_control s);
  so_slot : rt_task (sy_runtime s) = watched (sy_watch s);
  so_fault : List.existsb is_fault_found (sy_work s) = true -> sy_watch s = NoWatch;
  so_caller : sy_caller s <> NoCaller -> sy_watch s = NoWatch;
  so_live a : active_run (the_control s) = Some a -> carried s (ar_lease a) \/ faulty (ar_phase a)
}.

Lemma on_control_eq {A} (f : RunControl -> A * RunControl) r a r' :
  on_control f r = (a, r') -> f (rt_control r) = (a, rt_control r') /\ rt_task r' = rt_task r.
Proof. unfold on_control. destruct (f (rt_control r)) as [b c]. by intros [= <- <-]. Qed.
Lemma on_control_snd {A} (f : RunControl -> A * RunControl) r :
  rt_control (snd (on_control f r)) = snd (f (rt_control r)) /\ rt_task (snd (on_control f r)) = rt_task r.
Proof. unfold on_control. by destruct (f (rt_control r)). Qed.
Lemma complete_control l r : rt_control (complete l r) = rt_control r /\ rt_task (complete l r) = rt_task r.
Proof. unfold complete. by case_match. Qed.
Lemma monitor_apply_control lease verdict r :
  rt_control (monitor_apply lease verdict r) =
    match verdict with
    | VFinish => snd (finish lease (rt_control r))
    | VMarkStuck => snd (mark_stuck lease (rt_control r))
    | VLeave => rt_control r
    end
  /\ rt_task (monitor_apply lease verdict r) = None.
Proof.
  unfold monitor_apply, runtime_mark_stuck, on_control. destruct verdict.
  - destruct (finish lease (rt_control r)) as [[] c]; cbn; [|done].
    unfold complete. by case_match.
  - by destruct (mark_stuck lease (rt_control r)).
  - done.
Qed.
Lemma existsb_fault_app w1 w w2 :
  List.existsb is_fault_found (w1 ++ w :: w2) = is_fault_found w || List.existsb is_fault_found (w1 ++ w2).
Proof. rewrite !existsb_app. cbn. destruct (is_fault_found w), (existsb _ w1); done. Qed.
Lemma existsb_fault_abort timer w :
  List.existsb is_fault_found (abort_timer timer w) = List.existsb is_fault_found w.
Proof.
  destruct timer as [timer|]; [|done]. cbn. induction w as [|x w IH]; [done|]. cbn.
  destruct x; cbn; try (by rewrite ?IH). destruct (_ =? _)%nat; cbn; by rewrite IH.
Qed.
Lemma task_locked_false s : task_locked s = false ->
  (forall l v, sy_watch s <> Decided l v) /\ List.existsb is_fault_found (sy_work s) = false.
Proof. unfold task_locked. intros [H ->]%orb_false_iff. split; [|done]. intros l v E. by rewrite E in H. Qed.

(** What a step may do to the active run, its threads aside. *)
Lemma carried_same s s' lease : sy_caller s' = sy_caller s -> sy_watch s' = sy_watch s ->
  carried s lease -> carried s' lease.
Proof. unfold carried. by intros -> ->. Qed.

Ltac invert_step H :=
  inversion H as
    [? generated requested client sequence lease r Hc Hl Ht Hop
    |? lease tx flag ok c signals Hex Hop
    |? lease Hex
    |? lease Hex
    |? lease r Hc Hl Hop
    |? lease Hc Hl Ht
    |? lease Hc
    |? lease Hc Hl Ht
    |? lease ok r Hc Hop
    |? lease finished r Hc Hop
    |? lease outcome Hw
    |? lease outcome Hw Hl
    |? lease verdict Hw
    |? expected system snap tx flag r Hop
    |? w1 w2 snap tx flag Hk
    |? w1 w2 snap flag Hk
    |? w1 w2 snap timer previous r Hk Hop
    |? w1 w2 snap Hk
    |? w1 w2 timer lease Hk Hdue
    |? w1 w2 timer lease Hk Hdue
    |? w1 w2 lease Hk
    |? previous r Hop
    |? lease Hl Ht Hf
    |? w1 w2 lease finished r Hk Hop]; subst; clear H.
Ltac on_ctl Hop := apply on_control_eq in Hop as [Hop ?Hslot].

(** The control changes as [effect] says, or a new run begins in it. *)
Inductive ctl_step (s s' : Sys) : Prop :=
| cst_effect : sy_issued s' = sy_issued s -> effect (the_control s) (the_control s') -> ctl_step s s'
| cst_begin generated requested client sequence lease :
    begin_with_sequence generated requested client sequence (the_control s) = (inr lease, the_control s') ->
    sy_issued s' = lease :: sy_issued s -> ctl_step s s'.
Lemma step_control s s' : control_ok (the_control s) -> step s s' -> ctl_step s s'.
Proof.
  intros Hok Hstep. invert_step Hstep; cbn in *;
    try (by apply cst_effect; [|apply eff_same]).
  - on_ctl Hop. by eapply cst_begin.
  - apply cst_effect; [done|]; unfold the_control in *; cbn. pose proof (install_effect lease tx flag (rt_control (sy_runtime s)) (sy_signals s)) as E.
    by rewrite Hop in E.
  - apply cst_effect; [done|]; unfold the_control in *; cbn. rewrite (proj1 (on_control_snd _ _)). apply finalizing_effect.
  - apply cst_effect; [done|]; unfold the_control in *; cbn. rewrite (proj1 (on_control_snd _ _)). apply degraded_effect.
  - apply cst_effect; [done|]; unfold the_control in *; cbn. unfold spawn in Hop. destruct (rt_task _); [done|]. injection Hop as <-. by apply eff_same.
  - apply cst_effect; [done|]; unfold the_control in *; cbn. rewrite (proj1 (on_control_snd _ _)). by apply finish_effect.
  - on_ctl Hop. apply cst_effect; [done|]; unfold the_control in *; cbn. pose proof (recover_effect lease (rt_control (sy_runtime s))) as E.
    by rewrite Hop in E.
  - on_ctl Hop. apply cst_effect; [done|]; unfold the_control in *; cbn. pose proof (finish_effect lease _ Hok) as E. unfold the_control in E.
    rewrite Hop in E. destruct finished; [|done]. by rewrite (proj1 (complete_control _ _)).
  - apply cst_effect; [done|]; unfold the_control in *; cbn. rewrite (proj1 (monitor_apply_control _ _ _)).
    destruct verdict; [by apply finish_effect|apply stuck_effect|by apply eff_same].
  - on_ctl Hop. apply cst_effect; [done|]; unfold the_control in *; cbn. pose proof (cancel_effect expected system (rt_control (sy_runtime s))) as E.
    by rewrite Hop in E.
  - injection Hop as _ <-. by apply cst_effect; [|apply eff_same].
  - apply cst_effect; [done|]; unfold the_control in *; cbn. unfold runtime_mark_stuck. rewrite (proj1 (on_control_snd _ _)). apply stuck_effect.
  - injection Hop as _ <-. by apply cst_effect; [|apply eff_same].
  - on_ctl Hop. apply cst_effect; [done|]; unfold the_control in *; cbn. pose proof (finish_effect lease _ Hok) as E. unfold the_control in E.
    rewrite Hop in E. destruct finished; [|done]. by rewrite (proj1 (complete_control _ _)).
Qed.
Lemma step_control_ok s s' : step s s' -> control_ok (the_control s) -> control_ok (the_control s').
Proof.
  intros Hstep Hok. destruct (step_control s s' Hok Hstep) as [_ E|? ? ? ? ? Hb _].
  - by eapply effect_ok.
  - apply begin_spec in Hb as (_ & _ & _ & _ & _ & H). by apply H.
Qed.

(** Who holds what: the slot, the task lock and the session's lock. *)
Record threads_ok (s : Sys) : Prop := {
  to_slot : rt_task (sy_runtime s) = watched (sy_watch s);
  to_fault : List.existsb is_fault_found (sy_work s) = true -> sy_watch s = NoWatch;
  to_caller : sy_caller s <> NoCaller -> sy_watch s = NoWatch
}.
Lemma watched_none w : watched w = None -> w = NoWatch.
Proof. by destruct w. Qed.
Lemma fault_middle w1 w w2 P : (List.existsb is_fault_found (w1 ++ w :: w2) = true -> P) ->
  List.existsb is_fault_found (w1 ++ w2) = true -> P.
Proof. rewrite existsb_fault_app. intros H E. apply H. by rewrite E, orb_true_r. Qed.
Lemma fault_replace w1 w w' w2 P : is_fault_found w' = false ->
  (List.existsb is_fault_found (w1 ++ w :: w2) = true -> P) ->
  List.existsb is_fault_found (w1 ++ w' :: w2) = true -> P.
Proof. intros Hw H. rewrite existsb_fault_app, Hw. cbn. by apply (fault_middle w1 w w2). Qed.

Lemma step_threads s s' : step s s' -> threads_ok s -> threads_ok s'.
Proof.
  intros Hstep [T1 T2 T3]. invert_step Hstep; cbn in *.
  - on_ctl Hop. rewrite Ht in T1. symmetry in T1. apply watched_none in T1.
    split; cbn; [by rewrite Hslot, Ht, T1|done|done].
  - by split.
  - split; cbn; [by rewrite (proj2 (on_control_snd _ _))|done|done].
  - split; cbn; [by rewrite (proj2 (on_control_snd _ _))|done|done].
  - apply task_locked_false in Hl as [_ Hl]. unfold spawn in Hop. destruct (rt_task _); [done|].
    injection Hop as <-. split; cbn; [done|by rewrite Hl|done].
  - rewrite Ht in T1. symmetry in T1. apply watched_none in T1. split; cbn; [by rewrite Ht, T1|done|done].
  - split; cbn; [by rewrite (proj2 (on_control_snd _ _))|done|done].
  - rewrite Ht in T1. symmetry in T1. apply watched_none in T1. split; cbn; [by rewrite Ht, T1|done|done].
  - on_ctl Hop. split; cbn; [by rewrite Hslot|done|]. intros _. apply T3. by rewrite Hc.
  - on_ctl Hop. split; cbn; [|done|done]. destruct finished; [rewrite (proj2 (complete_control _ _))|]; by rewrite Hslot.
  - rewrite Hw in *. split; cbn; [done|by intros E%T2|by intros E%T3].
  - rewrite Hw in *. split; cbn; [done|by intros E%T2|by intros E%T3].
  - split; cbn; [apply monitor_apply_control|done|done].
  - on_ctl Hop. split; cbn; [by rewrite Hslot|done|done].
  - rewrite Hk in T2. split; cbn; [done| |done]. revert T2; by apply fault_replace.
  - rewrite Hk in T2. split; cbn; [done| |done]. revert T2; by apply fault_replace.
  - rewrite Hk in T2. injection Hop as _ <-. split; cbn; [done| |done].
    rewrite existsb_fault_abort. revert T2; by apply fault_middle.
  - rewrite Hk in T2. split; cbn; [done| |done]. revert T2; by apply fault_middle.
  - rewrite Hk in T2. split; cbn; [done| |done]. revert T2; by apply fault_replace.
  - rewrite Hk in T2. split; cbn; [done| |done]. revert T2; by apply fault_middle.
  - rewrite Hk in T2. unfold runtime_mark_stuck. split; cbn; [by rewrite (proj2 (on_control_snd _ _))| |done].
    revert T2; by apply fault_middle.
  - injection Hop as _ <-. split; cbn; [done| |done]. by rewrite existsb_fault_abort.
  - rewrite Ht in T1. symmetry in T1. apply watched_none in T1. split; cbn; [by rewrite Ht, T1|done|done].
  - on_ctl Hop. rewrite Hk in T2. split; cbn; [|revert T2; by apply fault_middle|done].
    destruct finished; [rewrite (proj2 (complete_control _ _))|]; by rewrite Hslot.
Qed.

(** The active run has somebody to end it, or is stuck or degraded. *)
Definition attended (s : Sys) : Prop :=
  forall a, active_run (the_control s) = Some a -> carried s (ar_lease a) \/ faulty (ar_phase a).
Lemma attended_same s s' : active_run (the_control s') = active_run (the_control s) ->
  sy_caller s' = sy_caller s -> sy_watch s' = sy_watch s -> attended s -> attended s'.
Proof. intros E Ec Ew H a Ha. rewrite E in Ha. destruct (H a Ha); [left; by eapply carried_same|by right]. Qed.
Lemma attended_phase s s' lease p : active_run (the_control s') = with_phase lease p <$> active_run (the_control s) ->
  (faulty p \/ carried s lease) ->
  sy_caller s' = sy_caller s -> sy_watch s' = sy_watch s -> attended s -> attended s'.
Proof.
  intros E Hp Ec Ew H a Ha. rewrite E in Ha. apply fmap_Some in Ha as (b & Hb & ->).
  rewrite with_phase_lease. unfold with_phase. case_bool_decide as Hl; cbn.
  - subst. destruct Hp as [Hp|Hp]; [by right|left]. by eapply carried_same.
  - destruct (H b Hb); [left; by eapply carried_same|by right].
Qed.
Lemma executes_carried s lease : executes s lease -> carried s lease.
Proof. unfold carried. intros [->| ->]; auto 6. Qed.
Lemma finished_attended s s' lease :
  active_run (the_control s') = (if bool_decide (active_of (the_control s) = Some lease) then None
                                 else active_run (the_control s)) ->
  (forall l, l <> lease -> carried s l -> carried s' l) -> attended s -> attended s'.
Proof.
  intros E Hc H a Ha. rewrite E in Ha. case_bool_decide as Hl; [done|].
  destruct (H a Ha) as [Hh|]; [left|by right]. apply Hc; [|done].
  intros El. apply Hl, active_of_some. eauto.
Qed.

Lemma abortable_not_faulty p : abortable p = true -> ~ faulty p.
Proof. by intros H [->| ->]. Qed.
Lemma running_not_faulty p : faulty p -> p <> Starting.
Proof. by intros [->| ->]. Qed.
Lemma snapshot_is_self a : snapshot_is (ar_lease a) (snapshot_of a) = true.
Proof. unfold snapshot_is. cbn. by rewrite String.eqb_refl, Z.eqb_refl. Qed.
Lemma leaves_faulty a outcome r : active_run (rt_control r) = Some a ->
  monitor_verdict (ar_lease a) outcome r = VLeave -> faulty (ar_phase a).
Proof.
  intros Ha. unfold monitor_verdict, snapshot. destruct outcome; [|done].
  rewrite Ha. cbn. rewrite snapshot_is_self. unfold faulty. destruct (ar_phase a); auto; done.
Qed.

Lemma step_attended s s' : threads_ok s -> step s s' -> attended s -> attended s'.
Proof.
  intros [T1 T2 T3] Hstep HA. invert_step Hstep; cbn in *;
    try (eapply attended_same; [reflexivity..|done]; fail).
  - on_ctl Hop. apply begin_spec in Hop as (_ & _ & _ & _ & Ha & _). intros a. unfold the_control. cbn.
    rewrite Ha. intros [= <-]. left. by left.
  - apply install_active in Hop as [[E _]|(a & a' & Ha & Hl & Ha' & Hl' & _ & Hp & _)].
    + by eapply attended_same.
    + intros b. unfold the_control. cbn. rewrite Ha'. intros [= <-]. left. rewrite Hl'.
      apply executes_carried in Hex. by eapply carried_same.
  - eapply (attended_phase s); [unfold the_control; cbn; rewrite (proj1 (on_control_snd _ _)); apply finalizing_active| |done..].
    right. by apply executes_carried.
  - eapply (attended_phase s); [unfold the_control; cbn; rewrite (proj1 (on_control_snd _ _)); apply degraded_active| |done..].
    right. by apply executes_carried.
  - unfold spawn in Hop. destruct (rt_task _); [done|]. injection Hop as <-.
    intros a Ha. destruct (HA a Ha) as [Hh|]; [left|by right].
    unfold carried in *. cbn. rewrite Hc, T3 in Hh by (by rewrite Hc). naive_solver.
  - intros a Ha. destruct (HA a Ha) as [Hh|]; [left|by right].
    unfold carried in *. cbn. rewrite Hc, T3 in Hh by (by rewrite Hc). naive_solver.
  - apply (finished_attended s _ lease); [|intros l Hl Hh|done].
    + unfold the_control. cbn. rewrite (proj1 (on_control_snd _ _)). apply finish_active.
    + unfold carried in *. cbn. rewrite Hc, T3 in Hh by (by rewrite Hc). naive_solver.
  - intros a Ha. destruct (HA a Ha) as [Hh|]; [left|by right]. unfold carried in *. cbn. rewrite Hc in Hh. naive_solver.
  - on_ctl Hop. apply recover_active in Hop. destruct ok.
    + destruct Hop as (a & Ha & <- & Hp & Ha'). intros b. unfold the_control. cbn. rewrite Ha'. intros [= <-].
      left. unfold carried. cbn. auto.
    + intros a. unfold the_control. cbn. rewrite Hop. intros Ha. destruct (HA a Ha) as [Hh|]; [left|by right].
      unfold carried in *. cbn. rewrite Hc in Hh. naive_solver.
  - on_ctl Hop. pose proof (finish_active lease (rt_control (sy_runtime s))) as E. rewrite Hop in E. cbn in E.
    apply (finished_attended s _ lease); [|intros l Hl Hh|done].
    + unfold the_control. cbn. destruct finished; [by rewrite (proj1 (complete_control _ _))|done].
    + unfold carried in *. cbn. rewrite Hc, T3 in Hh by (by rewrite Hc). naive_solver.
  - intros a Ha. destruct (HA a Ha) as [Hh|]; [left|by right]. unfold carried in *. cbn. rewrite Hw in Hh. naive_solver.
  - intros a Ha. destruct (HA a Ha) as [Hh|]; [|by right].
    destruct (decide (monitor_verdict lease outcome (sy_runtime s) = VLeave /\ ar_lease a = lease)) as [[Hv <-]|Hn].
    + right. by eapply leaves_faulty.
    + left. unfold carried in *. cbn. rewrite Hw in Hh.
      destruct Hh as [?|[?|[?|[?|[[? [=]]|(? & ? & [=])]]]]]; auto 6; [done|]. subst. do 5 right. eexists.
      split; [|done]. intros Hv. by apply Hn.
  - assert (E := proj1 (monitor_apply_control lease verdict (sy_runtime s))). destruct verdict.
    + apply (finished_attended s _ lease); [|intros l Hl Hh|done].
      * unfold the_control. cbn [sy_runtime]. rewrite E. apply finish_active.
      * unfold carried in *. cbn. rewrite Hw in Hh. naive_solver.
    + intros a. unfold the_control. cbn [sy_runtime]. rewrite E, stuck_active.
      intros (b & Hb & ->)%fmap_Some. rewrite with_phase_lease. unfold with_phase. case_bool_decide as Hl; [by right; left|].
      destruct (HA b Hb) as [Hh|]; [left|by right]. unfold carried in *. cbn. rewrite Hw in Hh. naive_solver.
    + intros a. unfold the_control. cbn [sy_runtime]. rewrite E. intros Ha.
      destruct (HA a Ha) as [Hh|]; [left|by right]. unfold carried in *. cbn. rewrite Hw in Hh. naive_solver.
  - on_ctl Hop. apply cancel_active in Hop as (a & Ha & Hab & _ & _ & cause & _ & _ & Ha').
    intros b. unfold the_control. cbn. rewrite Ha'. intros [= <-]. left. cbn.
    destruct (HA a Ha) as [Hh|Hh]; [|by apply abortable_not_faulty in Hab]. by eapply carried_same.
  - injection Hop as _ <-. by eapply attended_same.
  - eapply (attended_phase s _ lease CancellationStuck);
      [unfold the_control, runtime_mark_stuck; cbn; rewrite (proj1 (on_control_snd _ _)); apply stuck_active|by left; left|done..].
  - injection Hop as _ <-. by eapply attended_same.
  - on_ctl Hop. pose proof (finish_active lease (rt_control (sy_runtime s))) as E. rewrite Hop in E. cbn in E.
    apply (finished_attended s _ lease); [|intros l Hl Hh; by eapply carried_same|done].
    unfold the_control. cbn. destruct finished; [by rewrite (proj1 (complete_control _ _))|done].
Qed.

(** * Cancellations *)
Definition carries_flag (flag : nat) (w : Work) : Prop :=
  match w with CancelSend _ _ f | CancelRaise _ f => f = Some flag | _ => False end.
Definition carries_tx (tx : nat) (w : Work) : Prop :=
  match w with CancelSend _ t _ => t = Some tx | _ => False end.
Definition flag_due (s : Sys) (flag : nat) : Prop :=
  flag ∈ sg_raised (sy_signals s) \/ exists w, In w (sy_work s) /\ carries_flag flag w.
Definition tx_due (s : Sys) (tx : nat) : Prop :=
  tx ∈ sg_sent (sy_signals s) \/ exists w, In w (sy_work s) /\ carries_tx tx w.
Definition signalled (s : Sys) : Prop := forall a, active_run (the_control s) = Some a -> ar_phase a = Cancelling ->
  (forall flag, ar_interrupt_flag a = Some flag -> flag_due s flag)
  /\ (forall tx, ar_interrupt_tx a = Some tx -> tx_due s tx).

Lemma signalled_keep s s' :
  (forall a', active_run (the_control s') = Some a' -> ar_phase a' = Cancelling ->
     active_run (the_control s) = Some a') ->
  (forall flag, flag_due s flag -> flag_due s' flag) -> (forall tx, tx_due s tx -> tx_due s' tx) ->
  signalled s -> signalled s'.
Proof. intros Ha Hf Ht H a' E P. destruct (H a' (Ha a' E P) P) as [H1 H2]. split; eauto. Qed.
Lemma in_middle {A} (x w : A) w1 w2 : In x (w1 ++ w :: w2) <-> x = w \/ In x (w1 ++ w2).
Proof. rewrite !in_app_iff. cbn. naive_solver. Qed.
Lemma in_abort_timer x timer w : In x w -> (forall t l, x <> TimerSleeping t l) -> In x (abort_timer timer w).
Proof.
  intros Hin Hx. destruct timer as [timer|]; [|done]. apply filter_In. split; [done|].
  destruct x; try done. by destruct (Hx timer0 lease).
Qed.
Lemma keep_with_phase s c lease p : p <> Cancelling ->
  active_run c = with_phase lease p <$> active_run (the_control s) ->
  forall a', active_run c = Some a' -> ar_phase a' = Cancelling -> active_run (the_control s) = Some a'.
Proof.
  intros Hp E a' Ha' P. rewrite E in Ha'. apply fmap_Some in Ha' as (a & Ha & ->). revert P.
  unfold with_phase. case_bool_decide; [by intros ?|done].
Qed.
Lemma keep_finish s c lease :
  active_run c = (if bool_decide (active_of (the_control s) = Some lease) then None
                  else active_run (the_control s)) ->
  forall a', active_run c = Some a' -> ar_phase a' = Cancelling -> active_run (the_control s) = Some a'.
Proof. intros E a' Ha' _. rewrite E in Ha'. by case_bool_decide. Qed.
(** Replacing a piece of work that carries nothing, or whose signal was given. *)
Lemma due_replace s s' w1 w w2 : sy_work s = w1 ++ w :: w2 ->
  (forall x, In x (w1 ++ w2) -> (forall t l, x <> TimerSleeping t l) -> In x (sy_work s')) ->
  sg_raised (sy_signals s) ⊆ sg_raised (sy_signals s') -> sg_sent (sy_signals s) ⊆ sg_sent (sy_signals s') ->
  (forall flag, carries_flag flag w -> flag_due s' flag) -> (forall tx, carries_tx tx w -> tx_due s' tx) ->
  (forall flag, flag_due s flag -> flag_due s' flag) /\ (forall tx, tx_due s tx -> tx_due s' tx).
Proof.
  intros Hk Hin Hr Hs Hf Ht. split.
  - intros flag [H|(x & Hx & Hc)]; [left; set_solver|]. rewrite Hk, in_middle in Hx. destruct Hx as [->|Hx]; [by apply Hf|].
    right. exists x. split; [|done]. apply Hin; [done|]. by intros t l ->.
  - intros tx [H|(x & Hx & Hc)]; [left; set_solver|]. rewrite Hk, in_middle in Hx. destruct Hx as [->|Hx]; [by apply Ht|].
    right. exists x. split; [|done]. apply Hin; [done|]. by intros t l ->.
Qed.
Ltac keep_work s := apply (signalled_keep s); [|by intros ?|by intros ?|done].
Ltac drop_work Hk s :=
  match goal with |- signalled ?s' => destruct (due_replace s s' _ _ _ Hk) as [Df Dt]; cbn;
    [intros x Hx Hn|done|done|intros ? []|intros ? []|] end.

Lemma step_signalled s s' : step s s' -> signalled s -> signalled s'.
Proof.
  intros Hstep HS. invert_step Hstep; cbn in *.
  - on_ctl Hop. apply begin_spec in Hop as (_ & _ & _ & _ & Ha & _). intros a. unfold the_control. cbn.
    rewrite Ha. by intros [= <-].
  - apply install_active in Hop as [[E ->]|(a & a' & Ha & Hl & Ha' & _ & _ & Hp & Etx & Efl & Hr & Hs & Hc)].
    + keep_work s. unfold the_control. cbn. by rewrite E.
    + intros b. unfold the_control. cbn. rewrite Ha'. intros [= <-] P.
      assert (ar_phase a = Cancelling) as [F T]%Hc by (rewrite Hp in P; by destruct (is_phase Starting a)).
      rewrite Efl, Etx. split; intros ? [= <-]; by left.
  - keep_work s. apply (keep_with_phase s _ lease Finalizing); [done|]. unfold the_control. cbn.
    rewrite (proj1 (on_control_snd _ _)). apply finalizing_active.
  - keep_work s. apply (keep_with_phase s _ lease PersistenceDegraded); [done|]. unfold the_control. cbn.
    rewrite (proj1 (on_control_snd _ _)). apply degraded_active.
  - unfold spawn in Hop. destruct (rt_task _); [done|]. injection Hop as <-. by keep_work s.
  - by keep_work s.
  - keep_work s. apply (keep_finish s _ lease). unfold the_control. cbn.
    rewrite (proj1 (on_control_snd _ _)). apply finish_active.
  - by keep_work s.
  - on_ctl Hop. apply recover_active in Hop. keep_work s. unfold the_control. cbn. destruct ok.
    + destruct Hop as (a & Ha & _ & _ & Ha'). rewrite Ha'. by intros ? [= <-].
    + by rewrite Hop.
  - on_ctl Hop. keep_work s. apply (keep_finish s _ lease). unfold the_control. cbn.
    pose proof (finish_active lease (rt_control (sy_runtime s))) as E. rewrite Hop in E.
    destruct finished; [by rewrite (proj1 (complete_control _ _))|done].
  - by keep_work s.
  - by keep_work s.
  - assert (E := proj1 (monitor_apply_control lease verdict (sy_runtime s))). keep_work s.
    unfold the_control. cbn [sy_runtime]. rewrite E. destruct verdict.
    + apply (keep_finish s _ lease), finish_active.
    + apply (keep_with_phase s _ lease CancellationStuck), stuck_active. done.
    + done.
  - on_ctl Hop. apply cancel_active in Hop as (a & Ha & _ & -> & -> & cause & _ & _ & Ha').
    intros b. unfold the_control. cbn. rewrite Ha'. intros [= <-] _. cbn.
    split; intros ? E; right; eexists; (split; [by left|done]).
  - match goal with |- signalled ?s' => destruct (due_replace s s' _ _ _ Hk) as [Df Dt] end; cbn.
    + intros x Hx _. rewrite in_middle. by right.
    + unfold send_interrupt. destruct tx; [cbn|]; done.
    + unfold send_interrupt. destruct tx; [cbn; set_solver|done].
    + intros f Hf. right. eexists. split; [cbn; apply in_middle; by left|done].
    + intros t ->. left. cbn. set_solver.
    + by apply (signalled_keep s).
  - match goal with |- signalled ?s' => destruct (due_replace s s' _ _ _ Hk) as [Df Dt] end; cbn.
    + intros x Hx _. rewrite in_middle. by right.
    + unfold raise_flag. destruct flag; [cbn; set_solver|done].
    + unfold raise_flag. destruct flag; [cbn|]; done.
    + intros f ->. left. cbn. set_solver.
    + done.
    + by apply (signalled_keep s).
  - injection Hop as _ <-. drop_work Hk s; [|by apply (signalled_keep s)]. right. by apply in_abort_timer.
  - drop_work Hk s; [done|by apply (signalled_keep s)].
  - drop_work Hk s; [|by apply (signalled_keep s)]. rewrite in_middle. by right.
  - drop_work Hk s; [done|by apply (signalled_keep s)].
  - drop_work Hk s; [done|]. apply (signalled_keep s); [|done..].
    apply (keep_with_phase s _ lease CancellationStuck); [done|]. unfold the_control, runtime_mark_stuck. cbn.
    rewrite (proj1 (on_control_snd _ _)). apply stuck_active.
  - injection Hop as _ <-. apply (signalled_keep s); [done| | |done].
    + intros f [H|(x & Hx & Hc)]; [by left|right]. exists x. split; [|done]. cbn. apply in_abort_timer; [done|]. by intros ? ? ->.
    + intros t [H|(x & Hx & Hc)]; [by left|right]. exists x. split; [|done]. cbn. apply in_abort_timer; [done|]. by intros ? ? ->.
  - apply (signalled_keep s); [done| | |done].
    + intros f [H|(x & Hx & Hc)]; [by left|right]. exists x. split; [by right|done].
    + intros t [H|(x & Hx & Hc)]; [by left|right]. exists x. split; [by right|done].
  - on_ctl Hop. drop_work Hk s; [done|]. apply (signalled_keep s); [|done..].
    apply (keep_finish s _ lease). unfold the_control. cbn.
    pose proof (finish_active lease (rt_control (sy_runtime s))) as E. rewrite Hop in E.
    destruct finished; [by rewrite (proj1 (complete_control _ _))|done].
Qed.

(** * Leases *)
(** While the epoch has not wrapped: the leases issued have the epochs from
    their number down to one, and the active lease is the last of them. *)
Record leases_ok (s : Sys) : Prop := {
  lo_epoch : cs_epoch (rc_state (the_control s)) = len (sy_issued s);
  lo_issued i lease : sy_issued s !! i = Some lease -> rl_epoch lease = len (sy_issued s) - Z.of_nat i;
  lo_active lease : active_of (the_control s) = Some lease -> head (sy_issued s) = Some lease
}.
Definition may_wrap (s : Sys) : Prop := u64_max < len (sy_issued s).

Lemma effect_epoch c c' : effect c c' -> cs_epoch (rc_state c') = cs_epoch (rc_state c)
  /\ (forall lease, active_of c' = Some lease -> active_of c = Some lease).
Proof.
  intros E. destruct E as [c' Es|c' a a' Ea Ea' El Ee|c' [a Ea] Ea' Ee].
  - unfold active_of, active_run. by rewrite Es.
  - split; [done|]. unfold active_of. rewrite Ea, Ea'. cbn. by rewrite El.
  - split; [done|]. unfold active_of. by rewrite Ea'.
Qed.
Lemma begin_epoch c n : cs_epoch (rc_state c) = n -> 0 <= n < u64_max ->
  Z.max (u64_add (cs_epoch (rc_state c)) 1) 1 = n + 1.
Proof. intros -> H. unfold u64_add, u64_max in *. rewrite Z.mod_small; lia. Qed.
Lemma step_leases s s' : control_ok (the_control s) -> step s s' -> ~ may_wrap s' -> leases_ok s -> leases_ok s'.
Proof.
  intros Hok Hstep Hw [L1 L2 L3]. destruct (step_control s s' Hok Hstep) as [Hi He|g q cl sq l Hb Hi].
  - apply effect_epoch in He as [He Ha]. split; rewrite Hi; [congruence|done|]. intros l' Hl. by apply L3, Ha.
  - apply begin_spec in Hb as (_ & _ & He & He' & Ha & _). unfold may_wrap in Hw. rewrite Hi in Hw.
    assert (rl_epoch l = len (sy_issued s) + 1) as Hl.
    { rewrite He. apply begin_epoch; [done|]. unfold len in *. cbn in Hw. lia. }
    split; rewrite Hi.
    + rewrite He', Hl. unfold len. cbn. lia.
    + intros [|i] l'; cbn; [intros [= <-]; rewrite Hl; unfold len; cbn; lia|]. intros E%L2. rewrite E. unfold len. cbn. lia.
    + intros l'. unfold active_of. rewrite Ha. cbn. by intros [= <-].
Qed.

Lemma new_control_ok : control_ok (the_control sys_new).
Proof. split; try done. unfold RECENT_REQUESTS. cbn. lia. Qed.
Lemma reach_control s : reachable s -> control_ok (the_control s).
Proof.
  intros H. pose proof new_control_ok as Hok. revert Hok. induction H as [|s1 s2 s3 H1 _ IH]; [done|].
  intros Hok. by eapply IH, step_control_ok.
Qed.
Lemma reach_from s s' : reachable s -> rtc step s s' -> reachable s'.
Proof. intros H1 H2. by etrans. Qed.
Lemma issued_grow s s' : reachable s -> rtc step s s' -> exists new, sy_issued s' = new ++ sy_issued s.
Proof.
  intros Hr H. revert Hr. induction H as [|s1 s2 s3 H1 H2 IH]; intros Hr; [by exists []|].
  destruct IH as [new Hnew]; [by eapply rtc_r|].
  destruct (step_control s1 s2 (reach_control _ Hr) H1) as [Hi _|? ? ? ? l _ Hi].
  - exists new. by rewrite Hnew, Hi.
  - exists (new ++ [l]). by rewrite Hnew, Hi, <- app_assoc.
Qed.
Lemma wrap_back s s' : reachable s -> rtc step s s' -> ~ may_wrap s' -> ~ may_wrap s.
Proof.
  intros Hr H Hw. destruct (issued_grow s s' Hr H) as [new E]. unfold may_wrap in *. rewrite E, len_app in Hw.
  pose proof (len_nonneg new). lia.
Qed.
Lemma reach_leases s : reachable s -> ~ may_wrap s -> leases_ok s.
Proof.
  intros Hr. assert (leases_ok sys_new) as H0 by by split.
  assert (forall x y, rtc step x y -> reachable x -> ~ may_wrap y -> leases_ok x -> leases_ok y) as H.
  { intros x y Hxy. induction Hxy as [|a b c H1 H2 IH]; [done|]. intros Hx Hw HL.
    assert (reachable b) by (by eapply rtc_r). apply IH; [done|done|].
    apply (step_leases a b); [by apply reach_control|done|by apply (wrap_back b c)|done]. }
  intros Hw. by apply (H sys_new s).
Qed.

(** * A user's stop *)
(** How a step that begins no run changes the active run [a]. *)
Inductive run_step (a : ActiveRun) : option ActiveRun -> Prop :=
| rs_same : run_step a (Some a)
| rs_phase l p : run_step a (Some (with_phase l p a))
| rs_released : run_step a None
| rs_installed a' : ar_cancellation a' = ar_cancellation a -> run_step a (Some a')
| rs_cancelled cause : (ar_cancellation a = Some User -> cause = User) ->
    run_step a (Some (a <| ar_cancellation := Some cause |> <| ar_phase := Cancelling |>)).
Lemma finish_run a c lease finished c' : active_run c = Some a -> finish lease c = (finished, c') ->
  run_step a (active_run c').
Proof.
  intros Ha E. pose proof (finish_active lease c) as F. rewrite E in F. cbn in F. rewrite F.
  case_bool_decide; [constructor|rewrite Ha; constructor].
Qed.
Lemma phase_run a c c' l p : active_run c = Some a -> active_run c' = with_phase l p <$> active_run c ->
  run_step a (active_run c').
Proof. intros Ha ->. rewrite Ha. cbn. constructor. Qed.
Lemma step_run s s' a : step s s' -> active_run (the_control s) = Some a ->
  (exists lease, sy_issued s' = lease :: sy_issued s) \/ run_step a (active_run (the_control s')).
Proof.
  intros Hstep Ha. invert_step Hstep; unfold the_control in *; cbn in *;
    try (right; rewrite Ha; by constructor).
  - left. by eexists.
  - right. apply install_active in Hop as [[E _]|(b & b' & Hb & _ & -> & _ & Hc & _)]; [rewrite E, Ha; constructor|].
    rewrite Ha in Hb. injection Hb as <-. by constructor.
  - right. rewrite (proj1 (on_control_snd _ _)). eapply phase_run; [done|apply finalizing_active].
  - right. rewrite (proj1 (on_control_snd _ _)). eapply phase_run; [done|apply degraded_active].
  - right. unfold spawn in Hop. destruct (rt_task _); [done|]. injection Hop as <-. cbn. rewrite Ha. constructor.
  - right. rewrite (proj1 (on_control_snd _ _)). eapply finish_run; [done|apply surjective_pairing].
  - right. on_ctl Hop. apply recover_active in Hop. destruct ok; [|rewrite Hop, Ha; constructor].
    destruct Hop as (b & Hb & _ & _ & ->). rewrite Ha in Hb. injection Hb as <-. by constructor.
  - right. on_ctl Hop. assert (E : rt_control (if finished then complete lease r else r) = rt_control r)
      by (destruct finished; [apply complete_control|done]).
    rewrite E. by eapply finish_run.
  - right. rewrite (proj1 (monitor_apply_control _ _ _)). destruct verdict; [| |rewrite Ha; constructor].
    + eapply finish_run; [done|apply surjective_pairing].
    + eapply phase_run; [done|apply stuck_active].
  - right. on_ctl Hop. apply cancel_active in Hop as (b & Hb & _ & _ & _ & cause & Hcause & _ & ->).
    rewrite Ha in Hb. injection Hb as <-. by constructor.
  - right. injection Hop as _ <-. cbn. rewrite Ha. constructor.
  - right. unfold runtime_mark_stuck. rewrite (proj1 (on_control_snd _ _)). eapply phase_run; [done|apply stuck_active].
  - right. injection Hop as _ <-. cbn. rewrite Ha. constructor.
  - right. on_ctl Hop. assert (E : rt_control (if finished then complete lease r else r) = rt_control r)
      by (destruct finished; [apply complete_control|done]).
    rewrite E. by eapply finish_run.
Qed.
Lemma run_step_user a a' : run_step a (Some a') -> ar_cancellation a = Some User -> ar_cancellation a' = Some User.
Proof.
  intros H Hu. remember (Some a') as o. destruct H; simplify_eq; [done| |congruence|].
  - unfold with_phase. by case_bool_decide.
  - cbn. by rewrite H.
Qed.
(** A run that was issued is cancelled by the user or is over. *)
Definition stopped (lease : RunLease) (s : Sys) : Prop :=
  In lease (sy_issued s)
  /\ forall a, active_run (the_control s) = Some a -> ar_lease a = lease -> ar_cancellation a = Some User.
Lemma issued_bound s lease : leases_ok s -> In lease (sy_issued s) -> rl_epoch lease <= len (sy_issued s).
Proof. intros [_ L _] [i E]%list_elem_of_In%list_elem_of_lookup. apply L in E. lia. Qed.
Lemma step_stopped lease s s' : reachable s -> step s s' -> ~ may_wrap s' -> stopped lease s -> stopped lease s'.
Proof.
  intros Hr Hstep Hw [Hi Hc]. assert (Hok := reach_control s Hr).
  assert (Hw0 : ~ may_wrap s) by (apply (wrap_back s s'); [done|by apply rtc_once|done]).
  assert (HL := reach_leases s Hr Hw0).
  destruct (step_control s s' Hok Hstep) as [Hi' He|g q cl sq l Hb Hi'].
  - split; [by rewrite Hi'|]. intros a' Ha' Hl.
    apply effect_epoch in He as [_ He]. assert (active_of (the_control s) = Some lease) as (a & Ha & Hal)%active_of_some.
    { apply He, active_of_some. eauto. }
    specialize (Hc a Ha Hal). destruct (step_run s s' a Hstep Ha) as [[l Hb]|Hrun].
    + rewrite Hi' in Hb. apply (f_equal List.length) in Hb. cbn in Hb. lia.
    + rewrite Ha' in Hrun. by eapply run_step_user.
  - apply begin_spec in Hb as (_ & _ & Hep & _ & Hb & _). split; [rewrite Hi'; by right|].
    intros a'. rewrite Hb. intros [= <-]. cbn. intros ->. exfalso.
    apply issued_bound in Hi; [|done]. rewrite (begin_epoch _ (len (sy_issued s))) in Hep; [lia|apply HL|].
    unfold may_wrap in Hw. rewrite Hi' in Hw. unfold len in *. cbn in Hw. lia.
Qed.

(** C11: a user's stop stands: once a user has stopped a run, no shutdown, no
    later request and no interleaving turns the stop into one a restart may
    resume; the run stays cancelled by the user until it is over. *)
Theorem a_user_stop_stands s s' lease :
  reachable s -> rtc step s s' -> len (sy_issued s') <= u64_max ->
  cancellation_kind lease (the_control s) = Some User ->
  holds_lease lease (the_control s') = None \/ cancellation_kind lease (the_control s') = Some User.
Proof.
  intros Hr Hs Hmax Hc. assert (Hw : ~ may_wrap s') by (unfold may_wrap; lia).
  assert (stopped lease s') as [_ Hstop].
  { assert (H0 : stopped lease s).
    { unfold cancellation_kind in Hc. apply bind_Some in Hc as (a & Ha & Hu). apply holds_lease_some in Ha as [Ha <-].
      assert (HL := reach_leases s Hr ltac:(by apply (wrap_back s s'))). split.
      - destruct HL as [_ _ L3]. specialize (L3 (ar_lease a)). unfold active_of in L3. rewrite Ha in L3.
        apply head_Some in L3 as [l ->]; [by left|done].
      - intros b Hb _. rewrite Ha in Hb. by injection Hb as <-. }
    clear Hc Hmax. revert Hr H0 Hw. induction Hs as [|x y z H1 H2 IH]; [done|]. intros Hr H0 Hw.
    assert (reachable y) by (by eapply rtc_r). apply IH; [done| |done].
    eapply (step_stopped lease x y); [done|done| |done]. by apply (wrap_back y z). }
  destruct (holds_lease lease (the_control s')) as [a|] eqn:E; [right|by left].
  unfold cancellation_kind. rewrite E. apply holds_lease_some in E as [Ha Hl]. by apply Hstop.
Qed.

(** C16: a cancellation reaches its run, whether it is requested before or after
    the run installs its interrupt targets: when no cancelling thread is still
    at work, a cancelling run has its flag raised and its channel notified. *)
Theorem a_cancelled_run_is_signalled s a :
  reachable s -> active_run (the_control s) = Some a -> ar_phase a = Cancelling ->
  (forall w, In w (sy_work s) -> match w with CancelSend _ _ _ | CancelRaise _ _ => False | _ => True end) ->
  (forall flag, ar_interrupt_flag a = Some flag -> flag ∈ sg_raised (sy_signals s))
  /\ (forall tx, ar_interrupt_tx a = Some tx -> tx ∈ sg_sent (sy_signals s)).
Proof.
  intros Hr Ha Hp Hw. assert (HS : signalled s).
  { assert (signalled sys_new) as H0 by done. revert H0. clear -Hr.
    induction Hr as [|x y z H1 _ IH]; [done|]. intros H0. by eapply IH, step_signalled. }
  destruct (HS a Ha Hp) as [Hf Ht]. split.
  - intros f E. destruct (Hf f E) as [|(w & Hin & Hc)]; [done|]. apply Hw in Hin. by destruct w.
  - intros t E. destruct (Ht t E) as [|(w & Hin & Hc)]; [done|]. apply Hw in Hin. by destruct w.
Qed.

(** * Free again *)
Lemma reach_threads s : reachable s -> threads_ok s /\ attended s.
Proof.
  intros H. assert (threads_ok sys_new /\ attended sys_new) as H0 by by repeat split.
  revert H0. induction H as [|x y z H1 _ IH]; [done|]. intros [Ht Ha]. apply IH.
  split; [by eapply step_threads|by eapply step_attended].
Qed.

(** C4: in every reachable state the streaming flag says whether a run is
    active and the counter counts it; the task slot holds the lease of the one
    task there is; the active run is the last one issued and its epoch is its
    number (as long as the epochs have not wrapped around), so that no two runs
    share a lease; no more than sixty-four finished requests are remembered; and
    every active run has a thread that still has its end before it ([carried]:
    the caller that began, finishes or recovers it, its task, or its monitor,
    unless the monitor has decided to leave it), or it is stuck in its
    cancellation or degraded. *)
Theorem one_run_per_session s : reachable s ->
  let c := the_control s in
  rc_is_streaming c = bool_decide (is_Some (active_run c))
  /\ active_task_count c = (if rc_is_streaming c then 1 else 0)
  /\ rt_task (sy_runtime s) = watched (sy_watch s)
  /\ (sy_caller s <> NoCaller -> rt_task (sy_runtime s) = None)
  /\ (List.length (cs_recent_requests (rc_state c)) <= RECENT_REQUESTS)%nat
  /\ (len (sy_issued s) <= u64_max ->
      base.NoDup (List.map rl_epoch (sy_issued s))
      /\ (forall lease, active_of c = Some lease -> head (sy_issued s) = Some lease))
  /\ (forall a, active_run c = Some a -> carried s (ar_lease a) \/ faulty (ar_phase a)).
Proof.
  intros Hr. cbn zeta. assert (Hok := reach_control s Hr). destruct (reach_threads s Hr) as [[T1 _ T3] HA].
  split_and!; try apply Hok; [done| | |exact HA].
  - intros Hc%T3. by rewrite T1, Hc.
  - intros Hmax. destruct (reach_leases s Hr) as [_ L2 L3]; [unfold may_wrap; lia|]. split; [|done].
    apply NoDup_alt. intros i j e Hi Hj. rewrite list_lookup_fmap in Hi, Hj.
    destruct (sy_issued s !! i) as [li|] eqn:Ei, (sy_issued s !! j) as [lj|] eqn:Ej; simplify_eq/=.
    apply L2 in Ei. apply L2 in Ej. lia.
Qed.

(** Nobody is between two critical sections, and no task runs. *)
Definition quiet (s : Sys) : Prop :=
  sy_caller s = NoCaller /\ sy_watch s = NoWatch /\ List.existsb is_fault_found (sy_work s) = false.
Lemma quiet_free s : threads_ok s -> quiet s -> task_locked s = false /\ rt_task (sy_runtime s) = None.
Proof. intros [T _ _] (_ & Hw & Hf). split; [unfold task_locked; by rewrite Hw, Hf|by rewrite T, Hw]. Qed.
Lemma fault_split w : List.existsb is_fault_found w = true -> exists w1 lease w2, w = w1 ++ FaultFound lease :: w2.
Proof.
  intros (x & Hx & Hf)%existsb_exists. destruct x; try done. apply in_split in Hx as (w1 & w2 & ->). eauto.
Qed.
(** Each thread in between comes to its end by itself. *)
Lemma faults_end n : forall s, (List.length (List.filter is_fault_found (sy_work s)) <= n)%nat ->
  exists s', rtc step s s' /\ List.existsb is_fault_found (sy_work s') = false
    /\ sy_caller s' = sy_caller s /\ sy_watch s' = sy_watch s.
Proof.
  induction n as [|n IH]; intros s Hn.
  - exists s. split_and!; [done| |done|done]. apply existsb_false. intros x Hx. destruct (is_fault_found x) eqn:E; [|done].
    assert (In x (List.filter is_fault_found (sy_work s))) as H by by apply filter_In.
    destruct (List.filter is_fault_found (sy_work s)); cbn in *; [done|lia].
  - destruct (List.existsb is_fault_found (sy_work s)) eqn:E; [|by exists s].
    apply fault_split in E as (w1 & l & w2 & E).
    destruct (on_control (finish l) (sy_runtime s)) as [ok r] eqn:Ef.
    destruct (IH (s <| sy_runtime := if ok then complete l r else r |> <| sy_work := w1 ++ w2 |>)) as (s' & H & ?).
    { cbn. rewrite E, !List.filter_app, !length_app in *. cbn in Hn. lia. }
    exists s'. split; [|done]. eapply rtc_l; [by eapply step_fault_finish|done].
Qed.

(** No thread executes a run any more: the caller has handed it over or has
    given up, the task has ended. *)
Definition unattended (s : Sys) : Prop := forall lease, ~ executes s lease.
Lemma caller_ends s : unattended s -> task_locked s = false ->
  exists s', rtc step s s' /\ sy_caller s' = NoCaller /\ sy_watch s' = sy_watch s /\ sy_work s' = sy_work s.
Proof.
  intros Hu Hl. destruct (sy_caller s) as [|l|l|l|l] eqn:Ec.
  - by exists s.
  - exfalso. apply (Hu l). by left.
  - eexists. split; [by eapply rtc_once, step_finish|done].
  - destruct (on_control (recover_locked l) (sy_runtime s)) as [ok r] eqn:Er.
    assert (Hstep := step_recover s l ok r Ec Er). destruct ok; [|eexists; split; [by apply rtc_once|done]].
    destruct (on_control (finish l) r) as [fin r'] eqn:Ef.
    eexists. split; [eapply rtc_l; [done|]; eapply rtc_once, step_recovered; [done|exact Ef]|done].
  - destruct (on_control (finish l) (sy_runtime s)) as [fin r] eqn:Ef.
    eexists. split; [by eapply rtc_once, step_recovered|done].
Qed.
Lemma watch_ends s : sy_caller s = NoCaller -> unattended s -> List.existsb is_fault_found (sy_work s) = false ->
  exists s', rtc step s s' /\ sy_caller s' = NoCaller /\ sy_watch s' = NoWatch /\ sy_work s' = sy_work s.
Proof.
  intros Hc Hu Hf. destruct (sy_watch s) as [|l|l o|l v] eqn:Ew.
  - by exists s.
  - exfalso. apply (Hu l). by right.
  - eexists. split; [eapply rtc_l; [eapply step_decide; [exact Ew|unfold task_locked; by rewrite Ew, Hf]|]|].
    + eapply rtc_once, step_apply. reflexivity.
    + done.
  - eexists. split; [by eapply rtc_once, step_apply|done].
Qed.
Lemma threads_end s : reachable s -> unattended s ->
  exists s', rtc step s s' /\ quiet s'.
Proof.
  intros Hr Hu. destruct (faults_end _ s (le_n _)) as (s1 & H1 & Hf1 & Hc1 & Hw1).
  assert (Hu1 : unattended s1) by (intros l; unfold executes; rewrite Hc1, Hw1; apply Hu).
  assert (Hr1 : reachable s1) by by eapply reach_from.
  destruct (reach_threads s1 Hr1) as [[_ _ T3] _].
  assert (sy_caller s1 = NoCaller \/ sy_watch s1 = NoWatch) as [Ec|Ew].
  { destruct (sy_caller s1); [by left|right; by apply T3..]. }
  - destruct (watch_ends s1 Ec Hu1 Hf1) as (s2 & H2 & Hc2 & Hw2 & Hk2).
    exists s2. split; [by etrans|]. unfold quiet. by rewrite Hc2, Hw2, Hk2.
  - destruct (caller_ends s1 Hu1) as (s2 & H2 & Hc2 & Hw2 & Hk2); [unfold task_locked; by rewrite Ew, Hf1|].
    exists s2. split; [by etrans|]. unfold quiet. by rewrite Hc2, Hw2, Hk2.
Qed.
Lemma begin_admitted generated requested client sequence c :
  already_accepted (rc_state c) (default "" client) = false ->
  (forall a, active_run c = Some a -> ar_phase a = CancellationStuck) ->
  exists lease c', begin_with_sequence generated requested client sequence c = (inr lease, c').
Proof.
  intros Ha Hs. unfold begin_with_sequence. rewrite Ha. unfold admit_run.
  destruct (active_run c) as [a|]; [|by do 2 eexists]. unfold is_phase. rewrite bool_decide_true by by apply Hs.
  by do 2 eexists.
Qed.

Lemma begin_step s : sy_caller s = NoCaller -> task_locked s = false -> rt_task (sy_runtime s) = None ->
  forall generated requested client (sequence : option u64),
  already_accepted (rc_state (the_control s)) (default "" client) = false ->
  (forall a, active_run (the_control s) = Some a -> ar_phase a = CancellationStuck) ->
  exists lease s', step s s' /\ sy_caller s' = Accepted lease /\ active_of (the_control s') = Some lease
    /\ rl_run_id lease = default generated (nonempty requested).
Proof.
  intros Hc Hl Ht generated requested client sequence Hacc Hs.
  destruct (begin_admitted generated requested client sequence (the_control s) Hacc Hs) as (lease & c' & Hb).
  exists lease. eexists. split; [eapply step_begin; [done..|]; unfold on_control; unfold the_control in Hb; by rewrite Hb|].
  unfold the_control. cbn. apply begin_spec in Hb as Hspec. destruct Hspec as (_ & _ & _ & _ & Hact & _).
  split; [done|]. split; [unfold active_of; by rewrite Hact|].
  revert Hb. clear. unfold begin_with_sequence. destruct (already_accepted _ _); [done|].
  destruct (admit_run _); [done|]. by intros [= <- _].
Qed.

(** The session accepts every request that is not a repetition. *)
Definition admits (s : Sys) : Prop :=
  forall generated requested client (sequence : option u64),
    already_accepted (rc_state (the_control s)) (default "" client) = false ->
    exists lease s', step s s' /\ sy_caller s' = Accepted lease /\ active_of (the_control s') = Some lease
      /\ rl_run_id lease = default generated (nonempty requested).
Lemma quiet_admits s : threads_ok s -> quiet s ->
  (forall a, active_run (the_control s) = Some a -> ar_phase a = CancellationStuck) -> admits s.
Proof.
  intros HT Hq Hs generated requested client sequence Hacc. destruct (quiet_free s HT Hq) as [Hl Ht].
  destruct Hq as [Hc _]. exact (begin_step s Hc Hl Ht generated requested client sequence Hacc Hs).
Qed.
(** Recovering a degraded run in a quiet state releases it. *)
Lemma recovery_frees s a : threads_ok s -> quiet s ->
  active_run (the_control s) = Some a -> ar_phase a = PersistenceDegraded ->
  exists s', rtc step s s' /\ quiet s' /\ active_run (the_control s') = None
    /\ runtime_recover (ar_lease a) (sy_runtime s) = (true, sy_runtime s').
Proof.
  intros HT Hq Ha Hp. destruct (quiet_free s HT Hq) as [Hl Ht]. destruct Hq as (Hc & Hw & Hf).
  assert (Hh : holds_lease (ar_lease a) (the_control s) = Some a) by (by apply holds_lease_some).
  assert (E1 : recover_locked (ar_lease a) (the_control s) = (true, set_phase Finalizing a (the_control s))).
  { unfold recover_locked. rewrite Hh. unfold is_phase. by rewrite bool_decide_true. }
  set (c1 := set_phase Finalizing a (the_control s)) in *.
  assert (Hh1 : holds_lease (ar_lease a) c1 = Some (a <| ar_phase := Finalizing |>)) by by apply holds_lease_some.
  destruct (finish (ar_lease a) c1) as [ok c2] eqn:E2.
  assert (ok = true /\ active_run c2 = None) as [-> Hn].
  { unfold finish in E2. rewrite Hh1 in E2. by injection E2 as <- <-. }
  eexists. split.
  - eapply rtc_l; [by apply (step_recover_check s (ar_lease a))|].
    eapply rtc_l; [eapply step_recover; [done|unfold on_control; cbn; unfold the_control in E1; by rewrite E1]|].
    eapply rtc_l; [eapply step_recovered; [done|unfold on_control; cbn; fold c1; by rewrite E2]|]. apply rtc_refl.
  - cbn. split; [done|]. split.
    + unfold the_control. cbn. by rewrite (proj1 (complete_control _ _)).
    + unfold runtime_recover, has_owned_task.
      rewrite bool_decide_false by (rewrite Ht; by intros [? ?]).
      unfold on_control, recover_persistence_degraded.
      unfold the_control in E1. rewrite E1. fold c1. by rewrite E2.
Qed.

(** C23: a session is never locked by a run nobody executes: when no caller and
    no task holds the run any more, the remaining threads can come to an end by
    themselves, and then every request that is not a repetition is accepted; or
    the run is fenced off because its outcome could not be stored, and then
    recovering it succeeds, leaves no active run, and every request that is not
    a repetition is accepted. *)
Theorem an_ended_run_frees_its_session s : reachable s -> unattended s ->
  exists s', rtc step s s' /\ quiet s'
    /\ (admits s'
        \/ exists a s'', active_run (the_control s') = Some a /\ ar_phase a = PersistenceDegraded
             /\ runtime_recover (ar_lease a) (sy_runtime s') = (true, sy_runtime s'')
             /\ rtc step s' s'' /\ quiet s'' /\ active_run (the_control s'') = None /\ admits s'').
Proof.
  intros Hr Hu. destruct (threads_end s Hr Hu) as (s' & Hs & Hq). exists s'. split_and!; [done|done|].
  destruct (reach_threads s') as [HT HA]; [by eapply reach_from|].
  assert (Hfaulty : forall a, active_run (the_control s') = Some a -> faulty (ar_phase a)).
  { intros a Ha. destruct (HA a Ha) as [Hh|]; [|done]. destruct Hq as (Hc & Hw & _).
    unfold carried in Hh. rewrite Hc, Hw in Hh. naive_solver. }
  destruct (active_run (the_control s')) as [a|] eqn:Ea.
  2: left; apply quiet_admits; [done|done|by rewrite Ea].
  destruct (Hfaulty a eq_refl) as [Hp|Hp].
  - left. apply quiet_admits; [done|done|]. rewrite Ea. naive_solver.
  - right. destruct (recovery_frees s' a HT Hq Ea Hp) as (s'' & Hs2 & Hq2 & Hn & Hrec).
    exists a, s''. split_and!; try done. apply quiet_admits; [|done|by rewrite Hn].
    apply reach_threads. eapply reach_from; [|done]. by eapply reach_from.
Qed.

(** * What breaks the fence *)
Lemma begin_refused generated requested client sequence c a :
  active_run c = Some a -> ar_phase a <> CancellationStuck ->
  exists error, begin_with_sequence generated requested client sequence c = (inl error, c).
Proof.
  intros Ha Hp. unfold begin_with_sequence. destruct (already_accepted _ _); [by eexists|].
  unfold admit_run. rewrite Ha. unfold is_phase. rewrite bool_decide_false by done. by eexists.
Qed.
(** C37: the fence of a degraded run does not hold: a cancellation timer that
    has seen the run still cancelling marks it stuck after its outcome could not
    be stored, and the next request is accepted and releases it.  Before the
    mark every request is refused. *)
Theorem a_late_timer_breaks_the_fence s lease a w1 w2 :
  reachable s -> quiet s -> sy_work s = w1 ++ TimerChecked lease :: w2 ->
  active_run (the_control s) = Some a -> ar_lease a = lease -> ar_phase a = PersistenceDegraded ->
  (forall generated requested client (sequence : option u64), exists error,
     begin_with_sequence generated requested client sequence (the_control s) = (inl error, the_control s))
  /\ exists s', step s s' /\ forall generated requested client (sequence : option u64),
       already_accepted (rc_state (the_control s')) (default "" client) = false ->
       exists new s'', step s' s'' /\ active_of (the_control s'') = Some new
         /\ rl_run_id new = default generated (nonempty requested).
Proof.
  intros Hr Hq Hk Ha Hl Hp. destruct (reach_threads s Hr) as [HT _]. destruct (quiet_free s HT Hq) as [Hlock Ht].
  destruct Hq as (Hc & Hw & Hf). split.
  { intros. eapply begin_refused; [done|by rewrite Hp]. }
  eexists. split; [by eapply step_timer_mark|]. intros g q cl sq Hacc.
  match goal with |- context [step ?s' _] =>
    destruct (begin_step s') with (generated := g) (requested := q) (client := cl) (sequence := sq)
      as (new & s'' & H1 & _ & H2 & H3) end; [done| | |done| |by eauto].
  - unfold task_locked. cbn. rewrite Hw. rewrite Hk, existsb_fault_app in Hf. done.
  - unfold runtime_mark_stuck. cbn. by rewrite (proj2 (on_control_snd _ _)).
  - intros b. unfold the_control, runtime_mark_stuck. cbn. rewrite (proj1 (on_control_snd _ _)), stuck_active.
    unfold the_control in Ha. rewrite Ha. cbn. intros [= <-]. unfold with_phase. by rewrite bool_decide_true.
Qed.

(** * A concrete run

    It begins, installs its targets, is stopped by the user, fails to store its
    outcome and ends while the timer of the stop is about to mark it. *)
Definition demo_lease : RunLease := mkLease "run-1" 1 None.
Definition demo_active (p : RunPhase) : ActiveRun :=
  mkActive demo_lease "request-1" p (Some 1%nat) (Some 2%nat) (Some User).

Ltac run_until_stopped :=
  eapply rtc_l; [eapply (step_begin _ "generated" (Some "run-1") (Some "request-1") None); reflexivity|];
  eapply rtc_l; [eapply (step_install _ demo_lease 1 2); [by left|reflexivity]|];
  eapply rtc_l; [eapply (step_spawn _ demo_lease); reflexivity|];
  eapply rtc_l; [eapply (step_cancel _ (Some "run-1") false); reflexivity|];
  eapply rtc_l; [eapply (step_send _ [] []); reflexivity|];
  eapply rtc_l; [eapply (step_raise _ [] []); reflexivity|];
  eapply rtc_l; [eapply (step_arm _ [] [] _ 7); reflexivity|].
Ltac run_until_late :=
  eapply rtc_l; [eapply (step_timer_due _ [] []); reflexivity|];
  eapply rtc_l; [eapply (step_degraded _ demo_lease); by right|];
  eapply rtc_l; [eapply (step_exit _ demo_lease Returned); reflexivity|].
Lemma stopped_state : exists s, reachable s /\ sy_work s = [TimerSleeping 7 demo_lease]
  /\ active_run (the_control s) = Some (demo_active Cancelling) /\ sy_issued s = [demo_lease].
Proof. eexists. split; [run_until_stopped; apply rtc_refl|]. done. Qed.
Lemma ended_state : exists s, reachable s /\ unattended s
  /\ active_run (the_control s) = Some (demo_active PersistenceDegraded).
Proof.
  eexists. split; [run_until_stopped; run_until_late; apply rtc_refl|].
  split; [|done]. by intros lease [H|H].
Qed.
Lemma late_state : exists s, reachable s /\ quiet s /\ sy_work s = [TimerChecked demo_lease]
  /\ active_run (the_control s) = Some (demo_active PersistenceDegraded).
Proof.
  eexists. split.
  { run_until_stopped; run_until_late. eapply rtc_l; [eapply step_decide; reflexivity|].
    eapply rtc_l; [eapply step_apply; reflexivity|]. apply rtc_refl. }
  done.
Qed.

Lemma one_run_per_session_witness : exists s, reachable s
  /\ rc_is_streaming (the_control s) = true /\ active_task_count (the_control s) = 1.
Proof.
  destruct stopped_state as (s & Hr & _ & Ha & _). exists s. split; [done|].
  destruct (one_run_per_session s Hr) as (H1 & H2 & _). by rewrite H2, H1, Ha.
Defined.
Lemma a_user_stop_stands_witness : exists s, reachable s
  /\ forall s', rtc step s s' -> len (sy_issued s') <= u64_max ->
       holds_lease demo_lease (the_control s') = None
       \/ cancellation_kind demo_lease (the_control s') = Some User.
Proof.
  destruct stopped_state as (s & Hr & _ & Ha & _). exists s. split; [done|].
  intros s' Hs Hmax. apply (a_user_stop_stands s s' demo_lease Hr Hs Hmax).
  unfold cancellation_kind, holds_lease. by rewrite Ha.
Defined.
Lemma a_cancelled_run_is_signalled_witness : exists s, reachable s
  /\ 2%nat ∈ sg_raised (sy_signals s) /\ 1%nat ∈ sg_sent (sy_signals s).
Proof.
  destruct stopped_state as (s & Hr & Hk & Ha & _). exists s. split; [done|].
  destruct (a_cancelled_run_is_signalled s (demo_active Cancelling) Hr Ha eq_refl) as [Hf Ht].
  - rewrite Hk. by intros w [<-|[]].
  - split; [by apply Hf|by apply Ht].
Defined.
Lemma an_ended_run_frees_its_session_witness : exists s, reachable s /\ unattended s
  /\ exists s', rtc step s s' /\ quiet s' /\ exists s'', rtc step s' s'' /\ admits s''.
Proof.
  destruct ended_state as (s & Hr & Hu & _). exists s. split; [done|]. split; [done|].
  destruct (an_ended_run_frees_its_session s Hr Hu) as (s' & H1 & H2 & [H3|(a & s'' & _ & _ & _ & H4 & _ & _ & H5)]);
    exists s'; (split; [done|]); (split; [done|]); [by exists s'|by exists s''].
Defined.
Lemma a_late_timer_breaks_the_fence_witness : exists s, reachable s
  /\ active_run (the_control s) = Some (demo_active PersistenceDegraded)
  /\ exists s' s'' new, step s s' /\ step s' s'' /\ active_of (the_control s'') = Some new
       /\ rl_run_id new = "run-2".
Proof.
  destruct late_state as (s & Hr & Hq & Hk & Ha). exists s. split; [done|]. split; [done|].
  destruct (a_late_timer_breaks_the_fence s demo_lease _ [] [] Hr Hq Hk Ha eq_refl eq_refl) as (_ & s' & H1 & H2).
  exists s'. destruct (H2 "generated" (Some "run-2") (Some "") None eq_refl) as (new & s'' & H3 & H4 & H5).
  exists s'', new. done.
Defined.
