(* ===== verification/SseDecoder.v ===== *)
(** Decoding the provider's event stream (llm/sse.rs): bytes arrive in pieces of
    any size, lines end in a newline, an empty line ends a frame.  Bytes are
    [ascii]s; a decoder that failed is not used again, so an error is returned
    without it.  How an invalid line is described is an argument. *)
From S2P Require Import Prelude.

Definition MAX_EVENT_BYTES : Z := 8 * 1024 * 1024.
Record SseFrame := mkFrame { sf_event : option string; sf_data : string }.
Record SseDecoder := mkDecoder {
  sd_buffer : list ascii;
  sd_scanned : nat;
  sd_event : option string;
  sd_data : list string;
  sd_event_bytes : u64
}.
#[export] Instance eta_SseDecoder : Eta SseDecoder := fun d =>
  mkDecoder (sd_buffer d) (sd_scanned d) (sd_event d) (sd_data d) (sd_event_bytes d).
Definition decoder_default : SseDecoder := mkDecoder [] 0 None [] 0.

Definition is_newline (c : ascii) : bool := Ascii.eqb c "010"%char.
Fixpoint find_byte (p : ascii -> bool) (l : list ascii) : option nat :=
  match l with
  | [] => None
  | c :: l => if p c then Some O else S <$> find_byte p l
  end.
Definition strip_return (line : list ascii) : list ascii :=
  match last line with
  | Some c => if Ascii.eqb c "013"%char then removelast line else line
  | None => line
  end.

(** [std::str::from_utf8]: well-formed sequences of the Unicode standard. *)
Definition in_range (lo hi : N) (b : N) : bool := (lo <=? b)%N && (b <=? hi)%N.
Definition tail_byte : N -> bool := in_range 128 191.
Fixpoint utf8_ok (fuel : nat) (l : list N) : bool :=
  match fuel with
  | O => is_empty l
  | S fuel =>
      match l with
      | [] => true
      | a :: l =>
          if (a <? 128)%N then utf8_ok fuel l
          else match l with
               | b :: l =>
                   if in_range 194 223 a then tail_byte b && utf8_ok fuel l
                   else match l with
                        | c :: l =>
                            if in_range 224 239 a then
                              (if (a =? 224)%N then in_range 160 191 b
                               else if (a =? 237)%N then in_range 128 159 b else tail_byte b)
                              && tail_byte c && utf8_ok fuel l
                            else match l with
                                 | d :: l =>
                                     in_range 240 244 a
                                     && (if (a =? 240)%N then in_range 144 191 b
                                         else if (a =? 244)%N then in_range 128 143 b else tail_byte b)
                                     && tail_byte c && tail_byte d && utf8_ok fuel l
                                 | [] => false
                                 end
                        | [] => false
                        end
               | [] => false
               end
      end
  end.
Definition from_utf8 (line : list ascii) : option string :=
  let bytes := List.map N_of_ascii line in
  if utf8_ok (List.length bytes) bytes then Some (string_of_list_ascii line) else None.

(** A field and its value, without the space that may follow the colon. *)
Definition field_value (line : string) : string * string :=
  match split_once ":" line with
  | Some (field, value) => (field, default value (strip_prefix " " value))
  | None => (line, "")
  end.

Definition finish_frame (d : SseDecoder) : option SseFrame * SseDecoder :=
  let d := d <| sd_event_bytes := 0 |> in
  if negb (bool_decide (is_Some (sd_event d))) && is_empty (sd_data d) then (None, d)
  else (Some {| sf_event := sd_event d; sf_data := join (String "010" "") (sd_data d) |},
        d <| sd_event := None |> <| sd_data := [] |>).

Section Decoder.
Variable utf8_error : list ascii -> string.
Definition too_long : string := "SSE event exceeded " +:+ show MAX_EVENT_BYTES +:+ " bytes".

(** One complete line, without its newline. *)
Definition take_field (line : string) (d : SseDecoder) : SseDecoder :=
  let '(field, value) := field_value line in
  if field =?s "event" then d <| sd_event := Some value |>
  else if field =?s "data" then d <| sd_data ::= fun data => data ++ [value] |>
  else d.
Definition take_line (line : list ascii) (d : SseDecoder) : string + (option SseFrame * SseDecoder) :=
  let line := strip_return line in
  match from_utf8 line with
  | None => inl ("provider returned invalid UTF-8 in SSE frame: " +:+ utf8_error line)
  | Some line =>
      if line =?s "" then inr (finish_frame d)
      else
        let d := d <| sd_event_bytes ::= fun n => u64_sat_add n (Z.of_nat (String.length line) + 1) |> in
        if MAX_EVENT_BYTES <? sd_event_bytes d then inl too_long
        else if starts_with ":" line then inr (None, d)
        else inr (None, take_field line d)
  end.
(** The loop over the newlines; [fuel] bounds its rounds. *)
Fixpoint line_loop (fuel consumed : nat) (d : SseDecoder) (frames : list SseFrame)
    : string + (nat * SseDecoder * list SseFrame) :=
  match fuel with
  | O => inr (consumed, d, frames)
  | S fuel =>
      match find_byte is_newline (drop (sd_scanned d) (sd_buffer d)) with
      | None => inr (consumed, d, frames)
      | Some relative =>
          let newline := (sd_scanned d + relative)%nat in
          let line := take (newline - consumed) (drop consumed (sd_buffer d)) in
          match take_line line (d <| sd_scanned := S newline |>) with
          | inl error => inl error
          | inr (frame, d) => line_loop fuel (S newline) d (frames ++ option_list frame)
          end
      end
  end.
Definition push (bytes : list ascii) (d : SseDecoder) : string + (list SseFrame * SseDecoder) :=
  let d := d <| sd_buffer ::= fun buffer => buffer ++ bytes |> in
  if MAX_EVENT_BYTES <? len (sd_buffer d) then inl too_long
  else match line_loop (S (List.length (sd_buffer d))) 0 d [] with
       | inl error => inl error
       | inr (consumed, d, frames) =>
           let d := d <| sd_buffer ::= drop consumed |> in
           inr (frames, d <| sd_scanned := List.length (sd_buffer d) |>)
       end.
Definition finish_decoder (d : SseDecoder) : string + (list SseFrame * SseDecoder) :=
  if is_empty (sd_buffer d) then let '(frame, d) := finish_frame d in inr (option_list frame, d)
  else match push [] (d <| sd_buffer ::= fun buffer => buffer ++ ["010"%char] |>) with
       | inl error => inl error
       | inr (frames, d) => let '(frame, d) := finish_frame d in inr (frames ++ option_list frame, d)
       end.
(** The pieces of a stream, one after the other. *)
Fixpoint decode (pieces : list (list ascii)) (d : SseDecoder) : string + (list SseFrame * SseDecoder) :=
  match pieces with
  | [] => inr ([], d)
  | piece :: pieces =>
      match push piece d with
      | inl error => inl error
      | inr (frames, d) =>
          match decode pieces d with
          | inl error => inl error
          | inr (more, d) => inr (frames ++ more, d)
          end
      end
  end.
End Decoder.
