(* ===== verification/SseProps.v ===== *)
(** The frames of an event stream do not depend on how its bytes arrive, as long
    as no piece meets the decoder's length limit. *)
From S2P Require Import Prelude SseDecoder.

Section Stream.
Variable utf8_error : list ascii -> string.
Abbreviation take_line := (take_line utf8_error).
Abbreviation push := (push utf8_error).
Abbreviation decode := (decode utf8_error).

(** * The reference: the stream cut into lines *)
Fixpoint split_lines (l : list ascii) : list (list ascii) * list ascii :=
  match l with
  | [] => ([], [])
  | c :: l =>
      let '(lines, tail) := split_lines l in
      if is_newline c then ([] :: lines, tail)
      else match lines with
           | line :: lines => ((c :: line) :: lines, tail)
           | [] => ([], c :: tail)
           end
  end.
(** What a decoder remembers besides the bytes it holds. *)
Definition blank (d : SseDecoder) : SseDecoder := d <| sd_buffer := [] |> <| sd_scanned := O |>.
Fixpoint take_lines (lines : list (list ascii)) (d : SseDecoder) : string + (list SseFrame * SseDecoder) :=
  match lines with
  | [] => inr ([], d)
  | line :: lines =>
      match take_line line d with
      | inl error => inl error
      | inr (frame, d) =>
          match take_lines lines d with
          | inl error => inl error
          | inr (frames, d) => inr (option_list frame ++ frames, d)
          end
      end
  end.

Lemma split_lines_app a b :
  let '(lines, tail) := split_lines a in
  let '(more, tail') := split_lines (tail ++ b) in
  split_lines (a ++ b) = (lines ++ more, tail').
Proof.
  induction a as [|c a IH]; cbn; [by destruct (split_lines b)|].
  destruct (split_lines a) as [lines tail]. destruct (is_newline c) eqn:N.
  - destruct (split_lines (tail ++ b)) as [more tail']. by rewrite IH.
  - destruct lines as [|line lines].
    + cbn. destruct (split_lines (tail ++ b)) as [more tail']. rewrite IH, N. cbn. by destruct more.
    + cbn. destruct (split_lines (tail ++ b)) as [more tail']. by rewrite IH.
Qed.
Lemma split_lines_tail l lines tail : split_lines l = (lines, tail) -> find_byte is_newline tail = None.
Proof.
  revert lines tail. induction l as [|c l IH]; cbn; intros lines tail; [by intros [= _ <-]|].
  destruct (split_lines l) as [ls t]. specialize (IH ls t eq_refl).
  destruct (is_newline c) eqn:N; [by intros [= _ <-]|].
  destruct ls as [|x ls]; intros [= _ <-]; [|done]. cbn. by rewrite N, IH.
Qed.
Lemma split_lines_none l : find_byte is_newline l = None -> split_lines l = ([], l).
Proof.
  induction l as [|c l IH]; cbn; [done|]. destruct (is_newline c) eqn:N; [done|].
  destruct (find_byte is_newline l); [done|]. intros _. by rewrite IH.
Qed.
Lemma split_lines_some l n : find_byte is_newline l = Some n ->
  split_lines l = (take n l :: fst (split_lines (drop (S n) l)), snd (split_lines (drop (S n) l)))
  /\ (n < List.length l)%nat.
Proof.
  revert n. induction l as [|c l IH]; cbn; intros n; [done|]. destruct (is_newline c) eqn:N.
  - intros [= <-]. rewrite drop_0. destruct (split_lines l). split; [done|lia].
  - destruct (find_byte is_newline l) as [m|]; [|done]. intros [= <-].
    destruct (IH m eq_refl) as [-> H]. split; [done|lia].
Qed.

(** * Fields and bytes *)
Lemma take_line_keeps line d buffer scanned :
  take_line line (d <| sd_buffer := buffer |> <| sd_scanned := scanned |>) =
  match take_line line d with
  | inl error => inl error
  | inr (frame, d') => inr (frame, d' <| sd_buffer := buffer |> <| sd_scanned := scanned |>)
  end.
Proof.
  unfold SseDecoder.take_line. destruct (from_utf8 _) as [s|]; [|done]. destruct (s =?s ""); cbn.
  - unfold finish_frame. cbn. by destruct (negb _ && _).
  - destruct (MAX_EVENT_BYTES <? _); [done|]. destruct (starts_with ":" s); [done|].
    unfold take_field. destruct (field_value s) as [field value].
    destruct (field =?s "event"); [done|]. by destruct (field =?s "data").
Qed.
Definition holding (buffer : list ascii) (scanned : nat) (d : SseDecoder) : SseDecoder :=
  d <| sd_buffer := buffer |> <| sd_scanned := scanned |>.
Lemma holding_blank d : holding (sd_buffer d) (sd_scanned d) (blank d) = d.
Proof. by destruct d. Qed.
Lemma blank_holding b n d : blank (holding b n d) = blank d.
Proof. done. Qed.
Lemma blank_blank d : sd_buffer d = [] -> sd_scanned d = O -> blank d = d.
Proof. destruct d. cbn. by intros -> ->. Qed.
Lemma take_line_blank line d :
  take_line line d = match take_line line (blank d) with
                     | inl error => inl error
                     | inr (frame, d') => inr (frame, holding (sd_buffer d) (sd_scanned d) d')
                     end.
Proof. rewrite <- (holding_blank d) at 1. apply take_line_keeps. Qed.
Lemma take_line_stays line d frame d' :
  take_line line d = inr (frame, d') -> sd_buffer d' = sd_buffer d /\ sd_scanned d' = sd_scanned d.
Proof. rewrite take_line_blank. destruct (take_line line (blank d)) as [|[f e]]; [done|]. by intros [= _ <-]. Qed.

Lemma line_loop_spec fuel : forall consumed d frames,
  (consumed <= sd_scanned d)%nat -> (sd_scanned d <= List.length (sd_buffer d))%nat ->
  find_byte is_newline (take (sd_scanned d - consumed) (drop consumed (sd_buffer d))) = None ->
  (List.length (sd_buffer d) - sd_scanned d < fuel)%nat ->
  let '(lines, tail) := split_lines (drop consumed (sd_buffer d)) in
  match take_lines lines (blank d) with
  | inl error => line_loop utf8_error fuel consumed d frames = inl error
  | inr (fs, d') => exists n,
      line_loop utf8_error fuel consumed d frames =
        inr ((List.length (sd_buffer d) - List.length tail)%nat, holding (sd_buffer d) n d', frames ++ fs)
  end.
Proof.
  induction fuel as [|fuel IH]; intros consumed d frames Hc Hs Hn Hf; [lia|].
  set (rest := drop consumed (sd_buffer d)) in *.
  assert (Hdrop : drop (sd_scanned d) (sd_buffer d) = drop (sd_scanned d - consumed) rest).
  { unfold rest. rewrite drop_drop. f_equal. lia. }
  assert (Hfind : find_byte is_newline rest =
    (fun n => (sd_scanned d - consumed + n)%nat) <$> find_byte is_newline (drop (sd_scanned d) (sd_buffer d))).
  { rewrite Hdrop. assert (Hlen : (sd_scanned d - consumed <= List.length rest)%nat)
      by (unfold rest; rewrite length_drop; lia).
    revert Hlen Hn. generalize (sd_scanned d - consumed)%nat as k. clear. induction rest as [|c l IH]; intros [|k] Hlen Hn.
    - done.
    - cbn in Hlen. lia.
    - cbn. destruct (is_newline c); [done|]. by destruct (find_byte is_newline l).
    - cbn in *. destruct (is_newline c); [done|]. destruct (find_byte is_newline (take k l)) eqn:E; [done|].
      rewrite (IH k) by (done || lia). by destruct (find_byte is_newline (drop k l)). }
  cbn [line_loop]. destruct (find_byte is_newline (drop (sd_scanned d) (sd_buffer d))) as [relative|]; cbn in Hfind.
  - destruct (split_lines_some _ _ Hfind) as [Hsplit Hlt]. rewrite Hsplit.
    assert (Hrest : List.length rest = (List.length (sd_buffer d) - consumed)%nat) by apply length_drop.
    replace (sd_scanned d + relative - consumed)%nat with (sd_scanned d - consumed + relative)%nat by lia.
    set (line := take (sd_scanned d - consumed + relative) rest).
    cbn [take_lines]. rewrite (take_line_blank line (d <| sd_scanned := _ |>)).
    change (blank (d <| sd_scanned := S (sd_scanned d + relative) |>)) with (blank d).
    destruct (take_line line (blank d)) as [error|[frame d1]] eqn:Hl; [done|].
    apply take_line_stays in Hl as [Hb1 Hs1].
    match goal with |- context [line_loop _ fuel _ ?x _] => set (d2 := x) end.
    assert (Hd2 : sd_buffer d2 = sd_buffer d /\ sd_scanned d2 = S (sd_scanned d + relative) /\ blank d2 = d1).
    { split_and!; [done|done|]. unfold d2. rewrite blank_holding. by apply blank_blank. }
    destruct Hd2 as (H1 & H2 & H3).
    specialize (IH (S (sd_scanned d + relative)) d2 (frames ++ option_list frame)).
    rewrite H1, H2, H3 in IH. specialize (IH ltac:(lia) ltac:(lia)).
    rewrite Nat.sub_diag in IH. specialize (IH eq_refl ltac:(lia)).
    replace (drop (S (sd_scanned d - consumed + relative)) rest)
      with (drop (S (sd_scanned d + relative)) (sd_buffer d)) by (unfold rest; rewrite drop_drop; f_equal; lia).
    destruct (split_lines (drop (S (sd_scanned d + relative)) (sd_buffer d))) as [lines tail]. cbn [fst snd].
    destruct (take_lines lines d1) as [error|[fs d3]]; [done|]. destruct IH as [n IH]. exists n. rewrite IH.
    by rewrite <- app_assoc.
  - rewrite (split_lines_none _ Hfind). cbn. exists (sd_scanned d).
    rewrite app_nil_r, holding_blank. unfold rest. rewrite length_drop. do 3 f_equal. lia.
Qed.

(** * Pieces *)
(** Between two pieces the decoder holds an unfinished line, already searched. *)
Definition resting (d : SseDecoder) : Prop :=
  sd_scanned d = List.length (sd_buffer d) /\ find_byte is_newline (sd_buffer d) = None.
Definition decode_whole (l : list ascii) (d : SseDecoder) : string + (list SseFrame * SseDecoder) :=
  let '(lines, tail) := split_lines l in
  match take_lines lines (blank d) with
  | inl error => inl error
  | inr (frames, d') => inr (frames, holding tail (List.length tail) d')
  end.
Lemma find_byte_app l l' : find_byte is_newline l = None ->
  find_byte is_newline (l ++ l') = (fun n => (List.length l + n)%nat) <$> find_byte is_newline l'.
Proof.
  induction l as [|c l IH]; cbn; intros H; [by destruct (find_byte is_newline l')|].
  destruct (is_newline c); [done|]. destruct (find_byte is_newline l) eqn:E; [done|]. rewrite IH by done.
  by destruct (find_byte is_newline l').
Qed.
Lemma split_no_lines l tail : split_lines l = ([], tail) -> tail = l.
Proof.
  revert tail. induction l as [|c l IH]; cbn; intros tail; [by intros [= <-]|].
  destruct (split_lines l) as [ls t]. destruct (is_newline c); [done|].
  destruct ls; [|done]. intros [= <-]. f_equal. by apply IH.
Qed.
Lemma split_tail_suffix l lines tail : split_lines l = (lines, tail) ->
  (List.length tail <= List.length l)%nat /\ drop (List.length l - List.length tail) l = tail.
Proof.
  revert lines tail. induction l as [|c l IH]; cbn [split_lines]; intros lines tail; [by intros [= _ <-]|].
  destruct (split_lines l) as [ls t] eqn:El. destruct (IH ls t eq_refl) as [Hn Ht].
  assert (Hdrop : (List.length t <= List.length (c :: l))%nat
                  /\ drop (List.length (c :: l) - List.length t) (c :: l) = t).
  { cbn [List.length]. split; [lia|]. by replace (S (List.length l) - List.length t)%nat
      with (S (List.length l - List.length t)) by lia. }
  destruct (is_newline c); [by intros [= _ <-]|]. destruct ls; intros [= _ <-]; [|done].
  apply split_no_lines in El as ->. split; [done|]. by rewrite Nat.sub_diag.
Qed.
Lemma push_spec bytes d : resting d ->
  push bytes d = if MAX_EVENT_BYTES <? len (sd_buffer d ++ bytes) then inl too_long
                 else decode_whole (sd_buffer d ++ bytes) d.
Proof.
  intros [Hs Hn]. unfold SseDecoder.push, decode_whole. cbv zeta.
  set (d1 := d <| sd_buffer ::= fun buffer => buffer ++ bytes |>).
  pose proof (line_loop_spec (S (List.length (sd_buffer d1))) 0 d1 []) as H.
  assert (Hb : sd_buffer d1 = sd_buffer d ++ bytes) by done. assert (Hc : sd_scanned d1 = sd_scanned d) by done.
  rewrite drop_0, Nat.sub_0_r in H. specialize (H ltac:(lia)).
  rewrite Hb, Hc, Hs in H. rewrite length_app in H. specialize (H ltac:(lia)).
  rewrite take_app_length in H. specialize (H Hn ltac:(lia)). rewrite <- length_app in H.
  change (blank d1) with (blank d) in H. rewrite Hb. destruct (_ <? _); [done|].
  destruct (split_lines (sd_buffer d ++ bytes)) as [lines tail] eqn:E.
  destruct (take_lines lines (blank d)) as [error|[fs d']]; [by rewrite H|]. destruct H as [n ->].
  apply split_tail_suffix in E as [_ E]. unfold holding. cbn. by rewrite E.
Qed.
Lemma whole_resting l d fs d' : decode_whole l d = inr (fs, d') -> resting d'
  /\ sd_buffer d' = snd (split_lines l).
Proof.
  unfold decode_whole. destruct (split_lines l) as [lines tail] eqn:E.
  destruct (take_lines lines (blank d)) as [|[f e]]; [done|]. intros [= _ <-].
  split; [|done]. split; [done|]. by eapply split_lines_tail.
Qed.
Lemma take_lines_blank lines d fs d' : take_lines lines d = inr (fs, d') -> blank d = d -> blank d' = d'.
Proof.
  revert d fs d'. induction lines as [|line lines IH]; cbn; intros d fs d'; [by intros [= _ <-]|].
  destruct (take_line line d) as [|[f d1]] eqn:El; [done|]. apply take_line_stays in El as [H1 H2].
  destruct (take_lines lines d1) as [|[f' d2]] eqn:E; [done|]. intros [= _ <-] Hb.
  apply (IH _ _ _ E). apply blank_blank; [rewrite H1|rewrite H2]; by rewrite <- Hb.
Qed.
Lemma take_lines_app a b d :
  take_lines (a ++ b) d = match take_lines a d with
                          | inl error => inl error
                          | inr (frames, d) => match take_lines b d with
                                               | inl error => inl error
                                               | inr (more, d) => inr (frames ++ more, d)
                                               end
                          end.
Proof.
  revert d. induction a as [|x a IH]; intros d; cbn; [by destruct (take_lines b d) as [|[]]|].
  destruct (take_line x d) as [|[f d1]]; [done|]. rewrite IH.
  destruct (take_lines a d1) as [|[fs d2]]; [done|]. destruct (take_lines b d2) as [|[more d3]]; [done|].
  by rewrite app_assoc.
Qed.
(** Reading a stream in two parts. *)
Lemma whole_app first rest d :
  decode_whole (first ++ rest) d =
  match decode_whole first d with
  | inl error => inl error
  | inr (frames, d1) => match decode_whole (sd_buffer d1 ++ rest) d1 with
                        | inl error => inl error
                        | inr (more, d2) => inr (frames ++ more, d2)
                        end
  end.
Proof.
  unfold decode_whole. pose proof (split_lines_app first rest) as H.
  destruct (split_lines first) as [lines tail].
  destruct (split_lines (tail ++ rest)) as [more tail'] eqn:Em. rewrite H, take_lines_app.
  destruct (take_lines lines (blank d)) as [|[f e]] eqn:El; [done|].
  change (sd_buffer (holding tail (List.length tail) e)) with tail. rewrite Em.
  change (blank (holding tail (List.length tail) e)) with (blank e).
  rewrite (take_lines_blank _ _ _ _ El) by done. by destruct (take_lines more e) as [|[]].
Qed.
Lemma whole_nothing d : resting d -> decode_whole (sd_buffer d) d = inr ([], d).
Proof.
  intros [Hs Hn]. unfold decode_whole. rewrite (split_lines_none _ Hn). cbn. by rewrite <- Hs, holding_blank.
Qed.
(** [push] refuses a piece for its length when it and the unfinished line held
    before it are together over the limit; a cutting that fits is never refused. *)
Fixpoint cuts_fit (held : list ascii) (pieces : list (list ascii)) : bool :=
  match pieces with
  | [] => true
  | piece :: pieces =>
      (len (held ++ piece) <=? MAX_EVENT_BYTES) && cuts_fit (snd (split_lines (held ++ piece))) pieces
  end.
Lemma decode_spec pieces : forall d, resting d -> cuts_fit (sd_buffer d) pieces = true ->
  decode pieces d = decode_whole (sd_buffer d ++ List.concat pieces) d.
Proof.
  induction pieces as [|piece pieces IH]; intros d Hd Hfit; cbn.
  - by rewrite app_nil_r, whole_nothing.
  - cbn in Hfit. apply andb_true_iff in Hfit as [Hlen%Z.leb_le Hfit].
    rewrite app_assoc, push_spec by done. rewrite (proj2 (Z.ltb_ge _ _)) by done.
    rewrite (whole_app _ (List.concat pieces)). destruct (decode_whole (sd_buffer d ++ piece) d) as [error|[fs d1]] eqn:E; [done|].
    destruct (whole_resting _ _ _ _ E) as [Hr Hb]. rewrite IH; [done|done|]. by rewrite Hb.
Qed.
(** A cutting that does not fit is refused, unless a line was in error before. *)
Lemma decode_unfit pieces : forall d res, resting d -> cuts_fit (sd_buffer d) pieces = false ->
  decode_whole (sd_buffer d ++ List.concat pieces) d = inr res -> decode pieces d = inl too_long.
Proof.
  induction pieces as [|piece pieces IH]; intros d res Hd Hfit Hw; [done|]. cbn in *.
  rewrite push_spec by done. destruct (Z.ltb_spec MAX_EVENT_BYTES (len (sd_buffer d ++ piece))) as [|Hlen]; [done|].
  rewrite (proj2 (Z.leb_le _ _)) in Hfit by done. cbn in Hfit. rewrite app_assoc, whole_app in Hw.
  destruct (decode_whole (sd_buffer d ++ piece) d) as [error|[fs d1]] eqn:E; [done|].
  destruct (whole_resting _ _ _ _ E) as [Hr Hb]. rewrite <- Hb in Hfit.
  destruct (decode_whole (sd_buffer d1 ++ _) d1) as [|res1] eqn:E1; [done|]. by rewrite (IH d1 res1).
Qed.
Lemma short_stream_fits pieces : forall held,
  len (held ++ List.concat pieces) <= MAX_EVENT_BYTES -> cuts_fit held pieces = true.
Proof.
  induction pieces as [|piece pieces IH]; intros held Hlen; [done|]. cbn in *. rewrite app_assoc in Hlen.
  pose proof (len_nonneg (List.concat pieces)). rewrite len_app in Hlen. apply andb_true_iff.
  split; [apply Z.leb_le; lia|]. apply IH. destruct (split_lines (held ++ piece)) as [lines tail] eqn:Es. cbn [snd].
  apply split_tail_suffix in Es as [Ht _]. rewrite len_app. unfold len in *. lia.
Qed.
Lemma split_held held rest : find_byte is_newline held = None ->
  split_lines (held ++ rest) = match split_lines rest with
                               | (line :: lines, tail) => ((held ++ line) :: lines, tail)
                               | ([], tail) => ([], held ++ tail)
                               end.
Proof.
  induction held as [|c held IH]; cbn; [by destruct (split_lines rest) as [[|] ?]|].
  destruct (is_newline c) eqn:Ec; [done|]. destruct (find_byte is_newline held) eqn:Ef; [done|]. intros _.
  rewrite IH by done. by destruct (split_lines rest) as [[|? ?] ?].
Qed.
(** Pieces that fit behind each line of the stream fit, however long it is. *)
Lemma small_pieces_fit pieces : forall held,
  find_byte is_newline held = None ->
  (forall line piece, In piece pieces ->
     In line (fst (split_lines (held ++ List.concat pieces))) \/ line = snd (split_lines (held ++ List.concat pieces)) ->
     len line + len piece <= MAX_EVENT_BYTES) ->
  cuts_fit held pieces = true.
Proof.
  induction pieces as [|piece pieces IH]; intros held Hh Hl; [done|]. cbn [cuts_fit List.concat] in *.
  pose proof (split_held held (piece ++ List.concat pieces) Hh) as Hs.
  assert (Hlen : len held + len piece <= MAX_EVENT_BYTES).
  { destruct (split_lines (piece ++ List.concat pieces)) as [[|line lines] tail].
    - specialize (Hl (held ++ tail) piece (or_introl eq_refl)). rewrite Hs, len_app in Hl.
      pose proof (len_nonneg tail). specialize (Hl (or_intror eq_refl)). lia.
    - specialize (Hl (held ++ line) piece (or_introl eq_refl)). rewrite Hs, len_app in Hl.
      pose proof (len_nonneg line). specialize (Hl (or_introl (or_introl eq_refl))). lia. }
  apply andb_true_iff. split; [apply Z.leb_le; by rewrite len_app|].
  pose proof (split_lines_app (held ++ piece) (List.concat pieces)) as Ha.
  rewrite app_assoc in Hl. destruct (split_lines (held ++ piece)) as [lines tail] eqn:E. cbn [snd].
  apply IH; [by eapply split_lines_tail|]. destruct (split_lines (tail ++ List.concat pieces)) as [more tail'].
  rewrite Ha in Hl. cbn [fst snd] in *. intros line p Hp Hline. apply Hl; [by right|].
  destruct Hline as [Hline|Hline]; [left; apply in_or_app; by right|by right].
Qed.
Lemma line_within l line : In line (fst (split_lines l)) -> len line <= len l.
Proof.
  revert line. induction l as [|c l IH]; cbn [split_lines]; [done|]. intros line.
  change (c :: l) with ([c] ++ l). rewrite len_app. change (len [c]) with 1. pose proof (len_nonneg l).
  destruct (split_lines l) as [lines tail]. cbn [fst] in IH.
  destruct (is_newline c); cbn [fst]; [intros [<-|Hin]; [change (len []) with 0; lia|specialize (IH _ Hin); lia]|].
  destruct lines as [|x lines]; [done|]. cbn [fst]. intros [<-|Hin].
  - specialize (IH x (or_introl eq_refl)). change (c :: x) with ([c] ++ x). rewrite len_app. change (len [c]) with 1. lia.
  - specialize (IH line (or_intror Hin)). lia.
Qed.
(** Without the bound on the whole stream, a decoder may still refuse a piece. *)
Lemma decode_or_too_long pieces : forall d, resting d ->
  decode pieces d = decode_whole (sd_buffer d ++ List.concat pieces) d \/ decode pieces d = inl too_long.
Proof.
  induction pieces as [|piece pieces IH]; intros d Hd; cbn.
  - left. by rewrite app_nil_r, whole_nothing.
  - rewrite push_spec by done. destruct (_ <? _); [by right|]. rewrite app_assoc, (whole_app _ (List.concat pieces)).
    destruct (decode_whole (sd_buffer d ++ piece) d) as [error|[fs d1]] eqn:E; [by left|].
    destruct (whole_resting _ _ _ _ E) as [Hr _]. destruct (IH d1 Hr) as [-> | ->]; [by left|by right].
Qed.

(** C27: two ways to cut a stream of bytes into pieces give the same frames and
    leave the decoder in the same state, or fail with the same error, as long as
    both fit ([cuts_fit]: the unfinished line held before a piece and the piece
    are together within 8 MiB), which every cutting of a stream of up to 8 MiB
    does.  A cutting that does not fit gives this result too or is refused for its
    length, and is refused if the stream has no error. *)
Theorem pieces_do_not_matter pieces pieces' :
  List.concat pieces = List.concat pieces' -> cuts_fit [] pieces' = true ->
  (cuts_fit [] pieces = true -> decode pieces decoder_default = decode pieces' decoder_default)
  /\ (len (List.concat pieces) <= MAX_EVENT_BYTES -> cuts_fit [] pieces = true)
  /\ (decode pieces decoder_default = decode pieces' decoder_default
      \/ decode pieces decoder_default = inl too_long)
  /\ (forall res, cuts_fit [] pieces = false -> decode pieces' decoder_default = inr res ->
      decode pieces decoder_default = inl too_long).
Proof.
  intros E Hfit'. assert (Hr : resting decoder_default) by done.
  rewrite (decode_spec pieces' _ Hr Hfit'), <- E. split_and!.
  - apply (decode_spec pieces _ Hr).
  - apply (short_stream_fits pieces []).
  - apply (decode_or_too_long pieces _ Hr).
  - intros res. exact (decode_unfit pieces decoder_default res Hr).
Qed.

(** * Frames on the wire *)
Definition newline : list ascii := ["010"%char].
Definition wire (s : string) : list ascii := list_ascii_of_string s ++ newline.
Definition encode_frame (event : option string) (data : list string) : list ascii :=
  match event with Some event => wire ("event: " +:+ event) | None => [] end
  ++ List.concat (List.map (fun line => wire ("data: " +:+ line)) data) ++ newline.
(** A line of text that survives: no newline in it, no carriage return at its
    end, and well-formed. *)
Definition sendable (line : string) : bool :=
  let l := list_ascii_of_string line in
  negb (List.existsb is_newline l)
  && match last l with Some c => negb (Ascii.eqb c "013"%char) | None => true end
  && utf8_ok (List.length l) (List.map N_of_ascii l).
Definition frame_of (f : option string * list string) : SseFrame :=
  {| sf_event := fst f; sf_data := join (String "010" "") (snd f) |}.
Definition frame_ok (f : option string * list string) : bool :=
  match fst f with Some event => sendable event | None => true end
  && forallb sendable (snd f)
  && (bool_decide (is_Some (fst f)) || negb (is_empty (snd f))).

Lemma split_line line rest : List.existsb is_newline line = false ->
  split_lines (line ++ newline ++ rest) = (line :: fst (split_lines rest), snd (split_lines rest)).
Proof.
  induction line as [|c l IH]; cbn; [by destruct (split_lines rest)|].
  intros [N H]%orb_false_iff. rewrite N. cbn in IH. by rewrite (IH H).
Qed.
Lemma ascii_string l : string_of_list_ascii (list_ascii_of_string l) = l.
Proof. apply string_of_list_ascii_of_string. Qed.
Lemma length_ascii s : List.length (list_ascii_of_string s) = String.length s.
Proof. induction s; cbn; congruence. Qed.
Lemma sendable_parts line : sendable line = true ->
  List.existsb is_newline (list_ascii_of_string line) = false
  /\ last (list_ascii_of_string line) <> Some "013"%char
  /\ utf8_ok (List.length (list_ascii_of_string line)) (List.map N_of_ascii (list_ascii_of_string line)) = true.
Proof.
  unfold sendable. rewrite !andb_true_iff, negb_true_iff. intros [[H1 H2] H3]. split_and!; [done| |done].
  intros E. by rewrite E in H2.
Qed.
Lemma strip_return_keeps l : last l <> Some "013"%char -> strip_return l = l.
Proof.
  unfold strip_return. destruct (last l) as [c|]; [|done]. intros H.
  destruct (Ascii.eqb_spec c "013"%char); [|done]. by subst.
Qed.
Lemma last_prefixed (a : list ascii) l c : last a <> Some c -> last l <> Some c -> last (a ++ l) <> Some c.
Proof. intros H1 H2. rewrite last_app. by destruct (last l). Qed.
Lemma ascii_app s t : list_ascii_of_string (s +:+ t) = list_ascii_of_string s ++ list_ascii_of_string t.
Proof.
  induction s as [|c s IH]; [done|].
  change (list_ascii_of_string (String c s +:+ t)) with (c :: list_ascii_of_string (s +:+ t)). by rewrite IH.
Qed.
Definition room (n : Z) (d : SseDecoder) : Prop :=
  0 <= sd_event_bytes d /\ 0 <= n /\ sd_event_bytes d + n <= MAX_EVENT_BYTES.
(** A sent line is read as its field. *)
Lemma counted n d : room n d -> (MAX_EVENT_BYTES <? u64_sat_add (sd_event_bytes d) n) = false
  /\ u64_sat_add (sd_event_bytes d) n = sd_event_bytes d + n.
Proof.
  intros (H0 & Hn & Hmax). assert (Hu : u64_sat_add (sd_event_bytes d) n = sd_event_bytes d + n).
  { unfold u64_sat_add. apply Z.min_r. unfold MAX_EVENT_BYTES, u64_max in *. lia. }
  split; [|done]. rewrite Hu. by apply Z.ltb_ge.
Qed.
Lemma text_line prefix line :
  sendable line = true -> last (list_ascii_of_string prefix) <> Some "013"%char ->
  (forall n l, utf8_ok (String.length prefix + n) (List.map N_of_ascii (list_ascii_of_string prefix) ++ l) = utf8_ok n l) ->
  from_utf8 (strip_return (list_ascii_of_string (prefix +:+ line))) = Some (prefix +:+ line).
Proof.
  intros (_ & Hr & Hv)%sendable_parts Hp Hu. rewrite ascii_app, strip_return_keeps by by apply last_prefixed.
  unfold from_utf8. rewrite length_map, length_app, length_ascii, map_app, Hu. cbn zeta. rewrite Hv.
  by rewrite <- ascii_app, ascii_string.
Qed.
Definition wire_size (s : string) : Z := len (wire s).
Lemma wire_length s : wire_size s = Z.of_nat (String.length s) + 1.
Proof. unfold wire_size, wire. rewrite len_app. unfold len. by rewrite length_ascii. Qed.
Lemma read_text prefix line d :
  sendable line = true -> last (list_ascii_of_string prefix) <> Some "013"%char ->
  (forall n l, utf8_ok (String.length prefix + n) (List.map N_of_ascii (list_ascii_of_string prefix) ++ l) = utf8_ok n l) ->
  (prefix +:+ line =?s "") = false -> starts_with ":" (prefix +:+ line) = false ->
  room (wire_size (prefix +:+ line)) d ->
  take_line (list_ascii_of_string (prefix +:+ line)) d =
  inr (None, take_field (prefix +:+ line) (d <| sd_event_bytes ::= fun m => m + wire_size (prefix +:+ line) |>)).
Proof.
  intros Hs Hp Hv He Hc Hr. unfold SseDecoder.take_line. rewrite text_line, He, Hc by done.
  rewrite wire_length in *. destruct (counted _ _ Hr) as [Hb Hu]. cbn -[Z.of_nat Z.add MAX_EVENT_BYTES].
  by rewrite Hb, Hu.
Qed.
Lemma read_data line d : sendable line = true -> room (wire_size ("data: " +:+ line)) d ->
  take_line (list_ascii_of_string ("data: " +:+ line)) d =
  inr (None, d <| sd_event_bytes ::= fun m => m + wire_size ("data: " +:+ line) |>
               <| sd_data ::= fun data => data ++ [line] |>).
Proof. intros Hs Hr. rewrite read_text by done. unfold take_field. by destruct line. Qed.
Lemma read_event line d : sendable line = true -> room (wire_size ("event: " +:+ line)) d ->
  take_line (list_ascii_of_string ("event: " +:+ line)) d =
  inr (None, d <| sd_event_bytes ::= fun m => m + wire_size ("event: " +:+ line) |> <| sd_event := Some line |>).
Proof. intros Hs Hr. rewrite read_text by done. unfold take_field. by destruct line. Qed.

(** * Frames one after the other *)
Definition data_size (data : list string) : Z :=
  len (List.concat (List.map (fun line => wire ("data: " +:+ line)) data)).
Lemma data_size_cons line data : data_size (line :: data) = wire_size ("data: " +:+ line) + data_size data.
Proof. unfold data_size. cbn [List.map List.concat]. by rewrite len_app. Qed.
Definition data_lines (data : list string) : list (list ascii) :=
  List.map (fun line => list_ascii_of_string ("data: " +:+ line)) data.
Lemma read_datas data : forall d, forallb sendable data = true -> room (data_size data) d ->
  take_lines (data_lines data) d =
  inr ([], d <| sd_event_bytes ::= fun m => m + data_size data |> <| sd_data ::= fun l => l ++ data |>).
Proof.
  induction data as [|line data IH]; intros d Hs Hr.
  - cbn. destruct d. cbn. by rewrite app_nil_r, Z.add_0_r.
  - cbn [forallb] in Hs. apply andb_true_iff in Hs as [H1 H2]. rewrite data_size_cons in *.
    pose proof (len_nonneg (wire ("data: " +:+ line))) as Hn. destruct Hr as (H0 & Hs & Hmax).
    pose proof (len_nonneg (List.concat (List.map (fun line => wire ("data: " +:+ line)) data))) as Hd.
    change (0 <= data_size data) in Hd. change (0 <= wire_size ("data: " +:+ line)) in Hn.
    cbn [data_lines List.map take_lines]. rewrite read_data by (done || (unfold room; lia)).
    fold (data_lines data). rewrite IH by (done || (unfold room; cbn -[Z.add]; lia)).
    cbn -[Z.add]. by rewrite <- app_assoc, Z.add_assoc.
Qed.
Definition event_lines (event : option string) : list (list ascii) :=
  match event with Some event => [list_ascii_of_string ("event: " +:+ event)] | None => [] end.
Definition frame_lines (f : option string * list string) : list (list ascii) :=
  event_lines (fst f) ++ data_lines (snd f) ++ [[]].
Definition encode (frames : list (option string * list string)) : list ascii :=
  List.concat (List.map (fun f => encode_frame (fst f) (snd f)) frames).
Lemma frame_ok_parts f : frame_ok f = true ->
  (forall event, fst f = Some event -> sendable event = true) /\ forallb sendable (snd f) = true
  /\ (bool_decide (is_Some (fst f)) || negb (is_empty (snd f))) = true.
Proof.
  unfold frame_ok. rewrite !andb_true_iff. intros [[H1 H2] H3]. split_and!; [|done|done].
  intros event E. by rewrite E in H1.
Qed.
Lemma read_frame f : frame_ok f = true -> len (encode_frame (fst f) (snd f)) <= MAX_EVENT_BYTES ->
  take_lines (frame_lines f) decoder_default = inr ([frame_of f], decoder_default).
Proof.
  intros (He & Hd & Hn)%frame_ok_parts Hlen. destruct f as [event data]. cbn [fst snd] in *.
  assert (Hsize : forall d, sd_event_bytes d + data_size data <= MAX_EVENT_BYTES -> 0 <= sd_event_bytes d ->
    room (data_size data) d) by (intros d ??; repeat split; [done|apply len_nonneg|done]).
  assert (Hfull : (match event with Some event => wire_size ("event: " +:+ event) | None => 0 end)
                  + data_size data <= MAX_EVENT_BYTES).
  { unfold encode_frame in Hlen. rewrite !len_app in Hlen. change (len newline) with 1 in Hlen.
    fold (data_size data) in Hlen. destruct event as [event|].
    - fold (wire_size ("event: " +:+ event)) in Hlen. lia.
    - change (len []) with 0 in Hlen. lia. }
  pose proof (len_nonneg (List.concat (List.map (fun line => wire ("data: " +:+ line)) data))) as H0.
  fold (data_size data) in H0. unfold frame_lines. cbn [fst snd]. rewrite take_lines_app.
  destruct event as [event|]; cbn [event_lines take_lines].
  - pose proof (len_nonneg (wire ("event: " +:+ event))) as H1. fold (wire_size ("event: " +:+ event)) in H1.
    rewrite read_event by (by apply He || (unfold room; cbn -[Z.add]; lia)).
    rewrite take_lines_app, read_datas by (done || (apply Hsize; cbn -[Z.add]; lia)). done.
  - rewrite take_lines_app, read_datas by (done || (apply Hsize; cbn -[Z.add]; lia)).
    cbn -[Z.add]. unfold finish_frame. cbn -[Z.add]. by destruct data.
Qed.
Definition events_fit (frames : list (option string * list string)) : Prop :=
  forall f, In f frames -> len (encode_frame (fst f) (snd f)) <= MAX_EVENT_BYTES.
Lemma read_frames frames : forallb frame_ok frames = true -> events_fit frames ->
  take_lines (List.concat (List.map frame_lines frames)) decoder_default
  = inr (List.map frame_of frames, decoder_default).
Proof.
  induction frames as [|f frames IH]; cbn; [done|]. intros [H1 H2]%andb_true_iff Hlen.
  rewrite take_lines_app, read_frame by (done || (apply Hlen; by left)).
  by rewrite IH by (done || (intros x Hx; apply Hlen; by right)).
Qed.
Lemma split_wire prefix line rest : sendable line = true ->
  List.existsb is_newline (list_ascii_of_string prefix) = false ->
  split_lines (wire (prefix +:+ line) ++ rest)
  = (list_ascii_of_string (prefix +:+ line) :: fst (split_lines rest), snd (split_lines rest)).
Proof.
  intros (Hl & _ & _)%sendable_parts Hp. unfold wire. rewrite <- app_assoc. apply split_line.
  by rewrite ascii_app, existsb_app, Hp, Hl.
Qed.
Lemma split_datas data rest : forallb sendable data = true ->
  split_lines (List.concat (List.map (fun line => wire ("data: " +:+ line)) data) ++ rest)
  = (data_lines data ++ fst (split_lines rest), snd (split_lines rest)).
Proof.
  induction data as [|line data IH]; cbn [List.map List.concat forallb]; [intros _; cbn; by destruct (split_lines rest)|].
  intros [H1 H2]%andb_true_iff. rewrite <- app_assoc, split_wire by done. by rewrite IH.
Qed.
Lemma split_frame f rest : frame_ok f = true ->
  split_lines (encode_frame (fst f) (snd f) ++ rest)
  = (frame_lines f ++ fst (split_lines rest), snd (split_lines rest)).
Proof.
  intros (He & Hd & _)%frame_ok_parts. destruct f as [event data]. unfold encode_frame, frame_lines. cbn [fst snd] in *.
  assert (Hnl : split_lines (newline ++ rest) = ([] :: fst (split_lines rest), snd (split_lines rest)))
    by (cbn; by destruct (split_lines rest)).
  rewrite <- !app_assoc. destruct event as [event|]; cbn [event_lines].
  - rewrite split_wire by (by apply He || done). by rewrite split_datas, Hnl.
  - cbn [app]. by rewrite split_datas, Hnl.
Qed.
Lemma split_frames frames : forallb frame_ok frames = true ->
  split_lines (encode frames) = (List.concat (List.map frame_lines frames), []).
Proof.
  induction frames as [|f frames IH]; [done|]. cbn [forallb]. intros [H1 H2]%andb_true_iff.
  unfold encode. cbn [List.map List.concat]. rewrite split_frame by done. fold (encode frames). by rewrite IH.
Qed.

Lemma frame_line_within frames line : forallb frame_ok frames = true ->
  In line (List.concat (List.map frame_lines frames)) ->
  exists f, In f frames /\ len line <= len (encode_frame (fst f) (snd f)).
Proof.
  intros Hok (ls & Hls & Hin)%in_concat. apply in_map_iff in Hls as (f & <- & Hf). exists f. split; [done|].
  apply line_within. pose proof (split_frame f []) as Hs. rewrite app_nil_r in Hs. rewrite Hs; [|].
  - cbn. by rewrite app_nil_r.
  - by apply (proj1 (forallb_forall _ _) Hok).
Qed.

(** C33: frames sent over the wire are the frames read: a list of frames, each
    within 8 MiB, written one field per line and an empty line after each, is
    decoded to these frames, in order, and leaves an empty decoder, if the pieces
    it arrives in fit ([cuts_fit]: the unfinished line held before a piece and the
    piece are together within 8 MiB); otherwise it is refused for its length.  The
    pieces fit if the whole stream is within 8 MiB, and, however long it is, if
    each piece together with any frame is.  A sent line is well-formed text
    without a newline and without a carriage return at its end. *)
Theorem sent_frames_are_read frames pieces :
  forallb frame_ok frames = true -> events_fit frames -> List.concat pieces = encode frames ->
  decode pieces decoder_default
    = (if cuts_fit [] pieces then inr (List.map frame_of frames, decoder_default) else inl too_long)
  /\ (len (encode frames) <= MAX_EVENT_BYTES
      \/ (forall f piece, In f frames -> In piece pieces ->
            len (encode_frame (fst f) (snd f)) + len piece <= MAX_EVENT_BYTES) ->
      cuts_fit [] pieces = true).
Proof.
  intros Hok Hfit E.
  assert (Hw : decode_whole (List.concat pieces) decoder_default = inr (List.map frame_of frames, decoder_default)).
  { rewrite E. unfold decode_whole. rewrite split_frames by done.
    change (blank decoder_default) with decoder_default. by rewrite read_frames. }
  split.
  - destruct (cuts_fit [] pieces) eqn:Ef; [by rewrite (decode_spec pieces decoder_default)|].
    by apply (decode_unfit pieces decoder_default (List.map frame_of frames, decoder_default)).
  - intros [Hlen|Hsmall]; [apply (short_stream_fits pieces []); cbn [app]; by rewrite E|].
    apply small_pieces_fit; [done|]. cbn [app]. rewrite E, split_frames by done. cbn [fst snd].
    intros line piece Hp [Hline|Hline].
    + destruct (frame_line_within _ _ Hok Hline) as (f & Hf & Hle). specialize (Hsmall f piece Hf Hp). lia.
    + subst line. change (len []) with 0. destruct frames as [|f frames].
      * assert (Hlen : len piece <= len (List.concat pieces)); 
          [|rewrite E in Hlen; change (len (encode [])) with 0 in Hlen; unfold MAX_EVENT_BYTES; lia].
        apply in_split in Hp as (a & b & ->). rewrite concat_app. cbn [List.concat]. rewrite !len_app.
        pose proof (len_nonneg (List.concat a)). pose proof (len_nonneg (List.concat b)). lia.
      * specialize (Hsmall f piece (or_introl eq_refl) Hp).
        pose proof (len_nonneg (encode_frame (fst f) (snd f))). lia.
Qed.
End Stream.

(** * Concrete streams *)
Definition bytes_of (s : string) : list ascii := list_ascii_of_string s.
Definition nl : string := String "010" "".
Definition crnl : string := String "013" nl.
Definition stream : string :=
  ": ping" +:+ crnl +:+ "event: custom" +:+ crnl +:+ "data: one" +:+ crnl +:+ "data: two" +:+ crnl +:+ crnl
  +:+ "data: three" +:+ nl +:+ nl.
Definition invalid (_ : list ascii) : string := "invalid utf-8".

Lemma pieces_do_not_matter_witness :
  let bytes := List.map (fun c => [c]) (bytes_of stream) in
  decode invalid bytes decoder_default = decode invalid [bytes_of stream] decoder_default
  /\ decode invalid bytes decoder_default
     = inr ([ {| sf_event := Some "custom"; sf_data := "one" +:+ nl +:+ "two" |};
              {| sf_event := None; sf_data := "three" |} ], decoder_default).
Proof.
  cbv zeta. split.
  - apply (pieces_do_not_matter invalid); vm_compute; reflexivity.
  - vm_compute. reflexivity.
Defined.

Definition sent : list (option string * list string) :=
  [(Some "message_start", ["{}"]); (None, [": not a comment"; ""]); (Some "ping", [])].
Lemma sent_frames_are_read_witness :
  decode invalid [take 9 (encode sent); drop 9 (encode sent)] decoder_default
  = inr ([ {| sf_event := Some "message_start"; sf_data := "{}" |};
           {| sf_event := None; sf_data := ": not a comment" +:+ nl |};
           {| sf_event := Some "ping"; sf_data := "" |} ], decoder_default).
Proof.
  rewrite (proj1 (sent_frames_are_read invalid sent [take 9 (encode sent); drop 9 (encode sent)]
    ltac:(vm_compute; reflexivity) ltac:(intros f Hf; repeat (destruct Hf as [<-|Hf]; [vm_compute; discriminate|]);
      destruct Hf) ltac:(vm_compute; reflexivity))).
  vm_compute. reflexivity.
Defined.
