(* ===== verification/ContentRange.v ===== *)
(** Byte ranges of streamed content (rpc/src/content_range.rs): a consumer trims
    the prefix it has already applied, and refuses gaps and split characters. *)
From S2P Require Import Prelude Json TaskTypes.

(** [data[key] = value] on an object *)
Definition assign_field (key : string) (value : Value) (data : Value) : Value :=
  match data with VObject m => VObject (map_insert key value m) | _ => data end.
(** [text.get(n..)] *)
Definition text_from (n : nat) (s : string) : option string :=
  if is_char_boundary s n then Some (drop_bytes n s) else None.
Definition u64_checked_add (a b : u64) : option u64 := if a + b <=? u64_max then Some (a + b) else None.

(** [ContentCursors.offsets], by run, epoch and content key *)
Definition Identity : Type := string * Z * string.
Definition ContentCursors : Type := gmap Identity u64.
Definition clear_cursors (offsets : ContentCursors) : ContentCursors := ∅.

Definition covers_next (data : Value) (expected last : Z) : bool :=
  (last =? expected)
  || bool_decide (is_Some (get "content_key" data ≫= as_str))
     && match get "content_first_idx" data ≫= as_i64 with
        | Some first => (0 <=? first) && (first <=? expected) && (expected <=? last)
        | None => false
        end.

Definition sealed (data : Value) : bool :=
  match get "content_seal" data with Some (VBool b) => b | _ => false end.
Definition trimmed_kind (kind : string) : bool :=
  (kind =?s "text_chunk") || (kind =?s "thinking_delta") || (kind =?s "tool_delta").
(** The overlap with what was seen is cut off the text. *)
Definition trim_overlap (seen offset length : u64) (data : Value) : string + Value :=
  let text := default "" (get "text" data ≫= as_str) in
  if negb (Z.of_nat (String.length text) =? length) then inl "canonical content byte length mismatch"
  else
    let overlap := Z.min (Z.max (seen - offset) 0) length in
    match text_from (Z.to_nat overlap) text with
    | None => inl "canonical overlap splits UTF-8"
    | Some tail =>
        inr (assign_field "content_bytes" (json_u64 (length - overlap))
               (assign_field "content_offset" (json_u64 (offset + overlap)) (assign_field "text" (VString tail) data)))
    end.
Definition apply_range (run : string) (epoch : Z) (kind : string) (data : Value) (offsets : ContentCursors)
    : string + (Value * ContentCursors) :=
  match get "content_key" data ≫= as_str with
  | None => inr (data, offsets)
  | Some key =>
      let identity := (run, epoch, key) in
      match get "content_offset" data ≫= as_u64 with
      | None => inl "invalid canonical content offset"
      | Some offset =>
          match get "content_bytes" data ≫= as_u64 with
          | None => inl "invalid canonical content length"
          | Some length =>
              match u64_checked_add offset length with
              | None => inl "canonical content range overflow"
              | Some content_end =>
                  let seen := default 0 (offsets !! identity) in
                  if (seen <? offset) && negb (sealed data) then inl "canonical content has a missing prefix"
                  else
                    match (if trimmed_kind kind then trim_overlap seen offset length data else inr data) with
                    | inl error => inl error
                    | inr data =>
                        inr (data, if sealed data then delete identity offsets
                                   else <[identity := Z.max content_end seen]> offsets)
                    end
              end
          end
      end
  end.
