(* ===== verification/Coalesce.v ===== *)
(** The event lane of the remote server (remote-server/src/events.rs and
    events/coalesce.rs): one ordered queue of events, whose consecutive text
    fragments are merged inside a short window.  A payload is its JSON text;
    parsing and printing are arguments, time is in nanoseconds. *)
From S2P Require Import Prelude Json TaskTypes ContentRange.

Definition MAX_EVENT_BYTES : Z := 900 * 1024.
Record EventPublish := mkEvent {
  ev_subject : string;
  ev_payload : string;
  ev_status_subject : option string
}.
#[export] Instance eta_EventPublish : Eta EventPublish := fun e =>
  mkEvent (ev_subject e) (ev_payload e) (ev_status_subject e).
Definition is_catalog_event (event_type : string) : bool :=
  bool_decide (event_type ∈
    ["agent_start"; "agent_end"; "approval_request"; "approval_decision"; "session_name_changed";
     "provider_config_changed"; "model_visibility_changed"; "app_settings_changed"; "skills_changed";
     "run_snapshot"; "error"]).

Definition FRAGMENT_TYPES : list string :=
  ["text_chunk"; "text_delta"; "thinking_delta"; "tool_delta"; "toolcall_delta"].
Definition COALESCE_WINDOW : Z := 100000000.
Definition MAX_MERGED_FRAGMENTS : Z := 512.
Definition MAX_MERGED_BYTES : Z := MAX_EVENT_BYTES - 4096.

Record StreamKey := mkKey {
  sk_session : string;
  sk_run : string;
  sk_epoch : Z;
  sk_event_type : string;
  sk_tool : string;
  sk_block : string;
  sk_content : string
}.
#[export] Instance StreamKey_eq_dec : EqDecision StreamKey.
Proof. solve_decision. Defined.
Record Fragment := mkFragment {
  fr_key : StreamKey;
  fr_idx : Z;
  fr_first_idx : Z;
  fr_content_offset : option u64;
  fr_content_end : option u64;
  fr_text : string;
  fr_replaces : bool
}.
Record Pending := mkPending {
  pd_key : StreamKey;
  pd_newest_idx : Z;
  pd_first_idx : Z;
  pd_content_end : option u64;
  pd_bytes : Z;
  pd_event : EventPublish;
  pd_text : string;
  pd_replaces : bool;
  pd_merged : Z;
  pd_opened : Z
}.
#[export] Instance eta_Pending : Eta Pending := fun p =>
  mkPending (pd_key p) (pd_newest_idx p) (pd_first_idx p) (pd_content_end p) (pd_bytes p) (pd_event p)
    (pd_text p) (pd_replaces p) (pd_merged p) (pd_opened p).
Record Coalescer := mkCoalescer { co_pending : option Pending; co_window : option Z }.
Definition coalescer_default : Coalescer := mkCoalescer None None.
Definition window (c : Coalescer) : Z := default COALESCE_WINDOW (co_window c).
Definition payload_len (e : EventPublish) : Z := Z.of_nat (String.length (ev_payload e)).

Definition i64_checked_add (a b : Z) : option Z :=
  if (- i64_max - 1 <=? a + b) && (a + b <=? i64_max) then Some (a + b) else None.
Definition accepts (p : Pending) (fragment : Fragment) (event : EventPublish) : bool :=
  bool_decide (pd_key p = fr_key fragment)
  && bool_decide (i64_checked_add (pd_newest_idx p) 1 = Some (fr_first_idx fragment))
  && bool_decide (pd_content_end p = fr_content_offset fragment)
  && (pd_merged p + 1 <? MAX_MERGED_FRAGMENTS)
  && (pd_bytes p + payload_len event <=? MAX_MERGED_BYTES).

Section Lane.
(** [serde_json::from_slice], [from_str] and [to_string] *)
Variable from_str : string -> option Value.
Variable to_string : Value -> string.

Definition text_of (key : string) (body : Value) : string := default "" (get key body ≫= as_str).
Definition tool_of (data : Value) : string :=
  default "" (match get "tool_id" data with Some v => Some v | None => get "tool_call_id" data end ≫= as_str).
Definition block_of (data : Value) : string :=
  default "" (match get "block_id" data ≫= as_str with
              | Some id => Some id
              | None => get "blockId" data ≫= as_str
              end).
(** The byte range of a canonical fragment: its offset and its end. *)
Definition content_range (canonical : option string) (data : Value) : option u64 * option u64 :=
  let content_offset := canonical ≫= fun _ => as_u64 (index "content_offset" data) in
  (content_offset,
   offset ← content_offset;
   bytes ← as_u64 (index "content_bytes" data);
   u64_checked_add offset bytes).
Definition fragment_of (event : EventPublish) : option Fragment :=
  body ← from_str (ev_payload event);
  event_type ← get "type" body ≫= as_str;
  if negb (bool_decide (event_type ∈ FRAGMENT_TYPES)) then None else
  raw ← get "data" body ≫= as_str;
  data ← from_str raw;
  text ← get "text" data ≫= as_str;
  let idx := default (-1) (get "idx" body ≫= as_i64) in
  let canonical := get "content_key" data ≫= as_str in
  let '(content_offset, content_end) := content_range canonical data in
  if bool_decide (is_Some canonical)
     && (bool_decide (content_offset = None) || bool_decide (content_end = None)
         || negb (bool_decide (as_u64 (index "content_bytes" data) = Some (Z.of_nat (String.length text)))))
  then None
  else Some {|
    fr_key := {|
      sk_session := text_of "sessionId" body;
      sk_run := text_of "runId" body;
      sk_epoch := default 0 (get "epoch" body ≫= as_i64);
      sk_event_type := event_type;
      sk_tool := tool_of data;
      sk_block := block_of data;
      sk_content := default "" canonical |};
    fr_idx := idx;
    fr_first_idx := if bool_decide (is_Some canonical)
                    then default idx (as_i64 (index "content_first_idx" data)) else idx;
    fr_content_offset := content_offset;
    fr_content_end := content_end;
    fr_text := text;
    fr_replaces := bool_decide (get "snapshot" data ≫= as_bool = Some true) |}.

(** [i64::try_from(covered: usize)] *)
Definition usize_to_i64 (n : Z) : option Z := if n <=? i64_max then Some n else None.
(** The range of a merged canonical fragment ends where its newest source's does. *)
Definition merged_range (body object : Map) (text : string) (covered : Z) : option Map :=
  match map_get "content_key" object with
  | None => Some object
  | Some _ =>
      offset ← map_get "content_offset" object ≫= as_u64;
      bytes ← map_get "content_bytes" object ≫= as_u64;
      content_end ← u64_checked_add offset bytes;
      let length := Z.of_nat (String.length text) in
      if content_end <? length then None else
      idx ← map_get "idx" body ≫= as_i64;
      covered ← usize_to_i64 covered;
      Some (map_insert "content_first_idx" (json_i64 (idx - covered + 1))
              (map_insert "content_bytes" (json_u64 length)
                 (map_insert "content_offset" (json_u64 (content_end - length)) object)))
  end.
Definition merged_payload (event : EventPublish) (text : string) (covered : Z) (replaces : bool) : option string :=
  body ← from_str (ev_payload event);
  raw ← get "data" body ≫= as_str;
  data ← from_str raw;
  object ← as_object data;
  body ← as_object body;
  object ← merged_range body object text covered;
  let object := map_insert "text" (VString text) object in
  let object := if replaces then map_insert "snapshot" (VBool true) object else object in
  Some (to_string (VObject (map_insert "data" (VString (to_string (VObject object)))
                              (map_insert "coalescedCount" (json_u64 covered) body)))).

(** * The coalescer *)
(** [(newest - first + 1) as usize] *)
Definition as_usize (n : Z) : u64 := n mod 18446744073709551616.
Definition covered_count (p : Pending) : Z :=
  match pd_content_end p with
  | Some _ => as_usize (pd_newest_idx p - pd_first_idx p + 1)
  | None => pd_merged p + 1
  end.
Definition flush_pending (p : Pending) : list EventPublish :=
  if pd_merged p =? 0 then [pd_event p]
  else match merged_payload (pd_event p) (pd_text p) (covered_count p) (pd_replaces p) with
       | Some payload => [(pd_event p) <| ev_payload := payload |>]
       | None => []
       end.
Definition flush (c : Coalescer) (out : list EventPublish) : Coalescer * list EventPublish :=
  match co_pending c with
  | None => (c, out)
  | Some p => (mkCoalescer None (co_window c), out ++ flush_pending p)
  end.
Definition pending_of (fragment : Fragment) (event : EventPublish) (now : Z) : Pending := {|
  pd_key := fr_key fragment;
  pd_newest_idx := fr_idx fragment;
  pd_first_idx := fr_first_idx fragment;
  pd_content_end := fr_content_end fragment;
  pd_bytes := payload_len event;
  pd_event := event;
  pd_text := fr_text fragment;
  pd_replaces := fr_replaces fragment;
  pd_merged := 0;
  pd_opened := now |}.
Definition merge (fragment : Fragment) (event : EventPublish) (p : Pending) : Pending :=
  p <| pd_text := if fr_replaces fragment then fr_text fragment else pd_text p +:+ fr_text fragment |>
    <| pd_replaces := pd_replaces p || fr_replaces fragment |>
    <| pd_merged := pd_merged p + 1 |>
    <| pd_bytes := pd_bytes p + payload_len event |>
    <| pd_newest_idx := fr_idx fragment |>
    <| pd_content_end := fr_content_end fragment |>
    <| pd_event := event |>.
Definition expired (c : Coalescer) (now : Z) : bool :=
  match co_pending c with
  | Some p => window c <=? Z.max (now - pd_opened p) 0
  | None => false
  end.
Definition offer (event : EventPublish) (now : Z) (c : Coalescer) (out : list EventPublish)
    : Coalescer * list EventPublish :=
  let '(c, out) := if expired c now then flush c out else (c, out) in
  match fragment_of event with
  | None => let '(c, out) := flush c out in (c, out ++ [event])
  | Some fragment =>
      let merges := match co_pending c with Some p => accepts p fragment event | None => false end in
      let '(c, out) := if negb merges then flush c out else (c, out) in
      (mkCoalescer (Some match co_pending c with
                         | None => pending_of fragment event now
                         | Some p => merge fragment event p
                         end) (co_window c), out)
  end.

(** * The publisher *)
(** What one round of the loop sees: the window ran out, an event, or the end of
    the queue; [RDirect] is an event taken while coalescing is off. *)
Inductive Round := RTimeout | REvent (event : EventPublish) (now : Z) | RDirect (event : EventPublish) | RClosed.
(** A message is sent ([true], sealed or not) or fails; [transport n] is what
    happens to the [n]-th. *)
Definition messages (e : EventPublish) : list (string * string) :=
  match ev_status_subject e with Some subject => [(subject, ev_payload e)] | None => [] end
  ++ [(ev_subject e, ev_payload e)].
Fixpoint send_all (transport : nat -> bool) (n : nat) (l : list (string * string))
    : list (string * string) * bool :=
  match l with
  | [] => ([], true)
  | m :: l =>
      if transport n then let '(sent, ok) := send_all transport (S n) l in (m :: sent, ok)
      else ([m], false)
  end.
Definition publish_batch (transport : nat -> bool) (n : nat) (batch : list EventPublish)
    : list (string * string) * bool :=
  send_all transport n (List.concat (List.map messages batch)).
(** One round up to its batch; [false] ends the loop. *)
Definition round (r : Round) (c : Coalescer) : Coalescer * list EventPublish * bool :=
  match r with
  | RTimeout => (flush c [], true)
  | REvent event now => (offer event now c [], true)
  | RDirect event => let '(c, out) := flush c [] in (c, out ++ [event], true)
  | RClosed => (flush c [], false)
  end.
Fixpoint run_event_publisher (transport : nat -> bool) (n : nat) (rounds : list Round) (c : Coalescer)
    : list (string * string) :=
  match rounds with
  | [] => []
  | r :: rounds =>
      let '(c, out, continues) := round r c in
      let '(attempted, ok) := publish_batch transport n out in
      attempted ++
      if ok && continues then run_event_publisher transport (n + List.length attempted) rounds c else []
  end.
End Lane.
