(* ===== verification/CoalesceProps.v ===== *)
(** Merging the event lane changes nothing a reader can see: each published
    event stands for a run of consecutive sources of one stream, and says so. *)
From S2P Require Import Prelude Json TaskTypes CadenceProps ContentRange Coalesce.

(** * Numbers and objects *)
(** An integer of 64 bits as serde_json writes it. *)
Definition integer_text (t : string) : bool :=
  match parse_i64 t with
  | Some n => t =?s show n
  | None => match parse_u64 t with Some n => t =?s show n | None => false end
  end.
(** A value without floating-point numbers, its objects without repeated keys. *)
Fixpoint plain (v : Value) : bool :=
  match v with
  | VNumber t => integer_text t
  | VArray l => forallb plain l
  | VObject o => bool_decide (NoDup (List.map fst o)) && forallb (fun kv => plain (snd kv)) o
  | _ => true
  end.
Lemma integer_text_show n : 0 <= n <= u64_max -> integer_text (show n) = true.
Proof.
  intros H. unfold integer_text. destruct (parse_i64 (show n)) as [m|] eqn:E.
  - destruct (decide (n <= i64_max)) as [Hn|Hn].
    + pose proof (as_i64_show n ltac:(lia)) as Hi. unfold as_i64, json_i64 in Hi.
      destruct (_ || _); [done|]. rewrite E in Hi. injection Hi as ->. apply String.eqb_refl.
    + exfalso. destruct (show_digit n H) as (c & r & Es & Hc). pose proof (digits_value_nat n H) as Hv.
      rewrite Es in *. assert (Hp : (if n <=? i64_max then Some n else None) = Some m).
      { rewrite <- E. cbn [parse_i64]. rewrite <- Es in Hv.
        destruct c as [[] [] [] [] [] [] [] []]; try discriminate Hc; rewrite Es in Hv; cbn [parse_i64]; by rewrite Hv. }
      destruct (Z.leb_spec n i64_max); [lia|done].
  - pose proof (as_u64_show n H) as Hu. unfold as_u64, json_u64 in Hu. destruct (starts_with "+" _); [done|].
    rewrite Hu. apply String.eqb_refl.
Qed.
Lemma insert_key_in k key v m : k ∈ List.map fst (map_insert key v m) -> k = key \/ k ∈ List.map fst m.
Proof. induction m as [|[k' w] m IH]; cbn; [set_solver|]. destruct (String.eqb_spec k' key); cbn; set_solver. Qed.
Lemma insert_keys key v m : NoDup (List.map fst m) -> NoDup (List.map fst (map_insert key v m)).
Proof.
  induction m as [|[k w] m IH]; cbn; [intros _; apply NoDup_singleton|]. intros [Hk H]%NoDup_cons.
  destruct (String.eqb_spec k key) as [->|Hne]; cbn; apply NoDup_cons; [done|]. split; [|by apply IH].
  intros [->|Hx]%insert_key_in; done.
Qed.
Lemma plain_insert key v m : plain (VObject m) = true -> plain v = true -> plain (VObject (map_insert key v m)) = true.
Proof.
  cbn. rewrite !andb_true_iff, !bool_decide_eq_true. intros [Hk Hm] Hv. split; [by apply insert_keys|].
  clear Hk. induction m as [|[k w] m IH]; cbn in *; [by rewrite Hv|]. apply andb_true_iff in Hm as [Hw Hm].
  destruct (k =?s key); cbn; [by rewrite Hv, Hm|]. by rewrite Hw, IH.
Qed.

(** Lookups in an object that fields were inserted into. *)
Ltac lookups := rewrite ?map_get_insert; cbn [String.eqb Ascii.eqb Bool.eqb].

Section Lane.
Variable from_str : string -> option Value.
Variable to_string : Value -> string.
(** The subject events of a session are published on. *)
Variable subject_of : string -> string.
(** What is printed is read back, floating-point numbers aside. *)
Hypothesis print_parse : forall v, plain v = true -> from_str (to_string v) = Some v.
Abbreviation fragment_of := (fragment_of from_str).
Abbreviation merged_payload := (merged_payload from_str to_string).

(** * Sources *)
(** The envelope of an event and the object it carries as text. *)
Definition parts (e : EventPublish) : option (Map * Map) :=
  body ← from_str (ev_payload e) ≫= as_object;
  raw ← map_get "data" body ≫= as_str;
  data ← from_str raw ≫= as_object;
  Some (body, data).
Definition canonical_key (data : Map) : option string := map_get "content_key" data ≫= as_str.
Definition canonical_ok (f : Fragment) (data : Map) : bool :=
  (0 <=? fr_first_idx f) && (fr_first_idx f <=? fr_idx f)
  && (negb (fr_replaces f) || bool_decide (fr_content_offset f = Some 0))
  && trimmed_kind (sk_event_type (fr_key f)) && negb (sealed (VObject data))
  && is_char_boundary (fr_text f) 0.
(** A fragment as the agent's broadcaster and the server's publisher make it:
    no floating-point number, an index, no count of its own, the subject of its
    session, and a canonical range whose key is text, whose indices are in order
    and whose text starts with a character; only the first fragment of a range
    replaces what was there. *)
Definition fragment_made (e : EventPublish) (f : Fragment) (body data : Map) : bool :=
  plain (VObject body) && plain (VObject data)
  && match map_get "content_key" data with None | Some (VString _) => true | _ => false end
  && bool_decide (map_get "idx" body ≫= as_i64 = Some (fr_idx f)) && (fr_idx f <? i64_max)
  && match map_get "coalescedCount" body with None => true | _ => false end
  && (ev_subject e =?s subject_of (sk_session (fr_key f)))
  && (negb (bool_decide (is_Some (canonical_key data))) || canonical_ok f data).
Definition made (e : EventPublish) : bool :=
  match fragment_of e, parts e with
  | Some f, Some (body, data) => fragment_made e f body data
  | Some _, None => false
  | None, _ => true
  end.
(** How many source indices an event says it stands for. *)
Definition count_of (body : Map) : Z := default 1 (map_get "coalescedCount" body ≫= as_u64).

Definition fragment_from (body data : Map) : option Fragment :=
  event_type ← map_get "type" body ≫= as_str;
  if negb (bool_decide (event_type ∈ FRAGMENT_TYPES)) then None else
  text ← map_get "text" data ≫= as_str;
  let idx := default (-1) (map_get "idx" body ≫= as_i64) in
  let '(content_offset, content_end) := content_range (canonical_key data) (VObject data) in
  if bool_decide (is_Some (canonical_key data))
     && (bool_decide (content_offset = None) || bool_decide (content_end = None)
         || negb (bool_decide (as_u64 (index "content_bytes" (VObject data)) = Some (Z.of_nat (String.length text)))))
  then None
  else Some {|
    fr_key := {|
      sk_session := text_of "sessionId" (VObject body);
      sk_run := text_of "runId" (VObject body);
      sk_epoch := default 0 (map_get "epoch" body ≫= as_i64);
      sk_event_type := event_type;
      sk_tool := tool_of (VObject data);
      sk_block := block_of (VObject data);
      sk_content := default "" (canonical_key data) |};
    fr_idx := idx;
    fr_first_idx := if bool_decide (is_Some (canonical_key data))
                    then default idx (as_i64 (index "content_first_idx" (VObject data))) else idx;
    fr_content_offset := content_offset;
    fr_content_end := content_end;
    fr_text := text;
    fr_replaces := bool_decide (map_get "snapshot" data ≫= as_bool = Some true) |}.
Lemma fragment_parts e body data : parts e = Some (body, data) -> fragment_of e = fragment_from body data.
Proof.
  unfold parts, Coalesce.fragment_of. destruct (from_str (ev_payload e)) as [[| | | | |b]|]; try done. cbn.
  destruct (map_get "data" b) as [[| | |raw| |]|] eqn:Hd; try done. cbn.
  destruct (from_str raw) as [[| | | | |d]|] eqn:Hr; try done. cbn. intros [= <- <-].
  reflexivity.
Qed.

(** * What a merge writes is what a reader reads *)
Definition merged_body (body data : Map) (covered : Z) : Map :=
  map_insert "data" (VString (to_string (VObject data))) (map_insert "coalescedCount" (json_u64 covered) body).
Definition with_text (text : string) (replaces : bool) (object : Map) : Map :=
  let object := map_insert "text" (VString text) object in
  if replaces then map_insert "snapshot" (VBool true) object else object.
Lemma merged_payload_parts e body data text covered replaces :
  parts e = Some (body, data) ->
  merged_payload e text covered replaces =
  object ← merged_range body data text covered;
  Some (to_string (VObject (merged_body body (with_text text replaces object) covered))).
Proof.
  unfold parts, Coalesce.merged_payload. destruct (from_str (ev_payload e)) as [[| | | | |b]|]; try done. cbn.
  destruct (map_get "data" b) as [[| | |raw| |]|] eqn:Hd; try done. cbn.
  destruct (from_str raw) as [[| | | | |d]|] eqn:Hr; try done. cbn. by intros [= <- <-].
Qed.
Lemma plain_json_u64 n : 0 <= n <= u64_max -> plain (json_u64 n) = true.
Proof. apply integer_text_show. Qed.
Lemma merged_parts e body data covered :
  plain (VObject body) = true -> plain (VObject data) = true -> 0 <= covered <= u64_max ->
  parts (e <| ev_payload := to_string (VObject (merged_body body data covered)) |>) =
  Some (merged_body body data covered, data).
Proof.
  intros Hb Hd Hc. unfold parts. change (ev_payload (e <| ev_payload := ?p |>)) with p. rewrite print_parse.
  2:{ apply plain_insert; [|done]. by apply plain_insert, plain_json_u64. }
  assert (E : map_get "data" (merged_body body data covered) = Some (VString (to_string (VObject data))))
    by (unfold merged_body; by rewrite map_get_insert).
  cbn [as_object mbind option_bind]. rewrite E. cbn. by rewrite print_parse.
Qed.
Lemma plain_text text replaces object : plain (VObject object) = true ->
  plain (VObject (with_text text replaces object)) = true.
Proof. intros H. unfold with_text. destruct replaces; repeat apply plain_insert; done. Qed.
Lemma merged_legacy body data text covered replaces f :
  canonical_key data = None -> fragment_from body data = Some f ->
  (fr_replaces f = true -> replaces = true) ->
  fragment_from (merged_body body (with_text text replaces data) covered) (with_text text replaces data) =
  Some {| fr_key := fr_key f; fr_idx := fr_idx f; fr_first_idx := fr_first_idx f;
          fr_content_offset := fr_content_offset f; fr_content_end := fr_content_end f;
          fr_text := text; fr_replaces := replaces |}.
Proof.
  intros Hc. unfold fragment_from, merged_body, with_text, text_of, tool_of, block_of, content_range, canonical_key, index in *.
  rewrite !get_object. destruct replaces; lookups.
  all: rewrite ?Hc in *; destruct (map_get "type" body ≫= as_str) as [t|]; [|done];
    cbn [mbind option_bind]; destruct (negb _); [done|]; destruct (map_get "text" data ≫= as_str) as [s|]; [|done];
    cbn [mbind option_bind as_str bool_decide andb]; intros [= <-] Hr; cbn in *; do 2 f_equal.
  apply bool_decide_eq_false. intros E. discriminate (Hr (bool_decide_eq_true_2 _ E)).
Qed.
(** A canonical range with its text and first index replaced. *)
Definition ranged (data : Map) (text : string) (first content_end : Z) : Map :=
  let length := Z.of_nat (String.length text) in
  map_insert "content_first_idx" (json_i64 first)
    (map_insert "content_bytes" (json_u64 length)
       (map_insert "content_offset" (json_u64 (content_end - length)) data)).
Lemma as_u64_get v n : as_u64 (default VNull v) = Some n -> v ≫= as_u64 = Some n.
Proof. by destruct v. Qed.
Lemma checked_add_some a b n : u64_checked_add a b = Some n -> n = a + b /\ n <= u64_max.
Proof. unfold u64_checked_add. destruct (Z.leb_spec (a + b) u64_max); [|done]. by intros [= <-]. Qed.
Lemma plain_ranged data text first content_end :
  plain (VObject data) = true -> Z.of_nat (String.length text) <= content_end <= u64_max -> 0 <= first <= i64_max ->
  plain (VObject (ranged data text first content_end)) = true.
Proof.
  intros H Hl Hf. repeat apply plain_insert; try done; apply integer_text_show; unfold i64_max, u64_max in *; lia.
Qed.
(** What a canonical fragment says about its range. *)
Lemma canonical_fields body data f key :
  canonical_key data = Some key -> fragment_from body data = Some f ->
  exists offset content_end,
    fr_content_offset f = Some offset /\ fr_content_end f = Some content_end
    /\ map_get "content_offset" data ≫= as_u64 = Some offset
    /\ map_get "content_bytes" data ≫= as_u64 = Some (Z.of_nat (String.length (fr_text f)))
    /\ content_end = offset + Z.of_nat (String.length (fr_text f)) /\ content_end <= u64_max.
Proof.
  intros Hk Hf. unfold fragment_from in Hf. destruct (map_get "type" body ≫= as_str) as [t|]; [|done].
  cbn [mbind option_bind] in Hf. destruct (negb _); [done|].
  destruct (map_get "text" data ≫= as_str) as [s|]; [|done]. rewrite Hk in Hf.
  unfold content_range, index in Hf. rewrite !get_object in Hf. cbn [mbind option_bind] in Hf.
  destruct (as_u64 (default VNull (map_get "content_offset" data))) as [offset|] eqn:Ho; [|done].
  cbn [mbind option_bind] in Hf. destruct (as_u64 (default VNull (map_get "content_bytes" data))) as [n|] eqn:Hb.
  2: done.
  cbn [mbind option_bind] in Hf. destruct (u64_checked_add offset n) as [e|] eqn:He; [|done].
  rewrite bool_decide_true in Hf by eauto. rewrite (bool_decide_false (Some offset = None)) in Hf by done.
  rewrite (bool_decide_false (Some e = None)) in Hf by done. cbn [orb andb] in Hf.
  case_bool_decide as Hn; [|done]. injection Hf as <-. injection Hn as ->. exists offset, e. cbn [fr_content_offset fr_content_end fr_text].
  apply checked_add_some in He as [-> He]. split_and!; try done; by apply as_u64_get.
Qed.
Lemma merged_range_canonical body data text covered f key content_end idx :
  canonical_key data = Some key -> fragment_from body data = Some f -> fr_content_end f = Some content_end ->
  Z.of_nat (String.length text) <= content_end -> covered <= i64_max -> map_get "idx" body ≫= as_i64 = Some idx ->
  merged_range body data text covered = Some (ranged data text (idx - covered + 1) content_end).
Proof.
  intros Hk Hf He Hl Hc Hi. destruct (canonical_fields _ _ _ _ Hk Hf) as (offset & e & _ & He' & Ho & Hb & -> & Hmax).
  rewrite He in He'. injection He' as ->. unfold merged_range. unfold canonical_key in Hk.
  destruct (map_get "content_key" data); [|done]. rewrite Ho, Hb. cbn [mbind option_bind].
  unfold u64_checked_add. rewrite (proj2 (Z.leb_le _ _)) by done. cbn [mbind option_bind].
  rewrite (proj2 (Z.ltb_ge _ _)) by done. rewrite Hi. cbn [mbind option_bind].
  unfold usize_to_i64. rewrite (proj2 (Z.leb_le _ _)) by done. done.
Qed.
Lemma merged_canonical body data text covered replaces f key content_end first :
  canonical_key data = Some key -> fragment_from body data = Some f ->
  (fr_replaces f = true -> replaces = true) ->
  0 <= first <= i64_max -> Z.of_nat (String.length text) <= content_end <= u64_max ->
  let data' := with_text text replaces (ranged data text first content_end) in
  fragment_from (merged_body body data' covered) data' =
  Some {| fr_key := fr_key f; fr_idx := fr_idx f; fr_first_idx := first;
          fr_content_offset := Some (content_end - Z.of_nat (String.length text));
          fr_content_end := Some content_end;
          fr_text := text; fr_replaces := replaces |}.
Proof.
  intros Hk Hf Hr Hfirst Hl. cbv zeta. revert Hf Hr.
  unfold fragment_from, merged_body, with_text, ranged, text_of, tool_of, block_of, content_range, canonical_key, index in *.
  rewrite !get_object. cbv zeta. destruct replaces; lookups.
  all: rewrite Hk; destruct (map_get "type" body ≫= as_str) as [t|]; [|done];
    cbn [mbind option_bind]; destruct (negb _); [done|]; destruct (map_get "text" data ≫= as_str) as [s|]; [|done];
    cbn [mbind option_bind as_str default from_option]; destruct (_ && _); [done|].
  all: change (@id ?A ?x) with x; assert (Hsum : u64_checked_add (content_end - Z.of_nat (String.length text))
    (Z.of_nat (String.length text)) = Some content_end)
    by (unfold u64_checked_add; rewrite Z.sub_add, (proj2 (Z.leb_le _ _)) by lia; done).
  all: rewrite !as_u64_show, as_i64_show by (unfold u64_max in *; lia); cbn [mbind option_bind]; rewrite Hsum.
  all: rewrite !(bool_decide_true (Some _ = Some _)), (bool_decide_false (Some _ = None)), (bool_decide_false (Some content_end = None)) by done.
  all: cbn [orb negb]; rewrite andb_false_r; intros [= <-] Hr; cbn [fr_key fr_replaces fr_idx] in *.
  all: rewrite (bool_decide_true (is_Some (Some key))) by eauto. 1: done. do 2 f_equal.
  apply bool_decide_eq_false. intros E. discriminate (Hr (bool_decide_eq_true_2 _ E)).
Qed.

(** * Groups *)
(** The text a reader has after a list of fragments, and whether it replaces
    what was there before. *)
Definition read_text (acc : string * bool) (f : Fragment) : string * bool :=
  (if fr_replaces f then fr_text f else fst acc +:+ fr_text f, snd acc || fr_replaces f).
Definition group_text (fs : list Fragment) : string * bool := List.fold_left read_text fs ("", false).
(** One fragment directly follows another of its stream. *)
Definition follows (a b : Fragment) : Prop :=
  fr_key a = fr_key b /\ fr_idx a + 1 = fr_first_idx b /\ fr_content_end a = fr_content_offset b.
(** The fragments of consecutive events, with the first and the last of them. *)
Inductive chain : list EventPublish -> list Fragment -> Fragment -> Fragment -> Prop :=
| chain_one e f : fragment_of e = Some f -> chain [e] [f] f f
| chain_more l fs a b e f : chain l fs a b -> fragment_of e = Some f -> follows b f ->
    chain (l ++ [e]) (fs ++ [f]) a f.
Definition payload_sum (l : list EventPublish) : Z := fold_right (fun e n => payload_len e + n) 0 l.

(** What a reader finds in an event published for the fragments [fs]. *)
Definition merged_fragment (fs : list Fragment) (a b : Fragment) : Fragment := {|
  fr_key := fr_key b;
  fr_idx := fr_idx b;
  fr_first_idx := if bool_decide (is_Some (fr_content_offset a)) then fr_first_idx a else fr_idx b;
  fr_content_offset := fr_content_offset a;
  fr_content_end := fr_content_end b;
  fr_text := fst (group_text fs);
  fr_replaces := snd (group_text fs) |}.
(** The published event [e] stands for the sources [l] and says so. *)
Record merged_from (e : EventPublish) (l : list EventPublish) (fs : list Fragment) (a b : Fragment) : Prop := {
  mf_chain : chain l fs a b;
  mf_fragment : fragment_of e = Some (merged_fragment fs a b);
  mf_count : exists body data, parts e = Some (body, data) /\ fr_idx b - count_of body + 1 = fr_first_idx a
    /\ (is_Some (fr_content_offset b) -> sealed (VObject data) = false);
  mf_subject : Forall (fun s => ev_subject s = ev_subject e) l;
  mf_bytes : payload_sum l <= MAX_MERGED_BYTES;
  mf_length : Z.of_nat (List.length l) <= MAX_MERGED_FRAGMENTS
}.
Definition stands_for (e : EventPublish) (l : list EventPublish) : Prop :=
  l = [e] \/ exists fs a b, merged_from e l fs a b.

(** * What the coalescer holds *)
Lemma made_parts e f : made e = true -> fragment_of e = Some f ->
  exists body data, parts e = Some (body, data) /\ fragment_from body data = Some f
    /\ fragment_made e f body data = true.
Proof.
  unfold made. intros H Hf. rewrite Hf in H. destruct (parts e) as [[body data]|] eqn:Hp; [|done].
  exists body, data. split_and!; [done| |done]. by rewrite <- (fragment_parts _ _ _ Hp).
Qed.
Inductive held : Pending -> list EventPublish -> Prop :=
| held_one e f now : fragment_of e = Some f -> held (pending_of f e now) [e]
| held_more p l e f : held p l -> fragment_of e = Some f -> accepts p f e = true -> held (merge f e p) (l ++ [e]).
Record holds (p : Pending) (l : list EventPublish) (fs : list Fragment) (a b : Fragment) : Prop := {
  ho_chain : chain l fs a b;
  ho_key : pd_key p = fr_key b;
  ho_newest : pd_newest_idx p = fr_idx b;
  ho_first : pd_first_idx p = fr_first_idx a;
  ho_end : pd_content_end p = fr_content_end b;
  ho_event : pd_event p ∈ l /\ fragment_of (pd_event p) = Some b;
  ho_text : group_text fs = (pd_text p, pd_replaces p);
  ho_merged : Z.of_nat (List.length l) = pd_merged p + 1;
  ho_bytes : payload_sum l = pd_bytes p;
  ho_bound : pd_merged p = 0 \/ (pd_bytes p <= MAX_MERGED_BYTES /\ pd_merged p + 1 <= MAX_MERGED_FRAGMENTS)
}.
Lemma payload_sum_app l l' : payload_sum (l ++ l') = payload_sum l + payload_sum l'.
Proof. induction l as [|e l IH]; cbn; [done|]. unfold payload_sum in *. lia. Qed.
Lemma group_text_app fs f : group_text (fs ++ [f]) = read_text (group_text fs) f.
Proof. unfold group_text. by rewrite fold_left_app. Qed.
Lemma held_holds p l : held p l -> exists fs a b, holds p l fs a b.
Proof.
  intros H. induction H as [e f now Hf|p l e f Hh (fs & a & b & [H1 H2 H3 H4 H5 H6 H7 H8 H9 H10]) Hf Hacc].
  - exists [f], f, f. split; cbn; try done; [by constructor| | |lia|by left].
    + split; [set_solver|done].
    + unfold group_text, read_text. cbn. destruct (fr_replaces f); done.
  - unfold accepts in Hacc. rewrite !andb_true_iff, !bool_decide_eq_true, Z.ltb_lt, Z.leb_le in Hacc.
    destruct Hacc as [[[[Hk Hi] He] Hn] Hb]. exists (fs ++ [f]), a, f.
    assert (Hi' : fr_idx b + 1 = fr_first_idx f).
    { rewrite <- H3. unfold i64_checked_add in Hi. destruct (_ && _); [|done]. by injection Hi. }
    split; cbn -[Z.add]; try done.
    + apply (chain_more l fs a b e f); [done|done|]. split_and!; [by rewrite <- H2|done|by rewrite <- H5].
    + split; [set_solver|done].
    + rewrite group_text_app, H7. unfold read_text. cbn. by destruct (fr_replaces f).
    + rewrite length_app. cbn. lia.
    + rewrite payload_sum_app, H9. cbn. lia.
    + right. lia.
Qed.

(** A source is legacy, or carries a range of canonical content. *)
Inductive shape (f : Fragment) : Prop :=
| shape_legacy : fr_content_offset f = None -> fr_content_end f = None -> fr_first_idx f = fr_idx f -> shape f
| shape_canonical offset : fr_content_offset f = Some offset -> 0 <= offset ->
    fr_content_end f = Some (offset + Z.of_nat (String.length (fr_text f))) ->
    offset + Z.of_nat (String.length (fr_text f)) <= u64_max ->
    0 <= fr_first_idx f <= fr_idx f -> (fr_replaces f = true -> offset = 0) ->
    trimmed_kind (sk_event_type (fr_key f)) = true -> is_char_boundary (fr_text f) 0 = true -> shape f.
Lemma legacy_fields body data f : canonical_key data = None -> fragment_from body data = Some f ->
  fr_content_offset f = None /\ fr_content_end f = None /\ fr_first_idx f = fr_idx f.
Proof.
  unfold fragment_from, content_range. intros ->. destruct (map_get "type" body ≫= as_str) as [t|]; [|done].
  cbn. destruct (negb _); [done|]. destruct (map_get "text" data ≫= as_str); [|done]. cbn. by intros [= <-].
Qed.
Lemma as_u64_nonneg v n : as_u64 v = Some n -> 0 <= n.
Proof.
  unfold as_u64. destruct v as [| |t| | |]; try done. destruct (starts_with "+" t); [done|].
  assert (H : forall s acc, 0 <= acc -> digits_value acc s = Some n -> 0 <= n).
  { induction s as [|c s IH]; cbn [digits_value]; intros acc Ha; [by intros [= <-]|].
    destruct (is_ascii_digit c) eqn:Hc; [|done]. destruct (_ <=? _); [|done]. apply IH.
    unfold is_ascii_digit in Hc. apply andb_true_iff in Hc as [Hc _]. rewrite N.leb_le in Hc. lia. }
  unfold parse_u64. intros Hp. apply (H (match t with String "+" (String _ _ as r) => r | _ => t end) 0); [lia|].
  revert Hp. generalize (match t with String "+" (String _ _ as r) => r | _ => t end). by intros [].
Qed.
Lemma made_canonical e f body data key :
  fragment_made e f body data = true -> canonical_key data = Some key -> canonical_ok f data = true.
Proof.
  unfold fragment_made. intros H Hk. apply andb_true_iff in H as [_ H]. rewrite Hk in H.
  by rewrite bool_decide_true in H by eauto.
Qed.
Lemma made_shape e f : made e = true -> fragment_of e = Some f -> shape f.
Proof.
  intros Hm Hf. destruct (made_parts e f Hm Hf) as (body & data & _ & Hfrom & Hok).
  destruct (canonical_key data) as [key|] eqn:Hk.
  - destruct (canonical_fields _ _ _ _ Hk Hfrom) as (offset & ce & Ho & He & Hget & _ & -> & Hmax).
    pose proof (made_canonical _ _ _ _ _ Hok Hk) as Hc. unfold canonical_ok in Hc.
    rewrite !andb_true_iff, !Z.leb_le in Hc. destruct Hc as [[[[[H0 H1] Hr] Hkind] _] Hchar].
    apply (shape_canonical f offset); try done.
    + destruct (map_get "content_offset" data); [|done]. by eapply as_u64_nonneg.
    + intros E. rewrite E, Ho in Hr. cbn in Hr. apply bool_decide_eq_true in Hr. congruence.
  - apply legacy_fields in Hfrom as (H1 & H2 & H3); [|done]. by apply shape_legacy.
Qed.
Lemma chain_shape l fs a b : chain l fs a b -> Forall (fun e => made e = true) l ->
  (fr_content_offset a = None /\ fr_content_end b = None /\ fr_idx b - Z.of_nat (List.length l) + 1 = fr_first_idx a)
  \/ exists offset, fr_content_offset a = Some offset /\ 0 <= offset /\ 0 <= fr_first_idx a <= fr_idx b
       /\ fr_content_end b = Some (offset + Z.of_nat (String.length (fst (group_text fs))))
       /\ offset + Z.of_nat (String.length (fst (group_text fs))) <= u64_max.
Proof.
  intros H. induction H as [e f Hf|l fs a b e f Hc IH Hf (_ & Hi & He)]; intros Hm.
  - rewrite Forall_singleton in Hm. destruct (made_shape _ _ Hm Hf) as [Ho Hend Hfirst|offset Ho H0 Hend Hmax Hfirst _ _ _].
    + left. split_and!; [done|done|]. cbn [List.length]. lia.
    + right. exists offset. unfold group_text. cbn [fold_left fst read_text].
      assert (E : (if fr_replaces f then fr_text f else "" +:+ fr_text f) = fr_text f) by by destruct (fr_replaces f).
      cbn [fst snd]. rewrite E. done.
  - apply Forall_app in Hm as [Hm Hme]. rewrite Forall_singleton in Hme.
    rewrite length_app, group_text_app. unfold read_text. cbn [fst List.length].
    destruct (made_shape _ _ Hme Hf) as [Ho Hend Hfirst|offset Ho H0 Hend Hmax Hfirst Hr _ _].
    + destruct (IH Hm) as [(Ha & Hb & Hn)|(o & _ & _ & _ & Hb & _)]; [|congruence].
      left. split_and!; [done|done|lia].
    + destruct (IH Hm) as [(Ha & Hb & Hn)|(o & Ha & Ho0 & Hrange & Hb & _)]; [congruence|].
      right. exists o. rewrite He, Ho in Hb. injection Hb as ->. split_and!; [done|done|lia|lia| |].
      all: destruct (fr_replaces f); [specialize (Hr eq_refl)|rewrite length_append]; rewrite ?Hend; try f_equal; lia.
Qed.

(** * What is published *)
Lemma chain_length l fs a b : chain l fs a b -> (1 <= List.length l)%nat.
Proof. intros H. destruct H; rewrite ?length_app; cbn; lia. Qed.
Lemma chain_single e fs a b : chain [e] fs a b -> fragment_of e = Some b /\ a = b.
Proof.
  intros H. remember [e] as l eqn:E. destruct H as [e' f Hf|l fs a b e' f H _ _]; [by injection E as ->|].
  apply chain_length in H. apply (f_equal List.length) in E. rewrite length_app in E. cbn in E. lia.
Qed.
Lemma chain_keys l fs a b : chain l fs a b ->
  Forall (fun e => exists f, fragment_of e = Some f /\ fr_key f = fr_key b) l.
Proof.
  intros H. induction H as [e f Hf|l fs a b e f Hc IH Hf (Hk & _ & _)]; [apply Forall_singleton; eauto|].
  apply Forall_app. split; [by rewrite <- Hk|]. apply Forall_singleton. eauto.
Qed.
Lemma made_subject e f : made e = true -> fragment_of e = Some f -> ev_subject e = subject_of (sk_session (fr_key f)).
Proof.
  intros Hm Hf. destruct (made_parts e f Hm Hf) as (body & data & _ & _ & Hok). unfold fragment_made in Hok.
  rewrite !andb_true_iff in Hok. destruct Hok as [[_ Hs] _]. by apply String.eqb_eq.
Qed.
Lemma chain_subject l fs a b e : chain l fs a b -> Forall (fun e => made e = true) l ->
  made e = true -> fragment_of e = Some b -> Forall (fun s => ev_subject s = ev_subject e) l.
Proof.
  intros Hc Hm He Hb. apply chain_keys in Hc. rewrite (made_subject _ _ He Hb).
  rewrite Forall_forall in *. intros s Hs. destruct (Hc s Hs) as (f & Hf & <-). apply made_subject; auto.
Qed.
Lemma count_of_merged body data covered : 0 <= covered <= u64_max -> count_of (merged_body body data covered) = covered.
Proof. intros H. unfold count_of, merged_body. lookups. cbn [mbind option_bind]. by rewrite as_u64_show. Qed.
Lemma group_replaces fs f : f ∈ fs -> fr_replaces f = true -> snd (group_text fs) = true.
Proof.
  intros Hin Hf. induction fs as [|g fs IH] using rev_ind; [set_solver|]. rewrite group_text_app. cbn.
  apply elem_of_app in Hin as [Hin| ->%list_elem_of_singleton]; [by rewrite IH|]. by rewrite Hf, orb_true_r.
Qed.
Lemma chain_last l fs a b : chain l fs a b -> b ∈ fs.
Proof. intros H. destruct H; set_solver. Qed.
Lemma fragment_plain e f body data : fragment_made e f body data = true ->
  plain (VObject body) = true /\ plain (VObject data) = true /\ map_get "idx" body ≫= as_i64 = Some (fr_idx f)
  /\ fr_idx f < i64_max /\ (canonical_key data = None -> map_get "content_key" data = None).
Proof.
  unfold fragment_made. rewrite !andb_true_iff, bool_decide_eq_true, Z.ltb_lt. intros [[[[[[[Hb Hd] Hk] Hi] Hm] _] _] _].
  split_and!; [done..|]. unfold canonical_key. destruct (map_get "content_key" data) as [[]|]; done.
Qed.
Lemma sealed_with_text text replaces data : sealed (VObject (with_text text replaces data)) = sealed (VObject data).
Proof. unfold sealed, with_text. rewrite !get_object. destruct replaces; by lookups. Qed.
Lemma sealed_ranged data text first content_end : sealed (VObject (ranged data text first content_end)) = sealed (VObject data).
Proof. unfold sealed, ranged. rewrite !get_object. by lookups. Qed.
Lemma merged_reads e f body data text replaces first covered :
  made e = true -> fragment_of e = Some f -> parts e = Some (body, data) ->
  (fr_replaces f = true -> replaces = true) -> 0 <= covered <= i64_max ->
  (fr_content_end f = None -> first = fr_idx f) ->
  (forall content_end, fr_content_end f = Some content_end ->
     Z.of_nat (String.length text) <= content_end /\ 0 <= first /\ fr_idx f - covered + 1 = first) ->
  exists payload, merged_payload e text covered replaces = Some payload
    /\ fragment_of (e <| ev_payload := payload |>) =
       Some {| fr_key := fr_key f; fr_idx := fr_idx f; fr_first_idx := first;
               fr_content_offset := (fun n => n - Z.of_nat (String.length text)) <$> fr_content_end f;
               fr_content_end := fr_content_end f; fr_text := text; fr_replaces := replaces |}
    /\ exists body' data', parts (e <| ev_payload := payload |>) = Some (body', data') /\ count_of body' = covered
         /\ sealed (VObject data') = sealed (VObject data).
Proof.
  intros Hm Hf Hp Hr Hc Hlegacy Hcanon. rewrite (merged_payload_parts _ _ _ _ _ _ Hp).
  destruct (made_parts e f Hm Hf) as (body0 & data0 & Hp0 & Hfrom & Hok). rewrite Hp in Hp0. injection Hp0 as <- <-.
  apply fragment_plain in Hok as (Hb & Hd & Hi & Hmax & Hkey).
  assert (Hc' : 0 <= covered <= u64_max) by (unfold i64_max, u64_max in *; lia).
  assert (Hdone : forall data' F, plain (VObject data') = true -> sealed (VObject data') = sealed (VObject data) ->
    fragment_from (merged_body body data' covered) data' = Some F ->
    exists payload, Some (to_string (VObject (merged_body body data' covered))) = Some payload
      /\ fragment_of (e <| ev_payload := payload |>) = Some F
      /\ exists body' data'', parts (e <| ev_payload := payload |>) = Some (body', data'') /\ count_of body' = covered
           /\ sealed (VObject data'') = sealed (VObject data)).
  { intros data' F Hd' Hs HF. eexists. split; [reflexivity|]. pose proof (merged_parts e body data' covered Hb Hd' Hc') as Hp'.
    split; [by rewrite (fragment_parts _ _ _ Hp')|]. eexists _, _. split_and!; [exact Hp'|by apply count_of_merged|done]. }
  destruct (canonical_key data) as [key|] eqn:Hk.
  - destruct (canonical_fields _ _ _ _ Hk Hfrom) as (offset & ce & _ & He & _ & _ & _ & Hce).
    destruct (Hcanon _ He) as (Hl & H0 & <-). rewrite (merged_range_canonical _ _ _ _ _ _ _ _ Hk Hfrom He Hl (proj2 Hc) Hi).
    cbn [mbind option_bind]. apply Hdone.
    + apply plain_text, plain_ranged; [done|lia|lia].
    + by rewrite sealed_with_text, sealed_ranged.
    + rewrite (merged_canonical _ _ _ _ _ _ _ ce _ Hk Hfrom Hr) by lia. by rewrite He.
  - destruct (legacy_fields _ _ _ Hk Hfrom) as (Ho & He & Hfirst). unfold merged_range. rewrite (Hkey eq_refl).
    cbn [mbind option_bind]. apply Hdone; [by apply plain_text|by rewrite sealed_with_text|].
    rewrite (merged_legacy _ _ _ _ _ _ Hk Hfrom Hr), Ho, He, Hfirst. by rewrite Hlegacy.
Qed.
(** The count of a group is the length of the index range it stands for. *)
Lemma covered_spec p l fs a b : holds p l fs a b -> Forall (fun e => made e = true) l -> pd_merged p <> 0 ->
  fr_idx b < i64_max -> covered_count p = fr_idx b - fr_first_idx a + 1 /\ 0 <= covered_count p <= i64_max.
Proof.
  intros [Hc _ Hn Hfi He _ _ Hme _ Hbound] Hm Hne Hmax. destruct Hbound as [|[_ Hcount]]; [done|].
  unfold covered_count. rewrite He, Hn, Hfi. unfold MAX_MERGED_FRAGMENTS in Hcount.
  destruct (chain_shape _ _ _ _ Hc Hm) as [(_ & -> & Hi)|(o & _ & _ & Hr & -> & _)].
  - unfold i64_max. lia.
  - unfold as_usize. rewrite Z.mod_small by (unfold i64_max in *; lia). lia.
Qed.
Lemma made_sealed e f body data : made e = true -> fragment_of e = Some f -> parts e = Some (body, data) ->
  is_Some (fr_content_offset f) -> sealed (VObject data) = false.
Proof.
  intros Hm Hf Hp Ho. destruct (made_parts e f Hm Hf) as (body0 & data0 & Hp0 & Hfrom & Hok).
  rewrite Hp in Hp0. injection Hp0 as <- <-. destruct (canonical_key data) as [key|] eqn:Hk.
  - pose proof (made_canonical _ _ _ _ _ Hok Hk) as Hc. unfold canonical_ok in Hc.
    rewrite !andb_true_iff, negb_true_iff in Hc. by destruct Hc as [[_ Hs] _].
  - apply legacy_fields in Hfrom as (Hn & _); [|done]. rewrite Hn in Ho. by destruct Ho.
Qed.
(** Nothing the coalescer holds is lost when it is flushed. *)
Lemma flush_stands p l : held p l -> Forall (fun e => made e = true) l ->
  exists e, flush_pending from_str to_string p = [e] /\ stands_for e l.
Proof.
  intros Hh Hm. destruct (held_holds p l Hh) as (fs & a & b & H). destruct (H) as [Hc Hk Hn Hfi He [Hin Hev] Ht Hme Hb Hbound].
  unfold flush_pending. destruct (Z.eqb_spec (pd_merged p) 0) as [E|E].
  - exists (pd_event p). split; [done|]. left. destruct l as [|e [|]]; cbn in Hme; [lia| |lia].
    by apply list_elem_of_singleton in Hin as ->.
  - destruct Hbound as [|[Hbytes Hcount]]; [done|].
    assert (Hme' : made (pd_event p) = true) by (rewrite Forall_forall in Hm; by apply Hm).
    destruct (made_parts _ _ Hme' Hev) as (body & data & Hp & _ & Hok).
    apply fragment_plain in Hok as (_ & _ & _ & Hmax & _).
    assert (Htext : pd_text p = fst (group_text fs) /\ pd_replaces p = snd (group_text fs)) by by rewrite Ht.
    destruct Htext as [-> ->].
    destruct (covered_spec _ _ _ _ _ H Hm E Hmax) as [Hcov Hrange].
    destruct (merged_reads (pd_event p) b body data (fst (group_text fs)) (snd (group_text fs))
      (if bool_decide (is_Some (fr_content_offset a)) then fr_first_idx a else fr_idx b) (covered_count p))
      as (payload & -> & Hfrag & Hparts); try done.
    + by apply group_replaces, (chain_last l _ a).
    + intros E'. by destruct (chain_shape _ _ _ _ Hc Hm) as [(-> & _ & _)|(o & _ & _ & _ & ? & _)]; [|congruence].
    + intros ce E'. destruct (chain_shape _ _ _ _ Hc Hm) as [(_ & ? & _)|(o & -> & Ho & Hr & E'' & _)]; [congruence|].
      rewrite bool_decide_true by eauto. rewrite E'' in E'. injection E' as <-. lia.
    + eexists. split; [reflexivity|]. right. exists fs, a, b. split; [done| | | |by rewrite Hb|lia].
      * rewrite Hfrag. unfold merged_fragment. do 2 f_equal.
        destruct (chain_shape _ _ _ _ Hc Hm) as [(-> & -> & _)|(o & -> & _ & _ & -> & _)]; [done|]. cbn. f_equal. lia.
      * destruct Hparts as (body' & data' & Hp' & Hn' & Hs'). exists body', data'. split_and!; [done|lia|].
        intros Hb'. rewrite Hs'. by apply (made_sealed (pd_event p) b body).
      * change (ev_subject ((pd_event p) <| ev_payload := payload |>)) with (ev_subject (pd_event p)).
        by apply (chain_subject l fs a b).
Qed.

(** * The lane *)
Abbreviation flush := (flush from_str to_string).
Abbreviation offer := (offer from_str to_string).
Abbreviation round := (round from_str to_string).
Definition all_made (l : list EventPublish) : Prop := Forall (fun e => made e = true) l.
(** [out] and what the coalescer still holds stand for the sources [l]. *)
Definition holding (c : Coalescer) (l : list EventPublish) : Prop :=
  match co_pending c with None => l = [] | Some p => held p l end.
Definition accounts (out : list EventPublish) (c : Coalescer) (l : list EventPublish) : Prop :=
  exists groups rest, Forall2 stands_for out groups /\ holding c rest /\ l = List.concat groups ++ rest.
Lemma accounts_start c l : holding c l -> accounts [] c l.
Proof. intros H. by exists [], l. Qed.
Lemma accounts_flush out c l c' out' : accounts out c l -> all_made l -> flush c out = (c', out') ->
  accounts out' c' l /\ co_pending c' = None.
Proof.
  intros (groups & rest & Hg & Hh & ->) Hm. unfold Coalesce.flush, holding in *.
  apply Forall_app in Hm as [_ Hm]. destruct (co_pending c) as [p|] eqn:Ep; intros [= <- <-].
  - destruct (flush_stands p rest Hh Hm) as (e & -> & He). split; [|done].
    exists (groups ++ [rest]), []. split_and!; [|done|].
    + apply Forall2_app; [done|]. by constructor.
    + rewrite concat_app. cbn. by rewrite !app_nil_r.
  - split; [|done]. exists groups, rest. split_and!; [done| |done]. unfold holding. by rewrite Ep.
Qed.
Lemma accounts_direct out c l e : accounts out c l -> co_pending c = None -> accounts (out ++ [e]) c (l ++ [e]).
Proof.
  intros (groups & rest & Hg & Hh & ->) Hc. unfold holding in Hh. rewrite Hc in Hh. subst rest.
  exists (groups ++ [[e]]), []. split_and!; [|unfold holding; by rewrite Hc|].
  - apply Forall2_app; [done|]. repeat constructor.
  - rewrite concat_app. cbn. by rewrite !app_nil_r.
Qed.
Lemma accounts_offer e now c l c' out : accounts [] c l -> all_made (l ++ [e]) -> offer e now c [] = (c', out) ->
  accounts out c' (l ++ [e]).
Proof.
  intros Ha Hm. apply Forall_app in Hm as [Hm _]. unfold Coalesce.offer.
  destruct (if expired c now then flush c [] else (c, [])) as [c1 out1] eqn:E1.
  assert (H1 : accounts out1 c1 l).
  { destruct (expired c now); [by apply (accounts_flush [] c l)|]. by injection E1 as <- <-. }
  destruct (fragment_of e) as [f|] eqn:Hf.
  2:{ destruct (flush c1 out1) as [c2 out2] eqn:E2. apply (accounts_flush _ _ _ _ _ H1 Hm) in E2 as [H2 Hn].
      intros [= <- <-]. by apply accounts_direct. }
  set (merges := match co_pending c1 with Some p => accepts p f e | None => false end).
  destruct (if negb merges then flush c1 out1 else (c1, out1)) as [c2 out2] eqn:E2. intros [= <- <-].
  assert (H2 : accounts out2 c2 l /\ (co_pending c2 = None \/ exists p, co_pending c2 = Some p /\ accepts p f e = true)).
  { destruct merges eqn:Em; cbn in E2.
    - injection E2 as <- <-. split; [done|right]. unfold merges in Em. destruct (co_pending c1) as [p|]; [by eexists|done].
    - apply (accounts_flush _ _ _ _ _ H1 Hm) in E2 as [H2 Hn]. auto. }
  destruct H2 as [(groups & rest & Hg & Hh & ->) Hp]. exists groups, (rest ++ [e]).
  split_and!; [done| |by rewrite app_assoc]. unfold holding in *. cbn [co_pending].
  destruct Hp as [Hp|(p & Hp & Hacc)]; rewrite Hp in *; [subst rest; by apply held_one|by apply held_more].
Qed.
(** What arrives in a round. *)
Definition arrival (r : Round) : list EventPublish :=
  match r with REvent e _ | RDirect e => [e] | _ => [] end.
Lemma accounts_round r c l c' out continues : holding c l -> all_made (l ++ arrival r) ->
  round r c = (c', out, continues) ->
  accounts out c' (l ++ arrival r) /\ (continues = false -> co_pending c' = None).
Proof.
  intros Hh Hm. assert (Hl : all_made l) by by apply Forall_app in Hm as [Hm _].
  pose proof (accounts_start c l Hh) as Ha. unfold Coalesce.round. destruct r; cbn [arrival] in *; rewrite ?app_nil_r.
  - destruct (flush c []) as [c1 out1] eqn:E. intros [= <- <- <-].
    destruct (accounts_flush _ _ _ _ _ Ha Hl E). done.
  - destruct (offer event now c []) as [c1 out1] eqn:E. intros [= <- <- <-].
    split; [|done]. by apply (accounts_offer event now c).
  - destruct (flush c []) as [c1 out1] eqn:E. intros [= <- <- <-].
    destruct (accounts_flush _ _ _ _ _ Ha Hl E). split; [|done]. by apply accounts_direct.
  - destruct (flush c []) as [c1 out1] eqn:E. intros [= <- <- <-].
    destruct (accounts_flush _ _ _ _ _ Ha Hl E). done.
Qed.

(** The events a run hands to its batches while nothing fails, with the
    coalescer it ends in, and the events that arrived. *)
Fixpoint lane (rounds : list Round) (c : Coalescer) : list EventPublish * Coalescer :=
  match rounds with
  | [] => ([], c)
  | r :: rounds =>
      let '(c, out, continues) := round r c in
      if (continues : bool) then let '(more, c) := lane rounds c in (out ++ more, c) else (out, c)
  end.
Fixpoint arrivals (rounds : list Round) : list EventPublish :=
  match rounds with
  | [] => []
  | RClosed :: _ => []
  | r :: rounds => arrival r ++ arrivals rounds
  end.
Lemma round_continues r c c' out continues : round r c = (c', out, continues) ->
  continues = match r with RClosed => false | _ => true end.
Proof.
  unfold Coalesce.round. destruct r; [destruct (flush c [])|destruct (offer _ _ _ _)|destruct (flush c [])|destruct (flush c [])];
    by intros [= _ _ <-].
Qed.
Lemma lane_accounts rounds : forall c l out c', holding c l -> all_made (l ++ arrivals rounds) ->
  lane rounds c = (out, c') ->
  accounts out c' (l ++ arrivals rounds) /\ (RClosed ∈ rounds -> co_pending c' = None).
Proof.
  induction rounds as [|r rounds IH]; intros c l out c' Hh Hm; cbn [lane].
  - intros [= <- <-]. cbn. rewrite app_nil_r. split; [by apply accounts_start|set_solver].
  - destruct (round r c) as [[c1 out1] continues] eqn:E. pose proof (round_continues _ _ _ _ _ E) as Hcont.
    assert (Harr : arrivals (r :: rounds) = arrival r ++ (if continues then arrivals rounds else [])).
    { rewrite Hcont. by destruct r. }
    rewrite Harr, app_assoc in *. apply Forall_app in Hm as [Hm1 Hm2].
    destruct (accounts_round r c l c1 out1 continues Hh Hm1 E) as [Ha Hstop]. destruct continues.
    + destruct Ha as (g & rest & Hg & Hh1 & Er). rewrite Er in *. apply Forall_app in Hm1 as [_ Hm1].
      destruct (lane rounds c1) as [more c2] eqn:El. intros [= <- <-].
      destruct (IH c1 rest more c2 Hh1 ltac:(by apply Forall_app) El) as [(g' & rest' & Hg' & Hh2 & E') Hn].
      split; [|by intros [<-|?]%elem_of_cons; [|apply Hn]]. exists (g ++ g'), rest'.
      split_and!; [by apply Forall2_app|done|]. by rewrite concat_app, <- !app_assoc, E'.
    + intros [= <- <-]. rewrite app_nil_r. split; [done|auto].
Qed.

(** * Transport *)
Lemma send_all_app transport l l' : forall n,
  fst (send_all transport n (l ++ l')) =
  fst (send_all transport n l) ++
  if snd (send_all transport n l) then fst (send_all transport (n + List.length (fst (send_all transport n l))) l') else [].
Proof.
  induction l as [|m l IH]; intros n; cbn; [by rewrite Nat.add_0_r|]. destruct (transport n); cbn; [|done].
  specialize (IH (S n)). destruct (send_all transport (S n) (l ++ l')), (send_all transport (S n) l) as [sent ok]. cbn in *.
  rewrite IH. by rewrite Nat.add_succ_r.
Qed.
Lemma send_all_prefix transport l : forall n, fst (send_all transport n l) `prefix_of` l.
Proof.
  induction l as [|m l IH]; intros n; cbn; [done|]. destruct (transport n); cbn.
  - specialize (IH (S n)). destruct (send_all transport (S n) l). cbn in *. by apply prefix_cons.
  - apply prefix_cons, prefix_nil.
Qed.
Lemma send_all_ok transport l : (forall n, transport n = true) -> forall n, send_all transport n l = (l, true).
Proof. intros H. induction l as [|m l IH]; intros n; cbn; [done|]. by rewrite H, IH. Qed.
Definition all_messages (l : list EventPublish) : list (string * string) := List.concat (List.map messages l).
Lemma run_lane transport rounds : forall n c,
  run_event_publisher from_str to_string transport n rounds c
  = fst (send_all transport n (all_messages (fst (lane rounds c)))).
Proof.
  induction rounds as [|r rounds IH]; intros n c; [done|].
  cbn [run_event_publisher lane]. destruct (round r c) as [[c1 out1] continues] eqn:E.
  unfold publish_batch. fold (all_messages out1). destruct continues.
  - specialize (IH (n + List.length (fst (send_all transport n (all_messages out1))))%nat c1).
    destruct (lane rounds c1) as [more c2]. cbn [fst] in *. unfold all_messages at 2. rewrite map_app, concat_app.
    fold (all_messages out1) (all_messages more). rewrite send_all_app.
    destruct (send_all transport n (all_messages out1)) as [sent ok]. cbn [fst snd] in *.
    destruct ok; cbn [andb]; [by rewrite IH|done].
  - cbn [fst]. destruct (send_all transport n (all_messages out1)) as [sent ok]. rewrite andb_false_r. cbn.
    by rewrite app_nil_r.
Qed.
End Lane.
