(* ===== verification/CoalesceClaims.v ===== *)
(** What the event lane promises.  Merging changes nothing for two readers, one
    that appends fragments to the text of their stream, and the consumer of
    canonical ranges that trims what it has already applied; no event is lost;
    and concrete lanes. *)
From S2P Require Import Prelude Json TaskTypes ContentRange Coalesce CoalesceProps.

#[export] Instance StreamKey_countable : Countable StreamKey :=
  inj_countable' (fun k => (sk_session k, sk_run k, sk_epoch k, sk_event_type k, sk_tool k, sk_block k, sk_content k))
    (fun '(s, r, e, t, o, b, c) => mkKey s r e t o b c) ltac:(by intros []).

Section Readers.
Variable from_str : string -> option Value.
Variable to_string : Value -> string.
Variable subject_of : string -> string.
Hypothesis print_parse : forall v, plain v = true -> from_str (to_string v) = Some v.
Abbreviation fragment_of := (fragment_of from_str).
Abbreviation parts := (parts from_str).
Abbreviation made := (made from_str subject_of).
Abbreviation chain := (chain from_str).
Abbreviation stands_for := (stands_for from_str).
Abbreviation merged_from := (merged_from from_str).

(** * The reader of text *)
(** What a reader shows, by subject and stream, and the other events in the
    order it met them, each with what was shown then. *)
Definition Texts : Type := gmap (string * StreamKey) string.
Record View := mkView { vw_texts : Texts; vw_log : list (EventPublish * Texts) }.
Definition show_text (place : string * StreamKey) (text : string) (replaces : bool) (v : View) : View :=
  mkView (<[place := if replaces then text else default "" (vw_texts v !! place) +:+ text]> (vw_texts v)) (vw_log v).
Definition read (v : View) (e : EventPublish) : View :=
  match fragment_of e with
  | Some f => show_text (ev_subject e, fr_key f) (fr_text f) (fr_replaces f) v
  | None => mkView (vw_texts v) (vw_log v ++ [(e, vw_texts v)])
  end.
Lemma show_text_twice place t t' r r' v :
  show_text place t' r' (show_text place t r v) =
  show_text place (if r' then t' else t +:+ t') (r || r') v.
Proof.
  unfold show_text, Texts. cbn [vw_texts vw_log]. rewrite lookup_insert_eq, insert_insert_eq. do 2 f_equal.
  destruct r', r; cbn; rewrite ?append_assoc; done.
Qed.
Lemma read_chain subject l fs a b : chain l fs a b -> Forall (fun s => ev_subject s = subject) l -> forall v,
  List.fold_left read l v = show_text (subject, fr_key b) (fst (group_text fs)) (snd (group_text fs)) v.
Proof.
  intros H. induction H as [e f Hf|l fs a b e f Hc IH Hf (Hk & _ & _)]; intros Hs v.
  - rewrite Forall_singleton in Hs. cbn. unfold read. rewrite Hf, Hs. unfold group_text. cbn.
    by destruct (fr_replaces f).
  - apply Forall_app in Hs as [Hs He]. rewrite Forall_singleton in He. rewrite fold_left_app, IH by done. cbn.
    unfold read. rewrite Hf, He, Hk, show_text_twice, group_text_app. unfold read_text. cbn. done.
Qed.
Lemma read_stands e l v : stands_for e l -> List.fold_left read l v = read v e.
Proof.
  intros [->|(fs & a & b & [Hc Hf _ Hs _ _])]; [done|]. rewrite (read_chain _ _ _ _ _ Hc Hs). unfold read. by rewrite Hf.
Qed.
Lemma fold_stands {A} (f : A -> EventPublish -> A) out groups :
  (forall e l, stands_for e l -> forall v, List.fold_left f l v = f v e) -> Forall2 stands_for out groups ->
  forall v, List.fold_left f out v = List.fold_left f (List.concat groups) v.
Proof.
  intros Hf H. induction H as [|e l out groups He _ IH]; intros v; cbn; [done|].
  by rewrite fold_left_app, (Hf e l He), IH.
Qed.

(** * The consumer of ranges *)
(** The text of every canonical content key, behind the cursors. *)
Definition Consumer : Type := ContentCursors * gmap Identity string.
Definition append_text (id : Identity) (text : string) (texts : gmap Identity string) : gmap Identity string :=
  <[id := default "" (texts !! id) +:+ text]> texts.
Definition consume (c : Consumer) (e : EventPublish) : string + Consumer :=
  match parts e with
  | None => inr c
  | Some (body, data) =>
      let run := text_of "runId" (VObject body) in
      let epoch := default 0 (map_get "epoch" body ≫= as_i64) in
      match apply_range run epoch (text_of "type" (VObject body)) (VObject data) (fst c) with
      | inl error => inl error
      | inr (data', offsets) =>
          inr (offsets, match canonical_key data with
                        | Some key => append_text (run, epoch, key) (text_of "text" data') (snd c)
                        | None => snd c
                        end)
      end
  end.
Definition consume_next (c : string + Consumer) (e : EventPublish) : string + Consumer :=
  match c with inl error => inl error | inr c => consume c e end.
Definition identity_of (f : Fragment) : Identity := (sk_run (fr_key f), sk_epoch (fr_key f), sk_content (fr_key f)).
(** What a range of text does to the consumer. *)
Definition take_range (id : Identity) (offset : Z) (text : string) (c : Consumer) : string + Consumer :=
  let seen := default 0 (fst c !! id) in
  let length := Z.of_nat (String.length text) in
  if seen <? offset then inl "canonical content has a missing prefix"
  else match text_from (Z.to_nat (Z.min (seen - offset) length)) text with
       | None => inl "canonical overlap splits UTF-8"
       | Some tail => inr (<[id := Z.max (offset + length) seen]> (fst c), append_text id tail (snd c))
       end.
Lemma key_of_fragment body data f : fragment_from body data = Some f ->
  sk_run (fr_key f) = text_of "runId" (VObject body) /\ sk_epoch (fr_key f) = default 0 (map_get "epoch" body ≫= as_i64)
  /\ sk_event_type (fr_key f) = text_of "type" (VObject body) /\ sk_content (fr_key f) = default "" (canonical_key data)
  /\ map_get "text" data ≫= as_str = Some (fr_text f).
Proof.
  unfold fragment_from. unfold text_of at 4. rewrite !get_object.
  destruct (map_get "type" body ≫= as_str) as [t|]; [|done]. cbn [mbind option_bind].
  destruct (negb _); [done|]. destruct (map_get "text" data ≫= as_str) as [s|]; [|done]. cbn [mbind option_bind].
  destruct (content_range _ _). destruct (_ && _); [done|]. by intros [= <-].
Qed.
Lemma consume_canonical e f body data offset c :
  parts e = Some (body, data) -> fragment_from body data = Some f -> fr_content_offset f = Some offset ->
  trimmed_kind (sk_event_type (fr_key f)) = true -> sealed (VObject data) = false ->
  consume c e = take_range (identity_of f) offset (fr_text f) c.
Proof.
  intros Hp Hf Ho Hkind Hs. unfold consume, identity_of. rewrite Hp.
  destruct (key_of_fragment _ _ _ Hf) as (-> & -> & Hty & -> & Htext). rewrite Hty in Hkind.
  destruct (canonical_key data) as [key|] eqn:Hk.
  2:{ apply legacy_fields in Hf as (Hn & _); [|done]. congruence. }
  destruct (canonical_fields _ _ _ _ Hk Hf) as (o & ce & Ho' & _ & Hget & Hlen & -> & Hmax).
  rewrite Ho in Ho'. injection Ho' as <-. unfold apply_range. rewrite get_object. unfold canonical_key in Hk.
  rewrite Hk. rewrite !get_object, Hget, Hlen. unfold u64_checked_add. rewrite (proj2 (Z.leb_le _ _)) by done.
  rewrite Hs, Hkind, andb_true_r. unfold take_range. cbn [default from_option].
  set (seen := default 0 (fst c !! _)). destruct (Z.ltb_spec seen offset); [done|].
  unfold trim_overlap. rewrite get_object, Htext. cbn [default from_option id]. rewrite Z.eqb_refl. cbn [negb].
  rewrite Z.max_l by lia. destruct (text_from _ _) as [tail|]; [|done].
  cbn [assign_field]. unfold sealed, text_of in *. rewrite !get_object in *. lookups. by rewrite Hs.
Qed.
Lemma consume_legacy e f body data c : parts e = Some (body, data) -> fragment_from body data = Some f ->
  fr_content_offset f = None -> consume c e = inr c.
Proof.
  intros Hp Hf Ho. unfold consume. rewrite Hp. destruct (canonical_key data) as [key|] eqn:Hk.
  - destruct (canonical_fields _ _ _ _ Hk Hf) as (o & ce & Ho' & _). congruence.
  - unfold apply_range. rewrite get_object. unfold canonical_key in Hk. rewrite Hk. by destruct c.
Qed.

(** A reader whose cursor is inside the index range of a canonical event may take it. *)
Lemma covers_range body data f expected : fragment_from body data = Some f -> is_Some (fr_content_offset f) ->
  0 <= fr_first_idx f <= expected -> expected <= fr_idx f -> covers_next (VObject data) expected (fr_idx f) = true.
Proof.
  intros Hf Ho H1 H2. unfold covers_next. rewrite !get_object.
  destruct (canonical_key data) as [key|] eqn:Hk.
  2:{ apply legacy_fields in Hf as (Hn & _); [|done]. rewrite Hn in Ho. by destruct Ho. }
  unfold canonical_key in Hk. rewrite Hk, bool_decide_true by eauto.
  assert (Hfirst : map_get "content_first_idx" data ≫= as_i64 = Some (fr_first_idx f) \/ fr_first_idx f = fr_idx f).
  { revert Hf. clear -Hk. unfold fragment_from, canonical_key, index. rewrite !get_object, Hk.
    destruct (map_get "type" body ≫= as_str) as [t|]; [|done]. cbn [mbind option_bind].
    destruct (negb _); [done|]. destruct (map_get "text" data ≫= as_str) as [s|]; [|done]. cbn [mbind option_bind].
    destruct (content_range _ _). destruct (_ && _); [done|]. intros [= <-]. cbn [fr_first_idx fr_idx].
    destruct (map_get "content_first_idx" data) as [v|]; cbn; [|by right].
    destruct (as_i64 v) as [n|]; [by left|by right]. }
  destruct Hfirst as [Hg|Hg]; [rewrite Hg; lia|]. lia.
Qed.

(** * A range in two pieces *)
Lemma get_append_l s t n : (n < String.length s)%nat -> String.get n (s +:+ t) = String.get n s.
Proof.
  revert n. induction s as [|c s IH]; intros n Hn; cbn in Hn; [lia|].
  change (String c s +:+ t) with (String c (s +:+ t)). destruct n as [|n]; cbn; [done|]. apply IH. lia.
Qed.
Lemma get_append_r s t n : String.get (String.length s + n) (s +:+ t) = String.get n t.
Proof. induction s as [|c s IH]; [done|]. change (String c s +:+ t) with (String c (s +:+ t)). exact IH. Qed.
Lemma boundary_append_l s t n : (n < String.length s)%nat -> is_char_boundary (s +:+ t) n = is_char_boundary s n.
Proof.
  intros Hn. unfold is_char_boundary. rewrite get_append_l by done. destruct (String.get n s) as [c|] eqn:E; [done|].
  rewrite length_append. exfalso. revert n Hn E. induction s as [|c s IH]; intros [|n] Hn E; cbn in *; try lia; [done|].
  apply (IH n); [lia|done].
Qed.
Lemma boundary_append_r s t n : is_char_boundary (s +:+ t) (String.length s + n) = is_char_boundary t n.
Proof.
  unfold is_char_boundary. rewrite get_append_r, length_append. destruct (String.get n t); [done|].
  destruct (Nat.eqb_spec n (String.length t)) as [->|Hn]; [by apply Nat.eqb_eq|apply Nat.eqb_neq; lia].
Qed.
Lemma boundary_end s : is_char_boundary s (String.length s) = true.
Proof.
  unfold is_char_boundary. assert (String.get (String.length s) s = None) as ->; [|apply Nat.eqb_refl].
  induction s; [done|exact IHs].
Qed.
Lemma drop_append_l s t n : (n <= String.length s)%nat -> drop_bytes n (s +:+ t) = drop_bytes n s +:+ t.
Proof.
  revert n. induction s as [|c s IH]; intros n Hn; cbn in Hn; [by assert (n = 0)%nat as -> by lia|].
  change (String c s +:+ t) with (String c (s +:+ t)). destruct n as [|n]; [done|]. apply IH. lia.
Qed.
Lemma drop_append_r s t n : drop_bytes (String.length s + n) (s +:+ t) = drop_bytes n t.
Proof. induction s as [|c s IH]; [done|]. change (String c s +:+ t) with (String c (s +:+ t)). exact IH. Qed.
Lemma drop_all s : drop_bytes (String.length s) s = "".
Proof. induction s; [done|exact IHs]. Qed.
Lemma append_text_twice id t t' texts : append_text id t' (append_text id t texts) = append_text id (t +:+ t') texts.
Proof. unfold append_text. rewrite lookup_insert_eq, insert_insert_eq. cbn. by rewrite append_assoc. Qed.
Lemma take_range_app id offset s t c : 0 <= offset -> is_char_boundary t 0 = true ->
  take_range id offset (s +:+ t) c =
  match take_range id offset s c with
  | inl error => inl error
  | inr c' => take_range id (offset + Z.of_nat (String.length s)) t c'
  end.
Proof.
  intros H0 Ht. destruct c as [offsets texts]. unfold take_range, ContentCursors in *. cbn [fst snd].
  set (seen := default 0 (offsets !! id)).
  destruct (Z.ltb_spec seen offset) as [|Hseen]; [done|]. rewrite length_append, Nat2Z.inj_add.
  set (n := Z.of_nat (String.length s)). set (m := Z.of_nat (String.length t)). unfold text_from.
  destruct (Z.le_gt_cases (seen - offset) n) as [Hle|Hgt].
  - rewrite !Z.min_l by lia.
    assert (Hb : is_char_boundary (s +:+ t) (Z.to_nat (seen - offset)) = is_char_boundary s (Z.to_nat (seen - offset))).
    { destruct (Z.eq_dec (seen - offset) n) as [->|Hne]; [|apply boundary_append_l; lia].
      unfold n. rewrite Nat2Z.id, boundary_end. rewrite <- (Nat.add_0_r (String.length s)), boundary_append_r. done. }
    rewrite Hb. destruct (is_char_boundary s _); [|done]. cbn [fst snd]. rewrite lookup_insert_eq. cbn [default from_option]; change (@Datatypes.id ?A ?x) with x.
    rewrite (Z.max_l (offset + n) seen) by lia. rewrite (proj2 (Z.ltb_ge _ _)) by lia. rewrite Z.sub_diag, Z.min_l by lia. change (Z.to_nat 0) with 0%nat. rewrite Ht.
    rewrite insert_insert_eq, append_text_twice, drop_append_l by lia. do 3 f_equal. lia.
  - rewrite (Z.min_r (seen - offset) n) by lia. replace (Z.to_nat n) with (String.length s) by lia. rewrite boundary_end. cbn [fst snd].
    rewrite lookup_insert_eq. cbn [default from_option]; change (@Datatypes.id ?A ?x) with x. rewrite (Z.max_r (offset + n) seen) by lia.
    rewrite (proj2 (Z.ltb_ge seen (offset + n))) by lia.
    assert (Hk : Z.to_nat (Z.min (seen - offset) (n + m))
                 = (String.length s + Z.to_nat (Z.min (seen - (offset + n)) m))%nat) by lia.
    rewrite Hk, boundary_append_r. destruct (is_char_boundary t (Z.to_nat _)); [|done]. cbn [fst snd].
    rewrite insert_insert_eq, append_text_twice, drop_append_r, drop_all. do 3 f_equal. lia.
Qed.

(** * A group of fragments *)
Lemma range_text l fs a b : chain l fs a b -> Forall (fun e => made e = true) l -> forall offset, fr_content_offset a = Some offset ->
  0 <= offset /\ fr_content_end b = Some (offset + Z.of_nat (String.length (fst (group_text fs)))).
Proof.
  intros Hc Hm offset Ho. destruct (chain_shape _ _ _ _ _ _ Hc Hm) as [(Hn & _)|(o & Ho' & H0 & _ & He & _)]; [congruence|].
  rewrite Ho in Ho'. by injection Ho' as <-.
Qed.
Lemma consume_made e f offset c : made e = true -> fragment_of e = Some f -> fr_content_offset f = Some offset ->
  consume c e = take_range (identity_of f) offset (fr_text f) c.
Proof.
  intros Hm Hf Ho. destruct (made_parts _ _ e f Hm Hf) as (body & data & Hp & Hfrom & _).
  destruct (made_shape _ _ _ _ Hm Hf) as [Hn|o _ _ _ _ _ _ Hkind _]; [congruence|].
  apply (consume_canonical e f body data); try done. eapply made_sealed; [done..|]. by eexists.
Qed.
Lemma consume_made_legacy e f c : made e = true -> fragment_of e = Some f -> fr_content_offset f = None ->
  consume c e = inr c.
Proof.
  intros Hm Hf Ho. destruct (made_parts _ _ e f Hm Hf) as (body & data & Hp & Hfrom & _).
  by apply (consume_legacy e f body data).
Qed.
Lemma consume_error error l : List.fold_left consume_next l (inl error) = inl error.
Proof. induction l; [done|exact IHl]. Qed.
Lemma consume_chain l fs a b : chain l fs a b -> Forall (fun e => made e = true) l -> forall c,
  List.fold_left consume_next l (inr c) =
  match fr_content_offset a with
  | Some offset => take_range (identity_of b) offset (fst (group_text fs)) c
  | None => inr c
  end.
Proof.
  intros H. induction H as [e f Hf|l fs a b e f Hc IH Hf (Hk & Hi & He)]; intros Hm c.
  - rewrite Forall_singleton in Hm. cbn. unfold group_text, read_text. cbn.
    destruct (fr_content_offset f) as [offset|] eqn:Ho; [|by apply (consume_made_legacy e f)].
    rewrite (consume_made e f offset) by done. by destruct (fr_replaces f).
  - apply Forall_app in Hm as [Hm Hme]. rewrite Forall_singleton in Hme.
    rewrite fold_left_app, IH by done. cbn [List.fold_left]. destruct (fr_content_offset a) as [offset|] eqn:Ho.
    + destruct (range_text _ _ _ _ Hc Hm _ Ho) as [H0 Hend]. rewrite Hend in He. symmetry in He.
      assert (Hid : identity_of f = identity_of b) by (unfold identity_of; by rewrite Hk).
      destruct (made_shape _ _ _ _ Hme Hf) as [Hn|o Ho' _ _ _ _ Hr _ Hchar]; [congruence|].
      rewrite He in Ho'. injection Ho' as <-. rewrite group_text_app. unfold read_text. cbn [fst].
      assert (Htext : (if fr_replaces f then fr_text f else fst (group_text fs) +:+ fr_text f) = fst (group_text fs) +:+ fr_text f).
      { destruct (fr_replaces f); [|done]. specialize (Hr eq_refl).
        destruct (fst (group_text fs)); [done|cbn [String.length] in Hr; lia]. }
      rewrite Htext, Hid, take_range_app by done. destruct (take_range _ offset _ c) as [error|c'] eqn:Et; [done|].
      unfold consume_next. rewrite (consume_made e f _ c' Hme Hf He), Hid. done.
    + unfold consume_next. apply (consume_made_legacy e f); [done|done|].
      destruct (chain_shape _ _ _ _ _ _ Hc Hm) as [(_ & Hb & _)|(o & Ho' & _)]; [|congruence]. by rewrite <- He.
Qed.
Lemma chain_end l fs a b : chain l fs a b -> exists e, e ∈ l /\ fragment_of e = Some b.
Proof. intros H. destruct H as [e f Hf|l fs a b e f _ Hf _]; exists e; set_solver. Qed.
Lemma canonical_end l fs a b offset : chain l fs a b -> Forall (fun e => made e = true) l -> fr_content_offset a = Some offset ->
  is_Some (fr_content_offset b) /\ trimmed_kind (sk_event_type (fr_key b)) = true.
Proof.
  intros Hc Hm Ho. destruct (range_text _ _ _ _ Hc Hm _ Ho) as [_ Hend]. destruct (chain_end _ _ _ _ Hc) as (e & Hin & Hf).
  rewrite Forall_forall in Hm. destruct (made_shape _ _ _ _ (Hm e Hin) Hf) as [_ Hn|o Ho' _ _ _ _ _ Hkind _]; [congruence|].
  split; [by eexists|done].
Qed.
Lemma consume_stands e l c : Forall (fun e => made e = true) l -> stands_for e l ->
  List.fold_left consume_next l c = consume_next c e.
Proof.
  intros Hm [->|(fs & a & b & [Hc Hf (body & data & Hp & _ & Hs) _ _ _])]; [done|].
  destruct c as [error|c]; [apply consume_error|]. rewrite (consume_chain _ _ _ _ Hc Hm). cbn [consume_next].
  rewrite (fragment_parts _ _ _ _ Hp) in Hf. destruct (fr_content_offset a) as [offset|] eqn:Ho.
  - destruct (canonical_end _ _ _ _ _ Hc Hm Ho) as [Hb Hkind]. symmetry.
    apply (consume_canonical e (merged_fragment fs a b) body data); [done|done|done|done|by apply Hs].
  - symmetry. by apply (consume_legacy e (merged_fragment fs a b) body data).
Qed.
End Readers.

(** * What the lane promises *)
Section Claims.
Variable from_str : string -> option Value.
Variable to_string : Value -> string.
Variable subject_of : string -> string.
Hypothesis print_parse : forall v, plain v = true -> from_str (to_string v) = Some v.
Abbreviation made := (made from_str subject_of).
Abbreviation run := (run_event_publisher from_str to_string).

Lemma lane_out rounds : Forall (fun e => made e = true) (arrivals rounds) ->
  exists out groups rest, fst (lane from_str to_string rounds coalescer_default) = out
    /\ Forall2 (stands_for from_str) out groups /\ arrivals rounds = List.concat groups ++ rest
    /\ (RClosed ∈ rounds -> rest = []).
Proof.
  intros Hm. destruct (lane from_str to_string rounds coalescer_default) as [out c] eqn:E.
  destruct (lane_accounts from_str to_string subject_of print_parse rounds coalescer_default [] out c)
    as [(groups & rest & Hg & Hh & Ea) Hc]; [done|done|done|].
  exists out, groups, rest. split_and!; [done|done|done|]. intros Hin. specialize (Hc Hin).
  unfold holding in Hh. by rewrite Hc in Hh.
Qed.

(** C13: whatever arrives in whatever rounds, and wherever the transport fails,
    what is sent is a prefix of the messages of a list of events, each of which
    is a source as it came or is merged from consecutive fragments of one stream
    (same session, run, epoch, type, tool, block and content key, each index and
    each byte range beginning where the one before ends), within the limits on
    count and bytes, and says exactly which indices and bytes it covers.  Every
    source is accounted for, in order; none is left when the queue closes. *)
Theorem lane_accounts_for_every_event transport rounds :
  Forall (fun e => made e = true) (arrivals rounds) ->
  exists out groups rest,
    run transport 0 rounds coalescer_default `prefix_of` all_messages out
    /\ ((forall n, transport n = true) -> run transport 0 rounds coalescer_default = all_messages out)
    /\ Forall2 (stands_for from_str) out groups /\ arrivals rounds = List.concat groups ++ rest
    /\ (RClosed ∈ rounds -> rest = []).
Proof.
  intros Hm. destruct (lane_out rounds Hm) as (out & groups & rest & <- & Hg & Ea & Hc).
  exists (fst (lane from_str to_string rounds coalescer_default)), groups, rest. rewrite run_lane.
  split_and!; [apply send_all_prefix| |done|done|done]. intros Ht. by rewrite send_all_ok.
Qed.

(** C6: merging cannot be seen: whatever way the events of a queue are cut into
    rounds and merged, a reader that appends fragments to the text of their
    stream ends with the same texts, meets every other event as it was and at the
    same state of the texts, and the consumer that trims canonical ranges ends
    with the same cursors and texts or with the same error, as if it had been
    sent every event by itself. *)
Theorem coalescing_is_invisible transport rounds :
  Forall (fun e => made e = true) (arrivals rounds) -> RClosed ∈ rounds -> (forall n, transport n = true) ->
  exists out, run transport 0 rounds coalescer_default = all_messages out
    /\ (forall v, List.fold_left (read from_str) out v = List.fold_left (read from_str) (arrivals rounds) v)
    /\ (forall c, List.fold_left (consume_next from_str) out c
                  = List.fold_left (consume_next from_str) (arrivals rounds) c).
Proof.
  intros Hm Hc Ht. destruct (lane_out rounds Hm) as (out & groups & rest & Ho & Hg & Ea & Hrest).
  rewrite (Hrest Hc), app_nil_r in Ea. rewrite Ea in *. exists out. split_and!.
  - by rewrite run_lane, Ho, send_all_ok.
  - eapply fold_stands; [|done]. intros e l He v. by eapply read_stands.
  - clear Ea Ho. induction Hg as [|e l out groups He _ IH]; intros c; [done|]. cbn in *.
    apply Forall_app in Hm as [Hl Hm]. rewrite fold_left_app.
    rewrite (consume_stands from_str to_string subject_of print_parse e l c Hl He). by apply IH.
Qed.

Lemma offer_first e f now : Coalesce.fragment_of from_str e = Some f ->
  offer from_str to_string e now coalescer_default [] = (mkCoalescer (Some (pending_of f e now)) None, []).
Proof. intros Hf. unfold offer. cbn. by rewrite Hf. Qed.
Lemma offer_merge e f now p : Coalesce.fragment_of from_str e = Some f -> accepts p f e = true ->
  now - pd_opened p < COALESCE_WINDOW ->
  offer from_str to_string e now (mkCoalescer (Some p) None) [] = (mkCoalescer (Some (merge f e p)) None, []).
Proof.
  intros Hf Hacc Hw. unfold offer, expired. cbn [co_pending window co_window default from_option].
  rewrite (proj2 (Z.leb_gt _ _)) by (unfold window, COALESCE_WINDOW in *; cbn; lia).
  rewrite Hf. cbn [co_pending]. by rewrite Hacc.
Qed.
(** A fragment whose content key is not text passes for one without a key
    until it is merged: two consecutive ones inside the window are taken from
    the queue and neither is sent. *)
Theorem a_null_key_loses_its_group transport e e' f f' body data now :
  Coalesce.fragment_of from_str e = Some f -> Coalesce.fragment_of from_str e' = Some f' -> follows f f' ->
  - i64_max <= fr_idx f < i64_max -> payload_len e + payload_len e' <= MAX_MERGED_BYTES ->
  parts from_str e' = Some (body, data) ->
  map_get "content_key" data = Some VNull -> map_get "content_offset" data = None ->
  run transport 0 [REvent e now; REvent e' now; RClosed] coalescer_default = [].
Proof.
  intros Hf Hf' (Hk & Hi & He) Hidx Hb Hp Hkey Hoff.
  assert (Hacc : accepts (pending_of f e now) f' e' = true).
  { unfold accepts, i64_checked_add. cbn -[Z.add]. rewrite !andb_true_iff, !bool_decide_eq_true, Z.ltb_lt, Z.leb_le, Hi.
    split_and!; [done| |done|done|done]. by rewrite !(proj2 (Z.leb_le _ _)) by lia. }
  cbn [run_event_publisher round]. rewrite (offer_first e f now Hf). cbn [publish_batch List.map List.concat send_all andb app].
  rewrite (offer_merge e' f' now _ Hf' Hacc) by (cbn -[Z.sub]; unfold COALESCE_WINDOW; lia).
  cbn [publish_batch List.map List.concat send_all andb app flush co_pending co_window].
  unfold flush_pending. cbn -[merged_payload]. rewrite (merged_payload_parts _ _ _ _ _ _ _ _ Hp).
  unfold merged_range. by rewrite Hkey, Hoff.
Qed.
End Claims.

(** * A text for JSON values

    Any injective text will do: the digits of the number a value is encoded as. *)
Fixpoint tree_of (v : Value) : gen_tree (bool + string + string) :=
  match v with
  | VNull => GenNode 0 []
  | VBool b => GenLeaf (inl (inl b))
  | VNumber t => GenLeaf (inl (inr t))
  | VString s => GenLeaf (inr s)
  | VArray l => GenNode 1 (List.map tree_of l)
  | VObject o => GenNode 2 (List.map (fun kv => GenNode 0 [GenLeaf (inr (fst kv)); tree_of (snd kv)]) o)
  end.
Fixpoint value_of (t : gen_tree (bool + string + string)) : Value :=
  match t with
  | GenLeaf (inl (inl b)) => VBool b
  | GenLeaf (inl (inr t)) => VNumber t
  | GenLeaf (inr s) => VString s
  | GenNode 1 l => VArray (List.map value_of l)
  | GenNode 2 l =>
      VObject (List.map (fun kv => match kv with
                                   | GenNode _ [GenLeaf (inr k); v] => (k, value_of v)
                                   | _ => ("", VNull)
                                   end) l)
  | GenNode _ _ => VNull
  end.
Lemma value_of_tree v : value_of (tree_of v) = v.
Proof.
  induction v as [|b|t|s|l IH|o IH] using Value_nested_ind; cbn; try done; f_equal; rewrite map_map.
  - induction IH as [|v l E _ IHl]; cbn; [done|]. by rewrite E, IHl.
  - induction IH as [|[k v] o E _ IHo]; cbn in *; [done|]. by rewrite E, IHo.
Qed.
Fixpoint digits (p : positive) : string :=
  match p with xH => "" | xO p => String "0" (digits p) | xI p => String "1" (digits p) end.
Fixpoint number (s : string) : positive :=
  match s with
  | EmptyString => xH
  | String c s => if Ascii.eqb c "0" then xO (number s) else xI (number s)
  end.
Lemma number_digits p : number (digits p) = p.
Proof. induction p as [p IH|p IH|]; cbn; by rewrite ?IH. Qed.
Definition text_of_value (v : Value) : string := digits (encode (tree_of v)).
Definition value_of_text (s : string) : option Value := value_of <$> decode (number s).
Lemma text_round_trip v : value_of_text (text_of_value v) = Some v.
Proof. unfold value_of_text, text_of_value. rewrite number_digits, decode_encode. cbn. by rewrite value_of_tree. Qed.

(** * Concrete lanes *)
Definition subject (session : string) : string := "p.pair.evt." +:+ session.
Definition event_of (session type : string) (data : Map) (idx : Z) : EventPublish := {|
  ev_subject := subject session;
  ev_payload := text_of_value (VObject
    [("sessionId", VString session); ("type", VString type); ("data", VString (text_of_value (VObject data)));
     ("runId", VString "r"); ("idx", json_i64 idx); ("epoch", json_i64 1)]);
  ev_status_subject := None |}.
Definition delta (text : string) : Map := [("text", VString text)].
Definition range_delta (key text : string) (offset idx : Z) : Map :=
  [("text", VString text); ("content_key", VString key); ("content_offset", json_u64 offset);
   ("content_first_idx", json_i64 idx); ("content_bytes", json_u64 (Z.of_nat (String.length text)))].
(** Two legacy fragments, a tool's end, two ranges of one key, then the end. *)
Definition some_rounds : list Round :=
  [REvent (event_of "s" "text_chunk" (delta "he") 7) 0;
   REvent (event_of "s" "text_chunk" (delta "llo") 8) 10;
   REvent (event_of "s" "tool_end" [("tool_id", VString "t")] 9) 20;
   REvent (event_of "s" "thinking_delta" (range_delta "k" "ab" 0 10) 10) 30;
   REvent (event_of "s" "thinking_delta" (range_delta "k" "cde" 2 11) 11) 40;
   RTimeout; RClosed].
Lemma some_rounds_made : Forall (fun e => made value_of_text subject e = true) (arrivals some_rounds).
Proof. apply Forall_forall. intros e He. revert e He. apply Forall_forall. repeat constructor. Qed.

Lemma lane_accounts_for_every_event_witness :
  exists out groups rest,
    run_event_publisher value_of_text text_of_value (fun n => (n <? 2)%nat) 0 some_rounds coalescer_default
      `prefix_of` all_messages out
    /\ ((forall n, (n <? 2)%nat = true) ->
        run_event_publisher value_of_text text_of_value (fun n => (n <? 2)%nat) 0 some_rounds coalescer_default
        = all_messages out)
    /\ Forall2 (stands_for value_of_text) out groups /\ arrivals some_rounds = List.concat groups ++ rest
    /\ (RClosed ∈ some_rounds -> rest = []).
Proof.
  apply (lane_accounts_for_every_event value_of_text text_of_value subject (fun v _ => text_round_trip v)).
  exact some_rounds_made.
Defined.
(** Three messages are sent for the five events. *)
Lemma coalescing_is_invisible_witness :
  (exists out, run_event_publisher value_of_text text_of_value (fun _ => true) 0 some_rounds coalescer_default
      = all_messages out
    /\ (forall v, List.fold_left (read value_of_text) out v
                  = List.fold_left (read value_of_text) (arrivals some_rounds) v)
    /\ (forall c, List.fold_left (consume_next value_of_text) out c
                  = List.fold_left (consume_next value_of_text) (arrivals some_rounds) c))
  /\ List.map fst (run_event_publisher value_of_text text_of_value (fun _ => true) 0 some_rounds coalescer_default)
     = [subject "s"; subject "s"; subject "s"]
  /\ List.fold_left (consume_next value_of_text) (arrivals some_rounds) (inr (∅, ∅))
     = inr ({[ ("r", 1, "k") := 5 ]}, {[ ("r", 1, "k") := "abcde" ]}).
Proof.
  split_and!.
  - apply (coalescing_is_invisible value_of_text text_of_value subject (fun v _ => text_round_trip v)).
    + exact some_rounds_made.
    + unfold some_rounds. set_solver.
    + done.
  - vm_compute. reflexivity.
  - vm_compute. reflexivity.
Defined.

Definition null_delta (text : string) : Map := [("text", VString text); ("content_key", VNull)].
Lemma a_null_key_loses_its_group_witness :
  run_event_publisher value_of_text text_of_value (fun _ => true) 0
    [REvent (event_of "s" "text_chunk" (null_delta "he") 7) 0;
     REvent (event_of "s" "text_chunk" (null_delta "llo") 8) 0; RClosed] coalescer_default = [].
Proof.
  eapply (a_null_key_loses_its_group value_of_text text_of_value (fun _ => true)).
  - vm_compute. reflexivity.
  - vm_compute. reflexivity.
  - vm_compute. done.
  - vm_compute. split; [discriminate|reflexivity].
  - vm_compute. discriminate.
  - vm_compute. reflexivity.
  - reflexivity.
  - reflexivity.
Defined.
